(* ===== verification/_CoqProject ===== *)
-Q . S2P
Prelude.v
GoLib.v
Base64.v
Json.v
JsonFacts.v
JsonStrings.v
JsonPrint.v
FileTypes.v
FileTypesFacts.v
Rbac.v
RbacFacts.v
RbacTyped.v
RbacExamples.v
Entities.v
SignedAuth.v
SignedAuthFacts.v
SignedRoundtrip.v
SignedAuthExamples.v
ControlStore.v
ControlAccess.v
ControlContext.v
ControlLeases.v
ControlReads.v
ControlExamples.v
GoTime.v
Sql.v
AuditChain.v
AuditChainFacts.v
ControlDb.v
ControlPending.v
ControlUsers.v
ControlPolicies.v
ControlAccounts.v
ControlNodes.v
ControlLinks.v
ControlEnroll.v
ControlIntents.v
ControlCalls.v
ControlSteps.v
PendingFacts.v
UsersFacts.v
PoliciesFacts.v
AssignmentsFacts.v
CredentialsFacts.v
VersionFacts.v
LinksFacts.v
EnrollFacts.v
ControlDbExamples.v
StateProg.v
StateRecords.v
StateAuthorizations.v
StateJobs.v
StatePlans.v
StateUploads.v
StatePeers.v
StateProgFacts.v
StateLaws.v
StateJobsFacts.v
StatePeersFacts.v
StateLife.v
StateSafety.v
JobGuard.v
StateCodec.v
StateExamples.v
Trust.v
StateStore.v
StateIndex.v
StateReach.v
StateFiles.v
StateSync.v
StateCompact.v
StateRefine.v
StateImage.v
StateOpen.v
StateCrash.v
StateFollow.v
StateStoreExamples.v
TrustFacts.v
FilePolicy.v
Transfers.v
