(* ===== verification/Prelude.v ===== *)
(** Verification of jolt, a control plane and its file nodes (Go sources under
    src/control and src/node).

    * The program

    A control server decides who may do what on which file of which node
    (role-based policies, control/internal/rbac), and signs short-lived
    envelopes that carry a decision and the policy context of the subject to a
    node (control/internal/signedauth). A node verifies an envelope, evaluates
    the context on the files themselves (filetypes) and does the work: it reads
    and writes files, takes uploads, and runs jobs. Everything a node must
    remember - jobs and their items, leases, confirmed plans, upload sessions,
    trash, peers, pairing, mounts, grants and its trust - is kept in a store of its own,
    an encrypted journal of transactions (node/backend/internal/infra/state).

    * The library

    Prelude.v (this file): notations, tactics, records with field assignment,
      errors and results, generic lemmas.
    GoLib.v, Base64.v, Json.v, GoTime.v: the parts of Go's standard library the
      sources use: strings, UTF-8, path, strconv, fmt, sort, encoding/base64,
      encoding/hex, encoding/json (a parser with fuel; JsonFacts.v proves that
      the fuel it is given, the length of its input, is always enough), time.
      JsonStrings.v, JsonPrint.v: what is printed parses back.
    FileTypes.v (control/internal/filetypes and the node's identical copy):
      selectors by media class, policy contexts, their decoding with the check
      for repeated names, and the filter of the node. Facts: FileTypesFacts.v.
    Rbac.v (control/internal/rbac): patterns, Evaluate, approval marks, denials
      within a subtree, compatibility rules, typed evaluation. Facts: RbacFacts.v
      (untyped), RbacTyped.v (typed); RbacExamples.v applies the theorems.
    SignedAuth.v (control/internal/signedauth and the node's copy): claims,
      signing, verification and its seven kinds of request, job leases, the
      digest of job options. Ed25519 and SHA-256 are the class [Crypto], whose
      laws [CryptoOk] are the documented lengths and the correctness of
      verification. Facts: SignedAuthFacts.v, SignedAuthExamples.v;
      SignedRoundtrip.v: what is signed is accepted.
    ControlStore.v (control/internal/store): the records the issuers of envelopes
      read; there the queries are the class [Store]. ControlAccess.v
      (control/internal/httpapi: access_context.go, signed_*_issuer.go,
      signed_policy_snapshot.go, signing_source.go, workload_auth.go, and from
      agent.go, shares.go and server.go what they call): what is checked of a
      request before an envelope is signed, and the context it carries.
      ControlContext.v: the context decides as the policies do. ControlLeases.v,
      ControlReads.v: the issued envelopes. ControlExamples.v applies them.
    Sql.v: package database/sql as the store uses it: a transaction is a function on
      the tables whose statements can fail one by one, with a commit, a rollback or
      an error at its end; a call without a transaction takes effect statement by
      statement. AuditChain.v (audit_chain.go, audit_detail.go): the hash chain over
      audit events and a verifier of the trail. AuditChainFacts.v.
    ControlDb.v (store.go): the tables with their keys, uniqueness and cascades, the
      statements on them, search by LIKE, and the minimum version of the program.
      Every operation of the store on them: ControlPending.v (pending_operations.go),
      ControlUsers.v, ControlPolicies.v, ControlAccounts.v, ControlNodes.v (store.go,
      temporary_policies.go, workload_identities.go, agent_usage.go, shares.go),
      ControlLinks.v (job_authorization_links.go), ControlEnroll.v (enrollment.go,
      pki.go), ControlIntents.v (signed_copy_intents.go). ControlCalls.v: each call
      that changes the database as one step, [run], with the faults of its
      statements, and [run_all] over a history of calls.
    ControlSteps.v: a logic for calls: what a statement did, from its success;
      preorders kept statement by statement; invariants of histories.
      PendingFacts.v, UsersFacts.v, PoliciesFacts.v, AssignmentsFacts.v,
      CredentialsFacts.v, VersionFacts.v, LinksFacts.v, EnrollFacts.v: what holds
      after any history. ControlDbExamples.v applies them to one.
    Entities.v (node/backend/internal/entities): the persisted records.
    StateProg.v (storage.go): a transaction as a program, [prog], the tree of
      calls the function given to Store.update or Store.view makes: look-ups,
      index reads, appended records. [db] is the specification of the store, a
      map of records; [db_update] and [db_view] run a program on it, with the
      faults of the commit as an [oracle].
    StateRecords.v, StateAuthorizations.v, StateJobs.v, StatePlans.v,
      StateUploads.v, StatePeers.v: every operation of the store (jobs.go,
      job_authorizations.go, destructive_plans.go, uploads.go, trash.go,
      tokens.go, managed_trust.go, peers.go, configuration.go) as an [op]: its
      guards, then one program. YAML is the class [Yaml], whose law is that what
      is written is read back.
    StateProgFacts.v: transactions; a Hoare logic for programs ([triple]) with
      the tactic [tstep].
    StateLaws.v: for each bucket, how a record may differ from the one it
      replaces; [job_step], the life cycle of jobs; the invariant [wf].
    StateJobsFacts.v, StatePeersFacts.v: every operation writes lawful records.
    StateLife.v: the operations as one step relation, and what a step does.
    StateSafety.v: what holds after any sequence of operations.
    JobGuard.v (job_authorization_guard.go): the goroutine that watches the lease
      of a running job, with its ticker, its timer and their channels, and the worlds
      it can be in as a step relation: time passes up to the next deadline that is
      armed, and a goroutine that can run waits at most [lag] for a processor.
    StateCodec.v, StateExamples.v: a codec that satisfies the laws, and a
      concrete history to which the theorems are applied.
    StateStore.v (storage.go): the store itself, a directory of encrypted files
      with its indexes and cache in memory, as a state and error monad: read and
      write with their envelopes, the ordered indexes, apply, load, update,
      view, compact, open. How each system call that changes the directory ends
      is a list of [faults]: it worked, it failed before or after its effect.
      AES-GCM is the class [Aead], crypto/rand the class [Random]. The mutex
      makes a call a function on the store; a sync is part of its write.
    StateIndex.v: the ordered indexes are the sorted selections.
    StateReach.v: [in_use], the stores reached from open by any calls, and the
      rule for invariants of them. StateFiles.v: publishing and reading a file.
    StateSync.v: [synced], the store represents the records of a [db].
    StateCompact.v: compaction keeps it, file by file.
    StateRefine.v: update and view on the files refine [db_update], [db_view].
    StateFollow.v: the operations of the node on the files follow StateLife.v.
    StateImage.v: [represents], what files alone mean, without the memory of a
      store. StateOpen.v: opening recovers it. StateCrash.v: no failure leaves part of an update.
    StateStoreExamples.v: a cipher and a store the theorems are applied to.
    Trust.v (node/backend/internal/trust): the signed bundle of roots, issuers, keys
      and revoked serials, its JSON and its checks, and the manager that enrolls the
      node, adopts newer bundles and renews its certificate, over the node's state;
      calls beside each other as interleaved events. X.509 and PEM are the class
      [X509]. TrustFacts.v: the theorems, and a node they are applied to.
    FilePolicy.v (node/backend/internal/filepolicy): hidden names, canary paths and
      reserved names, with path.Match as Go runs it and what a pattern means.
    Transfers.v (node/backend/internal/services): the names and paths of the file
      service (filesystem/service.go, with the system calls as the class [Files]),
      the grants service (grants/service.go), and what a grant lets a peer read, move
      away and write (transfers/service.go).

    * The theorems

    C1, C3, C4: the control's decisions are exactly "some rule grants and none
      denies", the guard on subtrees is sound, and typed decisions. C2: the node's
      filter.
    C5, C6: what a verified envelope guarantees, and that it fits one request only,
      short of a collision of SHA-256. C7: what is signed is accepted. C8-C11: what
      the control issues - job and transfer leases, reads and uploads, agents' reads,
      reads of shares - was the actor's to have and is accepted, with the actor's
      policies, for that and nothing else.
    C13: the invariant of the state. C14-C16: the life cycle of jobs; secured jobs run
      only under a verified lease; plans are used once. C17: a running job is under a
      lease in force, by the ticker and the timer of its guard.
    C18: the ordered indexes are exact in every store in use. C19: every operation on
      the files refines its specification, whichever of the system calls that change
      the directory fail, so that C13-C16 hold of the records the files represent.
      C20, C21: opening recovers what the files represent, and an update is atomic on
      the files.
    C22, C23, C12: what a peer reads, what a pull from it is created for, and what the
      execution of a pull checks again before a file appears, stay at or below the
      path of a grant to the peer, on names that are not excluded. C24: hidden names
      are those the patterns mean.
    C25: the trust of a node only advances, whatever fails and whenever it restarts,
      as long as calls follow one another; TrustFacts.v has two calls beside each
      other that break it. C26: what the control signs the node accepts.
    C28: what a person approves is what was asked. C29-C31: the policies of a
      subject are exactly those that apply, refer to nothing that is gone, and are
      read back as saved. C32, C33: an administrator remains, failed logins lock.
      C34-C36: revoked tokens, quotas and shares. C37: confirmed leases were verified.
      C38, C27: a join token starts one enrollment, and an enrollment is decided once.
      All of them over any history of calls of the control's store, with any
      statements failing.
    C39, C40: the audit trail chains after any calls, and no event of a chain, of texts
      in UTF-8, can be changed without a collision of SHA-256.

    * Bounds

    Machine integers are [Z] with their wrap-around written out where the code
    can reach it ([u64], [i64]); time.Time is its instant in nanoseconds. The JSON
    parser, path.Match and the loop over PEM blocks have fuel, the length of their
    input, which is proved enough (for PEM from the law that a decoded block leaves
    less to decode). A turn of the loop of a job's guard takes no time. The theorems on the files ask that the sequence is
    below 2^64 - 1, since the code does not guard its successor, and that the
    numbers of history pages have six digits, since names with more are not read
    back by historyPageIdentity.

    Texts of dates are in UTC. A call of the control's store that is no transaction
    is a function on the tables: no other call runs between its statements. What Go
    returns beside an error is dropped.

    * Not modelled

    Reads of the node's state files that fail: a file or a directory that is there can
    be read. The script scripts/verify-audit-ndjson.py: [follow_chain] says what the
    events the control appends are, not what the script accepts. The pulls of
    directories and of batches. Left out as I/O or glue: HTTP handlers, TLS, the file service's system calls,
    the worker loop of jobs, the exchange with a peer during a transfer, the
    certificate authority of the control, the web front end. Of the control's store:
    the encryption of the database, the upgrade of older schemas and the paged
    listing of audit events. What a grant's path meets on the file system is the
    parameter [grant_path] of the class [Files]. *)
From stdpp Require Export sorting base tactics numbers strings sets gmap list.
From stdpp Require Import options.

(** * Notation and scopes *)

(** Byte-level string concatenation, as Go's [+] on strings. *)
Declare Scope go_scope.
Delimit Scope go_scope with go.
Infix "+++" := String.append (at level 60, right associativity) : go_scope.
Notation "a =s b" := (bool_decide (a = b)) (at level 70, no associativity) : go_scope.
Notation "a ≠s b" := (negb (bool_decide (a = b))) (at level 70, no associativity) : go_scope.
Notation "x ∈b X" := (bool_decide (x ∈ X)) (at level 70, no associativity) : go_scope.

(** * Automation *)

(** [jolt] holds the lemmas that close the common side conditions. *)
Create HintDb jolt.

(** Turns the boolean tests of the code into propositions. *)
Ltac bool_to_prop :=
  repeat match goal with
  | H : context [bool_decide _ = true] |- _ => rewrite bool_decide_eq_true in H
  | H : context [bool_decide _ = false] |- _ => rewrite bool_decide_eq_false in H
  | H : (_ && _) = true |- _ => apply andb_true_iff in H as [? ?]
  | H : (_ || _) = false |- _ => apply orb_false_iff in H as [? ?]
  | H : negb _ = true |- _ => apply negb_true_iff in H
  | H : negb _ = false |- _ => apply negb_false_iff in H
  | H : (_ <? _)%Z = true |- _ => apply Z.ltb_lt in H
  | H : (_ <? _)%Z = false |- _ => apply Z.ltb_ge in H
  | H : (_ <=? _)%Z = true |- _ => apply Z.leb_le in H
  | H : (_ <=? _)%Z = false |- _ => apply Z.leb_gt in H
  | H : (_ =? _)%Z = true |- _ => apply Z.eqb_eq in H
  | H : (_ =? _)%Z = false |- _ => apply Z.eqb_neq in H
  | |- context [bool_decide _ = true] => rewrite bool_decide_eq_true
  | |- context [bool_decide _ = false] => rewrite bool_decide_eq_false
  end.

(** Splits the next guard ([if]) of the goal or of a hypothesis. *)
Ltac guard_split :=
  match goal with
  | |- context [if ?b then _ else _] => destruct b eqn:?
  | H : context [if ?b then _ else _] |- _ => destruct b eqn:?
  end.

(** * Records

    [r <| f := v |>] is the record [r] with field [f] set to [v], as the
    assignment [r.f = v] of the code. A record type declares how a value is
    rebuilt from its fields ([Eta]); the setter of each field is derived. *)

Class Eta (R : Type) := eta : R → R.
Class Setter {R E : Type} (proj : R → E) := set_field : (E → E) → R → R.

Ltac derive_setter :=
  lazymatch goal with
  | |- @Setter ?R ?E ?proj =>
    let inst := constr:(_ : Eta R) in
    let setter := constr:(λ (f : E → E) (r : R), ltac:(
      let body := eval hnf in (inst r) in
      lazymatch body with
      | context C [proj r] => let body' := context C [f (proj r)] in exact body'
      end)) in
    exact setter
  end.
#[export] Hint Extern 0 (Setter _) => derive_setter : typeclass_instances.

Notation "r <| f := v |>" := (set_field (proj := f) (λ _, v) r)
  (at level 1, left associativity, f constr at level 9, v constr at level 99, format "r <| f  :=  v |>").

(** * Errors

    A Go error is its message; the sentinel errors of the packages have
    distinct messages, so [errors.Is] on them is equality. *)

Inductive error := errors_New (msg : string).
#[global] Instance error_eq_dec : EqDecision error.
Proof. solve_decision. Defined.

Inductive result (A : Type) := Ok (a : A) | Err (e : error).
Arguments Ok {_} _.
Arguments Err {_} _.
#[global] Instance result_eq_dec `{EqDecision A} : EqDecision (result A).
Proof. solve_decision. Defined.

#[global] Instance result_ret : MRet result := λ A a, Ok a.
#[global] Instance result_bind : MBind result := λ A B f m,
  match m with Ok a => f a | Err e => Err e end.

(** An early return of [if cond { return err }]. *)
Definition fail_if (cond : bool) (e : error) : result unit := if cond then Err e else Ok ().

(** A [for] loop with early return of an error. *)
Fixpoint foldM {A B} (f : B → A → result B) (b : B) (l : list A) : result B :=
  match l with
  | [] => Ok b
  | x :: l' => match f b x with Ok b' => foldM f b' l' | Err e => Err e end
  end.

Definition is_ok {A} (r : result A) : bool := match r with Ok _ => true | Err _ => false end.

Lemma bind_Ok {A B} (f : A → result B) (m : result A) (b : B) :
  m ≫= f = Ok b ↔ ∃ a, m = Ok a ∧ f a = Ok b.
Proof.
  unfold mbind, result_bind. destruct m as [a|e]; split.
  - eauto.
  - by intros (? & [= ->] & ?).
  - done.
  - by intros (? & ? & ?).
Qed.

Lemma fail_if_Ok (c : bool) (e : error) (u : unit) : fail_if c e = Ok u ↔ c = false.
Proof. destruct c, u; naive_solver. Qed.

(** Every iteration of a successful loop started from a state the invariant
    holds of and ended in one. *)
Lemma foldM_inv {A B} (I : list A → B → Prop) (f : B → A → result B) (l : list A) (b b' : B) :
  I [] b →
  (∀ pre x b1 b2, I pre b1 → f b1 x = Ok b2 → I (pre ++ [x]) b2) →
  foldM f b l = Ok b' → I l b'.
Proof.
  intros H0 Hstep. change l with ([] ++ l) at 2. revert H0.
  generalize (@nil A) as pre. revert b.
  induction l as [|x l IH]; intros b pre HI; simpl.
  - intros [= <-]. by rewrite app_nil_r.
  - destruct (f b x) as [b1|e] eqn:E; [|done]. intros H.
    rewrite cons_middle, app_assoc. eapply IH; [|done]. by eapply Hstep.
Qed.

(** Decomposes hypotheses that say a monadic computation succeeded. *)
Ltac inv_ok :=
  repeat match goal with
  | H : (_ ≫= _) = Ok _ |- _ => apply bind_Ok in H as (? & ? & ?)
  | H : fail_if _ _ = Ok _ |- _ => apply fail_if_Ok in H
  | H : Ok _ = Ok _ |- _ => injection H as H; try subst
  | H : Err _ = Ok _ |- _ => discriminate H
  | H : mret _ = Ok _ |- _ => injection H as H; try subst
  end.

(** * Generic list lemmas *)

Section Lists.
Context {A B : Type}.

(** A left fold that only ever turns a flag on computes an existential. *)
Lemma foldl_orb (f : A → bool) (l : list A) (b : bool) :
  foldl (λ acc x, acc || f x) b l = b || existsb f l.
Proof.
  revert b. induction l as [|x l IH]; intros b; simpl.
  - by rewrite orb_false_r.
  - by rewrite IH, orb_assoc.
Qed.

Lemma existsb_elem (f : A → bool) (l : list A) :
  existsb f l = true ↔ ∃ x, x ∈ l ∧ f x = true.
Proof. rewrite existsb_exists. by setoid_rewrite list_elem_of_In. Qed.

Lemma existsb_false_elem (f : A → bool) (l : list A) :
  existsb f l = false ↔ ∀ x, x ∈ l → f x = false.
Proof.
  rewrite <-not_true_iff_false, existsb_elem. split.
  - intros H x Hx. apply not_true_iff_false. intros ?. apply H. eauto.
  - intros H (x & Hx & Hf). rewrite (H x Hx) in Hf. done.
Qed.

Lemma forallb_elem (f : A → bool) (l : list A) :
  forallb f l = true ↔ ∀ x, x ∈ l → f x = true.
Proof. rewrite forallb_forall. by setoid_rewrite list_elem_of_In. Qed.

(** Whether some element passes a test does not depend on the order. *)
Lemma existsb_Permutation (f : A → bool) (l1 l2 : list A) :
  l1 ≡ₚ l2 → existsb f l1 = existsb f l2.
Proof.
  intros Hp. apply eq_true_iff_eq. rewrite !existsb_elem. by setoid_rewrite Hp.
Qed.
End Lists.

(** Loop invariants of a plain [for] loop. *)
Lemma foldl_inv {A B} (I : list A → B → Prop) (f : B → A → B) (l : list A) (b : B) :
  I [] b → (∀ pre x b, I pre b → I (pre ++ [x]) (f b x)) → I l (foldl f b l).
Proof.
  intros H0 Hstep. induction l as [|x l IH] using rev_ind; [done|].
  rewrite foldl_app. simpl. auto.
Qed.

Lemma foldl_bind {A B C} (f : C → B → C) (g : A → list B) (l : list A) (c : C) :
  foldl f c (l ≫= g) = foldl (λ c a, foldl f c (g a)) c l.
Proof. revert c. induction l as [|a l IH]; intros c; csimpl; [done|]. by rewrite foldl_app, IH. Qed.

Lemma foldl_ext {A C} (f g : C → A → C) (l : list A) (c : C) :
  (∀ c a, f c a = g c a) → foldl f c l = foldl g c l.
Proof. intros H. revert c. induction l as [|a l IH]; intros c; simpl; [done|]. by rewrite H. Qed.

Lemma foldl_fmap' {A B C} (f : C → B → C) (g : A → B) (l : list A) (c : C) :
  foldl f c (g <$> l) = foldl (λ c a, f c (g a)) c l.
Proof. revert c. induction l as [|a l IH]; intros c; csimpl; auto. Qed.

(** The loop with a [seen] set that many validators of the code share: it
    succeeds exactly when every element passes and no key repeats. *)
Lemma foldM_seen {A} `{Countable K} (bad : A → bool) (key : A → K) (err : A → error) (l : list A) (seen seen' : gset K) :
  foldM (λ seen x, if bad x || bool_decide (key x ∈ seen) then Err (err x) else Ok ({[key x]} ∪ seen)) seen l = Ok seen' ↔
  (∀ x, x ∈ l → bad x = false ∧ key x ∉ seen) ∧ NoDup (key <$> l) ∧ seen' = list_to_set (key <$> l) ∪ seen.
Proof.
  revert seen. induction l as [|x l IH]; intros seen; csimpl.
  - rewrite (left_id_L ∅ (∪)). split; [intros [= <-]|by intros (_ & _ & ->)].
    split_and!; [by intros ? ?%not_elem_of_nil|constructor|done].
  - destruct (bad x || bool_decide (key x ∈ seen)) eqn:E.
    + split; [done|]. intros (Hl & _). destruct (Hl x) as [Hb ?]; [left|].
      by rewrite Hb, bool_decide_eq_false_2 in E.
    + apply orb_false_iff in E as [Hb Hk%bool_decide_eq_false].
      rewrite IH, NoDup_cons, list_elem_of_fmap. split.
      * intros (Hl & Hnd & ->). split_and!; [|set_solver|done|set_solver].
        intros y [-> | Hy]%elem_of_cons; [done|]. destruct (Hl y Hy). set_solver.
      * intros (Hl & [Hx Hnd] & ->). split_and!; [|done|set_solver].
        intros y Hy. destruct (Hl y) as [? ?]; [by right|]. split; [done|].
        assert (key y ≠ key x) by (intros Heq; apply Hx; by exists y). set_solver.
Qed.

(** A successful loop that appends one result per element. *)
Lemma foldM_app {A B} (f : A → result B) (l : list A) (acc out : list B) :
  foldM (λ acc x, f x ≫= λ y, Ok (acc ++ [y])) acc l = Ok out ↔
  ∃ ys, out = acc ++ ys ∧ Forall2 (λ x y, f x = Ok y) l ys.
Proof.
  revert acc. induction l as [|x l IH]; intros acc; simpl.
  - split; [intros [= <-]; exists []; split; [by rewrite app_nil_r|constructor]|].
    intros (ys & -> & ->%Forall2_nil_inv_l). by rewrite app_nil_r.
  - destruct (f x) as [y|e] eqn:E; simpl.
    + rewrite IH. split.
      * intros (ys & -> & ?). exists (y :: ys). rewrite <-app_assoc. split; [done|]. by constructor.
      * intros (ys & -> & H). apply Forall2_cons_inv_l in H as (y' & ys' & ? & ? & ->).
        assert (y' = y) as -> by congruence. exists ys'. by rewrite <-app_assoc.
    + split; [done|]. intros (ys & -> & H). apply Forall2_cons_inv_l in H as (y' & ys' & ? & ? & ->). congruence.
Qed.
