(* ===== verification/GoLib.v ===== *)
(** The parts of Go's standard library that the modelled packages call.

    Go strings are byte sequences: [string] with 8-bit [ascii] characters.
    - [decode_rune] and [runes] follow [utf8.DecodeRuneInString] and a [range]
      loop over a string: an invalid byte is [RuneError] with width one;
    - [TrimSpace], [ToLower], [Split], [HasPrefix], ... follow package strings;
    - [path_Clean], [path_Base], [path_Ext] follow package path;
    - [dec] and [pad_dec] are the [%d] and [%0Nd] verbs of package fmt;
    - [hex_EncodeToString] and [ParseUint] follow encoding/hex and strconv.
    The letter-case and letter-class tables of package unicode are data of the
    Unicode version the runtime ships; they are the class [Unicode]. *)
From Stdlib Require Export Ascii.
From S2P Require Import Prelude.
From stdpp Require Import options.
Local Open Scope Z_scope.
Open Scope go_scope.

(** * Bytes *)

Definition byte_val (c : ascii) : Z := Z.of_N (Ascii.N_of_ascii c).
Definition byte_of (z : Z) : ascii := Ascii.ascii_of_N (Z.to_N z).
Definition bytes (s : string) : list ascii := String.list_ascii_of_string s.
Definition len (s : string) : Z := Z.of_nat (String.length s).

Definition slash : ascii := "/"%char.
Definition dot : ascii := "."%char.
Definition backslash : ascii := "\"%char.
Definition NUL : ascii := "000"%char.

(** * Package unicode/utf8 *)

Definition RuneError : Z := 65533.

Definition in_range (lo hi : Z) (c : ascii) : bool :=
  (lo <=? byte_val c) && (byte_val c <=? hi).

(** Size of the sequence a lead byte starts and the range of its second byte. *)
Definition lead_info (v : Z) : option (nat * Z * Z) :=
  if (194 <=? v) && (v <=? 223) then Some (2%nat, 128, 191)
  else if v =? 224 then Some (3%nat, 160, 191)
  else if v =? 237 then Some (3%nat, 128, 159)
  else if (225 <=? v) && (v <=? 239) then Some (3%nat, 128, 191)
  else if v =? 240 then Some (4%nat, 144, 191)
  else if v =? 244 then Some (4%nat, 128, 143)
  else if (241 <=? v) && (v <=? 243) then Some (4%nat, 128, 191)
  else None.

Definition low6 (c : ascii) : Z := Z.land (byte_val c) 63.

(** [utf8.DecodeRuneInString]: the first rune and its width in bytes. *)
Definition decode_rune (s : string) : Z * nat :=
  match s with
  | "" => (RuneError, 0%nat)
  | String b0 s1 =>
    let v0 := byte_val b0 in
    if v0 <? 128 then (v0, 1%nat) else
    match lead_info v0, s1 with
    | Some (2%nat, lo, hi), String b1 _ =>
        if in_range lo hi b1 then (Z.lor (Z.shiftl (Z.land v0 31) 6) (low6 b1), 2%nat) else (RuneError, 1%nat)
    | Some (3%nat, lo, hi), String b1 (String b2 _) =>
        if in_range lo hi b1 && in_range 128 191 b2
        then (Z.lor (Z.shiftl (Z.land v0 15) 12) (Z.lor (Z.shiftl (low6 b1) 6) (low6 b2)), 3%nat)
        else (RuneError, 1%nat)
    | Some (4%nat, lo, hi), String b1 (String b2 (String b3 _)) =>
        if in_range lo hi b1 && in_range 128 191 b2 && in_range 128 191 b3
        then (Z.lor (Z.shiftl (Z.land v0 7) 18) (Z.lor (Z.shiftl (low6 b1) 12) (Z.lor (Z.shiftl (low6 b2) 6) (low6 b3))), 4%nat)
        else (RuneError, 1%nat)
    | _, _ => (RuneError, 1%nat)
    end
  end.

(** A [range] loop: the runes of a string with their widths. [skip] counts the
    bytes of the current rune that are still to be passed over. *)
Fixpoint runes_from (skip : nat) (s : string) : list (Z * nat) :=
  match s with
  | "" => []
  | String _ s' =>
    match skip with
    | S k => runes_from k s'
    | O => let rw := decode_rune s in rw :: runes_from (pred rw.2) s'
    end
  end.
Definition runes (s : string) : list (Z * nat) := runes_from 0 s.

Definition ValidString (s : string) : bool :=
  forallb (λ rw : Z * nat, negb ((rw.1 =? RuneError) && (rw.2 =? 1)%nat)) (runes s).
Definition RuneCount (s : string) : Z := Z.of_nat (length (runes s)).

(** [utf8.AppendRune]. *)
Definition encode_rune (r : Z) : string :=
  let tail (sh : Z) := byte_of (Z.lor 128 (Z.land (Z.shiftr r sh) 63)) in
  if (r <? 0) || (1114111 <? r) || ((55296 <=? r) && (r <=? 57343))
  then String (byte_of 239) (String (byte_of 191) (String (byte_of 189) ""))
  else if r <? 128 then String (byte_of r) ""
  else if r <? 2048 then String (byte_of (Z.lor 192 (Z.shiftr r 6))) (String (tail 0) "")
  else if r <? 65536 then
    String (byte_of (Z.lor 224 (Z.shiftr r 12))) (String (tail 6) (String (tail 0) ""))
  else String (byte_of (Z.lor 240 (Z.shiftr r 18))) (String (tail 12) (String (tail 6) (String (tail 0) ""))).

(** * Package unicode *)

(** [unicode.IsSpace]. *)
Definition IsSpace (r : Z) : bool :=
  ((9 <=? r) && (r <=? 13)) || (r =? 32) || (r =? 133) || (r =? 160) || (r =? 5760)
  || ((8192 <=? r) && (r <=? 8202)) || (r =? 8232) || (r =? 8233) || (r =? 8239) || (r =? 8287) || (r =? 12288).

Definition ascii_lower (r : Z) : Z := if (65 <=? r) && (r <=? 90) then r + 32 else r.
Definition ascii_letter (r : Z) : bool := ((65 <=? r) && (r <=? 90)) || ((97 <=? r) && (r <=? 122)).
Definition ascii_digit (r : Z) : bool := (48 <=? r) && (r <=? 57).

(** The tables of package unicode, and what every version of them has for the
    ASCII range. *)
Class Unicode := {
  unicode_ToLower : Z → Z;
  unicode_IsLetter : Z → bool;
  unicode_IsDigit : Z → bool;
}.
Class UnicodeOk (U : Unicode) : Prop := {
  ToLower_ascii : ∀ r, 0 ≤ r < 128 → unicode_ToLower r = ascii_lower r;
  IsLetter_ascii : ∀ r, 0 ≤ r < 128 → unicode_IsLetter r = ascii_letter r;
  IsDigit_ascii : ∀ r, 0 ≤ r < 128 → unicode_IsDigit r = ascii_digit r;
}.

(** A table for concrete evaluation: ASCII, the Latin-1 letters, and the dotted
    capital I and the kelvin sign, whose lower cases are ASCII. *)
Definition latin1_unicode : Unicode := {|
  unicode_ToLower r :=
    if (192 <=? r) && (r <=? 222) && negb (r =? 215) then r + 32
    else if r =? 304 then 105 else if r =? 8490 then 107 else ascii_lower r;
  unicode_IsLetter r := ascii_letter r || ((192 <=? r) && (r <=? 255) && negb (r =? 215) && negb (r =? 247));
  unicode_IsDigit := ascii_digit;
|}.

Lemma latin1_unicode_ok : UnicodeOk latin1_unicode.
Proof.
  split; intros r Hr; simpl; [| |done].
  - by rewrite (proj2 (Z.leb_gt 192 r)), (proj2 (Z.eqb_neq r 304)), (proj2 (Z.eqb_neq r 8490)) by lia.
  - rewrite (proj2 (Z.leb_gt 192 r)) by lia. by rewrite orb_false_r.
Qed.

(** * Package strings *)

Fixpoint StripPrefix (p s : string) : option string :=
  match p, s with
  | "", _ => Some s
  | String a p', String b s' => if decide (a = b) then StripPrefix p' s' else None
  | _, _ => None
  end.
Definition HasPrefix (s p : string) : bool := bool_decide (is_Some (StripPrefix p s)).
Definition TrimPrefix (s p : string) : string := default s (StripPrefix p s).
Definition HasSuffix (s p : string) : bool := HasPrefix (String.rev s) (String.rev p).
Definition TrimSuffix (s p : string) : string := from_option String.rev s (StripPrefix (String.rev p) (String.rev s)).

Fixpoint Contains (s sub : string) : bool :=
  HasPrefix s sub || match s with "" => false | String _ s' => Contains s' sub end.

(** [strings.ContainsAny] for a set of ASCII characters. *)
Definition ContainsAny (s set : string) : bool :=
  existsb (λ c, bool_decide (c ∈ bytes set)) (bytes s).

(** [strings.ContainsRune] for a set of ASCII characters. *)
Definition ContainsRune (set : string) (r : Z) : bool :=
  existsb (λ c, byte_val c =? r) (bytes set).

(** [strings.Split] for a one-byte separator: never empty. *)
Fixpoint Split (sep : ascii) (s : string) : list string :=
  match s with
  | "" => [""]
  | String c s' =>
    if decide (c = sep) then "" :: Split sep s'
    else match Split sep s' with
         | [] => [String c ""]
         | h :: t => String c h :: t
         end
  end.

Fixpoint Join (sep : ascii) (l : list string) : string :=
  match l with
  | [] => ""
  | [s] => s
  | s :: l' => s +++ String sep (Join sep l')
  end.

Fixpoint TrimLeftByte (c : ascii) (s : string) : string :=
  match s with
  | String a s' => if decide (a = c) then TrimLeftByte c s' else s
  | "" => ""
  end.
Fixpoint TrimRightByte (c : ascii) (s : string) : string :=
  match s with
  | "" => ""
  | String a s' =>
    let r := TrimRightByte c s' in
    if decide (a = c ∧ r = "") then "" else String a r
  end.
(** [strings.Trim] for a one-byte cutset. *)
Definition Trim (s : string) (c : ascii) : string := TrimRightByte c (TrimLeftByte c s).

Fixpoint TrimLeftSpace (skip : nat) (s : string) : string :=
  match s with
  | "" => ""
  | String _ s' =>
    match skip with
    | S k => TrimLeftSpace k s'
    | O => let rw := decode_rune s in if IsSpace rw.1 then TrimLeftSpace (pred rw.2) s' else s
    end
  end.
Fixpoint TrimRightSpace (skip : nat) (s : string) : string :=
  match s with
  | "" => ""
  | String a s' =>
    match skip with
    | S k => String a (TrimRightSpace k s')
    | O =>
      let rw := decode_rune s in
      let r := TrimRightSpace (pred rw.2) s' in
      if IsSpace rw.1 && (String.length r =? pred rw.2)%nat then "" else String a r
    end
  end.
Definition TrimSpace (s : string) : string := TrimRightSpace 0 (TrimLeftSpace 0 s).

Definition is_ascii (s : string) : bool := forallb (λ c, byte_val c <? 128) (bytes s).
Fixpoint map_bytes (f : Z → Z) (s : string) : string :=
  match s with
  | "" => ""
  | String c s' => String (byte_of (f (byte_val c))) (map_bytes f s')
  end.

Section ToLower.
Context {U : Unicode}.

(** [strings.ToLower]: the ASCII path, else [strings.Map unicode.ToLower]. *)
Definition ToLower (s : string) : string :=
  if is_ascii s then map_bytes ascii_lower s
  else foldr (λ rw acc, let r := unicode_ToLower rw.1 in
                        if r <? 0 then acc else encode_rune r +++ acc) "" (runes s).
End ToLower.

(** [strings.ReplaceAll] of a byte by another. *)
Definition ReplaceByte (s : string) (a b : ascii) : string := String.string_of_list_ascii ((λ c, if decide (c = a) then b else c) <$> bytes s).

(** * Package path *)

Definition clean_step (rooted : bool) (stack : list string) (seg : string) : list string :=
  if (seg =s "") || (seg =s ".") then stack
  else if seg =s ".." then
    match stack with
    | top :: rest => if top =s ".." then ".." :: stack else rest
    | [] => if rooted then [] else [".."]
    end
  else seg :: stack.

(** [path.Clean]. *)
Definition path_Clean (s : string) : string :=
  let rooted := HasPrefix s "/" in
  let stack := foldl (clean_step rooted) [] (Split slash s) in
  let out := (if rooted then "/" else "") +++ Join slash (rev stack) in
  if out =s "" then "." else out.

(** [path.Join] of two elements. *)
Definition path_Join (a b : string) : string :=
  if a =s "" then if b =s "" then "" else path_Clean b else path_Clean (a +++ "/" +++ b).

(** [path.Dir]. *)
Definition path_Dir (s : string) : string :=
  match rev (Split slash s) with
  | last :: p :: rest => path_Clean (Join slash (rev (p :: rest)) +++ "/")
  | _ => "."
  end.

(** [path.Base]. *)
Definition path_Base (s : string) : string :=
  if s =s "" then "." else
  let t := TrimRightByte slash s in
  if t =s "" then "/" else List.last (Split slash t) "".

(** [path.Ext]: from the last dot of the last element, or empty. *)
Definition path_Ext (s : string) : string :=
  match Split dot (List.last (Split slash s) "") with
  | [] | [_] => ""
  | parts => String dot (List.last parts "")
  end.

(** * Package fmt *)

Fixpoint dec_digits (fuel : nat) (n : N) (acc : string) : string :=
  match fuel with
  | O => acc
  | S f =>
    let acc := String (byte_of (48 + Z.of_N (n mod 10))) acc in
    if (n <? 10)%N then acc else dec_digits f (n / 10) acc
  end.
(** [%d] for a non-negative number. *)
Definition dec (n : N) : string := dec_digits (S (N.to_nat (N.size n))) n "".

Fixpoint zeros (n : nat) : string := match n with O => "" | S m => String "0"%char (zeros m) end.
(** [%0wd]: zero-padded, the sign counted in the width. *)
Definition pad_dec (w : nat) (z : Z) : string :=
  let d := dec (Z.to_N (Z.abs z)) in
  if z <? 0 then "-" +++ zeros (w - 1 - String.length d) +++ d
  else zeros (w - String.length d) +++ d.

(** [strconv.ParseUint] in base 10 of a string of digits. *)
Definition digit_val (c : ascii) : option Z :=
  if in_range 48 57 c then Some (byte_val c - 48) else None.
Fixpoint digits_val (acc : Z) (s : string) : option Z :=
  match s with
  | "" => Some acc
  | String c s' => d ← digit_val c; digits_val (10 * acc + d) s'
  end.
Definition u64 (z : Z) : Z := z mod 2 ^ 64.
Definition MaxUint64 : Z := 2 ^ 64 - 1.
(** The conversion of a uint64 to an int64. *)
Definition i64 (z : Z) : Z := let z := u64 z in if z <? 2 ^ 63 then z else z - 2 ^ 64.
Definition ParseUint (s : string) : option Z :=
  if s =s "" then None else
  n ← digits_val 0 s; if n <=? MaxUint64 then Some n else None.

(** * Package sort *)

(** [sort.Search], a binary search. *)
Fixpoint search_loop (fuel i j : nat) (f : nat → bool) : nat :=
  match fuel with
  | O => i
  | S fuel =>
    if (i <? j)%nat then
      let h := ((i + j) / 2)%nat in
      if negb (f h) then search_loop fuel (S h) j f else search_loop fuel i h f
    else i
  end.
Definition Search (n : nat) (f : nat → bool) : nat := search_loop n 0 n f.

(** * Package encoding/hex *)

Definition hex_digit (v : Z) : ascii := byte_of (if v <? 10 then 48 + v else 87 + v).
Fixpoint hex_EncodeToString (s : string) : string :=
  match s with
  | "" => ""
  | String c s' => String (hex_digit (Z.shiftr (byte_val c) 4)) (String (hex_digit (Z.land (byte_val c) 15)) (hex_EncodeToString s'))
  end.
Definition is_hex (c : ascii) : bool := in_range 48 57 c || in_range 97 102 c || in_range 65 70 c.
(** Whether [hex.DecodeString] succeeds. *)
Definition hex_valid (s : string) : bool :=
  Nat.even (String.length s) && forallb is_hex (bytes s).

(** * Facts: splitting and joining *)

Lemma Split_ne sep s : Split sep s ≠ [].
Proof. destruct s as [|c s]; simpl; [done|]. destruct (decide _); [done|]. by case_match. Qed.

Lemma append_cons c s t : String c s +++ t = String c (s +++ t).
Proof. done. Qed.
Lemma append_nil_l s : "" +++ s = s.
Proof. done. Qed.
Lemma append_nil_r s : s +++ "" = s.
Proof. induction s as [|c s IH]; [done|]. by rewrite append_cons, IH. Qed.
Lemma append_assoc s t u : (s +++ t) +++ u = s +++ (t +++ u).
Proof. induction s as [|c s IH]; [done|]. by rewrite !append_cons, IH. Qed.
Lemma append_length s t : String.length (s +++ t) = (String.length s + String.length t)%nat.
Proof. induction s as [|c s IH]; [done|]. rewrite append_cons. simpl. by rewrite IH. Qed.
Lemma bytes_append s t : bytes (s +++ t) = bytes s ++ bytes t.
Proof. unfold bytes. induction s as [|c s IH]; [done|]. rewrite append_cons. simpl. by rewrite IH. Qed.
Lemma append_inj_l s t u : s +++ t = s +++ u → t = u.
Proof. apply (inj (String.append s)). Qed.

(** Splitting at a separator splits both sides on their own. *)
Lemma StripPrefix_Some p s t : StripPrefix p s = Some t ↔ s = p +++ t.
Proof.
  revert s. induction p as [|a p IH]; intros s; simpl; [naive_solver|].
  destruct s as [|b s]; simpl; [naive_solver|]. rewrite append_cons.
  destruct (decide (a = b)) as [->|]; [rewrite IH; naive_solver|naive_solver].
Qed.
Lemma Split_app sep a b : Split sep (a +++ String sep b) = Split sep a ++ Split sep b.
Proof.
  induction a as [|c a IH].
  - rewrite append_nil_l. simpl. by destruct (decide (sep = sep)).
  - rewrite append_cons. simpl. destruct (decide (c = sep)); rewrite IH; [done|].
    pose proof (Split_ne sep a). by destruct (Split sep a).
Qed.

Lemma Join_Split sep s : Join sep (Split sep s) = s.
Proof.
  induction s as [|c s IH]; [done|]. simpl. pose proof (Split_ne sep s) as Hne.
  destruct (decide (c = sep)) as [-> |].
  - destruct (Split sep s) as [|h t]; [done|]. simpl. by rewrite append_nil_l, <-IH.
  - destruct (Split sep s) as [|h t]; [done|]. rewrite <-IH. by destruct t.
Qed.

(** No segment contains the separator. *)
Lemma Split_no_sep sep s seg : seg ∈ Split sep s → sep ∉ bytes seg.
Proof.
  revert seg. induction s as [|c s IH]; intros seg; simpl.
  - intros ->%list_elem_of_singleton. apply not_elem_of_nil.
  - destruct (decide (c = sep)) as [->|Hc].
    + intros [->|?]%elem_of_cons; [apply not_elem_of_nil|auto].
    + pose proof (Split_ne sep s). destruct (Split sep s) as [|h t]; [done|].
      intros [->|?]%elem_of_cons; [|apply IH; by right].
      unfold bytes. simpl. rewrite not_elem_of_cons. split; [done|]. apply IH. by left.
Qed.

Lemma Split_no_sep_id sep s : sep ∉ bytes s → Split sep s = [s].
Proof.
  induction s as [|c s IH]; [done|]. unfold bytes in *. simpl. rewrite not_elem_of_cons. intros [? ?].
  rewrite decide_False by done. by rewrite IH.
Qed.

Lemma Split_Join sep l : l ≠ [] → (∀ x, x ∈ l → sep ∉ bytes x) → Split sep (Join sep l) = l.
Proof.
  intros Hne Hl. induction l as [|x l IH]; [done|]. destruct l as [|y l].
  - simpl. apply Split_no_sep_id, Hl. by left.
  - change (Join sep (x :: y :: l)) with (x +++ String sep (Join sep (y :: l))).
    rewrite Split_app, IH by (done || intros; apply Hl; by right).
    by rewrite Split_no_sep_id by (apply Hl; by left).
Qed.

(** * Facts: trimming *)

(** [ends_with s c]: the last byte. *)
Fixpoint last_byte (s : string) : option ascii :=
  match s with "" => None | String c "" => Some c | String _ s' => last_byte s' end.

Lemma last_byte_cons c s : s ≠ "" → last_byte (String c s) = last_byte s.
Proof. by destruct s. Qed.

Lemma last_byte_app s t : t ≠ "" → last_byte (s +++ t) = last_byte t.
Proof.
  intros Ht. induction s as [|c s IH]; [done|]. rewrite append_cons, last_byte_cons; [done|].
  destruct s; [done|]. by rewrite append_cons.
Qed.

Lemma TrimLeftByte_id c a s : a ≠ c → TrimLeftByte c (String a s) = String a s.
Proof. intros. simpl. by rewrite decide_False. Qed.

Lemma TrimRightByte_id c s : last_byte s ≠ Some c → TrimRightByte c s = s.
Proof.
  induction s as [|a s IH]; [done|]. destruct s as [|b s].
  - simpl. intros Hne. rewrite decide_False; [done|]. naive_solver.
  - rewrite last_byte_cons by done. intros Hne. cbn [TrimRightByte]. cbn [TrimRightByte] in IH.
    rewrite (IH Hne). rewrite decide_False; [done|]. naive_solver.
Qed.

Lemma TrimRightByte_last c s : last_byte (TrimRightByte c s) ≠ Some c.
Proof.
  induction s as [|a s IH]; simpl; [done|]. destruct (decide _) as [|Hd]; [done|].
  destruct (TrimRightByte c s) as [|b t]; [naive_solver|]. by rewrite last_byte_cons.
Qed.

Lemma TrimLeftByte_first c s a t : TrimLeftByte c s = String a t → a ≠ c.
Proof. induction s as [|b s IH]; simpl; [done|]. destruct (decide _); naive_solver. Qed.

Lemma TrimRightByte_first c s a t : TrimRightByte c s = String a t → ∃ t', s = String a t'.
Proof. destruct s as [|b s]; simpl; [done|]. destruct (decide _); naive_solver. Qed.

(** A trimmed string neither starts nor ends with the trimmed byte. *)
Definition trimmed (c : ascii) (s : string) : Prop :=
  (∀ t, s ≠ String c t) ∧ last_byte s ≠ Some c.

Lemma Trim_trimmed c s : trimmed c (Trim s c).
Proof.
  unfold Trim. split; [|apply TrimRightByte_last]. intros t Ht.
  apply TrimRightByte_first in Ht as [t' Ht]. by apply TrimLeftByte_first in Ht.
Qed.

Lemma trimmed_Trim c s : trimmed c s → Trim s c = s.
Proof.
  intros [Hf Hl]. unfold Trim. destruct s as [|a s]; [done|].
  rewrite TrimLeftByte_id by (intros ->; by eapply Hf). by apply TrimRightByte_id.
Qed.

(** * Facts: spaces *)

(** An ASCII byte that is not white space. *)
Definition plain_byte (c : ascii) : Prop := byte_val c < 128 ∧ IsSpace (byte_val c) = false.

Lemma byte_val_nonneg c : 0 ≤ byte_val c.
Proof. unfold byte_val. lia. Qed.

Lemma lead_info_lo v n lo hi : lead_info v = Some (n, lo, hi) → 128 ≤ lo.
Proof. unfold lead_info. intros. repeat case_match; simplify_eq; lia. Qed.

(** A rune that takes the whole string ends in a continuation byte, unless it
    is one byte long. *)
Lemma decode_rune_last c s :
  last_byte s = Some c → byte_val c < 128 → (decode_rune s).2 = String.length s → s = String c "".
Proof.
  destruct s as [|b0 s1]; [done|]. unfold decode_rune. intros Hl Hc.
  destruct (byte_val b0 <? 128) eqn:H0; [destruct s1; naive_solver|].
  destruct s1 as [|b1 s2]; [simplify_eq/=; bool_to_prop; lia|]. unfold in_range.
  destruct (lead_info (byte_val b0)) as [[[[|[|[|[|[|n]]]]] lo] hi]|] eqn:Hlead; try done;
    repeat (case_match; simpl; try done); intros Hlen; simplify_eq/=; bool_to_prop; try lia.
  - destruct s2; [|done]. simplify_eq/=. apply lead_info_lo in Hlead. lia.
  - match goal with H : _ = String.length ?t |- _ => destruct t; simplify_eq/=; lia end.
  - match goal with H : _ = String.length ?t |- _ => destruct t; simplify_eq/=; lia end.
Qed.

Lemma TrimRightSpace_id c s skip : last_byte s = Some c → plain_byte c → TrimRightSpace skip s = s.
Proof.
  intros Hl [Hc Hs]. revert skip Hl. induction s as [|a s IH]; intros skip Hl; [done|]. destruct s as [|b s].
  - simpl in Hl. simplify_eq. cbn [TrimRightSpace]. destruct skip; [|done].
    unfold decode_rune. rewrite (proj2 (Z.ltb_lt _ _)) by done. cbn [fst]. by rewrite Hs.
  - assert (String b s ≠ "") as Hne by done. revert IH Hl Hne. generalize (String b s). clear b s.
    intros s IH Hl Hne. rewrite last_byte_cons in Hl by done. cbn [TrimRightSpace].
    destruct skip; rewrite IH by done; [|done].
    destruct (IsSpace _ && _) eqn:E; [|done]. apply andb_true_iff in E as [_ E]. apply Nat.eqb_eq in E.
    assert (String a s = String c "") as [= _ ->]; [|done].
    apply decode_rune_last; [by rewrite last_byte_cons|done|]. destruct s as [|b s]; [done|].
    cbn [String.length] in *. lia.
Qed.

(** A string that starts and ends with plain bytes has no space to trim. *)
Lemma TrimSpace_id a s c :
  plain_byte a → last_byte (String a s) = Some c → plain_byte c → TrimSpace (String a s) = String a s.
Proof.
  intros [Ha Hs] Hl Hc. unfold TrimSpace. cbn [TrimLeftSpace].
  unfold decode_rune. rewrite (proj2 (Z.ltb_lt _ _)) by done. cbn [fst]. rewrite Hs.
  by apply (TrimRightSpace_id c).
Qed.

Lemma last_byte_nonempty a s : ∃ c, last_byte (String a s) = Some c.
Proof. revert a. induction s as [|b s IH]; intros a; [by exists a|]. by rewrite last_byte_cons. Qed.

(** * Facts: bytes and numbers *)

Lemma byte_val_range c : 0 ≤ byte_val c < 256.
Proof. unfold byte_val. pose proof (Ascii.N_ascii_bounded c). lia. Qed.
Lemma byte_of_val c : byte_of (byte_val c) = c.
Proof. unfold byte_of, byte_val. rewrite N2Z.id. apply Ascii.ascii_N_embedding. Qed.
Lemma byte_of_eq z c : z = byte_val c → byte_of z = c.
Proof. intros ->. apply byte_of_val. Qed.
Lemma byte_val_of z : 0 ≤ z < 256 → byte_val (byte_of z) = z.
Proof. intros Hz. unfold byte_of, byte_val. rewrite Ascii.N_ascii_embedding; lia. Qed.
Lemma byte_val_inj c d : byte_val c = byte_val d → c = d.
Proof. intros H. by rewrite <-(byte_of_val c), H, byte_of_val. Qed.

Lemma digit_val_of d : 0 ≤ d < 10 → digit_val (byte_of (48 + d)) = Some d.
Proof.
  intros Hd. unfold digit_val, in_range. rewrite byte_val_of by lia.
  rewrite (proj2 (Z.leb_le 48 _)), (proj2 (Z.leb_le _ 57)) by lia. simpl. f_equal. lia.
Qed.

Lemma digits_val_dec_digits fuel n acc :
  (n < 2 ^ N.of_nat fuel)%N → digits_val 0 (dec_digits (S fuel) n acc) = digits_val (Z.of_N n) acc.
Proof.
  revert n acc. induction fuel as [|fuel IH]; intros n acc Hn.
  - assert (n = 0%N) as -> by (simpl in Hn; lia). reflexivity.
  - remember (S fuel) as f. cbn [dec_digits]. pose proof (N.div_mod n 10 ltac:(lia)) as Hdm.
    pose proof (N.mod_lt n 10 ltac:(lia)) as Hm.
    destruct (n <? 10)%N eqn:E.
    + apply N.ltb_lt in E. rewrite N.mod_small by done. cbn [digits_val]. rewrite digit_val_of by lia. done.
    + subst f. rewrite IH.
      * cbn [digits_val]. revert Hdm Hm. generalize (n / 10)%N, (n mod 10)%N. intros q r Hdm Hm.
        rewrite digit_val_of by lia. cbn [mbind option_bind]. f_equal. lia.
      * rewrite Nat2N.inj_succ, N.pow_succ_r' in Hn. apply N.Div0.div_lt_upper_bound. lia.
Qed.

Lemma digits_val_dec n : digits_val 0 (dec n) = Some (Z.of_N n).
Proof. unfold dec. rewrite digits_val_dec_digits; [done|]. rewrite N2Nat.id. apply N.size_gt. Qed.

Lemma dec_inj n m : dec n = dec m → n = m.
Proof. intros H. pose proof (digits_val_dec n) as Hn. rewrite H, digits_val_dec in Hn. by simplify_eq. Qed.

Lemma digits_val_zeros k s : digits_val 0 (zeros k +++ s) = digits_val 0 s.
Proof. induction k as [|k IH]; [done|]. simpl zeros. rewrite append_cons. done. Qed.

Lemma digits_val_pad_dec w z : 0 ≤ z → digits_val 0 (pad_dec w z) = Some z.
Proof.
  intros Hz. unfold pad_dec. rewrite (proj2 (Z.ltb_ge z 0)) by lia.
  rewrite digits_val_zeros, digits_val_dec. f_equal. lia.
Qed.

Lemma pad_dec_inj w z z' : 0 ≤ z → 0 ≤ z' → pad_dec w z = pad_dec w z' → z = z'.
Proof.
  intros H1 H2 H. pose proof (digits_val_pad_dec w z H1) as E. rewrite H, digits_val_pad_dec in E by done. by simplify_eq.
Qed.

Lemma hex_digit_inj v w : 0 ≤ v < 16 → 0 ≤ w < 16 → hex_digit v = hex_digit w → v = w.
Proof.
  intros Hv Hw H. apply (f_equal byte_val) in H. unfold hex_digit in H.
  destruct (v <? 10) eqn:?, (w <? 10) eqn:?; bool_to_prop; rewrite !byte_val_of in H; lia.
Qed.

Lemma hex_EncodeToString_inj s t : hex_EncodeToString s = hex_EncodeToString t → s = t.
Proof.
  revert t. induction s as [|c s IH]; intros [|d t] H; simpl in H; simplify_eq; [done|].
  pose proof (byte_val_range c). pose proof (byte_val_range d).
  rewrite (IH t) by done. f_equal. apply byte_val_inj.
  rewrite !(Z.land_ones _ 4), !Z.shiftr_div_pow2 in * by lia. change (2 ^ 4) with 16 in *.
  pose proof (Z.div_mod (byte_val c) 16). pose proof (Z.div_mod (byte_val d) 16).
  pose proof (Z.mod_pos_bound (byte_val c) 16). pose proof (Z.mod_pos_bound (byte_val d) 16).
  match goal with H1 : hex_digit (byte_val c / 16) = _, H2 : hex_digit (byte_val c mod 16) = _ |- _ =>
    apply hex_digit_inj in H1; [apply hex_digit_inj in H2; lia|..];
    (split; [apply Z.div_pos|apply Z.div_lt_upper_bound]; lia) end.
Qed.

(** * Facts: searching *)

Lemma search_loop_spec fuel i j n f :
  (j - i ≤ fuel)%nat → (i ≤ j ≤ n)%nat →
  (∀ a b, a ≤ b < n → f a = true → f b = true)%nat →
  (∀ a, a < i → f a = false)%nat → (∀ a, j ≤ a < n → f a = true)%nat →
  let r := search_loop fuel i j f in
  (r ≤ n ∧ (∀ a, a < r → f a = false) ∧ (∀ a, r ≤ a < n → f a = true))%nat.
Proof.
  revert i j. induction fuel as [|fuel IH]; intros i j Hf Hij Hmono Hlo Hhi; cbn [search_loop].
  - assert (i = j) as -> by lia. split_and!; auto; lia.
  - destruct (i <? j)%nat eqn:E; [apply Nat.ltb_lt in E|apply Nat.ltb_ge in E].
    + pose proof (Nat.div_mod_eq (i + j) 2). pose proof (Nat.mod_upper_bound (i + j) 2).
      destruct (f ((i + j) / 2)%nat) eqn:Eh; cbn [negb].
      * apply IH; try lia; auto. intros a Ha. apply (Hmono ((i + j) / 2)%nat); [lia|done].
      * apply IH; try lia; auto. intros a Ha. destruct (f a) eqn:Ea; [|done].
        rewrite (Hmono a ((i + j) / 2)%nat) in Eh; [done|lia|done].
    + assert (i = j) as -> by lia. split_and!; auto; lia.
Qed.

(** For a predicate that is false and then true, [Search] finds where it turns. *)
Lemma Search_spec n f :
  (∀ a b, a ≤ b < n → f a = true → f b = true)%nat →
  (Search n f ≤ n ∧ (∀ a, a < Search n f → f a = false) ∧ (∀ a, Search n f ≤ a < n → f a = true))%nat.
Proof. intros Hm. apply (search_loop_spec n 0 n n); auto; lia. Qed.

(** * Facts: padded numbers *)

Lemma digits_val_digits acc s n c : digits_val acc s = Some n → c ∈ bytes s → in_range 48 57 c = true.
Proof.
  revert acc. induction s as [|d s IH]; intros acc; [by intros _ ?%elem_of_nil|]. simpl. unfold digit_val at 1.
  destruct (in_range 48 57 d) eqn:Hd; [|done]. simpl. intros Hs [->|Hc]%elem_of_cons; [done|]. by eapply IH.
Qed.
Lemma pad_dec_digits w z c : 0 ≤ z → c ∈ bytes (pad_dec w z) → in_range 48 57 c = true.
Proof. intros Hz. eapply digits_val_digits. by apply digits_val_pad_dec. Qed.
Lemma dec_digits_length fuel n acc k : (n < 10 ^ N.of_nat k)%N → (1 ≤ k)%nat →
  (String.length (dec_digits fuel n acc) ≤ k + String.length acc)%nat.
Proof.
  revert n acc k. induction fuel as [|fuel IH]; intros n acc k Hn Hk; cbn [dec_digits]; [lia|].
  destruct (N.ltb_spec n 10) as [Hlt|Hge]; [simpl; lia|].
  destruct k as [|[|k]]; [lia|simpl in Hn; lia|]. rewrite Nat2N.inj_succ, N.pow_succ_r' in Hn.
  etrans; [apply (IH _ _ (S k)); [apply N.Div0.div_lt_upper_bound; lia|lia]|]. simpl. lia.
Qed.
Lemma zeros_length k : String.length (zeros k) = k.
Proof. induction k as [|k IH]; simpl; [done|by rewrite IH]. Qed.
Lemma pad_dec_length w z : (1 ≤ w)%nat → 0 ≤ z < 10 ^ Z.of_nat w → String.length (pad_dec w z) = w.
Proof.
  intros Hw Hz. unfold pad_dec. rewrite (proj2 (Z.ltb_ge z 0)) by lia. rewrite append_length, zeros_length.
  assert (String.length (dec (Z.to_N (Z.abs z))) ≤ w)%nat; [|lia]. unfold dec. etrans; [apply (dec_digits_length _ _ _ w)|simpl; lia]; [|lia].
  apply N2Z.inj_lt. rewrite N2Z.inj_pow, nat_N_Z. simpl. lia.
Qed.

(** Numbers of the same length with accumulators in order are in order. *)
Lemma digit_val_range c v : digit_val c = Some v → 0 ≤ v ≤ 9 ∧ v = byte_val c - 48.
Proof. unfold digit_val, in_range. destruct (_ && _) eqn:Hr; [|done]. intros [= <-]. bool_to_prop. lia. Qed.
Lemma digits_val_lt s t a b x y : String.length s = String.length t → digits_val a s = Some x → digits_val b t = Some y → a < b → x < y.
Proof.
  revert t a b. induction s as [|c s IH]; intros [|c' t] a b Hl; try done; simpl; [by intros [= ->] [= ->]|].
  destruct (digit_val c) as [v|] eqn:Hc, (digit_val c') as [v'|] eqn:Hc'; try done. simpl. intros Hs Ht Hab.
  apply digit_val_range in Hc as [Hv _]. apply digit_val_range in Hc' as [Hv' _]. simpl in Hl.
  eapply (IH t (10 * a + v) (10 * b + v')); [lia|done..|lia].
Qed.

(** The order of padded numbers is the order of the numbers, also when the same
    text follows. *)
Lemma digits_le s t u a x y : String.length s = String.length t → digits_val a s = Some x → digits_val a t = Some y →
  String.le (s +++ u) (t +++ u) → x ≤ y.
Proof.
  unfold String.le, String.leb. revert t a. induction s as [|c s IH]; intros [|c' t] a Hl; try done; [by intros [= ->] [= ->]|].
  cbn [digits_val]. destruct (digit_val c) as [v|] eqn:Hc, (digit_val c') as [v'|] eqn:Hc'; try done. cbn [mbind option_bind].
  intros Hs Ht. injection Hl as Hl. apply digit_val_range in Hc as [Hv Hcv]. apply digit_val_range in Hc' as [Hv' Hcv'].
  rewrite !append_cons. cbn [String.compare]. destruct (Ascii.compare c c') eqn:Hcmp; [|intros _|done].
  - apply Ascii.compare_eq_iff in Hcmp as ->. assert (v' = v) as -> by lia. by apply (IH t (10 * a + v)).
  - apply N.compare_lt_iff in Hcmp as Hcmp%N2Z.inj_lt. unfold byte_val in *.
    apply Z.lt_le_incl, (digits_val_lt s t (10 * a + v) (10 * a + v')); [done..|lia].
Qed.
Lemma pad_dec_le w a b u : (1 ≤ w)%nat → 0 ≤ a < 10 ^ Z.of_nat w → 0 ≤ b < 10 ^ Z.of_nat w →
  String.le (pad_dec w a +++ u) (pad_dec w b +++ u) → a ≤ b.
Proof.
  intros Hw Ha Hb. apply (digits_le _ _ u 0); [by rewrite !pad_dec_length|apply digits_val_pad_dec; lia..].
Qed.
