(* ===== verification/Base64.v ===== *)
(** Package encoding/base64: [base64.StdEncoding] and
    [base64.RawURLEncoding.Strict()], with their round trips. A decoder skips
    the carriage returns and line feeds of its input, whichever the encoding. *)
From S2P Require Import Prelude GoLib.
From stdpp Require Import options.
#[local] Set Default Proof Using "Type*".
Local Open Scope Z_scope.

(** [lia] with division and remainder by constants. *)
Ltac Zify.zify_post_hook ::= Z.to_euclidean_division_equations.

(** The 64 symbols of an encoding. *)
Definition alphanumerics : string := "ABCDEFGHIJKLMNOPQRSTUVWXYZabcdefghijklmnopqrstuvwxyz0123456789".
Definition std_alphabet : list ascii := bytes (alphanumerics +++ "+/").
Definition url_alphabet : list ascii := bytes (alphanumerics +++ "-_").

Section Alphabet.
Variable alphabet : list ascii.

Definition symbol (v : Z) : ascii := default "A"%char (alphabet !! Z.to_nat v).
Definition sextet (c : ascii) : option Z :=
  (λ ic : nat * ascii, Z.of_nat ic.1) <$> list_find (λ a, a = c) alphabet.

(** Three bytes as four sextets, and the two short tails. *)
Fixpoint encode (pad : string) (s : list ascii) : list ascii :=
  match s with
  | [] => []
  | [x] =>
      let x := byte_val x in
      [symbol (x / 4); symbol (x mod 4 * 16)] ++ bytes (pad +++ pad)
  | [x; y] =>
      let x := byte_val x in let y := byte_val y in
      [symbol (x / 4); symbol (x mod 4 * 16 + y / 16); symbol (y mod 16 * 4)] ++ bytes pad
  | x :: y :: z :: s' =>
      let x := byte_val x in let y := byte_val y in let z := byte_val z in
      symbol (x / 4) :: symbol (x mod 4 * 16 + y / 16) :: symbol (y mod 16 * 4 + z / 64) :: symbol (z mod 64)
        :: encode pad s'
  end.

(** The whole quanta of a decoded text and what is left after them. *)
Fixpoint quanta (s : list ascii) : list ascii * list ascii :=
  match s with
  | a :: b :: c :: d :: s' =>
      match sextet a, sextet b, sextet c, sextet d with
      | Some a', Some b', Some c', Some d' =>
          let '(out, rest) := quanta s' in
          (byte_of (a' * 4 + b' / 16) :: byte_of (b' mod 16 * 16 + c' / 4) :: byte_of (c' mod 4 * 64 + d') :: out, rest)
      | _, _, _, _ => ([], s)
      end
  | _ => ([], s)
  end.

(** The last, short quantum; a strict decoder refuses bits that are not used. *)
Definition tail2 (strict : bool) (a b : ascii) : option (list ascii) :=
  a' ← sextet a; b' ← sextet b;
  if strict && negb (b' mod 16 =? 0) then None else Some [byte_of (a' * 4 + b' / 16)].
Definition tail3 (strict : bool) (a b c : ascii) : option (list ascii) :=
  a' ← sextet a; b' ← sextet b; c' ← sextet c;
  if strict && negb (c' mod 4 =? 0) then None
  else Some [byte_of (a' * 4 + b' / 16); byte_of (b' mod 16 * 16 + c' / 4)].

End Alphabet.

Definition newline (c : ascii) : bool := (byte_val c =? 10) || (byte_val c =? 13).
Definition without_newlines (s : string) : list ascii := filter (λ c, newline c = false) (bytes s).
Definition equals : ascii := "="%char.

Definition of_bytes (l : list ascii) : string := String.string_of_list_ascii l.

Definition StdEncoding_EncodeToString (s : string) : string := of_bytes (encode std_alphabet "=" (bytes s)).
Definition StdEncoding_DecodeString (s : string) : option string :=
  let '(out, rest) := quanta std_alphabet (without_newlines s) in
  tl ← match rest with
       | [] => Some []
       | [a; b; c; d] =>
           if decide (d ≠ equals) then None
           else if decide (c = equals) then tail2 std_alphabet false a b else tail3 std_alphabet false a b c
       | _ => None
       end;
  Some (of_bytes (out ++ tl)).

Definition RawURL_EncodeToString (s : string) : string := of_bytes (encode url_alphabet "" (bytes s)).
Definition RawURL_DecodeString (s : string) : option string :=
  let '(out, rest) := quanta url_alphabet (without_newlines s) in
  tl ← match rest with
       | [] => Some []
       | [a; b] => tail2 url_alphabet true a b
       | [a; b; c] => tail3 url_alphabet true a b c
       | _ => None
       end;
  Some (of_bytes (out ++ tl)).

(** [base64.RawURLEncoding.EncodedLen]. *)
Definition RawURL_EncodedLen (n : Z) : Z := n / 3 * 4 + (n mod 3 * 8 + 5) / 6.

(** * Round trips *)

Lemma of_bytes_bytes s : of_bytes (bytes s) = s.
Proof. apply String.string_of_list_ascii_of_string. Qed.
Lemma bytes_of_bytes l : bytes (of_bytes l) = l.
Proof. apply String.list_ascii_of_string_of_list_ascii. Qed.

(** An alphabet: 64 symbols, all distinct, none of them a line break or the
    padding character. *)
Definition alphabet_ok (alphabet : list ascii) : bool :=
  forallb (λ i, bool_decide (sextet alphabet (symbol alphabet (Z.of_nat i)) = Some (Z.of_nat i))
                && negb (newline (symbol alphabet (Z.of_nat i)))) (seq 0 64)
  && bool_decide (sextet alphabet equals = None).

(** Induction by quanta of three. *)
Lemma list_ind3 {A} (P : list A → Prop) :
  P [] → (∀ x, P [x]) → (∀ x y, P [x; y]) → (∀ x y z l, P l → P (x :: y :: z :: l)) → ∀ l, P l.
Proof.
  intros H0 H1 H2 H3 l. enough (∀ n l, (length l ≤ n)%nat → P l) as H by (by eapply H).
  clear l. induction n as [|n IH]; intros [|x [|y [|z l]]] Hl; simpl in Hl; auto; try lia.
  apply H3, IH. lia.
Qed.

Section RoundTrip.
Variable alphabet : list ascii.
Hypothesis Hok : alphabet_ok alphabet = true.

Lemma symbol_ok v : 0 ≤ v < 64 →
  sextet alphabet (symbol alphabet v) = Some v ∧ newline (symbol alphabet v) = false.
Proof.
  intros Hv. apply andb_true_iff in Hok as [H _]. rewrite forallb_elem in H.
  specialize (H (Z.to_nat v)). rewrite Z2Nat.id in H by lia.
  assert (Z.to_nat v ∈ seq 0 64) as Hin by (apply elem_of_seq; lia).
  apply H, andb_true_iff in Hin as [H1 H2]. by bool_to_prop.
Qed.

Lemma equals_ok : sextet alphabet equals = None.
Proof. apply andb_true_iff in Hok as [_ H]. by bool_to_prop. Qed.

Ltac sextets :=
  repeat match goal with
  | |- context [sextet alphabet (symbol alphabet ?v)] => rewrite (proj1 (symbol_ok v ltac:(lia)))
  end.

(** What the decoder finds left after the whole quanta of an encoded text. *)
Definition left_over (pad : string) (s : list ascii) : list ascii :=
  encode alphabet pad (drop (length s / 3 * 3) s).

Lemma div3_step (s : list ascii) n : (S (S (S n)) / 3 * 3 = S (S (S (n / 3 * 3))))%nat.
Proof. replace (S (S (S n))) with (n + 1 * 3)%nat by lia. rewrite Nat.div_add by lia. lia. Qed.

Lemma quanta_encode pad s :
  pad = "" ∨ pad = "=" →
  quanta alphabet (encode alphabet pad s) = (take (length s / 3 * 3) s, left_over pad s).
Proof.
  intros Hpad. unfold left_over. induction s as [|x|x y|x y z s IH] using list_ind3.
  - done.
  - destruct Hpad as [-> | ->]; [done|]. cbn [encode].
    change (bytes ("=" +++ "=")) with [equals; equals]. cbn [app quanta length]. rewrite equals_ok. by repeat case_match.
  - destruct Hpad as [-> | ->]; [done|]. cbn [encode].
    change (bytes "=") with [equals]. cbn [app quanta length]. rewrite equals_ok. by repeat case_match.
  - pose proof (byte_val_range x). pose proof (byte_val_range y). pose proof (byte_val_range z).
    cbn [length]. rewrite div3_step by done. cbn [take drop encode quanta]. sextets. rewrite IH.
    rewrite (byte_of_eq _ x), (byte_of_eq _ y), (byte_of_eq _ z) by lia. done.
Qed.

Lemma encode_no_newlines pad s :
  pad = "" ∨ pad = "=" → filter (λ c, newline c = false) (encode alphabet pad s) = encode alphabet pad s.
Proof.
  intros Hpad. induction s as [|x|x y|x y z s IH] using list_ind3; [done|..]; cbn [encode].
  - pose proof (byte_val_range x). destruct Hpad as [-> | ->]; simpl app; rewrite !filter_cons_True by
      (try apply symbol_ok; (done || lia)); done.
  - pose proof (byte_val_range x). pose proof (byte_val_range y).
    destruct Hpad as [-> | ->]; simpl app; rewrite !filter_cons_True by
      (try apply symbol_ok; (done || lia)); done.
  - pose proof (byte_val_range x). pose proof (byte_val_range y). pose proof (byte_val_range z).
    rewrite !filter_cons_True by (apply symbol_ok; lia). by rewrite IH.
Qed.

(** The tail of an encoded text decodes to the bytes that make no whole quantum. *)
Lemma short_tail (s : list ascii) :
  match drop (length s / 3 * 3) s with [] | [_] | [_; _] => True | _ => False end.
Proof.
  induction s as [|x|x y|x y z s IH] using list_ind3; [done..|]. cbn [length]. rewrite div3_step by done. apply IH.
Qed.

Lemma tail2_encode strict x :
  tail2 alphabet strict (symbol alphabet (byte_val x / 4)) (symbol alphabet (byte_val x mod 4 * 16)) = Some [x].
Proof.
  pose proof (byte_val_range x). unfold tail2. sextets. simpl.
  replace (byte_val x mod 4 * 16) with (byte_val x mod 4 * 16 + 0) by lia.
  assert ((byte_val x mod 4 * 16 + 0) mod 16 = 0) as -> by lia. rewrite andb_false_r.
  by rewrite (byte_of_eq _ x) by lia.
Qed.

Lemma tail3_encode strict x y :
  tail3 alphabet strict (symbol alphabet (byte_val x / 4)) (symbol alphabet (byte_val x mod 4 * 16 + byte_val y / 16))
    (symbol alphabet (byte_val y mod 16 * 4)) = Some [x; y].
Proof.
  pose proof (byte_val_range x). pose proof (byte_val_range y). unfold tail3. sextets. simpl.
  assert (byte_val y mod 16 * 4 mod 4 = 0) as -> by lia. rewrite andb_false_r.
  by rewrite (byte_of_eq _ x), (byte_of_eq _ y) by lia.
Qed.
End RoundTrip.

#[local] Arguments bytes : simpl never.
#[local] Arguments Nat.div : simpl never.

Lemma url_alphabet_ok : alphabet_ok url_alphabet = true.
Proof. by vm_compute. Qed.
Lemma std_alphabet_ok : alphabet_ok std_alphabet = true.
Proof. by vm_compute. Qed.

Lemma RawURL_round_trip s : RawURL_DecodeString (RawURL_EncodeToString s) = Some s.
Proof.
  unfold RawURL_DecodeString, RawURL_EncodeToString, without_newlines. rewrite bytes_of_bytes.
  rewrite (encode_no_newlines _ url_alphabet_ok), (quanta_encode _ url_alphabet_ok) by auto. unfold left_over.
  pose proof (short_tail (bytes s)) as Ht. pose proof (take_drop (length (bytes s) / 3 * 3) (bytes s)) as Hs.
  destruct (drop _ _) as [|x [|y [|]]]; [..|done]; cbn [encode app].
  - simpl. by rewrite Hs, of_bytes_bytes.
  - change (bytes ("" +++ "")) with (@nil ascii). rewrite (tail2_encode _ url_alphabet_ok). simpl. by rewrite Hs, of_bytes_bytes.
  - change (bytes "") with (@nil ascii). rewrite (tail3_encode _ url_alphabet_ok). simpl. by rewrite Hs, of_bytes_bytes.
Qed.

Lemma StdEncoding_round_trip s : StdEncoding_DecodeString (StdEncoding_EncodeToString s) = Some s.
Proof.
  unfold StdEncoding_DecodeString, StdEncoding_EncodeToString, without_newlines. rewrite bytes_of_bytes.
  rewrite (encode_no_newlines _ std_alphabet_ok), (quanta_encode _ std_alphabet_ok) by auto. unfold left_over.
  pose proof (short_tail (bytes s)) as Ht. pose proof (take_drop (length (bytes s) / 3 * 3) (bytes s)) as Hs.
  destruct (drop _ _) as [|x [|y [|]]]; [..|done]; cbn [encode app].
  - simpl. by rewrite Hs, of_bytes_bytes.
  - change (bytes ("=" +++ "=")) with [equals; equals]. cbn iota. rewrite decide_False, decide_True by auto.
    rewrite (tail2_encode _ std_alphabet_ok). simpl. by rewrite Hs, of_bytes_bytes.
  - change (bytes "=") with [equals]. cbn iota. rewrite decide_False by auto.
    destruct (decide _) as [E|_].
    { pose proof (byte_val_range y). pose proof (symbol_ok _ std_alphabet_ok (byte_val y mod 16 * 4)) as [Hsy _]; [lia|].
      rewrite E, (equals_ok _ std_alphabet_ok) in Hsy. done. }
    rewrite (tail3_encode _ std_alphabet_ok). simpl. by rewrite Hs, of_bytes_bytes.
Qed.
