(* ===== verification/Json.v ===== *)
(** Package encoding/json, as far as the signed contexts use it: [json.Marshal]
    of strings, lists and structs, the grammar of a JSON text with the decoding
    of its strings, and decoding into a struct with [DisallowUnknownFields]. *)
From S2P Require Import Prelude GoLib.
From stdpp Require Import options.
Local Open Scope Z_scope.

(** * json.Marshal *)

Definition quote_byte : ascii := byte_of 34.
Definition quote : string := String quote_byte "".

(** How a rune is written inside a string, when not verbatim. *)
Definition json_escape (r : Z) : option string :=
  if (r =? 92) || (r =? 34) then Some (String backslash (String (byte_of r) ""))
  else if r =? 8 then Some "\b" else if r =? 12 then Some "\f"
  else if r =? 10 then Some "\n" else if r =? 13 then Some "\r" else if r =? 9 then Some "\t"
  else if (r <? 32) || (r =? 60) || (r =? 62) || (r =? 38)
  then Some ("\u00" +++ String (hex_digit (Z.shiftr r 4)) (String (hex_digit (Z.land r 15)) ""))
  else if r =? 8232 then Some "\u2028" else if r =? 8233 then Some "\u2029"
  else None.

(** The body of a string; [k] counts the bytes left of the current rune, which
    are copied when [emit] is set. *)
Fixpoint json_body (emit : bool) (k : nat) (s : string) : string :=
  match s with
  | "" => ""
  | String c s' =>
    match k with
    | S k' => if emit then String c (json_body emit k' s') else json_body emit k' s'
    | O =>
      let rw := decode_rune s in
      if (rw.1 =? RuneError) && (rw.2 =? 1)%nat then "\ufffd" +++ json_body false 0 s'
      else match json_escape rw.1 with
           | Some e => e +++ json_body false (pred rw.2) s'
           | None => String c (json_body true (pred rw.2) s')
           end
    end
  end.
Definition json_string (s : string) : string := quote +++ json_body false 0 s +++ quote.
Definition json_bool (b : bool) : string := if b then "true" else "false".
Definition json_int (z : Z) : string := (if z <? 0 then "-" else "") +++ dec (Z.to_N (Z.abs z)).
Definition json_list {A} (f : A → string) (l : list A) : string :=
  "[" +++ Join ","%char (f <$> l) +++ "]".
Definition json_field (name value : string) : string := json_string name +++ ":" +++ value.
(** The fields of a struct; an omitted one is [None]. *)
Definition json_object (fields : list (option string)) : string :=
  "{" +++ Join ","%char (omap id fields) +++ "}".
Definition omitempty_list (name : string) (l : list string) : option string :=
  if bool_decide (l = []) then None else Some (json_field name (json_list json_string l)).
Definition omitempty_string (name s : string) : option string :=
  if s =s "" then None else Some (json_field name (json_string s)).

(** * Parsing *)

(** A value; an object keeps for each member its name, the text of its value
    and the value. *)
#[warnings="-register-all"]
Inductive json :=
| JNull
| JBool (b : bool)
| JNumber (lit : string)
| JString (s : string)
| JArray (l : list json)
| JObject (l : list (string * (string * json))).

Definition err_syntax : error := errors_New "invalid JSON".
Definition err_fuel : error := errors_New "out of fuel".

Definition is_ws (c : ascii) : bool :=
  let v := byte_val c in (v =? 32) || (v =? 9) || (v =? 13) || (v =? 10).
Fixpoint skip_ws (s : string) : string :=
  match s with String c s' => if is_ws c then skip_ws s' else s | "" => "" end.

Definition hex_val (c : ascii) : option Z :=
  let v := byte_val c in
  if in_range 48 57 c then Some (v - 48)
  else if in_range 97 102 c then Some (v - 87)
  else if in_range 65 70 c then Some (v - 55) else None.
Definition hex4 (a b c d : ascii) : option Z :=
  a' ← hex_val a; b' ← hex_val b; c' ← hex_val c; d' ← hex_val d;
  Some (((a' * 16 + b') * 16 + c') * 16 + d').

Definition simple_escape (c : ascii) : option ascii :=
  let v := byte_val c in
  if (v =? 34) || (v =? 92) || (v =? 47) then Some c
  else if v =? 98 then Some (byte_of 8) else if v =? 102 then Some (byte_of 12)
  else if v =? 110 then Some (byte_of 10) else if v =? 114 then Some (byte_of 13)
  else if v =? 116 then Some (byte_of 9) else None.

Definition high_surrogate (r : Z) : bool := (55296 <=? r) && (r <? 56320).
Definition low_surrogate (r : Z) : bool := (56320 <=? r) && (r <? 57344).

(** The rest of a string after its opening quote: its decoded bytes and the text
    after the closing quote. Bytes that are not UTF-8 decode to U+FFFD, and so
    does a surrogate that is not followed by its counterpart. *)
Fixpoint unquote (k : nat) (s : string) : option (string * string) :=
  let emit (out : string) (r : option (string * string)) := '(t, rest) ← r; Some (out +++ t, rest) in
  match s with
  | "" => None
  | String c s' =>
    match k with
    | S k' => emit (String c "") (unquote k' s')
    | O =>
      if decide (c = quote_byte) then Some ("", s')
      else if decide (c = backslash) then
        match s' with
        | String "u" (String a (String b (String d (String e s''))))  =>
            match hex4 a b d e with
            | None => None
            | Some r =>
              match s'' with
              | String "\" (String "u" (String a' (String b' (String d' (String e' s3))))) =>
                  match hex4 a' b' d' e' with
                  | Some r' =>
                      if high_surrogate r && low_surrogate r'
                      then emit (encode_rune ((r - 55296) * 1024 + (r' - 56320) + 65536)) (unquote 0 s3)
                      else emit (encode_rune r) (unquote 0 s'')
                  | None => emit (encode_rune r) (unquote 0 s'')
                  end
              | _ => emit (encode_rune r) (unquote 0 s'')
              end
            end
        | String e s'' => o ← simple_escape e; emit (String o "") (unquote 0 s'')
        | "" => None
        end
      else if byte_val c <? 32 then None
      else
        let rw := decode_rune s in
        if (rw.1 =? RuneError) && (rw.2 =? 1)%nat then emit (encode_rune RuneError) (unquote 0 s')
        else emit (String c "") (unquote (pred rw.2) s')
    end
  end.

(** Numbers: the literal is kept as it is written. *)
Fixpoint span_digits (s : string) : string * string :=
  match s with
  | String c s' => if in_range 48 57 c then let '(d, r) := span_digits s' in (String c d, r) else ("", s)
  | "" => ("", "")
  end.
Definition number_int (s : string) : option (string * string) :=
  match s with
  | String "0" r => Some ("0", r)
  | _ => let '(d, r) := span_digits s in if d =s "" then None else Some (d, r)
  end.
Definition number_frac (s : string) : option (string * string) :=
  match s with
  | String "." r => let '(d, r') := span_digits r in if d =s "" then None else Some ("." +++ d, r')
  | _ => Some ("", s)
  end.
Definition number_exponent (e : string) (s : string) : option (string * string) :=
  let '(sign, r) := match s with String "+" r => ("+", r) | String "-" r => ("-", r) | _ => ("", s) end in
  let '(d, r) := span_digits r in if d =s "" then None else Some (e +++ sign +++ d, r).
Definition number_exp (s : string) : option (string * string) :=
  match s with
  | String "e" r => number_exponent "e" r
  | String "E" r => number_exponent "E" r
  | _ => Some ("", s)
  end.
Definition parse_number (s : string) : option (string * string) :=
  let '(sign, r) := match s with String "-" r => ("-", r) | _ => ("", s) end in
  '(i, r) ← number_int r; '(f, r) ← number_frac r; '(e, r) ← number_exp r;
  Some (sign +++ i +++ f +++ e, r).

Definition syntax {A} (o : option A) : result A := match o with Some a => Ok a | None => Err err_syntax end.

(** The text consumed between a string and a suffix of it. *)
Definition consumed (s rest : string) : string :=
  String.substring 0 (String.length s - String.length rest) s.

(** The grammar. Every call spends a unit of fuel. *)
Fixpoint parse_value (fuel : nat) (s : string) {struct fuel} : result (json * string) :=
  match fuel with
  | O => Err err_fuel
  | S fuel =>
    match skip_ws s with
    | "" => Err err_syntax
    | String c r =>
      if decide (c = "{"%char) then
        match StripPrefix "}" (skip_ws r) with
        | Some r' => Ok (JObject [], r')
        | None => '(ms, rest) ← parse_members fuel (skip_ws r); Ok (JObject ms, rest)
        end
      else if decide (c = "["%char) then
        match StripPrefix "]" (skip_ws r) with
        | Some r' => Ok (JArray [], r')
        | None => '(l, rest) ← parse_elements fuel (skip_ws r); Ok (JArray l, rest)
        end
      else if decide (c = quote_byte) then '(v, rest) ← syntax (unquote 0 r); Ok (JString v, rest)
      else if decide (c = "t"%char) then rest ← syntax (StripPrefix "rue" r); Ok (JBool true, rest)
      else if decide (c = "f"%char) then rest ← syntax (StripPrefix "alse" r); Ok (JBool false, rest)
      else if decide (c = "n"%char) then rest ← syntax (StripPrefix "ull" r); Ok (JNull, rest)
      else '(lit, rest) ← syntax (parse_number (String c r)); Ok (JNumber lit, rest)
    end
  end
with parse_members (fuel : nat) (s : string) {struct fuel} : result (list (string * (string * json)) * string) :=
  match fuel with
  | O => Err err_fuel
  | S fuel =>
    match skip_ws s with
    | String c r =>
      if decide (c ≠ quote_byte) then Err err_syntax else
      '(name, r) ← syntax (unquote 0 r);
      match StripPrefix ":" (skip_ws r) with
      | None => Err err_syntax
      | Some r =>
        let start := skip_ws r in
        '(v, r) ← parse_value fuel start;
        let member := (name, (consumed start r, v)) in
        match skip_ws r with
        | String c r =>
            if decide (c = ","%char) then '(ms, rest) ← parse_members fuel r; Ok (member :: ms, rest)
            else if decide (c = "}"%char) then Ok ([member], r)
            else Err err_syntax
        | "" => Err err_syntax
        end
      end
    | "" => Err err_syntax
    end
  end
with parse_elements (fuel : nat) (s : string) {struct fuel} : result (list json * string) :=
  match fuel with
  | O => Err err_fuel
  | S fuel =>
    '(v, r) ← parse_value fuel s;
    match skip_ws r with
    | String c r =>
        if decide (c = ","%char) then '(l, rest) ← parse_elements fuel r; Ok (v :: l, rest)
        else if decide (c = "]"%char) then Ok ([v], r)
        else Err err_syntax
    | "" => Err err_syntax
    end
  end.

(** One value and nothing after it. *)
Definition parse_fuel (s : string) : nat := 2 * String.length s + 2.
Definition json_parse (s : string) : result json :=
  '(v, rest) ← parse_value (parse_fuel s) s;
  if skip_ws rest =s "" then Ok v else Err err_syntax.

(** [json.RawMessage] in [json.Marshal]: the text without the white space
    outside strings, with the characters unsafe in HTML escaped. *)
Fixpoint compact_body (in_string escaped : bool) (skip : nat) (s : string) : string :=
  match s with
  | "" => ""
  | String c s' =>
    match skip with
    | S k => compact_body in_string escaped k s'
    | O =>
      let v := byte_val c in
      if (v =? 60) || (v =? 62) || (v =? 38) then
        "\u00" +++ String (hex_digit (Z.shiftr v 4)) (String (hex_digit (Z.land v 15)) (compact_body in_string false 0 s'))
      else if bool_decide (is_Some (StripPrefix (encode_rune 8232) s)) then "\u2028" +++ compact_body in_string false 2 s'
      else if bool_decide (is_Some (StripPrefix (encode_rune 8233) s)) then "\u2029" +++ compact_body in_string false 2 s'
      else if in_string then
        String c (if escaped then compact_body true false 0 s'
                  else compact_body (negb (bool_decide (c = quote_byte))) (bool_decide (c = backslash)) 0 s')
      else if is_ws c then compact_body false false 0 s'
      else String c (compact_body (bool_decide (c = quote_byte)) false 0 s')
    end
  end.
Definition json_RawMessage (raw : string) : result string :=
  if raw =s "" then Ok "null" else json_parse raw ≫= λ _, Ok (compact_body false false 0 raw).

(** * Numbers *)

(** [strconv.ParseInt] in base 10 and 64 bits: no fraction and no exponent. *)
Definition ParseInt64 (lit : string) : option Z :=
  let '(neg, digits) := match lit with String "-" r => (true, r) | _ => (false, lit) end in
  if digits =s "" then None else
  n ← digits_val 0 digits;
  let z := if neg : bool then - n else n in
  if (- 2 ^ 63 <=? z) && (z <? 2 ^ 63) then Some z else None.

(** Whether a literal is too large for a float64. *)
Definition float_overflows (lit : string) : bool :=
  let s := match lit with String "-" r => r | _ => lit end in
  let '(i, r) := span_digits s in
  let '(f, r) := match r with String "." r => span_digits r | _ => ("", r) end in
  let '(neg, e) := match r with
                   | String _ (String "-" e) => (true, e)
                   | String _ (String "+" e) => (false, e)
                   | String _ e => (false, e)
                   | "" => (false, "0")
                   end in
  let m := default 0 (digits_val 0 (i +++ f)) in
  let e := default 0 (digits_val 0 e) in
  let e := (if neg : bool then - e else e) - len f in
  let n := len (dec (Z.to_N m)) in
  let bound := 2 ^ 1024 - 2 ^ 970 in
  if m =? 0 then false
  else if 310 <? n + e then true
  else if n + e <? 300 then false
  else if 0 <=? e then bound <=? m * 10 ^ e else bound * 10 ^ (- e) <=? m.

(** * Decoding into a value that is already there *)

Definition err_decode : error := errors_New "json: cannot unmarshal".

Definition decode_string (old : string) (v : json) : result string :=
  match v with JString s => Ok s | JNull => Ok old | _ => Err err_decode end.
Definition decode_int (old : Z) (v : json) : result Z :=
  match v with
  | JNumber lit => match ParseInt64 lit with Some z => Ok z | None => Err err_decode end
  | JNull => Ok old
  | _ => Err err_decode
  end.

(** An array is decoded element by element into what the slice holds. *)
Fixpoint decode_elements {A} (elem : A → json → result A) (zero : A) (old : list A) (l : list json) : result (list A) :=
  match l with
  | [] => Ok []
  | v :: l' => a ← elem (default zero (head old)) v; rest ← decode_elements elem zero (tail old) l'; Ok (a :: rest)
  end.
Definition decode_list {A} (elem : A → json → result A) (zero : A) (old : list A) (v : json) : result (list A) :=
  match v with JArray l => decode_elements elem zero old l | JNull => Ok [] | _ => Err err_decode end.

(** Field names match up to simple case folding. For names in ASCII that is the
    folding of the ASCII letters, of the long s and of the kelvin sign. *)
Definition fold_rune (r : Z) : Z :=
  if (97 <=? r) && (r <=? 122) then r - 32 else if r =? 383 then 83 else if r =? 8490 then 75 else r.
Definition fold_name (s : string) : list Z := (λ rw : Z * nat, fold_rune rw.1) <$> runes s.
Definition find_field (names : list string) (key : string) : option string :=
  if key ∈b names then Some key
  else snd <$> list_find (λ name, fold_name name = fold_name key) names.

(** An object is decoded member by member; with [DisallowUnknownFields] a name
    that no field has is an error. *)
Definition decode_struct {A} (names : list string) (field : A → string → string → json → result A) (old : A) (v : json) : result A :=
  match v with
  | JObject ms =>
      foldM (λ acc (m : string * (string * json)),
        match find_field names m.1 with
        | None => Err err_decode
        | Some name => field acc name m.2.1 m.2.2
        end) old ms
  | JNull => Ok old
  | _ => Err err_decode
  end.
