(* ===== verification/JsonFacts.v ===== *)
(** Facts on the JSON parser: the fuel [json_parse] provides always suffices, so
    the parser is total, and it never reads past what it is given. *)
From S2P Require Import Prelude GoLib Json.
From stdpp Require Import options.
#[local] Set Default Proof Using "Type*".

Abbreviation slen := String.length.

(** * What each part of the grammar consumes *)

Lemma skip_ws_length s : slen (skip_ws s) ≤ slen s.
Proof. induction s as [|c s IH]; simpl; [lia|]. case_match; simpl; lia. Qed.

Lemma StripPrefix_length p s t : StripPrefix p s = Some t → slen s = slen p + slen t.
Proof.
  revert s. induction p as [|a p IH]; intros s; simpl; [naive_solver|].
  destruct s as [|b s]; [done|]. destruct (decide (a = b)); [|done]. intros Ht%IH. simpl. lia.
Qed.

Lemma span_digits_length s d r : span_digits s = (d, r) → slen s = slen d + slen r.
Proof.
  revert d. induction s as [|c s IH]; intros d; simpl; [naive_solver|].
  case_match; [|naive_solver]. destruct (span_digits s) as [d' r']. intros [= <- <-]. simpl. by rewrite (IH d').
Qed.

Lemma number_int_length s i r : number_int s = Some (i, r) → slen r < slen s.
Proof.
  assert (∀ s i r, (let '(d, r) := span_digits s in if d =s "" then None else Some (d, r)) = Some (i, r) →
                   slen r < slen s) as Hd.
  { clear. intros s i r. destruct (span_digits s) as [d r'] eqn:E. apply span_digits_length in E.
    case_bool_decide as Hd; [done|]. intros [= <- <-]. destruct d; [done|]. simpl in E. lia. }
  unfold number_int. intros H. repeat (case_match; try by apply Hd in H). simplify_eq. simpl. lia.
Qed.

Lemma number_frac_length s f r : number_frac s = Some (f, r) → slen r ≤ slen s.
Proof.
  unfold number_frac. intros H. repeat (case_match; try (by simplify_eq; simpl; lia)); simplify_eq; simpl;
    match goal with H : span_digits _ = _ |- _ => apply span_digits_length in H; lia end.
Qed.

Lemma number_exponent_length e0 s e r : number_exponent e0 s = Some (e, r) → slen r ≤ slen s.
Proof.
  unfold number_exponent.
  destruct (match s with String "+" r1 => ("+", r1) | String "-" r1 => ("-", r1) | _ => ("", s) end) as [sg r1] eqn:E.
  assert (slen r1 ≤ slen s) by (repeat case_match; simplify_eq; simpl; lia).
  destruct (span_digits r1) as [d r2] eqn:Ed. apply span_digits_length in Ed. case_bool_decide; [done|].
  intros [= <- <-]. lia.
Qed.

Lemma number_exp_length s e r : number_exp s = Some (e, r) → slen r ≤ slen s.
Proof.
  unfold number_exp. intros H.
  repeat (case_match; try (by simplify_eq; simpl; lia)); apply number_exponent_length in H; simpl; lia.
Qed.

Lemma parse_number_length s l r : parse_number s = Some (l, r) → slen r < slen s.
Proof.
  unfold parse_number.
  destruct (match s with String "-" r => ("-", r) | _ => ("", s) end) as [sg r0] eqn:E0.
  assert (slen r0 ≤ slen s) by (repeat case_match; simplify_eq; simpl; lia).
  intros H1. apply bind_Some in H1 as ([i r1] & Hi%number_int_length & H1).
  apply bind_Some in H1 as ([f r2] & Hf%number_frac_length & H1).
  apply bind_Some in H1 as ([e r3] & He%number_exp_length & H1). simplify_eq. lia.
Qed.

Lemma unquote_length k s t r : unquote k s = Some (t, r) → slen r < slen s.
Proof.
  revert k t. assert (∀ n k s t, slen s ≤ n → unquote k s = Some (t, r) → slen r < slen s) as H; [|eauto].
  induction n as [|n IH]; intros k [|c s'] t Hn H; [done|simpl in Hn; lia|done|].
  assert (∀ out k s'' t, slen s'' ≤ slen s' →
    ('(t, rest) ← unquote k s''; Some (out +++ t, rest)) = Some (t, r) → slen r < slen (String c s')) as Hemit.
  { intros out k' s'' t' Hs Hb. apply bind_Some in Hb as ([u r'] & Hu & [= <- <-]).
    apply IH in Hu; simpl in *; lia. }
  simpl in H. destruct k as [|k]; [|by eapply Hemit; [|exact H]; simpl; lia].
  destruct (decide (c = quote_byte)); [simplify_eq; simpl; lia|].
  destruct (decide (c = backslash)); [|case_match; [done|]; case_match; by eapply Hemit; [|exact H]; simpl; lia].
  destruct s' as [|ch s2]; [done|].
  assert (∀ s2', slen s2' ≤ slen s2 → (o ← simple_escape ch; '(t, rest) ← unquote 0 s2'; Some (String o "" +++ t, rest)) = Some (t, r) →
      slen r < slen (String c (String ch s2))) as Hsimple.
  { intros s2' Hs Hb. apply bind_Some in Hb as (o & _ & Hb). eapply Hemit; [|exact Hb]. simpl. lia. }
  repeat (case_match; try done; try (by eapply Hsimple; [|exact H]; simpl; lia);
          try (by eapply Hemit; [|exact H]; simpl; lia)).
Qed.

(** * The fuel suffices *)

(** A parser that does not run out of fuel and consumes at least a byte. *)
Definition consumes {A} (n : nat) (r : result (A * string)) : Prop :=
  match r with Ok (_, rest) => slen rest < n | Err e => e ≠ err_fuel end.

Lemma consumes_bind {A B} n (r : result (A * string)) (f : A * string → result (B * string)) :
  consumes n r → (∀ a rest, slen rest < n → consumes n (f (a, rest))) → consumes n (r ≫= f).
Proof. destruct r as [[a rest]|e]; simpl; auto. Qed.

Lemma consumes_syntax {A B} n (o : option (A * string)) (f : A * string → result (B * string)) :
  (∀ a rest, o = Some (a, rest) → consumes n (f (a, rest))) → consumes n (syntax o ≫= f).
Proof. destruct o as [[a rest]|]; simpl; auto. Qed.

Lemma consumes_mono {A} n m (r : result (A * string)) : consumes n r → n ≤ m → consumes m r.
Proof. destruct r as [[a rest]|e]; simpl; [lia|done]. Qed.

(** The step after a value: a separator, the closing bracket, or an error. *)
Lemma consumes_sep {A} n m (sep close : ascii) (s : string) (f g : string → result (A * string)) :
  slen s < n → n ≤ m →
  (∀ r, S (slen r) < n → consumes m (f r)) → (∀ r, S (slen r) < n → consumes m (g r)) →
  consumes m (match skip_ws s with
              | String c r => if decide (c = sep) then f r else if decide (c = close) then g r else Err err_syntax
              | "" => Err err_syntax
              end).
Proof.
  intros Hs Hn Hf Hg. pose proof (skip_ws_length s) as Hw. destruct (skip_ws s) as [|c r]; [done|]. simpl in Hw.
  destruct (decide _); [apply Hf; lia|]. destruct (decide _); [apply Hg; lia|done].
Qed.

Lemma parser_consumes fuel s :
  (2 * slen s + 1 ≤ fuel → consumes (slen s) (parse_value fuel s)) ∧
  (2 * slen s + 1 ≤ fuel → consumes (slen s) (parse_members fuel s)) ∧
  (2 * slen s + 2 ≤ fuel → consumes (slen s) (parse_elements fuel s)).
Proof.
  revert s. induction fuel as [|fuel IH]; intros s; [split_and!; lia|].
  pose proof (skip_ws_length s) as Hw. split_and!; intros Hf; cbn [parse_value parse_members parse_elements].
  - destruct (skip_ws s) as [|c r]; [done|]. simpl in Hw. pose proof (skip_ws_length r) as Hr.
    destruct (IH (skip_ws r)) as (_ & Hm & He).
    repeat destruct (decide _);
      try (destruct (StripPrefix _ (skip_ws r)) as [r'|] eqn:E; [apply StripPrefix_length in E; simpl in *; lia|];
           eapply consumes_mono; [apply consumes_bind; [(apply Hm || apply He); lia|by intros]|lia]).
    + apply consumes_syntax. intros v rest Hu%unquote_length. simpl. lia.
    + destruct (StripPrefix "rue" r) eqn:E; simpl; [apply StripPrefix_length in E; simpl in *; lia|done].
    + destruct (StripPrefix "alse" r) eqn:E; simpl; [apply StripPrefix_length in E; simpl in *; lia|done].
    + destruct (StripPrefix "ull" r) eqn:E; simpl; [apply StripPrefix_length in E; simpl in *; lia|done].
    + apply consumes_syntax. intros v rest Hu%parse_number_length. simpl in *. lia.
  - destruct (skip_ws s) as [|c r]; [done|]. simpl in Hw. destruct (decide _); [done|].
    apply consumes_syntax. intros name r1 Hu%unquote_length. cbv beta.
    pose proof (skip_ws_length r1). destruct (StripPrefix ":" (skip_ws r1)) as [r2|] eqn:E; [|done].
    apply StripPrefix_length in E. simpl in E. pose proof (skip_ws_length r2).
    destruct (IH (skip_ws r2)) as (Hv & _ & _).
    eapply consumes_mono; [apply consumes_bind; [apply Hv; lia|]|lia]. intros v r3 H3. cbv beta iota.
    eapply (consumes_sep (slen (skip_ws r2))); [done..| |simpl; lia]. intros r4 H4. destruct (IH r4) as (_ & Hm & _).
    apply consumes_bind; [eapply consumes_mono; [apply Hm|]|by intros]; lia.
  - destruct (IH s) as (Hv & _ & _). apply consumes_bind; [apply Hv; lia|]. intros v r Hr.
    eapply (consumes_sep (slen s)); [done..| |simpl; lia]. intros r4 H4. destruct (IH r4) as (_ & _ & He).
    apply consumes_bind; [eapply consumes_mono; [apply He|]|by intros]; lia.
Qed.

Lemma json_parse_total s : json_parse s ≠ Err err_fuel.
Proof.
  unfold json_parse, parse_fuel. destruct (parser_consumes (2 * slen s + 2) s) as (Hv & _ & _).
  specialize (Hv ltac:(lia)). destruct (parse_value _ s) as [[v rest]|e]; simpl in *; [|congruence].
  by destruct (_ =s _).
Qed.
