(* ===== verification/JsonStrings.v ===== *)
(** UTF-8 and the string literals of JSON: a valid text splits into runes that
    decode on their own, and each escape [json.Marshal] writes is read back as
    the rune it stands for. *)
From S2P Require Import Prelude GoLib Json.
From stdpp Require Import options.
Local Open Scope Z_scope.

#[local] Abbreviation slen := String.length.

(** * Runes *)

(** The rune at the front of a text, when it is not an encoding error. *)
Definition well_encoded (s : string) : Prop := ¬ ((decode_rune s).1 = RuneError ∧ (decode_rune s).2 = 1%nat).

Lemma decode_rune_width s : s ≠ "" → (1 ≤ (decode_rune s).2 ≤ 4)%nat.
Proof. intros Hs. unfold decode_rune. repeat (case_match; simpl; try lia); done. Qed.

#[local] Ltac bad := let Hn := fresh in intros Hn; exfalso; apply Hn; split; reflexivity.

(** A well encoded rune is decoded from its own bytes. *)
Lemma decode_rune_split s : s ≠ "" → well_encoded s → ∃ c a t, s = String c a +++ t ∧ S (slen a) = (decode_rune s).2 ∧
  (∀ u, decode_rune (String c a +++ u) = decode_rune s) ∧ Forall (λ b, 128 ≤ byte_val b ≤ 191) (bytes a) ∧
  (byte_val c < 128 → a = "" ∧ (decode_rune s).1 = byte_val c) ∧ (128 ≤ byte_val c → a ≠ "").
Proof.
  unfold well_encoded, decode_rune. destruct s as [|b0 s1]; [done|]. intros _.
  destruct (Z.ltb_spec (byte_val b0) 128) as [Hlt|Hge]; simpl.
  { intros _. exists b0, "", s1. split_and!; [done|done|intros u; simpl; by rewrite (proj2 (Z.ltb_lt _ _))|constructor|done|lia]. }
  destruct (lead_info (byte_val b0)) as [[[n lo] hi]|] eqn:El; [|bad].
  assert (128 ≤ lo ∧ hi ≤ 191) as [Hlo Hhi] by (revert El; unfold lead_info; repeat (case_match; try done); intros; simplify_eq; lia).
  assert (∀ lo hi b, 128 ≤ lo → hi ≤ 191 → in_range lo hi b = true → 128 ≤ byte_val b ≤ 191) as Hr
    by (unfold in_range; intros ? ? ? ? ? ?; bool_to_prop; lia).
  assert (n = 2%nat ∨ n = 3%nat ∨ n = 4%nat) as [-> |[-> | ->]]
    by (revert El; unfold lead_info; repeat (case_match; try done); intros; simplify_eq; auto).
  - destruct s1 as [|b1 s2]; [bad|]. destruct (in_range lo hi b1) eqn:E1; [|bad]. intros _.
    exists b0, (String b1 ""), s2. split_and!; [done|done| | |lia|done].
    + intros u. simpl. by rewrite (proj2 (Z.ltb_ge _ _)), El, E1.
    + repeat (apply Forall_cons_2; [eapply Hr; [| |eassumption]; lia|]). apply Forall_nil_2.
  - destruct s1 as [|b1 [|b2 s3]]; [bad..|]. destruct (in_range lo hi b1) eqn:E1; [|bad].
    destruct (in_range 128 191 b2) eqn:E2; simpl; [|bad]. intros _.
    exists b0, (String b1 (String b2 "")), s3. split_and!; [done|done| | |lia|done].
    + intros u. simpl. by rewrite (proj2 (Z.ltb_ge _ _)), El, E1, E2.
    + repeat (apply Forall_cons_2; [eapply Hr; [| |eassumption]; lia|]). apply Forall_nil_2.
  - destruct s1 as [|b1 [|b2 [|b3 s4]]]; [bad..|]. destruct (in_range lo hi b1) eqn:E1; [|bad].
    destruct (in_range 128 191 b2) eqn:E2; simpl; [|bad]. destruct (in_range 128 191 b3) eqn:E3; simpl; [|bad]. intros _.
    exists b0, (String b1 (String b2 (String b3 ""))), s4. split_and!; [done|done| | |lia|done].
    + intros u. simpl. by rewrite (proj2 (Z.ltb_ge _ _)), El, E1, E2, E3.
    + repeat (apply Forall_cons_2; [eapply Hr; [| |eassumption]; lia|]). apply Forall_nil_2.
Qed.

Lemma runes_from_skip a t : runes_from (slen a) (a +++ t) = runes_from 0 t.
Proof. induction a as [|c a IH]; [done|]. simpl. exact IH. Qed.

(** Induction on a valid text, rune by rune. *)
Lemma valid_ind (P : string → Prop) : P "" →
  (∀ c a t, ValidString t = true → P t → well_encoded (String c a +++ t) → S (slen a) = (decode_rune (String c a +++ t)).2 →
     (∀ u, decode_rune (String c a +++ u) = decode_rune (String c a +++ t)) → Forall (λ b, 128 ≤ byte_val b ≤ 191) (bytes a) →
     (byte_val c < 128 → a = "" ∧ (decode_rune (String c a +++ t)).1 = byte_val c) → (128 ≤ byte_val c → a ≠ "") → P (String c a +++ t)) →
  ∀ s, ValidString s = true → P s.
Proof.
  intros H0 Hstep s. induction s as [s IH] using (induction_ltof1 _ slen). intros Hv. destruct s as [|c0 s0]; [done|].
  assert (well_encoded (String c0 s0)) as Hw.
  { intros [H1 H2]. unfold ValidString, runes in Hv. cbn [runes_from forallb] in Hv. rewrite H1, H2 in Hv. done. }
  destruct (decode_rune_split (String c0 s0) ltac:(discriminate) Hw) as (c & a & t & Hs & Hlen & Hdec & Hbytes & Hascii & Hlong). rewrite Hs in *.
  assert (ValidString t = true) as Hvt.
  { unfold ValidString, runes in Hv. rewrite append_cons in Hv. cbn [runes_from forallb] in Hv. apply andb_true_iff in Hv as [_ Hv].
    rewrite append_cons in Hlen. rewrite <-Hlen in Hv. simpl pred in Hv. by rewrite runes_from_skip in Hv. }
  apply Hstep; try done. apply IH; [|done]. unfold ltof. rewrite append_length. simpl. lia.
Qed.

(** * Strings *)

Lemma json_body_copy a t : json_body true (slen a) (a +++ t) = a +++ json_body true 0 t.
Proof. induction a as [|c a IH]; [done|]. rewrite append_cons. cbn [slen json_body]. by rewrite IH. Qed.
Lemma json_body_drop a t : json_body false (slen a) (a +++ t) = json_body false 0 t.
Proof. induction a as [|c a IH]; [done|]. exact IH. Qed.
Lemma json_body_flag t : json_body true 0 t = json_body false 0 t.
Proof. by destruct t. Qed.

Lemma json_body_rune c a t : well_encoded (String c a +++ t) → S (slen a) = (decode_rune (String c a +++ t)).2 →
  json_body false 0 (String c a +++ t) =
  default (String c a) (json_escape (decode_rune (String c a +++ t)).1) +++ json_body false 0 t.
Proof.
  intros Hw Hlen. rewrite append_cons in *. cbn [json_body]. rewrite <-Hlen. simpl pred.
  destruct (_ && _) eqn:Herr; [exfalso; apply Hw; bool_to_prop; rewrite <-Hlen; split; [done|]; simpl in *; by apply Nat.eqb_eq|].
  destruct (json_escape _) as [e|]; simpl default; [by rewrite json_body_drop|].
  rewrite json_body_copy, json_body_flag. done.
Qed.

(** The text of a string literal and what it stands for. *)
Definition reads_as (e out : string) : Prop := ∀ u, unquote 0 (e +++ u) = '(t, rest) ← unquote 0 u; Some (out +++ t, rest).

Lemma unquote_u a b d e r u : hex4 a b d e = Some r → high_surrogate r = false →
  unquote 0 (String "\" (String "u" (String a (String b (String d (String e u)))))) = '(t, rest) ← unquote 0 u; Some (encode_rune r +++ t, rest).
Proof.
  intros Hr Hs. cbn [unquote]. rewrite decide_False by done. rewrite decide_True by done. rewrite Hr, Hs. cbn [andb].
  destruct u as [|c1 u]; [done|]. destruct c1 as [[] [] [] [] [] [] [] []]; try reflexivity.
  destruct u as [|c2 u]; [done|]. destruct c2 as [[] [] [] [] [] [] [] []]; try reflexivity.
  destruct u as [|? [|? [|? [|? u]]]]; try reflexivity. match goal with |- context [hex4 ?x ?y ?z ?w] => destruct (hex4 x y z w) end; reflexivity.
Qed.

Lemma escape_ascii c e : byte_val c < 128 → json_escape (byte_val c) = Some e → reads_as e (String c "").
Proof.
  intros _. destruct c as [[] [] [] [] [] [] [] []]; intros He; vm_compute in He; try discriminate He; injection He as <-; intros u;
    first [reflexivity|refine (eq_trans (unquote_u _ _ _ _ _ u _ _) _); reflexivity].
Qed.

Lemma lor_shiftl x y n : 0 ≤ n → 0 ≤ y < 2 ^ n → Z.lor (Z.shiftl x n) y = x * 2 ^ n + y.
Proof.
  intros Hn Hy. rewrite <-Z.shiftl_mul_pow2 by done. symmetry. rewrite Z.add_nocarry_lxor, Z.lxor_lor; [done|..].
  all: apply Z.bits_inj'; intros i Hi; rewrite Z.land_spec, Z.bits_0, Z.shiftl_spec by done;
    destruct (Z.lt_ge_cases i n); [by rewrite Z.testbit_neg_r by lia|];
    rewrite <-(Z.mod_small y (2 ^ n)), Z.mod_pow2_bits_high by lia; apply andb_false_r.
Qed.
Lemma low6_range c : 0 ≤ low6 c < 64.
Proof. unfold low6. rewrite (Z.land_ones _ 6) by lia. apply Z.mod_pos_bound. lia. Qed.
Lemma in_range_low6 lo hi b : in_range lo hi b = true → 128 ≤ lo → hi ≤ 191 → lo - 128 ≤ low6 b.
Proof.
  unfold in_range. intros Hr Hlo Hhi. bool_to_prop. unfold low6. rewrite (Z.land_ones _ 6), Z.mod_eq by lia. change (2 ^ 6) with 64.
  replace (byte_val b / 64) with 2; [lia|]. apply Z.div_unique with (byte_val b - 128); lia.
Qed.
Lemma land_range v n : 0 ≤ n → 0 ≤ Z.land v (Z.ones n) < 2 ^ n.
Proof. intros Hn. rewrite Z.land_ones by done. apply Z.mod_pos_bound. lia. Qed.
(** The line separators U+2028 and U+2029 have one encoding. *)
Lemma separator_bytes c a t r : r = 8232 ∨ r = 8233 → S (slen a) = (decode_rune (String c a +++ t)).2 → 
  (decode_rune (String c a +++ t)).1 = r → String c a = encode_rune r.
Proof.
  intros Hr. rewrite append_cons. unfold decode_rune. set (v0 := byte_val c).
  pose proof (byte_val_range c) as Hc. fold v0 in Hc.
  destruct (Z.ltb_spec v0 128); [simpl; lia|]. destruct (lead_info v0) as [[[n lo] hi]|] eqn:El; [|simpl; unfold RuneError; lia].
  assert (n = 2%nat ∨ n = 3%nat ∧ 224 ≤ v0 ≤ 239 ∨ n = 4%nat ∧ (v0 = 240 ∧ lo = 144 ∨ 241 ≤ v0 ≤ 244)) as Hn
    by (revert El; unfold lead_info; repeat (case_match; try done); intros; simplify_eq; bool_to_prop; lia).
  pose proof (land_range v0 5 ltac:(lia)) as H5. pose proof (land_range v0 4 ltac:(lia)) as H4. 
  change (Z.ones 5) with 31 in H5. change (Z.ones 4) with 15 in H4.
  assert (∀ c x, 128 ≤ byte_val c ≤ 191 → low6 c = x → byte_val c = 128 + x) as Hlow.
  { intros c' x Hc' <-. unfold low6. rewrite (Z.land_ones _ 6) by lia. change (2 ^ 6) with 64.
    rewrite (Z.mod_eq (byte_val c') 64) by lia. assert (byte_val c' / 64 = 2) as -> by (symmetry; apply Z.div_unique with (byte_val c' - 128); lia). lia. }
  assert (128 ≤ lo ∧ hi ≤ 191) as [Hlo Hhi] by (revert El; unfold lead_info; repeat (case_match; try done); intros; simplify_eq; lia).
  destruct Hn as [-> |[[-> Hv]|[-> Hv]]].
  - destruct (a +++ t) as [|b1 u]; [simpl; unfold RuneError; lia|]. pose proof (low6_range b1).
    destruct (in_range lo hi b1); [|simpl; unfold RuneError; lia]. cbn [fst snd]. rewrite lor_shiftl by (simpl; lia). simpl in *. lia.
  - destruct a as [|b1 [|b2 [|b3 a]]]; simpl.
    + repeat case_match; simpl; unfold RuneError; lia.
    + repeat case_match; simpl; unfold RuneError; lia.
    + destruct (in_range lo hi b1) eqn:E1; [|simpl; unfold RuneError; lia]. destruct (in_range 128 191 b2) eqn:E2; [|simpl; unfold RuneError; lia].
      cbn [andb fst snd]. intros _. pose proof (low6_range b1). pose proof (low6_range b2).
      rewrite (lor_shiftl (low6 b1)) by (simpl; lia). rewrite lor_shiftl by (change (2^6) with 64; change (2^12) with 4096; lia). 
      change (2^6) with 64. change (2^12) with 4096. change (2^4) with 16 in *. intros Heq. unfold in_range in *. bool_to_prop.
      assert (Z.land v0 15 = 2 ∧ low6 b1 = 0 ∧ low6 b2 = r - 8192) as (Hv0 & Hb1 & Hb2) by lia.
      apply (Hlow b1) in Hb1; [|lia]. apply (Hlow b2) in Hb2; [|lia].
      assert (v0 = 226) as Hv0'. { rewrite (Z.land_ones _ 4) in Hv0 by lia. change (2^4) with 16 in Hv0. pose proof (Z.div_mod v0 16). assert (v0 / 16 = 14) by (symmetry; apply Z.div_unique with (v0 - 224); lia). lia. }
      subst v0. rewrite <-(byte_of_val c), <-(byte_of_val b1), <-(byte_of_val b2), Hv0', Hb1, Hb2. by destruct Hr as [-> | ->].
    + repeat case_match; simpl; try lia; unfold RuneError; lia.
  - destruct (a +++ t) as [|b1 [|b2 [|b3 u]]]; try (simpl; unfold RuneError; lia).
    destruct (in_range lo hi b1) eqn:E1; [|simpl; unfold RuneError; lia]. destruct (in_range 128 191 b2) eqn:E2; [|simpl; unfold RuneError; lia].
    destruct (in_range 128 191 b3) eqn:E3; [|simpl; unfold RuneError; lia]. cbn [andb fst snd]. intros _.
    pose proof (low6_range b1). pose proof (low6_range b2). pose proof (low6_range b3). pose proof (land_range v0 3 ltac:(lia)) as H3. change (Z.ones 3) with 7 in H3.
    rewrite (lor_shiftl (low6 b2)) by (simpl; lia). rewrite (lor_shiftl (low6 b1)) by (change (2^6) with 64; change (2^12) with 4096; lia).
    rewrite lor_shiftl by (change (2^6) with 64; change (2^12) with 4096;change (2^18) with 262144; lia).
    change (2^6) with 64; change (2^12) with 4096;change (2^18) with 262144. intros Heq. exfalso. unfold in_range in *. bool_to_prop.
    destruct Hv as [[Hv ->]|Hv].
    + assert (low6 b1 < 16) as Hs by lia. pose proof (Hlow b1 (low6 b1)). lia.
    + assert (Z.land v0 7 = 0) as Hz by lia. rewrite (Z.land_ones _ 3) in Hz by lia. change (2^3) with 8 in Hz. pose proof (Z.div_mod v0 8). assert (v0 / 8 = 30) by (symmetry; apply Z.div_unique with (v0 - 240); lia). lia.
Qed.

Lemma decode_rune_multi c s : well_encoded (String c s) → 128 ≤ byte_val c → 128 ≤ (decode_rune (String c s)).1.
Proof.
  unfold well_encoded, decode_rune. intros Hw Hc. set (v0 := byte_val c) in *. pose proof (byte_val_range c) as Hr. fold v0 in Hr.
  rewrite (proj2 (Z.ltb_ge v0 128)) in * by lia.
  destruct (lead_info v0) as [[[n lo] hi]|] eqn:El; [|simpl; unfold RuneError; lia].
  assert (n = 2%nat ∧ 194 ≤ v0 ≤ 223 ∨ n = 3%nat ∧ (v0 = 224 ∧ lo = 160 ∨ 225 ≤ v0 ≤ 239) ∨ n = 4%nat ∧ (v0 = 240 ∧ lo = 144 ∨ 241 ≤ v0 ≤ 244)) as Hn
    by (revert El; unfold lead_info; repeat (case_match; try done); intros; simplify_eq; bool_to_prop; lia).
  assert (hi ≤ 191) as Hhi by (revert El; unfold lead_info; repeat (case_match; try done); intros; simplify_eq; lia).
  assert (∀ k q, 0 ≤ k → q * 2 ^ k ≤ v0 < (q + 1) * 2 ^ k → Z.land v0 (Z.ones k) = v0 - q * 2 ^ k) as Hland.
  { intros k q Hk Hq. rewrite Z.land_ones, Z.mod_eq by lia. replace (v0 / 2 ^ k) with q; [lia|]. apply Z.div_unique with (v0 - q * 2 ^ k); lia. }
  destruct Hn as [[-> Hv]|[[-> Hv]|[-> Hv]]].
  - destruct s as [|b1 s]; [simpl; unfold RuneError; lia|]. destruct (in_range lo hi b1); [|simpl; unfold RuneError; lia]. cbn [fst]. pose proof (low6_range b1).
    rewrite lor_shiftl by (simpl; lia). change 31 with (Z.ones 5). rewrite (Hland 5 6) by (simpl; lia). simpl. lia.
  - destruct s as [|b1 [|b2 s]]; [simpl; unfold RuneError; lia..|]. destruct (in_range lo hi b1) eqn:E1; [|simpl; unfold RuneError; lia].
    destruct (in_range 128 191 b2); [|simpl; unfold RuneError; lia]. cbn [andb fst]. pose proof (low6_range b1). pose proof (low6_range b2).
    rewrite (lor_shiftl (low6 b1)) by (simpl; lia). rewrite lor_shiftl by (change (2 ^ 6) with 64; change (2 ^ 12) with 4096; lia).
    change 15 with (Z.ones 4). rewrite (Hland 4 14) by (simpl; lia). change (2 ^ 6) with 64. change (2 ^ 12) with 4096. change (2 ^ 4) with 16.
    destruct Hv as [[-> ->]|Hv]; [|lia]. pose proof (in_range_low6 _ _ _ E1 ltac:(lia) ltac:(lia)). lia.
  - destruct s as [|b1 [|b2 [|b3 s]]]; [simpl; unfold RuneError; lia..|]. destruct (in_range lo hi b1) eqn:E1; [|simpl; unfold RuneError; lia].
    destruct (in_range 128 191 b2); [|simpl; unfold RuneError; lia]. destruct (in_range 128 191 b3); [|simpl; unfold RuneError; lia].
    cbn [andb fst]. pose proof (low6_range b1). pose proof (low6_range b2). pose proof (low6_range b3).
    rewrite (lor_shiftl (low6 b2)) by (simpl; lia). rewrite (lor_shiftl (low6 b1)) by (change (2 ^ 6) with 64; change (2 ^ 12) with 4096; lia).
    rewrite lor_shiftl by (change (2 ^ 6) with 64; change (2 ^ 12) with 4096; change (2 ^ 18) with 262144; lia).
    change 7 with (Z.ones 3). rewrite (Hland 3 30) by (simpl; lia).
    change (2 ^ 6) with 64. change (2 ^ 12) with 4096. change (2 ^ 18) with 262144. change (2 ^ 3) with 8.
    destruct Hv as [[-> ->]|Hv]; [|lia]. pose proof (in_range_low6 _ _ _ E1 ltac:(lia) ltac:(lia)). lia.
Qed.

Lemma escape_multi_rune r e : 128 ≤ r → json_escape r = Some e → (r = 8232 ∧ e = "\u2028") ∨ (r = 8233 ∧ e = "\u2029").
Proof.
  intros Hr. unfold json_escape. repeat (case_match; bool_to_prop; try lia); intros; simplify_eq; auto;
    repeat match goal with H : _ || _ = true |- _ => apply orb_true_iff in H as [H|H] end; bool_to_prop; lia.
Qed.
Lemma escape_multi r e : json_escape r = Some e → 128 ≤ r → e = "\u2028" ∨ e = "\u2029".
Proof. intros He Hr. destruct (escape_multi_rune r e Hr He) as [[_ ->]|[_ ->]]; auto. Qed.

Lemma escape_reads c a t e : well_encoded (String c a +++ t) → S (slen a) = (decode_rune (String c a +++ t)).2 →
  (byte_val c < 128 → a = "" ∧ (decode_rune (String c a +++ t)).1 = byte_val c) →
  json_escape (decode_rune (String c a +++ t)).1 = Some e → reads_as e (String c a).
Proof.
  intros Hw Hlen Hascii He. destruct (Z.lt_ge_cases (byte_val c) 128) as [Hc|Hc].
  { destruct (Hascii Hc) as [-> Hr]. rewrite Hr in He. by apply escape_ascii. }
  pose proof (decode_rune_multi c (a +++ t) Hw Hc) as Hr. rewrite <-append_cons in Hr. set (r := (decode_rune _).1) in *.
  apply escape_multi_rune in He as Hsep; [|done].
  destruct Hsep as [[Hr' ->]|[Hr' ->]];
    [rewrite (separator_bytes c a t 8232 ltac:(by left) Hlen Hr')|rewrite (separator_bytes c a t 8233 ltac:(by right) Hlen Hr')];
    intros u; by apply unquote_u.
Qed.
