(* ===== verification/JsonPrint.v ===== *)
(** Printing and parsing JSON: what [json.Marshal] writes, the parser reads back,
    and [json.RawMessage] embeds as it is. *)
From S2P Require Import Prelude GoLib Json JsonStrings.
From stdpp Require Import options.
Local Open Scope Z_scope.

#[local] Abbreviation slen := String.length.

(** * Strings *)

Lemma verbatim_reads c a t : well_encoded (String c a +++ t) → S (slen a) = (decode_rune (String c a +++ t)).2 →
  (∀ u, decode_rune (String c a +++ u) = decode_rune (String c a +++ t)) →
  (byte_val c < 128 → a = "" ∧ (decode_rune (String c a +++ t)).1 = byte_val c) →
  json_escape (decode_rune (String c a +++ t)).1 = None → reads_as (String c a) (String c a).
Proof.
  intros Hw Hlen Hdec Hascii He u.
  assert (c ≠ quote_byte ∧ c ≠ backslash ∧ (byte_val c <? 32) = false) as (Hq & Hb & H32).
  { destruct (Z.lt_ge_cases (byte_val c) 128) as [Hc|Hc].
    - destruct (Hascii Hc) as [_ Hr]. rewrite Hr in He. split_and!; [intros ->; done..|]. apply Z.ltb_ge.
      destruct (Z.lt_ge_cases (byte_val c) 32); [|done]. revert He. unfold json_escape. repeat (case_match; try done).
      match goal with H : (_ || _ || _ || _) = false |- _ => rewrite !orb_false_iff in H; destruct H as [[[H _] _] _] end. bool_to_prop. lia.
    - split_and!; [intros ->; done..|]. apply Z.ltb_ge. lia. }
  assert (∀ x k, k = slen x → unquote k (x +++ u) = '(t, rest) ← unquote 0 u; Some (x +++ t, rest)) as Hcopy.
  { intros x. induction x as [|b x IH]; intros k ->; [rewrite append_nil_l; cbn [String.length]; by destruct (unquote 0 u) as [[]|]|].
    rewrite append_cons. cbn [slen unquote]. rewrite IH by done. by destruct (unquote 0 u) as [[]|]. }
  specialize (Hdec u). rewrite !append_cons in *. cbn [unquote]. rewrite decide_False by done. rewrite decide_False by done. rewrite H32, Hdec. cbv zeta. rewrite <-Hlen.
  destruct (_ && _) eqn:Herr; [exfalso; apply Hw; bool_to_prop; rewrite <-Hlen; split; [done|]; simpl in *; by apply Nat.eqb_eq|].
  simpl pred. rewrite Hcopy by done. by destruct (unquote 0 u) as [[]|].
Qed.

Lemma unquote_body s rest : ValidString s = true → unquote 0 (json_body false 0 s +++ String quote_byte rest) = Some (s, rest).
Proof.
  revert s. apply valid_ind; [done|]. intros c a t _ IH Hw Hlen Hdec _ Hascii _. rewrite json_body_rune, append_assoc by done.
  assert (reads_as (default (String c a) (json_escape (decode_rune (String c a +++ t)).1)) (String c a)) as Hreads.
  { destruct (json_escape _) as [e|] eqn:He; simpl; [by eapply escape_reads|by eapply verbatim_reads]. }
  rewrite Hreads, IH. done.
Qed.

(** * Integers *)

Lemma span_digits_app d u : (∀ c, c ∈ bytes d → in_range 48 57 c = true) → (∀ c r, u = String c r → in_range 48 57 c = false) →
  span_digits (d +++ u) = (d, u).
Proof.
  intros Hd Hu. induction d as [|c d IH]; simpl.
  - destruct u as [|c r]; [done|]. simpl. by rewrite (Hu c r).
  - rewrite Hd by left. rewrite IH; [done|]. intros c' Hc'. apply Hd. by right.
Qed.
Lemma dec_digits_digits fuel n acc c : (∀ c, c ∈ bytes acc → in_range 48 57 c = true) → c ∈ bytes (dec_digits fuel n acc) → in_range 48 57 c = true.
Proof.
  revert n acc. induction fuel as [|fuel IH]; intros n acc Hacc; simpl; [auto|].
  assert (∀ c, c ∈ bytes (String (byte_of (48 + Z.of_N (n mod 10))) acc) → in_range 48 57 c = true) as Hacc'.
  { intros c' [->|Hc]%elem_of_cons; [|auto]. pose proof (N.mod_lt n 10 ltac:(lia)) as Hm. revert Hm. generalize (n mod 10)%N. intros m Hm.
    unfold in_range. rewrite byte_val_of by lia. apply andb_true_iff. split; apply Z.leb_le; lia. }
  destruct (n <? 10)%N; [apply Hacc'|by apply IH].
Qed.
Lemma dec_all_digits n c : c ∈ bytes (dec n) → in_range 48 57 c = true.
Proof. apply dec_digits_digits. intros c' Hc'. by apply elem_of_nil in Hc'. Qed.
Lemma dec_digits_head fuel n acc : (n < 2 ^ N.of_nat fuel)%N → ∃ c r, dec_digits (S fuel) n acc = String c r ∧ (c = "0"%char → n = 0%N ∧ r = acc).
Proof.
  revert n acc. induction fuel as [|fuel IH]; intros n acc Hn.
  - assert (n = 0%N) as -> by (simpl in Hn; lia). by eexists _, _.
  - remember (S fuel) as f. cbn [dec_digits]. pose proof (N.mod_lt n 10 ltac:(lia)) as Hm. destruct (N.ltb_spec n 10) as [Hlt|Hge].
    + eexists _, _. split; [done|]. intros Hc. apply (f_equal byte_val) in Hc. rewrite N.mod_small in * by done. rewrite byte_val_of in Hc by lia.
      change (byte_val "0") with 48 in Hc. split; [lia|done].
    + subst f. destruct (IH (n / 10)%N (String (byte_of (48 + Z.of_N (n mod 10))) acc)) as (c & r & -> & Hc).
      { rewrite Nat2N.inj_succ, N.pow_succ_r' in Hn. apply N.Div0.div_lt_upper_bound. lia. }
      exists c, r. split; [done|]. intros ->. destruct (Hc eq_refl) as [H0 _]. apply N.div_small_iff in H0; lia.
Qed.
Lemma dec_head n : ∃ c r, dec n = String c r ∧ (c = "0"%char → n = 0%N ∧ r = "").
Proof. apply dec_digits_head. rewrite N2Nat.id. apply N.size_gt. Qed.

(** What may follow a number. *)
Definition delimited (u : string) : Prop := ∀ c r, u = String c r → c = ","%char ∨ c = "}"%char ∨ c = "]"%char.

Lemma parse_number_int z u : delimited u → parse_number (json_int z +++ u) = Some (json_int z, u).
Proof.
  intros Hu. unfold json_int. destruct (dec_head (Z.to_N (Z.abs z))) as (c & r & Hd & Hc). pose proof (dec_all_digits (Z.to_N (Z.abs z))) as Hdig.
  set (n := Z.to_N (Z.abs z)) in *.
  assert (number_int (dec n +++ u) = Some (dec n, u)) as Hint.
  { unfold number_int. rewrite Hd in *. rewrite append_cons.
    assert (span_digits (String c (r +++ u)) = (String c r, u)) as Hspan.
    { rewrite <-append_cons. apply span_digits_app; [exact Hdig|]. intros c' r' Hcr. by destruct (Hu c' r' Hcr) as [->|[->| ->]]. }
    destruct (decide (c = "0"%char)) as [->|Hne]; [destruct (Hc eq_refl) as [_ ->]; done|]. rewrite Hspan.
    destruct c as [[] [] [] [] [] [] [] []]; try reflexivity. done. }
  assert (number_frac u = Some ("", u) ∧ number_exp u = Some ("", u)) as [Hfrac Hexp].
  { destruct u as [|c' r']; [done|]. by destruct (Hu c' r' eq_refl) as [->|[->| ->]]. }
  unfold parse_number. destruct (z <? 0).
  - change ("-" +++ dec n) with (String "-" (dec n)). rewrite append_cons. cbv iota beta. rewrite Hint. cbn [mbind option_bind]. rewrite Hfrac. cbn [mbind option_bind]. rewrite Hexp.
    cbn [mbind option_bind]. by rewrite !append_nil_r.
  - rewrite append_nil_l. assert ((match dec n +++ u with String "-" r => ("-", r) | _ => ("", dec n +++ u) end) = ("", dec n +++ u)) as ->.
    { rewrite Hd, append_cons. specialize (Hdig c). rewrite Hd in Hdig. specialize (Hdig ltac:(left)).
      destruct c as [[] [] [] [] [] [] [] []]; try reflexivity. done. }
    rewrite Hint. cbn [mbind option_bind]. rewrite Hfrac. cbn [mbind option_bind]. rewrite Hexp. cbn [mbind option_bind]. by rewrite !append_nil_r.
Qed.

Lemma ParseInt64_int z : - 2 ^ 63 ≤ z < 2 ^ 63 → ParseInt64 (json_int z) = Some z.
Proof.
  intros Hz. unfold ParseInt64, json_int. destruct (dec_head (Z.to_N (Z.abs z))) as (c & r & Hd & Hc). pose proof (dec_all_digits (Z.to_N (Z.abs z)) c) as Hdig.
  pose proof (digits_val_dec (Z.to_N (Z.abs z))) as Hv. rewrite Hd in *. specialize (Hdig ltac:(left)). rewrite Z2N.id in Hv by lia.
  assert ((- 2 ^ 63 <=? z) && (z <? 2 ^ 63) = true) as Hrange by (apply andb_true_iff; split; [apply Z.leb_le|apply Z.ltb_lt]; lia).
  destruct (Z.ltb_spec z 0).
  - rewrite append_cons, append_nil_l. cbv iota beta. rewrite bool_decide_false by done. rewrite Hv. cbn [mbind option_bind].
    rewrite Z.abs_neq, Z.opp_involutive, Hrange by lia. done.
  - rewrite append_nil_l. assert ((match String c r with String "-" r => (true, r) | _ => (false, String c r) end) = (false, String c r)) as ->.
    { destruct c as [[] [] [] [] [] [] [] []]; try reflexivity. done. }
    rewrite bool_decide_false by done. rewrite Hv. cbn [mbind option_bind]. by rewrite Z.abs_eq, Hrange by lia.
Qed.

(** * Values *)

Fixpoint jprint (v : json) : string :=
  match v with
  | JNull => "null"
  | JBool b => json_bool b
  | JNumber lit => lit
  | JString s => json_string s
  | JArray l => json_list jprint l
  | JObject ms => "{" +++ Join ","%char ((λ m : string * (string * json), json_field m.1 (jprint m.2.2)) <$> ms) +++ "}"
  end.

(** The values [json.Marshal] writes, with the texts of their members. *)
#[warnings="-register-all"]
Inductive printed : json → Prop :=
| printed_null : printed JNull
| printed_bool b : printed (JBool b)
| printed_int z : printed (JNumber (json_int z))
| printed_string s : ValidString s = true → printed (JString s)
| printed_array l : Forall printed l → printed (JArray l)
| printed_object ms : Forall (λ m, ValidString m.1 = true ∧ m.2.1 = jprint m.2.2 ∧ printed m.2.2) ms → printed (JObject ms).

(** How a printed value starts. *)
Definition starts (c : ascii) : Prop :=
  c = "n"%char ∨ c = "t"%char ∨ c = "f"%char ∨ c = quote_byte ∨ c = "["%char ∨ c = "{"%char ∨ c = "-"%char ∨ in_range 48 57 c = true.
Lemma printed_starts v : printed v → ∃ c r, jprint v = String c r ∧ starts c.
Proof.
  unfold starts. destruct 1 as [|[]|z|s|l|ms]; simpl; try (eexists _, _; split; [done|]; naive_solver).
  unfold json_int. destruct (dec_head (Z.to_N (Z.abs z))) as (c & r & Hd & _). pose proof (dec_all_digits (Z.to_N (Z.abs z)) c) as Hc.
  rewrite Hd in *. destruct (z <? 0); (eexists _, _; split; [done|]); [naive_solver|]. specialize (Hc ltac:(left)). auto 10.
Qed.
Lemma starts_no_ws c r : starts c → skip_ws (String c r) = String c r.
Proof.
  intros Hc. simpl. replace (is_ws c) with false; [done|]. symmetry. destruct Hc as [->|[->|[->|[->|[->|[->|[->|Hc]]]]]]]; try done.
  unfold in_range, is_ws in *. bool_to_prop. repeat (apply orb_false_iff; split); apply Z.eqb_neq; lia.
Qed.
Lemma starts_not c d : starts c → d = "]"%char ∨ d = "}"%char ∨ d = ","%char → c ≠ d.
Proof. intros Hc Hd ->. destruct Hd as [->|[->| ->]]; destruct Hc as [?|[?|[?|[?|[?|[?|[?|?]]]]]]]; done. Qed.
Lemma printed_skip v u : printed v → skip_ws (jprint v +++ u) = jprint v +++ u.
Proof. intros Hv. destruct (printed_starts v Hv) as (c & r & -> & Hc). rewrite append_cons. by apply starts_no_ws. Qed.

Lemma consumed_app s u : consumed (s +++ u) u = s.
Proof.
  unfold consumed. rewrite append_length, Nat.add_sub. induction s as [|c s IH]; [by destruct u|]. rewrite append_cons. simpl. by rewrite IH.
Qed.

Lemma Join_length sep l x : x ∈ l → (slen x ≤ slen (Join sep l))%nat.
Proof.
  induction l as [|y l IH]; [by intros ?%elem_of_nil|]. intros [->|Hx]%elem_of_cons; destruct l as [|z l].
  - done.
  - cbn [Join]. rewrite append_length. lia.
  - by apply elem_of_nil in Hx.
  - specialize (IH Hx). change (Join sep (y :: z :: l)) with (y +++ String sep (Join sep (z :: l))). rewrite append_length. cbn [String.length]. lia.
Qed.

(** What the parser reads back of a value. *)
Definition parses v : Prop := ∀ u fuel, delimited u → (2 * slen (jprint v) < fuel)%nat → parse_value fuel (jprint v +++ u) = Ok (v, u).

Lemma delimited_cons c u : c = ","%char ∨ c = "}"%char ∨ c = "]"%char → delimited (String c u).
Proof. intros Hc c' r [= <- _]. done. Qed.

Lemma skip_delimiter c u : c = ","%char ∨ c = "}"%char ∨ c = "]"%char ∨ c = ":"%char → skip_ws (String c u) = String c u.
Proof. by intros [->|[->|[->| ->]]]. Qed.

Lemma parse_elements_printed l u fuel : l ≠ [] → Forall (λ x, printed x ∧ parses x) l → (2 * slen (Join ","%char (jprint <$> l)) + 1 < fuel)%nat →
  parse_elements fuel (Join ","%char (jprint <$> l) +++ String "]" u) = Ok (l, u).
Proof.
  revert fuel. induction l as [|x l IH]; intros fuel Hne Hall Hfuel; [done|]. apply Forall_cons in Hall as [[Hx Hpx] Hall].
  destruct fuel as [|fuel]; [lia|]. cbn [parse_elements]. destruct l as [|y l].
  - cbn [fmap list_fmap Join] in *. rewrite Hpx; [|apply delimited_cons; auto|lia]. done.
  - change (Join ","%char (jprint <$> x :: y :: l)) with (jprint x +++ String "," (Join ","%char (jprint <$> y :: l))) in *.
    rewrite append_length in Hfuel. cbn [String.length] in Hfuel. destruct (printed_starts x Hx) as (c & r & Hc & _).
    rewrite append_assoc, append_cons. rewrite Hpx; [|apply delimited_cons; auto|lia]. cbn [mbind result_bind]. rewrite skip_delimiter by auto.
    rewrite decide_True by done. rewrite IH; [done..|]. rewrite Hc in Hfuel. cbn [String.length] in Hfuel. lia.
Qed.

Lemma parse_string_printed s u : ValidString s = true → syntax (unquote 0 (json_body false 0 s +++ quote +++ u)) = Ok (s, u).
Proof. intros Hs. change (quote +++ u) with (String quote_byte u). by rewrite unquote_body. Qed.

Lemma parse_member_printed name v w fuel : ValidString name = true → printed v → parses v → delimited w → (2 * slen (jprint v) < fuel)%nat →
  parse_members (S fuel) (json_field name (jprint v) +++ w) =
  match skip_ws w with
  | String c r =>
      if decide (c = ","%char) then '(ms, rest) ← parse_members fuel r; Ok ((name, (jprint v, v)) :: ms, rest)
      else if decide (c = "}"%char) then Ok ([(name, (jprint v, v))], r) else Err err_syntax
  | "" => Err err_syntax
  end.
Proof.
  intros Hn Hv Hpv Hw Hf. cbn [parse_members]. unfold json_field, json_string. rewrite !append_assoc. change (quote +++ ?x) with (String quote_byte x).
  rewrite starts_no_ws by (unfold starts; auto). rewrite decide_False by auto. rewrite parse_string_printed by done. cbn [mbind result_bind].
  change (":" +++ ?x) with (String ":" x). rewrite skip_delimiter by auto. cbn [StripPrefix]. rewrite decide_True by done.
  rewrite printed_skip, Hpv by done. cbn [mbind result_bind]. by rewrite consumed_app.
Qed.

Lemma parse_members_printed ms u fuel : ms ≠ [] → Forall (λ m, ValidString m.1 = true ∧ m.2.1 = jprint m.2.2 ∧ printed m.2.2 ∧ parses m.2.2) ms →
  let text := Join ","%char ((λ m : string * (string * json), json_field m.1 (jprint m.2.2)) <$> ms) in
  (2 * slen text + 1 < fuel)%nat → parse_members fuel (text +++ String "}" u) = Ok (ms, u).
Proof.
  cbv zeta. set (show := λ m : string * (string * json), json_field m.1 (jprint m.2.2)). revert fuel.
  induction ms as [|[name [raw v]] ms IH]; intros fuel Hne Hall Hfuel; [done|]. apply Forall_cons in Hall as [(Hn & Hraw & Hv & Hpv) Hall].
  cbn [fst snd] in *. subst raw. destruct fuel as [|fuel]; [lia|].
  assert (slen (show (name, (jprint v, v))) = (slen (json_string name) + 1 + slen (jprint v))%nat) as Hlen
    by (unfold show, json_field; rewrite !append_length; simpl; lia).
  destruct ms as [|m ms].
  - cbn [fmap list_fmap Join] in *. change (show (name, (jprint v, v))) with (json_field name (jprint v)) in *.
    rewrite parse_member_printed; [|done..|apply delimited_cons; auto|lia]. rewrite skip_delimiter by auto. rewrite decide_False by done. by rewrite decide_True.
  - change (Join ","%char (show <$> (name, (jprint v, v)) :: m :: ms))
      with (json_field name (jprint v) +++ String "," (Join ","%char (show <$> m :: ms))) in *.
    change (show (name, (jprint v, v))) with (json_field name (jprint v)) in *. rewrite append_length in Hfuel. cbn [String.length] in Hfuel.
    rewrite append_assoc, append_cons. rewrite parse_member_printed; [|done..|apply delimited_cons; auto|lia].
    rewrite skip_delimiter by auto. rewrite decide_True by done. rewrite IH; [done..|lia].
Qed.

(** What is printed is parsed. *)
Lemma parse_printed v : printed v → parses v.
Proof.
  induction v as [v IH] using (induction_ltof1 _ (slen ∘ jprint)). unfold ltof in IH. simpl in IH. intros Hv u fuel Hu Hfuel. destruct fuel as [|fuel]; [lia|].
  cbn [parse_value]. rewrite printed_skip by done. destruct Hv as [|[]|z|s Hs|l Hl|ms Hms].
  - done.
  - done.
  - done.
  - cbn [jprint]. pose proof (parse_number_int z u Hu) as Hp. pose proof (printed_starts _ (printed_int z)) as (c & r & Hc & Hs). cbn [jprint] in Hc.
    assert (c = "-"%char ∨ in_range 48 57 c = true) as Hc'.
    { clear Hp. unfold json_int in Hc. destruct (dec_head (Z.to_N (Z.abs z))) as (c' & r' & Hd & _). pose proof (dec_all_digits (Z.to_N (Z.abs z)) c') as Hdig.
      rewrite Hd in *. destruct (z <? 0); [injection Hc as <- _; by left|injection Hc as <- _; right; apply Hdig; left]. }
    rewrite Hc in Hp |- *. rewrite append_cons in Hp |- *. rewrite !decide_False by (intros ->; by destruct Hc'). rewrite Hp. done.
  - cbn [jprint]. unfold json_string. rewrite !append_assoc. change (quote +++ ?x) with (String quote_byte x) at 1. cbv iota beta.
    rewrite decide_False, decide_False, decide_True by done. by rewrite parse_string_printed.
  - cbn [jprint] in *. unfold json_list in *. rewrite !append_assoc. change ("[" +++ ?x) with (String "[" x). cbv iota beta. rewrite decide_False, decide_True by done.
    destruct l as [|x l]; [done|].
    assert (Forall (λ x, printed x ∧ parses x) (x :: l)) as Hall.
    { apply Forall_forall. intros y Hy. pose proof (proj1 (Forall_forall _ _) Hl y Hy) as Hpy. split; [done|]. apply IH; [|done].
      rewrite !append_length. pose proof (Join_length ","%char (jprint <$> x :: l) (jprint y) ltac:(by apply list_elem_of_fmap_2)). cbn [String.length]. lia. }
    pose proof Hall as [[Hx _] _]%Forall_cons.
    destruct (printed_starts x Hx) as (c & r & Hc & Hst).
    assert (∃ w, Join ","%char (jprint <$> x :: l) +++ "]" +++ u = String c w) as [w Hw].
    { destruct l; cbn [fmap list_fmap Join]; rewrite Hc, ?append_cons; eauto. }
    rewrite Hw, starts_no_ws by done. cbn [StripPrefix]. rewrite decide_False by (apply not_eq_sym, starts_not; auto). rewrite <-Hw.
    change ("]" +++ u) with (String "]" u). rewrite parse_elements_printed; [done..|]. rewrite !append_length in Hfuel. cbn [String.length] in *. lia.
  - cbn [jprint] in *. rewrite !append_assoc. change ("{" +++ ?x) with (String "{" x). cbv iota beta. rewrite decide_True by done.
    set (show := λ m : string * (string * json), json_field m.1 (jprint m.2.2)) in *.
    destruct ms as [|m ms]; [done|].
    assert (Forall (λ m, ValidString m.1 = true ∧ m.2.1 = jprint m.2.2 ∧ printed m.2.2 ∧ parses m.2.2) (m :: ms)) as Hall.
    { apply Forall_forall. intros y Hy. destruct (proj1 (Forall_forall _ _) Hms y Hy) as (H1 & H2 & H3). split_and!; [done..|]. apply IH; [|done].
      rewrite !append_length. pose proof (Join_length ","%char (show <$> m :: ms) (show y) ltac:(by apply list_elem_of_fmap_2)) as Hj.
      unfold show in Hj at 1. unfold json_field in Hj. rewrite !append_length in Hj. cbn [String.length] in *. lia. }
    assert (∃ w, Join ","%char (show <$> m :: ms) +++ "}" +++ u = String quote_byte w) as [w Hw].
    { destruct ms; cbn [fmap list_fmap Join]; unfold show at 1, json_field, json_string; rewrite !append_assoc; by eexists. }
    rewrite Hw, starts_no_ws by (unfold starts; auto). cbn [StripPrefix]. rewrite decide_False by done. rewrite <-Hw.
    change ("}" +++ u) with (String "}" u). unfold show. rewrite parse_members_printed; [done..|]. rewrite !append_length in Hfuel. fold show. cbn [String.length] in *. lia.
Qed.

(** A printed value is parsed to itself. *)
Lemma json_parse_printed v : printed v → json_parse (jprint v) = Ok v.
Proof.
  intros Hv. unfold json_parse, parse_fuel. rewrite <-(append_nil_r (jprint v)) at 2. rewrite parse_printed; [done|done|by intros c r|lia].
Qed.

(** * Compaction *)

(** A text that compaction copies, inside a string or outside of one. *)
Definition copied (inside : bool) (x : string) : Prop := ∀ u, compact_body inside false 0 (x +++ u) = x +++ compact_body inside false 0 u.

Lemma copied_app inside x y : copied inside x → copied inside y → copied inside (x +++ y).
Proof. intros Hx Hy u. by rewrite append_assoc, Hx, Hy, append_assoc. Qed.

(** A byte that is neither escaped nor the start of a line separator. *)
Lemma separator_prefix r c s : r = 8232 ∨ r = 8233 → byte_val c ≠ 226 → StripPrefix (encode_rune r) (String c s) = None.
Proof.
  intros Hr Hc. assert (∃ y, encode_rune r = String (byte_of 226) y) as [y ->] by (destruct Hr as [-> | ->]; by eexists).
  cbn [StripPrefix]. rewrite decide_False; [done|]. intros <-. by rewrite byte_val_of in Hc.
Qed.
Lemma copied_byte inside c x : byte_val c ≠ 60 → byte_val c ≠ 62 → byte_val c ≠ 38 → byte_val c ≠ 226 → c ≠ quote_byte →
  (inside = true → c ≠ backslash) → (inside = false → is_ws c = false) → copied inside x → copied inside (String c x).
Proof.
  intros H1 H2 H3 H4 Hq Hb Hw Hx u. rewrite append_cons. cbn [compact_body].
  rewrite (proj2 (Z.eqb_neq _ 60)), (proj2 (Z.eqb_neq _ 62)), (proj2 (Z.eqb_neq _ 38)) by done. cbn [orb].
  rewrite !separator_prefix by auto. rewrite !(bool_decide_false (is_Some None)) by (by intros [? ?]).
  destruct inside.
  - rewrite (bool_decide_false (c = quote_byte)), (bool_decide_false (c = backslash)) by auto. cbn [negb]. by rewrite Hx, append_cons.
  - rewrite Hw, (bool_decide_false (c = quote_byte)) by done. by rewrite Hx, append_cons.
Qed.
Lemma copied_nil inside : copied inside "".
Proof. intros u. by rewrite !append_nil_l. Qed.
Lemma copied_continuation a : Forall (λ b, 128 ≤ byte_val b ≤ 191) (bytes a) → copied true a.
Proof.
  induction a as [|c a IH]; intros Ha; [apply copied_nil|]. apply Forall_cons in Ha as [Hc Ha].
  apply copied_byte; [lia..|intros ->; change (byte_val quote_byte) with 34 in Hc; lia|intros _ ->; change (byte_val backslash) with 92 in Hc; lia|done|auto].
Qed.

Lemma copied_escape c e : byte_val c < 128 → json_escape (byte_val c) = Some e → copied true e.
Proof.
  intros _. destruct c as [[] [] [] [] [] [] [] []]; intros He; vm_compute in He; try discriminate He; injection He as <-; intros u; reflexivity.
Qed.
Lemma copied_rune c a t : well_encoded (String c a +++ t) → S (slen a) = (decode_rune (String c a +++ t)).2 →
  (∀ u, decode_rune (String c a +++ u) = decode_rune (String c a +++ t)) → Forall (λ b, 128 ≤ byte_val b ≤ 191) (bytes a) →
  (byte_val c < 128 → a = "" ∧ (decode_rune (String c a +++ t)).1 = byte_val c) →
  copied true (default (String c a) (json_escape (decode_rune (String c a +++ t)).1)).
Proof.
  intros Hw Hlen Hdec Ha Hascii. destruct (json_escape _) as [e|] eqn:He; simpl default.
  - destruct (Z.lt_ge_cases (byte_val c) 128) as [Hc|Hc]; [destruct (Hascii Hc) as [_ Hr]; rewrite Hr in He; by eapply copied_escape|].
    pose proof (decode_rune_multi c (a +++ t) Hw Hc) as Hr. rewrite <-append_cons in Hr. apply escape_multi in He as [-> | ->]; [|done|done]; intros u; reflexivity.
  - intros u. rewrite append_cons. cbn [compact_body].
    assert (∀ r, r = 8232 ∨ r = 8233 → bool_decide (is_Some (StripPrefix (encode_rune r) (String c (a +++ u)))) = false) as Hsep.
    { intros r Hr. apply bool_decide_eq_false. intros [z Hz]. apply StripPrefix_Some in Hz. rewrite <-append_cons in Hz. specialize (Hdec u). rewrite Hz in Hdec.
      rewrite <-Hdec in He. by destruct Hr as [-> | ->]. }
    rewrite !Hsep by auto.
    assert (byte_val c ≠ 60 ∧ byte_val c ≠ 62 ∧ byte_val c ≠ 38 ∧ c ≠ quote_byte ∧ c ≠ backslash) as (H1 & H2 & H3 & Hq & Hb).
    { destruct (Z.lt_ge_cases (byte_val c) 128) as [Hc|Hc]; [|split_and!; [lia..|intros ->; done|intros ->; done]].
      destruct (Hascii Hc) as [_ Hr]. rewrite Hr in He. split_and!; try (intros ->; done); intros Hv; by rewrite Hv in He. }
    rewrite (proj2 (Z.eqb_neq _ 60)), (proj2 (Z.eqb_neq _ 62)), (proj2 (Z.eqb_neq _ 38)) by done. cbn [orb].
    rewrite (bool_decide_false (c = quote_byte)), (bool_decide_false (c = backslash)) by done. cbn [negb].
    by rewrite copied_continuation.
Qed.
Lemma compact_string s u : ValidString s = true → compact_body false false 0 (json_string s +++ u) = json_string s +++ compact_body false false 0 u.
Proof.
  intros Hs. unfold json_string. rewrite !append_assoc.
  assert (compact_body true false 0 (json_body false 0 s +++ quote +++ u) = json_body false 0 s +++ quote +++ compact_body false false 0 u) as Hbody.
  { revert s Hs. apply valid_ind; [done|]. intros c a t _ IH Hw Hlen Hdec Ha Hascii _. rewrite json_body_rune, append_assoc by done.
    rewrite copied_rune, IH by done. by rewrite append_assoc. }
  change (quote +++ ?x) with (String quote_byte x) at 1 3. rewrite <-Hbody. reflexivity.
Qed.

Lemma copied_plain x : (∀ c, c ∈ bytes x → byte_val c < 128 ∧ byte_val c ≠ 60 ∧ byte_val c ≠ 62 ∧ byte_val c ≠ 38 ∧ c ≠ quote_byte ∧ is_ws c = false) → copied false x.
Proof.
  induction x as [|c x IH]; intros Hx; [apply copied_nil|]. destruct (Hx c ltac:(left)) as (H0 & H1 & H2 & H3 & H4 & H5).
  apply copied_byte; [done..|lia|done|done|done|]. apply IH. intros c' Hc'. apply Hx. by right.
Qed.
Lemma copied_int z : copied false (json_int z).
Proof.
  assert (∀ c, c = "-"%char ∨ in_range 48 57 c = true → byte_val c < 128 ∧ byte_val c ≠ 60 ∧ byte_val c ≠ 62 ∧ byte_val c ≠ 38 ∧ c ≠ quote_byte ∧ is_ws c = false) as Hok.
  { intros c [->|Hc]; [done|]. unfold in_range in Hc. bool_to_prop. split_and!; [lia..|intros ->; change (byte_val quote_byte) with 34 in *; lia|].
    unfold is_ws. repeat (apply orb_false_iff; split); apply Z.eqb_neq; lia. }
  apply copied_plain. intros c Hc. apply Hok. unfold json_int in Hc. pose proof (dec_all_digits (Z.to_N (Z.abs z)) c) as Hd.
  destruct (z <? 0); [|auto]. change (c ∈ "-"%char :: bytes (dec (Z.to_N (Z.abs z)))) in Hc. apply elem_of_cons in Hc as [->|Hc]; auto.
Qed.

Lemma copied_join l : Forall (copied false) l → copied false (Join ","%char l).
Proof.
  induction l as [|x l IH]; intros Hl; [apply copied_nil|]. apply Forall_cons in Hl as [Hx Hl]. destruct l as [|y l]; [done|].
  change (Join ","%char (x :: y :: l)) with (x +++ ("," +++ Join ","%char (y :: l))). apply copied_app; [done|]. apply copied_app; [|by apply IH].
  apply copied_plain. by intros c ->%list_elem_of_singleton.
Qed.

(** [json.RawMessage] leaves printed values as they are. *)
Lemma copied_printed v : printed v → copied false (jprint v).
Proof.
  assert (∀ x, x ∈ ["null"; "true"; "false"; "["; "]"; "{"; "}"; ":"] → copied false x) as Hconst.
  { intros x Hx. apply copied_plain. intros c Hc. rewrite !elem_of_cons, elem_of_nil in Hx. destruct_or! Hx; try done; subst x; cbn in Hc;
      rewrite ?elem_of_cons, elem_of_nil in Hc; destruct_or! Hc; by subst. }
  induction v as [v IH] using (induction_ltof1 _ (slen ∘ jprint)). unfold ltof in IH. simpl in IH. destruct 1 as [|[]|z|s Hs|l Hl|ms Hms]; cbn [jprint].
  - apply Hconst. set_solver.
  - apply Hconst. set_solver.
  - apply Hconst. set_solver.
  - apply copied_int.
  - intros u. by apply compact_string.
  - unfold json_list. apply copied_app; [apply Hconst; set_solver|]. apply copied_app; [|apply Hconst; set_solver]. apply copied_join.
    apply Forall_fmap, Forall_forall. intros x Hx. apply IH; [|by eapply Forall_forall]. cbn [jprint]. unfold json_list. rewrite !append_length.
    pose proof (Join_length ","%char (jprint <$> l) (jprint x) ltac:(by apply list_elem_of_fmap_2)). cbn [String.length]. lia.
  - apply copied_app; [apply Hconst; set_solver|]. apply copied_app; [|apply Hconst; set_solver]. apply copied_join.
    apply Forall_fmap, Forall_forall. intros m Hm. destruct (proj1 (Forall_forall _ _) Hms m Hm) as (H1 & H2 & H3). cbn [compose]. unfold json_field.
    apply copied_app; [intros u; by apply compact_string|]. apply copied_app; [apply Hconst; set_solver|]. apply IH; [|done]. cbn [jprint]. rewrite !append_length.
    pose proof (Join_length ","%char ((λ m : string * (string * json), json_field m.1 (jprint m.2.2)) <$> ms) (json_field m.1 (jprint m.2.2))
      ltac:(apply list_elem_of_fmap; by exists m)) as Hj. unfold json_field in Hj at 1. rewrite !append_length in Hj. cbn [String.length] in *. lia.
Qed.
Lemma RawMessage_printed v : printed v → json_RawMessage (jprint v) = Ok (jprint v).
Proof.
  intros Hv. unfold json_RawMessage. destruct (printed_starts v Hv) as (c & r & Hc & _). rewrite bool_decide_false by (by rewrite Hc).
  rewrite json_parse_printed by done. cbn [mbind result_bind]. f_equal. rewrite <-(append_nil_r (jprint v)) at 1. rewrite copied_printed by done. apply append_nil_r.
Qed.
