(* ===== verification/FileTypes.v ===== *)
(** Package filetypes (control/internal/filetypes and its identical copy
    node/backend/internal/filetypes): the file-type selectors and the signed
    policy context that the Control Tower compiles and the node evaluates entry
    by entry. *)
From S2P Require Import Prelude GoLib Json.
From stdpp Require Import options.
Local Open Scope Z_scope.

Module filetypes.

(** * selector.go: data *)

Record Selector := { Classes : list string; Extensions : list string; Names : list string }.
Record Matcher := { extensions : gset string; names : gset string }.
Record class := { class_extensions : gset string; class_names : gset string }.

#[global] Instance Selector_eq_dec : EqDecision Selector.
Proof. solve_decision. Defined.

Definition set (values : list string) : gset string := list_to_set values.

(** The fixed tables of classes. *)
Definition classes : gmap string class := list_to_map [
  ("video", {| class_extensions := set ["mp4"; "mkv"; "avi"; "mov"; "webm"; "m4v"; "mpeg"; "mpg"; "ts"]; class_names := ∅ |});
  ("audio", {| class_extensions := set ["mp3"; "flac"; "wav"; "ogg"; "m4a"; "aac"; "opus"]; class_names := ∅ |});
  ("image", {| class_extensions := set ["jpg"; "jpeg"; "png"; "gif"; "webp"; "svg"; "avif"; "bmp"; "tif"; "tiff"]; class_names := ∅ |});
  ("document", {| class_extensions := set ["txt"; "md"; "pdf"; "doc"; "docx"; "xls"; "xlsx"; "ppt"; "pptx"; "odt"; "ods"; "csv"; "json"; "xml"; "yaml"; "yml"]; class_names := ∅ |});
  ("archive", {| class_extensions := set ["zip"; "gz"; "tar"; "tgz"; "7z"; "rar"; "bz2"; "xz"; "zst"]; class_names := ∅ |});
  ("executable", {| class_extensions := set ["exe"; "dll"; "msi"; "com"; "bat"; "cmd"; "ps1"; "sh"; "bash"; "zsh"; "elf"; "bin"; "so"; "dylib"; "appimage"; "wasm"]; class_names := ∅ |});
  ("secret", {| class_extensions := set ["env"; "pem"; "key"; "p12"; "pfx"; "p8"; "jks"; "kdbx"]; class_names := set [".env"; "acme.json"; "id_rsa"; "id_ed25519"] |})
].

Definition zlen {A} (l : list A) : Z := Z.of_nat (length l).

(** * context.go: data *)

Definition MaxContextBytes : Z := 32768.
Definition MaxContextRules : Z := 256.

Record Rule := mkRule {
  PolicyID : string;
  Path : string;
  Capabilities : list string;
  FileTypes : option Selector;
  Visibility : string;
}.
#[global] Instance Rule_eta : Eta Rule := λ r,
  mkRule (PolicyID r) (Path r) (Capabilities r) (FileTypes r) (Visibility r).
Record Context := { Version : Z; Rules : list Rule }.
Record compiledRule := { cr_rule : Rule; cr_matcher : option Matcher; cr_caps : gset string }.
Record Filter := { rules : list compiledRule }.
Record Decision := { Allowed : bool; Denied : bool; dec_Visibility : string; Restricted : bool }.

Definition validCaps : gset string :=
  set ["read"; "list"; "create"; "update"; "delete"; "write"; "execute"; "sudo"; "deny"].

(** ** json.Marshal of a context, whose size Compile bounds *)

Definition json_selector (s : Selector) : string :=
  json_object [omitempty_list "classes" (Classes s); omitempty_list "extensions" (Extensions s);
               omitempty_list "names" (Names s)].
Definition json_rule (r : Rule) : string :=
  json_object [Some (json_field "policy_id" (json_string (PolicyID r)));
               Some (json_field "path" (json_string (Path r)));
               Some (json_field "capabilities" (json_list json_string (Capabilities r)));
               (json_field "file_types" ∘ json_selector) <$> FileTypes r;
               omitempty_string "visibility" (Visibility r)].
Definition json_context (c : Context) : string :=
  json_object [Some (json_field "version" (json_int (Version c)));
               Some (json_field "rules" (json_list json_rule (Rules c)))].

(** ** Path patterns *)

Definition segment_char_ok (reserved : string) (rw : Z * nat) : bool :=
  negb ((rw.1 <? 32) || (rw.1 =? 127) || ContainsRune reserved rw.1).

Definition reserved_chars : string := "\/?#&=%*".

Definition validPattern (value : string) : bool :=
  let value := Trim value slash in
  if (value =s "") || negb (ValidString value) || Contains value "//" then false else
  let parts := Split slash value in
  forallb (λ ip : nat * string,
    let '(i, part) := ip in
    if (part =s "") || (part =s ".") || (part =s "..")
       || ((part =s "**") && negb (i =? length parts - 1)%nat) then false
    else if (part =s "*") || (part =s "**") then true
    else forallb (segment_char_ok reserved_chars) (runes part))
  (imap pair parts).

(** The loop that compares a pattern with a path segment by segment and sums
    the specificity of its fixed segments. *)
Fixpoint score_parts (parts target : list string) : option Z :=
  match parts, target with
  | [], _ => Some 0
  | part :: parts', t :: target' =>
      if part =s "*" then score_parts parts' target'
      else if part ≠s t then None
      else (λ n, 100 + len part + n) <$> score_parts parts' target'
  | _ :: _, [] => None
  end.

Definition matchPath (pattern value : string) : bool * Z :=
  let parts := Split slash (Trim pattern slash) in
  let target := Split slash (Trim value slash) in
  let recursive := List.last parts "" =s "**" in
  let parts := if recursive then removelast parts else parts in
  if (if recursive then (length target <? length parts)%nat
      else negb (length parts =? length target)%nat) then (false, 0) else
  match score_parts parts target with
  | None => (false, 0)
  | Some score => (true, if recursive then score else score + zlen parts)
  end.

Definition grants (caps : gset string) (capability : string) : bool :=
  (capability ∈b caps) || (("write" ∈b caps) && ((capability =s "create") || (capability =s "update"))).

Definition validResource (value : string) : bool :=
  let value := Trim value slash in
  if (value =s "") || negb (ValidString value) || Contains value "//" then false else
  forallb (λ part,
    if (part =s "") || (part =s ".") || (part =s "..") || (part =s "*") || (part =s "**") then false
    else forallb (λ rw : Z * nat, negb ((rw.1 <? 32) || (rw.1 =? 127) || (rw.1 =? 92))) (runes part))
  (Split slash value).

Section WithUnicode.
Context {U : Unicode}.

(** * selector.go: operations *)

Definition norm (value : string) : string := ToLower (TrimSpace value).

Definition Validate (s : Selector) : result () :=
  let count := zlen (Classes s) + zlen (Extensions s) + zlen (Names s) in
  fail_if ((count =? 0) || (64 <? count)) (errors_New "file types require 1 to 64 selectors") ≫= λ _,
  foldM (λ seen value,
    let value := norm value in
    if bool_decide (classes !! value = None) || (("c:" +++ value) ∈b seen)
    then Err (errors_New "invalid or duplicate class")
    else Ok ({["c:" +++ value]} ∪ seen)) (∅ : gset string) (Classes s) ≫= λ seen,
  foldM (λ seen value,
    let value := norm value in
    if (value =s "") || (128 <? RuneCount value) || (("e:" +++ value) ∈b seen)
    then Err (errors_New "invalid or duplicate extension")
    else if existsb (λ rw : Z * nat, negb (unicode_IsLetter rw.1) && negb (unicode_IsDigit rw.1)
                       && negb (rw.1 =? 45) && negb (rw.1 =? 95) && negb (rw.1 =? 43)) (runes value)
    then Err (errors_New "invalid extension")
    else Ok ({["e:" +++ value]} ∪ seen)) seen (Extensions s) ≫= λ seen,
  foldM (λ seen value,
    let value := ToLower value in
    if (value =s "") || (value =s ".") || (value =s "..") || negb (ValidString value)
       || ContainsAny value (String slash (String backslash (String NUL "")))
       || (255 <? RuneCount value) || (("n:" +++ value) ∈b seen)
    then Err (errors_New "invalid or duplicate name")
    else Ok ({["n:" +++ value]} ∪ seen)) seen (Names s) ≫= λ _,
  Ok ().

(** [Selector.Compile]: the union of the names, the extensions and the tables of
    the classes. *)
Definition Selector_Compile (s : Selector) : result Matcher :=
  Validate s ≫= λ _,
  let m := {| extensions := ∅; names := ∅ |} in
  let m := foldl (λ m name, {| extensions := extensions m; names := {[ToLower name]} ∪ names m |}) m (Names s) in
  let m := foldl (λ m ext, {| extensions := {[norm ext]} ∪ extensions m; names := names m |}) m (Extensions s) in
  Ok (foldl (λ m value,
    match classes !! norm value with
    | Some entry => {| extensions := class_extensions entry ∪ extensions m; names := class_names entry ∪ names m |}
    | None => m
    end) m (Classes s)).

(** [Matcher.Matches]; the nil matcher matches nothing. *)
Definition Matches (m : option Matcher) (name : string) (isFile : bool) : bool :=
  match m with
  | None => false
  | Some m =>
    if negb isFile || (name =s "") || (name =s ".") || (name =s "..") || negb (ValidString name)
       || ContainsAny name (String slash (String backslash (String NUL ""))) then false
    else
      let name := ToLower name in
      (name ∈b names m) || (TrimPrefix (path_Ext name) "." ∈b extensions m)
  end.

Definition Selector_Matches (s : Selector) (name : string) (isFile : bool) : bool :=
  match Selector_Compile s with
  | Ok matcher => Matches (Some matcher) name isFile
  | Err _ => false
  end.

(** * context.go: operations *)

Definition compile_caps (capabilities : list string) : result (gset string) :=
  foldM (λ caps cap,
    let cap := norm cap in
    if negb (cap ∈b validCaps) || (cap ∈b caps) then Err (errors_New "invalid capability")
    else Ok ({[cap]} ∪ caps)) ∅ capabilities.

(** One iteration of the loop of [Context.Compile]. *)
Definition compile_rule (rule : Rule) : result compiledRule :=
  fail_if ((PolicyID rule =s "") || (128 <? len (PolicyID rule)) || negb (ValidString (PolicyID rule))
           || ContainsAny (PolicyID rule) (String slash (String backslash (String NUL "")))
           || negb (validPattern (Path rule)) || bool_decide (Capabilities rule = [])
           || (Z.of_nat (size validCaps) <? zlen (Capabilities rule)))
    (errors_New "invalid rule") ≫= λ _,
  let visibility := if Visibility rule =s "" then "hidden" else Visibility rule in
  let rule := {| PolicyID := PolicyID rule; Path := Path rule; Capabilities := Capabilities rule;
                 FileTypes := FileTypes rule; Visibility := visibility |} in
  fail_if ((visibility ≠s "hidden") && (visibility ≠s "visible")) (errors_New "invalid visibility") ≫= λ _,
  compile_caps (Capabilities rule) ≫= λ caps,
  match FileTypes rule with
  | None => Ok {| cr_rule := rule; cr_matcher := None; cr_caps := caps |}
  | Some s => Selector_Compile s ≫= λ m, Ok {| cr_rule := rule; cr_matcher := Some m; cr_caps := caps |}
  end.

(** [Context.Compile]. *)
Definition Compile (c : Context) : result Filter :=
  fail_if (negb (Version c =? 1) || (MaxContextRules <? zlen (Rules c))) (errors_New "unsupported context") ≫= λ _,
  fail_if (MaxContextBytes <? len (json_context c)) (errors_New "invalid context size") ≫= λ _,
  foldM (λ acc rule, compile_rule rule ≫= λ compiled, Ok (acc ++ [compiled])) [] (Rules c) ≫= λ rs,
  Ok {| rules := rs |}.

(** ** Decoding a context *)

(** The walk of [validateUniqueJSON] over the tokens of a value: no object
    repeats a name up to letter case, and nothing is nested more than 64 deep. *)
Fixpoint unique_value (depth : Z) (v : json) : bool :=
  if 64 <? depth then false else
  match v with
  | JArray l => forallb (unique_value (depth + 1)) l
  | JObject ms =>
      bool_decide (NoDup ((λ m : string * (string * json), ToLower m.1) <$> ms))
      && forallb (λ m : string * (string * json), unique_value (depth + 1) m.2.2) ms
  | JNumber lit => negb (float_overflows lit)
  | _ => true
  end.
Definition validateUniqueJSON (data : string) : result () :=
  v ← json_parse data;
  fail_if (negb (unique_value 0 v)) (errors_New "duplicate context field").

Definition decode_selector (old : Selector) (v : json) : result Selector :=
  decode_struct ["classes"; "extensions"; "names"] (λ acc name _ v,
    if name =s "classes" then l ← decode_list decode_string "" (Classes acc) v;
      Ok {| Classes := l; Extensions := Extensions acc; Names := Names acc |}
    else if name =s "extensions" then l ← decode_list decode_string "" (Extensions acc) v;
      Ok {| Classes := Classes acc; Extensions := l; Names := Names acc |}
    else l ← decode_list decode_string "" (Names acc) v;
      Ok {| Classes := Classes acc; Extensions := Extensions acc; Names := l |}) old v.
Definition Selector_zero : Selector := {| Classes := []; Extensions := []; Names := [] |}.

Definition Rule_zero : Rule := mkRule "" "" [] None "".
Definition decode_rule (old : Rule) (v : json) : result Rule :=
  decode_struct ["policy_id"; "path"; "capabilities"; "file_types"; "visibility"] (λ acc name _ v,
    if name =s "policy_id" then x ← decode_string (PolicyID acc) v; Ok (acc <| PolicyID := x |>)
    else if name =s "path" then x ← decode_string (Path acc) v; Ok (acc <| Path := x |>)
    else if name =s "capabilities" then x ← decode_list decode_string "" (Capabilities acc) v; Ok (acc <| Capabilities := x |>)
    else if name =s "file_types" then
      match v with
      | JNull => Ok (acc <| FileTypes := None |>)
      | _ => x ← decode_selector (default Selector_zero (FileTypes acc)) v; Ok (acc <| FileTypes := Some x |>)
      end
    else x ← decode_string (Visibility acc) v; Ok (acc <| Visibility := x |>)) old v.
Definition decode_context (old : Context) (v : json) : result Context :=
  decode_struct ["version"; "rules"] (λ acc name _ v,
    if name =s "version" then x ← decode_int (Version acc) v; Ok {| Version := x; Rules := Rules acc |}
    else x ← decode_list decode_rule Rule_zero (Rules acc) v; Ok {| Version := Version acc; Rules := x |}) old v.

(** [DecodeContext]. The second [Decode], which must report the end of the
    input, is the end [json_parse] asks for. *)
Definition DecodeContext (data : string) : result Filter :=
  if (data =s "") || (MaxContextBytes <? len data) then Err (errors_New "invalid context size") else
  validateUniqueJSON data ≫= λ _,
  v ← json_parse data;
  ctx ← decode_context {| Version := 0; Rules := [] |} v;
  Compile ctx.


Record eval_state := {
  best : Z; found : bool; restricted : bool; anyHidden : bool; denied : bool;
}.

Definition reads (capability : string) : bool := (capability =s "read") || (capability =s "list").

(** One iteration of the rule loop of [Filter.Evaluate]. *)
Definition Evaluate_step (resource capability entryType : string) (st : eval_state) (compiled : compiledRule) : eval_state :=
  let '(matchesPath, specificity) := matchPath (Path (cr_rule compiled)) resource in
  if negb matchesPath then st else
  let typed := bool_decide (is_Some (cr_matcher compiled)) in
  let is_deny := "deny" ∈b cr_caps compiled in
  if typed && (entryType =s "directory") && is_deny then st else
  let matchesType := negb typed || (entryType =s "directory") || Matches (cr_matcher compiled) (path_Base resource) true in
  let deny := is_deny && (negb typed || (size (cr_caps compiled) =? 1)%nat || grants (cr_caps compiled) capability) in
  let allow := negb is_deny && grants (cr_caps compiled) capability in
  let hidden := Visibility (cr_rule compiled) =s "hidden" in
  let st := if typed && negb matchesType && allow && reads capability
            then {| best := best st; found := found st; restricted := true; anyHidden := anyHidden st || hidden; denied := denied st |}
            else st in
  if negb matchesType then st else
  if deny then
    if reads capability
    then {| best := best st; found := found st; restricted := true; anyHidden := anyHidden st || hidden; denied := true |}
    else {| best := best st; found := found st; restricted := restricted st; anyHidden := anyHidden st; denied := true |}
  else if allow && (best st <=? specificity)
  then {| best := specificity; found := true; restricted := restricted st; anyHidden := anyHidden st; denied := denied st |}
  else st.

Definition eval_init : eval_state :=
  {| best := -1; found := false; restricted := false; anyHidden := false; denied := false |}.

(** [Filter.Evaluate]; the nil filter allows nothing. *)
Definition Evaluate (f : option Filter) (resource capability entryType : string) : Decision :=
  let closed := {| Allowed := false; Denied := false; dec_Visibility := "hidden"; Restricted := false |} in
  let capability := norm capability in
  match f with
  | None => closed
  | Some f =>
    if negb (validResource resource) || negb (capability ∈b validCaps) || (capability =s "deny")
       || ((entryType ≠s "file") && (entryType ≠s "directory")) then closed
    else
      let st := foldl (Evaluate_step resource capability entryType) eval_init (rules f) in
      {| Allowed := found st && negb (denied st);
         Denied := denied st;
         dec_Visibility := if restricted st && negb (anyHidden st) then "visible" else "hidden";
         Restricted := restricted st |}
  end.

(** * Specification *)

(** A pattern covers a path: segments agree one by one, a star agrees with any
    segment and a final double star with any remainder, the empty one too. *)
Inductive seg_match : list string → list string → Prop :=
| seg_nil : seg_match [] []
| seg_rec t : seg_match ["**"] t
| seg_star p s t : seg_match p t → seg_match ("*" :: p) (s :: t)
| seg_lit s p t : seg_match p t → seg_match (s :: p) (s :: t).

Definition covers (pattern resource : string) : Prop :=
  seg_match (Split slash (Trim pattern slash)) (Split slash (Trim resource slash)).

(** What a request must look like before any rule is read. *)
Definition well_formed_request (resource capability entryType : string) : Prop :=
  validResource resource = true ∧ norm capability ∈ validCaps ∧ norm capability ≠ "deny"
  ∧ (entryType = "file" ∨ entryType = "directory").

(** A rule denies an entry: an untyped denial by path alone; a typed one only
    for files its selector matches, and only for the capabilities it names
    unless it names none but deny. *)
Definition denies (resource capability entryType : string) (cr : compiledRule) : Prop :=
  covers (Path (cr_rule cr)) resource ∧ "deny" ∈ cr_caps cr ∧
  match cr_matcher cr with
  | None => True
  | Some m => entryType = "file" ∧ Matches (Some m) (path_Base resource) true = true
              ∧ (cr_caps cr = {["deny"]} ∨ grants (cr_caps cr) capability = true)
  end.

(** A rule allows an entry: it grants the capability, and when typed the entry
    is a directory or a file its selector matches. *)
Definition allows (resource capability entryType : string) (cr : compiledRule) : Prop :=
  covers (Path (cr_rule cr)) resource ∧ ("deny" ∉ cr_caps cr) ∧ grants (cr_caps cr) capability = true ∧
  match cr_matcher cr with
  | None => True
  | Some m => entryType = "directory" ∨ Matches (Some m) (path_Base resource) true = true
  end.

End WithUnicode.

End filetypes.
