(* ===== verification/FileTypesFacts.v ===== *)
(** Correctness of package filetypes: path matching, the rule loop of
    [filetypes.Evaluate] against its declarative reading, selectors, and what a
    compiled context guarantees. *)
From S2P Require Import Prelude GoLib FileTypes.
From stdpp Require Import options.
#[local] Set Default Proof Using "Type*".
Import filetypes.
#[local] Arguments Matches : simpl never.
#[local] Arguments grants : simpl never.
Local Open Scope Z_scope.

(** * Path matching *)

Lemma score_parts_nonneg parts target n : score_parts parts target = Some n → 0 ≤ n.
Proof.
  revert target n. induction parts as [|p parts IH]; intros [|t target] n; simpl;
    [intros [= <-]; lia|intros [= <-]; lia|done|].
  repeat case_bool_decide; simpl; try done; [by intros ?%IH|].
  destruct (score_parts parts target) as [m|] eqn:E; simpl; [|done].
  intros [= <-]. apply IH in E. unfold len. lia.
Qed.

(** The two shapes of a pattern: with and without the recursive wildcard. *)
Definition match_split (parts target : list string) : bool * Z :=
  let recursive := List.last parts "" =s "**" in
  let parts := if recursive then removelast parts else parts in
  if (if recursive then (length target <? length parts)%nat
      else negb (length parts =? length target)%nat) then (false, 0) else
  match score_parts parts target with
  | None => (false, 0)
  | Some score => (true, if recursive then score else score + zlen parts)
  end.

Lemma matchPath_split pattern value :
  matchPath pattern value = match_split (Split slash (Trim pattern slash)) (Split slash (Trim value slash)).
Proof. done. Qed.

Lemma match_split_nonneg parts target n : match_split parts target = (true, n) → 0 ≤ n.
Proof.
  unfold match_split. destruct (List.last parts "" =s "**"); (case_match; [done|]);
    destruct (score_parts _ _) as [m|] eqn:E; try done;
    apply score_parts_nonneg in E; intros [= <-]; unfold zlen; lia.
Qed.

Lemma match_split_cons p parts t target :
  parts ≠ [] →
  (match_split (p :: parts) (t :: target)).1
  = (bool_decide (p = "*") || bool_decide (p = t)) && (match_split parts target).1.
Proof.
  intros Hne. unfold match_split.
  assert (List.last (p :: parts) "" = List.last parts "") as -> by (by destruct parts).
  assert (removelast (p :: parts) = p :: removelast parts) as -> by (by destruct parts).
  destruct (List.last parts "" =s "**"); unfold Nat.ltb; simpl;
    repeat case_bool_decide; subst; simpl; try done;
    repeat case_match; simpl in *; simplify_eq; try done.
Qed.

Lemma match_split_spec parts target :
  parts ≠ [] → (match_split parts target).1 = true ↔ seg_match parts target.
Proof.
  revert target. induction parts as [|p parts IH]; intros target Hne; [done|].
  destruct parts as [|p' parts].
  - unfold match_split; simpl. clear IH Hne. case_bool_decide as Hrec; simpl.
    + subst p. destruct target; simpl; (split; [intros _; constructor|done]).
    + destruct target as [|t [|t' target]]; simpl; try (split; [done|by inversion 1; subst]).
      * repeat case_bool_decide; subst; simpl; (split; [intros|]); try done; try by repeat constructor.
        inversion 1; subst; done.
      * split; [done|]. inversion 1 as [| |??? H1|??? H1]; subst; try done; inversion H1.
  - destruct target as [|t target].
    + split; [|inversion 1].
      unfold match_split. destruct (_ =s _); simpl.
      * by destruct parts.
      * done.
    + rewrite match_split_cons, andb_true_iff, IH, orb_true_iff by done.
      rewrite !bool_decide_eq_true. split.
      * intros [[->| ->] ?]; by constructor.
      * inversion 1; subst; auto.
Qed.

Lemma matchPath_covers pattern resource :
  (matchPath pattern resource).1 = true ↔ covers pattern resource.
Proof. rewrite matchPath_split. apply match_split_spec, Split_ne. Qed.

(** * The rule loop *)

Lemma size_deny_singleton (caps : gset string) :
  "deny" ∈ caps → (size caps =? 1)%nat = true ↔ caps = {["deny"]}.
Proof.
  intros Hin. rewrite Nat.eqb_eq. split.
  - intros [x Hx]%size_1_elem_of. assert (x = "deny") as -> by set_solver. by apply leibniz_equiv.
  - intros ->. apply size_singleton.
Qed.

Section Loop.
Context {U : Unicode}.
Variables (resource capability entryType : string).

Abbreviation step := (Evaluate_step resource capability entryType).

Definition deniesb (cr : compiledRule) : bool :=
  (matchPath (Path (cr_rule cr)) resource).1 && ("deny" ∈b cr_caps cr) &&
  match cr_matcher cr with
  | None => true
  | Some m => (entryType =s "file") && Matches (Some m) (path_Base resource) true
              && ((size (cr_caps cr) =? 1)%nat || grants (cr_caps cr) capability)
  end.

Definition allowsb (cr : compiledRule) : bool :=
  (matchPath (Path (cr_rule cr)) resource).1 && negb ("deny" ∈b cr_caps cr) && grants (cr_caps cr) capability &&
  match cr_matcher cr with
  | None => true
  | Some m => (entryType =s "directory") || Matches (Some m) (path_Base resource) true
  end.

(** A rule that would let the capability through if the file had another type. *)
Definition withheldb (cr : compiledRule) : bool :=
  (matchPath (Path (cr_rule cr)) resource).1 && negb ("deny" ∈b cr_caps cr) && grants (cr_caps cr) capability &&
  match cr_matcher cr with
  | None => false
  | Some m => (entryType =s "file") && negb (Matches (Some m) (path_Base resource) true)
  end.

Definition restrictsb (cr : compiledRule) : bool :=
  reads capability && (deniesb cr || withheldb cr).

Definition hidesb (cr : compiledRule) : bool :=
  restrictsb cr && (Visibility (cr_rule cr) =s "hidden").

Lemma deniesb_spec cr : deniesb cr = true ↔ denies resource capability entryType cr.
Proof.
  unfold deniesb, denies. rewrite !andb_true_iff, matchPath_covers, bool_decide_eq_true.
  destruct (cr_matcher cr) as [m|]; [|tauto].
  rewrite !andb_true_iff, orb_true_iff, bool_decide_eq_true.
  split; (intros [[? Hd] ?] || intros [? [Hd ?]]); pose proof (size_deny_singleton _ Hd); tauto.
Qed.

Lemma allowsb_spec cr : allowsb cr = true ↔ allows resource capability entryType cr.
Proof.
  unfold allowsb, allows.
  rewrite !andb_true_iff, matchPath_covers, negb_true_iff, bool_decide_eq_false.
  destruct (cr_matcher cr) as [m|]; [|tauto].
  rewrite orb_true_iff, bool_decide_eq_true. tauto.
Qed.

Hypothesis entry_known : entryType = "file" ∨ entryType = "directory".

(** The loop only starts to record a specificity once it has found a grant. *)
Definition loop_inv (st : eval_state) : Prop := found st = false → best st = -1.

Ltac loop_case :=
  repeat match goal with |- context [if ?b then _ else _] => destruct b end;
  simpl; rewrite ?orb_true_r, ?orb_false_r; simpl; intuition congruence.

Lemma step_spec st cr :
  loop_inv st →
  loop_inv (step st cr) ∧
  denied (step st cr) = denied st || deniesb cr ∧
  found (step st cr) = found st || allowsb cr ∧
  restricted (step st cr) = restricted st || restrictsb cr ∧
  anyHidden (step st cr) = anyHidden st || hidesb cr.
Proof.
  unfold Evaluate_step, hidesb, restrictsb, deniesb, allowsb, withheldb, loop_inv.
  destruct (matchPath _ _) as [[] n] eqn:Hm; simpl; [|rewrite ?andb_false_r, ?orb_false_r; auto].
  apply match_split_nonneg in Hm as Hn. clear Hm.
  destruct st as [bst fnd res hid den]; simpl. intros Hinv.
  assert (fnd = false → (bst <=? n) = true) as Hle.
  { intros Hf. rewrite (Hinv Hf). apply Z.leb_le. lia. }
  generalize ("deny" ∈b cr_caps cr), (reads capability), (grants (cr_caps cr) capability),
    (Visibility (cr_rule cr) =s "hidden"), (size (cr_caps cr) =? 1)%nat.
  intros isd rd gr vis sz.
  destruct (cr_matcher cr) as [m|]; simpl.
  - generalize (Matches (Some m) (path_Base resource) true). intros mt.
    destruct entry_known as [-> | ->]; simpl; destruct isd, rd, mt, gr, sz; simpl;
      rewrite ?orb_true_r, ?orb_false_r; auto; destruct fnd, (bst <=? n); loop_case.
  - destruct isd, rd, gr; simpl;
      rewrite ?orb_true_r, ?orb_false_r; auto; destruct fnd, (bst <=? n); loop_case.
Qed.

Lemma loop_spec rs st :
  loop_inv st →
  let st' := foldl step st rs in
  denied st' = denied st || existsb deniesb rs ∧
  found st' = found st || existsb allowsb rs ∧
  restricted st' = restricted st || existsb restrictsb rs ∧
  anyHidden st' = anyHidden st || existsb hidesb rs.
Proof.
  revert st. induction rs as [|cr rs IH]; intros st Hinv; simpl.
  - by rewrite !orb_false_r.
  - destruct (step_spec st cr Hinv) as (Hinv' & Hd & Hf & Hr & Hh).
    destruct (IH _ Hinv') as (-> & -> & -> & ->).
    rewrite Hd, Hf, Hr, Hh. by rewrite !orb_assoc.
Qed.
End Loop.

(** * The evaluator *)

Section Evaluator.
Context {U : Unicode}.
Implicit Types (f : Filter) (resource capability entryType : string).

Lemma request_guard resource capability entryType :
  (negb (validResource resource) || negb (norm capability ∈b validCaps) || (norm capability =s "deny")
   || ((entryType ≠s "file") && (entryType ≠s "directory"))) = false
  ↔ well_formed_request resource capability entryType.
Proof.
  unfold well_formed_request.
  rewrite !orb_false_iff, andb_false_iff, !negb_false_iff, bool_decide_eq_false, !bool_decide_eq_true. tauto.
Qed.

Lemma Evaluate_unfold f resource capability entryType :
  well_formed_request resource capability entryType →
  Evaluate (Some f) resource capability entryType =
  {| Allowed := existsb (allowsb resource (norm capability) entryType) (rules f)
                && negb (existsb (deniesb resource (norm capability) entryType) (rules f));
     Denied := existsb (deniesb resource (norm capability) entryType) (rules f);
     dec_Visibility := if existsb (restrictsb resource (norm capability) entryType) (rules f)
                          && negb (existsb (hidesb resource (norm capability) entryType) (rules f))
                       then "visible" else "hidden";
     Restricted := existsb (restrictsb resource (norm capability) entryType) (rules f) |}.
Proof.
  intros Hwf. unfold Evaluate. pose proof Hwf as ->%request_guard.
  destruct (loop_spec resource (norm capability) entryType (proj2 (proj2 (proj2 Hwf))) (rules f) eval_init)
    as (-> & -> & -> & ->); [done|reflexivity].
Qed.

Lemma Evaluate_closed fo resource capability entryType :
  fo = None ∨ ¬ well_formed_request resource capability entryType →
  Evaluate fo resource capability entryType
  = {| Allowed := false; Denied := false; dec_Visibility := "hidden"; Restricted := false |}.
Proof.
  intros [-> | Hwf]; [done|]. destruct fo as [f|]; [|done]. unfold Evaluate.
  destruct (_ || _ || _ || _) eqn:E; [done|]. apply request_guard in E. done.
Qed.

(** C2. The node allows an entry exactly when the request is well formed, some
    rule of the context allows the entry, and no rule denies it. Specificity
    plays no part in the answer: a denial anywhere wins over every grant. *)
Theorem filter_allows_iff f resource capability entryType :
  Allowed (Evaluate (Some f) resource capability entryType) = true ↔
  well_formed_request resource capability entryType ∧
  (∃ cr, cr ∈ rules f ∧ allows resource (norm capability) entryType cr) ∧
  (∀ cr, cr ∈ rules f → ¬ denies resource (norm capability) entryType cr).
Proof.
  destruct (decide (well_formed_request resource capability entryType)) as [Hwf|Hwf].
  - rewrite Evaluate_unfold by done. simpl.
    rewrite andb_true_iff, negb_true_iff, existsb_elem, existsb_false_elem.
    setoid_rewrite allowsb_spec. setoid_rewrite <-deniesb_spec. setoid_rewrite not_true_iff_false. tauto.
  - rewrite Evaluate_closed by auto. simpl. split; [done|tauto].
Qed.

(** The order in which the rules of a context are listed does not change a
    decision, including its visibility. *)
Theorem filter_order_irrelevant f f' resource capability entryType :
  rules f ≡ₚ rules f' →
  Evaluate (Some f) resource capability entryType = Evaluate (Some f') resource capability entryType.
Proof.
  intros Hp. destruct (decide (well_formed_request resource capability entryType)) as [Hwf|Hwf].
  - rewrite !Evaluate_unfold by done. by rewrite !(existsb_Permutation _ _ _ Hp).
  - by rewrite !Evaluate_closed by auto.
Qed.

(** * Selectors *)

(** What a selector names: the union of its names, its extensions and the
    tables of its classes. *)
Definition selects (s : Selector) (name : string) : Prop :=
  let lower := ToLower name in
  let ext := TrimPrefix (path_Ext lower) "." in
  (∃ n, n ∈ Names s ∧ lower = ToLower n) ∨
  (∃ e, e ∈ Extensions s ∧ ext = norm e) ∨
  (∃ c entry, c ∈ Classes s ∧ classes !! norm c = Some entry ∧
              (lower ∈ class_names entry ∨ ext ∈ class_extensions entry)).

(** A name that can be an entry of a directory. *)
Definition entry_name (name : string) : Prop :=
  name ≠ "" ∧ name ≠ "." ∧ name ≠ ".." ∧ ValidString name = true ∧
  ContainsAny name (String slash (String backslash (String NUL ""))) = false.

Lemma foldl_names l m :
  foldl (λ m name, {| extensions := extensions m; names := {[ToLower name]} ∪ names m |}) m l
  = {| extensions := extensions m; names := list_to_set (ToLower <$> l) ∪ names m |}.
Proof.
  revert m. induction l as [|n l IH]; intros [E N]; simpl.
  - by rewrite (left_id_L ∅ (∪)).
  - rewrite IH. simpl. f_equal. set_solver.
Qed.

Lemma foldl_extensions l m :
  foldl (λ m ext, {| extensions := {[norm ext]} ∪ extensions m; names := names m |}) m l
  = {| extensions := list_to_set (norm <$> l) ∪ extensions m; names := names m |}.
Proof.
  revert m. induction l as [|n l IH]; intros [E N]; simpl.
  - by rewrite (left_id_L ∅ (∪)).
  - rewrite IH. simpl. f_equal. set_solver.
Qed.

(** The table of a class value, empty when there is none. *)
Definition class_table (table : class → gset string) (value : string) : gset string :=
  from_option table ∅ (classes !! norm value).

Lemma foldl_classes l m :
  foldl (λ m value,
    match classes !! norm value with
    | Some entry => {| extensions := class_extensions entry ∪ extensions m; names := class_names entry ∪ names m |}
    | None => m
    end) m l
  = {| extensions := ⋃ (class_table class_extensions <$> l) ∪ extensions m;
       names := ⋃ (class_table class_names <$> l) ∪ names m |}.
Proof.
  revert m. induction l as [|c l IH]; intros [E N]; csimpl.
  - by rewrite !(left_id_L ∅ (∪)).
  - assert (∀ table, class_table table c = from_option table ∅ (classes !! norm c)) as Hc by done.
    rewrite IH, !Hc. generalize (⋃ (class_table class_extensions <$> l)), (⋃ (class_table class_names <$> l)).
    intros ES NS. destruct (classes !! norm c) as [e|]; simpl;
      [|by rewrite !(left_id_L ∅ (∪))].
    by rewrite !(assoc_L (∪)), (comm_L (∪) ES), (comm_L (∪) NS).
Qed.

Lemma elem_of_class_tables (table : class → gset string) l x :
  x ∈ ⋃ (class_table table <$> l) ↔ ∃ c entry, c ∈ l ∧ classes !! norm c = Some entry ∧ x ∈ table entry.
Proof.
  rewrite elem_of_union_list. setoid_rewrite list_elem_of_fmap. unfold class_table. split.
  - intros (? & (c & -> & Hc) & Hx). destruct (classes !! norm c) as [e|] eqn:E; simpl in Hx; [eauto|].
    by apply elem_of_empty in Hx.
  - intros (c & e & Hc & He & Hx). eexists. split; [eauto|]. by rewrite He.
Qed.

(** A valid selector matches a regular file exactly when the file's name is
    an entry name that the selector's names, extensions or classes select;
    a selector never matches a directory. *)
Theorem selector_matches_iff s name isFile :
  Validate s = Ok () →
  Selector_Matches s name isFile = true ↔ isFile = true ∧ entry_name name ∧ selects s name.
Proof.
  intros Hv. unfold Selector_Matches, Selector_Compile. rewrite Hv. simpl.
  rewrite foldl_names, foldl_extensions, foldl_classes. simpl.
  unfold Matches, entry_name, selects. cbv zeta.
  destruct (_ || _ || _ || _ || _ || _) eqn:G.
  - split; [done|]. intros (-> & (? & ? & ? & Hu & Hc) & _).
    rewrite Hu, Hc, !bool_decide_eq_false_2 in G by done. done.
  - rewrite !orb_false_iff, !negb_false_iff, !bool_decide_eq_false in G.
    destruct G as [[[[[-> ?] ?] ?] ?] ?].
    rewrite orb_true_iff, !bool_decide_eq_true. simpl.
    rewrite !elem_of_union, !elem_of_list_to_set, !list_elem_of_fmap, !elem_of_empty, !elem_of_class_tables.
    split.
    + intros [[(? & ? & ? & ? & ?)|[(? & ? & ?)|[]]]|[(? & ? & ? & ? & ?)|[(? & ? & ?)|[]]]]; eauto 15.
    + intros (_ & _ & [(? & ? & ?)|[(? & ? & ?)|(? & ? & ? & ? & [?|?])]]); eauto 15.
Qed.

(** * Compiled contexts *)

(** What compiling a rule establishes and how the compiled rule is built. *)
Record compiled_from (r : Rule) (cr : compiledRule) : Prop := {
  cf_policy : PolicyID r ≠ "" ∧ len (PolicyID r) ≤ 128 ∧ ValidString (PolicyID r) = true ∧
              ContainsAny (PolicyID r) (String slash (String backslash (String NUL ""))) = false;
  cf_path : validPattern (Path r) = true;
  cf_caps_count : Capabilities r ≠ [] ∧ zlen (Capabilities r) ≤ 9;
  cf_caps_valid : ∀ c, c ∈ Capabilities r → norm c ∈ validCaps;
  cf_caps_distinct : NoDup (norm <$> Capabilities r);
  cf_visibility : Visibility r ∈ [""; "hidden"; "visible"];
  cf_selector : ∀ s, FileTypes r = Some s → Validate s = Ok ();
  cf_rule : cr_rule cr = {| PolicyID := PolicyID r; Path := Path r; Capabilities := Capabilities r; FileTypes := FileTypes r;
                            Visibility := if Visibility r =s "" then "hidden" else Visibility r |};
  cf_caps : cr_caps cr = list_to_set (norm <$> Capabilities r);
  cf_matcher : match FileTypes r with
               | None => cr_matcher cr = None
               | Some s => ∃ m, Selector_Compile s = Ok m ∧ cr_matcher cr = Some m
               end;
}.

Lemma compile_caps_spec l caps :
  compile_caps l = Ok caps ↔
  (∀ c, c ∈ l → norm c ∈ validCaps) ∧ NoDup (norm <$> l) ∧ caps = list_to_set (norm <$> l).
Proof.
  unfold compile_caps.
  rewrite (foldM_seen (λ c, negb (norm c ∈b validCaps)) norm (λ _, errors_New "invalid capability")).
  rewrite (right_id_L ∅ (∪)). split.
  - intros (H & ? & ?). split_and!; [|done..]. intros c [Hc _]%H.
    by apply negb_false_iff, bool_decide_eq_true in Hc.
  - intros (H & ? & ?). split_and!; [|done..]. intros c Hc. split; [|apply not_elem_of_empty].
    apply negb_false_iff, bool_decide_eq_true. auto.
Qed.

Lemma compile_rule_sound r cr : compile_rule r = Ok cr → compiled_from r cr.
Proof.
  unfold compile_rule. intros H. inv_ok.
  repeat match goal with H : _ || _ = false |- _ => apply orb_false_iff in H as [? ?] end.
  bool_to_prop.
  match goal with H : compile_caps _ = Ok _ |- _ => apply compile_caps_spec in H as (? & ? & ->) end.
  assert (Visibility r ∈ [""; "hidden"; "visible"]).
  { match goal with H : _ && _ = false |- _ => apply andb_false_iff in H as [H|H]; revert H end;
      rewrite negb_false_iff, bool_decide_eq_true; case_bool_decide as Hv; intros Hvis;
      rewrite ?Hv, ?Hvis; repeat constructor. }
  assert (Z.of_nat (size validCaps) = 9) as E9 by reflexivity. rewrite E9 in *.
  cbn [FileTypes Capabilities] in *.
  destruct (FileTypes r) as [s|] eqn:Hs; inv_ok;
    (constructor; cbn [cr_rule cr_caps cr_matcher]; rewrite ?Hs; try assumption; try reflexivity;
     [by repeat split|by split|..]); [intros s' [= <-]|by eauto|by intros].
  match goal with H : Selector_Compile _ = Ok _ |- _ => unfold Selector_Compile in H end.
  inv_ok. by destruct_all unit.
Qed.

(** The rules of a filter are those of its context, compiled. *)
Lemma Compile_rules c f : Compile c = Ok f → Forall2 compiled_from (Rules c) (rules f).
Proof.
  unfold Compile. intros H. inv_ok. simpl.
  match goal with H : foldM _ _ _ = Ok _ |- _ => apply foldM_app in H as (ys & -> & HF) end.
  eapply Forall2_impl; [exact HF|]. apply compile_rule_sound.
Qed.
Lemma Compile_rules_l c f r : Compile c = Ok f → r ∈ Rules c → ∃ cr, cr ∈ rules f ∧ compiled_from r cr.
Proof.
  intros HF%Compile_rules [i Hi]%list_elem_of_lookup. destruct (Forall2_lookup_l _ _ _ _ _ HF Hi) as (cr & Hcr & Hc).
  exists cr. split; [by eapply list_elem_of_lookup_2|done].
Qed.
Lemma Compile_rules_r c f cr : Compile c = Ok f → cr ∈ rules f → ∃ r, r ∈ Rules c ∧ compiled_from r cr.
Proof.
  intros HF%Compile_rules [i Hi]%list_elem_of_lookup. destruct (Forall2_lookup_r _ _ _ _ _ HF Hi) as (r & Hr & Hc).
  exists r. split; [by eapply list_elem_of_lookup_2|done].
Qed.

(** A context that compiles has version one, at most 256 rules and at most
    32 KiB of JSON; every rule has a valid pattern and between one and nine
    distinct known capabilities, and is compiled to the set of its normalized
    capabilities with the matcher of its selector and hidden as the default
    visibility. *)
Theorem compile_sound c f :
  Compile c = Ok f →
  Version c = 1 ∧ zlen (Rules c) ≤ MaxContextRules ∧ len (json_context c) ≤ MaxContextBytes ∧
  Forall2 compiled_from (Rules c) (rules f).
Proof.
  intros Hc. pose proof (Compile_rules _ _ Hc). unfold Compile in Hc. inv_ok. bool_to_prop. by split_and!.
Qed.
End Evaluator.
