(* ===== verification/Rbac.v ===== *)
(** Package rbac (control/internal/rbac): the Node Path policies of the Control
    Tower. [rbac.Evaluate] decides by path alone; [rbac.EvaluateTyped] and
    [rbac.EvaluateEntry] compile the covering rules to the node's evaluator of
    package filetypes. *)
From S2P Require Import Prelude GoLib FileTypes.
From stdpp Require Import options.
Local Open Scope Z_scope.

Module rbac.

(** * rbac.go: data *)

Definition validCapabilities : gset string :=
  list_to_set ["read"; "list"; "create"; "update"; "delete"; "write"; "execute"; "sudo"; "deny"].

Record Rule := {
  Path : string;
  Capabilities : list string;
  FileTypes : option filetypes.Selector;
  Visibility : string;
  rule_NeedsApproval : list string;
}.
Record Policy := { ID : string; Name : string; Rules : list Rule }.
Record Decision := {
  NeedsApproval : bool;
  Allowed : bool;
  Denied : bool;
  PolicyIDs : list string;
  dec_Path : string;
  Capability : string;
}.
Record RuleMatch := {
  rm_PolicyID : string;
  rm_Path : string;
  rm_Capabilities : list string;
  rm_Effect : string;
  rm_FileTypes : option filetypes.Selector;
  rm_Visibility : string;
  rm_NeedsApproval : list string;
}.

Definition ValidCapability (value : string) : bool := value ∈b validCapabilities.

(** * Paths *)

Definition NormalizePath (value : string) : string :=
  let value := Trim (TrimSpace value) slash in
  if value =s "workers" then "nodes"
  else if HasPrefix value "workers/" then "nodes/" +++ TrimPrefix value "workers/"
  else value.

Definition Recursive : string := "**".

Definition ValidPath (value : string) : bool :=
  let value := NormalizePath value in
  if (value =s "") || Contains value "//" then false else
  let segments := Split slash value in
  forallb (λ ip : nat * string,
    let '(index, segment) := ip in
    if (segment =s "") || (segment =s ".") || (segment =s "..") then false
    else if segment =s Recursive then (index =? length segments - 1)%nat
    else if segment =s "*" then true
    else forallb (λ rw : Z * nat,
           negb ((rw.1 <? 32) || (rw.1 =? 127)) && negb (ContainsRune "\/?#&=%*" rw.1)) (runes segment))
  (imap pair segments).

Definition ValidResourcePath (value : string) : bool :=
  let value := NormalizePath value in
  if (value =s "") || Contains value "//" then false else
  forallb (λ segment,
    if (segment =s "") || (segment =s ".") || (segment =s "..") || (segment =s "*") || (segment =s Recursive) then false
    else forallb (λ rw : Z * nat, negb ((rw.1 <? 32) || (rw.1 =? 127) || (rw.1 =? 92))) (runes segment))
  (Split slash value).

(** [match]: whether a pattern covers a path, and how specifically. *)
Definition rule_match (pattern path : string) : bool * Z :=
  let patternParts := Split slash (NormalizePath pattern) in
  let pathParts := Split slash (NormalizePath path) in
  let recursive := List.last patternParts "" =s Recursive in
  let patternParts := if recursive then removelast patternParts else patternParts in
  if (if recursive then (length pathParts <? length patternParts)%nat
      else negb (length patternParts =? length pathParts)%nat) then (false, 0) else
  match filetypes.score_parts patternParts pathParts with
  | None => (false, 0)
  | Some specificity => (true, if recursive then specificity else specificity + Z.of_nat (length patternParts))
  end.

(** * Capabilities *)

Definition grants (capabilities : gset string) (requested : string) : bool :=
  if requested ∈b capabilities then true
  else ("write" ∈b capabilities) && ((requested =s "create") || (requested =s "update")).

Definition ApprovalCapabilities : list string := ["delete"; "update"].

Definition sortedKeys (values : gset string) : list string :=
  merge_sort String.le (elements values).

Section WithUnicode.
Context {U : Unicode}.

Definition norm (value : string) : string := ToLower (TrimSpace value).

Definition capabilitySet (values : list string) : gset string := list_to_set (norm <$> values).

Definition requiresApproval (rule : Rule) (capability : string) : bool :=
  existsb (λ value, norm value =s capability) (rule_NeedsApproval rule).

Definition ValidNeedsApproval (rule : Rule) : bool :=
  if bool_decide (rule_NeedsApproval rule = []) then true else
  let capabilities := capabilitySet (Capabilities rule) in
  if ("deny" ∈b capabilities) || bool_decide (is_Some (FileTypes rule)) || (Visibility rule ≠s "")
     || (Z.of_nat (length ApprovalCapabilities) <? Z.of_nat (length (rule_NeedsApproval rule))) then false else
  is_ok (foldM (λ seen value,
    if (value ≠s norm value) || (value ∈b seen) || negb (grants capabilities value) then Err (errors_New "")
    else if negb (existsb (λ allowed, value =s allowed) ApprovalCapabilities) then Err (errors_New "")
    else Ok ({[value]} ∪ seen)) (∅ : gset string) (rule_NeedsApproval rule)).

(** * Evaluate *)

Record eval_state := {
  bestSpecificity : Z;
  needsApproval : bool;
  allowedPolicies : gset string;
  deniedPolicies : gset string;
}.

(** One rule of the inner loop. *)
Definition Evaluate_rule (path capability : string) (policyID : string) (st : eval_state) (rule : Rule) : eval_state :=
  let '(matches, specificity) := rule_match (Path rule) path in
  if negb matches then st else
  let capabilities := capabilitySet (Capabilities rule) in
  if bool_decide (is_Some (FileTypes rule)) && negb ("deny" ∈b capabilities) then st else
  if "deny" ∈b capabilities then
    {| bestSpecificity := bestSpecificity st; needsApproval := needsApproval st;
       allowedPolicies := allowedPolicies st; deniedPolicies := {[policyID]} ∪ deniedPolicies st |} else
  if negb (grants capabilities capability) then st else
  let marked := requiresApproval rule capability in
  if bestSpecificity st <? specificity then
    {| bestSpecificity := specificity; needsApproval := marked;
       allowedPolicies := {[policyID]}; deniedPolicies := deniedPolicies st |}
  else if specificity =? bestSpecificity st then
    {| bestSpecificity := bestSpecificity st; needsApproval := needsApproval st || marked;
       allowedPolicies := {[policyID]} ∪ allowedPolicies st; deniedPolicies := deniedPolicies st |}
  else st.

Definition Evaluate_policy (path capability : string) (st : eval_state) (policy : Policy) : eval_state :=
  foldl (Evaluate_rule path capability (ID policy)) st (Rules policy).

Definition eval_init : eval_state :=
  {| bestSpecificity := -1; needsApproval := false; allowedPolicies := ∅; deniedPolicies := ∅ |}.

Definition Evaluate (policies : list Policy) (path capability : string) : Decision :=
  let path := NormalizePath path in
  let capability := norm capability in
  let st := foldl (Evaluate_policy path capability) eval_init policies in
  if negb (bool_decide (deniedPolicies st = ∅)) then
    {| NeedsApproval := false; Allowed := false; Denied := true; PolicyIDs := sortedKeys (deniedPolicies st);
       dec_Path := path; Capability := capability |}
  else if negb (bool_decide (allowedPolicies st = ∅)) then
    {| NeedsApproval := needsApproval st; Allowed := true; Denied := false; PolicyIDs := sortedKeys (allowedPolicies st);
       dec_Path := path; Capability := capability |}
  else {| NeedsApproval := false; Allowed := false; Denied := false; PolicyIDs := [];
          dec_Path := path; Capability := capability |}.

(** The policies' rules in the order the nested loops visit them, each with the
    identifier of its policy. *)
Definition all_rules (policies : list Policy) : list (string * Rule) :=
  policies ≫= λ p, pair (ID p) <$> Rules p.

Definition approvalMarked (policies : list Policy) (path capability : string) : bool :=
  (foldl (λ (st : Z * bool) policy, foldl (λ st rule,
    let '(best, marked) := st in
    let '(matches, specificity) := rule_match (Path rule) path in
    let capabilities := capabilitySet (Capabilities rule) in
    if negb matches || bool_decide (is_Some (FileTypes rule)) || ("deny" ∈b capabilities) || negb (grants capabilities capability) then st
    else if best <? specificity then (specificity, requiresApproval rule capability)
    else if specificity =? best then (best, marked || requiresApproval rule capability)
    else st) st (Rules policy)) (-1, false) policies).2.

(** * Subtrees *)

Definition denyReachesScope (ruleParts scopeParts : list string) : bool :=
  let recursive := List.last ruleParts "" =s Recursive in
  let ruleParts := if recursive then removelast ruleParts else ruleParts in
  if negb (forallb (λ rs : string * string, (rs.1 =s "*") || (rs.2 =s "*") || (rs.1 =s rs.2)) (zip ruleParts scopeParts))
  then false
  else if (length scopeParts <=? length ruleParts)%nat then true
  else recursive.

Definition DeniesWithin (policies : list Policy) (scope : string) : bool :=
  let scopeParts := Split slash (NormalizePath scope) in
  existsb (λ policy, existsb (λ rule,
    if negb ("deny" ∈b capabilitySet (Capabilities rule)) then false
    else denyReachesScope (Split slash (NormalizePath (Path rule))) scopeParts) (Rules policy)) policies.

Definition UntypedDeniesWithin (policies : list Policy) (scope : string) : bool :=
  if negb (ValidResourcePath scope) then true else
  let scopeParts := Split slash (NormalizePath scope) in
  existsb (λ policy, existsb (λ rule,
    if bool_decide (is_Some (FileTypes rule)) || negb ("deny" ∈b capabilitySet (Capabilities rule)) then false
    else negb (ValidPath (Path rule)) || denyReachesScope (Split slash (NormalizePath (Path rule))) scopeParts)
    (Rules policy)) policies.

Definition RuleTouchesScope (rulePath scope : string) : bool :=
  if negb (ValidPath rulePath) || negb (ValidResourcePath scope) then true
  else denyReachesScope (Split slash (NormalizePath rulePath)) (Split slash (NormalizePath scope)).

(** * Compatibility of whole-mount rules *)

Definition isMountScopedFileRule (path : string) : bool :=
  match Split slash (NormalizePath path) with
  | [s0; _; s2; s3; _] => (s0 =s "nodes") && (s2 =s "files") && (s3 =s "mounts")
  | _ => false
  end.

Definition compatibility (rule : Rule) : Rule :=
  {| Path := NormalizePath (Path rule) +++ "/" +++ Recursive; Capabilities := Capabilities rule;
     FileTypes := FileTypes rule; Visibility := Visibility rule; rule_NeedsApproval := rule_NeedsApproval rule |}.

Definition expand_rules (rules : list Rule) : list Rule :=
  foldl (λ acc rule,
    let acc := acc ++ [rule] in
    if isMountScopedFileRule (Path rule) then acc ++ [compatibility rule] else acc) [] rules.

Definition ExpandCompatibilityRules (policies : list Policy) : list Policy :=
  (λ policy, {| ID := ID policy; Name := Name policy; Rules := expand_rules (Rules policy) |}) <$> policies.

(** * Diagnosis *)

Definition rule_effect (rule : Rule) (capability : string) : string :=
  let capabilities := capabilitySet (Capabilities rule) in
  let deny := "deny" ∈b capabilities in
  let typed := bool_decide (is_Some (FileTypes rule)) in
  if deny && negb typed then "deny"
  else if deny && ((size capabilities =? 1)%nat || grants capabilities capability) then "typed_deny"
  else if negb deny && grants capabilities capability && typed then "typed_allow"
  else if negb deny && grants capabilities capability then "allow"
  else "".

Definition MatchingRules (policies : list Policy) (path capability : string) : list RuleMatch :=
  let path := NormalizePath path in
  let capability := norm capability in
  policies ≫= λ policy, omap (λ rule,
    let '(covers, _) := rule_match (Path rule) path in
    if negb covers then None else
    let effect := rule_effect rule capability in
    if effect =s "" then None else
    Some {| rm_PolicyID := ID policy; rm_Path := NormalizePath (Path rule); rm_Capabilities := Capabilities rule;
            rm_Effect := effect; rm_FileTypes := FileTypes rule; rm_Visibility := Visibility rule;
            rm_NeedsApproval := rule_NeedsApproval rule |}) (Rules policy).

(** * typed.go *)

Inductive EntryMode := EveryEntry | NodeFiltered.

Definition ruleMatches (rule : Rule) (path : string) : bool := (rule_match (Path rule) path).1.

Definition HasTypedRules (policies : list Policy) (path : string) : bool :=
  let path := NormalizePath path in
  existsb (λ policy, existsb (λ rule,
    (bool_decide (is_Some (FileTypes rule)) || (Visibility rule ≠s "")) && ruleMatches rule path) (Rules policy)) policies.

Definition matchingPolicyIDs (policies : list Policy) (path : string) : list string :=
  sortedKeys (list_to_set (policies ≫= λ policy,
    omap (λ rule, if ruleMatches rule path then Some (ID policy) else None) (Rules policy))).

(** The context rule a covering policy rule contributes. *)
Definition context_rule (policyID : string) (rule : Rule) : filetypes.Rule :=
  {| filetypes.PolicyID := policyID; filetypes.Path := NormalizePath (Path rule);
     filetypes.Capabilities := Capabilities rule; filetypes.FileTypes := FileTypes rule;
     filetypes.Visibility := Visibility rule |}.

Definition compileTyped (policies : list Policy) (path : string) : option filetypes.Filter :=
  match foldM (λ acc policy, foldM (λ acc rule,
      if negb (ruleMatches rule path) then Ok acc
      else if negb (ValidPath (Path rule)) then Err (errors_New "")
      else Ok (acc ++ [context_rule (ID policy) rule])) acc (Rules policy)) [] policies with
  | Err _ => None
  | Ok rules =>
    match filetypes.Compile {| filetypes.Version := 1; filetypes.Rules := rules |} with
    | Err _ => None
    | Ok filter => if negb (ValidResourcePath path) then None else Some filter
    end
  end.

Definition EvaluateTyped (policies : list Policy) (path capability : string) (mode : EntryMode) : Decision :=
  let path := NormalizePath path in
  if negb (HasTypedRules policies path) then Evaluate policies path capability else
  let conservative := Evaluate policies path capability in
  match compileTyped policies path with
  | None => conservative
  | Some filter =>
    let file := filetypes.Evaluate (Some filter) path capability "file" in
    let directory := filetypes.Evaluate (Some filter) path capability "directory" in
    let '(allowed, denied) :=
      match mode with
      | NodeFiltered => (filetypes.Allowed file || filetypes.Allowed directory, filetypes.Denied file && filetypes.Denied directory)
      | EveryEntry => (filetypes.Allowed file && filetypes.Allowed directory, filetypes.Denied file || filetypes.Denied directory)
      end in
    let allowed := if denied then false else allowed in
    {| NeedsApproval := allowed && approvalMarked policies path capability;
       Allowed := allowed; Denied := denied; PolicyIDs := matchingPolicyIDs policies path;
       dec_Path := path; Capability := capability |}
  end.

Record EntryDecision := { entry_Decision : Decision; entry_Visibility : string; Typed : bool }.

Definition EvaluateEntry (policies : list Policy) (path capability entryType : string) : EntryDecision :=
  let path := NormalizePath path in
  if negb (HasTypedRules policies path) then
    {| entry_Decision := Evaluate policies path capability; entry_Visibility := ""; Typed := false |} else
  let conservative := {| entry_Decision := Evaluate policies path capability; entry_Visibility := ""; Typed := true |} in
  match compileTyped policies path with
  | None => conservative
  | Some filter =>
    let result := filetypes.Evaluate (Some filter) path capability entryType in
    let allowed := filetypes.Allowed result && negb (filetypes.Denied result) in
    {| entry_Decision :=
         {| NeedsApproval := allowed && approvalMarked policies path capability;
            Allowed := allowed; Denied := filetypes.Denied result; PolicyIDs := matchingPolicyIDs policies path;
            dec_Path := path; Capability := capability |};
       entry_Visibility := if filetypes.Restricted result && negb allowed then filetypes.dec_Visibility result else "";
       Typed := true |}
  end.

End WithUnicode.
End rbac.
