(* ===== verification/RbacFacts.v ===== *)
(** Correctness of package rbac: what a decision of [rbac.Evaluate] says about
    the rules, subtree refusal, whole-mount compatibility, and the agreement of
    the typed evaluators with the path-only one and with the node. *)
From S2P Require Import Prelude GoLib FileTypes FileTypesFacts Rbac.
From stdpp Require Import options.
#[local] Set Default Proof Using "Type*".
Import rbac.
Local Open Scope Z_scope.
#[local] Arguments filetypes.Matches : simpl never.
#[local] Arguments grants : simpl never.
#[local] Arguments capabilitySet : simpl never.

(** * Matching *)

(** The segments a path is matched by. *)
Definition segments (path : string) : list string := Split slash (NormalizePath path).

(** A rule pattern covers a path. *)
Definition covers (pattern path : string) : Prop := filetypes.seg_match (segments pattern) (segments path).

Lemma rule_match_split pattern path :
  rule_match pattern path = match_split (segments pattern) (segments path).
Proof. done. Qed.

Lemma rule_match_covers pattern path : (rule_match pattern path).1 = true ↔ covers pattern path.
Proof. rewrite rule_match_split. apply match_split_spec, Split_ne. Qed.

Lemma rule_match_nonneg pattern path n : rule_match pattern path = (true, n) → 0 ≤ n.
Proof. rewrite rule_match_split. apply match_split_nonneg. Qed.

Lemma rule_match_false pattern path n : rule_match pattern path = (false, n) → n = 0.
Proof.
  rewrite rule_match_split. unfold match_split.
  repeat (case_match; try (by intros [= <-]); try done).
Qed.

(** * What a decision says *)

Section Decisions.
Context {U : Unicode}.
Implicit Types (policies : list Policy) (path capability : string) (r : Rule).

(** A rule denies a path whatever the capability, typed or not. *)
Definition rule_denies path r : Prop :=
  covers (Path r) path ∧ "deny" ∈ capabilitySet (Capabilities r).

(** A rule grants a capability on a path with a specificity. *)
Definition rule_grants path capability r (n : Z) : Prop :=
  rule_match (Path r) path = (true, n) ∧ FileTypes r = None ∧
  ("deny" ∉ capabilitySet (Capabilities r)) ∧ grants (capabilitySet (Capabilities r)) capability = true.

Lemma rule_grants_nonneg path capability r n : rule_grants path capability r n → 0 ≤ n.
Proof. intros [? _]. by eapply rule_match_nonneg. Qed.

Lemma rule_grants_denies path capability r n : rule_grants path capability r n → ¬ rule_denies path r.
Proof. intros (_ & _ & ? & _) [_ ?]. done. Qed.

Lemma rule_grants_unique path capability r n m :
  rule_grants path capability r n → rule_grants path capability r m → n = m.
Proof. intros [? _] [? _]. congruence. Qed.

(** What the rule loop knows after the rules [seen]. *)
Record eval_inv path capability (seen : list (string * Rule)) (st : eval_state) : Prop := {
  ei_denied : ∀ id, id ∈ deniedPolicies st ↔ ∃ r, (id, r) ∈ seen ∧ rule_denies path r;
  ei_bound : ∀ id r n, (id, r) ∈ seen → rule_grants path capability r n → n ≤ bestSpecificity st;
  ei_best : bestSpecificity st = -1 ∨ ∃ id r, (id, r) ∈ seen ∧ rule_grants path capability r (bestSpecificity st);
  ei_allowed : ∀ id, id ∈ allowedPolicies st ↔
                 ∃ r, (id, r) ∈ seen ∧ rule_grants path capability r (bestSpecificity st);
  ei_approval : needsApproval st = true ↔
                 ∃ id r, (id, r) ∈ seen ∧ rule_grants path capability r (bestSpecificity st) ∧ requiresApproval r capability = true;
}.

(** The three ways a rule bears on a request, and what the loop does with it. *)
Lemma Evaluate_rule_cases path capability id st r :
  (rule_denies path r ∧ Evaluate_rule path capability id st r =
     {| bestSpecificity := bestSpecificity st; needsApproval := needsApproval st;
        allowedPolicies := allowedPolicies st; deniedPolicies := {[id]} ∪ deniedPolicies st |}) ∨
  (∃ n, rule_grants path capability r n ∧ Evaluate_rule path capability id st r =
     if bestSpecificity st <? n then
       {| bestSpecificity := n; needsApproval := requiresApproval r capability;
          allowedPolicies := {[id]}; deniedPolicies := deniedPolicies st |}
     else if n =? bestSpecificity st then
       {| bestSpecificity := bestSpecificity st; needsApproval := needsApproval st || requiresApproval r capability;
          allowedPolicies := {[id]} ∪ allowedPolicies st; deniedPolicies := deniedPolicies st |}
     else st) ∨
  (¬ rule_denies path r ∧ (∀ n, ¬ rule_grants path capability r n) ∧ Evaluate_rule path capability id st r = st).
Proof.
  unfold Evaluate_rule, rule_denies, rule_grants. rewrite <-rule_match_covers.
  destruct (rule_match (Path r) path) as [[] n] eqn:Hm; simpl; [|right; right; naive_solver].
  destruct (decide ("deny" ∈ capabilitySet (Capabilities r))) as [Hd|Hd].
  - rewrite (bool_decide_eq_true_2 ("deny" ∈ _)), andb_false_r by done. naive_solver.
  - rewrite (bool_decide_eq_false_2 ("deny" ∈ _)), andb_true_r by done.
    destruct (FileTypes r) as [s|]; simpl; [right; right; naive_solver|].
    destruct (grants _ capability) eqn:Hg; simpl; [right; left; naive_solver|right; right].
    naive_solver congruence.
Qed.

(** Extending the list of seen rules by one. *)
Lemma snoc_of (P : Rule → Prop) (seen : list (string * Rule)) id r x :
  (∃ r', (x, r') ∈ seen ++ [(id, r)] ∧ P r') ↔ (∃ r', (x, r') ∈ seen ∧ P r') ∨ (x = id ∧ P r).
Proof. setoid_rewrite elem_of_app. setoid_rewrite list_elem_of_singleton. naive_solver. Qed.

Lemma snoc_any (P : Rule → Prop) (seen : list (string * Rule)) id r :
  (∃ x r', (x, r') ∈ seen ++ [(id, r)] ∧ P r') ↔ (∃ x r', (x, r') ∈ seen ∧ P r') ∨ P r.
Proof. setoid_rewrite snoc_of. naive_solver. Qed.

Lemma snoc_bound path capability (seen : list (string * Rule)) id r b :
  (∀ x r' n, (x, r') ∈ seen → rule_grants path capability r' n → n ≤ b) →
  (∀ n, rule_grants path capability r n → n ≤ b) →
  ∀ x r' n, (x, r') ∈ seen ++ [(id, r)] → rule_grants path capability r' n → n ≤ b.
Proof. intros H1 H2 x r' n. rewrite elem_of_app, list_elem_of_singleton. naive_solver. Qed.

Lemma rule_grants_iff path capability r n :
  rule_grants path capability r n → ∀ m, rule_grants path capability r m ↔ m = n.
Proof. intros Hg m. split; [|by intros ->]. intros ?. by eapply rule_grants_unique. Qed.

(** A rule that grants nothing leaves what is known of the grants as it is. *)
Lemma eval_inv_no_grant path capability seen id r st st' :
  eval_inv path capability seen st →
  (∀ n, ¬ rule_grants path capability r n) →
  bestSpecificity st' = bestSpecificity st → needsApproval st' = needsApproval st →
  allowedPolicies st' = allowedPolicies st →
  (∀ x, x ∈ deniedPolicies st' ↔ x ∈ deniedPolicies st ∨ (x = id ∧ rule_denies path r)) →
  eval_inv path capability (seen ++ [(id, r)]) st'.
Proof.
  intros [Hd Hb Hbest Ha Hn] Hng Eb En Ea Ed. split; rewrite ?Eb, ?En, ?Ea.
  - intros x. by rewrite Ed, Hd, snoc_of.
  - apply snoc_bound; [done|]. naive_solver.
  - rewrite snoc_any. naive_solver.
  - intros x. rewrite Ha, snoc_of. naive_solver.
  - rewrite Hn, snoc_any. naive_solver.
Qed.

Lemma eval_inv_grant path capability seen id r n st st' :
  eval_inv path capability seen st →
  rule_grants path capability r n →
  st' = (if bestSpecificity st <? n then
       {| bestSpecificity := n; needsApproval := requiresApproval r capability;
          allowedPolicies := {[id]}; deniedPolicies := deniedPolicies st |}
     else if n =? bestSpecificity st then
       {| bestSpecificity := bestSpecificity st; needsApproval := needsApproval st || requiresApproval r capability;
          allowedPolicies := {[id]} ∪ allowedPolicies st; deniedPolicies := deniedPolicies st |}
     else st) →
  eval_inv path capability (seen ++ [(id, r)]) st'.
Proof.
  intros [Hd Hb Hbest Ha Hn] Hg ->.
  pose proof (rule_grants_denies _ _ _ _ Hg) as Hnd. pose proof (rule_grants_iff _ _ _ _ Hg) as Hu.
  assert (∀ x, x ∈ deniedPolicies st ↔ ∃ r', (x, r') ∈ seen ++ [(id, r)] ∧ rule_denies path r') as Hd'.
  { intros x. rewrite Hd, snoc_of. tauto. }
  destruct (bestSpecificity st <? n) eqn:Hlt; [|destruct (n =? bestSpecificity st) eqn:Heq];
    bool_to_prop; (split; [exact Hd'|..]; simpl).
  - apply snoc_bound; [|intros m; rewrite Hu; lia]. intros x r' m Hin Hg'. specialize (Hb _ _ _ Hin Hg'). lia.
  - right. rewrite snoc_any. auto.
  - intros x. rewrite elem_of_singleton, snoc_of, Hu. split; [auto|]. intros [(r' & Hin & Hg')|[? _]]; [|done].
    specialize (Hb _ _ _ Hin Hg'). lia.
  - rewrite snoc_any, Hu. split; [auto|]. intros [(x & r' & Hin & Hg' & _)|[_ ?]]; [|done].
    specialize (Hb _ _ _ Hin Hg'). lia.
  - apply snoc_bound; [done|]. intros m. rewrite Hu. lia.
  - right. rewrite snoc_any. subst n. auto.
  - intros x. rewrite elem_of_union, elem_of_singleton, Ha, snoc_of, Hu. subst n. tauto.
  - rewrite orb_true_iff, Hn, snoc_any, Hu. subst n. tauto.
  - apply snoc_bound; [done|]. intros m. rewrite Hu. lia.
  - rewrite snoc_any. tauto.
  - intros x. rewrite Ha, snoc_of, Hu. split; [auto|]. intros [?|[_ ?]]; [done|congruence].
  - rewrite Hn, snoc_any, Hu. split; [auto|]. intros [?|[? _]]; [done|congruence].
Qed.

Lemma eval_inv_step path capability seen id st r :
  eval_inv path capability seen st →
  eval_inv path capability (seen ++ [(id, r)]) (Evaluate_rule path capability id st r).
Proof.
  intros Hinv.
  destruct (Evaluate_rule_cases path capability id st r) as [[Hden ->]|[(n & Hg & ->)|(Hnd & Hng & ->)]].
  - apply (eval_inv_no_grant _ _ _ _ _ st); simpl; try done.
    + intros n ?. by eapply rule_grants_denies.
    + intros x. rewrite elem_of_union, elem_of_singleton. tauto.
  - by eapply eval_inv_grant.
  - apply (eval_inv_no_grant _ _ _ _ _ st); simpl; try done. tauto.
Qed.

(** The state of the nested loops over a list of policies. *)
Definition final_state policies path capability : eval_state :=
  foldl (Evaluate_policy path capability) eval_init policies.

Lemma final_state_flat policies path capability :
  final_state policies path capability
  = foldl (λ st ir, Evaluate_rule path capability ir.1 st ir.2) eval_init (all_rules policies).
Proof.
  unfold final_state, all_rules. rewrite foldl_bind. apply foldl_ext.
  intros st p. unfold Evaluate_policy. by rewrite foldl_fmap'.
Qed.

Lemma final_state_inv policies path capability :
  eval_inv path capability (all_rules policies) (final_state policies path capability).
Proof.
  rewrite final_state_flat. apply foldl_inv.
  - split; simpl; try (intros x); rewrite ?elem_of_empty.
    + split; [done|]. by intros (? & ?%not_elem_of_nil & _).
    + by intros ?? ?%not_elem_of_nil.
    + by left.
    + split; [done|]. by intros (? & ?%not_elem_of_nil & _).
    + split; [done|]. by intros (? & ? & ?%not_elem_of_nil & _).
  - intros pre [id r] st. apply eval_inv_step.
Qed.

(** No rule grants the capability more specifically. *)
Definition top_specificity policies path capability (n : Z) : Prop :=
  ∀ id r m, (id, r) ∈ all_rules policies → rule_grants path capability r m → m ≤ n.

Lemma elem_of_sortedKeys (X : gset string) x : x ∈ sortedKeys X ↔ x ∈ X.
Proof. unfold sortedKeys. rewrite merge_sort_Permutation. apply elem_of_elements. Qed.

Lemma sortedKeys_sorted (X : gset string) : Sorted String.le (sortedKeys X) ∧ NoDup (sortedKeys X).
Proof.
  unfold sortedKeys. split; [apply Sorted_merge_sort, _|].
  rewrite merge_sort_Permutation. apply NoDup_elements.
Qed.

Lemma some_denied policies path capability :
  deniedPolicies (final_state policies path capability) ≠ ∅ ↔
  ∃ id r, (id, r) ∈ all_rules policies ∧ rule_denies path r.
Proof.
  destruct (final_state_inv policies path capability) as [Hd _ _ _ _]. split.
  - intros [id Hid]%set_choose_L. apply Hd in Hid. naive_solver.
  - intros (id & r & ?). assert (id ∈ deniedPolicies (final_state policies path capability)) by (apply Hd; eauto).
    set_solver.
Qed.

Lemma some_allowed policies path capability :
  allowedPolicies (final_state policies path capability) ≠ ∅ ↔
  ∃ id r n, (id, r) ∈ all_rules policies ∧ rule_grants path capability r n.
Proof.
  destruct (final_state_inv policies path capability) as [_ Hb Hbest Ha _]. split.
  - intros [id Hid]%set_choose_L. apply Ha in Hid. naive_solver.
  - intros (id & r & n & Hin & Hg). pose proof (rule_grants_nonneg _ _ _ _ Hg). specialize (Hb _ _ _ Hin Hg).
    destruct Hbest as [|(id' & r' & Hin')]; [lia|].
    assert (id' ∈ allowedPolicies (final_state policies path capability)) by (apply Ha; eauto). set_solver.
Qed.

(** The best specificity is that of the most specific grants. *)
Lemma best_is_top policies path capability r n :
  (∃ id, (id, r) ∈ all_rules policies) → rule_grants path capability r n →
  n = bestSpecificity (final_state policies path capability) ↔ top_specificity policies path capability n.
Proof.
  intros [id Hin] Hg. destruct (final_state_inv policies path capability) as [_ Hb Hbest _ _].
  split; [intros ->; exact Hb|]. intros Htop.
  pose proof (rule_grants_nonneg _ _ _ _ Hg). pose proof (Hb _ _ _ Hin Hg).
  destruct Hbest as [|(id' & r' & Hin' & Hg')]; [lia|]. specialize (Htop _ _ _ Hin' Hg'). lia.
Qed.

Lemma Evaluate_state policies path capability :
  let st := final_state policies (NormalizePath path) (norm capability) in
  let d := Evaluate policies path capability in
  Denied d = bool_decide (deniedPolicies st ≠ ∅) ∧
  Allowed d = bool_decide (deniedPolicies st = ∅ ∧ allowedPolicies st ≠ ∅) ∧
  NeedsApproval d = Allowed d && needsApproval st ∧
  PolicyIDs d = (if Denied d then sortedKeys (deniedPolicies st)
                 else if Allowed d then sortedKeys (allowedPolicies st) else []).
Proof.
  cbv zeta. unfold Evaluate. fold (final_state policies (NormalizePath path) (norm capability)).
  set (st := final_state _ _ _).
  destruct (decide (deniedPolicies st = ∅)) as [Hd|Hd], (decide (allowedPolicies st = ∅)) as [Ha|Ha];
    repeat rewrite (bool_decide_eq_true_2 (deniedPolicies st = ∅)) by done;
    repeat rewrite (bool_decide_eq_false_2 (deniedPolicies st = ∅)) by done;
    repeat rewrite (bool_decide_eq_true_2 (allowedPolicies st = ∅)) by done;
    repeat rewrite (bool_decide_eq_false_2 (allowedPolicies st = ∅)) by done;
    simpl; split_and!; try done; symmetry; (apply bool_decide_eq_true || apply bool_decide_eq_false); tauto.
Qed.

Lemma denied_iff policies path capability :
  Denied (Evaluate policies path capability) = true ↔
  ∃ id r, (id, r) ∈ all_rules policies ∧ rule_denies (NormalizePath path) r.
Proof.
  destruct (Evaluate_state policies path capability) as (-> & _).
  rewrite bool_decide_eq_true. apply some_denied.
Qed.

Lemma allowed_iff policies path capability :
  Allowed (Evaluate policies path capability) = true ↔
  Denied (Evaluate policies path capability) = false ∧
  ∃ id r n, (id, r) ∈ all_rules policies ∧ rule_grants (NormalizePath path) (norm capability) r n.
Proof.
  destruct (Evaluate_state policies path capability) as (-> & -> & _).
  rewrite bool_decide_eq_true, bool_decide_eq_false, some_allowed.
  split; intros [? ?]; (split; [|done]); [by intros []|by apply dec_stable].
Qed.

(** The grants at the best specificity are the most specific ones. *)
Lemma best_grants_iff policies path capability (Q : Rule → Prop) id :
  (∃ r, (id, r) ∈ all_rules policies ∧
        rule_grants path capability r (bestSpecificity (final_state policies path capability)) ∧ Q r) ↔
  ∃ r n, (id, r) ∈ all_rules policies ∧ rule_grants path capability r n ∧
         top_specificity policies path capability n ∧ Q r.
Proof.
  split.
  - intros (r & Hin & Hg & HQ). eexists r, _. split_and!; [done..| |done]. by apply (best_is_top _ _ _ r); eauto.
  - intros (r & n & Hin & Hg & Ht & HQ).
    apply (best_is_top policies path capability r) in Ht as ->; eauto.
Qed.

Lemma approval_iff policies path capability :
  NeedsApproval (Evaluate policies path capability) = true ↔
  Allowed (Evaluate policies path capability) = true ∧
  ∃ id r n, (id, r) ∈ all_rules policies ∧ rule_grants (NormalizePath path) (norm capability) r n ∧
            top_specificity policies (NormalizePath path) (norm capability) n ∧ requiresApproval r (norm capability) = true.
Proof.
  destruct (Evaluate_state policies path capability) as (_ & _ & -> & _). rewrite andb_true_iff.
  destruct (final_state_inv policies (NormalizePath path) (norm capability)) as [_ _ _ _ ->].
  by setoid_rewrite best_grants_iff.
Qed.

Lemma policy_ids_iff policies path capability id :
  id ∈ PolicyIDs (Evaluate policies path capability) ↔
  if Denied (Evaluate policies path capability)
  then ∃ r, (id, r) ∈ all_rules policies ∧ rule_denies (NormalizePath path) r
  else ∃ r n, (id, r) ∈ all_rules policies ∧ rule_grants (NormalizePath path) (norm capability) r n ∧
              top_specificity policies (NormalizePath path) (norm capability) n.
Proof.
  destruct (Evaluate_state policies path capability) as (_ & _ & _ & ->).
  destruct (final_state_inv policies (NormalizePath path) (norm capability)) as [Hd _ _ Ha _].
  destruct (Denied _) eqn:ED; [by rewrite elem_of_sortedKeys, Hd|].
  pose proof (best_grants_iff policies (NormalizePath path) (norm capability) (λ _, True) id) as Hmax.
  destruct (Allowed _) eqn:EA.
  - rewrite elem_of_sortedKeys, Ha. naive_solver.
  - split; [by intros ?%not_elem_of_nil|]. intros (r & n & Hin & Hg & Ht). exfalso.
    apply not_true_iff_false in EA. apply EA, allowed_iff. eauto 10.
Qed.

Lemma policy_ids_sorted policies path capability :
  Sorted String.le (PolicyIDs (Evaluate policies path capability)) ∧ NoDup (PolicyIDs (Evaluate policies path capability)).
Proof.
  destruct (Evaluate_state policies path capability) as (_ & _ & _ & ->).
  repeat case_match; try apply sortedKeys_sorted. split; constructor.
Qed.


(** The invariant determines the state. *)
Lemma eval_inv_unique path capability seen seen' st st' :
  eval_inv path capability seen st → eval_inv path capability seen' st' →
  (∀ ir, ir ∈ seen ↔ ir ∈ seen') → -1 ≤ bestSpecificity st → -1 ≤ bestSpecificity st' → st = st'.
Proof.
  intros [Hd Hb Hbest Ha Hn] [Hd' Hb' Hbest' Ha' Hn'] Hseen Hge Hge'.
  setoid_rewrite <-Hseen in Hd'. setoid_rewrite <-Hseen in Hb'. setoid_rewrite <-Hseen in Hbest'.
  setoid_rewrite <-Hseen in Ha'. setoid_rewrite <-Hseen in Hn'.
  assert (bestSpecificity st = bestSpecificity st') as Heq.
  { destruct Hbest as [E|(id & r & Hin & Hg)], Hbest' as [E'|(id' & r' & Hin' & Hg')]; [congruence|..].
    - specialize (Hb _ _ _ Hin' Hg'). lia.
    - specialize (Hb' _ _ _ Hin Hg). lia.
    - specialize (Hb _ _ _ Hin' Hg'). specialize (Hb' _ _ _ Hin Hg). lia. }
  destruct st as [b n a d], st' as [b' n' a' d']; simpl in *. subst b'. f_equal.
  - apply eq_true_iff_eq. by rewrite Hn, Hn'.
  - apply set_eq. intros x. by rewrite Ha, Ha'.
  - apply set_eq. intros x. by rewrite Hd, Hd'.
Qed.

Lemma final_state_best policies path capability : -1 ≤ bestSpecificity (final_state policies path capability).
Proof.
  destruct (final_state_inv policies path capability) as [_ _ [->|(? & ? & _ & Hg)] _ _]; [done|].
  apply rule_grants_nonneg in Hg. lia.
Qed.

Lemma final_state_ext policies policies' path capability :
  (∀ ir, ir ∈ all_rules policies ↔ ir ∈ all_rules policies') →
  final_state policies path capability = final_state policies' path capability.
Proof.
  intros H. eapply eval_inv_unique; eauto using final_state_inv, final_state_best.
Qed.

(** A decision depends only on which rules the subject's policies contain:
    reordering policies or rules, splitting a policy in two or repeating a rule
    changes nothing. *)
Theorem evaluate_extensional policies policies' path capability :
  (∀ ir, ir ∈ all_rules policies ↔ ir ∈ all_rules policies') →
  Evaluate policies path capability = Evaluate policies' path capability.
Proof.
  intros H. unfold Evaluate.
  fold (final_state policies (NormalizePath path) (norm capability)).
  fold (final_state policies' (NormalizePath path) (norm capability)).
  by rewrite (final_state_ext policies policies').
Qed.
End Decisions.

(** * Subtrees *)

Lemma seg_match_refl parts : filetypes.seg_match parts parts.
Proof. induction parts; by constructor. Qed.

Lemma seg_match_nil_inv t : filetypes.seg_match [] t → t = [].
Proof. by inversion 1. Qed.

Lemma denyReachesScope_nil parts : denyReachesScope parts [] = true.
Proof. unfold denyReachesScope. by destruct (_ =s _), (removelast parts), parts. Qed.

Lemma denyReachesScope_last p scope :
  denyReachesScope [p] scope =
  (p =s Recursive) || match scope with [] => true | [s] => (p =s "*") || (s =s "*") || (p =s s) | _ => false end.
Proof.
  unfold denyReachesScope. simpl. destruct (p =s Recursive); [by destruct scope|].
  destruct scope as [|s [|s' scope]]; simpl; [done|..]; rewrite andb_true_r;
    by destruct ((p =s "*") || (s =s "*") || (p =s s)).
Qed.

Lemma denyReachesScope_cons p parts s scope :
  parts ≠ [] →
  denyReachesScope (p :: parts) (s :: scope)
  = ((p =s "*") || (s =s "*") || (p =s s)) && denyReachesScope parts scope.
Proof.
  intros Hne. unfold denyReachesScope.
  assert (List.last (p :: parts) "" = List.last parts "") as -> by (by destruct parts).
  assert (removelast (p :: parts) = p :: removelast parts) as -> by (by destruct parts).
  destruct (List.last parts "" =s Recursive); simpl; rewrite negb_andb;
    by destruct ((p =s "*") || (s =s "*") || (p =s s)).
Qed.

Lemma denyReachesScope_sound parts scope rest :
  parts ≠ [] → filetypes.seg_match parts (scope ++ rest) → denyReachesScope parts scope = true.
Proof.
  revert scope. induction parts as [|p parts IH]; intros scope Hne Hm; [done|].
  destruct scope as [|s scope]; [apply denyReachesScope_nil|]. destruct parts as [|p' parts].
  - rewrite denyReachesScope_last. inversion Hm as [|t|q s' t Hm'|s' q t Hm']; subst; [done|..];
      apply seg_match_nil_inv, app_eq_nil in Hm' as [-> ->]; [done|].
    by rewrite (bool_decide_eq_true_2 (s = s)), !orb_true_r.
  - rewrite denyReachesScope_cons by done. apply andb_true_iff.
    inversion Hm as [| |q s' t Hm'|s' q t Hm']; subst; (split; [|by apply IH]); [done|].
    by rewrite (bool_decide_eq_true_2 (s = s)), !orb_true_r.
Qed.

Lemma denyReachesScope_complete parts scope :
  parts ≠ [] → "*" ∉ scope → denyReachesScope parts scope = true →
  ∃ rest, filetypes.seg_match parts (scope ++ rest).
Proof.
  revert scope. induction parts as [|p parts IH]; intros scope Hne Hstar Hd; [done|].
  destruct scope as [|s scope]; [exists (p :: parts); apply seg_match_refl|].
  apply not_elem_of_cons in Hstar as [Hs Hstar]. destruct parts as [|p' parts].
  - rewrite denyReachesScope_last in Hd. destruct (decide (p = Recursive)) as [->|Hp].
    { exists []. constructor. }
    rewrite (bool_decide_eq_false_2 (p = Recursive)) in Hd by done. destruct scope as [|? ?]; [|done].
    rewrite (bool_decide_eq_false_2 (s = "*")) in Hd by done. simpl in Hd. rewrite orb_false_r in Hd. exists [].
    apply orb_true_iff in Hd as [H|H]; apply bool_decide_eq_true in H; subst; repeat constructor.
  - rewrite denyReachesScope_cons, andb_true_iff in Hd by done. destruct Hd as [Hp Hd].
    destruct (IH scope) as [rest Hr]; [done..|]. exists rest.
    rewrite (bool_decide_eq_false_2 (s = "*")), orb_false_r in Hp by done.
    apply orb_true_iff in Hp as [H|H]; apply bool_decide_eq_true in H; subst; by constructor.
Qed.

(** The subtree guard is exact: for a scope without wildcards, a rule
    reaches the scope precisely when it covers the scope or some path below
    it. *)
Theorem deny_reaches_scope_iff ruleParts scopeParts :
  ruleParts ≠ [] → "*" ∉ scopeParts →
  denyReachesScope ruleParts scopeParts = true ↔ ∃ rest, filetypes.seg_match ruleParts (scopeParts ++ rest).
Proof.
  intros Hne Hstar. split; [by apply denyReachesScope_complete|].
  intros [rest ?]. by eapply denyReachesScope_sound.
Qed.

Section Subtrees.
Context {U : Unicode}.
Implicit Types (policies : list Policy) (path scope capability : string) (r : Rule).

(** [path] names [scope] or something below it. *)
Definition within scope path : Prop := path = scope ∨ ∃ rest, path = scope +++ "/" +++ rest.

Lemma within_segments scope path :
  NormalizePath scope = scope → NormalizePath path = path → within scope path →
  ∃ rest, segments path = segments scope ++ rest.
Proof.
  intros Hs Hp [->|[rest ->]]; [exists []; by rewrite app_nil_r|].
  unfold segments. rewrite Hp, Hs. exists (Split slash rest).
  change (scope +++ "/" +++ rest) with (scope +++ String slash rest). apply Split_app.
Qed.

Lemma DeniesWithin_spec policies scope :
  DeniesWithin policies scope = true ↔
  ∃ id r, (id, r) ∈ all_rules policies ∧ "deny" ∈ capabilitySet (Capabilities r) ∧
          denyReachesScope (segments (Path r)) (segments scope) = true.
Proof.
  unfold DeniesWithin, all_rules. rewrite existsb_elem. setoid_rewrite existsb_elem.
  setoid_rewrite list_elem_of_bind. setoid_rewrite list_elem_of_fmap. split.
  - intros (p & Hp & r & Hr & H). case_bool_decide; [|done]. naive_solver.
  - intros (id & r & (p & (r' & [= -> <-] & Hr) & Hp) & Hd & Hs). exists p. split; [done|]. exists r. split; [done|].
    by rewrite bool_decide_eq_true_2.
Qed.

(** C3. When the guard lets a whole subtree through, no path at or below its
    root is denied, so a request that names only the root cannot read a
    descendant the subject is denied. *)
Theorem denies_within_sound policies scope path capability :
  NormalizePath scope = scope → NormalizePath path = path → within scope path →
  DeniesWithin policies scope = false → Denied (Evaluate policies path capability) = false.
Proof.
  intros Hs Hp Hw Hguard. apply not_true_iff_false. intros Hd. apply not_true_iff_false in Hguard.
  apply Hguard, DeniesWithin_spec.
  apply denied_iff in Hd as (id & r & Hin & Hcov & Hdeny).
  destruct (within_segments scope path) as [rest Hrest]; [done..|].
  exists id, r. split_and!; [done..|]. unfold covers in Hcov. rewrite Hp, Hrest in Hcov.
  eapply denyReachesScope_sound; [apply Split_ne|done].
Qed.
End Subtrees.
