(* ===== verification/RbacTyped.v ===== *)
(** Typed decisions of package rbac (typed.go): the Control Tower compiles the
    covering rules to the node's evaluator; this file relates its answers to the
    policy rules, to each other and to the path-only [rbac.Evaluate], and shows
    what [rbac.ExpandCompatibilityRules] adds. *)
From S2P Require Import Prelude GoLib FileTypes FileTypesFacts Rbac RbacFacts.
From stdpp Require Import options.
#[local] Set Default Proof Using "Type*".
Import rbac.
Local Open Scope Z_scope.
#[local] Arguments filetypes.Matches : simpl never.
#[local] Arguments grants : simpl never.
#[local] Arguments capabilitySet : simpl never.

(** * Paths *)

Lemma NormalizePath_trimmed p : trimmed slash (NormalizePath p).
Proof.
  unfold NormalizePath. pose proof (Trim_trimmed slash (TrimSpace p)) as Ht.
  set (v := Trim (TrimSpace p) slash) in *. cbv zeta. destruct (v =s "workers"); [by split|].
  destruct (HasPrefix v "workers/") eqn:Hp; [|done].
  unfold HasPrefix, TrimPrefix in *. apply bool_decide_eq_true in Hp as [t Hstrip]. rewrite Hstrip. simpl.
  apply StripPrefix_Some in Hstrip. rewrite Hstrip in Ht. destruct Ht as [_ Hl].
  assert (t ≠ "") as Hne by (intros ->; by apply Hl).
  split; [done|]. rewrite last_byte_app in Hl |- * by done. done.
Qed.

Lemma Trim_NormalizePath p : Trim (NormalizePath p) slash = NormalizePath p.
Proof. apply trimmed_Trim, NormalizePath_trimmed. Qed.

(** * The compiled rules *)

Section Typed.
Context {U : Unicode}.
Implicit Types (policies : list Policy) (path capability entryType : string) (r : Rule).

Lemma ruleMatches_covers r path : ruleMatches r path = true ↔ covers (Path r) path.
Proof. apply rule_match_covers. Qed.

(** A policy rule and the context rule it compiles to cover the same paths. *)
Lemma context_covers r path :
  NormalizePath path = path → filetypes.covers (NormalizePath (Path r)) path ↔ covers (Path r) path.
Proof.
  intros Hp. unfold filetypes.covers, covers, segments. rewrite Hp, <-Hp, !Trim_NormalizePath. by rewrite Hp.
Qed.

Lemma inner_rules id path (rs : list Rule) acc out :
  foldM (λ acc rule,
      if negb (ruleMatches rule path) then Ok acc
      else if negb (ValidPath (Path rule)) then Err (errors_New "")
      else Ok (acc ++ [context_rule id rule])) acc rs = Ok out →
  out = acc ++ (context_rule id <$> filter (λ r, ruleMatches r path = true) rs).
Proof.
  revert acc. induction rs as [|r rs IH]; intros acc; csimpl; [intros [= <-]; by rewrite app_nil_r|].
  rewrite filter_cons. destruct (ruleMatches r path); simpl; [|by intros ->%IH].
  destruct (ValidPath (Path r)); simpl; [|done]. intros ->%IH. by rewrite <-app_assoc.
Qed.

Lemma outer_rules path policies acc out :
  foldM (λ acc policy, foldM (λ acc rule,
      if negb (ruleMatches rule path) then Ok acc
      else if negb (ValidPath (Path rule)) then Err (errors_New "")
      else Ok (acc ++ [context_rule (ID policy) rule])) acc (Rules policy)) acc policies = Ok out →
  ∀ fr, fr ∈ out ↔ fr ∈ acc ∨ ∃ id r, (id, r) ∈ all_rules policies ∧ ruleMatches r path = true ∧ fr = context_rule id r.
Proof.
  revert acc. induction policies as [|p policies IH]; intros acc; simpl.
  - intros [= <-] fr. unfold all_rules. simpl. setoid_rewrite elem_of_nil. naive_solver.
  - destruct (foldM _ acc (Rules p)) as [acc'|] eqn:E; [|done]. intros H fr. rewrite (IH _ H).
    apply inner_rules in E as ->. unfold all_rules. csimpl.
    setoid_rewrite elem_of_app. setoid_rewrite list_elem_of_fmap. setoid_rewrite list_elem_of_filter. split.
    + intros [[?|(r & -> & ? & ?)]|(id & r & ? & ? & ->)]; [by left|right; exists (ID p), r; eauto 6|right; exists id, r; eauto 6].
    + intros [?|(id & r & [(? & [= -> ->] & ?)|?] & ? & ->)]; eauto 10.
Qed.

(** The entries of the compiled filter are the covering rules, compiled. *)
Lemma compileTyped_rules policies path f :
  compileTyped policies path = Some f →
  (∀ cr, cr ∈ filetypes.rules f →
     ∃ id r, (id, r) ∈ all_rules policies ∧ covers (Path r) path ∧ compiled_from (context_rule id r) cr) ∧
  (∀ id r, (id, r) ∈ all_rules policies → covers (Path r) path →
     ∃ cr, cr ∈ filetypes.rules f ∧ compiled_from (context_rule id r) cr).
Proof.
  unfold compileTyped. destruct (foldM _ [] policies) as [rules|] eqn:E; [|done].
  destruct (filetypes.Compile _) as [f'|] eqn:Ec; [|done]. destruct (ValidResourcePath path); [|done].
  intros [= ->]. pose proof (outer_rules _ _ _ _ E) as Hin. clear E.
  setoid_rewrite elem_of_nil in Hin. setoid_rewrite ruleMatches_covers in Hin. split.
  - intros cr (fr & [[]|(id & r & ? & ? & ->)]%Hin & ?)%(Compile_rules_r _ _ _ Ec). eauto.
  - intros id r Hr Hcov. destruct (Compile_rules_l _ _ (context_rule id r) Ec) as (cr & ? & ?); [apply Hin; eauto 6|eauto].
Qed.

Lemma grants_eq (caps : gset string) capability : filetypes.grants caps capability = grants caps capability.
Proof. unfold filetypes.grants, grants. by destruct (capability ∈b caps). Qed.

(** * Decisions on an entry *)

(** A policy rule denies an entry; a typed denial only files its selector names. *)
Definition entry_denies path capability entryType r : Prop :=
  covers (Path r) path ∧ "deny" ∈ capabilitySet (Capabilities r) ∧
  match FileTypes r with
  | None => True
  | Some s => entryType = "file" ∧ filetypes.Selector_Matches s (path_Base path) true = true ∧
              (capabilitySet (Capabilities r) = {["deny"]} ∨ grants (capabilitySet (Capabilities r)) capability = true)
  end.

(** A policy rule allows an entry. *)
Definition entry_allows path capability entryType r : Prop :=
  covers (Path r) path ∧ ("deny" ∉ capabilitySet (Capabilities r)) ∧
  grants (capabilitySet (Capabilities r)) capability = true ∧
  match FileTypes r with
  | None => True
  | Some s => entryType = "directory" ∨ filetypes.Selector_Matches s (path_Base path) true = true
  end.

Lemma compiled_reads id r cr path capability entryType :
  NormalizePath path = path → compiled_from (context_rule id r) cr →
  (filetypes.denies path capability entryType cr ↔ entry_denies path capability entryType r) ∧
  (filetypes.allows path capability entryType cr ↔ entry_allows path capability entryType r).
Proof.
  intros Hp [_ _ _ _ _ _ _ Hrule Hcaps Hm]. unfold filetypes.denies, filetypes.allows, entry_denies, entry_allows.
  rewrite Hrule, Hcaps, grants_eq. simpl in *. rewrite context_covers by done.
  change (list_to_set (filetypes.norm <$> Capabilities r)) with (capabilitySet (Capabilities r)).
  destruct (FileTypes r) as [s|]; [|by rewrite Hm].
  destruct Hm as (m & Hs & ->). unfold filetypes.Selector_Matches. by rewrite Hs.
Qed.

(** A filter compiled from rules, all those among them that cover the path at
    least, decides by the policy rules. *)
Lemma filter_decides (rs : list (string * Rule)) f path capability entryType :
  NormalizePath path = path →
  (∀ cr, cr ∈ filetypes.rules f → ∃ id r, (id, r) ∈ rs ∧ compiled_from (context_rule id r) cr) →
  (∀ id r, (id, r) ∈ rs → covers (Path r) path → ∃ cr, cr ∈ filetypes.rules f ∧ compiled_from (context_rule id r) cr) →
  filetypes.well_formed_request path capability entryType →
  (filetypes.Denied (filetypes.Evaluate (Some f) path capability entryType) = true ↔
   ∃ id r, (id, r) ∈ rs ∧ entry_denies path (norm capability) entryType r) ∧
  (filetypes.Allowed (filetypes.Evaluate (Some f) path capability entryType) = true ↔
   (∃ id r, (id, r) ∈ rs ∧ entry_allows path (norm capability) entryType r) ∧
   filetypes.Denied (filetypes.Evaluate (Some f) path capability entryType) = false).
Proof.
  intros Hp H1 H2 Hwf. rewrite Evaluate_unfold by done. simpl. rewrite andb_true_iff, negb_true_iff, !existsb_elem.
  setoid_rewrite deniesb_spec. setoid_rewrite allowsb_spec.
  change (filetypes.norm capability) with (norm capability). split.
  - split.
    + intros (cr & (id & r & Hin & Hc)%H1 & Hd). exists id, r. split; [done|].
      by eapply (compiled_reads id r cr).
    + intros (id & r & Hin & Hd). destruct (H2 _ _ Hin (proj1 Hd)) as (cr & Hcr & Hc). exists cr. split; [done|].
      by eapply (compiled_reads id r cr).
  - apply Morphisms_Prop.and_iff_morphism; [|done]. split.
    + intros (cr & (id & r & Hin & Hc)%H1 & Hd). exists id, r. split; [done|].
      by eapply (compiled_reads id r cr).
    + intros (id & r & Hin & Hd). destruct (H2 _ _ Hin (proj1 Hd)) as (cr & Hcr & Hc). exists cr. split; [done|].
      by eapply (compiled_reads id r cr).
Qed.
Lemma filter_reads policies path f capability entryType :
  NormalizePath path = path → compileTyped policies path = Some f →
  filetypes.well_formed_request path capability entryType →
  (filetypes.Denied (filetypes.Evaluate (Some f) path capability entryType) = true ↔
   ∃ id r, (id, r) ∈ all_rules policies ∧ entry_denies path (norm capability) entryType r) ∧
  (filetypes.Allowed (filetypes.Evaluate (Some f) path capability entryType) = true ↔
   (∃ id r, (id, r) ∈ all_rules policies ∧ entry_allows path (norm capability) entryType r) ∧
   filetypes.Denied (filetypes.Evaluate (Some f) path capability entryType) = false).
Proof.
  intros Hp Hf. destruct (compileTyped_rules _ _ _ Hf) as [H1 H2]. apply filter_decides; [done| |done]. naive_solver.
Qed.

(** C4. Where typed rules cover a path and compile, a decision on an entry is
    the one the policy rules read: allowed exactly when the request is well
    formed, some rule allows an entry of that type with that name and no rule
    denies it. *)
Theorem evaluate_entry_spec policies path f capability entryType :
  NormalizePath path = path → HasTypedRules policies path = true → compileTyped policies path = Some f →
  Allowed (entry_Decision (EvaluateEntry policies path capability entryType)) = true ↔
  filetypes.well_formed_request path capability entryType ∧
  (∃ id r, (id, r) ∈ all_rules policies ∧ entry_allows path (norm capability) entryType r) ∧
  ¬ (∃ id r, (id, r) ∈ all_rules policies ∧ entry_denies path (norm capability) entryType r).
Proof.
  intros Hp Ht Hf. unfold EvaluateEntry. rewrite Hp, Ht, Hf.
  cbn [negb entry_Decision Allowed]. rewrite andb_true_iff, negb_true_iff.
  destruct (decide (filetypes.well_formed_request path capability entryType)) as [Hwf|Hwf].
  - destruct (filter_reads policies path f capability entryType) as [Hd Ha]; [done..|].
    rewrite Ha, <-Hd, not_true_iff_false. tauto.
  - rewrite Evaluate_closed by auto. simpl. naive_solver.
Qed.

(** ** The three evaluators agree *)

(** The decision of [EvaluateTyped], one evaluation per entry type. *)
Lemma EvaluateTyped_entries policies path capability mode :
  HasTypedRules policies (NormalizePath path) = true →
  is_Some (compileTyped policies (NormalizePath path)) →
  let file := entry_Decision (EvaluateEntry policies path capability "file") in
  let directory := entry_Decision (EvaluateEntry policies path capability "directory") in
  Denied (EvaluateTyped policies path capability mode) =
    (match mode with
     | NodeFiltered => Denied file && Denied directory
     | EveryEntry => Denied file || Denied directory
     end) ∧
  Allowed (EvaluateTyped policies path capability mode) =
    (match mode with
     | NodeFiltered => Allowed file || Allowed directory
     | EveryEntry => Allowed file && Allowed directory
     end).
Proof.
  intros Ht [f Hf]. unfold EvaluateTyped, EvaluateEntry. rewrite Ht, Hf. cbn [negb].
  assert (∀ et, filetypes.Allowed (filetypes.Evaluate (Some f) (NormalizePath path) capability et) = true →
                filetypes.Denied (filetypes.Evaluate (Some f) (NormalizePath path) capability et) = false) as Hex.
  { intros et. destruct (decide (filetypes.well_formed_request (NormalizePath path) capability et)).
    - rewrite Evaluate_unfold by done. simpl. by intros [_ ?%negb_true_iff]%andb_true_iff.
    - by rewrite Evaluate_closed by auto. }
  pose proof (Hex "file") as Hfile. pose proof (Hex "directory") as Hdir. revert Hfile Hdir.
  generalize (filetypes.Evaluate (Some f) (NormalizePath path) capability "file"),
    (filetypes.Evaluate (Some f) (NormalizePath path) capability "directory").
  intros [af df vf rf] [ad dd vd rd]. simpl. intros H1 H2.
  destruct af; [specialize (H1 eq_refl); subst df|clear H1]; (destruct ad; [specialize (H2 eq_refl); subst dd|clear H2]);
    destruct mode; simpl; by rewrite ?andb_false_r, ?orb_false_r, ?orb_true_r; repeat case_match.
Qed.

(** The typed paths of the code are taken. *)
Definition typed_path policies path : Prop :=
  HasTypedRules policies (NormalizePath path) = true ∧ is_Some (compileTyped policies (NormalizePath path)).

#[local] Instance typed_path_dec policies path : base.Decision (typed_path policies path) := _.

Lemma typed_fallback policies path capability mode :
  ¬ typed_path policies path →
  EvaluateTyped policies path capability mode = Evaluate policies (NormalizePath path) capability.
Proof.
  unfold typed_path, EvaluateTyped. intros H. destruct (HasTypedRules _ _); [|done]. cbn [negb].
  destruct (compileTyped _ _) eqn:E; [|done]. exfalso. eauto.
Qed.

Lemma entry_fallback policies path capability entryType :
  ¬ typed_path policies path →
  entry_Decision (EvaluateEntry policies path capability entryType) = Evaluate policies (NormalizePath path) capability.
Proof.
  unfold typed_path, EvaluateEntry. intros H. destruct (HasTypedRules _ _); [|done]. cbn [negb].
  destruct (compileTyped _ _) eqn:E; [|done]. exfalso. eauto.
Qed.

(** The two modes bracket the decision on the entry itself: what
    [EveryEntry] allows is allowed whichever type the entry turns out to have,
    and what is allowed for the entry's type is let through to the node by
    [NodeFiltered]; denials are bracketed the other way round. *)
Theorem typed_modes_bracket policies path capability entryType :
  entryType = "file" ∨ entryType = "directory" →
  let entry := entry_Decision (EvaluateEntry policies path capability entryType) in
  let every := EvaluateTyped policies path capability EveryEntry in
  let filtered := EvaluateTyped policies path capability NodeFiltered in
  (Allowed every = true → Allowed entry = true) ∧ (Allowed entry = true → Allowed filtered = true) ∧
  (Denied entry = true → Denied every = true) ∧ (Denied filtered = true → Denied entry = true).
Proof.
  intros Het. cbv zeta. destruct (decide (typed_path policies path)) as [[Ht Hc]|Hf].
  - destruct (EvaluateTyped_entries policies path capability EveryEntry) as [-> ->]; [done..|].
    destruct (EvaluateTyped_entries policies path capability NodeFiltered) as [-> ->]; [done..|].
    rewrite !andb_true_iff, !orb_true_iff. by destruct Het as [-> | ->]; intuition idtac.
  - by rewrite !typed_fallback, entry_fallback by done.
Qed.

(** An untyped rule that carries deny and covers the path. *)
Definition untyped_deny policies path : Prop :=
  ∃ id r, (id, r) ∈ all_rules policies ∧ FileTypes r = None ∧ rule_denies path r.

Lemma entry_no_untyped_deny policies path capability entryType :
  NormalizePath path = path →
  Allowed (entry_Decision (EvaluateEntry policies path capability entryType)) = true → ¬ untyped_deny policies path.
Proof.
  intros Hp Ha (id & r & Hin & Hft & Hcov & Hdeny). destruct (decide (typed_path policies path)) as [[Ht [f Hf]]|Hn].
  - unfold EvaluateEntry in Ha. rewrite Hp in Ht, Hf. rewrite Hp, Ht, Hf in Ha. cbn [negb entry_Decision Allowed] in Ha.
    destruct (decide (filetypes.well_formed_request path capability entryType)) as [Hwf|Hwf];
      [|by rewrite Evaluate_closed in Ha by auto].
    apply andb_true_iff in Ha as [_ Hd]. apply negb_true_iff, not_true_iff_false in Hd.
    apply Hd. apply (filter_reads policies path f capability entryType); [done..|].
    exists id, r. split; [done|]. split_and!; [done..|]. by rewrite Hft.
  - rewrite entry_fallback, Hp in Ha by done. apply allowed_iff in Ha as [Hd _].
    apply not_true_iff_false in Hd. apply Hd, denied_iff. rewrite Hp. by exists id, r.
Qed.

(** No evaluator, in any mode, lets through a path an untyped denial
    covers, whatever typed rules stand beside it. *)
Theorem untyped_deny_wins policies path capability :
  NormalizePath path = path → untyped_deny policies path →
  Allowed (Evaluate policies path capability) = false ∧
  (∀ mode, Allowed (EvaluateTyped policies path capability mode) = false) ∧
  (∀ entryType, Allowed (entry_Decision (EvaluateEntry policies path capability entryType)) = false).
Proof.
  intros Hp Hu.
  assert (Allowed (Evaluate policies path capability) = false) as Hplain.
  { apply not_true_iff_false. intros [Hd _]%allowed_iff. apply not_true_iff_false in Hd. apply Hd, denied_iff.
    rewrite Hp. destruct Hu as (id & r & ? & _ & ?). by exists id, r. }
  assert (∀ entryType, Allowed (entry_Decision (EvaluateEntry policies path capability entryType)) = false) as Hentry.
  { intros et. apply not_true_iff_false. intros Ha. by eapply entry_no_untyped_deny. }
  split_and!; [done| |done]. intros mode. destruct (decide (typed_path policies path)) as [[Ht Hc]|Hn].
  - destruct (EvaluateTyped_entries policies path capability mode) as [_ ->]; [done..|].
    rewrite !Hentry. by destruct mode.
  - by rewrite typed_fallback, Hp.
Qed.

Lemma compiled_caps_valid policies path f id r capability :
  compileTyped policies path = Some f → (id, r) ∈ all_rules policies → covers (Path r) path →
  ("deny" ∉ capabilitySet (Capabilities r)) → grants (capabilitySet (Capabilities r)) capability = true →
  capability ∈ filetypes.validCaps ∧ capability ≠ "deny".
Proof.
  intros Hf Hin Hcov Hnd Hg. destruct (compileTyped_rules _ _ _ Hf) as [_ H2].
  destruct (H2 _ _ Hin Hcov) as (cr & _ & [_ _ _ Hvalid _ _ _ _ _ _]). simpl in Hvalid.
  unfold grants in Hg. destruct (decide (capability ∈ capabilitySet (Capabilities r))) as [Hc|Hc].
  - split; [|naive_solver]. unfold capabilitySet in Hc. apply elem_of_list_to_set, list_elem_of_fmap in Hc as (c & -> & Hc).
    by apply Hvalid.
  - rewrite bool_decide_eq_false_2 in Hg by done. apply andb_true_iff in Hg as [_ Hg].
    apply orb_true_iff in Hg as [Hg|Hg]; apply bool_decide_eq_true in Hg as ->; split; try done; vm_compute; done.
Qed.

(** The path-only evaluation is the conservative answer it is used as: on a
    valid resource path, what it allows every typed evaluation allows too, for
    files and for directories. *)
Theorem path_only_is_conservative policies path capability :
  NormalizePath path = path → filetypes.validResource path = true →
  Allowed (Evaluate policies path capability) = true →
  (∀ mode, Allowed (EvaluateTyped policies path capability mode) = true) ∧
  (∀ entryType, entryType = "file" ∨ entryType = "directory" →
     Allowed (entry_Decision (EvaluateEntry policies path capability entryType)) = true).
Proof.
  intros Hp Hvr Ha.
  assert (∀ entryType, entryType = "file" ∨ entryType = "directory" →
     Allowed (entry_Decision (EvaluateEntry policies path capability entryType)) = true) as Hentry.
  { intros et Het. destruct (decide (typed_path policies path)) as [[Ht [f Hf]]|Hn];
      [|by rewrite entry_fallback, Hp].
    rewrite Hp in Ht, Hf. apply allowed_iff in Ha as (Hd & id & r & n & Hin & Hg). rewrite Hp in Hg.
    apply not_true_iff_false in Hd. rewrite denied_iff, Hp in Hd. destruct Hg as (Hm & Hft & Hnd & Hgr).
    assert (covers (Path r) path) as Hcov by (apply rule_match_covers; by rewrite Hm).
    destruct (compiled_caps_valid policies path f id r (norm capability)) as [Hvc Hnotdeny]; [done..|].
    assert (filetypes.well_formed_request path capability et) as Hwf by done.
    destruct (filter_reads policies path f capability et) as [Hfd Hfa]; [done..|].
    assert (filetypes.Denied (filetypes.Evaluate (Some f) path capability et) = false) as Hfd0.
    { apply not_true_iff_false. rewrite Hfd. intros (id' & r' & Hin' & Hc' & Hd' & _). apply Hd. by exists id', r'. }
    unfold EvaluateEntry. rewrite Hp, Ht, Hf. cbn [negb entry_Decision Allowed]. rewrite Hfd0, andb_true_r.
    apply Hfa. split; [|done]. exists id, r. split; [done|]. split_and!; try done. by rewrite Hft. }
  split; [|done]. intros mode. destruct (decide (typed_path policies path)) as [[Ht Hc]|Hn].
  - destruct (EvaluateTyped_entries policies path capability mode) as [_ ->]; [done..|].
    rewrite !Hentry by auto. by destruct mode.
  - by rewrite typed_fallback, Hp.
Qed.
End Typed.

(** * Whole-mount compatibility *)

(** A path written with a plain first and last byte, other than one of the old
    workers paths, is its own normal form. *)
Lemma NormalizePath_id a s c :
  plain_byte a → a ≠ slash → a ≠ "w"%char → last_byte (String a s) = Some c → plain_byte c → c ≠ slash →
  NormalizePath (String a s) = String a s.
Proof.
  intros Ha Has Haw Hl Hc Hcs. unfold NormalizePath. rewrite (TrimSpace_id a s c) by done.
  rewrite trimmed_Trim by (split; [intros t; congruence|rewrite Hl; congruence]).
  rewrite bool_decide_eq_false_2 by congruence.
  unfold HasPrefix. cbn [StripPrefix]. rewrite decide_False by congruence. done.
Qed.

(** The segments of a whole-mount file rule. *)
Lemma mount_scoped_segments path :
  isMountScopedFileRule path = true ↔ ∃ node mount, segments path = ["nodes"; node; "files"; "mounts"; mount].
Proof.
  unfold isMountScopedFileRule. fold (segments path).
  destruct (segments path) as [|s0 [|s1 [|s2 [|s3 [|s4 [|]]]]]]; try (split; [done|by intros (? & ? & ?)]).
  rewrite !andb_true_iff, !bool_decide_eq_true. naive_solver.
Qed.

Lemma compatibility_segments r :
  isMountScopedFileRule (Path r) = true → segments (Path (compatibility r)) = segments (Path r) ++ [Recursive].
Proof.
  intros (node & mount & Hs)%mount_scoped_segments.
  assert (∃ rest, NormalizePath (Path r) = String "n" rest) as [rest Hn].
  { unfold segments in Hs. rewrite <-(Join_Split slash (NormalizePath (Path r))), Hs. by eexists. }
  unfold segments. cbn [compatibility Path]. rewrite Hn, append_cons, (NormalizePath_id _ _ "*"%char).
  - rewrite <-append_cons. change ("/" +++ Recursive) with (String slash Recursive). by rewrite Split_app.
  - done.
  - done.
  - done.
  - rewrite <-append_cons. by rewrite last_byte_app.
  - done.
  - done.
Qed.

Lemma seg_match_app_rec p t :
  filetypes.seg_match (p ++ [Recursive]) t → ∃ t1 t2, t = t1 ++ t2 ∧ filetypes.seg_match p t1.
Proof.
  revert t. induction p as [|s p IH]; intros t Hm; simpl in Hm; [exists [], t; split; [done|constructor]|].
  inversion Hm as [|?|? s' t' Hm'|? ? t' Hm']; subst; [by destruct p| |];
    destruct (IH _ Hm') as (t1 & t2 & -> & ?); eexists (_ :: t1), t2; (split; [done|]); by constructor.
Qed.

Lemma seg_match_prefix p t1 t2 :
  filetypes.seg_match p t1 →
  filetypes.seg_match p (t1 ++ t2) ∨ filetypes.seg_match (p ++ [Recursive]) (t1 ++ t2).
Proof.
  induction 1 as [|t|p s t ? [IH|IH]|s p t ? [IH|IH]]; simpl.
  - right. constructor.
  - left. constructor.
  - left. by constructor.
  - right. by constructor.
  - left. by constructor.
  - right. by constructor.
Qed.

(** A whole-mount rule reaches a path: the path lies in a mount the rule covers. *)
Definition mount_covers (pattern path : string) : Prop :=
  isMountScopedFileRule pattern = true ∧
  ∃ mount rest, segments path = mount ++ rest ∧ filetypes.seg_match (segments pattern) mount.

Lemma compatibility_covers r path :
  isMountScopedFileRule (Path r) = true →
  covers (Path r) path ∨ covers (Path (compatibility r)) path ↔ covers (Path r) path ∨ mount_covers (Path r) path.
Proof.
  intros Hm. unfold covers at 2, mount_covers. rewrite compatibility_segments by done. split.
  - intros [?|(t1 & t2 & ? & ?)%seg_match_app_rec]; [by left|right; eauto].
  - intros [?|(_ & t1 & t2 & Ht & H)]; [by left|]. rewrite Ht.
    apply (seg_match_prefix _ _ t2) in H as [?|?]; [left|by right]. unfold covers. by rewrite Ht.
Qed.

Lemma elem_of_expand_rules rs r' :
  r' ∈ expand_rules rs ↔
  ∃ r, r ∈ rs ∧ (r' = r ∨ (isMountScopedFileRule (Path r) = true ∧ r' = compatibility r)).
Proof.
  unfold expand_rules. revert r'. apply (foldl_inv (λ pre acc, ∀ r', r' ∈ acc ↔
    ∃ r, r ∈ pre ∧ (r' = r ∨ (isMountScopedFileRule (Path r) = true ∧ r' = compatibility r)))).
  - intros r'. setoid_rewrite elem_of_nil. naive_solver.
  - intros pre x acc IH r'. destruct (isMountScopedFileRule (Path x)) eqn:E;
      setoid_rewrite elem_of_app; setoid_rewrite list_elem_of_singleton; rewrite ?elem_of_app, IH, ?list_elem_of_singleton;
      naive_solver congruence.
Qed.

Lemma elem_of_all_expanded policies id r' :
  (id, r') ∈ all_rules (ExpandCompatibilityRules policies) ↔
  ∃ r, (id, r) ∈ all_rules policies ∧ (r' = r ∨ (isMountScopedFileRule (Path r) = true ∧ r' = compatibility r)).
Proof.
  unfold all_rules, ExpandCompatibilityRules. setoid_rewrite list_elem_of_bind. setoid_rewrite list_elem_of_fmap. split.
  - intros (p & (x & [= -> ->] & Hx) & (q & -> & Hq)). cbn [Rules ID] in *.
    apply elem_of_expand_rules in Hx as (r & Hr & Hor). exists r. split; [|done]. exists q. eauto.
  - intros (r & (q & (x & [= -> ->] & Hx) & Hq) & Hor).
    eexists. split; [|exists q; split; [reflexivity|done]]. cbn [Rules ID]. exists r'. split; [done|].
    apply elem_of_expand_rules. eauto.
Qed.

Section Compatibility.
Context {U : Unicode}.
Implicit Types (policies : list Policy) (path capability : string) (r : Rule).

(** A rule that differs from another only in its path has its effect wherever
    it covers. *)
Lemma expanded_covers policies path (Q : Rule → Prop) :
  (∀ r, Q (compatibility r) ↔ Q r) →
  (∃ id r, (id, r) ∈ all_rules (ExpandCompatibilityRules policies) ∧ covers (Path r) path ∧ Q r) ↔
  (∃ id r, (id, r) ∈ all_rules policies ∧ (covers (Path r) path ∨ mount_covers (Path r) path) ∧ Q r).
Proof.
  intros HQ. setoid_rewrite elem_of_all_expanded. split.
  - intros (id & r' & (r & Hin & [->|[Hm ->]]) & Hc & Hq); exists id, r; (split; [done|]).
    + eauto.
    + split; [|by apply HQ]. apply (compatibility_covers r path); auto.
  - intros (id & r & Hin & [Hc|Hc] & Hq); [exists id, r; eauto 6|]. pose proof (proj1 Hc) as Hm.
    destruct (proj2 (compatibility_covers r path Hm)) as [?|?]; [by right| |].
    + exists id, r. eauto 6.
    + exists id, (compatibility r). split_and!; [eauto|done|by apply HQ].
Qed.

(** After expansion a rule on a whole mount holds for everything in the
    mount, both when it grants and when it denies, and every other rule keeps
    exactly the paths it had. *)
Theorem expanded_evaluate_spec policies path capability :
  NormalizePath path = path →
  let reaches r := covers (Path r) path ∨ mount_covers (Path r) path in
  let d := Evaluate (ExpandCompatibilityRules policies) path capability in
  (Denied d = true ↔ ∃ id r, (id, r) ∈ all_rules policies ∧ reaches r ∧ "deny" ∈ capabilitySet (Capabilities r)) ∧
  (Allowed d = true ↔ Denied d = false ∧
     ∃ id r, (id, r) ∈ all_rules policies ∧ reaches r ∧ FileTypes r = None ∧
             ("deny" ∉ capabilitySet (Capabilities r)) ∧
             grants (capabilitySet (Capabilities r)) (norm capability) = true).
Proof.
  intros Hp. cbv zeta. rewrite denied_iff, allowed_iff, Hp. unfold rule_denies, rule_grants. split.
  - by apply (expanded_covers policies path (λ r, "deny" ∈ capabilitySet (Capabilities r))).
  - apply Morphisms_Prop.and_iff_morphism; [done|].
    rewrite <-(expanded_covers policies path (λ r, FileTypes r = None ∧ ("deny" ∉ capabilitySet (Capabilities r)) ∧
             grants (capabilitySet (Capabilities r)) (norm capability) = true)) by done.
    setoid_rewrite <-rule_match_covers. split.
    + intros (id & r & n & Hin & Hm & H). exists id, r. by rewrite Hm.
    + intros (id & r & Hin & Hm & H). destruct (rule_match (Path r) path) as [b n] eqn:E. simpl in Hm. subst b.
      by exists id, r, n.
Qed.
End Compatibility.
