(* ===== verification/RbacExamples.v ===== *)
(** Concrete policies: the theorems of FileTypesFacts.v, RbacFacts.v and
    RbacTyped.v applied where their hypotheses hold. *)
From S2P Require Import Prelude GoLib Base64 Json FileTypes FileTypesFacts Rbac RbacFacts RbacTyped.
From stdpp Require Import options.
Import rbac.
Local Open Scope Z_scope.
#[local] Existing Instance latin1_unicode.

(** A subject that may read and list a mount, change what is under docs, and is
    denied its secrets; archives are only listed. *)
Definition r_read : Rule :=
  {| Path := "nodes/n1/files/mounts/m1/**"; Capabilities := ["read"; "list"]; FileTypes := None; Visibility := ""; rule_NeedsApproval := [] |}.
Definition r_docs : Rule :=
  {| Path := "nodes/n1/files/mounts/m1/docs/**"; Capabilities := ["write"; "delete"]; FileTypes := None; Visibility := "";
     rule_NeedsApproval := ["delete"] |}.
Definition r_secret : Rule :=
  {| Path := "nodes/n1/files/mounts/m1/secret/**"; Capabilities := ["deny"]; FileTypes := None; Visibility := ""; rule_NeedsApproval := [] |}.
Definition zips : filetypes.Selector :=
  {| filetypes.Classes := []; filetypes.Extensions := ["zip"]; filetypes.Names := [] |}.
Definition r_zip : Rule :=
  {| Path := "nodes/n1/files/mounts/m1/**"; Capabilities := ["deny"; "read"]; FileTypes := Some zips; Visibility := "visible";
     rule_NeedsApproval := [] |}.
Definition p_read : Policy := {| ID := "p1"; Name := "read"; Rules := [r_read; r_secret] |}.
Definition p_docs : Policy := {| ID := "p2"; Name := "docs"; Rules := [r_docs] |}.
Definition p_zip : Policy := {| ID := "p3"; Name := "zip"; Rules := [r_zip] |}.

Definition mount_path : string := "nodes/n1/files/mounts/m1".
Definition doc_path : string := "nodes/n1/files/mounts/m1/docs/a.txt".
Definition secret_path : string := "nodes/n1/files/mounts/m1/secret/key".

Example approval_example :
  (NeedsApproval (Evaluate [p_read; p_docs] doc_path "delete"), PolicyIDs (Evaluate [p_read; p_docs] doc_path "delete"),
   Denied (Evaluate [p_read; p_docs] secret_path "read")) = (true, ["p2"], true).
Proof. vm_compute. reflexivity. Qed.

Lemma evaluate_extensional_witness :
  Evaluate [p_read; p_docs] doc_path "read" = Evaluate [p_docs; p_read; p_docs] doc_path "read".
Proof.
  apply evaluate_extensional. intros ir. unfold all_rules. simpl. rewrite !elem_of_cons, !elem_of_nil. tauto.
Defined.

Definition filter_of (l : list filetypes.Rule) : filetypes.Filter :=
  match filetypes.Compile {| filetypes.Version := 1; filetypes.Rules := l |} with
  | Ok f => f
  | Err _ => {| filetypes.rules := [] |}
  end.
Definition f1 : filetypes.Filter := filter_of [context_rule "p1" r_read; context_rule "p3" r_zip].
Definition f2 : filetypes.Filter := filter_of [context_rule "p3" r_zip; context_rule "p1" r_read].

Lemma filter_order_irrelevant_witness :
  filetypes.Evaluate (Some f1) doc_path "read" "file" = filetypes.Evaluate (Some f2) doc_path "read" "file".
Proof. apply filter_order_irrelevant. vm_compute. apply perm_swap. Defined.

Lemma selector_matches_iff_witness :
  filetypes.Selector_Matches zips "a.ZIP" true = true ↔ true = true ∧ entry_name "a.ZIP" ∧ selects zips "a.ZIP".
Proof. apply selector_matches_iff. vm_compute. reflexivity. Defined.

Lemma compile_sound_witness :
  filetypes.Version {| filetypes.Version := 1; filetypes.Rules := [context_rule "p3" r_zip] |} = 1 ∧
  filetypes.zlen [context_rule "p3" r_zip] ≤ filetypes.MaxContextRules ∧
  len (filetypes.json_context {| filetypes.Version := 1; filetypes.Rules := [context_rule "p3" r_zip] |}) ≤ filetypes.MaxContextBytes ∧
  Forall2 compiled_from [context_rule "p3" r_zip] (filetypes.rules (filter_of [context_rule "p3" r_zip])).
Proof.
  apply (compile_sound {| filetypes.Version := 1; filetypes.Rules := [context_rule "p3" r_zip] |}). vm_compute. reflexivity.
Defined.

Lemma deny_reaches_scope_iff_witness :
  denyReachesScope ["nodes"; "*"; "x"] ["nodes"; "n1"] = true ↔
  ∃ rest, filetypes.seg_match ["nodes"; "*"; "x"] (["nodes"; "n1"] ++ rest).
Proof. apply deny_reaches_scope_iff; [done|]. rewrite !not_elem_of_cons. split_and!; [done|done|apply not_elem_of_nil]. Defined.

Lemma denies_within_sound_witness : Denied (Evaluate [p_docs] doc_path "read") = false.
Proof.
  apply (denies_within_sound [p_docs] mount_path doc_path "read").
  - vm_compute. reflexivity.
  - vm_compute. reflexivity.
  - right. exists "docs/a.txt". reflexivity.
  - vm_compute. reflexivity.
Defined.

Definition f_zip : filetypes.Filter := default {| filetypes.rules := [] |} (compileTyped [p_read; p_zip] doc_path).

Lemma evaluate_entry_spec_witness :
  Allowed (entry_Decision (EvaluateEntry [p_read; p_zip] doc_path "read" "file")) = true ↔
  filetypes.well_formed_request doc_path "read" "file" ∧
  (∃ id r, (id, r) ∈ all_rules [p_read; p_zip] ∧ entry_allows doc_path (norm "read") "file" r) ∧
  ¬ (∃ id r, (id, r) ∈ all_rules [p_read; p_zip] ∧ entry_denies doc_path (norm "read") "file" r).
Proof. apply (evaluate_entry_spec _ _ f_zip); vm_compute; reflexivity. Defined.

Lemma typed_modes_bracket_witness :
  let entry := entry_Decision (EvaluateEntry [p_read; p_zip] doc_path "read" "file") in
  let every := EvaluateTyped [p_read; p_zip] doc_path "read" EveryEntry in
  let filtered := EvaluateTyped [p_read; p_zip] doc_path "read" NodeFiltered in
  (Allowed every = true → Allowed entry = true) ∧ (Allowed entry = true → Allowed filtered = true) ∧
  (Denied entry = true → Denied every = true) ∧ (Denied filtered = true → Denied entry = true).
Proof. apply typed_modes_bracket. left. reflexivity. Defined.

Lemma untyped_deny_wins_witness :
  Allowed (Evaluate [p_read; p_zip] secret_path "read") = false ∧
  (∀ mode, Allowed (EvaluateTyped [p_read; p_zip] secret_path "read" mode) = false) ∧
  (∀ entryType, Allowed (entry_Decision (EvaluateEntry [p_read; p_zip] secret_path "read" entryType)) = false).
Proof.
  apply untyped_deny_wins; [vm_compute; reflexivity|]. exists "p1", r_secret. split_and!.
  - unfold all_rules. simpl. right. left.
  - reflexivity.
  - split; [apply rule_match_covers; vm_compute; reflexivity|vm_compute; reflexivity].
Defined.

Lemma path_only_is_conservative_witness :
  (∀ mode, Allowed (EvaluateTyped [p_read; p_docs] doc_path "update" mode) = true) ∧
  (∀ entryType, entryType = "file" ∨ entryType = "directory" →
     Allowed (entry_Decision (EvaluateEntry [p_read; p_docs] doc_path "update" entryType)) = true).
Proof. apply path_only_is_conservative; vm_compute; reflexivity. Defined.

(** A rule on a whole mount, written before paths below a mount existed. *)
Definition p_mount : Policy :=
  {| ID := "p4"; Name := "mount";
     Rules := [{| Path := mount_path; Capabilities := ["read"]; FileTypes := None; Visibility := ""; rule_NeedsApproval := [] |}] |}.

Example expansion_example :
  (Allowed (Evaluate [p_mount] doc_path "read"), Allowed (Evaluate (ExpandCompatibilityRules [p_mount]) doc_path "read")) = (false, true).
Proof. vm_compute. reflexivity. Qed.

Lemma expanded_evaluate_spec_witness :
  let reaches r := covers (Path r) doc_path ∨ mount_covers (Path r) doc_path in
  let d := Evaluate (ExpandCompatibilityRules [p_mount]) doc_path "read" in
  (Denied d = true ↔ ∃ id r, (id, r) ∈ all_rules [p_mount] ∧ reaches r ∧ "deny" ∈ capabilitySet (Capabilities r)) ∧
  (Allowed d = true ↔ Denied d = false ∧
     ∃ id r, (id, r) ∈ all_rules [p_mount] ∧ reaches r ∧ FileTypes r = None ∧
             ("deny" ∉ capabilitySet (Capabilities r)) ∧ grants (capabilitySet (Capabilities r)) (norm "read") = true).
Proof. apply expanded_evaluate_spec. vm_compute. reflexivity. Defined.
