(* ===== verification/Entities.v ===== *)
(** Package entities (node/backend/internal/entities): the records the node
    persists. A field [F] of the Go struct [T] is the projection [T_F], the zero
    value of [T] is [T_zero]. A [time.Time] is its instant in nanoseconds since
    the Unix epoch, a pointer is an option and a float64 is its bit pattern. *)
From S2P Require Import Prelude.
From stdpp Require Import options.
Local Open Scope Z_scope.

Definition time := Z.
Definition float64 := Z.

(** The zero [time.Time], the first instant of year 1. *)
Definition zero_time : time := -62135596800000000000.

Record TrashConfig := mkTrashConfig {
  TrashConfig_Enabled : bool;
  TrashConfig_RetentionDays : Z;
  TrashConfig_MaxBytes : Z;
}.
#[global] Instance TrashConfig_eta : Eta TrashConfig := λ r, mkTrashConfig
  (TrashConfig_Enabled r) (TrashConfig_RetentionDays r) (TrashConfig_MaxBytes r).
Definition TrashConfig_zero : TrashConfig := mkTrashConfig
  false 0 0.

Record Mount := mkMount {
  Mount_CanaryPaths : list string;
  Mount_HiddenPatterns : list string;
  Mount_Trash : option TrashConfig;
  Mount_ID : string;
  Mount_Name : string;
  Mount_LocalPath : string;
  Mount_TargetType : string;
  Mount_Mode : string;
  Mount_Published : bool;
  Mount_Enabled : bool;
  Mount_State : string;
  Mount_Readable : bool;
  Mount_Writable : bool;
  Mount_ModeBits : string;
  Mount_CreatedAt : time;
  Mount_UpdatedAt : time;
}.
#[global] Instance Mount_eta : Eta Mount := λ r, mkMount
  (Mount_CanaryPaths r) (Mount_HiddenPatterns r) (Mount_Trash r) (Mount_ID r) (Mount_Name r)
  (Mount_LocalPath r) (Mount_TargetType r) (Mount_Mode r) (Mount_Published r) (Mount_Enabled r)
  (Mount_State r) (Mount_Readable r) (Mount_Writable r) (Mount_ModeBits r) (Mount_CreatedAt r)
  (Mount_UpdatedAt r).
Definition Mount_zero : Mount := mkMount
  [] [] None "" "" "" "" "" false false "" false false "" zero_time zero_time.

Record TrashItem := mkTrashItem {
  TrashItem_ID : string;
  TrashItem_MountID : string;
  TrashItem_Path : string;
  TrashItem_Type : string;
  TrashItem_Size : Z;
  TrashItem_State : string;
  TrashItem_DeletedAt : time;
  TrashItem_ExpiresAt : time;
}.
#[global] Instance TrashItem_eta : Eta TrashItem := λ r, mkTrashItem
  (TrashItem_ID r) (TrashItem_MountID r) (TrashItem_Path r) (TrashItem_Type r) (TrashItem_Size r)
  (TrashItem_State r) (TrashItem_DeletedAt r) (TrashItem_ExpiresAt r).
Definition TrashItem_zero : TrashItem := mkTrashItem
  "" "" "" "" 0 "" zero_time zero_time.

Record Job := mkJob {
  Job_ParentJobID : string;
  Job_DestructivePlanID : string;
  Job_SignedAuthBound : bool;
  Job_RequiresSignedAuth : bool;
  Job_SignedAuthActorID : string;
  Job_SignedAuthCredentialID : string;
  Job_SourcesOmitted : Z;
  Job_ID : string;
  Job_Type : string;
  Job_State : string;
  Job_Phase : string;
  Job_MountID : string;
  Job_PeerNodeID : string;
  Job_SourceGrantID : string;
  Job_DestinationGrantID : string;
  Job_SourceETag : string;
  Job_SourcePath : string;
  Job_Destination : string;
  Job_BytesTotal : Z;
  Job_BytesCompleted : Z;
  Job_BytesPerSecond : float64;
  Job_ETASeconds : option Z;
  Job_ETAConfidence : string;
  Job_FilesTotal : Z;
  Job_FilesCompleted : Z;
  Job_FilesFailed : Z;
  Job_ConflictPolicy : string;
  Job_SourceChangePolicy : string;
  Job_VerifyChecksum : bool;
  Job_BandwidthLimit : Z;
  Job_MaxParallelFiles : Z;
  Job_MaxParallelChunks : Z;
  Job_Overwrite : bool;
  Job_Recursive : bool;
  Job_Attempt : Z;
  Job_MaxAttempts : Z;
  Job_Error : string;
  Job_CorrelationID : string;
  Job_CreatedAt : time;
  Job_UpdatedAt : time;
  Job_StartedAt : option time;
  Job_NextAttemptAt : option time;
  Job_CompletedAt : option time;
}.
#[global] Instance Job_eta : Eta Job := λ r, mkJob
  (Job_ParentJobID r) (Job_DestructivePlanID r) (Job_SignedAuthBound r) (Job_RequiresSignedAuth r)
  (Job_SignedAuthActorID r) (Job_SignedAuthCredentialID r) (Job_SourcesOmitted r) (Job_ID r) (Job_Type r)
  (Job_State r) (Job_Phase r) (Job_MountID r) (Job_PeerNodeID r) (Job_SourceGrantID r)
  (Job_DestinationGrantID r) (Job_SourceETag r) (Job_SourcePath r) (Job_Destination r) (Job_BytesTotal r)
  (Job_BytesCompleted r) (Job_BytesPerSecond r) (Job_ETASeconds r) (Job_ETAConfidence r) (Job_FilesTotal r)
  (Job_FilesCompleted r) (Job_FilesFailed r) (Job_ConflictPolicy r) (Job_SourceChangePolicy r)
  (Job_VerifyChecksum r) (Job_BandwidthLimit r) (Job_MaxParallelFiles r) (Job_MaxParallelChunks r)
  (Job_Overwrite r) (Job_Recursive r) (Job_Attempt r) (Job_MaxAttempts r) (Job_Error r) (Job_CorrelationID r)
  (Job_CreatedAt r) (Job_UpdatedAt r) (Job_StartedAt r) (Job_NextAttemptAt r) (Job_CompletedAt r).
Definition Job_zero : Job := mkJob
  "" "" false false "" "" 0 "" "" "" "" "" "" "" "" "" "" "" 0 0 0 None "" 0 0 0 "" "" false 0 0 0 false
  false 0 0 "" "" zero_time zero_time None None None.

Record JobItem := mkJobItem {
  JobItem_JobID : string;
  JobItem_Ordinal : Z;
  JobItem_RelativePath : string;
  JobItem_SourcePath : string;
  JobItem_DestinationPath : string;
  JobItem_Type : string;
  JobItem_Size : Z;
  JobItem_ModifiedAt : time;
  JobItem_Checksum : string;
  JobItem_SourceRoot : bool;
  JobItem_SourceCleanupState : string;
  JobItem_Action : string;
  JobItem_State : string;
  JobItem_BytesCompleted : Z;
  JobItem_Attempt : Z;
  JobItem_Error : string;
  JobItem_UpdatedAt : time;
}.
#[global] Instance JobItem_eta : Eta JobItem := λ r, mkJobItem
  (JobItem_JobID r) (JobItem_Ordinal r) (JobItem_RelativePath r) (JobItem_SourcePath r)
  (JobItem_DestinationPath r) (JobItem_Type r) (JobItem_Size r) (JobItem_ModifiedAt r) (JobItem_Checksum r)
  (JobItem_SourceRoot r) (JobItem_SourceCleanupState r) (JobItem_Action r) (JobItem_State r)
  (JobItem_BytesCompleted r) (JobItem_Attempt r) (JobItem_Error r) (JobItem_UpdatedAt r).
Definition JobItem_zero : JobItem := mkJobItem
  "" 0 "" "" "" "" 0 zero_time "" false "" "" "" 0 0 "" zero_time.

Record JobEvent := mkJobEvent {
  JobEvent_ID : Z;
  JobEvent_JobID : string;
  JobEvent_Type : string;
  JobEvent_State : string;
  JobEvent_Phase : string;
  JobEvent_BytesTotal : Z;
  JobEvent_BytesCompleted : Z;
  JobEvent_BytesPerSecond : float64;
  JobEvent_ETASeconds : option Z;
  JobEvent_ETAConfidence : string;
  JobEvent_FilesTotal : Z;
  JobEvent_FilesCompleted : Z;
  JobEvent_FilesFailed : Z;
  JobEvent_Message : string;
  JobEvent_CorrelationID : string;
  JobEvent_CreatedAt : time;
}.
#[global] Instance JobEvent_eta : Eta JobEvent := λ r, mkJobEvent
  (JobEvent_ID r) (JobEvent_JobID r) (JobEvent_Type r) (JobEvent_State r) (JobEvent_Phase r)
  (JobEvent_BytesTotal r) (JobEvent_BytesCompleted r) (JobEvent_BytesPerSecond r) (JobEvent_ETASeconds r)
  (JobEvent_ETAConfidence r) (JobEvent_FilesTotal r) (JobEvent_FilesCompleted r) (JobEvent_FilesFailed r)
  (JobEvent_Message r) (JobEvent_CorrelationID r) (JobEvent_CreatedAt r).
Definition JobEvent_zero : JobEvent := mkJobEvent
  0 "" "" "" "" 0 0 0 None "" 0 0 0 "" "" zero_time.

Record OperationalTokenState := mkOperationalTokenState {
  OperationalTokenState_StagedHash : string;
  OperationalTokenState_ActiveHash : string;
  OperationalTokenState_EnvTokenDisabled : bool;
  OperationalTokenState_UpdatedAt : time;
  OperationalTokenState_CorrelationID : string;
}.
#[global] Instance OperationalTokenState_eta : Eta OperationalTokenState := λ r, mkOperationalTokenState
  (OperationalTokenState_StagedHash r) (OperationalTokenState_ActiveHash r)
  (OperationalTokenState_EnvTokenDisabled r) (OperationalTokenState_UpdatedAt r)
  (OperationalTokenState_CorrelationID r).
Definition OperationalTokenState_zero : OperationalTokenState := mkOperationalTokenState
  "" "" false zero_time "".

Record PairingInvite := mkPairingInvite {
  PairingInvite_ID : string;
  PairingInvite_TargetNodeID : string;
  PairingInvite_TransferMode : string;
  PairingInvite_IssuerRole : string;
  PairingInvite_InviteeRole : string;
  PairingInvite_Purpose : string;
  PairingInvite_ClusterID : string;
  PairingInvite_OneTime : bool;
  PairingInvite_Status : string;
  PairingInvite_ExpiresAt : time;
  PairingInvite_CreatedAt : time;
  PairingInvite_RevokedAt : option time;
  PairingInvite_CorrelationID : string;
}.
#[global] Instance PairingInvite_eta : Eta PairingInvite := λ r, mkPairingInvite
  (PairingInvite_ID r) (PairingInvite_TargetNodeID r) (PairingInvite_TransferMode r)
  (PairingInvite_IssuerRole r) (PairingInvite_InviteeRole r) (PairingInvite_Purpose r)
  (PairingInvite_ClusterID r) (PairingInvite_OneTime r) (PairingInvite_Status r) (PairingInvite_ExpiresAt r)
  (PairingInvite_CreatedAt r) (PairingInvite_RevokedAt r) (PairingInvite_CorrelationID r).
Definition PairingInvite_zero : PairingInvite := mkPairingInvite
  "" "" "" "" "" "" "" false "" zero_time zero_time None "".

Record PairingRequest := mkPairingRequest {
  PairingRequest_ID : string;
  PairingRequest_InviteID : string;
  PairingRequest_IssuerNodeID : string;
  PairingRequest_IssuerName : string;
  PairingRequest_IssuerFingerprint : string;
  PairingRequest_IssuerIdentityEpoch : Z;
  PairingRequest_IssuerEndpoint : string;
  PairingRequest_IssuerMTLSEndpoint : string;
  PairingRequest_TransferMode : string;
  PairingRequest_IssuerRole : string;
  PairingRequest_InviteeRole : string;
  PairingRequest_Purpose : string;
  PairingRequest_ClusterID : string;
  PairingRequest_Status : string;
  PairingRequest_ExpiresAt : time;
  PairingRequest_CreatedAt : time;
  PairingRequest_CorrelationID : string;
}.
#[global] Instance PairingRequest_eta : Eta PairingRequest := λ r, mkPairingRequest
  (PairingRequest_ID r) (PairingRequest_InviteID r) (PairingRequest_IssuerNodeID r)
  (PairingRequest_IssuerName r) (PairingRequest_IssuerFingerprint r) (PairingRequest_IssuerIdentityEpoch r)
  (PairingRequest_IssuerEndpoint r) (PairingRequest_IssuerMTLSEndpoint r) (PairingRequest_TransferMode r)
  (PairingRequest_IssuerRole r) (PairingRequest_InviteeRole r) (PairingRequest_Purpose r)
  (PairingRequest_ClusterID r) (PairingRequest_Status r) (PairingRequest_ExpiresAt r)
  (PairingRequest_CreatedAt r) (PairingRequest_CorrelationID r).
Definition PairingRequest_zero : PairingRequest := mkPairingRequest
  "" "" "" "" "" 0 "" "" "" "" "" "" "" "" zero_time zero_time "".

Record Peer := mkPeer {
  Peer_NodeID : string;
  Peer_Name : string;
  Peer_Fingerprint : string;
  Peer_PreviousFingerprint : string;
  Peer_IdentityEpoch : Z;
  Peer_Endpoint : string;
  Peer_MTLSEndpoint : string;
  Peer_TransferMode : string;
  Peer_LocalRole : string;
  Peer_RemoteRole : string;
  Peer_ClusterID : string;
  Peer_State : string;
  Peer_LastSeenAt : option time;
  Peer_ConsecutiveFailures : Z;
  Peer_TrustedAt : time;
  Peer_CorrelationID : string;
}.
#[global] Instance Peer_eta : Eta Peer := λ r, mkPeer
  (Peer_NodeID r) (Peer_Name r) (Peer_Fingerprint r) (Peer_PreviousFingerprint r) (Peer_IdentityEpoch r)
  (Peer_Endpoint r) (Peer_MTLSEndpoint r) (Peer_TransferMode r) (Peer_LocalRole r) (Peer_RemoteRole r)
  (Peer_ClusterID r) (Peer_State r) (Peer_LastSeenAt r) (Peer_ConsecutiveFailures r) (Peer_TrustedAt r)
  (Peer_CorrelationID r).
Definition Peer_zero : Peer := mkPeer
  "" "" "" "" 0 "" "" "" "" "" "" "" None 0 zero_time "".

Record GrantPermissions := mkGrantPermissions {
  GrantPermissions_Read : bool;
  GrantPermissions_Write : bool;
  GrantPermissions_Delete : bool;
  GrantPermissions_Rename : bool;
}.
#[global] Instance GrantPermissions_eta : Eta GrantPermissions := λ r, mkGrantPermissions
  (GrantPermissions_Read r) (GrantPermissions_Write r) (GrantPermissions_Delete r)
  (GrantPermissions_Rename r).
Definition GrantPermissions_zero : GrantPermissions := mkGrantPermissions
  false false false false.

Record TransferPathGrant := mkTransferPathGrant {
  TransferPathGrant_ConfiguredEnabled : bool;
  TransferPathGrant_InactiveReason : string;
  TransferPathGrant_ID : string;
  TransferPathGrant_PeerNodeID : string;
  TransferPathGrant_MountID : string;
  TransferPathGrant_Path : string;
  TransferPathGrant_Direction : string;
  TransferPathGrant_Permissions : GrantPermissions;
  TransferPathGrant_ConflictPolicies : list string;
  TransferPathGrant_Exclude : list string;
  TransferPathGrant_VisibleToPeer : bool;
  TransferPathGrant_Enabled : bool;
  TransferPathGrant_CorrelationID : string;
  TransferPathGrant_CreatedAt : time;
  TransferPathGrant_UpdatedAt : time;
}.
#[global] Instance TransferPathGrant_eta : Eta TransferPathGrant := λ r, mkTransferPathGrant
  (TransferPathGrant_ConfiguredEnabled r) (TransferPathGrant_InactiveReason r) (TransferPathGrant_ID r)
  (TransferPathGrant_PeerNodeID r) (TransferPathGrant_MountID r) (TransferPathGrant_Path r)
  (TransferPathGrant_Direction r) (TransferPathGrant_Permissions r) (TransferPathGrant_ConflictPolicies r)
  (TransferPathGrant_Exclude r) (TransferPathGrant_VisibleToPeer r) (TransferPathGrant_Enabled r)
  (TransferPathGrant_CorrelationID r) (TransferPathGrant_CreatedAt r) (TransferPathGrant_UpdatedAt r).
Definition TransferPathGrant_zero : TransferPathGrant := mkTransferPathGrant
  false "" "" "" "" "" "" GrantPermissions_zero [] [] false false "" zero_time zero_time.

Record UploadSession := mkUploadSession {
  UploadSession_AuthorizationActorID : string;
  UploadSession_AuthorizationCredentialID : string;
  UploadSession_AuthorizationRevision : Z;
  UploadSession_State : string;
  UploadSession_CompletedAt : option time;
  UploadSession_PublishChecksum : string;
  UploadSession_ID : string;
  UploadSession_MountID : string;
  UploadSession_Destination : string;
  UploadSession_Size : Z;
  UploadSession_Offset : Z;
  UploadSession_Overwrite : bool;
  UploadSession_Checksum : string;
  UploadSession_ChunkSize : Z;
  UploadSession_CorrelationID : string;
  UploadSession_CreatedAt : time;
  UploadSession_UpdatedAt : time;
  UploadSession_ExpiresAt : time;
}.
#[global] Instance UploadSession_eta : Eta UploadSession := λ r, mkUploadSession
  (UploadSession_AuthorizationActorID r) (UploadSession_AuthorizationCredentialID r)
  (UploadSession_AuthorizationRevision r) (UploadSession_State r) (UploadSession_CompletedAt r)
  (UploadSession_PublishChecksum r) (UploadSession_ID r) (UploadSession_MountID r)
  (UploadSession_Destination r) (UploadSession_Size r) (UploadSession_Offset r) (UploadSession_Overwrite r)
  (UploadSession_Checksum r) (UploadSession_ChunkSize r) (UploadSession_CorrelationID r)
  (UploadSession_CreatedAt r) (UploadSession_UpdatedAt r) (UploadSession_ExpiresAt r).
Definition UploadSession_zero : UploadSession := mkUploadSession
  "" "" 0 "" None "" "" "" "" 0 0 false "" 0 "" zero_time zero_time zero_time.

Record DestructivePlan := mkDestructivePlan {
  DestructivePlan_ID : string;
  DestructivePlan_TokenHash : string;
  DestructivePlan_SubjectType : string;
  DestructivePlan_SubjectID : string;
  DestructivePlan_Operation : string;
  DestructivePlan_MountID : string;
  DestructivePlan_Source : string;
  DestructivePlan_Destination : string;
  DestructivePlan_Overwrite : bool;
  DestructivePlan_DestinationExists : bool;
  DestructivePlan_TreeDigest : string;
  DestructivePlan_DestinationDigest : string;
  DestructivePlan_CreatedAt : time;
  DestructivePlan_ExpiresAt : time;
  DestructivePlan_ConsumedJobID : string;
  DestructivePlan_IdempotencyKey : string;
  DestructivePlan_RequestHash : string;
}.
#[global] Instance DestructivePlan_eta : Eta DestructivePlan := λ r, mkDestructivePlan
  (DestructivePlan_ID r) (DestructivePlan_TokenHash r) (DestructivePlan_SubjectType r)
  (DestructivePlan_SubjectID r) (DestructivePlan_Operation r) (DestructivePlan_MountID r)
  (DestructivePlan_Source r) (DestructivePlan_Destination r) (DestructivePlan_Overwrite r)
  (DestructivePlan_DestinationExists r) (DestructivePlan_TreeDigest r) (DestructivePlan_DestinationDigest r)
  (DestructivePlan_CreatedAt r) (DestructivePlan_ExpiresAt r) (DestructivePlan_ConsumedJobID r)
  (DestructivePlan_IdempotencyKey r) (DestructivePlan_RequestHash r).
Definition DestructivePlan_zero : DestructivePlan := mkDestructivePlan
  "" "" "" "" "" "" "" "" false false "" "" zero_time zero_time "" "" "".

Record MovePlanBinding := mkMovePlanBinding {
  MovePlanBinding_PlanID : string;
  MovePlanBinding_SubjectType : string;
  MovePlanBinding_TokenHash : string;
  MovePlanBinding_Digest : string;
  MovePlanBinding_Now : time;
}.
#[global] Instance MovePlanBinding_eta : Eta MovePlanBinding := λ r, mkMovePlanBinding
  (MovePlanBinding_PlanID r) (MovePlanBinding_SubjectType r) (MovePlanBinding_TokenHash r)
  (MovePlanBinding_Digest r) (MovePlanBinding_Now r).
Definition MovePlanBinding_zero : MovePlanBinding := mkMovePlanBinding
  "" "" "" "" zero_time.

Record ManagedTrust := mkManagedTrust {
  ManagedTrust_RootPin : string;
  ManagedTrust_Bundle : string;
  ManagedTrust_APICertPEM : string;
  ManagedTrust_APIKey : string;
  ManagedTrust_OperationalHash : string;
  ManagedTrust_PendingKey : string;
  ManagedTrust_EnrolledAt : time;
  ManagedTrust_UpdatedAt : time;
}.
#[global] Instance ManagedTrust_eta : Eta ManagedTrust := λ r, mkManagedTrust
  (ManagedTrust_RootPin r) (ManagedTrust_Bundle r) (ManagedTrust_APICertPEM r) (ManagedTrust_APIKey r)
  (ManagedTrust_OperationalHash r) (ManagedTrust_PendingKey r) (ManagedTrust_EnrolledAt r)
  (ManagedTrust_UpdatedAt r).
Definition ManagedTrust_zero : ManagedTrust := mkManagedTrust
  "" "" "" "" "" "" zero_time zero_time.

(** [entities.TrustedPeerState]: whether a peer state authorizes traffic. *)
Definition TrustedPeerState (state : string) : bool :=
  bool_decide (state ∈ ["trusted"; "unknown"; "online"; "offline"; "degraded"]).
Definition PeerStateRevokedByPeer : string := "revoked_by_peer".
