(* ===== verification/SignedAuth.v ===== *)
(** Package signedauth (control/internal/signedauth, and the identical copy
    node/backend/internal/signedauth): the signed, short-lived authorization a
    Control Tower issues and a node verifies. SHA-256 and Ed25519 are the class
    [Crypto]; the envelope, its JSON and its base64 are modelled to the byte. *)
From S2P Require Import Prelude GoLib Base64 Json FileTypes Entities.
From stdpp Require Import options.
Local Open Scope Z_scope.

(** Packages crypto/sha256 and crypto/ed25519, and the laws of theirs that the
    package relies on. Keys, digests and signatures are byte strings. *)
Class Crypto := {
  sha256_Sum : string → string;
  ed25519_Public : string → string;
  ed25519_Sign : string → string → string;
  ed25519_Verify : string → string → string → bool;
}.
Definition PrivateKeySize : Z := 64.
Definition PublicKeySize : Z := 32.
Definition SignatureSize : Z := 64.
Class CryptoOk (C : Crypto) : Prop := {
  sha256_size : ∀ m, len (sha256_Sum m) = 32;
  public_size : ∀ k, len k = PrivateKeySize → len (ed25519_Public k) = PublicKeySize;
  signature_size : ∀ k m, len k = PrivateKeySize → len (ed25519_Sign k m) = SignatureSize;
  verify_sign : ∀ k m, len k = PrivateKeySize → ed25519_Verify (ed25519_Public k) m (ed25519_Sign k m) = true;
}.

Module signedauth.

(** * signedauth.go: data *)

Definition Version : Z := 1.
Definition second : Z := 1000000000.
Definition MaxLifetime : Z := 30 * second.
Definition maxPayloadBytes : Z := filetypes.MaxContextBytes + 8192.
Definition domain : string := "jolt-signed-authorization-v1" +++ String NUL "".
Definition ErrInvalid : error := errors_New "invalid signed authorization".

Record Binding := mkBinding {
  ActorID : string;
  CredentialID : string;
  Operation : string;
  RequestID : string;
  SourceNodeID : string;
  SourceGrantID : string;
  SourceMountID : string;
  SourceRoot : string;
  DestinationNodeID : string;
  DestinationGrantID : string;
  DestinationMountID : string;
  DestinationRoot : string;
  PlanID : string;
  JobOptionsDigest : string;
}.
#[global] Instance Binding_eta : Eta Binding := λ b,
  mkBinding (ActorID b) (CredentialID b) (Operation b) (RequestID b) (SourceNodeID b) (SourceGrantID b)
    (SourceMountID b) (SourceRoot b) (DestinationNodeID b) (DestinationGrantID b) (DestinationMountID b)
    (DestinationRoot b) (PlanID b) (JobOptionsDigest b).
#[global] Instance Binding_eq_dec : EqDecision Binding.
Proof. solve_decision. Defined.
Definition Binding_zero : Binding := mkBinding "" "" "" "" "" "" "" "" "" "" "" "" "" "".

Record Claims := mkClaims {
  claims_Version : Z;
  KeyID : string;
  claims_Binding : Binding;
  IssuedAt : Z;
  ExpiresAt : Z;
  claims_Context : string;
}.
#[global] Instance Claims_eta : Eta Claims := λ c,
  mkClaims (claims_Version c) (KeyID c) (claims_Binding c) (IssuedAt c) (ExpiresAt c) (claims_Context c).
Definition Claims_zero : Claims := mkClaims 0 "" Binding_zero 0 0 "".

(** * Validation *)

Definition identifier (value : string) (required : bool) : bool :=
  if value =s "" then negb required
  else if (128 <? len value) || negb (ValidString value) || (TrimSpace value ≠s value) then false
  else forallb (λ rw : Z * nat, negb ((rw.1 <? 33) || (rw.1 =? 127) || ContainsRune "/\\?#" rw.1)) (runes value).
Definition ValidKeyID (value : string) : bool := identifier value true.

Definition endpoint (node grant mount root : string) : bool :=
  if node =s "" then (grant =s "") && (mount =s "") && (root =s "")
  else if (mount =s "") || (root =s "") || (TrimSpace root ≠s root) || (2048 <? len root) || negb (ValidString root)
          || ContainsAny root (String backslash (String NUL "")) || HasPrefix root "/" then false
  else if root =s "." then true
  else if path_Clean root ≠s root then false
  else forallb (λ part, negb ((part =s "") || (part =s ".") || (part =s ".."))) (Split slash root).

Definition sha256_Size : Z := 32.
Definition validJobOptionsDigest (digest : string) : bool :=
  if digest =s "" then true else
  match RawURL_DecodeString digest with
  | None => false
  | Some decoded => (len decoded =? sha256_Size) && (RawURL_EncodeToString decoded =s digest)
  end.

Definition digestOperations : list string :=
  ["delete"; "copy_local"; "move_local"; "transfer_pull"; "transfer_pull_directory"; "transfer_pull_batch"; "transfer_move_batch"].

Definition validate (c : Claims) : result () :=
  let b := claims_Binding c in
  fail_if ((claims_Version c ≠s Version) || negb (identifier (KeyID c) true) || (IssuedAt c <=? 0)
           || (ExpiresAt c <=? IssuedAt c) || (MaxLifetime / second <? ExpiresAt c - IssuedAt c)) ErrInvalid ≫= λ _,
  fail_if (negb (validJobOptionsDigest (JobOptionsDigest b))
           || (JobOptionsDigest b ≠s "") && negb (Operation b ∈b digestOperations)) ErrInvalid ≫= λ _,
  fail_if (negb (forallb (λ v, identifier v true) [ActorID b; CredentialID b; Operation b; RequestID b])) ErrInvalid ≫= λ _,
  fail_if (negb (forallb (λ v, identifier v false)
    [SourceNodeID b; SourceGrantID b; SourceMountID b; DestinationNodeID b; DestinationGrantID b; DestinationMountID b; PlanID b]))
    ErrInvalid ≫= λ _,
  fail_if ((SourceNodeID b =s "") && (DestinationNodeID b =s "")) ErrInvalid ≫= λ _,
  fail_if (negb (endpoint (SourceNodeID b) (SourceGrantID b) (SourceMountID b) (SourceRoot b))
           || negb (endpoint (DestinationNodeID b) (DestinationGrantID b) (DestinationMountID b) (DestinationRoot b)))
    ErrInvalid ≫= λ _,
  fail_if ((claims_Context c =s "") || (filetypes.MaxContextBytes <? len (claims_Context c))) ErrInvalid.

(** * The JSON of the claims *)

Definition binding_json (b : Binding) : string :=
  json_object [
    Some (json_field "actor_id" (json_string (ActorID b)));
    Some (json_field "credential_id" (json_string (CredentialID b)));
    Some (json_field "operation" (json_string (Operation b)));
    Some (json_field "request_id" (json_string (RequestID b)));
    Some (json_field "source_node_id" (json_string (SourceNodeID b)));
    Some (json_field "source_grant_id" (json_string (SourceGrantID b)));
    Some (json_field "source_mount_id" (json_string (SourceMountID b)));
    Some (json_field "source_root" (json_string (SourceRoot b)));
    Some (json_field "destination_node_id" (json_string (DestinationNodeID b)));
    Some (json_field "destination_grant_id" (json_string (DestinationGrantID b)));
    Some (json_field "destination_mount_id" (json_string (DestinationMountID b)));
    Some (json_field "destination_root" (json_string (DestinationRoot b)));
    Some (json_field "plan_id" (json_string (PlanID b)));
    omitempty_string "job_options_digest" (JobOptionsDigest b)].

Definition claims_json (c : Claims) : result string :=
  context ← json_RawMessage (claims_Context c);
  Ok (json_object [
    Some (json_field "version" (json_int (claims_Version c)));
    Some (json_field "key_id" (json_string (KeyID c)));
    Some (json_field "binding" (binding_json (claims_Binding c)));
    Some (json_field "issued_at" (json_int (IssuedAt c)));
    Some (json_field "expires_at" (json_int (ExpiresAt c)));
    Some (json_field "context" context)]).

Definition binding_fields : list string :=
  ["actor_id"; "credential_id"; "operation"; "request_id"; "source_node_id"; "source_grant_id"; "source_mount_id";
   "source_root"; "destination_node_id"; "destination_grant_id"; "destination_mount_id"; "destination_root"; "plan_id";
   "job_options_digest"].
Definition decode_binding (old : Binding) (v : json) : result Binding :=
  decode_struct binding_fields (λ b name _ v,
    if name =s "actor_id" then x ← decode_string (ActorID b) v; Ok (b <| ActorID := x |>)
    else if name =s "credential_id" then x ← decode_string (CredentialID b) v; Ok (b <| CredentialID := x |>)
    else if name =s "operation" then x ← decode_string (Operation b) v; Ok (b <| Operation := x |>)
    else if name =s "request_id" then x ← decode_string (RequestID b) v; Ok (b <| RequestID := x |>)
    else if name =s "source_node_id" then x ← decode_string (SourceNodeID b) v; Ok (b <| SourceNodeID := x |>)
    else if name =s "source_grant_id" then x ← decode_string (SourceGrantID b) v; Ok (b <| SourceGrantID := x |>)
    else if name =s "source_mount_id" then x ← decode_string (SourceMountID b) v; Ok (b <| SourceMountID := x |>)
    else if name =s "source_root" then x ← decode_string (SourceRoot b) v; Ok (b <| SourceRoot := x |>)
    else if name =s "destination_node_id" then x ← decode_string (DestinationNodeID b) v; Ok (b <| DestinationNodeID := x |>)
    else if name =s "destination_grant_id" then x ← decode_string (DestinationGrantID b) v; Ok (b <| DestinationGrantID := x |>)
    else if name =s "destination_mount_id" then x ← decode_string (DestinationMountID b) v; Ok (b <| DestinationMountID := x |>)
    else if name =s "destination_root" then x ← decode_string (DestinationRoot b) v; Ok (b <| DestinationRoot := x |>)
    else if name =s "plan_id" then x ← decode_string (PlanID b) v; Ok (b <| PlanID := x |>)
    else x ← decode_string (JobOptionsDigest b) v; Ok (b <| JobOptionsDigest := x |>)) old v.

Definition claims_fields : list string := ["version"; "key_id"; "binding"; "issued_at"; "expires_at"; "context"].
Definition decode_claims (old : Claims) (v : json) : result Claims :=
  decode_struct claims_fields (λ c name raw v,
    if name =s "version" then x ← decode_int (claims_Version c) v; Ok (c <| claims_Version := x |>)
    else if name =s "key_id" then x ← decode_string (KeyID c) v; Ok (c <| KeyID := x |>)
    else if name =s "binding" then x ← decode_binding (claims_Binding c) v; Ok (c <| claims_Binding := x |>)
    else if name =s "issued_at" then x ← decode_int (IssuedAt c) v; Ok (c <| IssuedAt := x |>)
    else if name =s "expires_at" then x ← decode_int (ExpiresAt c) v; Ok (c <| ExpiresAt := x |>)
    else Ok (c <| claims_Context := raw |>)) old v.

(** [Unix] of a time. *)
Definition Unix (t : time) : Z := t / second.

Section Auth.
Context {U : Unicode} {C : Crypto}.
Implicit Types (token : string) (keys : gmap string string) (now : time) (c : Claims).

(** * Signing and verifying *)

Definition Sign c (key : string) : result string :=
  if (len key ≠s PrivateKeySize) || negb (is_ok (validate c)) then Err ErrInvalid else
  if negb (is_ok (filetypes.DecodeContext (claims_Context c))) then Err ErrInvalid else
  match claims_json c with
  | Err _ => Err ErrInvalid
  | Ok payload =>
    if maxPayloadBytes <? len payload then Err ErrInvalid else
    let message := domain +++ payload in
    let signature := ed25519_Sign key message in
    Ok (RawURL_EncodeToString payload +++ "." +++ RawURL_EncodeToString signature)
  end.

Definition verifySigned token keys now : result (Claims * filetypes.Filter) :=
  if RawURL_EncodedLen maxPayloadBytes + 1 + RawURL_EncodedLen SignatureSize <? len token then Err ErrInvalid else
  match Split dot token with
  | [part0; part1] =>
    match RawURL_DecodeString part0 with
    | None => Err ErrInvalid
    | Some payload =>
      if (payload =s "") || (maxPayloadBytes <? len payload) || negb (is_ok (filetypes.validateUniqueJSON payload))
      then Err ErrInvalid else
      match v ← json_parse payload; decode_claims Claims_zero v with
      | Err _ => Err ErrInvalid
      | Ok claims =>
        if negb (is_ok (validate claims)) then Err ErrInvalid else
        let key := default "" (keys !! KeyID claims) in
        match RawURL_DecodeString part1 with
        | None => Err ErrInvalid
        | Some signature =>
          if (len key ≠s PublicKeySize) || (len signature ≠s SignatureSize)
             || negb (ed25519_Verify key (domain +++ payload) signature) then Err ErrInvalid else
          if (Unix now <? IssuedAt claims) || (ExpiresAt claims <=? Unix now) then Err ErrInvalid else
          match filetypes.DecodeContext (claims_Context claims) with
          | Err _ => Err ErrInvalid
          | Ok filter => Ok (claims, filter)
          end
        end
      end
    end
  | _ => Err ErrInvalid
  end.

Definition Verify token keys (expected : Binding) (receivingNode : string) now : result (Claims * filetypes.Filter) :=
  match verifySigned token keys now with
  | Err _ => Err ErrInvalid
  | Ok (claims, filter) =>
    if (claims_Binding claims ≠s expected) || (receivingNode =s "")
       || (receivingNode ≠s SourceNodeID expected) && (receivingNode ≠s DestinationNodeID expected)
    then Err ErrInvalid else Ok (claims, filter)
  end.

Definition readOperations : list string :=
  ["list"; "metadata"; "content"; "archive"; "archive_plan"; "search"; "disk_usage"].
Definition VerifyLocalRead token keys (receivingNode operation mountID root : string) now : result (Claims * filetypes.Filter) :=
  match verifySigned token keys now with
  | Err _ => Err ErrInvalid
  | Ok (claims, filter) =>
    let b := claims_Binding claims in
    if negb (operation ∈b readOperations) then Err ErrInvalid else
    if (receivingNode =s "") || (SourceNodeID b ≠s receivingNode) || (SourceMountID b ≠s mountID) || (SourceRoot b ≠s root)
       || (Operation b ≠s operation) || (SourceGrantID b ≠s "") || (DestinationNodeID b ≠s "") || (DestinationGrantID b ≠s "")
       || (DestinationMountID b ≠s "") || (DestinationRoot b ≠s "") || (PlanID b ≠s "")
    then Err ErrInvalid else Ok (claims, filter)
  end.

Definition VerifyLocalUpload token keys (actorID credentialID receivingNode operation mountID destination sessionID : string) now
    : result (Claims * filetypes.Filter) :=
  match verifySigned token keys now with
  | Err _ => Err ErrInvalid
  | Ok (claims, filter) =>
    if (operation ≠s "upload_chunk") && (operation ≠s "upload_complete") && (operation ≠s "upload_abort") then Err ErrInvalid else
    let b := claims_Binding claims in
    if (actorID =s "") || (credentialID =s "") || (ActorID b ≠s actorID) || (CredentialID b ≠s credentialID)
       || (receivingNode =s "") || (sessionID =s "") || (Operation b ≠s operation) || (PlanID b ≠s sessionID)
       || (DestinationNodeID b ≠s receivingNode) || (DestinationMountID b ≠s mountID) || (DestinationRoot b ≠s destination)
       || (DestinationGrantID b ≠s "") || (SourceNodeID b ≠s "") || (SourceGrantID b ≠s "") || (SourceMountID b ≠s "")
       || (SourceRoot b ≠s "")
    then Err ErrInvalid else Ok (claims, filter)
  end.

Definition UploadAdmissionBodyID (body : string) : string := "sha256-" +++ hex_EncodeToString (sha256_Sum body).

Definition VerifyUploadAdmission token keys (receivingNode mountID destination body : string) now
    : result (Claims * filetypes.Filter) :=
  match verifySigned token keys now with
  | Err _ => Err ErrInvalid
  | Ok (claims, filter) =>
    let b := claims_Binding claims in
    if (receivingNode =s "") || (destination =s "") || (destination =s ".") || (body =s "") || (Operation b ≠s "upload_create")
       || (PlanID b ≠s UploadAdmissionBodyID body) || (DestinationNodeID b ≠s receivingNode) || (DestinationMountID b ≠s mountID)
       || (DestinationRoot b ≠s destination) || (DestinationGrantID b ≠s "") || (SourceNodeID b ≠s "") || (SourceGrantID b ≠s "")
       || (SourceMountID b ≠s "") || (SourceRoot b ≠s "")
    then Err ErrInvalid else Ok (claims, filter)
  end.

Definition decimal (z : Z) : string := dec (Z.to_N z).

Definition SimpleUploadPlanID (rawQuery idempotencyKey : string) : string :=
  "upload-" +++ hex_EncodeToString (sha256_Sum
    (decimal (len rawQuery) +++ ":" +++ rawQuery +++ decimal (len idempotencyKey) +++ ":" +++ idempotencyKey)).

Definition VerifySimpleUpload token keys (receivingNode mountID destination rawQuery idempotencyKey : string) now
    : result (Claims * filetypes.Filter) :=
  match verifySigned token keys now with
  | Err _ => Err ErrInvalid
  | Ok (claims, filter) =>
    let b := claims_Binding claims in
    if (receivingNode =s "") || (destination =s "") || (destination =s ".") || (Operation b ≠s "upload_simple")
       || (PlanID b ≠s SimpleUploadPlanID rawQuery idempotencyKey) || (DestinationNodeID b ≠s receivingNode)
       || (DestinationMountID b ≠s mountID) || (DestinationRoot b ≠s destination) || (DestinationGrantID b ≠s "")
       || (SourceNodeID b ≠s "") || (SourceGrantID b ≠s "") || (SourceMountID b ≠s "") || (SourceRoot b ≠s "")
    then Err ErrInvalid else Ok (claims, filter)
  end.

Definition UploadReauthorizationRequestID (sessionID previousCredential : string) (revision : Z) : string :=
  "previous-" +++ hex_EncodeToString (sha256_Sum
    (sessionID +++ String NUL (previousCredential +++ String NUL (decimal revision)))).

Definition VerifyUploadReauthorization token keys
    (previousActor previousCredential receivingNode mountID destination sessionID : string) (revision : Z) now
    : result (Claims * filetypes.Filter) :=
  match verifySigned token keys now with
  | Err _ => Err ErrInvalid
  | Ok (claims, filter) =>
    let b := claims_Binding claims in
    if (receivingNode =s "") || (sessionID =s "") || xorb (previousActor =s "") (previousCredential =s "")
       || (previousActor ≠s "") && (ActorID b ≠s previousActor)
       || (RequestID b ≠s UploadReauthorizationRequestID sessionID previousCredential revision)
       || (Operation b ≠s "upload_reauthorize") || (PlanID b ≠s sessionID) || (DestinationNodeID b ≠s receivingNode)
       || (DestinationMountID b ≠s mountID) || (DestinationRoot b ≠s destination) || (DestinationGrantID b ≠s "")
       || (SourceNodeID b ≠s "") || (SourceGrantID b ≠s "") || (SourceMountID b ≠s "") || (SourceRoot b ≠s "")
    then Err ErrInvalid else Ok (claims, filter)
  end.

(** * job_lease.go *)

Definition JobLeaseRequestID (jobID : string) (revision : Z) : string :=
  if negb (identifier jobID true) || (revision =? 0) then "" else
  "job-" +++ hex_EncodeToString (sha256_Sum
    ("jolt-job-lease-v1" +++ String NUL (jobID +++ String NUL (decimal revision)))).

Definition JobLeaseBinding (binding : Binding) (revision : Z) : result Binding :=
  let requestID := JobLeaseRequestID (PlanID binding) revision in
  if (requestID =s "") || negb (validJobOptionsDigest (JobOptionsDigest binding))
     || (RequestID binding ≠s "") && (RequestID binding ≠s requestID)
     || negb (identifier (ActorID binding) true) || negb (identifier (CredentialID binding) true)
     || negb (identifier (SourceNodeID binding) true) || negb (identifier (SourceMountID binding) true)
     || negb (identifier (SourceGrantID binding) false) || negb (identifier (DestinationNodeID binding) false)
     || negb (identifier (DestinationGrantID binding) false) || negb (identifier (DestinationMountID binding) false)
     || negb (endpoint (SourceNodeID binding) (SourceGrantID binding) (SourceMountID binding) (SourceRoot binding))
     || negb (endpoint (DestinationNodeID binding) (DestinationGrantID binding) (DestinationMountID binding) (DestinationRoot binding))
  then Err ErrInvalid else
  let refused :=
    if Operation binding =s "delete" then (SourceGrantID binding ≠s "") || (DestinationNodeID binding ≠s "")
    else if Operation binding ∈b ["copy_local"; "move_local"] then
      (SourceGrantID binding ≠s "") || (DestinationGrantID binding ≠s "")
      || (DestinationNodeID binding ≠s SourceNodeID binding) || (DestinationMountID binding ≠s SourceMountID binding)
    else if Operation binding ∈b ["transfer_pull"; "transfer_pull_directory"; "transfer_pull_batch"; "transfer_move_batch"] then
      (SourceGrantID binding =s "") || (DestinationGrantID binding =s "") || (DestinationNodeID binding =s "")
      || (DestinationNodeID binding =s SourceNodeID binding)
    else true in
  if refused then Err ErrInvalid else Ok (binding <| RequestID := requestID |>).

Definition VerifyJobLease token keys (expected : Binding) (receivingNode : string) (revision : Z) now
    : result (Claims * filetypes.Filter) :=
  match JobLeaseBinding expected revision with
  | Err _ => Err ErrInvalid
  | Ok binding => Verify token keys binding receivingNode now
  end.

Definition VerifiedJobLeaseBinding token keys (receivingNode : string) now : result Binding :=
  match verifySigned token keys now with
  | Err _ => Err ErrInvalid
  | Ok (claims, _) =>
    if (receivingNode =s "")
       || (receivingNode ≠s SourceNodeID (claims_Binding claims)) && (receivingNode ≠s DestinationNodeID (claims_Binding claims))
    then Err ErrInvalid else
    let binding := (claims_Binding claims) <| RequestID := "" |> in
    match JobLeaseBinding binding 1 with
    | Err _ => Err ErrInvalid
    | Ok _ => Ok binding
    end
  end.

(** * job_options.go *)

Record JobOptions := {
  Overwrite : bool;
  Recursive : bool;
  ConflictPolicy : string;
  SourceChangePolicy : string;
  VerifyChecksum : bool;
  BandwidthLimit : Z;
  MaxParallelFiles : Z;
  MaxParallelChunks : Z;
  MaxAttempts : Z;
}.

Definition options_json (o : JobOptions) : string :=
  json_object [
    Some (json_field "overwrite" (json_bool (Overwrite o)));
    Some (json_field "recursive" (json_bool (Recursive o)));
    Some (json_field "conflict_policy" (json_string (ConflictPolicy o)));
    Some (json_field "source_change_policy" (json_string (SourceChangePolicy o)));
    Some (json_field "verify_checksum" (json_bool (VerifyChecksum o)));
    Some (json_field "bandwidth_limit_bytes_per_second" (json_int (BandwidthLimit o)));
    Some (json_field "max_parallel_files" (json_int (MaxParallelFiles o)));
    Some (json_field "max_parallel_chunks" (json_int (MaxParallelChunks o)));
    Some (json_field "max_attempts" (json_int (MaxAttempts o)))].

Definition options_domain : string := "jolt-job-options-v1" +++ String NUL "".
Definition options_digest (options : JobOptions) : string :=
  RawURL_EncodeToString (sha256_Sum (options_domain +++ options_json options)).

End Auth.
End signedauth.
