(* ===== verification/SignedAuthFacts.v ===== *)
(** Correctness of package signedauth: what a verified envelope guarantees, that
    an envelope is good for one route only, and that a job lease is good for one
    revision only. *)
From S2P Require Import Prelude GoLib Base64 Json FileTypes Entities SignedAuth.
From stdpp Require Import options.
#[local] Set Default Proof Using "Type*".
Import signedauth.
Local Open Scope Z_scope.

Section Facts.
Context {U : Unicode} {C : Crypto}.
Implicit Types (token : string) (keys : gmap string string) (now : time) (c : Claims) (b : Binding).

(** * Verified envelopes *)

(** What [validate] establishes of the claims. *)
Record valid_claims c : Prop := {
  vc_version : claims_Version c = 1;
  vc_key : identifier (KeyID c) true = true;
  vc_interval : 0 < IssuedAt c < ExpiresAt c ∧ ExpiresAt c - IssuedAt c ≤ 30;
  vc_subject : identifier (ActorID (claims_Binding c)) true = true ∧ identifier (CredentialID (claims_Binding c)) true = true ∧
               identifier (Operation (claims_Binding c)) true = true ∧ identifier (RequestID (claims_Binding c)) true = true;
  vc_nodes : SourceNodeID (claims_Binding c) ≠ "" ∨ DestinationNodeID (claims_Binding c) ≠ "";
  vc_source : endpoint (SourceNodeID (claims_Binding c)) (SourceGrantID (claims_Binding c))
                (SourceMountID (claims_Binding c)) (SourceRoot (claims_Binding c)) = true;
  vc_destination : endpoint (DestinationNodeID (claims_Binding c)) (DestinationGrantID (claims_Binding c))
                     (DestinationMountID (claims_Binding c)) (DestinationRoot (claims_Binding c)) = true;
  vc_context : 0 < len (claims_Context c) ≤ filetypes.MaxContextBytes;
}.

Lemma validate_sound c : validate c = Ok () → valid_claims c.
Proof.
  unfold validate. intros H. inv_ok. unfold fail_if in *. repeat (case_match; try done). simplify_eq.
  repeat match goal with H : _ || _ = false |- _ => apply orb_false_iff in H as [? ?] end.
  bool_to_prop. cbn [forallb] in *. bool_to_prop.
  assert (MaxLifetime / second = 30) as E30 by reflexivity. rewrite E30 in *.
  constructor; try done; try lia.
  - match goal with H : _ && _ = false |- _ => apply andb_false_iff in H as [H|H] end; bool_to_prop; auto.
  - split; [|done]. destruct (claims_Context c); [done|]. unfold len. simpl. lia.
Qed.

(** An envelope carries signed claims: its first part decodes to a payload that
    parses, without repeated names, to the claims, and its second part to a
    signature of that payload under the key the claims name. *)
Definition envelope_of token (keyring : gmap string string) c : Prop :=
  ∃ part0 part1 payload signature key v,
    Split dot token = [part0; part1] ∧
    RawURL_DecodeString part0 = Some payload ∧ len payload ≤ maxPayloadBytes ∧
    RawURL_DecodeString part1 = Some signature ∧ len signature = SignatureSize ∧
    filetypes.validateUniqueJSON payload = Ok () ∧ json_parse payload = Ok v ∧ decode_claims Claims_zero v = Ok c ∧
    keyring !! KeyID c = Some key ∧ len key = PublicKeySize ∧
    ed25519_Verify key (domain +++ payload) signature = true.

Lemma is_ok_unit (r : result ()) : is_ok r = true ↔ r = Ok ().
Proof. destruct r as [[]|]; naive_solver. Qed.

Lemma verifySigned_inv token keys now c f :
  verifySigned token keys now = Ok (c, f) →
  envelope_of token keys c ∧ validate c = Ok () ∧ IssuedAt c ≤ Unix now < ExpiresAt c ∧
  filetypes.DecodeContext (claims_Context c) = Ok f.
Proof.
  unfold verifySigned. intros H.
  destruct (_ <? len token); [done|]. destruct (Split dot token) as [|p0 [|p1 [|]]] eqn:Es; try done.
  destruct (RawURL_DecodeString p0) as [payload|] eqn:E0; [|done].
  destruct (_ || _ || _) eqn:G1 in H; [done|]. apply orb_false_iff in G1 as [[_ G1]%orb_false_iff G2].
  apply negb_false_iff, is_ok_unit in G2. apply Z.ltb_ge in G1.
  destruct (json_parse payload) as [v|] eqn:Ev; [|done]. cbn [mbind result_bind] in H.
  destruct (decode_claims Claims_zero v) as [claims|] eqn:Ec; [|done].
  destruct (negb (is_ok (validate claims))) eqn:Gv; [done|]. apply negb_false_iff, is_ok_unit in Gv.
  destruct (RawURL_DecodeString p1) as [signature|] eqn:E1; [|done].
  destruct (_ || _ || _) eqn:G3 in H; [done|]. apply orb_false_iff in G3 as [[Gk Gs]%orb_false_iff Gver].
  destruct (_ || _) eqn:G4 in H; [done|]. apply orb_false_iff in G4 as [Gi Ge].
  destruct (filetypes.DecodeContext _) as [f'|] eqn:Ef; [|done]. simplify_eq. bool_to_prop.
  split_and!; try done; try lia.
  destruct (keys !! KeyID c) as [key|] eqn:Ek; [|done].
  exists p0, p1, payload, signature, key, v. by split_and!.
Qed.

(** C5. A verified envelope is one the key it names signed, its claims are
    valid, it was issued at most thirty seconds ago and has not expired, and the
    filter it yields is that of the signed context. *)
Theorem verify_signed_sound token keys now c f :
  verifySigned token keys now = Ok (c, f) →
  envelope_of token keys c ∧ valid_claims c ∧ IssuedAt c ≤ Unix now < ExpiresAt c ∧ ExpiresAt c ≤ IssuedAt c + 30 ∧
  filetypes.DecodeContext (claims_Context c) = Ok f.
Proof.
  intros (He & Hv & Ht & Hf)%verifySigned_inv. pose proof (validate_sound _ Hv) as Hc. split_and!; try done; try lia.
  destruct (vc_interval _ Hc). lia.
Qed.

(** An envelope has one set of claims, whatever keys and time it is verified
    with. *)
Lemma envelope_unique token keys keys' c c' :
  envelope_of token keys c → envelope_of token keys' c' → c = c'.
Proof.
  intros (p0 & ? & pl & ? & ? & v & Hs & Hp & _ & _ & _ & _ & Hv & Hc & _)
         (p0' & ? & pl' & ? & ? & v' & Hs' & Hp' & _ & _ & _ & _ & Hv' & Hc' & _).
  assert (p0' = p0) as -> by congruence. assert (pl' = pl) as -> by congruence.
  assert (v' = v) as -> by congruence. congruence.
Qed.

(** * One envelope, one route *)

(** The requests an envelope can be presented with on the node [node]. *)
Inductive route :=
| LocalRead (operation mountID root : string)
| LocalUpload (actorID credentialID operation mountID destination sessionID : string)
| UploadAdmission (mountID destination body : string)
| SimpleUpload (mountID destination rawQuery idempotencyKey : string)
| UploadReauthorization (previousActor previousCredential mountID destination sessionID : string) (revision : Z)
| JobLease (expected : Binding) (revision : Z).

Definition present token keys (node : string) (r : route) now : result (Claims * filetypes.Filter) :=
  match r with
  | LocalRead operation mountID root => VerifyLocalRead token keys node operation mountID root now
  | LocalUpload actorID credentialID operation mountID destination sessionID =>
      VerifyLocalUpload token keys actorID credentialID node operation mountID destination sessionID now
  | UploadAdmission mountID destination body => VerifyUploadAdmission token keys node mountID destination body now
  | SimpleUpload mountID destination rawQuery idempotencyKey =>
      VerifySimpleUpload token keys node mountID destination rawQuery idempotencyKey now
  | UploadReauthorization previousActor previousCredential mountID destination sessionID revision =>
      VerifyUploadReauthorization token keys previousActor previousCredential node mountID destination sessionID revision now
  | JobLease expected revision => VerifyJobLease token keys expected node revision now
  end.

(** The binding a route asks for: what of the signed binding it fixes. *)
Definition asks (node : string) (r : route) (b : Binding) : Prop :=
  match r with
  | LocalRead operation mountID root =>
      operation ∈ readOperations ∧ Operation b = operation ∧ SourceNodeID b = node ∧ SourceMountID b = mountID ∧
      SourceRoot b = root ∧ DestinationNodeID b = "" ∧ PlanID b = ""
  | LocalUpload actorID credentialID operation mountID destination sessionID =>
      operation ∈ ["upload_chunk"; "upload_complete"; "upload_abort"] ∧ Operation b = operation ∧
      ActorID b = actorID ∧ CredentialID b = credentialID ∧ DestinationNodeID b = node ∧
      DestinationMountID b = mountID ∧ DestinationRoot b = destination ∧ PlanID b = sessionID ∧ SourceNodeID b = ""
  | UploadAdmission mountID destination body =>
      Operation b = "upload_create" ∧ DestinationNodeID b = node ∧ DestinationMountID b = mountID ∧
      DestinationRoot b = destination ∧ PlanID b = UploadAdmissionBodyID body ∧ SourceNodeID b = ""
  | SimpleUpload mountID destination rawQuery idempotencyKey =>
      Operation b = "upload_simple" ∧ DestinationNodeID b = node ∧ DestinationMountID b = mountID ∧
      DestinationRoot b = destination ∧ PlanID b = SimpleUploadPlanID rawQuery idempotencyKey ∧ SourceNodeID b = ""
  | UploadReauthorization previousActor previousCredential mountID destination sessionID revision =>
      Operation b = "upload_reauthorize" ∧ (previousActor = "" ↔ previousCredential = "") ∧ (previousActor = "" ∨ ActorID b = previousActor) ∧
      DestinationNodeID b = node ∧ DestinationMountID b = mountID ∧ DestinationRoot b = destination ∧
      PlanID b = sessionID ∧ SourceNodeID b = "" ∧
      RequestID b = UploadReauthorizationRequestID sessionID previousCredential revision
  | JobLease expected revision =>
      Operation b ∈ digestOperations ∧ (SourceNodeID b = node ∨ DestinationNodeID b = node) ∧
      b = expected <| RequestID := JobLeaseRequestID (PlanID expected) revision |> ∧
      JobLeaseRequestID (PlanID expected) revision ≠ ""
  end.

Lemma JobLeaseBinding_inv b revision b' :
  JobLeaseBinding b revision = Ok b' →
  b' = b <| RequestID := JobLeaseRequestID (PlanID b) revision |> ∧ JobLeaseRequestID (PlanID b) revision ≠ "" ∧
  Operation b ∈ digestOperations ∧ (RequestID b = "" ∨ RequestID b = JobLeaseRequestID (PlanID b) revision) ∧
  SourceNodeID b ≠ "".
Proof.
  unfold JobLeaseBinding. intros H. destruct (_ || _) eqn:G in H; [done|].
  repeat match goal with H : _ || _ = false |- _ => apply orb_false_iff in H as [? ?] end.
  destruct (if Operation b =s "delete" then _ else _) eqn:R in H; [done|]. simplify_eq. bool_to_prop.
  split_and!; [done|done| | |].
  - case_bool_decide as E; [unfold digestOperations; set_solver|].
    case_bool_decide as E1; [unfold digestOperations; set_solver|].
    case_bool_decide as E2; [unfold digestOperations; set_solver|done].
  - match goal with H : _ && _ = false |- _ => apply andb_false_iff in H as [H|H] end; bool_to_prop; auto.
  - intros E. match goal with H : identifier (SourceNodeID b) true = true |- _ => rewrite E in H end. done.
Qed.

(** Splits the conjunction of tests of an accepted request. *)
Ltac accepted :=
  repeat match goal with
  | H : _ || _ = false |- _ => apply orb_false_iff in H as [? ?]
  | H : (match ?x with _ => _ end) = Ok _ |- _ => destruct x eqn:?; try discriminate H
  | H : (if ?x then _ else _) = Ok _ |- _ => destruct x eqn:?; try discriminate H
  end; simplify_eq; bool_to_prop.

Lemma present_sound token keys node r now c f :
  present token keys node r now = Ok (c, f) →
  verifySigned token keys now = Ok (c, f) ∧ asks node r (claims_Binding c) ∧ node ≠ "".
Proof.
  destruct r; simpl present; intros H.
  - unfold VerifyLocalRead in H. accepted. simpl asks. by split_and!.
  - unfold VerifyLocalUpload in H. accepted.
    match goal with H : _ && _ && _ = false |- _ => rename H into Hop end.
    rewrite !andb_false_iff, !negb_false_iff, !bool_decide_eq_true in Hop. simpl asks. split_and!; try done. set_solver.
  - unfold VerifyUploadAdmission in H. accepted. simpl asks. by split_and!.
  - unfold VerifySimpleUpload in H. accepted. simpl asks. by split_and!.
  - unfold VerifyUploadReauthorization in H. accepted. simpl asks.
    assert (previousActor = "" ↔ previousCredential = "") by (match goal with H : xorb _ _ = false |- _ => revert H end; repeat case_bool_decide; naive_solver).
    split_and!; try done. match goal with H : _ && _ = false |- _ => apply andb_false_iff in H as [H|H] end; bool_to_prop; auto.
  - unfold VerifyJobLease, Verify in H. accepted.
    match goal with H : JobLeaseBinding _ _ = Ok _ |- _ => apply JobLeaseBinding_inv in H as (-> & Hid & Hop & _ & _) end.
    simpl asks. match goal with H : claims_Binding _ = _ |- _ => rewrite H end. split_and!; try done.
    match goal with H : _ && _ = false |- _ => apply andb_false_iff in H as [H|H] end; bool_to_prop; auto.
Qed.

(** The six kinds of route. *)
Definition kind (r : route) : Z :=
  match r with
  | LocalRead _ _ _ => 0 | LocalUpload _ _ _ _ _ _ => 1 | UploadAdmission _ _ _ => 2
  | SimpleUpload _ _ _ _ => 3 | UploadReauthorization _ _ _ _ _ _ => 4 | JobLease _ _ => 5
  end.

(** The kind of route an operation belongs to. *)
Definition operation_kind (operation : string) : option Z :=
  if operation ∈b readOperations then Some 0
  else if operation ∈b ["upload_chunk"; "upload_complete"; "upload_abort"] then Some 1
  else if operation =s "upload_create" then Some 2
  else if operation =s "upload_simple" then Some 3
  else if operation =s "upload_reauthorize" then Some 4
  else if operation ∈b digestOperations then Some 5 else None.

Lemma asks_kind node r b : asks node r b → operation_kind (Operation b) = Some (kind r).
Proof.
  assert (∀ l k, forallb (λ o, bool_decide (operation_kind o = Some k)) l = true →
                 ∀ o, o ∈ l → operation_kind o = Some k) as Hl.
  { intros l k H o Ho. rewrite forallb_elem in H. by apply H, bool_decide_eq_true in Ho. }
  destruct r; simpl.
  - intros (Hin & -> & _). by apply (Hl readOperations 0).
  - intros (Hin & -> & _). by apply (Hl ["upload_chunk"; "upload_complete"; "upload_abort"] 1).
  - intros [-> _]. done.
  - intros [-> _]. done.
  - intros [-> _]. done.
  - intros [Hin _]. by apply (Hl digestOperations 5).
Qed.

(** ** What is hashed *)

(** What is hashed into the request identity of a lease. *)
Definition lease_message (jobID : string) (revision : Z) : string :=
  "jolt-job-lease-v1" +++ String NUL (jobID +++ String NUL (decimal revision)).

Definition simple_message (rawQuery idempotencyKey : string) : string :=
  decimal (len rawQuery) +++ ":" +++ rawQuery +++ decimal (len idempotencyKey) +++ ":" +++ idempotencyKey.
Definition reauthorization_message (sessionID previousCredential : string) (revision : Z) : string :=
  sessionID +++ String NUL (previousCredential +++ String NUL (decimal revision)).

(** The text of a request that its binding carries as a digest. *)
Definition hashed (r : route) : string :=
  match r with
  | UploadAdmission _ _ body => body
  | SimpleUpload _ _ rawQuery idempotencyKey => simple_message rawQuery idempotencyKey
  | UploadReauthorization _ previousCredential _ _ sessionID revision => reauthorization_message sessionID previousCredential revision
  | JobLease expected revision => lease_message (PlanID expected) revision
  | _ => ""
  end.
(** Two different texts with one SHA-256. *)
Definition collide (m m' : string) : Prop := m ≠ m' ∧ sha256_Sum m = sha256_Sum m'.
Lemma same_digest m m' : sha256_Sum m = sha256_Sum m' → m = m' ∨ collide m m'.
Proof. intros H. destruct (decide (m = m')); [by left|by right]. Qed.

(** A revision is an unsigned integer. *)
Definition revision_ok (r : route) : Prop :=
  match r with UploadReauthorization _ _ _ _ _ revision | JobLease _ revision => 0 ≤ revision | _ => True end.

(** The same request, on the same node: a job lease is for the two nodes of its
    job, and the request identity of its binding is computed, not compared. *)
Definition same_request (node : string) (r : route) (node' : string) (r' : route) : Prop :=
  match r, r' with
  | JobLease expected revision, JobLease expected' revision' =>
      expected <| RequestID := "" |> = expected' <| RequestID := "" |> ∧ revision = revision'
  | _, _ => node = node' ∧ r = r'
  end.

Lemma append_delim_l (sep : ascii) (a a' b b' : string) : sep ∉ bytes a → sep ∉ bytes a' → a +++ String sep b = a' +++ String sep b' → a = a' ∧ b = b'.
Proof.
  revert a'. induction a as [|x a IH]; intros [|x' a'] Ha Ha'; rewrite ?append_cons, ?append_nil_l; intros H;
    [by injection H|injection H as H1 H2..].
  - exfalso. apply Ha'. rewrite <-H1. left.
  - exfalso. apply Ha. rewrite H1. left.
  - destruct (IH a') as [-> ->]; [intros ?; apply Ha; by right|intros ?; apply Ha'; by right|done|by subst].
Qed.
Lemma append_delim_r (sep : ascii) (a a' b b' : string) : sep ∉ bytes b → sep ∉ bytes b' → a +++ String sep b = a' +++ String sep b' → a = a' ∧ b = b'.
Proof.
  intros Hb Hb'. revert a'. induction a as [|x a IH]; intros [|x' a']; rewrite ?append_cons, ?append_nil_l; intros H;
    [by injection H|injection H as H1 H2..].
  - exfalso. apply Hb. rewrite H2, bytes_append. apply elem_of_app. right. left.
  - exfalso. apply Hb'. rewrite <-H2, bytes_append. apply elem_of_app. right. left.
  - destruct (IH a' H2) as [-> ->]. by subst.
Qed.
Lemma decimal_digits z (ch : ascii) : ch ∈ bytes (decimal z) → in_range 48 57 ch = true.
Proof. apply digits_val_digits with (acc := 0) (n := Z.of_N (Z.to_N z)). apply digits_val_dec. Qed.
Lemma decimal_inj z z' : 0 ≤ z → 0 ≤ z' → decimal z = decimal z' → z = z'.
Proof. unfold decimal. intros ? ? ?%dec_inj. lia. Qed.

Lemma simple_message_inj q k q' k' : simple_message q k = simple_message q' k' → q = q' ∧ k = k'.
Proof.
  unfold simple_message. intros H. rewrite !(append_cons ":"%char "") in H.
  assert (∀ z, ":"%char ∉ bytes (decimal z)) as Hd by (intros z Hin; by apply decimal_digits in Hin).
  apply append_delim_l in H as [Hl H]; [|done..]. rewrite !append_nil_l in H.
  apply decimal_inj in Hl; [|unfold len; lia..].
  assert (q = q') as ->.
  { clear -H Hl. revert q' H Hl. induction q as [|x q IH]; intros [|x' q']; unfold len; cbn [String.length]; try lia; rewrite ?append_cons; [done|].
    intros [= -> H] Hl. f_equal. apply IH; [done|unfold len; lia]. }
  split; [done|]. apply append_inj_l in H. apply append_delim_l in H as [_ H]; done.
Qed.
Lemma reauthorization_message_inj session cred rev cred' rev' : 0 ≤ rev → 0 ≤ rev' →
  reauthorization_message session cred rev = reauthorization_message session cred' rev' → cred = cred' ∧ rev = rev'.
Proof.
  unfold reauthorization_message. intros H0 H0' H%append_inj_l. injection H as H.
  assert (∀ z, NUL ∉ bytes (decimal z)) as Hd by (intros z Hin; by apply decimal_digits in Hin).
  apply append_delim_r in H as [-> Hr%decimal_inj]; done.
Qed.
Lemma lease_message_inj jobID rev rev' : 0 ≤ rev → 0 ≤ rev' → lease_message jobID rev = lease_message jobID rev' → rev = rev'.
Proof. unfold lease_message. intros H0 H0' H%append_inj_l. injection H as H%append_inj_l. injection H as ?%decimal_inj; done. Qed.

Lemma JobLeaseRequestID_digest jobID rev rev' : JobLeaseRequestID jobID rev ≠ "" → JobLeaseRequestID jobID rev = JobLeaseRequestID jobID rev' →
  sha256_Sum (lease_message jobID rev) = sha256_Sum (lease_message jobID rev').
Proof.
  unfold JobLeaseRequestID. destruct (_ || _); [done|]. destruct (_ || _); [done|]. intros _ H%append_inj_l. by apply hex_EncodeToString_inj in H.
Qed.

(** Two requests one binding answers are the same, unless what they hash collides. *)
Lemma asks_single node node' r r' b : revision_ok r → revision_ok r' → asks node r b → asks node' r' b →
  same_request node r node' r' ∨ collide (hashed r) (hashed r').
Proof.
  intros Hr Hr' Ha Ha'. pose proof (asks_kind _ _ _ Ha) as Hk. rewrite (asks_kind _ _ _ Ha') in Hk.
  destruct r, r'; try discriminate Hk; clear Hk; simpl in *; destruct_and!; [subst..|].
  - left. by split.
  - left. by split.
  - match goal with H : _ = UploadAdmissionBodyID _, H' : _ = UploadAdmissionBodyID _ |- _ => rewrite H in H'; apply append_inj_l, hex_EncodeToString_inj in H' as Hd end.
    destruct (same_digest _ _ Hd) as [->|?]; [by left|by right].
  - match goal with H : _ = SimpleUploadPlanID _ _, H' : _ = SimpleUploadPlanID _ _ |- _ => rewrite H in H'; apply append_inj_l, hex_EncodeToString_inj in H' as Hd end.
    destruct (same_digest _ _ Hd) as [[-> ->]%simple_message_inj|?]; [by left|by right].
  - match goal with H : _ = UploadReauthorizationRequestID _ _ _, H' : _ = UploadReauthorizationRequestID _ _ _ |- _ =>
      rewrite H in H'; apply append_inj_l, hex_EncodeToString_inj in H' as Hd end.
    destruct (same_digest _ _ Hd) as [[-> ->]%reauthorization_message_inj|?]; [|done..|by right]. left. split; [done|]. f_equal.
    destruct (decide (previousCredential0 = "")); naive_solver.
  - match goal with H : _ = expected <| RequestID := _ |> |- _ => rename H into He end.
    match goal with H : _ = expected0 <| RequestID := _ |> |- _ => rename H into He0 end. rewrite He in He0.
    assert (PlanID expected = PlanID expected0) as Hp by (by apply (f_equal PlanID) in He0).
    assert (expected <| RequestID := "" |> = expected0 <| RequestID := "" |>) as Hsame by (by apply (f_equal (λ b, b <| RequestID := "" |>)) in He0).
    apply (f_equal RequestID) in He0. simpl in He0. rewrite Hp in *. apply JobLeaseRequestID_digest in He0; [|done].
    destruct (same_digest _ _ He0) as [Hd%lease_message_inj|?]; [|done..|by right]. left. by subst.
Qed.

Lemma present_single token keys keys' node node' r r' now now' c c' f f' :
  revision_ok r → revision_ok r' → present token keys node r now = Ok (c, f) → present token keys' node' r' now' = Ok (c', f') →
  c = c' ∧ f = f' ∧ kind r = kind r' ∧ (same_request node r node' r' ∨ collide (hashed r) (hashed r')).
Proof.
  intros Hr Hr' (Hv & Ha & _)%present_sound (Hv' & Ha' & _)%present_sound.
  apply verifySigned_inv in Hv as (He & _ & _ & Hf), Hv' as (He' & _ & _ & Hf').
  pose proof (envelope_unique _ _ _ _ _ He He') as <-. split_and!; [done|congruence| |by eapply asks_single].
  apply asks_kind in Ha, Ha'. congruence.
Qed.

Lemma only_presented token keys node r now c f keys' node' r' now' x : revision_ok r → revision_ok r' →
  present token keys node r now = Ok (c, f) → present token keys' node' r' now' = Ok x →
  x = (c, f) ∧ (same_request node r node' r' ∨ collide (hashed r) (hashed r')).
Proof. destruct x as [c' f']. intros Hr Hr' Hp Hp'. destruct (present_single _ _ _ _ _ _ _ _ _ _ _ _ _ Hr Hr' Hp Hp') as (-> & -> & _ & H). by split. Qed.

Lemma presented_asks token keys now c f keys' node t request x : verifySigned token keys now = Ok (c, f) → present token keys' node request t = Ok x →
  x = (c, f) ∧ asks node request (claims_Binding c).
Proof.
  destruct x as [c' f']. intros (He & _ & _ & Hf)%verifySigned_inv ((He' & _ & _ & Hf')%verifySigned_inv & Ha & _)%present_sound.
  pose proof (envelope_unique _ _ _ _ _ He' He) as ->. split; [congruence|done].
Qed.
(** A binding of a read is asked for by that read alone. *)
Lemma asks_read node request b : asks node request b → Operation b ∈ readOperations →
  node = SourceNodeID b ∧ request = LocalRead (Operation b) (SourceMountID b) (SourceRoot b).
Proof.
  intros Ha Hr. pose proof (asks_kind _ _ _ Ha) as Hk. unfold operation_kind in Hk. rewrite bool_decide_true in Hk by done.
  destruct request; simplify_eq. simpl in Ha. by destruct_and!; subst.
Qed.


(** * Endpoints *)

(** The root an envelope names on a node is a relative path that stays
    inside its mount: it is the mount itself or a sequence of plain names, none
    of them empty or dotted, and it has no backslash and no NUL. *)
Theorem verified_roots_are_local token keys now c f root :
  verifySigned token keys now = Ok (c, f) →
  (root = SourceRoot (claims_Binding c) ∧ SourceNodeID (claims_Binding c) ≠ "") ∨
  (root = DestinationRoot (claims_Binding c) ∧ DestinationNodeID (claims_Binding c) ≠ "") →
  root = "." ∨
  (root ≠ "" ∧ path_Clean root = root ∧ (backslash ∉ bytes root) ∧ (NUL ∉ bytes root) ∧
   ∀ part, part ∈ Split slash root → part ≠ "" ∧ part ≠ "." ∧ part ≠ "..").
Proof.
  intros (_ & Hv & _)%verifySigned_inv Hroot. apply validate_sound in Hv.
  assert (∃ node grant mount, node ≠ "" ∧ endpoint node grant mount root = true) as (node & grant & mount & Hn & He).
  { destruct Hroot as [[-> Hn]|[-> Hn]]; do 3 eexists; (split; [exact Hn|]); apply Hv. }
  clear Hroot. unfold endpoint in He. rewrite bool_decide_eq_false_2 in He by done.
  destruct (_ || _) eqn:G in He; [done|].
  repeat match goal with H : _ || _ = false |- _ => apply orb_false_iff in H as [? ?] end.
  case_bool_decide as Hdot; [by left|]. right. case_bool_decide as Hclean; [|done]. simpl in He.
  bool_to_prop. unfold ContainsAny in *.
  match goal with H : existsb _ (bytes root) = false |- _ => rewrite existsb_false_elem in H; rename H into Hb end.
  split_and!; [done|done|..].
  - intros Hin. specialize (Hb _ Hin). apply bool_decide_eq_false in Hb. set_solver.
  - intros Hin. specialize (Hb _ Hin). apply bool_decide_eq_false in Hb. set_solver.
  - intros part Hp. rewrite forallb_elem in He. specialize (He _ Hp). apply negb_true_iff in He.
    apply orb_false_iff in He as [[? ?]%orb_false_iff ?]. by bool_to_prop.
Qed.
End Facts.
