(* ===== verification/SignedRoundtrip.v ===== *)
(** Signing and verifying fit together: a context the Control Tower marshals is
    decoded to itself by the node, and claims the Control Tower signs are
    accepted by a node that trusts its key, with the filter of the context. *)
From S2P Require Import Prelude GoLib Base64 Json JsonFacts JsonStrings JsonPrint FileTypes Entities SignedAuth SignedAuthFacts.
From stdpp Require Import options.
#[local] Set Default Proof Using "Type*".
Local Open Scope Z_scope.

(** * Objects *)

Definition member (m : string * json) : string * (string * json) := (m.1, (jprint m.2, m.2)).
Definition obj (l : list (option (string * json))) : json := JObject (member <$> omap id l).

Lemma jprint_obj l : jprint (obj l) = json_object ((λ o : option (string * json), (λ m : string * json, json_field m.1 (jprint m.2)) <$> o) <$> l).
Proof.
  unfold json_object. cbn [jprint obj]. do 3 f_equal. rewrite <-list_fmap_compose. induction l as [|[m|] l IH]; cbn; [done|by rewrite <-IH|exact IH].
Qed.
Lemma printed_obj l : Forall (λ o : option (string * json), match o with Some m => ValidString m.1 = true ∧ printed m.2 | None => True end) l → printed (obj l).
Proof.
  intros Hl. constructor. apply Forall_fmap. induction Hl as [|[m|] l Hm _ IH]; cbn; [constructor|constructor; [|exact IH]|exact IH]. naive_solver.
Qed.
Lemma json_list_map {A} (f : A → json) (g : A → string) l : (∀ a, g a = jprint (f a)) → json_list g l = jprint (JArray (f <$> l)).
Proof. intros Hg. cbn [jprint]. unfold json_list. do 3 f_equal. rewrite <-list_fmap_compose. apply list_fmap_ext. intros i a _. apply Hg. Qed.

Lemma decode_strings l : decode_elements decode_string "" [] (JString <$> l) = Ok l.
Proof. induction l as [|s l IH]; [done|]. cbn. cbn in IH. by rewrite IH. Qed.

(** ** Texts in ASCII *)

Lemma ascii_valid s : (∀ c, c ∈ bytes s → byte_val c < 128) → ValidString s = true.
Proof.
  intros Hs. unfold ValidString, runes. induction s as [|c s IH]; [done|]. cbn [runes_from forallb decode_rune].
  pose proof (Hs c ltac:(left)) as Hc. rewrite (proj2 (Z.ltb_lt _ _)) by done. cbn [fst snd pred]. rewrite IH; [|intros c' Hc'; apply Hs; by right].
  unfold RuneError. rewrite (proj2 (Z.eqb_neq _ _)) by lia. done.
Qed.

Lemma dec_digits_short fuel n acc : (String.length (dec_digits fuel n acc) ≤ fuel + String.length acc)%nat.
Proof.
  revert n acc. induction fuel as [|fuel IH]; intros n acc; simpl; [lia|]. destruct (n <? 10)%N; [simpl; lia|]. etrans; [apply IH|]. simpl. lia.
Qed.
Lemma dec_length n : (n < 2 ^ 64)%N → (String.length (dec n) ≤ 65)%nat.
Proof.
  intros Hn. unfold dec. etrans; [apply dec_digits_short|]. cbn [String.length].
  assert (N.size n ≤ 64)%N; [|lia]. pose proof (N.size_le n) as Hs. destruct (N.le_gt_cases (N.size n) 64) as [|Hgt]; [done|]. exfalso.
  assert (2 ^ 65 ≤ 2 ^ N.size n)%N by (apply N.pow_le_mono_r; lia). change (2 ^ 65)%N with (2 * 2 ^ 64)%N in *. rewrite N.succ_double_spec in Hs. lia.
Qed.

Definition int64 (z : Z) : Prop := - 2 ^ 63 ≤ z < 2 ^ 63.
Lemma int_overflows z : int64 z → float_overflows (json_int z) = false.
Proof.
  intros Hz. unfold float_overflows, json_int. set (n := Z.to_N (Z.abs z)).
  assert ((match (if z <? 0 then "-" else "") +++ dec n with String "-" r => r | _ => (if z <? 0 then "-" else "") +++ dec n end) = dec n) as ->.
  { destruct (z <? 0); [done|]. rewrite append_nil_l. destruct (dec_head n) as (c & r & Hd & _). pose proof (dec_all_digits n c) as Hc. rewrite Hd in *.
    specialize (Hc ltac:(left)). destruct c as [[] [] [] [] [] [] [] []]; try reflexivity. done. }
  pose proof (span_digits_app (dec n) "" (dec_all_digits n) ltac:(done)) as Hspan. rewrite append_nil_r in Hspan. rewrite Hspan. cbv iota beta.
  rewrite append_nil_r, digits_val_dec. change (default 0 (Some (Z.of_N n))) with (Z.of_N n). rewrite N2Z.id. change (len "") with 0. change (default 0 (digits_val 0 "0")) with 0.
  destruct (Z.of_N n =? 0); [done|]. cbn [Z.sub Z.opp].
  assert (len (dec n) ≤ 65) by (unfold len; pose proof (dec_length n ltac:(unfold n, int64 in *; lia)); lia).
  rewrite (proj2 (Z.ltb_ge 310 _)), (proj2 (Z.ltb_lt _ 300)) by lia. done.
Qed.

(** ** Base64 *)

Definition url_symbol (c : ascii) : bool := (byte_val c <? 128) && negb (bool_decide (c = dot)).
Lemma encode_symbols s c : c ∈ encode url_alphabet "" s → url_symbol c = true.
Proof.
  assert (∀ v, 0 ≤ v < 64 → url_symbol (symbol url_alphabet v) = true) as Hsym.
  { intros v Hv. assert (forallb (λ i, url_symbol (symbol url_alphabet (Z.of_nat i))) (seq 0 64) = true) as Hall by (vm_compute; reflexivity).
    rewrite forallb_elem in Hall. specialize (Hall (Z.to_nat v)). rewrite Z2Nat.id in Hall by lia. apply Hall, elem_of_seq. lia. }
  revert s. apply (list_ind3 (λ s, c ∈ encode url_alphabet "" s → url_symbol c = true)); [by intros ?%elem_of_nil|..].
  - intros x. cbn. pose proof (byte_val_range x). rewrite !elem_of_cons, elem_of_nil. intros [->|[->|[]]]; apply Hsym; lia.
  - intros x y. cbn. pose proof (byte_val_range x). pose proof (byte_val_range y). rewrite !elem_of_cons, elem_of_nil. intros [->|[->|[->|[]]]]; apply Hsym; lia.
  - intros x y z l IH. cbn [encode]. pose proof (byte_val_range x). pose proof (byte_val_range y). pose proof (byte_val_range z).
    rewrite !elem_of_cons. intros [->|[->|[->|[->|Hc]]]]; [apply Hsym; lia..|by apply IH].
Qed.
Lemma encode_length s : Z.of_nat (length (encode url_alphabet "" s)) = RawURL_EncodedLen (Z.of_nat (length s)).
Proof.
  unfold RawURL_EncodedLen. revert s. apply list_ind3; [done|done|done|]. intros x y z l IH. cbn [encode length]. lia.
Qed.
Lemma RawURL_EncodeToString_bytes s c : c ∈ bytes (RawURL_EncodeToString s) → byte_val c < 128 ∧ c ≠ dot.
Proof. unfold RawURL_EncodeToString. rewrite bytes_of_bytes. intros Hc%encode_symbols. unfold url_symbol in Hc. by bool_to_prop. Qed.
Lemma len_bytes s : len s = Z.of_nat (length (bytes s)).
Proof. unfold len. f_equal. induction s as [|c s IH]; [done|]. simpl. by rewrite IH. Qed.
Lemma RawURL_EncodeToString_len s : len (RawURL_EncodeToString s) = RawURL_EncodedLen (len s).
Proof. rewrite !len_bytes. unfold RawURL_EncodeToString. rewrite bytes_of_bytes. apply encode_length. Qed.

(** * Contexts *)

Import filetypes.

Definition utf8 (s : string) : Prop := ValidString s = true.
Record utf8_selector (s : Selector) : Prop := {
  utf8_classes : Forall utf8 (Classes s); utf8_extensions : Forall utf8 (Extensions s); utf8_names : Forall utf8 (Names s);
}.
Record utf8_rule (r : Rule) : Prop := {
  utf8_policy : utf8 (PolicyID r); utf8_path : utf8 (Path r); utf8_caps : Forall utf8 (Capabilities r);
  utf8_types : ∀ s, FileTypes r = Some s → utf8_selector s; utf8_visibility : utf8 (Visibility r);
}.
(** The texts of a context are UTF-8, as texts that came through JSON are. *)
Definition utf8_context (c : Context) : Prop := Forall utf8_rule (Rules c).

Definition strings_tree (l : list string) : json := JArray (JString <$> l).
Definition unless_empty (name : string) (l : list string) : option (string * json) :=
  if bool_decide (l = []) then None else Some (name, strings_tree l).
Definition selector_tree (s : Selector) : json :=
  obj [unless_empty "classes" (Classes s); unless_empty "extensions" (Extensions s); unless_empty "names" (Names s)].
Definition rule_tree (r : Rule) : json :=
  obj [Some ("policy_id", JString (PolicyID r)); Some ("path", JString (Path r)); Some ("capabilities", strings_tree (Capabilities r));
       (λ s, ("file_types", selector_tree s)) <$> FileTypes r;
       if Visibility r =s "" then None else Some ("visibility", JString (Visibility r))].
Definition context_tree (c : Context) : json :=
  obj [Some ("version", JNumber (json_int (Version c))); Some ("rules", JArray (rule_tree <$> Rules c))].

Lemma json_selector_tree s : json_selector s = jprint (selector_tree s).
Proof.
  unfold selector_tree. rewrite jprint_obj. unfold json_selector.
  assert (∀ name l, omitempty_list name l = (λ m : string * json, json_field m.1 (jprint m.2)) <$> unless_empty name l) as Hl.
  { intros name l. unfold omitempty_list, unless_empty. case_bool_decide; cbn; [done|]. by rewrite (json_list_map JString json_string). }
  by rewrite !Hl.
Qed.
Lemma json_rule_tree r : json_rule r = jprint (rule_tree r).
Proof.
  unfold rule_tree. rewrite jprint_obj. unfold json_rule, omitempty_string. f_equal. cbn [fmap list_fmap option_map option_fmap fst snd].
  rewrite (json_list_map JString json_string) by done. do 3 f_equal.
  f_equal; [destruct (FileTypes r) as [s|]; cbn; [by rewrite json_selector_tree|done]|]. f_equal. by case_bool_decide.
Qed.
Lemma json_context_tree c : json_context c = jprint (context_tree c).
Proof.
  unfold context_tree. rewrite jprint_obj. unfold json_context. f_equal. cbn [fmap list_fmap option_map option_fmap fst snd].
  by rewrite (json_list_map rule_tree json_rule) by apply json_rule_tree.
Qed.

Lemma printed_strings l : Forall utf8 l → printed (strings_tree l).
Proof. intros Hl. constructor. apply Forall_fmap. eapply Forall_impl; [exact Hl|]. intros s Hs. by constructor. Qed.
Lemma printed_selector s : utf8_selector s → printed (selector_tree s).
Proof.
  intros [H1 H2 H3]. apply printed_obj. unfold unless_empty. repeat (constructor; [case_bool_decide; [done|]; split; [done|by apply printed_strings]|]). constructor.
Qed.
Lemma printed_rule r : utf8_rule r → printed (rule_tree r).
Proof.
  intros [H1 H2 H3 H4 H5]. apply printed_obj. repeat apply Forall_cons_2; [..|apply Forall_nil_2].
  - split; [done|by constructor].
  - split; [done|by constructor].
  - split; [done|by apply printed_strings].
  - destruct (FileTypes r) as [s|]; cbn; [|done]. split; [done|by apply printed_selector, H4].
  - case_bool_decide; [done|]. split; [done|by constructor].
Qed.
Lemma printed_context c : utf8_context c → printed (context_tree c).
Proof.
  intros Hc. apply printed_obj. repeat apply Forall_cons_2; [..|apply Forall_nil_2]; (split; [done|]); [constructor|]. constructor. apply Forall_fmap.
  eapply Forall_impl; [exact Hc|]. apply printed_rule.
Qed.

Lemma decode_obj {A} names (field : A → string → string → json → result A) old l : decode_struct names field old (obj l) =
  foldM (λ acc (o : option (string * json)), match o with
    | None => Ok acc
    | Some (name, v) => match find_field names name with None => Err err_decode | Some name => field acc name (jprint v) v end
    end) old l.
Proof.
  cbn [decode_struct obj]. revert old. induction l as [|[[name v]|] l IH]; intros old; cbn; [done| |by rewrite <-IH].
  destruct (find_field names name) as [n|]; [|done]. cbn. destruct (field old n (jprint v) v); cbn; [by rewrite <-IH|done].
Qed.
Lemma foldM_cons {A B} (f : A → B → result A) a x l : foldM f a (x :: l) = (b ← f a x; foldM f b l).
Proof. reflexivity. Qed.

(** Evaluates the choice of a field by its name. *)
Ltac field_names :=
  repeat match goal with
  | |- context [find_field ?ns ?n] => let r := eval vm_compute in (find_field ns n) in change (find_field ns n) with r
  | |- context [bool_decide (?a = ?b)] =>
      let r := eval vm_compute in (bool_decide (a = b)) in lazymatch r with true => idtac | false => idtac end; change (bool_decide (a = b)) with r
  end; cbv beta iota zeta.
Ltac field_step := rewrite foldM_cons; cbv beta iota zeta; field_names; field_names.

Lemma decode_strings_tree l : decode_list decode_string "" [] (strings_tree l) = Ok l.
Proof. exact (decode_strings l). Qed.
Lemma decode_selector_tree s : decode_selector Selector_zero (selector_tree s) = Ok s.
Proof.
  unfold decode_selector, selector_tree. rewrite decode_obj. destruct s as [cl ex nm]. cbn [Classes Extensions Names]. unfold unless_empty.
  assert (∀ l : list string, l = [] ∨ bool_decide (l = []) = false) as Hcase by (intros []; auto).
  destruct (Hcase cl) as [->|Hcl], (Hcase ex) as [->|Hex], (Hcase nm) as [->|Hnm]; rewrite ?Hcl, ?Hex, ?Hnm;
    repeat (field_step; cbn [mbind result_bind Classes Extensions Names Selector_zero]; rewrite ?decode_strings_tree; field_names; cbn [mbind result_bind Classes Extensions Names]); reflexivity.
Qed.
Lemma Ok_bind {A B} (f : A → result B) (a : A) : (Ok a ≫= f) = f a.
Proof. reflexivity. Qed.
Ltac field_value := cbn [decode_string]; rewrite ?decode_strings_tree; field_names; rewrite ?Ok_bind.

Lemma decode_rule_tree r : decode_rule Rule_zero (rule_tree r) = Ok r.
Proof.
  unfold decode_rule, rule_tree. rewrite decode_obj. destruct r as [p pa caps ft vis]. cbn [PolicyID Path Capabilities FileTypes Visibility].
  do 3 (field_step; field_value). destruct ft as [s|]; cbn [fmap option_fmap option_map].
  - field_step. pose proof (decode_selector_tree s) as Hs. unfold selector_tree, obj in Hs |- *. cbv beta iota.
    lazymatch goal with |- context [decode_selector ?d (JObject _)] => change d with Selector_zero end. rewrite Hs. field_value.
    destruct (bool_decide_reflect (vis = "")) as [->|Hv]; [done|]. by field_step; field_value.
  - field_step. field_value. destruct (bool_decide_reflect (vis = "")) as [->|Hv]; [done|]. by field_step; field_value.
Qed.

Lemma decode_rules l : decode_elements decode_rule Rule_zero [] (rule_tree <$> l) = Ok l.
Proof. induction l as [|r l IH]; [done|]. cbn [fmap list_fmap decode_elements head tail default]. rewrite decode_rule_tree, Ok_bind. cbn [fmap] in IH. by rewrite IH. Qed.
Lemma decode_context_tree c : int64 (filetypes.Version c) → decode_context {| filetypes.Version := 0; Rules := [] |} (context_tree c) = Ok c.
Proof.
  intros Hv. unfold decode_context, context_tree. rewrite decode_obj. destruct c as [v rs]. cbn [filetypes.Version Rules] in *.
  field_step. cbn [decode_int]. rewrite ParseInt64_int by done. field_value. field_step. cbn [decode_list Rules]. by rewrite decode_rules.
Qed.

(** ** No name twice, and no deep nesting *)

Section Unique.
Context {U : Unicode}.

Lemma sublist_map {A B} (f : A → B) l k : l `sublist_of` k → f <$> l `sublist_of` f <$> k.
Proof. induction 1; cbn; by constructor. Qed.
Lemma sublist_names (ns : list string) (l : list (option (string * json))) :
  Forall2 (λ n o, match o with Some m => m.1 = n | None => True end) ns l → (member <$> omap id l).*1 `sublist_of` ns.
Proof. induction 1 as [|n [[m v]|] ns l Hn _ IH]; cbn in *; [done| |]; [subst; by constructor|by constructor]. Qed.
Lemma unique_obj ns depth l : depth ≤ 64 → bool_decide (NoDup (ToLower <$> ns)) = true →
  Forall2 (λ n o, match o with Some m => m.1 = n ∧ unique_value (depth + 1) m.2 = true | None => True end) ns l → unique_value depth (obj l) = true.
Proof.
  intros Hd Hns%bool_decide_eq_true_1 Hl. unfold obj. cbn [unique_value]. rewrite (proj2 (Z.ltb_ge _ _)) by lia. rewrite bool_decide_true; cbn [andb].
  - apply forallb_forall. intros m Hm%list_elem_of_In. clear Hns. induction Hl as [|n [[n' v]|] ns l Hn _ IH]; cbn in Hm; [by apply elem_of_nil in Hm| |by apply IH].
    apply elem_of_cons in Hm as [->|Hm]; [naive_solver|by apply IH].
  - change (λ m : string * (string * json), ToLower m.1) with (ToLower ∘ @fst string (string * json)). rewrite list_fmap_compose. eapply sublist_NoDup; [exact Hns|]. apply sublist_map, sublist_names.
    eapply Forall2_impl; [exact Hl|]. intros n [m|]; naive_solver.
Qed.
Lemma unique_array {A} (f : A → json) depth l : depth ≤ 64 → (∀ a, a ∈ l → unique_value (depth + 1) (f a) = true) → unique_value depth (JArray (f <$> l)) = true.
Proof.
  intros Hd Hl. cbn [unique_value]. rewrite (proj2 (Z.ltb_ge _ _)) by lia. apply forallb_forall. intros v (a & -> & Ha)%list_elem_of_In%list_elem_of_fmap. by apply Hl.
Qed.
Lemma unique_strings depth l : depth < 64 → unique_value depth (strings_tree l) = true.
Proof. intros Hd. apply unique_array; [lia|]. intros s _. cbn [unique_value]. by rewrite (proj2 (Z.ltb_ge _ _)) by lia. Qed.
Lemma unique_string depth s : depth ≤ 64 → unique_value depth (JString s) = true.
Proof. intros Hd. cbn [unique_value]. by rewrite (proj2 (Z.ltb_ge _ _)) by lia. Qed.
Lemma unique_int depth z : depth ≤ 64 → int64 z → unique_value depth (JNumber (json_int z)) = true.
Proof. intros Hd Hz. cbn [unique_value]. rewrite (proj2 (Z.ltb_ge _ _)) by lia. by rewrite int_overflows. Qed.

Lemma unique_selector depth s : depth < 63 → unique_value depth (selector_tree s) = true.
Proof.
  intros Hd. apply (unique_obj ["classes"; "extensions"; "names"]); [lia|by vm_compute|]. unfold unless_empty.
  repeat (constructor; [case_bool_decide; [done|split; [done|by apply unique_strings; lia]]|]). constructor.
Qed.
Lemma unique_rule depth r : depth < 62 → unique_value depth (rule_tree r) = true.
Proof.
  intros Hd. apply (unique_obj ["policy_id"; "path"; "capabilities"; "file_types"; "visibility"]); [lia|by vm_compute|].
  repeat apply Forall2_cons_2; [..|apply Forall2_nil_2].
  - split; [done|apply unique_string; lia].
  - split; [done|apply unique_string; lia].
  - split; [done|apply unique_strings; lia].
  - destruct (FileTypes r) as [s|]; cbn; [|done]. split; [done|apply unique_selector; lia].
  - case_bool_decide; [done|]. split; [done|apply unique_string; lia].
Qed.
Lemma unique_context depth c : depth < 60 → int64 (filetypes.Version c) → unique_value depth (context_tree c) = true.
Proof.
  intros Hd Hv. apply (unique_obj ["version"; "rules"]); [lia|by vm_compute|]. repeat apply Forall2_cons_2; [..|apply Forall2_nil_2].
  - split; [done|apply unique_int; [lia|done]].
  - split; [done|]. apply unique_array; [lia|]. intros r _. apply unique_rule; lia.
Qed.

(** A context the Control Tower marshals decodes to the filter it compiles to. *)
Lemma DecodeContext_json c f : utf8_context c → int64 (filetypes.Version c) → DecodeContext (json_context c) = Ok f ↔ Compile c = Ok f.
Proof.
  intros Hc Hv. pose proof (printed_context c Hc) as Hp. destruct (printed_starts _ Hp) as (ch & r & Hr & _).
  unfold DecodeContext, validateUniqueJSON. rewrite bool_decide_false by (rewrite json_context_tree, Hr; done). cbn [orb].
  destruct (MaxContextBytes <? len (json_context c)) eqn:Hlen.
  - split; [done|]. unfold Compile. rewrite Hlen. cbn [fail_if]. by destruct (negb _ || _).
  - rewrite json_context_tree, (json_parse_printed _ Hp), !Ok_bind, unique_context by (done || lia). cbn [negb fail_if]. rewrite Ok_bind.
    by rewrite decode_context_tree.
Qed.
End Unique.

(** * Claims *)

Import signedauth.

Definition text (name s : string) : option (string * json) := Some (name, JString s).
Definition binding_tree (b : Binding) : json :=
  obj [text "actor_id" (ActorID b); text "credential_id" (CredentialID b); text "operation" (Operation b); text "request_id" (RequestID b);
       text "source_node_id" (SourceNodeID b); text "source_grant_id" (SourceGrantID b); text "source_mount_id" (SourceMountID b);
       text "source_root" (SourceRoot b); text "destination_node_id" (DestinationNodeID b); text "destination_grant_id" (DestinationGrantID b);
       text "destination_mount_id" (DestinationMountID b); text "destination_root" (DestinationRoot b); text "plan_id" (PlanID b);
       if JobOptionsDigest b =s "" then None else text "job_options_digest" (JobOptionsDigest b)].
Definition claims_tree (c : Claims) (ctx : Context) : json :=
  obj [Some ("version", JNumber (json_int (claims_Version c))); text "key_id" (KeyID c); Some ("binding", binding_tree (claims_Binding c));
       Some ("issued_at", JNumber (json_int (IssuedAt c))); Some ("expires_at", JNumber (json_int (ExpiresAt c))); Some ("context", context_tree ctx)].

Lemma binding_json_tree b : binding_json b = jprint (binding_tree b).
Proof. unfold binding_tree. rewrite jprint_obj. unfold binding_json, omitempty_string. do 14 f_equal. f_equal. f_equal. by case_bool_decide. Qed.
Lemma claims_json_tree c ctx : claims_Context c = json_context ctx → utf8_context ctx → claims_json c = Ok (jprint (claims_tree c ctx)).
Proof.
  intros Hc Hu. unfold claims_json, claims_tree. rewrite Hc, jprint_obj, json_context_tree, RawMessage_printed, Ok_bind by by apply printed_context.
  cbn. by rewrite binding_json_tree.
Qed.

Lemma decode_binding_tree b : decode_binding Binding_zero (binding_tree b) = Ok b.
Proof.
  unfold decode_binding, binding_tree, text. rewrite decode_obj. destruct b as [a1 a2 a3 a4 a5 a6 a7 a8 a9 a10 a11 a12 a13 d]. cbn [ActorID CredentialID Operation RequestID SourceNodeID SourceGrantID SourceMountID SourceRoot DestinationNodeID DestinationGrantID DestinationMountID DestinationRoot PlanID JobOptionsDigest].
  do 13 (field_step; field_value). destruct (bool_decide_reflect (d = "")) as [->|Hd]; [reflexivity|]. field_step. field_value. reflexivity.
Qed.
Lemma decode_claims_tree c ctx : claims_Context c = json_context ctx → int64 (claims_Version c) → int64 (IssuedAt c) → int64 (ExpiresAt c) →
  decode_claims Claims_zero (claims_tree c ctx) = Ok c.
Proof.
  intros Hc Hv Hi He. unfold decode_claims, claims_tree, text. rewrite decode_obj. destruct c as [v k b i e x]. cbn [claims_Version KeyID claims_Binding IssuedAt ExpiresAt claims_Context] in *.
  field_step. cbn [decode_int]. rewrite ParseInt64_int by done. field_value. field_step. field_value.
  field_step. lazymatch goal with |- context [decode_binding ?d _] => change d with Binding_zero end. rewrite decode_binding_tree. field_value.
  field_step. cbn [decode_int]. rewrite ParseInt64_int by done. field_value.
  field_step. cbn [decode_int]. rewrite ParseInt64_int by done. field_value.
  field_step. rewrite <-json_context_tree, <-Hc. reflexivity.
Qed.

(** ** What the claims carry *)

Lemma identifier_utf8 v required : identifier v required = true → utf8 v.
Proof.
  unfold identifier, utf8. destruct (bool_decide_reflect (v = "")) as [->|]; [done|]. destruct (_ || _) eqn:Ho; [done|]. intros _. by bool_to_prop.
Qed.
Lemma endpoint_utf8 node grant mount root : endpoint node grant mount root = true → utf8 root.
Proof.
  unfold endpoint, utf8. destruct (bool_decide_reflect (node = "")) as [->|]; [intros; bool_to_prop; by subst|]. destruct (_ || _) eqn:Ho; [done|]. intros _. by bool_to_prop.
Qed.
Lemma digest_utf8 digest : validJobOptionsDigest digest = true → utf8 digest.
Proof.
  unfold validJobOptionsDigest. destruct (bool_decide_reflect (digest = "")) as [->|]; [done|]. destruct (RawURL_DecodeString digest) as [d|]; [|done].
  intros Hd. bool_to_prop. subst digest. apply ascii_valid. intros c Hc. by apply RawURL_EncodeToString_bytes in Hc as [? _].
Qed.

Definition texts (b : Binding) : list string :=
  [ActorID b; CredentialID b; Operation b; RequestID b; SourceNodeID b; SourceGrantID b; SourceMountID b; SourceRoot b;
   DestinationNodeID b; DestinationGrantID b; DestinationMountID b; DestinationRoot b; PlanID b; JobOptionsDigest b].
Lemma validate_utf8 c : validate c = Ok () → utf8 (KeyID c) ∧ Forall utf8 (texts (claims_Binding c)).
Proof.
  unfold validate. intros H. inv_ok. unfold fail_if in *. repeat (case_match; try done). simplify_eq.
  repeat match goal with H : _ || _ = false |- _ => apply orb_false_iff in H as [? ?] end.
  bool_to_prop. cbn [forallb] in *. bool_to_prop. split; [by eapply identifier_utf8|]. unfold texts.
  repeat (constructor; [first [by eapply identifier_utf8|by eapply endpoint_utf8|by apply digest_utf8]|]). constructor.
Qed.

Lemma printed_text name s : utf8 name → utf8 s → match text name s with Some m => ValidString m.1 = true ∧ printed m.2 | None => True end.
Proof. intros Hn Hs. split; [done|by constructor]. Qed.
Lemma printed_binding b : Forall utf8 (texts b) → printed (binding_tree b).
Proof.
  intros Hb. unfold texts in Hb. repeat match goal with H : Forall utf8 (_ :: _) |- _ => apply Forall_cons in H as [? H] end. apply printed_obj.
  repeat apply Forall_cons_2; try (by apply printed_text); [|constructor]. case_bool_decide; [done|by apply printed_text].
Qed.
Lemma printed_claims c ctx : validate c = Ok () → utf8_context ctx → printed (claims_tree c ctx).
Proof.
  intros [Hk Hb]%validate_utf8 Hx. apply printed_obj. repeat apply Forall_cons_2; [..|constructor].
  - split; [done|constructor].
  - by apply printed_text.
  - split; [done|by apply printed_binding].
  - split; [done|constructor].
  - split; [done|constructor].
  - split; [done|by apply printed_context].
Qed.

Section Signed.
Context {U : Unicode} {C : Crypto} {CO : CryptoOk C}.

Lemma unique_text depth name s : depth < 64 → match text name s with Some m => m.1 = name ∧ unique_value (depth + 1) m.2 = true | None => True end.
Proof. intros Hd. split; [done|apply unique_string; lia]. Qed.
Lemma unique_binding depth b : depth < 64 → unique_value depth (binding_tree b) = true.
Proof.
  intros Hd. apply (unique_obj binding_fields); [lia|by vm_compute|]. repeat apply Forall2_cons_2; try (by apply unique_text); [|constructor].
  case_bool_decide; [done|by apply unique_text].
Qed.
Lemma unique_claims c ctx : int64 (claims_Version c) → int64 (IssuedAt c) → int64 (ExpiresAt c) → int64 (filetypes.Version ctx) →
  unique_value 0 (claims_tree c ctx) = true.
Proof.
  intros Hv Hi He Hx. apply (unique_obj claims_fields); [lia|by vm_compute|]. repeat apply Forall2_cons_2; [..|constructor].
  - split; [done|by apply unique_int].
  - by apply unique_text.
  - split; [done|by apply unique_binding].
  - split; [done|by apply unique_int].
  - split; [done|by apply unique_int].
  - split; [done|by apply unique_context].
Qed.

Lemma Sign_inv c key token : Sign c key = Ok token → len key = PrivateKeySize ∧ validate c = Ok () ∧ is_ok (DecodeContext (claims_Context c)) = true ∧
  ∃ payload, claims_json c = Ok payload ∧ len payload ≤ maxPayloadBytes ∧
    token = RawURL_EncodeToString payload +++ String dot (RawURL_EncodeToString (ed25519_Sign key (domain +++ payload))).
Proof.
  unfold Sign. destruct (_ || _) eqn:Hk; [done|]. destruct (is_ok (DecodeContext _)); [|done]. cbn [negb]. destruct (claims_json c) as [p|]; [|done].
  destruct (maxPayloadBytes <? len p) eqn:Hp; [done|]. intros [= <-]. bool_to_prop. split_and!; [done|by apply is_ok_unit|done|]. eexists. by split_and!.
Qed.

Lemma no_dot s : dot ∉ bytes (RawURL_EncodeToString s).
Proof. intros Hd. by apply RawURL_EncodeToString_bytes in Hd as [_ []]. Qed.
Lemma token_parts a b : Split dot (RawURL_EncodeToString a +++ String dot (RawURL_EncodeToString b)) = [RawURL_EncodeToString a; RawURL_EncodeToString b].
Proof. rewrite Split_app, !Split_no_sep_id by apply no_dot. done. Qed.
Lemma token_len a b n m : len a ≤ n → len b = m → len (RawURL_EncodeToString a +++ String dot (RawURL_EncodeToString b)) ≤ RawURL_EncodedLen n + 1 + RawURL_EncodedLen m.
Proof.
  intros Ha <-. rewrite <-!RawURL_EncodeToString_len. assert (len (RawURL_EncodeToString a) ≤ RawURL_EncodedLen n) as Hl.
  { rewrite RawURL_EncodeToString_len. unfold RawURL_EncodedLen. pose proof (Z.div_le_mono (len a) n 3 ltac:(lia) Ha).
    pose proof (Z.div_mod (len a) 3). pose proof (Z.div_mod n 3). pose proof (Z.mod_pos_bound (len a) 3). pose proof (Z.mod_pos_bound n 3). lia. }
  unfold len in *. rewrite append_length. cbn [String.length]. lia.
Qed.

(** A signed envelope verifies while it lasts. *)
Lemma signed_verifies c ctx key token keys now :
  claims_Context c = json_context ctx → utf8_context ctx → int64 (filetypes.Version ctx) → int64 (ExpiresAt c) →
  Sign c key = Ok token → keys !! KeyID c = Some (ed25519_Public key) → IssuedAt c ≤ Unix now < ExpiresAt c →
  ∃ f, Compile ctx = Ok f ∧ verifySigned token keys now = Ok (c, f).
Proof.
  intros Hc Hx Hvx He (Hkey & Hv & Hd & payload & Hp & Hlen & ->)%Sign_inv Hk Ht.
  destruct (DecodeContext (claims_Context c)) as [f|] eqn:Hf; [|done]. pose proof (validate_sound c Hv) as Hval.
  assert (int64 (claims_Version c)) by (rewrite (vc_version _ Hval); unfold int64; lia).
  assert (int64 (IssuedAt c)) by (pose proof (vc_interval _ Hval); unfold int64 in *; lia).
  rewrite (claims_json_tree c ctx) in Hp by done. assert (jprint (claims_tree c ctx) = payload) as Hp' by congruence. clear Hp. rename Hp' into Hp. pose proof (printed_claims c ctx Hv Hx) as Hpr.
  assert (verifySigned (RawURL_EncodeToString payload +++ String dot (RawURL_EncodeToString (ed25519_Sign key (domain +++ payload)))) keys now = Ok (c, f)) as Hver.
  { unfold verifySigned. rewrite (proj2 (Z.ltb_ge _ _)) by (apply token_len; [done|by apply signature_size]). rewrite token_parts, !RawURL_round_trip. rewrite (proj2 (Z.ltb_ge _ _)) by done.
    unfold validateUniqueJSON. rewrite <-Hp, (json_parse_printed _ Hpr), !Ok_bind, unique_claims by done. rewrite bool_decide_false by (by destruct (printed_starts _ Hpr) as (? & ? & -> & _)).
    cbn [negb fail_if is_ok orb]. rewrite decode_claims_tree by done. rewrite Hv. cbn [is_ok negb]. rewrite Hk. change (default "" (Some (ed25519_Public key))) with (ed25519_Public key). rewrite Hp.
    rewrite (bool_decide_true (len _ = PublicKeySize)), (bool_decide_true (len _ = SignatureSize)) by (by apply public_size || by apply signature_size).
    rewrite verify_sign by done. cbn [negb orb]. rewrite (proj2 (Z.ltb_ge _ _)), (proj2 (Z.leb_gt _ _)) by lia. cbn [orb]. by rewrite Hf. }
  exists f. split; [apply DecodeContext_json; [done..|]; by rewrite <-Hc|exact Hver].
Qed.
Lemma Verify_accepts token keys now c f node :
  verifySigned token keys now = Ok (c, f) → node ≠ "" → node = SourceNodeID (claims_Binding c) ∨ node = DestinationNodeID (claims_Binding c) →
  Verify token keys (claims_Binding c) node now = Ok (c, f).
Proof.
  intros Hver Hn Hside. unfold Verify. rewrite Hver. rewrite (bool_decide_true (claims_Binding c = claims_Binding c)), (bool_decide_false (node = "")) by done.
  cbn [negb orb]. destruct Hside as [<-|<-]; rewrite (bool_decide_true (node = node)) by done; cbn [negb andb]; [done|]. by rewrite andb_false_r.
Qed.

(** C7. What the Control Tower signs, a node that trusts its key accepts while it
    lasts: the envelope carries the claims it was made of, and the filter the node
    works with is the one the context compiles to. *)
Theorem sign_verify c ctx key token keys now :
  claims_Context c = json_context ctx → utf8_context ctx → int64 (filetypes.Version ctx) → int64 (ExpiresAt c) →
  Sign c key = Ok token → keys !! KeyID c = Some (ed25519_Public key) → IssuedAt c ≤ Unix now < ExpiresAt c →
  ∃ f, Compile ctx = Ok f ∧ verifySigned token keys now = Ok (c, f) ∧
    ∀ node, node ≠ "" → node = SourceNodeID (claims_Binding c) ∨ node = DestinationNodeID (claims_Binding c) →
      Verify token keys (claims_Binding c) node now = Ok (c, f).
Proof.
  intros Hc Hx Hvx He Hs Hk Ht. destruct (signed_verifies c ctx key token keys now) as (f & Hf & Hver); [done..|].
  exists f. split_and!; [done..|]. intros node ? ?. by apply Verify_accepts.
Qed.
End Signed.
