(* ===== verification/SignedAuthExamples.v ===== *)
(** Concrete envelopes: the theorems of SignedAuthFacts.v applied where their
    hypotheses hold, with a stand-in for the signature scheme, and a context
    whose repeated field the check for repeated names does not see. *)
From S2P Require Import Prelude GoLib Base64 Json FileTypes Entities SignedAuth SignedAuthFacts.
From stdpp Require Import options.
Import signedauth.
Local Open Scope Z_scope.
#[local] Existing Instance latin1_unicode.

(** ** A signature scheme to compute with *)

Fixpoint fit (n : nat) (s : string) : string :=
  match n with
  | O => ""
  | S n => match s with "" => String "0" (fit n "") | String c s => String c (fit n s) end
  end.
Definition demo_crypto : Crypto := {|
  sha256_Sum m := fit 32 (String.rev m);
  ed25519_Public k := fit 32 k;
  ed25519_Sign k m := fit 32 k +++ fit 32 (String.rev m);
  ed25519_Verify p m s := bool_decide (s = p +++ fit 32 (String.rev m));
|}.
#[local] Existing Instance demo_crypto.

Lemma fit_length n s : len (fit n s) = Z.of_nat n.
Proof.
  unfold len. revert s. induction n as [|n IH]; intros s; [done|].
  destruct s; simpl; rewrite Nat2Z.inj_succ, IH; lia.
Qed.

#[local] Arguments fit : simpl never.
Lemma demo_crypto_ok : CryptoOk demo_crypto.
Proof.
  split; intros; simpl.
  - apply fit_length.
  - apply fit_length.
  - unfold len. rewrite append_length, Nat2Z.inj_add. fold (len (fit 32 k)). fold (len (fit 32 (String.rev m))).
    by rewrite !fit_length.
  - by apply bool_decide_eq_true.
Qed.

(** ** A read and a lease *)

Definition demo_key : string := fit 64 "control".
Definition demo_keys : gmap string string := {[ "k1" := ed25519_Public demo_key ]}.
Definition demo_context : string := "{" +++ json_field "version" "1" +++ "," +++ json_field "rules" "[]" +++ "}".
Definition read_binding : Binding :=
  mkBinding "alice" "cred-1" "list" "req-1" "node-1" "" "m1" "docs/a" "" "" "" "" "" "".
Definition read_claims : Claims := mkClaims 1 "k1" read_binding 100 120 demo_context.
Definition lease_scope : Binding :=
  mkBinding "alice" "cred-1" "delete" "" "node-1" "" "m1" "docs/a" "" "" "" "" "job-1" "".
Definition lease_binding : Binding := lease_scope <| RequestID := JobLeaseRequestID "job-1" 7 |>.
Definition lease_claims : Claims := mkClaims 1 "k1" lease_binding 100 120 demo_context.
Definition token_of (c : Claims) : string := match Sign c demo_key with Ok token => token | Err _ => "" end.
Definition empty_filter : filetypes.Filter := {| filetypes.rules := [] |}.
Definition at_110 : time := 110 * second.

Lemma verify_signed_sound_witness :
  envelope_of (token_of read_claims) demo_keys read_claims ∧ valid_claims read_claims ∧
  IssuedAt read_claims ≤ Unix at_110 < ExpiresAt read_claims ∧ ExpiresAt read_claims ≤ IssuedAt read_claims + 30 ∧
  filetypes.DecodeContext (claims_Context read_claims) = Ok empty_filter.
Proof. apply verify_signed_sound. vm_compute. reflexivity. Defined.


Example read_is_no_lease :
  present (token_of read_claims) demo_keys "node-1" (JobLease lease_scope 7) at_110 = Err ErrInvalid.
Proof. vm_compute. reflexivity. Qed.

Example lease_of_another_revision :
  present (token_of lease_claims) demo_keys "node-1" (JobLease lease_scope 8) at_110 = Err ErrInvalid.
Proof. vm_compute. reflexivity. Qed.

Lemma verified_roots_are_local_witness :
  "docs/a" = "." ∨
  ("docs/a" ≠ "" ∧ path_Clean "docs/a" = "docs/a" ∧ (backslash ∉ bytes "docs/a") ∧ (NUL ∉ bytes "docs/a") ∧
   ∀ part, part ∈ Split slash "docs/a" → part ≠ "" ∧ part ≠ "." ∧ part ≠ "..").
Proof.
  apply (verified_roots_are_local (token_of read_claims) demo_keys at_110 read_claims empty_filter).
  - vm_compute. reflexivity.
  - left. split; [reflexivity|discriminate].
Defined.

(** ** A field given twice *)

Definition member (name value : string) : string := json_field name value.
(** The field name rules with its last letter as U+017F, the long s. *)
Definition rules_long_s : string := quote +++ "rule" +++ encode_rune 383 +++ quote.
Definition one_rule (capability : string) : string :=
  "[{" +++ member "policy_id" (json_string "p") +++ "," +++ member "path" (json_string "nodes/**") +++ "," +++
  member "capabilities" (json_list json_string [capability]) +++ "}]".
Definition twice : string :=
  "{" +++ member "version" "1" +++ "," +++ member "rules" (one_rule "deny") +++ "," +++
  rules_long_s +++ ":" +++ one_rule "read" +++ "}".

(** The check for repeated names compares names by [strings.ToLower], while
    decoding matches a name to a field by case folding, which takes U+017F to s.
    A context that gives its rules twice, once under a name written with U+017F,
    passes the check, and the second rules replace the first: here a denial of
    everything becomes a grant. *)
Theorem repeated_rules_pass :
  filetypes.validateUniqueJSON twice = Ok () ∧
  match filetypes.DecodeContext twice with
  | Ok f => filetypes.Allowed (filetypes.Evaluate (Some f) "nodes/n1" "read" "file") = true
  | Err _ => False
  end.
Proof. split; vm_compute; reflexivity. Qed.
