(* ===== verification/ControlStore.v ===== *)
(** What the issuers of signed authorizations read from package store
    (control/internal/store): the records, and the reads as the class
    [store.Store], whose answers come from the SQL database. *)
From S2P Require Import Prelude GoLib Json FileTypes Rbac Entities.
From stdpp Require Import options.
Local Open Scope Z_scope.

Module store.

Definition ErrNotFound : error := errors_New "not found".

Record User := mkUser {
  User_ID : string;
  Username : string;
  PasswordHash : string;
  Role : string;
  User_Enabled : bool;
  User_CreatedAt : time;
  User_UpdatedAt : time;
}.
Definition User_zero : User := mkUser "" "" "" "" false zero_time zero_time.

Record ServiceAccount := mkServiceAccount {
  Account_Kind : string;
  Account_ID : string;
  Account_Name : string;
  Account_Description : string;
  Account_Enabled : bool;
  Account_CreatedAt : time;
  Account_UpdatedAt : time;
}.

Record AgentLimits := mkAgentLimits {
  RequestsPerMinute : Z;
  Burst : Z;
  MaxConcurrent : Z;
  MaxResponseBytes : Z;
  DailyBytes : Z;
  AllowedCIDRs : list string;
  ReadMediaTypes : list string;
  Limits_Capabilities : option (list string);
  RequestDeletes : bool;
}.
#[global] Instance AgentLimits_eta : Eta AgentLimits := λ l,
  mkAgentLimits (RequestsPerMinute l) (Burst l) (MaxConcurrent l) (MaxResponseBytes l) (DailyBytes l) (AllowedCIDRs l)
    (ReadMediaTypes l) (Limits_Capabilities l) (RequestDeletes l).
Definition DefaultAgentLimits : AgentLimits :=
  mkAgentLimits 60 10 2 (Z.shiftl 16 20) (Z.shiftl 1 30) [] [] None false.

Record ServiceAccountToken := mkServiceAccountToken {
  Token_AgentLimits : option AgentLimits;
  Token_ID : string;
  Token_ServiceAccountID : string;
  Token_Name : string;
  TokenHash : string;
  Token_ExpiresAt : option time;
  Token_LastUsedAt : option time;
  Token_RevokedAt : option time;
  Token_CreatedAt : time;
}.

Record TemporaryPolicyAssignment := mkTemporaryPolicyAssignment {
  Assignment_PolicyID : string;
  Assignment_CreatedBy : string;
  Assignment_CreatedAt : time;
  Assignment_ExpiresAt : time;
}.

Record WorkloadIdentity := mkWorkloadIdentity {
  Identity_AgentLimits : option AgentLimits;
  Identity_CredentialID : string;
  Identity_ServiceAccountID : string;
  Identity_ProviderID : string;
  Identity_Issuer : string;
  Identity_Subject : string;
  Identity_Audience : string;
  Identity_Enabled : bool;
  Identity_Revoked : bool;
  Identity_CreatedAt : time;
  Identity_UpdatedAt : time;
}.

(** * shares.go *)

Record Share := mkShare {
  Share_ID : string;
  Share_TokenHash : string;
  Share_NodeID : string;
  Share_MountID : string;
  Share_Path : string;
  Share_Kind : string;
  Share_Name : string;
  Share_PasswordHash : string;
  HasPassword : bool;
  AllowArchive : bool;
  MaxDownloads : Z;
  DownloadCount : Z;
  CreatedBy : string;
  CreatedByType : string;
  CreatedCredentialID : string;
  Share_CreatedAt : time;
  Share_ExpiresAt : option time;
  Share_RevokedAt : option time;
  LastAccessAt : option time;
}.
Definition Active (s : Share) (now : time) : bool :=
  if bool_decide (is_Some (Share_RevokedAt s)) then false
  else if (match Share_ExpiresAt s with Some e => negb (now <? e) | None => false end) then false
  else if (0 <? MaxDownloads s) && (MaxDownloads s <=? DownloadCount s) then false
  else true.

(** The reads of the store. A call that fails answers with its error. *)
Class Store := {
  SessionUserAndExpiry : string → result (User * time);
  AuthenticateServiceAccount : string → result (ServiceAccount * ServiceAccountToken);
  AuthenticateWorkloadIdentity : string → string → string → string → time → time → result (ServiceAccount * ServiceAccountToken);
  ServiceAccountGroupIDs : string → bool → result (list string);
  NodeInAccessGroup : string → string → result bool;
  TemporaryPolicies : string → string → result (list TemporaryPolicyAssignment);
  RBACPoliciesForSubject : string → string → result (list rbac.Policy);
  GetUser : string → result User;
  GetServiceAccount : string → result ServiceAccount;
  GetActiveServiceAccountToken : string → string → time → result ServiceAccountToken;
  GetWorkloadIdentity : string → string → result WorkloadIdentity;
  ActiveWorkloadIdentity : string → string → string → string → result WorkloadIdentity;
  GetShare : string → result Share;
  GetJobAuthorizationScope : string → string → result string;
}.

End store.
