(* ===== verification/ControlAccess.v ===== *)
(** The issuers of signed authorizations of the Control Tower
    (control/internal/httpapi): who asks, with which credential and policies, what
    context their policies make of a mount, and the envelope that is signed. *)
From S2P Require Import Prelude GoLib Base64 Json FileTypes Rbac Entities SignedAuth ControlStore.
From stdpp Require Import options.
Local Open Scope Z_scope.

(** Packages net/netip, net and mime, as far as the limits of agents use them. *)
Class Netip := {
  Addr : Type;
  Prefix : Type;
  ParseAddr : string → option Addr;
  ParsePrefix : string → option Prefix;
  Unmap : Addr → Addr;
  Prefix_Contains : Prefix → Addr → bool;
  Prefix_MaskedString : Prefix → string;
  SplitHostPort : string → option string;
  ParseMediaType : string → option (string * nat);
}.

Module httpapi.
Import store signedauth.

(** * The request and the server *)

(** [workload.Identity]. *)
Record Identity := mkIdentity {
  ProviderID : string; Issuer : string; Subject : string; Audience : string; Identity_ExpiresAt : time;
}.
Record agentContext := mkAgentContext { limits : AgentLimits; budget : Z }.

(** What the handlers read of an authenticated request. *)
Record Request := mkRequest {
  req_user : option User;
  req_actorType : string;
  req_credential : string;
  req_digest : string;
  req_identity : option Identity;
  req_agent : option agentContext;
  RemoteAddr : string;
  X_Forwarded_For : string;
  Deadline : option time;
  Context_Err : option error;
}.

Record SigningSource := mkSigningSource { Current : string * string; Public : gmap string string }.

Definition currentUser (r : Request) : User := default User_zero (req_user r).
Definition currentActorType (r : Request) : string := if req_actorType r =s "" then "user" else req_actorType r.

Definition errSignedReadUnavailable : error := errors_New "signed local read unavailable".
Definition unavailable {A} : result A := Err errSignedReadUnavailable.

(** [strings.EqualFold] with a text in ASCII. *)
Definition EqualFold (s t : string) : bool := bool_decide (fold_name s = fold_name t).

(** * server.go: paths *)

Definition validPathIdentifier (value : string) : bool :=
  let value := TrimSpace value in
  (value ≠s "") && negb (ContainsAny value "/\?#").

Record authorizationRequirement := mkRequirement { req_Path : string; req_Capability : string }.

(** The loop over the segments; [None] is the early return. *)
Definition scope_segments (relative : string) : option (list string) :=
  foldl (λ (acc : option (list string)) segment,
    match acc with
    | None => None
    | Some segments =>
      if (segment =s "") || (segment =s ".") then Some segments
      else if segment =s ".." then None
      else Some (segments ++ [segment])
    end) (Some []) (Split slash relative).
Definition fileScope (base relative : string) : string :=
  let relative := Trim (ReplaceByte (TrimSpace relative) backslash slash) slash in
  if (relative =s "") || (relative =s ".") then base else
  match scope_segments relative with
  | None => ""
  | Some [] => base
  | Some segments => base +++ "/" +++ Join slash segments
  end.

Section Issue.
Context {U : Unicode} {C : Crypto} {N : Netip} {S : Store}.

(** The configuration of the server the issuers use; the keys of a signing source
    are the ones it holds during the call. *)
Record Server := mkServer {
  config_SigningSource : option SigningSource;
  AuthorizationSigningKeyID : string;
  AuthorizationSigningKey : string;
  WorkloadProviders : option (string → string → string → string → bool);
  TrustedProxies : list Prefix;
  TypedPolicies : bool;
}.
Implicit Types (s : Server) (r : Request) (now : time).

(** * signing_source.go *)

Definition signing s : string * string :=
  match config_SigningSource s with
  | Some source => Current source
  | None => (AuthorizationSigningKeyID s, AuthorizationSigningKey s)
  end.
Definition signingKey s : string := (signing s).2.
Definition signingKeyID s : string := (signing s).1.
Definition verificationKeys s : gmap string string :=
  match config_SigningSource s with
  | Some source => Public source
  | None =>
    if len (AuthorizationSigningKey s) ≠s PrivateKeySize then ∅
    else {[ AuthorizationSigningKeyID s := ed25519_Public (AuthorizationSigningKey s) ]}
  end.

(** * access_context.go *)

Definition mount_scope (mountScope : string) : bool :=
  match Split slash mountScope with
  | [p0; _; p2; p3; _] => (p0 =s "nodes") && (p2 =s "files") && (p3 =s "mounts")
  | _ => false
  end.
Definition Context_zero : filetypes.Context := {| filetypes.Version := 0; filetypes.Rules := [] |}.

(** The body of the inner loop: one rule of one policy. *)
Definition add_context_rule (mountScope policyID : string) (rules : list filetypes.Rule) (rule : rbac.Rule) : result (list filetypes.Rule) :=
  if negb (rbac.ValidPath (rbac.Path rule)) then Err (errors_New "invalid policy rule path")
  else if negb (rbac.RuleTouchesScope (rbac.Path rule) mountScope) then Ok rules
  else if filetypes.zlen rules =? filetypes.MaxContextRules then Err (errors_New "authorization context has too many rules")
  else Ok (rules ++ [rbac.context_rule policyID rule]).
Definition buildMountAccessContext (policies : list rbac.Policy) (mountScope : string) : result filetypes.Context :=
  let mountScope := rbac.NormalizePath mountScope in
  if negb (mount_scope mountScope) || negb (rbac.ValidResourcePath mountScope) then Err (errors_New "invalid mount authorization scope") else
  rules ← foldM (λ rules policy, foldM (add_context_rule mountScope (rbac.ID policy)) rules (rbac.Rules policy)) []
    (rbac.ExpandCompatibilityRules policies);
  let context := {| filetypes.Version := 1; filetypes.Rules := rules |} in
  filetypes.Compile context ≫= λ _, Ok context.

(** * signed_policy_snapshot.go *)

Definition sooner (earliest : option time) (assignment : TemporaryPolicyAssignment) : option time :=
  match earliest with
  | None => Some (Assignment_ExpiresAt assignment)
  | Some e => if Assignment_ExpiresAt assignment <? e then Some (Assignment_ExpiresAt assignment) else earliest
  end.
Definition signedPolicySnapshotLocked (subjectType subjectID : string) : result (list rbac.Policy * option time) :=
  assignments ← TemporaryPolicies subjectType subjectID;
  policies ← RBACPoliciesForSubject subjectType subjectID;
  Ok (policies, foldl sooner None assignments).
(** The lock around it is taken and released; the calls are one at a time. *)
Definition signedPolicySnapshot : string → string → result (list rbac.Policy * option time) := signedPolicySnapshotLocked.

(** * workload_auth.go *)

Definition revalidateServiceCredential s r (wall : time) : result (ServiceAccount * ServiceAccountToken) :=
  match req_identity r with
  | Some identity =>
    match WorkloadProviders s with
    | None => Err ErrNotFound
    | Some allowsMapping =>
      if negb (allowsMapping (ProviderID identity) (Issuer identity) (Subject identity) (Audience identity)) then Err ErrNotFound
      else AuthenticateWorkloadIdentity (ProviderID identity) (Issuer identity) (Subject identity) (Audience identity)
             (Identity_ExpiresAt identity) wall
    end
  | None => if req_digest r =s "" then Err ErrNotFound else AuthenticateServiceAccount (req_digest r)
  end.

(** The loop over the groups of an account. *)
Definition member_of (groups : list string) (nodeID : string) : result bool :=
  foldM (λ member group, allowed ← NodeInAccessGroup group nodeID; Ok (member || allowed)) false groups.

Definition deniesBeyondFilter s (policies : list rbac.Policy) (scope : string) : bool :=
  if TypedPolicies s then rbac.UntypedDeniesWithin policies scope else rbac.DeniesWithin policies scope.

(** The earlier of a deadline, if there is one, and the end so far. *)
Definition ends (deadline : option time) (expires : time) : time :=
  match deadline with Some d => if d <? expires then d else expires | None => expires end.

Definition service_user (account : ServiceAccount) : User :=
  mkUser (Account_ID account) (Account_Name account) "" "service_account" true zero_time zero_time.

(** * signed_job_issuer.go *)

Record signedLocalJob := mkSignedLocalJob {
  job_ID : string;
  Type_ : string;
  job_State : string;
  MountID : string;
  Source : string;
  Destination : string;
  job_Overwrite : bool;
  job_Recursive : bool;
  job_ConflictPolicy : string;
  job_SourceChangePolicy : string;
  job_VerifyChecksum : bool;
  job_BandwidthLimit : Z;
  job_MaxParallelFiles : Z;
  job_MaxParallelChunks : Z;
  job_MaxAttempts : Z;
  PeerNodeID : string;
  job_SourceGrantID : string;
  job_DestinationGrantID : string;
}.
Definition optionsDigest (job : signedLocalJob) : string := 
  options_digest {| Overwrite := job_Overwrite job; Recursive := job_Recursive job; ConflictPolicy := job_ConflictPolicy job;
    SourceChangePolicy := job_SourceChangePolicy job; VerifyChecksum := job_VerifyChecksum job; BandwidthLimit := job_BandwidthLimit job;
    MaxParallelFiles := job_MaxParallelFiles job; MaxParallelChunks := job_MaxParallelChunks job; MaxAttempts := job_MaxAttempts job |}.

Record leaseSubject := mkLeaseSubject {
  actor : User;
  actorType : string;
  credential : string;
  credentialExpiry : option time;
  policies : list rbac.Policy;
  expanded : list rbac.Policy;
  temporaryExpiry : option time;
  admin : bool;
}.

(** The part of [resolveLeaseSubject] that revalidates the credential. *)
Definition lease_credential s r (nodeIDs : list string) (wall : time) : result (User * option time) :=
  let actor := currentUser r in
  if currentActorType r =s "user" then
    match SessionUserAndExpiry (req_digest r) with
    | Err _ => unavailable
    | Ok (current, expiry) =>
      if negb (User_Enabled current) || (User_ID current ≠s User_ID actor) || negb (HasPrefix (req_credential r) "session-")
      then unavailable else Ok (current, Some expiry)
    end
  else if currentActorType r =s "service_account" then
    match revalidateServiceCredential s r wall with
    | Err _ => unavailable
    | Ok (account, key) =>
      if negb (Account_Enabled account) || (Account_Kind account ≠s "automation") || (Account_ID account ≠s User_ID actor)
         || (req_credential r ≠s "token-" +++ Token_ID key) || bool_decide (is_Some (req_agent r)) then unavailable else
      groups ← ServiceAccountGroupIDs (Account_ID account) true;
      foldM (λ _ nodeID, member ← member_of groups nodeID; if negb member then unavailable else Ok ()) () nodeIDs ≫= λ _,
      Ok (service_user account, Token_ExpiresAt key)
    end
  else unavailable.
(** The lock that serializes the reads with administrative changes is taken at the
    start and released by the caller. *)
Definition resolveLeaseSubject s r (nodeIDs : list string) (wall : time) : result leaseSubject :=
  let actor := currentUser r in
  if negb (User_Enabled actor) || (User_ID actor =s "") || (req_credential r =s "") || (req_digest r =s "") then unavailable else
  '(actor, credentialExpiry) ← lease_credential s r nodeIDs wall;
  '(policies, temporaryExpiry) ← signedPolicySnapshotLocked (currentActorType r) (User_ID actor);
  Ok (mkLeaseSubject actor (currentActorType r) (req_credential r) credentialExpiry policies
        (rbac.ExpandCompatibilityRules policies) temporaryExpiry ((currentActorType r =s "user") && (Role actor =s "admin"))).

Definition admin_rule (capabilities : list string) (base : string) : rbac.Rule :=
  {| rbac.Path := base +++ "/**"; rbac.Capabilities := capabilities; rbac.FileTypes := None; rbac.Visibility := "";
     rbac.rule_NeedsApproval := [] |}.
Definition effectivePolicies (subject : leaseSubject) (bases : list string) : list rbac.Policy :=
  if negb (admin subject) then policies subject else
  [{| rbac.ID := "builtin-admin"; rbac.Name := "";
      rbac.Rules := admin_rule ["read"; "list"; "create"; "update"; "delete"] <$> bases |}].

Definition signLease s r (subject : leaseSubject) (binding : Binding) (access : filetypes.Context)
    (required : list authorizationRequirement) (revision : Z) now : result string :=
  match JobLeaseBinding binding revision with
  | Err _ => unavailable
  | Ok binding =>
    filter ← filetypes.Compile access;
    foldM (λ _ requirement,
      let path := req_Path requirement in
      let capability := req_Capability requirement in
      if (path =s "") || deniesBeyondFilter s (expanded subject) path then unavailable
      else if negb (filetypes.Allowed (filetypes.Evaluate (Some filter) path capability "directory"))
              && negb (filetypes.Allowed (filetypes.Evaluate (Some filter) path capability "file")) then unavailable
      else Ok ()) () required ≫= λ _,
    let contextJSON := filetypes.json_context access in
    let expires := now + MaxLifetime in
    let expires := ends (credentialExpiry subject) expires in
    let expires := ends (temporaryExpiry subject) expires in
    let expires := ends (Deadline r) expires in
    let '(signingID, signingKey) := signing s in
    let claims := mkClaims Version signingID binding (Unix now) (Unix expires) contextJSON in
    match Context_Err r with
    | Some e => Err e
    | None => match Sign claims signingKey with Err _ => unavailable | Ok token => Ok token end
    end
  end.

Definition no_signing s : bool := (len (signingKey s) =? 0) || negb (ValidKeyID (signingKeyID s)).
Definition mount_base (nodeID mountID : string) : string := "nodes/" +++ nodeID +++ "/files/mounts/" +++ mountID.

(** The binding of a local job before its destination, and what the [switch] adds. *)
Definition job_binding (subject : leaseSubject) (nodeID : string) (job : signedLocalJob) : Binding :=
  mkBinding (User_ID (actor subject)) (credential subject) (Type_ job) "" nodeID "" (MountID job) (Source job) "" "" "" ""
    (job_ID job) (optionsDigest job).
Definition local_requirements (nodeID : string) (job : signedLocalJob) (binding : Binding) : option (Binding * list authorizationRequirement) :=
  let base := mount_base nodeID (MountID job) in
  let source := fileScope base (Source job) in
  let destination := fileScope base (Destination job) in
  let bound := binding <| DestinationNodeID := nodeID |> <| DestinationMountID := MountID job |> <| DestinationRoot := Destination job |> in
  if Type_ job =s "delete" then Some (binding, [mkRequirement source "delete"])
  else if Type_ job =s "move_local" then
    Some (bound, [mkRequirement source "read"; mkRequirement source "update"; mkRequirement destination "create"; mkRequirement destination "update"])
  else if Type_ job =s "copy_local" then
    let parent := fileScope base (path_Dir (Destination job)) in
    Some (bound, [mkRequirement source "read"; mkRequirement parent "create"; mkRequirement parent "update"])
  else None.

Definition issueSignedLocalJobLease s r (nodeID : string) (job : signedLocalJob) (revision : Z) now (wall : time) : result string :=
  if no_signing s || negb (validPathIdentifier nodeID) || negb (validPathIdentifier (job_ID job)) || negb (validPathIdentifier (MountID job))
  then unavailable else
  subject ← resolveLeaseSubject s r [nodeID] wall;
  let decision := rbac.Evaluate (expanded subject) ("nodes/" +++ nodeID +++ "/jobs/" +++ job_ID job) "execute" in
  if negb (admin subject) && (negb (rbac.Allowed decision) || rbac.Denied decision) then unavailable else
  let base := mount_base nodeID (MountID job) in
  match local_requirements nodeID job (job_binding subject nodeID job) with
  | None => unavailable
  | Some (binding, required) =>
    access ← buildMountAccessContext (effectivePolicies subject [base]) base;
    signLease s r subject binding access required revision now
  end.

(** * signed_transfer_issuer.go *)

Record transferScope := mkTransferScope {
  scope_SourceNodeID : string;
  scope_SourceMountID : string;
  SourceGrantRoot : string;
  SourcePaths : list string;
  DestinationPath : string;
  MayOverwrite : bool;
  scope_Operation : string;
}.
#[global] Instance transferScope_eta : Eta transferScope := λ t,
  mkTransferScope (scope_SourceNodeID t) (scope_SourceMountID t) (SourceGrantRoot t) (SourcePaths t) (DestinationPath t) (MayOverwrite t) (scope_Operation t).
Definition transferScope_zero : transferScope := mkTransferScope "" "" "" [] "" false "".
Definition moves (scope : transferScope) : bool := scope_Operation scope =s "move".
Definition rootPath (value : string) : string := if value =s "" then "." else value.

(** [json.Unmarshal] into a struct: a name that no field has is skipped. *)
Definition unmarshal_struct {A} (names : list string) (field : A → string → json → result A) (old : A) (v : json) : result A :=
  match v with
  | JObject ms =>
      foldM (λ acc (m : string * (string * json)),
        match find_field names m.1 with None => Ok acc | Some name => field acc name m.2.2 end) old ms
  | JNull => Ok old
  | _ => Err err_decode
  end.
Definition decode_bool (old : bool) (v : json) : result bool :=
  match v with JBool b => Ok b | JNull => Ok old | _ => Err err_decode end.
Definition decode_scope (raw : string) : result transferScope :=
  v ← json_parse raw;
  unmarshal_struct ["source_node_id"; "source_mount_id"; "source_grant_root"; "source_paths"; "destination_path"; "may_overwrite"; "operation"]
    (λ acc name v,
      if name =s "source_node_id" then x ← decode_string (scope_SourceNodeID acc) v; Ok (acc <| scope_SourceNodeID := x |>)
      else if name =s "source_mount_id" then x ← decode_string (scope_SourceMountID acc) v; Ok (acc <| scope_SourceMountID := x |>)
      else if name =s "source_grant_root" then x ← decode_string (SourceGrantRoot acc) v; Ok (acc <| SourceGrantRoot := x |>)
      else if name =s "source_paths" then x ← decode_list decode_string "" (SourcePaths acc) v; Ok (acc <| SourcePaths := x |>)
      else if name =s "destination_path" then x ← decode_string (DestinationPath acc) v; Ok (acc <| DestinationPath := x |>)
      else if name =s "may_overwrite" then x ← decode_bool (MayOverwrite acc) v; Ok (acc <| MayOverwrite := x |>)
      else x ← decode_string (scope_Operation acc) v; Ok (acc <| scope_Operation := x |>)) transferScope_zero v.

Definition mergeAccessContexts (parts : list filetypes.Context) : result filetypes.Context :=
  let merged := {| filetypes.Version := 1; filetypes.Rules := parts ≫= filetypes.Rules |} in
  if filetypes.MaxContextRules <? filetypes.zlen (filetypes.Rules merged) then Err (errors_New "authorization context has too many rules")
  else filetypes.Compile merged ≫= λ _, Ok merged.

Definition transfer_requirements (sourceBase destinationBase : string) (scope : transferScope) : list authorizationRequirement :=
  let destination := fileScope destinationBase (DestinationPath scope) in
  (SourcePaths scope ≫= λ root,
     mkRequirement (fileScope sourceBase root) "read" ::
     (if moves scope then [mkRequirement (fileScope sourceBase root) "update"; mkRequirement (fileScope sourceBase root) "delete"] else [])) ++
  mkRequirement destination "create" ::
  (if MayOverwrite scope then [mkRequirement destination "update"] else []).

(** The job describes exactly the scope it was created with. *)
Definition transfer_mismatch (job : signedLocalJob) (scope : transferScope) : bool :=
  let jobType := if moves scope then "transfer_move_batch" else "transfer_pull_batch" in
  (scope_Operation scope ≠s "") && (scope_Operation scope ≠s "copy") && negb (moves scope) || (Type_ job ≠s jobType)
  || (PeerNodeID job ≠s scope_SourceNodeID scope) || (rootPath (Source job) ≠s rootPath (SourceGrantRoot scope))
  || (rootPath (Destination job) ≠s rootPath (DestinationPath scope)) || (job_SourceGrantID job =s "") || (job_DestinationGrantID job =s "").

Definition transfer_binding (subject : leaseSubject) (destinationNodeID : string) (job : signedLocalJob) (scope : transferScope) : Binding :=
  mkBinding (User_ID (actor subject)) (credential subject) (if moves scope then "transfer_move_batch" else "transfer_pull_batch") ""
    (scope_SourceNodeID scope) (job_SourceGrantID job) (scope_SourceMountID scope) (rootPath (SourceGrantRoot scope))
    destinationNodeID (job_DestinationGrantID job) (MountID job) (rootPath (DestinationPath scope)) (job_ID job) (optionsDigest job).

Definition issueSignedTransferLeaseFor s r (destinationNodeID : string) (job : signedLocalJob) (scope : transferScope) (revision : Z)
    now (wall : time) : result string :=
  if no_signing s || negb (validPathIdentifier destinationNodeID) || negb (validPathIdentifier (job_ID job))
     || negb (validPathIdentifier (MountID job)) || negb (validPathIdentifier (scope_SourceNodeID scope))
     || negb (validPathIdentifier (scope_SourceMountID scope)) || bool_decide (SourcePaths scope = [])
     || (scope_SourceNodeID scope =s destinationNodeID) then unavailable else
  if transfer_mismatch job scope then unavailable else
  subject ← resolveLeaseSubject s r [destinationNodeID; scope_SourceNodeID scope] wall;
  let decision := rbac.Evaluate (expanded subject) ("nodes/" +++ destinationNodeID +++ "/transfers") "execute" in
  if negb (admin subject) && (negb (rbac.Allowed decision) || rbac.Denied decision) then unavailable else
  let sourceBase := mount_base (scope_SourceNodeID scope) (scope_SourceMountID scope) in
  let destinationBase := mount_base destinationNodeID (MountID job) in
  let required := transfer_requirements sourceBase destinationBase scope in
  let policies := effectivePolicies subject [sourceBase; destinationBase] in
  sourceContext ← buildMountAccessContext policies sourceBase;
  destinationContext ← buildMountAccessContext policies destinationBase;
  access ← mergeAccessContexts [sourceContext; destinationContext];
  signLease s r subject (transfer_binding subject destinationNodeID job scope) access required revision now.

Definition issueSignedTransferLease s r (destinationNodeID : string) (job : signedLocalJob) (revision : Z) now (wall : time) : result string :=
  match GetJobAuthorizationScope destinationNodeID (job_ID job) with
  | Err _ => unavailable
  | Ok raw =>
    match decode_scope raw with
    | Err _ => unavailable
    | Ok scope => issueSignedTransferLeaseFor s r destinationNodeID job scope revision now wall
    end
  end.

Definition issueSignedJobLease s r (nodeID : string) (job : signedLocalJob) (revision : Z) now (wall : time) : result string :=
  if (Type_ job =s "transfer_pull_batch") || (Type_ job =s "transfer_move_batch")
  then issueSignedTransferLease s r nodeID job revision now wall
  else issueSignedLocalJobLease s r nodeID job revision now wall.

(** * agent.go: the limits of an agent *)

Definition out_of_bounds (l : AgentLimits) : bool :=
  (RequestsPerMinute l <? 1) || (60000 <? RequestsPerMinute l) || (Burst l <? 1) || (10000 <? Burst l)
  || (MaxConcurrent l <? 1) || (32 <? MaxConcurrent l) || (MaxResponseBytes l <? 1024) || (Z.shiftl 1 30 <? MaxResponseBytes l)
  || (DailyBytes l <? MaxResponseBytes l) || (Z.shiftl 1 50 <? DailyBytes l)
  || (64 <? filetypes.zlen (AllowedCIDRs l)) || (64 <? filetypes.zlen (ReadMediaTypes l)).

Definition normalize_cidrs (l : list string) : result (list string) :=
  foldM (λ acc raw, match ParsePrefix (TrimSpace raw) with
    | None => Err (errors_New "invalid allowed CIDR")
    | Some prefix => Ok (acc ++ [Prefix_MaskedString prefix])
    end) [] l.
(** The types so far are the ones seen. *)
Definition normalize_types (l : list string) : result (list string) :=
  foldM (λ acc raw, match ParseMediaType (ToLower (TrimSpace raw)) with
    | None => Err (errors_New "invalid read media type")
    | Some (mediaType, params) =>
      if negb (params =? 0)%nat || Contains mediaType "*" || negb (Contains mediaType "/") || (mediaType ∈b acc)
      then Err (errors_New "invalid read media type") else Ok (acc ++ [mediaType])
    end) [] l.
Definition normalize_ceiling (l : list string) : result (list string) :=
  foldM (λ acc raw,
    let capability := ToLower (TrimSpace raw) in
    if (capability ≠s "read") && (capability ≠s "list") || (capability ∈b acc) then Err (errors_New "invalid agent capability ceiling")
    else Ok (acc ++ [capability])) [] l.
Definition normalizeAgentLimits (input : option AgentLimits) : result AgentLimits :=
  let limits := default DefaultAgentLimits input in
  if out_of_bounds limits then Err (errors_New "invalid agent limits") else
  cidrs ← normalize_cidrs (AllowedCIDRs limits);
  types ← normalize_types (ReadMediaTypes limits);
  capabilities ← match Limits_Capabilities limits with
                 | None => Ok None
                 | Some l => l ← normalize_ceiling l; Ok (Some l)
                 end;
  Ok (limits <| AllowedCIDRs := cidrs |> <| ReadMediaTypes := types |> <| Limits_Capabilities := capabilities |>).

Definition contains (trusted : list Prefix) (a : Addr) : bool := existsb (λ prefix, Prefix_Contains prefix a) trusted.
(** The loop over the forwarding chain, from its end, while the address is one of
    the trusted proxies. *)
Fixpoint forwarded (trusted : list Prefix) (address : Addr) (chain : list string) : option Addr :=
  match chain with
  | [] => Some address
  | part :: chain =>
    if negb (contains trusted address) then Some address else
    let part := TrimSpace part in
    if part =s "" then forwarded trusted address chain else
    match ParseAddr part with
    | None => None
    | Some next => forwarded trusted (Unmap next) chain
    end
  end.
(** [strings.Trim] of the brackets. *)
Definition brackets (s : string) : string :=
  let drop := fix drop (l : list ascii) := match l with
    | c :: l' => if bool_decide (c = "["%char ∨ c = "]"%char) then drop l' else l
    | [] => [] end in
  of_bytes (rev (drop (rev (drop (bytes s))))).
Definition sourceAddress r (trusted : list Prefix) : option Addr :=
  let host := default (RemoteAddr r) (SplitHostPort (RemoteAddr r)) in
  match ParseAddr (brackets host) with
  | None => None
  | Some address =>
    let address := Unmap address in
    if negb (contains trusted address) then Some address
    else forwarded trusted address (rev (Split ","%char (X_Forwarded_For r)))
  end.
Definition addressAllowed r (limits : AgentLimits) (trusted : list Prefix) : bool :=
  if bool_decide (AllowedCIDRs limits = []) then true else
  match sourceAddress r trusted with
  | None => false
  | Some address =>
    existsb (λ raw, match ParsePrefix raw with Some prefix => Prefix_Contains prefix address | None => false end) (AllowedCIDRs limits)
  end.

(** * signed_read_issuer.go *)

(** The guard on the root, which is the mount itself when empty. *)
Definition access_root (root : string) : option string :=
  let root := if root =s "" then "." else root in
  if (TrimSpace root ≠s root) || HasPrefix root "/" || ContainsAny root (String backslash (String NUL "")) || (path_Clean root ≠s root)
     || (root =s "..") || HasPrefix root "../" then None else Some root.
(** The [switch] on the operation: the capability it needs, on an entry of one of
    the kinds. *)
Definition access_operation (operation planID : string) : option (string * list string) :=
  if operation ∈b ["list"; "search"; "disk_usage"] then Some ("list", ["directory"])
  else if operation =s "content" then Some ("read", ["file"; "directory"])
  else if operation =s "metadata" then Some ("read", ["file"; "directory"])
  else if operation ∈b ["archive"; "archive_plan"] then Some ("read", ["directory"])
  else if operation ∈b ["upload_create"; "upload_chunk"; "upload_complete"; "upload_abort"; "upload_reauthorize"; "upload_simple"] then
    if planID =s "" then None else Some ("create", ["file"])
  else None.

(** The credential, revalidated: the actor, when the credential ends and, for an
    agent, its limits. *)
Definition access_credential s r (capability : string) now (wall : time) : result (User * option time * option AgentLimits) :=
  let actor := currentUser r in
  if currentActorType r =s "user" then
    match SessionUserAndExpiry (req_digest r) with
    | Err _ => unavailable
    | Ok (current, expiry) =>
      if negb (User_Enabled current) || (User_ID current ≠s User_ID actor) || negb (HasPrefix (req_credential r) "session-")
      then unavailable else Ok (current, Some expiry, None)
    end
  else
    match revalidateServiceCredential s r wall with
    | Err _ => unavailable
    | Ok (account, key) =>
      if negb (Account_Enabled account) || (Account_ID account ≠s User_ID actor) || (req_credential r ≠s "token-" +++ Token_ID key)
      then unavailable else
      let hasAgentContext := bool_decide (is_Some (req_agent r)) in
      if Account_Kind account =s "agent" then
        if capability =s "create" then unavailable else
        if negb hasAgentContext || (match Token_ExpiresAt key with Some e => negb (now <? e) | None => true end) then unavailable else
        match normalizeAgentLimits (Token_AgentLimits key) with
        | Err _ => unavailable
        | Ok limits =>
          if negb (addressAllowed r limits (TrustedProxies s)) then unavailable
          else Ok (service_user account, Token_ExpiresAt key, Some limits)
        end
      else if (Account_Kind account ≠s "automation") || hasAgentContext then unavailable
      else Ok (service_user account, Token_ExpiresAt key, None)
    end.

(** The nodes a service account reaches through its groups. *)
Definition access_member (actorType : string) (accountID nodeID : string) : result () :=
  if actorType =s "service_account" then
    groups ← ServiceAccountGroupIDs accountID true;
    member ← member_of groups nodeID;
    if negb member then unavailable else Ok ()
  else Ok ().

Definition is_deny (rule : rbac.Rule) : bool := existsb (λ capability, EqualFold (TrimSpace capability) "deny") (rbac.Capabilities rule).
(** What an administrator holds: every file capability named, less the typed
    denials. *)
Definition adminPolicies (capabilities : list string) (base : string) (policies : list rbac.Policy) : list rbac.Policy :=
  {| rbac.ID := "builtin-admin"; rbac.Name := ""; rbac.Rules := [admin_rule capabilities base] |} ::
  omap (λ policy,
    let denies := filter (λ rule, is_Some (rbac.FileTypes rule) ∧ is_deny rule = true) (rbac.Rules policy) in
    if bool_decide (denies = []) then None
    else Some {| rbac.ID := rbac.ID policy; rbac.Name := rbac.Name policy; rbac.Rules := denies |}) policies.

(** The capabilities an agent is allowed at most. *)
Definition agent_ceiling (l : AgentLimits) : list string := default ["read"; "list"] (Limits_Capabilities l).
Definition agent_rule (allowed : list string) (rule : rbac.Rule) : option rbac.Rule :=
  if is_deny rule then Some rule else
  let caps := filter (λ item, item ∈ allowed) ((λ item, ToLower (TrimSpace item)) <$> rbac.Capabilities rule) in
  if bool_decide (caps = []) then None
  else Some {| rbac.Path := rbac.Path rule; rbac.Capabilities := caps; rbac.FileTypes := rbac.FileTypes rule;
               rbac.Visibility := rbac.Visibility rule; rbac.rule_NeedsApproval := rbac.rule_NeedsApproval rule |}.
Definition agentPolicies (allowed : list string) (policies : list rbac.Policy) : list rbac.Policy :=
  (λ policy, {| rbac.ID := rbac.ID policy; rbac.Name := rbac.Name policy; rbac.Rules := omap (agent_rule allowed) (rbac.Rules policy) |}) <$> policies.

(** The policies the context is built from. *)
Definition access_policies (actorType : string) (actor : User) (limits : option AgentLimits) (capability base : string)
    (policies : list rbac.Policy) : result (list rbac.Policy) :=
  let policies := if (actorType =s "user") && (Role actor =s "admin")
                  then adminPolicies ["read"; "list"; "create"; "update"] base policies else policies in
  match limits with
  | None => Ok policies
  | Some l =>
    let allowed := agent_ceiling l in
    if negb (capability ∈b allowed) then unavailable else Ok (agentPolicies allowed policies)
  end.

Definition access_binding (actor : User) (credential operation nonce capability nodeID mountID root planID previousCredential : string)
    (revision : Z) : Binding :=
  let requestID := if operation =s "upload_reauthorize" then UploadReauthorizationRequestID planID previousCredential revision
                   else "auth_" +++ hex_EncodeToString nonce in
  if capability =s "create"
  then mkBinding (User_ID actor) credential operation requestID "" "" "" "" nodeID "" mountID root planID ""
  else mkBinding (User_ID actor) credential operation requestID nodeID "" mountID root "" "" "" "" "" "".

Definition issueSignedAccess s r (nodeID mountID root operation planID previousCredential : string) (revision : Z) now (wall : time)
    (nonce : result string) : result string :=
  if no_signing s || negb (validPathIdentifier nodeID) || negb (validPathIdentifier mountID) then unavailable else
  match access_root root with
  | None => unavailable
  | Some root =>
    match access_operation operation planID with
    | None => unavailable
    | Some (capability, kinds) =>
      let actor := currentUser r in
      let actorType := currentActorType r in
      if negb (User_Enabled actor) || (User_ID actor =s "") || (req_credential r =s "") || (req_digest r =s "")
         || (actorType ≠s "user") && (actorType ≠s "service_account") then unavailable else
      '(actor, credentialExpiry, limits) ← access_credential s r capability now wall;
      access_member actorType (User_ID actor) nodeID ≫= λ _,
      '(policies, temporaryExpiry) ← signedPolicySnapshot actorType (User_ID actor);
      let base := mount_base nodeID mountID in
      let scope := fileScope base root in
      if scope =s "" then unavailable else
      if (operation ∈b ["search"; "disk_usage"; "archive"; "archive_plan"])
         && rbac.UntypedDeniesWithin (rbac.ExpandCompatibilityRules policies) scope then unavailable else
      policies ← access_policies actorType actor limits capability base policies;
      compiled ← buildMountAccessContext policies base;
      filter ← filetypes.Compile compiled;
      if negb (existsb (λ kind, filetypes.Allowed (filetypes.Evaluate (Some filter) scope capability kind)) kinds) then unavailable else
      let contextJSON := filetypes.json_context compiled in
      let expires := now + MaxLifetime in
      let expires := ends temporaryExpiry expires in
      let expires := ends credentialExpiry expires in
      let expires := ends (Deadline r) expires in
      nonce ← nonce;
      let binding := access_binding actor (req_credential r) operation nonce capability nodeID mountID root planID previousCredential revision in
      let '(signingID, signingKey) := signing s in
      let claims := mkClaims Version signingID binding (Unix now) (Unix expires) contextJSON in
      match Context_Err r with
      | Some e => Err e
      | None => match Sign claims signingKey with Err _ => unavailable | Ok token => Ok token end
      end
    end
  end.

Definition issueSignedLocalRead s r (nodeID mountID root operation : string) now (wall : time) (nonce : result string) : result string :=
  issueSignedAccess s r nodeID mountID root operation "" "" 0 now wall nonce.

(** * shares.go and signed_share_issuer.go *)

(** The workload identity behind the credential of a share, when it has one, is
    still mapped to it. *)
Definition share_identity s (account : ServiceAccount) (share : Share) (credential : ServiceAccountToken) : bool :=
  match GetWorkloadIdentity (Account_ID account) (CreatedCredentialID share) with
  | Err e => bool_decide (e = ErrNotFound)
  | Ok identity =>
    if negb (Identity_Enabled identity) || Identity_Revoked identity
       || (match WorkloadProviders s with
           | None => true
           | Some allowsMapping => negb (allowsMapping (Identity_ProviderID identity) (Identity_Issuer identity) (Identity_Subject identity) (Identity_Audience identity))
           end) then false else
    match ActiveWorkloadIdentity (Identity_ProviderID identity) (Identity_Issuer identity) (Identity_Subject identity) (Identity_Audience identity) with
    | Err _ => false
    | Ok active => (Identity_CredentialID active =s Token_ID credential) && (Identity_ServiceAccountID active =s Account_ID account)
    end
  end.

(** The loop over the groups, left at the first that has the node. *)
Fixpoint first_member (groups : list string) (nodeID : string) : result bool :=
  match groups with
  | [] => Ok false
  | group :: groups =>
    member ← NodeInAccessGroup group nodeID;
    if member : bool then Ok true else first_member groups nodeID
  end.

Definition currentShareCreator s (share : Share) now : result (User * string * option time) :=
  if (CreatedByType share =s "user") || (CreatedByType share =s "") then
    match GetUser (CreatedBy share) with
    | Err _ => unavailable
    | Ok user => if negb (User_Enabled user) then unavailable else Ok (user, "user", None)
    end
  else if CreatedByType share =s "service_account" then
    match GetServiceAccount (CreatedBy share) with
    | Err _ => unavailable
    | Ok account =>
      if negb (Account_Enabled account) || (Account_Kind account ≠s "automation") || (CreatedCredentialID share =s "") then unavailable else
      match GetActiveServiceAccountToken (Account_ID account) (CreatedCredentialID share) now with
      | Err _ => unavailable
      | Ok credential =>
        if negb (share_identity s account share credential) then unavailable else
        groups ← ServiceAccountGroupIDs (Account_ID account) true;
        member ← first_member groups (Share_NodeID share);
        if member : bool then Ok (service_user account, "service_account", Token_ExpiresAt credential) else unavailable
      end
    end
  else unavailable.

(** The share read again is still the one the request was admitted with. *)
Definition share_changed (current share : Share) now : bool :=
  negb (Active current now) || (CreatedBy current ≠s CreatedBy share) || (CreatedByType current ≠s CreatedByType share)
  || (CreatedCredentialID current ≠s CreatedCredentialID share) || (Share_NodeID current ≠s Share_NodeID share)
  || (Share_MountID current ≠s Share_MountID share) || (Share_Path current ≠s Share_Path share) || (Share_Kind current ≠s Share_Kind share).

Definition share_capability (operation : string) : option string :=
  if operation =s "list" then Some "list"
  else if (operation ≠s "content") && (operation ≠s "archive") then None else Some "read".

Definition issueSignedShareRead s r (share : Share) (root operation : string) now (nonce : result string) : result string :=
  if no_signing s || negb (validPathIdentifier (Share_NodeID share)) || negb (validPathIdentifier (Share_MountID share)) then unavailable else
  match access_root root, share_capability operation with
  | Some root, Some capability =>
    match GetShare (Share_ID share) with
    | Err _ => unavailable
    | Ok current =>
      if share_changed current share now then unavailable else
      match currentShareCreator s current now with
      | Err _ => unavailable
      | Ok (owner, actorType, credentialExpiry) =>
        '(policies, temporaryExpiry) ← signedPolicySnapshot actorType (User_ID owner);
        let base := mount_base (Share_NodeID current) (Share_MountID current) in
        let scope := fileScope base root in
        let shareRoot := fileScope base (Share_Path current) in
        if (scope =s "") || (shareRoot =s "") || (scope ≠s shareRoot) && negb (HasPrefix scope (shareRoot +++ "/")) then unavailable else
        if (Share_Kind current =s "file") && ((operation ≠s "content") || (scope ≠s shareRoot))
           || (operation =s "archive") && negb (AllowArchive current) then unavailable else
        if (operation =s "archive") && rbac.UntypedDeniesWithin (rbac.ExpandCompatibilityRules policies) scope then unavailable else
        let policies := if (actorType =s "user") && (Role owner =s "admin") then adminPolicies ["read"; "list"] base policies else policies in
        compiled ← buildMountAccessContext policies base;
        filter ← filetypes.Compile compiled;
        let allowed := filetypes.Allowed (filetypes.Evaluate (Some filter) scope capability "directory") in
        let allowed := if operation =s "content" then allowed || filetypes.Allowed (filetypes.Evaluate (Some filter) scope capability "file") else allowed in
        if negb allowed then unavailable else
        let encoded := filetypes.json_context compiled in
        nonce ← nonce;
        let expires := now + MaxLifetime in
        let expires := ends temporaryExpiry expires in
        let expires := ends (Share_ExpiresAt current) expires in
        let expires := ends credentialExpiry expires in
        let expires := ends (Deadline r) expires in
        let '(signingID, signingKey) := signing s in
        let claims := mkClaims Version signingID
          (mkBinding (User_ID owner) ("share-" +++ Share_ID current) operation ("auth_" +++ hex_EncodeToString nonce)
             (Share_NodeID current) "" (Share_MountID current) root "" "" "" "" "" "") (Unix now) (Unix expires) encoded in
        match Context_Err r with
        | Some e => Err e
        | None => Sign claims signingKey
        end
      end
    end
  | _, _ => unavailable
  end.

End Issue.
End httpapi.
