(* ===== verification/ControlContext.v ===== *)
(** The context the Control Tower builds of a mount decides, on the paths in the
    mount, as the actor's policies do, and its texts are UTF-8. *)
From S2P Require Import Prelude GoLib Base64 Json JsonFacts JsonStrings FileTypes FileTypesFacts Rbac RbacFacts RbacTyped Entities SignedAuth SignedAuthFacts SignedRoundtrip ControlStore ControlAccess.
From stdpp Require Import options.
#[local] Set Default Proof Using "Type*".
Import rbac store signedauth httpapi.
Local Open Scope Z_scope.
#[local] Arguments capabilitySet : simpl never.

Section Context_.
Context {U : Unicode} {C : Crypto}.
Implicit Types (policies : list Policy) (path base capability entryType : string).

(** * The context of a mount *)

Lemma add_context_rules scope id rs acc out :
  foldM (add_context_rule scope id) acc rs = Ok out →
  out = acc ++ (context_rule id <$> filter (λ r, RuleTouchesScope (Path r) scope = true) rs) ∧ Forall (λ r, ValidPath (Path r) = true) rs.
Proof.
  revert acc. induction rs as [|r rs IH]; intros acc; cbn [foldM]; [intros [= <-]; by rewrite app_nil_r|].
  unfold add_context_rule at 1. rewrite filter_cons. destruct (ValidPath (Path r)) eqn:Hv; cbn [negb mbind result_bind]; [|done].
  destruct (RuleTouchesScope (Path r) scope); cbn [negb mbind result_bind].
  - destruct (_ =? _); cbn [mbind result_bind]; [done|]. intros [-> ?]%IH. rewrite decide_True by done. split; [|by constructor]. by rewrite <-app_assoc.
  - intros [-> ?]%IH. rewrite decide_False by done. split; [done|by constructor].
Qed.
Lemma add_context_policies scope policies acc out :
  foldM (λ rules policy, foldM (add_context_rule scope (ID policy)) rules (Rules policy)) acc policies = Ok out →
  (∀ fr, fr ∈ out ↔ fr ∈ acc ∨ ∃ id r, (id, r) ∈ all_rules policies ∧ RuleTouchesScope (Path r) scope = true ∧ fr = context_rule id r) ∧
  ∀ id r, (id, r) ∈ all_rules policies → ValidPath (Path r) = true.
Proof.
  revert acc. induction policies as [|p policies IH]; intros acc; cbn [foldM].
  - intros [= <-]. unfold all_rules. cbn. setoid_rewrite elem_of_nil. naive_solver.
  - destruct (foldM _ acc (Rules p)) as [acc'|] eqn:E; cbn [mbind result_bind]; [|done]. intros [H1 H2]%IH. apply add_context_rules in E as [-> Hv].
    rewrite Forall_forall in Hv. unfold all_rules in *. csimpl. setoid_rewrite H1. setoid_rewrite elem_of_app. setoid_rewrite list_elem_of_fmap.
    setoid_rewrite list_elem_of_filter. split; [|naive_solver]. intros fr. split.
    + intros [[?|(r & -> & ? & ?)]|(id & r & ? & ? & ->)]; [by left|right; exists (ID p), r; eauto 6|right; exists id, r; eauto 6].
    + intros [?|(id & r & [(? & [= -> ->] & ?)|?] & ? & ->)]; eauto 10.
Qed.

Lemma build_inv policies base ctx : buildMountAccessContext policies base = Ok ctx →
  mount_scope (NormalizePath base) = true ∧ ValidResourcePath (NormalizePath base) = true ∧ filetypes.Version ctx = 1 ∧
  (∃ f, filetypes.Compile ctx = Ok f) ∧
  (∀ fr, fr ∈ filetypes.Rules ctx ↔ ∃ id r, (id, r) ∈ all_rules (ExpandCompatibilityRules policies) ∧
     RuleTouchesScope (Path r) (NormalizePath base) = true ∧ fr = context_rule id r) ∧
  ∀ id r, (id, r) ∈ all_rules (ExpandCompatibilityRules policies) → ValidPath (Path r) = true.
Proof.
  unfold buildMountAccessContext. destruct (_ || _) eqn:Hg; [done|]. intros H. inv_ok. bool_to_prop.
  match goal with H : foldM _ _ _ = Ok _ |- _ => apply add_context_policies in H as [Hr Hv] end.
  split_and!; [done..|by eauto| |done]. intros fr. cbn [filetypes.Rules]. rewrite Hr, elem_of_nil. naive_solver.
Qed.

(** A path at or below the mount. *)
Definition inside base path : Prop := ∃ rest, segments path = segments base ++ rest.

Lemma segments_Normalize path : NormalizePath path = path → segments path = Split slash path.
Proof. unfold segments. by intros ->. Qed.
Lemma covering_touches r base path : ValidPath (Path r) = true → ValidResourcePath base = true → inside base path →
  covers (Path r) path → RuleTouchesScope (Path r) base = true.
Proof.
  intros Hv Hb [rest Hin] Hc. unfold RuleTouchesScope. rewrite Hv, Hb. cbn [negb orb]. unfold covers in Hc. rewrite Hin in Hc.
  eapply denyReachesScope_sound; [apply Split_ne|exact Hc].
Qed.
End Context_.

Section Decides.
Context {U : Unicode}.
Implicit Types (policies : list Policy) (path base capability entryType : string).

(** A filter decides on the paths in a mount exactly as policies do: an entry is
    allowed when the request is well formed, some rule of the policies allows it
    and none denies it. *)
Definition decides_as policies base f : Prop := ∀ path capability entryType,
  NormalizePath path = path → inside base path →
  filetypes.Allowed (filetypes.Evaluate (Some f) path capability entryType) = true ↔
  filetypes.well_formed_request path capability entryType ∧
  (∃ id r, (id, r) ∈ all_rules (ExpandCompatibilityRules policies) ∧ entry_allows path (norm capability) entryType r) ∧
  ¬ (∃ id r, (id, r) ∈ all_rules (ExpandCompatibilityRules policies) ∧ entry_denies path (norm capability) entryType r).

(** The rules of contexts built for several mounts from the same policies decide
    on each of the mounts as the policies do: the rules left out change no decision
    there, and neither do the ones built for the other mounts. *)
Lemma contexts_decide policies bases ctxs ctx f base :
  Forall2 (λ base ctx, buildMountAccessContext policies base = Ok ctx) bases ctxs →
  filetypes.Rules ctx = ctxs ≫= filetypes.Rules → filetypes.Compile ctx = Ok f → base ∈ bases →
  decides_as policies (NormalizePath base) f.
Proof.
  intros Hall Hrules Hf Hbase path capability entryType Hp Hin.
  destruct (decide (filetypes.well_formed_request path capability entryType)) as [Hwf|Hwf]; [|rewrite Evaluate_closed by auto; simpl; naive_solver].
  destruct (filter_decides (all_rules (ExpandCompatibilityRules policies)) f path capability entryType) as [Hd Ha];
    [done|..|done|by rewrite Ha, <-Hd, not_true_iff_false; tauto].
  - intros cr (fr & Hfr & Hc)%(Compile_rules_r _ _ _ Hf). rewrite Hrules in Hfr. apply list_elem_of_bind in Hfr as (x & Hfr & [i Hx]%list_elem_of_lookup).
    destruct (Forall2_lookup_r _ _ _ _ _ Hall Hx) as (b & _ & (_ & _ & _ & _ & Hb & _)%build_inv). apply Hb in Hfr as (id & r & ? & _ & ->). eauto.
  - intros id r Hr Hc. apply list_elem_of_lookup in Hbase as [i Hi]. destruct (Forall2_lookup_l _ _ _ _ _ Hall Hi) as (x & Hx & (_ & Hb & _ & _ & Hx2 & Hvalid)%build_inv).
    destruct (Compile_rules_l _ _ (context_rule id r) Hf) as (cr & ? & ?); [|by eauto]. rewrite Hrules. apply list_elem_of_bind. exists x.
    split; [|by eapply list_elem_of_lookup_2]. apply Hx2. exists id, r. split_and!; [done|by eapply covering_touches; [eapply Hvalid|..]|done].
Qed.
Lemma context_decides policies base ctx f : buildMountAccessContext policies base = Ok ctx → filetypes.Compile ctx = Ok f →
  decides_as policies (NormalizePath base) f.
Proof. intros Hb Hf. apply (contexts_decide policies [base] [ctx] ctx f base); [by repeat constructor|cbn; by rewrite app_nil_r|done|left]. Qed.

(** ** The texts of a context *)

(** The texts of policies are UTF-8. *)
Definition utf8_policies policies : Prop := ∀ id r, (id, r) ∈ all_rules policies →
  Forall utf8 (Capabilities r) ∧ ∀ sel, FileTypes r = Some sel → utf8_selector sel.
Lemma expanded_texts policies id r : utf8_policies policies → (id, r) ∈ all_rules (ExpandCompatibilityRules policies) →
  Forall utf8 (Capabilities r) ∧ ∀ sel, FileTypes r = Some sel → utf8_selector sel.
Proof. intros Hu (r' & Hin & [->|[_ ->]])%elem_of_all_expanded; exact (Hu id r' Hin). Qed.

Lemma compiled_utf8 id r cr : compiled_from (context_rule id r) cr → Forall utf8 (Capabilities r) → (∀ sel, FileTypes r = Some sel → utf8_selector sel) →
  utf8_rule (context_rule id r).
Proof.
  intros [Hid Hpath _ _ _ Hvis _ _ _ _] Hcaps Hsel. cbn [context_rule filetypes.PolicyID filetypes.Path filetypes.Visibility] in *. constructor; cbn; [by destruct Hid as (_ & _ & ? & _)| |done..|].
  - unfold filetypes.validPattern in Hpath. rewrite Trim_NormalizePath in Hpath. destruct (_ || _) eqn:Hg in Hpath; [done|]. by bool_to_prop.
  - unfold utf8. rewrite !elem_of_cons, elem_of_nil in Hvis. by destruct Hvis as [->|[->|[->|[]]]].
Qed.
Lemma context_utf8 policies bases ctxs ctx f : Forall2 (λ base ctx, buildMountAccessContext policies base = Ok ctx) bases ctxs →
  filetypes.Rules ctx = ctxs ≫= filetypes.Rules → filetypes.Compile ctx = Ok f → utf8_policies policies → utf8_context ctx.
Proof.
  intros Hall Hrules Hf Hu. apply Forall_forall. intros fr Hfr. destruct (Compile_rules_l _ _ fr Hf Hfr) as (cr & _ & Hc).
  rewrite Hrules in Hfr. apply list_elem_of_bind in Hfr as (x & Hfr & [i Hx]%list_elem_of_lookup).
  destruct (Forall2_lookup_r _ _ _ _ _ Hall Hx) as (b & _ & (_ & _ & _ & _ & Hb & _)%build_inv). apply Hb in Hfr as (id & r & Hr & _ & ->).
  destruct (expanded_texts policies id r) as [? ?]; [done..|]. by eapply compiled_utf8.
Qed.
End Decides.
