(* ===== verification/ControlLeases.v ===== *)
(** Correctness of job leases (signed_job_issuer.go, signed_transfer_issuer.go): a
    lease the Control Tower issues is the actor's to have, and the nodes of the job
    accept it with the meaning of the actor's policies. *)
From S2P Require Import Prelude GoLib Base64 Json JsonFacts JsonStrings FileTypes FileTypesFacts Rbac RbacFacts RbacTyped Entities SignedAuth SignedAuthFacts SignedRoundtrip ControlStore ControlAccess ControlContext.
From stdpp Require Import options.
#[local] Set Default Proof Using "Type*".
Import rbac store signedauth httpapi.
Local Open Scope Z_scope.
#[local] Arguments capabilitySet : simpl never.

(** * Leases *)

Section Leases.
Context {U : Unicode} {C : Crypto} {CO : CryptoOk C} {N : Netip} {S : Store}.
Implicit Types (s : Server) (r : Request) (now wall : time).

(** When an authorization ends at the latest. *)
Definition limited (deadline : option time) (expires : time) : Prop := ∀ d, deadline = Some d → expires ≤ d.
Lemma ends_le deadline expires : ends deadline expires ≤ expires.
Proof. unfold ends. destruct deadline as [d|]; [|lia]. destruct (d <? expires) eqn:?; lia. Qed.
Lemma ends_limited deadline expires : limited deadline (ends deadline expires).
Proof. intros d ->. cbn. destruct (d <? expires) eqn:?; lia. Qed.
Lemma limited_ends d d' expires : limited d expires → limited d (ends d' expires).
Proof. intros Hl e He. specialize (Hl e He). pose proof (ends_le d' expires). lia. Qed.

(** What a requirement asks of the filter, and of the policies by path. *)
Definition permitted s (policies : list Policy) f (q : authorizationRequirement) : Prop :=
  req_Path q ≠ "" ∧ deniesBeyondFilter s policies (req_Path q) = false ∧
  (filetypes.Allowed (filetypes.Evaluate (Some f) (req_Path q) (req_Capability q) "directory") = true ∨
   filetypes.Allowed (filetypes.Evaluate (Some f) (req_Path q) (req_Capability q) "file") = true).

Lemma foldM_all {A} (step : A → result ()) (P : A → Prop) l : (∀ a, step a = Ok () → P a) →
  foldM (λ _ a, step a) () l = Ok () → Forall P l.
Proof.
  intros HP. induction l as [|a l IH]; [constructor|]. cbn [foldM]. destruct (step a) as [[]|] eqn:E; cbn [mbind result_bind]; [|done].
  constructor; auto.
Qed.

Lemma signLease_inv s r subject binding access required revision now token :
  signLease s r subject binding access required revision now = Ok token →
  ∃ bound f expires, JobLeaseBinding binding revision = Ok bound ∧ filetypes.Compile access = Ok f ∧
    Forall (permitted s (expanded subject) f) required ∧ Context_Err r = None ∧
    expires ≤ now + MaxLifetime ∧ limited (credentialExpiry subject) expires ∧ limited (temporaryExpiry subject) expires ∧ limited (Deadline r) expires ∧
    Sign (mkClaims Version (signingKeyID s) bound (Unix now) (Unix expires) (filetypes.json_context access)) (signingKey s) = Ok token.
Proof.
  unfold signLease. destruct (JobLeaseBinding binding revision) as [bound|]; [|done]. intros H. inv_ok.
  match goal with H : foldM _ _ _ = Ok ?x |- _ => destruct x; rename H into Hreq end.
  match goal with H : filetypes.Compile _ = Ok ?x |- _ => rename x into f end.
  unfold signingKeyID, signingKey. destruct (signing s) as [id key]. destruct (Context_Err r); [done|].
  destruct (Sign _ key) as [t|] eqn:Hs; [|done]. simplify_eq. exists bound, f. eexists. split_and!; [done..| |done| | | |apply ends_limited|exact Hs].
  - revert Hreq. apply foldM_all. intros q. unfold permitted. destruct (_ || _) eqn:Ho; [done|]. bool_to_prop.
    destruct (filetypes.Allowed (filetypes.Evaluate (Some f) (req_Path q) (req_Capability q) "directory")); [by auto|]. cbn.
    destruct (filetypes.Allowed _); [by auto|done].
  - do 3 (etrans; [apply ends_le|]). done.
  - do 2 apply limited_ends. apply ends_limited.
  - apply limited_ends, ends_limited.
Qed.
(** ** Who holds a lease *)

(** The nodes a service account reaches through the groups it is in. *)
Definition reaches (account nodeID : string) : Prop :=
  ∃ groups group, ServiceAccountGroupIDs account true = Ok groups ∧ group ∈ groups ∧ NodeInAccessGroup group nodeID = Ok true.
Lemma member_of_inv groups nodeID acc : foldM (λ member group, allowed ← NodeInAccessGroup group nodeID; Ok (member || allowed)) acc groups = Ok true →
  acc = true ∨ ∃ group, group ∈ groups ∧ NodeInAccessGroup group nodeID = Ok true.
Proof.
  revert acc. induction groups as [|g groups IH]; intros acc; cbn [foldM]; [intros [= ->]; by left|]. destruct (NodeInAccessGroup g nodeID) as [a|] eqn:E; cbn [mbind result_bind]; [|done].
  intros [Ho|(g' & ? & ?)]%IH; [|right; exists g'; split; [by right|done]]. apply orb_true_iff in Ho as [Ho|Ho]; subst; [by left|]. right. exists g. split; [by left|done].
Qed.

Lemma sooner_le l acc : (∀ e, acc = Some e → ∃ e', foldl sooner acc l = Some e' ∧ e' ≤ e) ∧
  Forall (λ a, ∃ e, foldl sooner acc l = Some e ∧ e ≤ Assignment_ExpiresAt a) l.
Proof.
  revert acc. induction l as [|a l IH]; intros acc; cbn [foldl]; [split; [intros e ->; exists e; by split|constructor]|].
  destruct (IH (sooner acc a)) as [H1 H2]. assert (∃ x, sooner acc a = Some x ∧ x ≤ Assignment_ExpiresAt a ∧ ∀ e, acc = Some e → x ≤ e) as (x & Hx & ? & He).
  { unfold sooner. destruct acc as [e|]; [destruct (_ <? e) eqn:?|]; eexists; (split; [done|]); (split; [lia|]); intros ? [= <-]; lia. }
  destruct (H1 x Hx) as (e' & He' & ?). split; [|constructor; [exists e'; split; [done|lia]|done]]. intros e ->. exists e'. split; [done|]. specialize (He e eq_refl). lia.
Qed.
(** Where the policies and their expiry come from: no temporary assignment ends
    before the expiry. *)
Lemma snapshot_inv subjectType subjectID policies earliest : signedPolicySnapshotLocked subjectType subjectID = Ok (policies, earliest) →
  RBACPoliciesForSubject subjectType subjectID = Ok policies ∧
  ∃ assignments, TemporaryPolicies subjectType subjectID = Ok assignments ∧
    Forall (λ a, ∃ e, earliest = Some e ∧ e ≤ Assignment_ExpiresAt a) assignments.
Proof. unfold signedPolicySnapshotLocked. intros H. inv_ok. simplify_eq. split; [done|]. eexists. split; [done|]. apply sooner_le. Qed.

(** What a subject that was resolved is. *)
Record lease_actor s r wall (nodeIDs : list string) (subject : leaseSubject) : Prop := {
  la_admitted : User_Enabled (currentUser r) = true ∧ User_ID (currentUser r) ≠ "" ∧ req_credential r ≠ "" ∧ req_digest r ≠ "";
  la_same : User_ID (actor subject) = User_ID (currentUser r) ∧ User_Enabled (actor subject) = true ∧ actorType subject = currentActorType r ∧ credential subject = req_credential r;
  la_credential :
    (currentActorType r = "user" ∧ ∃ expiry, SessionUserAndExpiry (req_digest r) = Ok (actor subject, expiry) ∧ credentialExpiry subject = Some expiry) ∨
    (currentActorType r = "service_account" ∧ admin subject = false ∧ ∃ account key, revalidateServiceCredential s r wall = Ok (account, key) ∧ Account_Enabled account = true ∧
       Account_Kind account = "automation" ∧ Account_ID account = User_ID (actor subject) ∧ req_credential r = "token-" +++ Token_ID key ∧
       credentialExpiry subject = Token_ExpiresAt key ∧ ∀ nodeID, nodeID ∈ nodeIDs → reaches (Account_ID account) nodeID);
  la_policies : RBACPoliciesForSubject (currentActorType r) (User_ID (actor subject)) = Ok (policies subject) ∧ expanded subject = ExpandCompatibilityRules (policies subject);
  la_temporary : ∃ assignments, TemporaryPolicies (currentActorType r) (User_ID (actor subject)) = Ok assignments ∧
    Forall (λ a, ∃ e, temporaryExpiry subject = Some e ∧ e ≤ Assignment_ExpiresAt a) assignments;
  la_admin : admin subject = true → currentActorType r = "user" ∧ Role (actor subject) = "admin";
}.

Lemma lease_credential_inv s r nodeIDs wall user expiry : lease_credential s r nodeIDs wall = Ok (user, expiry) →
  User_ID user = User_ID (currentUser r) ∧ User_Enabled user = true ∧
  ((currentActorType r = "user" ∧ ∃ e, SessionUserAndExpiry (req_digest r) = Ok (user, e) ∧ expiry = Some e) ∨
   (currentActorType r = "service_account" ∧ ∃ account key, revalidateServiceCredential s r wall = Ok (account, key) ∧ Account_Enabled account = true ∧
     Account_Kind account = "automation" ∧ Account_ID account = User_ID user ∧ req_credential r = "token-" +++ Token_ID key ∧
     expiry = Token_ExpiresAt key ∧ ∀ nodeID, nodeID ∈ nodeIDs → reaches (Account_ID account) nodeID)).
Proof.
  unfold lease_credential. destruct (bool_decide_reflect (currentActorType r = "user")) as [->|].
  { destruct (SessionUserAndExpiry _) as [[current e]|]; [|done]. destruct (_ || _) eqn:Hg; [done|]. intros [= <- <-]. bool_to_prop. split_and!; [done..|]. left. eauto. }
  destruct (bool_decide_reflect (currentActorType r = "service_account")) as [->|]; [|done].
  destruct (revalidateServiceCredential s r wall) as [[account key]|]; [|done]. destruct (_ || _) eqn:Hg; [done|]. bool_to_prop. intros Hrun. inv_ok. simplify_eq.
  split_and!; [done..|]. right. split; [done|]. exists account, key. split_and!; try done.
  match goal with H : ServiceAccountGroupIDs _ _ = Ok ?x |- _ => rename x into groups, H into HG end.
  match goal with H : foldM _ _ _ = Ok ?x |- _ => destruct x; revert H end. intros Hall. intros nodeID Hn.
  eapply (foldM_all _ (λ nodeID, reaches (Account_ID account) nodeID)) in Hall; [rewrite Forall_forall in Hall; by apply Hall|].
  intros node' Hmem. inv_ok. match goal with H : member_of _ _ = Ok ?x |- _ => destruct x; [|done]; apply member_of_inv in H as [?|(g & ? & ?)]; [done|] end.
  by exists groups, g.
Qed.

Lemma resolve_inv s r nodeIDs wall subject : resolveLeaseSubject s r nodeIDs wall = Ok subject → lease_actor s r wall nodeIDs subject.
Proof.
  unfold resolveLeaseSubject. destruct (_ || _) eqn:Hg; [done|]. bool_to_prop. intros Hrun. inv_ok.
  match goal with x : User * option time |- _ => destruct x as [user expiry] end. inv_ok.
  match goal with x : list Policy * option time |- _ => destruct x as [ps te] end. simplify_eq.
  match goal with H : lease_credential _ _ _ _ = _ |- _ => apply lease_credential_inv in H as (? & ? & Hc) end.
  match goal with H : signedPolicySnapshotLocked _ _ = _ |- _ => apply snapshot_inv in H as (? & ?) end.
  constructor; cbn; try done; [|intros Ha; by bool_to_prop].
  destruct Hc as [?|(-> & Hc)]; [by left|]. right. split; [done|]. by split.
Qed.

(** ** What a lease is for *)

(** The binding, the requirements and the mounts of the lease of a job: a local
    job as the node describes it, a transfer as it was saved when it was created. *)
Definition may_execute (subject : leaseSubject) (path : string) : Prop :=
  admin subject = true ∨ Allowed (Evaluate (expanded subject) path "execute") = true ∧ Denied (Evaluate (expanded subject) path "execute") = false.
Inductive lease_of (nodeID : string) (job : signedLocalJob) (subject : leaseSubject) : Binding → list authorizationRequirement → list string → Prop :=
| lease_local binding required :
    may_execute subject ("nodes/" +++ nodeID +++ "/jobs/" +++ job_ID job) →
    local_requirements nodeID job (job_binding subject nodeID job) = Some (binding, required) →
    lease_of nodeID job subject binding required [mount_base nodeID (MountID job)]
| lease_transfer raw scope :
    may_execute subject ("nodes/" +++ nodeID +++ "/transfers") →
    GetJobAuthorizationScope nodeID (job_ID job) = Ok raw → decode_scope raw = Ok scope → transfer_mismatch job scope = false →
    SourcePaths scope ≠ [] →
    lease_of nodeID job subject (transfer_binding subject nodeID job scope)
      (transfer_requirements (mount_base (scope_SourceNodeID scope) (scope_SourceMountID scope)) (mount_base nodeID (MountID job)) scope)
      [mount_base (scope_SourceNodeID scope) (scope_SourceMountID scope); mount_base nodeID (MountID job)].

Lemma may_execute_intro subject path :
  negb (admin subject) && (negb (Allowed (Evaluate (expanded subject) path "execute")) || Denied (Evaluate (expanded subject) path "execute")) = false →
  may_execute subject path.
Proof. unfold may_execute. destruct (admin subject), (Allowed _), (Denied _); naive_solver. Qed.

Definition lease_nodes (nodeID : string) (bases : list string) (binding : Binding) : list string :=
  match bases with [_; _] => [nodeID; SourceNodeID binding] | _ => [nodeID] end.

(** Every lease comes from [signLease] with a context built for its mounts. *)
Lemma issue_inv s r nodeID job revision now wall token : issueSignedJobLease s r nodeID job revision now wall = Ok token →
  ∃ subject binding required bases ctxs access, lease_actor s r wall (lease_nodes nodeID bases binding) subject ∧ lease_of nodeID job subject binding required bases ∧
    Forall2 (λ base ctx, buildMountAccessContext (effectivePolicies subject bases) base = Ok ctx) bases ctxs ∧
    filetypes.Version access = 1 ∧ filetypes.Rules access = ctxs ≫= filetypes.Rules ∧
    signLease s r subject binding access required revision now = Ok token.
Proof.
  unfold issueSignedJobLease. destruct (_ || _).
  - unfold issueSignedTransferLease. destruct (GetJobAuthorizationScope _ _) as [raw|] eqn:Hraw; [|done]. destruct (decode_scope raw) as [scope|] eqn:Hscope; [|done].
    unfold issueSignedTransferLeaseFor. destruct (_ || _) eqn:Hg; [done|]. destruct (transfer_mismatch job scope) eqn:Hm; [done|]. intros H. inv_ok.
    match goal with H : resolveLeaseSubject _ _ _ _ = Ok ?x |- _ => rename x into subject; apply resolve_inv in H as Hactor end.
    destruct (_ && _) eqn:Hx; [done|]. apply may_execute_intro in Hx. inv_ok. unfold mergeAccessContexts in *.
    destruct (filetypes.MaxContextRules <? _); [done|]. inv_ok. bool_to_prop.
    match goal with H : buildMountAccessContext _ _ = Ok ?x, H' : buildMountAccessContext _ _ = Ok ?y |- _ =>
      eexists subject, _, _, _, [x; y], _; split_and!; [|by eapply (lease_transfer _ _ _ raw scope)|constructor; [exact H|constructor; [exact H'|constructor]]|..|eassumption] end; done.
  - unfold issueSignedLocalJobLease. destruct (_ || _) eqn:Hg; [done|]. intros H. inv_ok.
    match goal with H : resolveLeaseSubject _ _ _ _ = Ok ?x |- _ => rename x into subject; apply resolve_inv in H as Hactor end.
    destruct (_ && _) eqn:Hx; [done|]. apply may_execute_intro in Hx. destruct (local_requirements _ _ _) as [[binding required]|] eqn:Hl; [|done]. inv_ok.
    match goal with H : buildMountAccessContext _ _ = Ok ?x |- _ => rename x into access; pose proof H as Hb end. apply build_inv in Hb as (_ & _ & Hv & _).
    eexists subject, binding, required, _, [access], access. split_and!; [|by eapply lease_local|by repeat constructor|done|cbn; by rewrite app_nil_r|done]. exact Hactor.
Qed.

(** The texts the store answers with are UTF-8. *)
Definition utf8_store : Prop := ∀ subjectType subjectID ps, RBACPoliciesForSubject subjectType subjectID = Ok ps → utf8_policies ps.
Lemma admin_texts id caps bases : Forall utf8 caps → utf8_policies [{| ID := id; Name := ""; Rules := admin_rule caps <$> bases |}].
Proof.
  intros Hc id' r Hr. unfold all_rules in Hr. cbn in Hr. rewrite app_nil_r in Hr. apply list_elem_of_fmap in Hr as (x & [= -> ->] & (b & -> & _)%list_elem_of_fmap).
  by split.
Qed.
Lemma effective_texts subject bases : utf8_policies (policies subject) → utf8_policies (effectivePolicies subject bases).
Proof. unfold effectivePolicies. destruct (admin subject); [intros _; apply admin_texts; by repeat constructor|done]. Qed.

Lemma Unix_mono t u : t ≤ u → Unix t ≤ Unix u.
Proof. unfold Unix, second. intros. apply Z.div_le_mono; lia. Qed.

Lemma signed_interval c key token : Sign c key = Ok token → 0 < IssuedAt c < ExpiresAt c.
Proof. intros (_ & [_ _ [? _] _ _ _ _ _]%validate_sound & _)%Sign_inv. done. Qed.

(** C8. A job lease the Control Tower issues is the actor's to have and works: it
    was issued to an enabled actor with a credential that is still good and, for a
    service account, to nodes it reaches; every path the job needs is permitted; it
    ends with the credential, any temporary policy and the request at the latest;
    its claims bind the job and this revision; until it ends the nodes of the job
    accept it for this revision, with a filter that decides on the mounts exactly
    as the actor's policies do; and no node accepts it at any time, with any keys,
    for another request, in particular for another job or another revision, unless
    SHA-256 collides on what the two requests hash. *)
Theorem job_lease_accepted s r nodeID job revision now wall token keys :
  utf8_store → int64 (Unix (now + MaxLifetime)) → 0 ≤ revision →
  issueSignedJobLease s r nodeID job revision now wall = Ok token →
  keys !! signingKeyID s = Some (ed25519_Public (signingKey s)) →
  ∃ subject binding required bases f c expires,
    lease_actor s r wall (lease_nodes nodeID bases binding) subject ∧ lease_of nodeID job subject binding required bases ∧
    Forall (permitted s (expanded subject) f) required ∧
    (∀ base, base ∈ bases → decides_as (effectivePolicies subject bases) (NormalizePath base) f) ∧
    IssuedAt c = Unix now ∧ ExpiresAt c = Unix expires ∧ IssuedAt c < ExpiresAt c ∧
    expires ≤ now + MaxLifetime ∧ limited (credentialExpiry subject) expires ∧ limited (temporaryExpiry subject) expires ∧ limited (Deadline r) expires ∧
    claims_Binding c = binding <| RequestID := JobLeaseRequestID (PlanID binding) revision |> ∧
    (∀ node t, node ≠ "" → node = SourceNodeID binding ∨ node = DestinationNodeID binding → IssuedAt c ≤ Unix t < ExpiresAt c →
      VerifyJobLease token keys binding node revision t = Ok (c, f)) ∧
    ∀ keys' node t request x, revision_ok request → present token keys' node request t = Ok x →
      x = (c, f) ∧ (same_request (SourceNodeID binding) (JobLease binding revision) node request ∨ collide (lease_message (PlanID binding) revision) (hashed request)).
Proof.
  intros Hstore Hnow Hrev (subject & binding & required & bases & ctxs & access & Hactor & Hlease & Hctxs & Hv & Hrules & Hsign)%issue_inv Hk.
  apply signLease_inv in Hsign as (bound & f & expires & Hbound & Hf & Hreq & _ & Hmax & Hl1 & Hl2 & Hl3 & Hsign).
  pose proof (JobLeaseBinding_inv _ _ _ Hbound) as (Hb & _ & _ & _ & Hsource).
  set (c := mkClaims _ _ _ _ _ _) in Hsign. pose proof (signed_interval _ _ _ Hsign) as Hint.
  assert (∀ node t, node ≠ "" → node = SourceNodeID binding ∨ node = DestinationNodeID binding → IssuedAt c ≤ Unix t < ExpiresAt c →
    VerifyJobLease token keys binding node revision t = Ok (c, f)) as Haccept.
  { intros node t Hn Hside Ht. assert (int64 (Unix now) ∧ int64 (Unix expires)) as [_ Hexp].
    { cbn in *. pose proof (Unix_mono _ _ Hmax). unfold int64 in *. lia. }
    destruct (signed_verifies c access (signingKey s) token keys t) as (f' & Hf' & Hver); try done.
    { eapply context_utf8; [done..|]. apply effective_texts, (Hstore _ _ _ (proj1 (la_policies _ _ _ _ _ Hactor))). }
    { rewrite Hv. unfold int64. lia. }
    assert (f' = f) as -> by congruence. unfold VerifyJobLease. rewrite Hbound. change bound with (claims_Binding c). apply Verify_accepts; [done..|].
    unfold c. cbn [claims_Binding]. by rewrite Hb. }
  exists subject, binding, required, bases, f, c, expires. split_and!; try done.
  { intros base Hbase. by eapply contexts_decide. }
  { by destruct Hint. }
  intros keys' node t request [c' f'] Hok Hx. apply (only_presented token keys (SourceNodeID binding) (JobLease binding revision) now c f keys' node request t (c', f')); [done|done| |done].
  apply Haccept; [exact Hsource|by left|]. split; [done|by destruct Hint].
Qed.
End Leases.
