(* ===== verification/ControlReads.v ===== *)
(** Correctness of signed reads and uploads, of agents and of users, and of shares
    (signed_read_issuer.go, signed_share_issuer.go). *)
From S2P Require Import Prelude GoLib Base64 Json JsonFacts JsonStrings FileTypes FileTypesFacts Rbac RbacFacts RbacTyped Entities SignedAuth SignedAuthFacts SignedRoundtrip ControlStore ControlAccess ControlContext ControlLeases.
From stdpp Require Import options.
#[local] Set Default Proof Using "Type*".
Import rbac store signedauth httpapi.
Local Open Scope Z_scope.
#[local] Arguments capabilitySet : simpl never.

(** * Reads, uploads and shares *)

Lemma operation_reads operation planID capability kinds : access_operation operation planID = Some (capability, kinds) → capability ≠ "create" → operation ∈ readOperations.
Proof.
  unfold access_operation. intros H Hc. repeat case_bool_decide; simplify_eq; unfold readOperations; set_solver.
Qed.
Lemma operation_uploads operation planID capability kinds : access_operation operation planID = Some (capability, kinds) →
  operation ∈ ["upload_chunk"; "upload_complete"; "upload_abort"] → capability = "create" ∧ planID ≠ "".
Proof.
  intros H Ho. rewrite !elem_of_cons, elem_of_nil in Ho. unfold access_operation in H. destruct Ho as [->|[->|[->|[]]]]; repeat case_bool_decide; simplify_eq; try done; set_solver.
Qed.
Lemma operation_creates operation planID capability kinds : access_operation operation planID = Some (capability, kinds) →
  operation ∈ ["upload_create"; "upload_simple"; "upload_reauthorize"] → capability = "create" ∧ planID ≠ "".
Proof.
  intros H Ho. rewrite !elem_of_cons, elem_of_nil in Ho. unfold access_operation in H. destruct Ho as [->|[->|[->|[]]]]; repeat case_bool_decide; simplify_eq; try done; set_solver.
Qed.

Section Access.
Context {U : Unicode} {C : Crypto} {CO : CryptoOk C} {N : Netip} {S : Store}.
Implicit Types (s : Server) (r : Request) (now wall : time).

(** A signed context of one mount, while it lasts. *)
Lemma signed_mount s policies base ctx f binding now expires token keys t :
  utf8_policies policies → int64 (Unix (now + MaxLifetime)) → expires ≤ now + MaxLifetime →
  buildMountAccessContext policies base = Ok ctx → filetypes.Compile ctx = Ok f →
  Sign (mkClaims Version (signingKeyID s) binding (Unix now) (Unix expires) (filetypes.json_context ctx)) (signingKey s) = Ok token →
  keys !! signingKeyID s = Some (ed25519_Public (signingKey s)) → Unix now ≤ Unix t < Unix expires →
  verifySigned token keys t = Ok (mkClaims Version (signingKeyID s) binding (Unix now) (Unix expires) (filetypes.json_context ctx), f).
Proof.
  intros Hu Hnow Hmax Hb Hf Hsign Hk Ht. set (c := mkClaims _ _ _ _ _ _) in *. assert (int64 (Unix expires)).
  { apply signed_interval in Hsign. cbn in *. pose proof (Unix_mono _ _ Hmax). unfold int64 in *. lia. }
  destruct (signed_verifies c ctx (signingKey s) token keys t) as (f' & Hf' & Hver); try done; [|apply build_inv in Hb as (_ & _ & -> & _); unfold int64; lia|congruence].
  apply (context_utf8 policies [base] [ctx] ctx f); [by repeat constructor|cbn; by rewrite app_nil_r|done..].
Qed.

Lemma read_verifies token keys t c f : verifySigned token keys t = Ok (c, f) → Operation (claims_Binding c) ∈ readOperations → SourceNodeID (claims_Binding c) ≠ "" →
  (∃ actor credential operation request node mount root, claims_Binding c = mkBinding actor credential operation request node "" mount root "" "" "" "" "" "") →
  VerifyLocalRead token keys (SourceNodeID (claims_Binding c)) (Operation (claims_Binding c)) (SourceMountID (claims_Binding c)) (SourceRoot (claims_Binding c)) t = Ok (c, f).
Proof.
  intros Hv Ho Hn (a & cr & o & q & n & m & x & Hb). unfold VerifyLocalRead. rewrite Hv, (bool_decide_true (_ ∈ readOperations)) by done. cbn [negb].
  rewrite Hb in *. cbn in *. rewrite (bool_decide_false (n = "")) by done. by rewrite !bool_decide_true by done.
Qed.
Lemma upload_verifies token keys t c f : verifySigned token keys t = Ok (c, f) → Operation (claims_Binding c) ∈ ["upload_chunk"; "upload_complete"; "upload_abort"] →
  ActorID (claims_Binding c) ≠ "" → CredentialID (claims_Binding c) ≠ "" → DestinationNodeID (claims_Binding c) ≠ "" → PlanID (claims_Binding c) ≠ "" →
  (∃ actor credential operation request node mount root plan, claims_Binding c = mkBinding actor credential operation request "" "" "" "" node "" mount root plan "") →
  VerifyLocalUpload token keys (ActorID (claims_Binding c)) (CredentialID (claims_Binding c)) (DestinationNodeID (claims_Binding c)) (Operation (claims_Binding c))
    (DestinationMountID (claims_Binding c)) (DestinationRoot (claims_Binding c)) (PlanID (claims_Binding c)) t = Ok (c, f).
Proof.
  intros Hv Ho Ha Hc Hn Hp (a & cr & o & q & n & m & x & p & Hb). unfold VerifyLocalUpload. rewrite Hv, Hb in *. cbn in *.
  assert ((o ≠s "upload_chunk") && (o ≠s "upload_complete") && (o ≠s "upload_abort") = false) as ->.
  { rewrite !elem_of_cons, elem_of_nil in Ho. by destruct Ho as [->|[->|[->|[]]]]. }
  rewrite (bool_decide_false (a = "")), (bool_decide_false (cr = "")), (bool_decide_false (n = "")), (bool_decide_false (p = "")) by done.
  by rewrite !bool_decide_true by done.
Qed.
(** The binding of an upload, and the three checks of a node that read the session
    from it: the admission of a body, a simple upload, and a reauthorization by the
    actor the session had or by anyone when it had none. *)
Definition upload_binding (b : Binding) : Prop :=
  ∃ actor credential operation request node mount root plan, b = mkBinding actor credential operation request "" "" "" "" node "" mount root plan "" ∧ node ≠ "".
Lemma admission_verifies token keys t c f body : verifySigned token keys t = Ok (c, f) → upload_binding (claims_Binding c) →
  Operation (claims_Binding c) = "upload_create" → PlanID (claims_Binding c) = UploadAdmissionBodyID body → body ≠ "" →
  DestinationRoot (claims_Binding c) ≠ "" → DestinationRoot (claims_Binding c) ≠ "." →
  VerifyUploadAdmission token keys (DestinationNodeID (claims_Binding c)) (DestinationMountID (claims_Binding c)) (DestinationRoot (claims_Binding c)) body t = Ok (c, f).
Proof.
  intros Hv (a & cr & o & q & n & m & x & p & Hb & Hn). unfold VerifyUploadAdmission. rewrite Hv, Hb. cbn. intros -> -> ? ? ?.
  rewrite (bool_decide_false (n = "")), (bool_decide_false (x = "")), (bool_decide_false (x = ".")), (bool_decide_false (body = "")) by done.
  by rewrite !bool_decide_true by done.
Qed.
Lemma simple_verifies token keys t c f rawQuery idempotencyKey : verifySigned token keys t = Ok (c, f) → upload_binding (claims_Binding c) →
  Operation (claims_Binding c) = "upload_simple" → PlanID (claims_Binding c) = SimpleUploadPlanID rawQuery idempotencyKey →
  DestinationRoot (claims_Binding c) ≠ "" → DestinationRoot (claims_Binding c) ≠ "." →
  VerifySimpleUpload token keys (DestinationNodeID (claims_Binding c)) (DestinationMountID (claims_Binding c)) (DestinationRoot (claims_Binding c)) rawQuery idempotencyKey t
    = Ok (c, f).
Proof.
  intros Hv (a & cr & o & q & n & m & x & p & Hb & Hn). unfold VerifySimpleUpload. rewrite Hv, Hb. cbn. intros -> -> ? ?.
  rewrite (bool_decide_false (n = "")), (bool_decide_false (x = "")), (bool_decide_false (x = ".")) by done. by rewrite !bool_decide_true by done.
Qed.
Lemma reauthorization_verifies token keys t c f previous revision previousActor : verifySigned token keys t = Ok (c, f) → upload_binding (claims_Binding c) →
  Operation (claims_Binding c) = "upload_reauthorize" → PlanID (claims_Binding c) ≠ "" →
  RequestID (claims_Binding c) = UploadReauthorizationRequestID (PlanID (claims_Binding c)) previous revision →
  (previousActor = "" ↔ previous = "") → previousActor = "" ∨ previousActor = ActorID (claims_Binding c) →
  VerifyUploadReauthorization token keys previousActor previous (DestinationNodeID (claims_Binding c)) (DestinationMountID (claims_Binding c))
    (DestinationRoot (claims_Binding c)) (PlanID (claims_Binding c)) revision t = Ok (c, f).
Proof.
  intros Hv (a & cr & o & q & n & m & x & p & Hb & Hn). unfold VerifyUploadReauthorization. rewrite Hv, Hb. cbn. intros -> ? -> Hiff Hactor.
  rewrite (bool_decide_false (n = "")), (bool_decide_false (p = "")) by done.
  assert (xorb (previousActor =s "") (previous =s "") = false) as -> by (repeat case_bool_decide; naive_solver).
  assert ((previousActor ≠s "") && (a ≠s previousActor) = false) as -> by (repeat case_bool_decide; naive_solver).
  by rewrite !bool_decide_true by done.
Qed.

(** ** What an agent may ask for at most *)

Lemma ceiling_inv l acc out : foldM (λ acc raw,
    let capability := ToLower (TrimSpace raw) in
    if (capability ≠s "read") && (capability ≠s "list") || (capability ∈b acc) then Err (errors_New "invalid agent capability ceiling")
    else Ok (acc ++ [capability])) acc l = Ok out →
  Forall (λ c, c ∈ ["read"; "list"]) acc → Forall (λ c, c ∈ ["read"; "list"]) out.
Proof.
  revert acc. induction l as [|x l IH]; intros acc; cbn [foldM]; [by intros [= <-]|]. cbv zeta. destruct (_ || _) eqn:Ho; cbn [mbind result_bind]; [done|].
  intros Hout Hacc. apply (IH _ Hout). apply Forall_app. split; [done|]. constructor; [|done]. apply orb_false_iff in Ho as [Ho _].
  apply andb_false_iff in Ho as [Ho|Ho]; bool_to_prop; rewrite Ho; repeat constructor.
Qed.
Lemma agent_ceiling_reads input l : normalizeAgentLimits input = Ok l → Forall (λ c, c ∈ ["read"; "list"]) (agent_ceiling l).
Proof.
  unfold normalizeAgentLimits. destruct (out_of_bounds _); [done|]. intros H. inv_ok. unfold agent_ceiling. cbn.
  destruct (Limits_Capabilities _) as [caps|]; inv_ok; cbn.
  - match goal with H : normalize_ceiling _ = Ok _ |- _ => by eapply ceiling_inv; [exact H|] end.
  - repeat constructor.
Qed.

(** ** The policies a context is built from *)

Lemma admin_policies_texts caps base ps : Forall utf8 caps → utf8_policies ps → utf8_policies (adminPolicies caps base ps).
Proof.
  intros Hc Hu id r. unfold adminPolicies, all_rules. cbn [mbind list_bind]. rewrite elem_of_app. intros [Hr|Hr].
  - cbn in Hr. apply list_elem_of_singleton in Hr as [= -> ->]. by split.
  - apply list_elem_of_bind in Hr as (p' & Hr & (p & Hp & Hsome)%list_elem_of_omap). cbv zeta in Hsome. case_bool_decide; simplify_eq. cbn in Hr.
    apply list_elem_of_fmap in Hr as (x & [= -> ->] & [_ Hx]%list_elem_of_filter). apply (Hu (ID p) x). apply list_elem_of_bind. exists p. split; [|done]. by apply list_elem_of_fmap_2.
Qed.
Lemma agent_policies_texts allowed ps : Forall utf8 allowed → utf8_policies ps → utf8_policies (agentPolicies allowed ps).
Proof.
  intros Ha Hu id r. unfold agentPolicies, all_rules. setoid_rewrite list_elem_of_bind. setoid_rewrite list_elem_of_fmap.
  intros (p' & (x & [= -> ->] & Hx) & (p & -> & Hp)). cbn in Hx. apply list_elem_of_omap in Hx as (y & Hy & Hsome).
  assert ((ID p, y) ∈ all_rules ps) as Hin by (apply list_elem_of_bind; exists p; split; [by apply list_elem_of_fmap_2|done]). destruct (Hu _ _ Hin) as [Hc Hs].
  unfold agent_rule in Hsome. destruct (is_deny y); [by simplify_eq|]. case_bool_decide; simplify_eq. cbn. split; [|done].
  apply Forall_forall. intros c [Hc' _]%list_elem_of_filter. rewrite Forall_forall in Ha. by apply Ha.
Qed.
Lemma access_policies_texts actorType actor limits capability base ps eff : utf8_policies ps →
  (∀ l, limits = Some l → Forall utf8 (agent_ceiling l)) → access_policies actorType actor limits capability base ps = Ok eff → utf8_policies eff.
Proof.
  intros Hu Hl. unfold access_policies. cbv zeta.
  assert (∀ b : bool, utf8_policies (if b then adminPolicies ["read"; "list"; "create"; "update"] base ps else ps)) as Hu'
    by (intros []; [apply admin_policies_texts; [by repeat constructor|done]|done]).
  destruct limits as [l|]; [|by intros [= <-]]. destruct (_ ∈b _); [|done]. intros [= <-]. apply agent_policies_texts; auto.
Qed.

(** ** Who holds a read or an upload *)

(** The credential behind an access, revalidated; an agent's has limits that the
    request keeps to. *)
Inductive access_holder s r capability now wall (nodeID : string) : User → option time → option AgentLimits → Prop :=
| holder_session user expiry : currentActorType r = "user" → SessionUserAndExpiry (req_digest r) = Ok (user, expiry) → User_Enabled user = true →
    User_ID user = User_ID (currentUser r) → access_holder s r capability now wall nodeID user (Some expiry) None
| holder_automation account key : currentActorType r = "service_account" → revalidateServiceCredential s r wall = Ok (account, key) → Account_Enabled account = true →
    Account_ID account = User_ID (currentUser r) → Account_Kind account = "automation" → req_credential r = "token-" +++ Token_ID key → req_agent r = None →
    reaches (Account_ID account) nodeID → access_holder s r capability now wall nodeID (service_user account) (Token_ExpiresAt key) None
| holder_agent account key expiry l : currentActorType r = "service_account" → revalidateServiceCredential s r wall = Ok (account, key) → Account_Enabled account = true →
    Account_ID account = User_ID (currentUser r) → Account_Kind account = "agent" → req_credential r = "token-" +++ Token_ID key → is_Some (req_agent r) →
    Token_ExpiresAt key = Some expiry → now < expiry → normalizeAgentLimits (Token_AgentLimits key) = Ok l → addressAllowed r l (TrustedProxies s) = true →
    capability ≠ "create" → reaches (Account_ID account) nodeID → access_holder s r capability now wall nodeID (service_user account) (Some expiry) (Some l).

Lemma access_member_inv account nodeID : access_member "service_account" account nodeID = Ok () → reaches account nodeID.
Proof.
  unfold access_member. rewrite bool_decide_true by done. intros H. inv_ok.
  match goal with H' : member_of _ _ = Ok ?x |- _ => destruct x; [apply member_of_inv in H' as [?|(g & ? & ?)]; [done|]|done] end.
  by eexists _, g.
Qed.
Lemma access_holder_intro s r capability now wall nodeID user expiry limits :
  (currentActorType r ≠s "user") && (currentActorType r ≠s "service_account") = false →
  access_credential s r capability now wall = Ok (user, expiry, limits) → access_member (currentActorType r) (User_ID user) nodeID = Ok () →
  access_holder s r capability now wall nodeID user expiry limits.
Proof.
  intros Htype. unfold access_credential. destruct (bool_decide_reflect (currentActorType r = "user")) as [Hu|Hu].
  { destruct (SessionUserAndExpiry _) as [[u e]|] eqn:Hs; [|done]. destruct (_ || _) eqn:Hg; [done|]. intros [= <- <- <-] _. bool_to_prop. by constructor. }
  assert (currentActorType r = "service_account") as Ht by (apply andb_false_iff in Htype as [?|?]; by bool_to_prop). rewrite Ht.
  destruct (revalidateServiceCredential s r wall) as [[account key]|] eqn:Hr; [|done]. destruct (_ || _) eqn:Hg; [done|]. bool_to_prop.
  destruct (bool_decide_reflect (Account_Kind account = "agent")) as [Hk|Hk].
  - destruct (bool_decide_reflect (capability = "create")) as [|Hc]; [done|]. destruct (_ || _) eqn:Hx; [done|]. bool_to_prop.
    destruct (normalizeAgentLimits _) as [l|] eqn:Hl; [|done]. destruct (addressAllowed r l _) eqn:Ha; [|done]. intros [= <- <- <-] Hm%access_member_inv.
    destruct (Token_ExpiresAt key) as [e|] eqn:He; [|done]. bool_to_prop. by eapply holder_agent.
  - destruct (_ || _) eqn:Hx; [done|]. intros [= <- <- <-] Hm%access_member_inv. bool_to_prop. eapply holder_automation; try done. by apply eq_None_not_Some.
Qed.
Lemma holder_actor s r capability now wall nodeID user expiry limits : access_holder s r capability now wall nodeID user expiry limits → User_ID user = User_ID (currentUser r).
Proof. by destruct 1. Qed.
Lemma holder_ceiling s r capability now wall nodeID user expiry l : access_holder s r capability now wall nodeID user expiry (Some l) →
  Forall (λ c, c ∈ ["read"; "list"]) (agent_ceiling l).
Proof. inversion 1. by eapply agent_ceiling_reads. Qed.
Lemma ceiling_utf8 l : Forall (λ c, c ∈ ["read"; "list"]) l → Forall utf8 l.
Proof. intros Hl. eapply Forall_impl; [exact Hl|]. intros c. rewrite !elem_of_cons, elem_of_nil. intros [->|[->|[]]]; done. Qed.

(** ** Reads and uploads *)

(** Goes on past a guard that refuses. *)
Ltac passes :=
  match goal with H : (if ?b then unavailable else _) = Ok _ |- _ => let E := fresh "Hguard" in destruct b eqn:E; [discriminate H|] end; inv_ok.

(** Everything an access rests on, up to the signature. *)
Record access_issued s r (nodeID mountID root operation planID previous : string) (revision : Z) now wall (root' capability : string) (user : User)
    (credentialExpiry : option time) (limits : option AgentLimits) (eff : list Policy) (f : filetypes.Filter) (expires : time) (c : Claims) : Prop := {
  ai_root : access_root root = Some root';
  ai_operation : ∃ kinds kind, access_operation operation planID = Some (capability, kinds) ∧ kind ∈ kinds ∧
    filetypes.Allowed (filetypes.Evaluate (Some f) (fileScope (mount_base nodeID mountID) root') capability kind) = true;
  ai_holder : access_holder s r capability now wall nodeID user credentialExpiry limits;
  ai_admitted : User_ID (currentUser r) ≠ "" ∧ req_credential r ≠ "";
  ai_policies : ∃ ps, RBACPoliciesForSubject (currentActorType r) (User_ID user) = Ok ps ∧
    access_policies (currentActorType r) user limits capability (mount_base nodeID mountID) ps = Ok eff;
  ai_decides : decides_as eff (NormalizePath (mount_base nodeID mountID)) f;
  ai_expires : expires ≤ now + MaxLifetime ∧ limited credentialExpiry expires ∧ limited (Deadline r) expires;
  ai_temporary : ∃ assignments, TemporaryPolicies (currentActorType r) (User_ID user) = Ok assignments ∧ Forall (λ a, expires ≤ Assignment_ExpiresAt a) assignments;
  ai_claims : ∃ nonce, claims_Binding c = access_binding user (req_credential r) operation nonce capability nodeID mountID root' planID previous revision ∧
    IssuedAt c = Unix now ∧ ExpiresAt c = Unix expires ∧ IssuedAt c < ExpiresAt c;
}.

Lemma access_issue_inv s r nodeID mountID root operation planID previous revision now wall nonce token :
  issueSignedAccess s r nodeID mountID root operation planID previous revision now wall nonce = Ok token →
  ∃ root' capability user credentialExpiry limits eff f expires ctx binding,
    access_issued s r nodeID mountID root operation planID previous revision now wall root' capability user credentialExpiry limits eff f expires
      (mkClaims Version (signingKeyID s) binding (Unix now) (Unix expires) (filetypes.json_context ctx)) ∧
    buildMountAccessContext eff (mount_base nodeID mountID) = Ok ctx ∧ filetypes.Compile ctx = Ok f ∧
    Sign (mkClaims Version (signingKeyID s) binding (Unix now) (Unix expires) (filetypes.json_context ctx)) (signingKey s) = Ok token.
Proof.
  unfold issueSignedAccess. destruct (_ || _ || _); [done|]. destruct (access_root root) as [root'|] eqn:Hroot; [|done].
  destruct (access_operation operation planID) as [[capability kinds]|] eqn:Hop; [|done]. destruct (_ || _) eqn:Hg; [done|]. apply orb_false_iff in Hg as [Hg Htype]. bool_to_prop.
  intros Hrun. inv_ok. match goal with H : access_credential _ _ _ _ _ = Ok ?x |- _ => destruct x as [[user credentialExpiry] limits]; rename H into Hcred end. inv_ok.
  match goal with H : access_member _ _ _ = Ok ?x |- _ => destruct x; rename H into Hmem end.
  match goal with H : signedPolicySnapshot _ _ = Ok ?x |- _ => destruct x as [ps temporary]; apply snapshot_inv in H as (Hps & assignments & Hass & Htemp) end.
  repeat passes. match goal with H : negb (existsb _ kinds) = false |- _ => apply negb_false_iff in H; rename H into Hk end.
  unfold signingKeyID, signingKey. destruct (signing s) as [id key].
  match goal with H : _ = Ok token |- _ => destruct (Context_Err r); [discriminate H|]; destruct (Sign _ key) as [tok|] eqn:Hs in H; [|discriminate H] end. simplify_eq.
  match goal with H : access_policies _ _ _ _ _ _ = Ok ?x |- _ => rename x into eff, H into Heff end.
  match goal with H : buildMountAccessContext _ _ = Ok ?x |- _ => rename x into ctx, H into Hb end.
  match goal with H : filetypes.Compile _ = Ok ?x |- _ => rename x into f, H into Hf end.
  exists root', capability, user, credentialExpiry, limits, eff, f. eexists _, ctx, _. split_and!; [|done|done|exact Hs]. constructor; cbn; try done.
  - apply existsb_exists in Hk as (kind & Hk%list_elem_of_In & ?). by exists kinds, kind.
  - by apply access_holder_intro.
  - by exists ps.
  - by eapply context_decides.
  - split_and!; [do 3 (etrans; [apply ends_le|]); done|apply limited_ends, ends_limited|apply ends_limited].
  - exists assignments. split; [done|]. eapply Forall_impl; [exact Htemp|]. intros a (e & -> & ?). etrans; [|done].
    apply (limited_ends (Some e) (Deadline r)); [|done]. apply limited_ends, ends_limited.
  - eexists. split_and!; [done..|]. by destruct (signed_interval _ _ _ Hs).
Qed.

(** ** Agents *)

Lemma lower_folds c : byte_val c < 128 → byte_of (ascii_lower (byte_val c)) = byte_of (ascii_lower (fold_rune (byte_val c))).
Proof. destruct c as [[] [] [] [] [] [] [] []]; vm_compute; congruence. Qed.
Lemma decode_rune_ascii c (s : string) : (decode_rune (String c s)).1 < 128 → byte_val c < 128.
Proof.
  intros Hr. destruct (decide (byte_val c < 128)) as [|Hc]; [done|]. destruct (decide ((decode_rune (String c s)).1 = RuneError ∧ (decode_rune (String c s)).2 = 1%nat)) as [[Hw _]|Hw].
  - rewrite Hw in Hr. done.
  - pose proof (decode_rune_multi c s Hw ltac:(lia)). lia.
Qed.
Lemma fold_name_cons (s : string) x l : fold_name s = x :: l → x < 128 → x ≠ 83 → x ≠ 75 → ∃ c u, s = String c u ∧ byte_val c < 128 ∧ fold_rune (byte_val c) = x ∧ fold_name u = l.
Proof.
  destruct s as [|c s]; [done|]. unfold fold_name, runes. cbn [runes_from]. cbv zeta. remember (decode_rune (String c s)) as rw eqn:Hrw. intros Hcons ? ? ?.
  injection Hcons as Hx Hl. assert (byte_val c < 128) as Hc.
  { apply (decode_rune_ascii c s). rewrite <-Hrw. revert Hx. unfold fold_rune.
    destruct ((97 <=? rw.1) && (rw.1 <=? 122)) eqn:?; [bool_to_prop; lia|]. destruct (rw.1 =? 383); [lia|]. destruct (rw.1 =? 8490); lia. }
  exists c, s. cbn [decode_rune] in Hrw. rewrite (proj2 (Z.ltb_lt _ _)) in Hrw by done. subst rw. by split_and!.
Qed.
Lemma EqualFold_deny (s : string) : EqualFold s "deny" = true → ToLower s = "deny".
Proof.
  unfold EqualFold. intros Hf%bool_decide_eq_true. change (fold_name "deny") with [68; 69; 78; 89] in Hf.
  do 4 (apply fold_name_cons in Hf as (? & ? & -> & ? & ? & Hf); [|lia..]). match type of Hf with fold_name ?s = [] => destruct s; [|done] end.
  unfold ToLower, is_ascii. cbn [bytes String.list_ascii_of_string forallb map_bytes]. rewrite !(proj2 (Z.ltb_lt _ _)) by done. cbn [andb].
  rewrite !lower_folds by done. repeat match goal with H : fold_rune _ = _ |- _ => rewrite H; clear H end. done.
Qed.
Lemma is_deny_caps (x : Rule) : is_deny x = true → "deny" ∈ capabilitySet (Capabilities x).
Proof.
  unfold is_deny. intros (c & Hc%list_elem_of_In & Hd%EqualFold_deny)%existsb_exists. unfold capabilitySet. apply elem_of_list_to_set, list_elem_of_fmap.
  exists c. by split.
Qed.

(** The rules an agent's context is built from allow nothing beyond its ceiling. *)
Lemma agent_allows allowed ps id (x : Rule) path capability entryType : Forall (λ c, c ∈ ["read"; "list"]) allowed →
  (id, x) ∈ all_rules (ExpandCompatibilityRules (agentPolicies allowed ps)) → entry_allows path capability entryType x → capability ∈ allowed.
Proof.
  intros Hall (y & Hy & Hx)%elem_of_all_expanded (_ & Hd & Hg & _).
  assert (Capabilities x = Capabilities y) as Hc by (destruct Hx as [->|[_ ->]]; done). rewrite Hc in *. clear Hx Hc.
  unfold agentPolicies, all_rules in Hy. apply list_elem_of_bind in Hy as (p' & Hy & (p & -> & Hp)%list_elem_of_fmap). cbn in Hy.
  apply list_elem_of_fmap in Hy as (x' & [= -> ->] & (z & Hz & Hsome)%list_elem_of_omap). unfold agent_rule in Hsome.
  destruct (is_deny z) eqn:Hden; [simplify_eq; by apply is_deny_caps in Hden|]. case_bool_decide; simplify_eq. cbn in Hd, Hg.
  assert (∀ c, c ∈ capabilitySet (filter (λ item, item ∈ allowed) ((λ item, ToLower (TrimSpace item)) <$> Capabilities z)) → c ∈ allowed) as Hsub.
  { intros c. unfold capabilitySet. rewrite elem_of_list_to_set, list_elem_of_fmap. intros (c' & -> & [Hc' _]%list_elem_of_filter).
    rewrite Forall_forall in Hall. pose proof (Hall c' Hc') as Hr. rewrite !elem_of_cons, elem_of_nil in Hr. by destruct Hr as [->|[->|[]]]. }
  unfold grants in Hg. destruct (capability ∈b _) eqn:Hin in Hg; [apply Hsub; by bool_to_prop|]. apply andb_true_iff in Hg as [Hw _]. bool_to_prop. exfalso.
  apply Hsub in Hw. rewrite Forall_forall in Hall. specialize (Hall _ Hw). rewrite !elem_of_cons, elem_of_nil in Hall. naive_solver.
Qed.

Lemma issued_texts s r nodeID mountID root operation planID previous revision now wall root' capability user ce limits eff f expires c : utf8_store →
  access_issued s r nodeID mountID root operation planID previous revision now wall root' capability user ce limits eff f expires c → utf8_policies eff.
Proof.
  intros Hstore [_ _ Hh _ (ps & Hps & Heff) _ _ _ _]. eapply access_policies_texts; [by eapply Hstore| |exact Heff].
  intros l ->. apply ceiling_utf8. by eapply holder_ceiling.
Qed.
(** What the node accepts an issued envelope for, by the operation it was asked
    for: a read of its path; a step of the session of an upload; the admission of
    the upload whose body the plan is the digest of; the simple upload whose query
    and idempotency key it is the digest of; the reauthorization of the session
    after the previous credential and revision. *)
Definition accepts_operation (present : route → Prop) (actor credential operation mountID root planID previous : string) (revision : Z) : Prop :=
  (operation ∈ readOperations → present (LocalRead operation mountID root)) ∧
  (operation ∈ ["upload_chunk"; "upload_complete"; "upload_abort"] → present (LocalUpload actor credential operation mountID root planID)) ∧
  (operation = "upload_create" → ∀ body, planID = UploadAdmissionBodyID body → body ≠ "" → root ≠ "." → present (UploadAdmission mountID root body)) ∧
  (operation = "upload_simple" → ∀ rawQuery idempotencyKey, planID = SimpleUploadPlanID rawQuery idempotencyKey → root ≠ "." →
     present (SimpleUpload mountID root rawQuery idempotencyKey)) ∧
  (operation = "upload_reauthorize" →
     present (UploadReauthorization (if previous =s "" then "" else actor) previous mountID root planID revision)).

Lemma access_accepts token keys t c f user credential operation nonce capability kinds nodeID mountID root root' planID previous revision :
  verifySigned token keys t = Ok (c, f) → nodeID ≠ "" → User_ID user ≠ "" → credential ≠ "" →
  access_root root = Some root' → access_operation operation planID = Some (capability, kinds) →
  claims_Binding c = access_binding user credential operation nonce capability nodeID mountID root' planID previous revision →
  accepts_operation (λ request, present token keys nodeID request t = Ok (c, f)) (User_ID user) credential operation mountID root' planID previous revision.
Proof.
  intros Hver Hn Ha Hc Hroot Hop Hbind. unfold access_binding in Hbind.
  assert (root' ≠ "") as Hr.
  { unfold access_root in Hroot. cbv zeta in Hroot. destruct (bool_decide_reflect (root = "")); match type of Hroot with (if ?b then _ else _) = _ => destruct b end; by simplify_eq. }
  assert (∀ o, operation = o → o ∈ ["upload_create"; "upload_simple"; "upload_reauthorize"] → capability = "create" ∧ planID ≠ "") as Hcreate
    by (intros o <- Ho; by eapply operation_creates).
  unfold accepts_operation. split_and!.
  - intros Hread. rewrite bool_decide_false in Hbind.
    + pose proof (read_verifies token keys t c f Hver) as Hok; rewrite Hbind in Hok; apply Hok; [done|done|cbn; by do 7 eexists].
    + intros ->. clear -Hop Hread. unfold access_operation in Hop. unfold readOperations in Hread. repeat case_bool_decide; simplify_eq; set_solver.
  - intros Hup. destruct (operation_uploads _ _ _ _ Hop Hup) as [-> Hp]. rewrite bool_decide_true in Hbind by done.
    pose proof (upload_verifies token keys t c f Hver) as Hok; rewrite Hbind in Hok; apply Hok; [done..|cbn; by do 8 eexists].
  - intros -> body -> Hbody Hdot. destruct (Hcreate _ eq_refl ltac:(set_solver)) as [-> _]. rewrite (bool_decide_true ("create" = _)) in Hbind by done.
    pose proof (admission_verifies token keys t c f body Hver) as Hok; rewrite Hbind in Hok; apply Hok; [by do 8 eexists|done..].
  - intros -> rawQuery key -> Hdot. destruct (Hcreate _ eq_refl ltac:(set_solver)) as [-> _]. rewrite (bool_decide_true ("create" = _)) in Hbind by done.
    pose proof (simple_verifies token keys t c f rawQuery key Hver) as Hok; rewrite Hbind in Hok; apply Hok; [by do 8 eexists|done..].
  - intros ->. destruct (Hcreate _ eq_refl ltac:(set_solver)) as [-> Hp]. rewrite !(bool_decide_true (_ = _)) in Hbind by done.
    pose proof (reauthorization_verifies token keys t c f previous revision (if previous =s "" then "" else User_ID user) Hver) as Hok; rewrite Hbind in Hok; apply Hok; [by do 8 eexists|done|done|done|case_bool_decide; naive_solver|case_bool_decide; naive_solver].
Qed.

(** C9. A read or an upload the Control Tower authorizes is the holder's to have
    and works: it names the request's own actor, credential, mount and path, the
    credential was revalidated, the filter allows what was asked and decides on the
    mount exactly as the holder's policies do, it ends with the credential and with
    any temporary policy at the latest, and until then the node accepts it for the
    operation it was asked for: a read, a step of an upload session, the admission
    or the simple upload its plan is the digest of, or the reauthorization of a
    session. Whatever a node accepts it for, with any keys and at any time, is a
    request its binding names. *)
Theorem signed_access_accepted s r nodeID mountID root operation planID previous revision now wall nonce token keys :
  utf8_store → int64 (Unix (now + MaxLifetime)) →
  issueSignedAccess s r nodeID mountID root operation planID previous revision now wall nonce = Ok token →
  keys !! signingKeyID s = Some (ed25519_Public (signingKey s)) →
  ∃ root' capability user credentialExpiry limits eff f expires c,
    access_issued s r nodeID mountID root operation planID previous revision now wall root' capability user credentialExpiry limits eff f expires c ∧
    (∀ t, IssuedAt c ≤ Unix t < ExpiresAt c →
      accepts_operation (λ request, present token keys nodeID request t = Ok (c, f))
        (User_ID user) (req_credential r) operation mountID root' planID previous revision) ∧
    ∀ keys' node t request x, present token keys' node request t = Ok x → x = (c, f) ∧ asks node request (claims_Binding c).
Proof.
  intros Hstore Hnow (root' & capability & user & ce & limits & eff & f & expires & ctx & binding & Hissued & Hb & Hf & Hsign)%access_issue_inv Hk.
  eexists root', capability, user, ce, limits, eff, f, expires, _. split; [exact Hissued|].
  pose proof (issued_texts _ _ _ _ _ _ _ _ _ _ _ _ _ _ _ _ _ _ _ _ Hstore Hissued) as Hu.
  destruct Hissued as [Hroot (kinds & kind & Hop & _) Hh [Ha Hc] _ _ (Hmax & _) _ (nonce' & Hbind & _)]. cbn [claims_Binding] in Hbind.
  assert (Hver := λ t, signed_mount s eff _ ctx f binding now expires token keys t Hu Hnow Hmax Hb Hf Hsign Hk).
  pose proof (signed_interval _ _ _ Hsign) as Hint.
  apply Sign_inv in Hsign as (_ & [_ _ _ _ Hnodes _ _ _]%validate_sound & _). cbn [claims_Binding] in Hnodes.
  rewrite <-(holder_actor _ _ _ _ _ _ _ _ _ Hh) in Ha. split.
  - intros t Ht. eapply access_accepts; [by apply Hver| |done..]. rewrite Hbind in Hnodes. unfold access_binding in Hnodes. by destruct (_ =s _), Hnodes in Hnodes.
  - intros keys' node t request [c' f'] Hx. eapply presented_asks; [|exact Hx]. apply (Hver now). cbn in *. lia.
Qed.

(** C10. What the Control Tower signs for an agent is read-only: whichever node
    verifies it, with whatever keys and at whatever time, the filter it gets allows
    nothing on the mount but the reading and listing of the agent's ceiling. *)
Theorem agent_reads_only s r nodeID mountID root operation planID previous revision now wall nonce token account key keys t c f path capability entryType :
  utf8_store → int64 (Unix (now + MaxLifetime)) →
  issueSignedAccess s r nodeID mountID root operation planID previous revision now wall nonce = Ok token →
  currentActorType r = "service_account" → revalidateServiceCredential s r wall = Ok (account, key) → Account_Kind account = "agent" →
  verifySigned token keys t = Ok (c, f) →
  NormalizePath path = path → inside (NormalizePath (mount_base nodeID mountID)) path →
  filetypes.Allowed (filetypes.Evaluate (Some f) path capability entryType) = true →
  norm capability ∈ ["read"; "list"] ∧ ∃ l, normalizeAgentLimits (Token_AgentLimits key) = Ok l ∧ norm capability ∈ agent_ceiling l.
Proof.
  intros Hstore Hnow (root' & cap & user & ce & limits & eff & f' & expires & ctx & binding & Hissued & Hb & Hf & Hsign)%access_issue_inv Htype Hrev Hkind Hver Hp Hin Hall.
  pose proof (issued_texts _ _ _ _ _ _ _ _ _ _ _ _ _ _ _ _ _ _ _ _ Hstore Hissued) as Hu.
  destruct Hissued as [_ _ Hh _ (ps & _ & Heff) Hdec (Hmax & _) _ _].
  assert (Unix now ≤ Unix now < Unix expires) as Ht by (pose proof (signed_interval _ _ _ Hsign); cbn in *; lia).
  assert (Hown := signed_mount s eff _ ctx f' binding now expires token _ now Hu Hnow Hmax Hb Hf Hsign (lookup_singleton_eq _ _) Ht).
  apply verifySigned_inv in Hown as (He & _ & _ & Hd), Hver as (He' & _ & _ & Hd'). rewrite (envelope_unique _ _ _ _ _ He' He) in Hd'. assert (f' = f) as -> by congruence.
  inversion Hh as [|account' key' Ht' Hrev' ? ? Hkind'|account' key' e l Ht' Hrev' ? ? ? ? ? ? ? Hl]; subst; [congruence|congruence|]. assert (key' = key) as -> by congruence.
  pose proof (agent_ceiling_reads _ _ Hl) as Hceil. unfold access_policies in Heff. rewrite Htype, (bool_decide_false ("service_account" = "user")) in Heff by done. cbn [andb] in Heff.
  destruct (_ ∈b _) in Heff; cbn [negb] in Heff; [|done]. injection Heff as <-. apply Hdec in Hall as (_ & (id & x & Hx & Hallows) & _); [|done..].
  pose proof (agent_allows (agent_ceiling l) ps id x path _ _ Hceil Hx Hallows) as Hc. split; [|by eauto]. rewrite Forall_forall in Hceil. by apply Hceil.
Qed.

(** ** Shares *)

(** Everything the envelope of a share rests on, up to the signature. *)
Record share_issued s r (share : Share) (root operation : string) now (current : Share) (root' capability : string) (eff : list Policy) (f : filetypes.Filter)
    (expires : time) (c : Claims) : Prop := {
  si_current : GetShare (Share_ID share) = Ok current ∧ Active current now = true ∧ CreatedBy current = CreatedBy share ∧ Share_NodeID current = Share_NodeID share ∧
    Share_MountID current = Share_MountID share ∧ Share_Path current = Share_Path share ∧ Share_Kind current = Share_Kind share;
  si_operation : access_root root = Some root' ∧ share_capability operation = Some capability;
  si_confined : within (fileScope (mount_base (Share_NodeID current) (Share_MountID current)) (Share_Path current))
    (fileScope (mount_base (Share_NodeID current) (Share_MountID current)) root') ∧
    (Share_Kind current = "file" → operation = "content" ∧
       fileScope (mount_base (Share_NodeID current) (Share_MountID current)) root' = fileScope (mount_base (Share_NodeID current) (Share_MountID current)) (Share_Path current)) ∧
    (operation = "archive" → AllowArchive current = true);
  si_owner : ∃ owner actorType credentialExpiry ps, currentShareCreator s current now = Ok (owner, actorType, credentialExpiry) ∧ User_Enabled owner = true ∧
    RBACPoliciesForSubject actorType (User_ID owner) = Ok ps ∧ limited credentialExpiry expires ∧
    eff = (if (actorType =s "user") && (Role owner =s "admin")
           then adminPolicies ["read"; "list"] (mount_base (Share_NodeID current) (Share_MountID current)) ps else ps) ∧
    ∃ request, claims_Binding c = mkBinding (User_ID owner) ("share-" +++ Share_ID current) operation request (Share_NodeID current) "" (Share_MountID current) root' "" "" "" "" "" "";
  si_allowed : ∃ kind, kind ∈ ["directory"; "file"] ∧
    filetypes.Allowed (filetypes.Evaluate (Some f) (fileScope (mount_base (Share_NodeID current) (Share_MountID current)) root') capability kind) = true;
  si_decides : decides_as eff (NormalizePath (mount_base (Share_NodeID current) (Share_MountID current))) f;
  si_expires : expires ≤ now + MaxLifetime ∧ limited (Share_ExpiresAt current) expires ∧ limited (Deadline r) expires;
  si_time : IssuedAt c = Unix now ∧ ExpiresAt c = Unix expires ∧ IssuedAt c < ExpiresAt c;
}.

Lemma HasPrefix_within a b : HasPrefix b (a +++ "/") = true → within a b.
Proof. unfold HasPrefix. intros [t Ht%StripPrefix_Some]%bool_decide_eq_true. right. exists t. by rewrite Ht, append_assoc. Qed.

Lemma share_creator_enabled s share now owner actorType ce : currentShareCreator s share now = Ok (owner, actorType, ce) → User_Enabled owner = true.
Proof.
  unfold currentShareCreator. destruct (_ || _); [destruct (GetUser _) as [u|]; [|done]; destruct (User_Enabled u) eqn:He; cbn [negb]; [by intros [= <- _ _]|done]|].
  destruct (_ =s _); [|done]. destruct (GetServiceAccount _) as [a|]; [|done]. destruct (_ || _); [done|]. destruct (GetActiveServiceAccountToken _ _ _) as [k|]; [|done].
  destruct (negb _); [done|]. intros H. inv_ok. by case_match; simplify_eq.
Qed.
Lemma share_issue_inv s r share root operation now nonce token : issueSignedShareRead s r share root operation now nonce = Ok token →
  ∃ current root' capability eff f expires ctx binding,
    share_issued s r share root operation now current root' capability eff f expires (mkClaims Version (signingKeyID s) binding (Unix now) (Unix expires) (filetypes.json_context ctx)) ∧
    buildMountAccessContext eff (mount_base (Share_NodeID current) (Share_MountID current)) = Ok ctx ∧ filetypes.Compile ctx = Ok f ∧
    Sign (mkClaims Version (signingKeyID s) binding (Unix now) (Unix expires) (filetypes.json_context ctx)) (signingKey s) = Ok token.
Proof.
  unfold issueSignedShareRead. destruct (_ || _ || _); [done|]. destruct (access_root root) as [root'|] eqn:Hroot; [|done].
  destruct (share_capability operation) as [capability|] eqn:Hop; [|done]. destruct (GetShare _) as [current|] eqn:Hget; [|done].
  destruct (share_changed current share now) eqn:Hch; [done|]. destruct (currentShareCreator s current now) as [[[owner actorType] ce]|] eqn:Hown; [|done].
  intros Hrun. inv_ok. match goal with H : signedPolicySnapshot _ _ = Ok ?x |- _ => destruct x as [ps temporary]; apply snapshot_inv in H as (Hps & _) end.
  passes. rename Hguard into Hscope. passes. rename Hguard into Hkind. passes. clear Hguard. passes. rename Hguard into Hall. apply negb_false_iff in Hall.
  unfold signingKeyID, signingKey. destruct (signing s) as [id key].
  match goal with H : _ = Ok token |- _ => destruct (Context_Err r); [discriminate H|]; rename H into Hs end.
  match goal with H : buildMountAccessContext ?e _ = Ok ?x |- _ => rename x into ctx, H into Hb; set (eff := e) in * end.
  match goal with H : filetypes.Compile _ = Ok ?x |- _ => rename x into f, H into Hf end.
  exists current, root', capability, eff, f. eexists _, ctx, _. split_and!; [|done|done|exact Hs]. unfold share_changed in Hch. constructor; cbn; try done.
  - bool_to_prop. split_and!; done.
  - apply orb_false_iff in Hscope as [_ Hscope]. apply orb_false_iff in Hkind as [Hk1 Hk2]. split_and!.
    + apply andb_false_iff in Hscope as [Hx|Hx]; bool_to_prop; [by left|by apply HasPrefix_within].
    + intros Hk. rewrite bool_decide_true in Hk1 by done. cbn [andb] in Hk1. by bool_to_prop.
    + intros ->. rewrite bool_decide_true in Hk2 by done. cbn [andb] in Hk2. by bool_to_prop.
  - exists owner, actorType, ce, ps. split_and!; [done|by eapply share_creator_enabled|done|apply limited_ends, ends_limited|done|by eexists].
  - destruct (operation =s "content"); [apply orb_true_iff in Hall as [?|?]; [exists "directory"|exists "file"]|exists "directory"]; (split; [repeat constructor|assumption]).
  - by eapply context_decides.
  - split_and!; [do 4 (etrans; [apply ends_le|]); done|do 2 apply limited_ends; apply ends_limited|apply ends_limited].
  - split_and!; [done..|]. by destruct (signed_interval _ _ _ Hs).
Qed.

(** C11. A share serves no more than its creator shared and may read when the
    envelope is issued: it is issued for a path in the shared one, of a share that
    is active then and was read again, on behalf of a creator who is enabled; it
    ends with the share and the creator's credential at the latest and within the
    lifetime of an envelope; until then the node accepts it, with a filter that
    decides exactly as the creator's policies did, for that read of that path; and
    no node accepts it for anything else, at any time and with any keys. *)
Theorem share_read_accepted s r share root operation now nonce token keys :
  utf8_store → int64 (Unix (now + MaxLifetime)) →
  issueSignedShareRead s r share root operation now nonce = Ok token →
  keys !! signingKeyID s = Some (ed25519_Public (signingKey s)) →
  ∃ current root' capability eff f expires c,
    share_issued s r share root operation now current root' capability eff f expires c ∧
    (∀ t, IssuedAt c ≤ Unix t < ExpiresAt c →
      VerifyLocalRead token keys (Share_NodeID current) operation (Share_MountID current) root' t = Ok (c, f)) ∧
    ∀ keys' node t request x, present token keys' node request t = Ok x →
      x = (c, f) ∧ node = Share_NodeID current ∧ request = LocalRead operation (Share_MountID current) root'.
Proof.
  intros Hstore Hnow (current & root' & capability & eff & f & expires & ctx & binding & Hissued & Hb & Hf & Hsign)%share_issue_inv Hk.
  eexists current, root', capability, eff, f, expires, _. split; [exact Hissued|].
  destruct Hissued as [_ [_ Hop] _ (owner & actorType & ce & ps & _ & _ & Hps & _ & Heff & request & Hbind) _ _ (Hmax & _) _]. cbn [claims_Binding] in Hbind.
  assert (utf8_policies eff) as Hu.
  { rewrite Heff. destruct (_ && _); [|by eapply Hstore]. apply admin_policies_texts; [by repeat constructor|by eapply Hstore]. }
  assert (operation ∈ readOperations) as Hread.
  { clear -Hop. unfold share_capability in Hop. unfold readOperations. destruct (bool_decide_reflect (operation = "list")) as [->|]; [repeat constructor|].
    destruct (bool_decide_reflect (operation = "content")) as [->|]; [repeat constructor|]. destruct (bool_decide_reflect (operation = "archive")) as [->|]; [repeat constructor|done]. }
  assert (Hver := λ t, signed_mount s eff _ ctx f binding now expires token keys t Hu Hnow Hmax Hb Hf Hsign Hk).
  pose proof (signed_interval _ _ _ Hsign) as Hint.
  apply Sign_inv in Hsign as (_ & [_ _ _ _ Hnodes _ _ _]%validate_sound & _). cbn [claims_Binding] in Hnodes. subst binding. split.
  - intros t Ht. specialize (Hver t Ht). apply (read_verifies token keys t _ f) in Hver; [exact Hver|done|by destruct Hnodes|cbn; by do 7 eexists].
  - intros keys' node t q [c' f'] Hx. destruct (presented_asks token keys now _ f keys' node t q (c', f') (Hver now ltac:(cbn in *; lia)) Hx) as [Heq Hasks].
    split; [exact Heq|]. apply asks_read in Hasks; [|exact Hread]. exact Hasks.
Qed.
End Access.
