(* ===== verification/ControlExamples.v ===== *)
(** Concrete authorizations: the theorems on issuing and verifying applied where
    their hypotheses hold, with a small store and a stand-in for the signature
    scheme. *)
From S2P Require Import Prelude GoLib Base64 Json FileTypes FileTypesFacts Rbac RbacFacts RbacTyped Entities SignedAuth SignedAuthFacts SignedRoundtrip SignedAuthExamples ControlStore ControlAccess ControlContext ControlLeases ControlReads.
From stdpp Require Import options.
Import rbac store signedauth httpapi.
Local Open Scope Z_scope.
#[local] Existing Instance latin1_unicode.
#[local] Existing Instance demo_crypto.
#[local] Existing Instance demo_crypto_ok.

#[local] Instance demo_netip : Netip := {|
  Addr := string; Prefix := string;
  ParseAddr := Some; ParsePrefix := Some; Unmap a := a; Prefix_Contains p a := HasPrefix a p; Prefix_MaskedString p := p;
  SplitHostPort h := Some (List.hd "" (Split ":"%char h)); ParseMediaType s := Some (s, 0%nat);
|}.

(** ** A store *)

Definition mount_path : string := "nodes/n1/files/mounts/m1".
Definition no_env : filetypes.Selector := {| filetypes.Classes := []; filetypes.Extensions := ["env"]; filetypes.Names := [] |}.
Definition demo_policies : list Policy := [
  {| ID := "p1"; Name := "files"; Rules := [
       {| Path := mount_path; Capabilities := ["read"; "list"; "delete"]; FileTypes := None; Visibility := ""; rule_NeedsApproval := [] |};
       {| Path := mount_path +++ "/**"; Capabilities := ["deny"]; FileTypes := Some no_env; Visibility := "hidden"; rule_NeedsApproval := [] |}] |};
  {| ID := "p2"; Name := "jobs"; Rules := [
       {| Path := "nodes/n1/jobs/*"; Capabilities := ["execute"]; FileTypes := None; Visibility := ""; rule_NeedsApproval := [] |}] |}].
Definition alice : User := mkUser "alice" "alice" "" "operator" true 0 0.
Definition bot : ServiceAccount := mkServiceAccount "agent" "bot" "bot" "" true 0 0.
Definition bot_key : ServiceAccountToken := mkServiceAccountToken None "t1" "bot" "" "" (Some (1000 * second)) None None 0.
Definition demo_share : Share :=
  mkShare "s1" "" "n1" "m1" "docs" "directory" "" "" false false 0 0 "alice" "user" "" 0 (Some (500 * second)) None None.
#[local] Instance demo_control : Store := {|
  SessionUserAndExpiry digest := if digest =s "d1" then Ok (alice, 1000 * second) else Err ErrNotFound;
  AuthenticateServiceAccount digest := if digest =s "d2" then Ok (bot, bot_key) else Err ErrNotFound;
  AuthenticateWorkloadIdentity _ _ _ _ _ _ := Err ErrNotFound;
  ServiceAccountGroupIDs _ _ := Ok ["g1"];
  NodeInAccessGroup group node := Ok ((group =s "g1") && (node =s "n1"));
  TemporaryPolicies _ _ := Ok [mkTemporaryPolicyAssignment "p1" "root" 0 (115 * second)];
  RBACPoliciesForSubject _ _ := Ok demo_policies;
  GetUser id := if id =s "alice" then Ok alice else Err ErrNotFound;
  GetServiceAccount _ := Err ErrNotFound;
  GetActiveServiceAccountToken _ _ _ := Err ErrNotFound;
  GetWorkloadIdentity _ _ := Err ErrNotFound;
  ActiveWorkloadIdentity _ _ _ _ := Err ErrNotFound;
  GetShare id := if id =s "s1" then Ok demo_share else Err ErrNotFound;
  GetJobAuthorizationScope _ _ := Err ErrNotFound;
|}.

Lemma demo_texts : utf8_store.
Proof.
  intros ? ? ps [= <-] id r Hr. unfold demo_policies, all_rules in Hr. cbn in Hr. rewrite !elem_of_cons, elem_of_nil in Hr.
  destruct Hr as [[= -> ->]|[[= -> ->]|[[= -> ->]|[]]]]; (split; [by repeat constructor|]); intros sel Hsel; cbn in Hsel; try discriminate Hsel.
  injection Hsel as <-. unfold no_env. constructor; cbn; by repeat constructor.
Defined.

Definition demo_server : Server := mkServer None "k1" demo_key None [] true.
Definition alice_request : Request := mkRequest (Some alice) "user" "session-1" "d1" None None "" "" None None.
Definition bot_user : User := mkUser "bot" "bot" "" "service_account" true 0 0.
Definition bot_request : Request :=
  mkRequest (Some bot_user) "service_account" "token-t1" "d2" None (Some (mkAgentContext DefaultAgentLimits 0)) "10.0.0.1:5000" "" None None.
Definition delete_job : signedLocalJob := mkSignedLocalJob "job-1" "delete" "running" "m1" "docs/a" "" false false "" "" false 0 0 0 0 "" "" "".
Definition at_100 : time := 100 * second.

Definition issued (r : result string) : string := match r with Ok token => token | Err _ => "" end.
Definition lease_token : string := issued (issueSignedJobLease demo_server alice_request "n1" delete_job 1 at_100 at_100).
Definition read_token : string := issued (issueSignedLocalRead demo_server alice_request "n1" "m1" "docs/a" "content" at_100 at_100 (Ok "0123456789abcdef")).
Definition bot_token : string := issued (issueSignedLocalRead demo_server bot_request "n1" "m1" "docs" "list" at_100 at_100 (Ok "0123456789abcdef")).
Definition share_token : string := issued (issueSignedShareRead demo_server alice_request demo_share "docs/a" "content" at_100 (Ok "0123456789abcdef")).

Lemma lease_token_issued : issueSignedJobLease demo_server alice_request "n1" delete_job 1 at_100 at_100 = Ok lease_token.
Proof. vm_compute. reflexivity. Defined.
Lemma read_token_issued : issueSignedAccess demo_server alice_request "n1" "m1" "docs/a" "content" "" "" 0 at_100 at_100 (Ok "0123456789abcdef") = Ok read_token.
Proof. vm_compute. reflexivity. Defined.
Lemma bot_token_issued : issueSignedAccess demo_server bot_request "n1" "m1" "docs" "list" "" "" 0 at_100 at_100 (Ok "0123456789abcdef") = Ok bot_token.
Proof. vm_compute. reflexivity. Defined.
Lemma share_token_issued : issueSignedShareRead demo_server alice_request demo_share "docs/a" "content" at_100 (Ok "0123456789abcdef") = Ok share_token.
Proof. vm_compute. reflexivity. Defined.

(** ** The witnesses *)

Definition context_1 : filetypes.Context := {| filetypes.Version := 1; filetypes.Rules := [
  filetypes.mkRule "p1" "nodes/n1/files/mounts/m1/**" ["read"; "list"] (Some no_env) "visible"] |}.
Definition signed_claims : Claims := mkClaims 1 "k1" read_binding 100 120 (filetypes.json_context context_1).
Lemma context_1_texts : utf8_context context_1.
Proof.
  constructor; [|constructor]. constructor; cbn; [done|done|by repeat constructor| |done].
  intros sel Hsel. injection Hsel as <-. unfold no_env. constructor; cbn; by repeat constructor.
Defined.

Lemma sign_verify_witness :
  ∃ f, filetypes.Compile context_1 = Ok f ∧ verifySigned (token_of signed_claims) demo_keys at_110 = Ok (signed_claims, f) ∧
    ∀ node, node ≠ "" → node = SourceNodeID read_binding ∨ node = DestinationNodeID read_binding →
      Verify (token_of signed_claims) demo_keys read_binding node at_110 = Ok (signed_claims, f).
Proof.
  apply (sign_verify signed_claims context_1 demo_key (token_of signed_claims) demo_keys at_110);
    [reflexivity|exact context_1_texts|vm_compute; intuition discriminate|vm_compute; intuition discriminate|vm_compute; reflexivity|reflexivity|vm_compute; intuition discriminate].
Defined.

Lemma job_lease_accepted_witness :
  ∃ subject binding required bases f c, lease_of "n1" delete_job subject binding required bases ∧
    Forall (permitted demo_server (expanded subject) f) required ∧
    (SourceNodeID binding = "n1" → VerifyJobLease lease_token demo_keys binding "n1" 1 at_100 = Ok (c, f)).
Proof.
  destruct (job_lease_accepted demo_server alice_request "n1" delete_job 1 at_100 at_100 lease_token demo_keys)
    as (subject & binding & required & bases & f & c & expires & _ & Hl & Hp & _ & Hi & _ & He & _ & _ & _ & _ & _ & Hv & _);
    [exact demo_texts|vm_compute; intuition discriminate|discriminate|exact lease_token_issued|reflexivity|].
  exists subject, binding, required, bases, f, c. split; [exact Hl|split; [exact Hp|]]. intros Hn. apply Hv; [discriminate|left; symmetry; exact Hn|].
  rewrite Hi in *. split; [reflexivity|exact He].
Defined.

Lemma signed_access_accepted_witness :
  ∃ user f c, User_ID user = "alice" ∧ VerifyLocalRead read_token demo_keys "n1" "content" "m1" "docs/a" at_100 = Ok (c, f).
Proof.
  destruct (signed_access_accepted demo_server alice_request "n1" "m1" "docs/a" "content" "" "" 0 at_100 at_100 (Ok "0123456789abcdef") read_token demo_keys)
    as (root' & capability & user & ce & limits & eff & f & expires & c & Hi & Hv & _);
    [exact demo_texts|vm_compute; intuition discriminate|exact read_token_issued|reflexivity|].
  destruct Hi as [Hroot _ Hh _ _ _ _ _ (nonce & _ & Ht & _ & Hlt)].
  exists user, f, c. split; [exact (holder_actor _ _ _ _ _ _ _ _ _ Hh)|]. vm_compute in Hroot. injection Hroot as <-.
  destruct (Hv at_100) as [Hr _]; [rewrite Ht in *; split; [reflexivity|exact Hlt]|]. apply Hr. unfold readOperations. repeat constructor.
Defined.

Definition bot_verified : Claims * filetypes.Filter :=
  match verifySigned bot_token demo_keys at_100 with Ok x => x | Err _ => (Claims_zero, empty_filter) end.
Lemma bot_token_verified : verifySigned bot_token demo_keys at_100 = Ok (bot_verified.1, bot_verified.2).
Proof. vm_compute. reflexivity. Defined.
Lemma bot_may_list : filetypes.Allowed (filetypes.Evaluate (Some bot_verified.2) (mount_path +++ "/docs/a") "list" "directory") = true.
Proof. vm_compute. reflexivity. Defined.
Lemma agent_reads_only_witness :
  norm "list" ∈ ["read"; "list"] ∧ ∃ l, normalizeAgentLimits (Token_AgentLimits bot_key) = Ok l ∧ norm "list" ∈ agent_ceiling l.
Proof.
  exact (agent_reads_only demo_server bot_request "n1" "m1" "docs" "list" "" "" 0 at_100 at_100 (Ok "0123456789abcdef") bot_token bot bot_key demo_keys at_100 _ _
    (mount_path +++ "/docs/a") "list" "directory" demo_texts ltac:(vm_compute; intuition discriminate) bot_token_issued eq_refl eq_refl eq_refl bot_token_verified eq_refl
    (ex_intro _ ["docs"; "a"] eq_refl) bot_may_list).
Defined.

Lemma share_read_accepted_witness :
  ∃ f c, CredentialID (claims_Binding c) = "share-s1" ∧ VerifyLocalRead share_token demo_keys "n1" "content" "m1" "docs/a" at_100 = Ok (c, f).
Proof.
  destruct (share_read_accepted demo_server alice_request demo_share "docs/a" "content" at_100 (Ok "0123456789abcdef") share_token demo_keys)
    as (current & root' & capability & eff & f & expires & c & Hi & Hv & _);
    [exact demo_texts|vm_compute; intuition discriminate|exact share_token_issued|reflexivity|].
  destruct Hi as [(Hget & _) (Hroot & _) _ (owner & ty & ce & ps & _ & _ & _ & _ & _ & request & Hb) _ _ _ (Ht & _ & Hlt)].
  vm_compute in Hget, Hroot. injection Hget as <-. injection Hroot as <-. exists f, c. split; [rewrite Hb; reflexivity|].
  specialize (Hv at_100). rewrite Ht in Hv. apply Hv. split; [reflexivity|]. rewrite <-Ht. exact Hlt.
Defined.

(** What the leased filter decides: an environment file in the mount stays closed,
    and no envelope is issued for a path outside the share. *)
Example env_files_stay_closed : ∀ f, filetypes.Compile (match buildMountAccessContext demo_policies mount_path with Ok c => c | Err _ => context_1 end) = Ok f →
  filetypes.Allowed (filetypes.Evaluate (Some f) (mount_path +++ "/docs/.env") "read" "file") = false ∧
  filetypes.Allowed (filetypes.Evaluate (Some f) (mount_path +++ "/docs/a") "read" "file") = true.
Proof. intros f Hf. vm_compute in Hf. injection Hf as <-. split; vm_compute; reflexivity. Qed.
Example share_does_not_leak : issueSignedShareRead demo_server alice_request demo_share "other/a" "content" at_100 (Ok "0123456789abcdef") = unavailable.
Proof. vm_compute. reflexivity. Qed.
