(* ===== verification/GoTime.v ===== *)
(** Package time: instants in nanoseconds since the Unix epoch, the sortable text
    the node's state indexes an instant by, and instants as text: [Format] with the
    layout time.RFC3339Nano in UTC, and time.Parse with that layout. What is written
    is read back. *)
From S2P Require Import Prelude GoLib Entities.
From stdpp Require Import options.
Local Open Scope Z_scope.

Definition nanoseconds : Z := 1000000000.
Definition minute : Z := 60 * nanoseconds.

Definition IsZero (t : time) : bool := t =? zero_time.
Definition After (t u : time) : bool := u <? t.
Definition Before (t u : time) : bool := t <? u.

(** [time.Unix(sec, 0)] and [Time.Unix]. *)
Definition of_Unix (sec : Z) : time := sec * nanoseconds.

(** The proleptic Gregorian date of a day counted from 1970-01-01. *)
Definition civil (day : Z) : Z * Z * Z :=
  let z := day + 719468 in
  let era := z / 146097 in
  let doe := z mod 146097 in
  let yoe := (doe - doe / 1460 + doe / 36524 - doe / 146096) / 365 in
  let doy := doe - (365 * yoe + yoe / 4 - yoe / 100) in
  let mp := (5 * doy + 2) / 153 in
  let d := doy - (153 * mp + 2) / 5 + 1 in
  let m := if mp <? 10 then mp + 3 else mp - 9 in
  (yoe + era * 400 + (if m <=? 2 then 1 else 0), m, d).

(** [t.UTC().Format("2006-01-02T15:04:05.000000000Z")]. *)
Definition order (t : time) : string :=
  let sec := t / nanoseconds in
  let '(y, m, d) := civil (sec / 86400) in
  let s := sec mod 86400 in
  pad_dec 4 y +++ "-" +++ pad_dec 2 m +++ "-" +++ pad_dec 2 d +++ "T" +++ pad_dec 2 (s / 3600) +++ ":" +++
  pad_dec 2 (s mod 3600 / 60) +++ ":" +++ pad_dec 2 (s mod 60) +++ "." +++ pad_dec 9 (t mod nanoseconds) +++ "Z".

Local Open Scope go_scope.

(** * Writing *)

(** The fraction of a second: nine digits without the zeros at the end, or nothing. *)
Fixpoint trim_zeros (s : string) : string :=
  match s with
  | "" => ""
  | String c s => let t := trim_zeros s in if (c =s "0"%char) && (t =s "") then "" else String c t
  end.
Definition fraction (ns : Z) : string := if ns =? 0 then "" else "." +++ trim_zeros (pad_dec 9 ns).
Definition Format (t : time) : string :=
  let sec := t / nanoseconds in
  let '(y, m, d) := civil (sec / 86400) in
  let s := sec mod 86400 in
  pad_dec 4 y +++ "-" +++ pad_dec 2 m +++ "-" +++ pad_dec 2 d +++ "T" +++ pad_dec 2 (s / 3600) +++ ":" +++
  pad_dec 2 (s mod 3600 / 60) +++ ":" +++ pad_dec 2 (s mod 60) +++ fraction (t mod nanoseconds) +++ "Z".

(** * Reading *)

(** The day of a date, counted from 1970-01-01. *)
Definition days (y m d : Z) : Z :=
  let y := if m <=? 2 then y - 1 else y in
  let era := y / 400 in
  let yoe := y mod 400 in
  let mp := if 2 <? m then m - 3 else m + 9 in
  let doy := (153 * mp + 2) / 5 + d - 1 in
  let doe := yoe * 365 + yoe / 4 - yoe / 100 + doy in
  era * 146097 + doe - 719468.
Definition leap (y : Z) : bool := (y mod 4 =? 0) && (negb (y mod 100 =? 0) || (y mod 400 =? 0)).
Definition daysIn (m y : Z) : Z :=
  if m =? 2 then (if leap y then 29 else 28)
  else if (m =? 4) || (m =? 6) || (m =? 9) || (m =? 11) then 30 else 31.



(** [n] digits with a value in a range, and what follows them. *)
Fixpoint read_digits (n : nat) (acc : Z) (s : string) : option (Z * string) :=
  match n, s with
  | O, _ => Some (acc, s)
  | S n, String c s => v ← digit_val c; read_digits n (10 * acc + v) s
  | S _, "" => None
  end.
Definition read_number (n : nat) (lo hi : Z) (s : string) : option (Z * string) :=
  '(v, s) ← read_digits n 0 s; if (lo <=? v) && (v <=? hi) then Some (v, s) else None.
(** The digits of a fraction: the first nine count. *)
Fixpoint read_fraction (n : nat) (acc : Z) (s : string) : Z * string :=
  match s with
  | String c s' =>
    match digit_val c with
    | Some v => match n with O => read_fraction O acc s' | S n => read_fraction n (acc + v * 10 ^ Z.of_nat n) s' end
    | None => (acc, s)
    end
  | "" => (acc, "")
  end.
Definition read_nanos (s : string) : Z * string :=
  match s with
  | String "." (String c _ as rest) => if bool_decide (is_Some (digit_val c)) then read_fraction 9 0 rest else (0, s)
  | _ => (0, s)
  end.
(** [Z] or the distance to UTC, in seconds. *)
Definition read_zone (s : string) : option Z :=
  if s =s "Z" then Some 0 else
  match s with
  | String c rest =>
    '(h, rest) ← read_number 2 0 23 rest;
    rest ← StripPrefix ":" rest;
    '(m, rest) ← read_number 2 0 59 rest;
    if (rest ≠s "") || (c ≠s "-"%char) && (c ≠s "+"%char) then None
    else Some ((h * 60 + m) * 60 * (if c =s "-"%char then -1 else 1))
  | "" => None
  end.

(** [parseRFC3339]. The forms time.Parse accepts beyond it, such as hours of one
    digit, are not written by the program and are refused here. *)
Definition Parse (s : string) : option time :=
  '(y, s) ← read_number 4 0 9999 s; s ← StripPrefix "-" s;
  '(mo, s) ← read_number 2 1 12 s; s ← StripPrefix "-" s;
  '(d, s) ← read_number 2 1 (daysIn mo y) s; s ← StripPrefix "T" s;
  '(h, s) ← read_number 2 0 23 s; s ← StripPrefix ":" s;
  '(mi, s) ← read_number 2 0 59 s; s ← StripPrefix ":" s;
  '(sec, s) ← read_number 2 0 59 s;
  let '(ns, s) := read_nanos s in
  offset ← read_zone s;
  Some (((days y mo d * 86400 + h * 3600 + mi * 60 + sec) - offset) * nanoseconds + ns).


(** [t, _ = time.Parse(...)]: the zero time when the text is not one. *)
Definition Parse_or_zero (s : string) : time := default zero_time (Parse s).
(** [nullableTime] and [parseNullableTime] of the control's store. *)
Definition nullableTime (t : option time) : option string := Format <$> t.
Definition parseNullableTime (s : option string) : option time := s ≫= Parse.

(** * The round trip *)

Definition four_digit_year (t : time) : Prop := let '(y, _, _) := civil (t / nanoseconds / 86400) in 0 ≤ y ≤ 9999.

(** The calendar. A day of an era of 400 years falls in the year the formula of
    [civil] finds, since the formula is right on the first and the last day of
    each year and grows in between; the days of a year are checked one by one. *)
Definition spread (doe : Z) : Z := doe - doe / 1460 + doe / 36524 - doe / 146096.
Definition year_of_era (doe : Z) : Z := spread doe / 365.
Definition year_start (y : Z) : Z := 365 * y + y / 4 - y / 100.
Definition year_ok (y : Z) : bool :=
  (spread (year_start y) / 365 =? y) && (spread (year_start (y + 1) - 1) / 365 =? y)
  && (year_start (y + 1) <=? year_start y + (if leap (y + 1) then 366 else 365)).
Definition month_of (mp : Z) : Z := if mp <? 10 then mp + 3 else mp - 9.
Definition day_ok (doy : Z) : bool :=
  let mp := (5 * doy + 2) / 153 in
  let d := doy - (153 * mp + 2) / 5 + 1 in
  (0 <=? mp) && (mp <? 12) && (1 <=? d)
  && (if doy =? 365 then (d =? 29) && (month_of mp =? 2) else d <=? (if month_of mp =? 2 then 28 else daysIn (month_of mp) 1)).
Lemma minus_part_mono k a b : 0 < k → a ≤ b → a - a / k ≤ b - b / k.
Proof.
  intros Hk Hab. pose proof (Z.div_mod a k ltac:(lia)). pose proof (Z.mod_pos_bound a k Hk). pose proof (Z.div_mod b k ltac:(lia)). pose proof (Z.mod_pos_bound b k Hk). nia.
Qed.
Lemma spread_mono a b : a ≤ b → spread a ≤ spread b.
Proof.
  intros Hab. unfold spread. replace 146096 with (36524 * 4) by done. rewrite <-!Z.div_div by lia.
  pose proof (minus_part_mono 1460 a b ltac:(lia) Hab). pose proof (minus_part_mono 4 _ _ ltac:(lia) (Z.div_le_mono a b 36524 ltac:(lia) Hab)). lia.
Qed.
Lemma years_ok y : 0 ≤ y < 400 → year_ok y = true.
Proof.
  intros H. assert (forallb year_ok (seqZ 0 400) = true) as Ha by by vm_compute.
  rewrite forallb_forall in Ha. apply Ha, list_elem_of_In, elem_of_seqZ. lia.
Qed.
Lemma days_ok doy : 0 ≤ doy ≤ 365 → day_ok doy = true.
Proof.
  intros H. assert (forallb day_ok (seqZ 0 366) = true) as Ha by by vm_compute.
  rewrite forallb_forall in Ha. apply Ha, list_elem_of_In, elem_of_seqZ. lia.
Qed.
Lemma in_some_year n doe : 0 ≤ doe < year_start (Z.of_nat n) → ∃ y, 0 ≤ y < Z.of_nat n ∧ year_start y ≤ doe < year_start (y + 1).
Proof.
  induction n as [|n IH]; [intros H; exfalso; change (year_start (Z.of_nat 0)) with 0 in H; lia|]. rewrite Nat2Z.inj_succ. intros H.
  destruct (decide (doe < year_start (Z.of_nat n))) as [Hlt|Hge]; [destruct IH as (y & ? & ?); [lia|exists y; lia]|].
  exists (Z.of_nat n). rewrite <-Z.add_1_r in H. lia.
Qed.
Lemma era_year doe : 0 ≤ doe < 146097 →
  let y := year_of_era doe in 0 ≤ y < 400 ∧ 0 ≤ doe - year_start y ≤ 365 ∧ (doe - year_start y = 365 → leap (y + 1) = true).
Proof.
  intros H. cbv zeta. destruct (decide (doe = 146096)) as [->|Hne]; [vm_compute; split_and!; [done..|]; by intros|].
  destruct (in_some_year 400 doe) as (y & Hy & Hs); [change (year_start (Z.of_nat 400)) with 146096; lia|].
  assert (0 ≤ year_start y) as H0 by (unfold year_start; Z.to_euclidean_division_equations; lia).
  pose proof (years_ok y Hy) as Hok. unfold year_ok in Hok. bool_to_prop.
  pose proof (spread_mono (year_start y) doe ltac:(lia)). pose proof (spread_mono doe (year_start (y + 1) - 1) ltac:(lia)).
  assert (year_of_era doe = y) as ->.
  { unfold year_of_era. apply Z.le_antisymm.
    - transitivity (spread (year_start (y + 1) - 1) / 365); [apply Z.div_le_mono; lia|lia].
    - transitivity (spread (year_start y) / 365); [lia|apply Z.div_le_mono; lia]. }
  destruct (leap (y + 1)); [split_and!; [lia..|done]|split_and!; lia].
Qed.

Lemma leap_period y k : leap (y + k * 400) = leap y.
Proof.
  unfold leap. replace (y + k * 400) with (y + (100 * k) * 4) at 1 by lia. replace (y + k * 400) with (y + (4 * k) * 100) at 1 by lia.
  by rewrite !Z_mod_plus_full.
Qed.
Lemma daysIn_period m y k : daysIn m (y + k * 400) = daysIn m y.
Proof. unfold daysIn. by rewrite leap_period. Qed.

Lemma days_civil day y m d : civil day = (y, m, d) → days y m d = day ∧ 1 ≤ m ≤ 12 ∧ 1 ≤ d ≤ daysIn m y.
Proof.
  unfold civil. set (z := day + 719468). set (era := z / 146097). set (doe := z mod 146097).
  assert (0 ≤ doe < 146097) as Hdoe by (apply Z.mod_pos_bound; lia). assert (z = era * 146097 + doe) as Hz by (unfold era, doe; pose proof (Z.div_mod z 146097); lia).
  destruct (era_year doe Hdoe) as (Hyoe & Hdoy & Hleap). fold (spread doe). fold (year_of_era doe). cbv zeta.
  revert Hyoe Hdoy Hleap. generalize (year_of_era doe). intros yoe Hyoe Hdoy Hleap. fold (year_start yoe). clearbody era doe.
  pose proof (days_ok _ Hdoy) as Hok. unfold day_ok in Hok. revert Hok Hleap. cbv zeta. remember (doe - year_start yoe) as doy eqn:Hdoe'.
  generalize ((5 * doy + 2) / 153). intros mp Hok Hleap. fold (month_of mp). set (b := if month_of mp <=? 2 then 1 else 0). intros [= <- <- <-].
  bool_to_prop. assert (1 ≤ month_of mp ≤ 12) as Hm by (unfold month_of; destruct (Z.ltb_spec mp 10); lia). split_and!; [|lia..|].
  - unfold days. replace (if month_of mp <=? 2 then yoe + era * 400 + b - 1 else yoe + era * 400 + b) with (yoe + era * 400) by (unfold b; clear; destruct (month_of mp <=? 2); ring).
    rewrite Z.div_add, Z.mod_add, (Z.div_small yoe), (Z.mod_small yoe) by lia.
    assert ((if 2 <? month_of mp then month_of mp - 3 else month_of mp + 9) = mp) as -> by (clear -H H2; unfold month_of; destruct (Z.ltb_spec mp 10); [destruct (Z.ltb_spec 2 (mp + 3))|destruct (Z.ltb_spec 2 (mp - 9))]; lia).
    unfold z in Hz. unfold year_start in Hdoe'. lia.
  - replace (yoe + era * 400 + b) with (yoe + b + era * 400) by lia. rewrite daysIn_period. destruct (Z.eqb_spec doy 365) as [Hd|Hd]; bool_to_prop.
    + assert (month_of mp = 2) as Hm2 by lia. unfold b. rewrite Hm2. change (2 <=? 2) with true. cbn iota. unfold daysIn. cbn [Z.eqb Pos.eqb]. rewrite Hleap by done. lia.
    + clearbody b. revert H0. unfold daysIn. destruct (Z.eqb_spec (month_of mp) 2); [clear; destruct (leap _); lia|done].
Qed.

(** Padded numbers and fractions are read back. *)
Lemma read_digits_app s t n acc v : String.length s = n → digits_val acc s = Some v → read_digits n acc (s +++ t) = Some (v, t).
Proof.
  revert n acc. induction s as [|c s IH]; intros n acc <-; cbn [String.length digits_val]; [by intros [= ->]|].
  rewrite append_cons. cbn [read_digits]. destruct (digit_val c) as [d|]; [|done]. cbn. by apply IH.
Qed.
Lemma read_number_pad w lo hi v t : (1 ≤ w)%nat → 0 ≤ v < 10 ^ Z.of_nat w → lo ≤ v ≤ hi → read_number w lo hi (pad_dec w v +++ t) = Some (v, t).
Proof.
  intros Hw Hv Hr. unfold read_number. rewrite (read_digits_app _ _ w 0 v); [|by apply pad_dec_length|apply digits_val_pad_dec; lia]. cbn.
  by rewrite (proj2 (Z.leb_le lo v)), (proj2 (Z.leb_le v hi)) by lia.
Qed.
Lemma read_fraction_zone n acc : read_fraction n acc "Z" = (acc, "Z").
Proof. done. Qed.
Lemma read_fraction_trim s n acc a v : String.length s = n → digits_val a s = Some v →
  read_fraction n acc (trim_zeros s +++ "Z") = (acc + (v - a * 10 ^ Z.of_nat n), "Z").
Proof.
  revert n acc a. induction s as [|c s IH]; intros n acc a <-; cbn [String.length digits_val trim_zeros].
  { intros [= ->]. rewrite Z.mul_1_r, Z.sub_diag, Z.add_0_r. done. }
  destruct (digit_val c) as [d|] eqn:Hd; [|done]. cbn [mbind option_bind]. intros Hv.
  specialize (IH _ (acc + d * 10 ^ Z.of_nat (String.length s)) _ eq_refl Hv). rewrite Nat2Z.inj_succ, Z.pow_succ_r by lia.
  destruct (bool_decide_reflect (c = "0"%char)) as [->|Hc]; cbn [andb].
  - destruct (bool_decide_reflect (trim_zeros s = "")) as [Ht|Ht].
    + rewrite Ht in IH. rewrite append_nil_l in IH |- *. rewrite read_fraction_zone in IH |- *. vm_compute in Hd. injection Hd as <-. injection IH as IH. f_equal. lia.
    + rewrite append_cons. cbn [read_fraction]. rewrite Hd, IH. f_equal. lia.
  - rewrite append_cons. cbn [read_fraction]. rewrite Hd, IH. f_equal. lia.
Qed.
Lemma trim_zeros_head s v : digits_val 0 s = Some v → v ≠ 0 → ∃ c rest, trim_zeros s = String c rest ∧ is_Some (digit_val c).
Proof.
  assert (∀ s, trim_zeros s = "" → ∀ v, digits_val 0 s = Some v → v = 0) as Hz.
  { clear. induction s as [|c s IH]; cbn; [by intros _ v [= <-]|]. destruct (bool_decide_reflect (c = "0"%char)) as [->|]; [|done].
    destruct (bool_decide_reflect (trim_zeros s = "")); [|done]. cbn. eauto. }
  intros Hv Hne. destruct s as [|c s]; [injection Hv as <-; done|]. destruct (trim_zeros (String c s)) as [|c' rest] eqn:Ht; [by destruct (Hne (Hz _ Ht _ Hv))|].
  exists c', rest. split; [done|]. cbn in Ht, Hv. destruct (_ && _); [done|]. injection Ht as -> _. by destruct (digit_val c').
Qed.
Lemma read_nanos_fraction ns : 0 ≤ ns < nanoseconds → read_nanos (fraction ns +++ "Z") = (ns, "Z").
Proof.
  intros Hns. unfold fraction. destruct (Z.eqb_spec ns 0) as [->|Hne]; [done|].
  assert (digits_val 0 (pad_dec 9 ns) = Some ns) as Hv by (apply digits_val_pad_dec; lia).
  destruct (trim_zeros_head _ _ Hv Hne) as (c & rest & Ht & Hc). rewrite append_assoc, append_cons, append_nil_l. unfold read_nanos. rewrite Ht, append_cons.
  rewrite bool_decide_true by done. rewrite <-append_cons, <-Ht, (read_fraction_trim _ 9 0 0 ns); [f_equal; lia| |done].
  apply pad_dec_length; [lia|]. unfold nanoseconds in Hns. lia.
Qed.

Lemma StripPrefix_byte c s : StripPrefix (String c "") (String c "" +++ s) = Some s.
Proof. rewrite append_cons, append_nil_l. cbn. by rewrite decide_True. Qed.

(** Every instant of the years 0 to 9999 is read back from its text. *)
Lemma Parse_Format t : four_digit_year t → Parse (Format t) = Some t.
Proof.
  unfold four_digit_year, Format. set (sec := t / nanoseconds). destruct (civil (sec / 86400)) as [[y m] d] eqn:Hc. intros Hy.
  apply days_civil in Hc as (Hday & Hm & Hd). set (s := sec mod 86400). assert (0 ≤ s < 86400) as Hs by (apply Z.mod_pos_bound; lia).
  assert (0 ≤ t mod nanoseconds < nanoseconds) as Hns by (apply Z.mod_pos_bound; done).
  assert (d ≤ 31) by (unfold daysIn in Hd; repeat case_match; lia).
  assert (0 ≤ s / 3600 ≤ 23 ∧ 0 ≤ s mod 3600 / 60 ≤ 59 ∧ 0 ≤ s mod 60 ≤ 59) as (Hh & Hmi & Hse) by (clearbody s; clear -Hs; Z.to_euclidean_division_equations; lia).
  unfold Parse.
  rewrite read_number_pad by lia. cbn [mbind option_bind]. rewrite StripPrefix_byte. cbn [mbind option_bind].
  rewrite read_number_pad by lia. cbn [mbind option_bind]. rewrite StripPrefix_byte. cbn [mbind option_bind].
  rewrite read_number_pad by lia. cbn [mbind option_bind]. rewrite StripPrefix_byte. cbn [mbind option_bind].
  rewrite read_number_pad by lia. cbn [mbind option_bind]. rewrite StripPrefix_byte. cbn [mbind option_bind].
  rewrite read_number_pad by lia. cbn [mbind option_bind]. rewrite StripPrefix_byte. cbn [mbind option_bind].
  rewrite read_number_pad by lia. cbn [mbind option_bind]. rewrite read_nanos_fraction by done. change (read_zone "Z") with (Some 0). cbn [mbind option_bind].
  f_equal. rewrite Hday.
  assert (s mod 60 = (s mod 3600) mod 60) as -> by (symmetry; apply Z.mod_mod_divide; by exists 60).
  assert (sec / 86400 * 86400 + s / 3600 * 3600 + s mod 3600 / 60 * 60 + (s mod 3600) mod 60 = sec) as ->.
  { pose proof (Z.div_mod sec 86400 ltac:(lia)) as H1. pose proof (Z.div_mod s 3600 ltac:(lia)) as H2. pose proof (Z.div_mod (s mod 3600) 60 ltac:(lia)) as H3.
    fold s in H1. clearbody s. clear -H1 H2 H3. lia. }
  pose proof (Z.div_mod t nanoseconds ltac:(done)) as H1. fold sec in H1. clearbody sec. clear -H1. unfold nanoseconds in *. lia.
Qed.
Lemma append_later a b : b ≠ "" → a +++ b ≠ "".
Proof. by destruct a. Qed.
Lemma Format_nonempty t : Format t ≠ "".
Proof. unfold Format. destruct (civil _) as [[y m] d]. by apply append_later. Qed.
#[global] Arguments Format : simpl never.
#[global] Arguments Parse : simpl never.
