(* ===== verification/Sql.v ===== *)
(** Package database/sql: the statements of a transaction on a state of tables,
    any of which can fail, and how a transaction ends. *)
From S2P Require Import Prelude GoLib.
From stdpp Require Import options.
Local Open Scope Z_scope.

(** * Statements *)

(** Statements run on the tables [T] one after another; any of them may fail,
    which ends the function. The list says which of the next statements do. *)
Definition tx (T A : Type) : Type := list bool * T → result (A * (list bool * T)).
Definition tx_ret {T A} (a : A) : tx T A := λ s, Ok (a, s).
#[global] Instance tx_mret T : MRet (tx T) := @tx_ret T.
#[global] Instance tx_mbind T : MBind (tx T) := λ A B f m s, match m s with Ok (a, s') => f a s' | Err e => Err e end.
Definition err_sql : error := errors_New "sql: statement failed".
Definition fail {T A} (e : error) : tx T A := λ _, Err e.

(** A statement that can also be refused by a constraint of the tables. *)
Definition attempt {T A} (f : T → result (A * T)) : tx T A := λ s,
  match s.1 with
  | true :: _ => Err err_sql
  | fs => match f s.2 with Ok (a, t) => Ok (a, (tail fs, t)) | Err e => Err e end
  end.
Definition statement {T A} (f : T → A * T) : tx T A := attempt (λ t, Ok (f t)).
Definition query {T A} (f : T → A) : tx T A := statement (λ t, (f t, t)).
Definition exec {T} (f : T → T) : tx T () := statement (λ t, ((), f t)).
(** A query for one row: [none] is the answer to sql.ErrNoRows. *)
Definition query_row {T A} (none : error) (f : T → option A) : tx T A :=
  row ← query f; match row with Some a => mret a | None => fail none end.
Definition fail_when {T} (b : bool) (e : error) : tx T () := if b then fail e else mret ().
Definition lift {T A} (r : result A) : tx T A := match r with Ok a => mret a | Err e => fail e end.
(** A statement whose error is ignored. *)
Definition ignoring {T} (m : tx T ()) : tx T () := λ s, match m s with Ok r => Ok r | Err _ => Ok ((), (tail s.1, s.2)) end.
(** A query whose error is ignored, with what the variable held before. *)
Definition query_or {T A} (a : A) (f : T → A) : tx T A := λ s, match query f s with Ok r => Ok r | Err _ => Ok (a, (tail s.1, s.2)) end.
(** Statements on a part of the tables. *)
Definition zoom {T S A} (get : T → S) (set : S → T → T) (m : tx S A) : tx T A := λ s,
  match m (s.1, get s.2) with Ok (a, (fs, t)) => Ok (a, (fs, set t s.2)) | Err e => Err e end.

(** * Ends *)

(** A transaction function returns after a commit, or without one, which rolls
    it back, as does any error. What Go returns beside an error is dropped. *)
Inductive ending (A : Type) := commit (r : result A) | rollback (r : result A).
Arguments commit {A} r.
Arguments rollback {A} r.
Definition transact {T A} (m : tx T (ending A)) (faults : list bool) (t : T) : result A * T :=
  match m (faults, t) with
  | Err e => (Err e, t)
  | Ok (rollback r, _) => (r, t)
  | Ok (commit r, (true :: _, _)) => (Err err_sql, t)
  | Ok (commit r, (_, t')) => (r, t')
  end.
(** The usual end. *)
Definition transaction {T A} (m : tx T A) : list bool → T → result A * T := transact (a ← m; mret (commit (Ok a))).
(** A function that is no transaction: each statement takes effect at once. *)
Definition single {T A} (m : tx T A) (faults : list bool) (t : T) : result A * T :=
  match m (faults, t) with Ok (a, (_, t')) => (Ok a, t') | Err e => (Err e, t) end.

(** * Facts *)

Section Facts.
Context {T : Type}.
Implicit Types (t : T) (fs : list bool).

Lemma attempt_inv {A} (f : T → result (A * T)) fs t a fs' t' : attempt f (fs, t) = Ok (a, (fs', t')) → f t = Ok (a, t').
Proof. unfold attempt. cbn. destruct fs as [|[] fs]; [|done|]; destruct (f t) as [[? ?]|]; intros [= -> _ ->]; done. Qed.
Lemma statement_inv {A} (f : T → A * T) fs t a fs' t' : statement f (fs, t) = Ok (a, (fs', t')) → f t = (a, t').
Proof. unfold statement. intros [= H]%attempt_inv. done. Qed.
Lemma tx_bind_inv {A B} (m : tx T A) (f : A → tx T B) fs t b fs' t' : (m ≫= f) (fs, t) = Ok (b, (fs', t')) →
  ∃ a fs1 t1, m (fs, t) = Ok (a, (fs1, t1)) ∧ f a (fs1, t1) = Ok (b, (fs', t')).
Proof. unfold mbind, tx_mbind. destruct (m (fs, t)) as [[a [fs1 t1]]|] eqn:Hm; [|done]. eauto. Qed.
Lemma query_inv {A} (f : T → A) fs t a fs' t' : query f (fs, t) = Ok (a, (fs', t')) → a = f t ∧ t' = t.
Proof. intros [= -> ->]%statement_inv. done. Qed.
Lemma exec_inv (f : T → T) fs t a fs' t' : exec f (fs, t) = Ok (a, (fs', t')) → t' = f t.
Proof. by intros [= _ ->]%statement_inv. Qed.
Lemma query_row_inv {A} e (f : T → option A) fs t a fs' t' : query_row e f (fs, t) = Ok (a, (fs', t')) → f t = Some a ∧ t' = t.
Proof. intros (row & ? & ? & [-> ->]%query_inv & H)%tx_bind_inv. destruct (f t); [|done]. injection H as -> _ ->. done. Qed.
Lemma fail_when_inv b e fs t a fs' t' : fail_when b e (fs, t) = Ok (a, (fs', t')) → b = false ∧ t' = t.
Proof. unfold fail_when. destruct b; [done|]. by intros [= _ _ ->]. Qed.
Lemma lift_inv {A} (r : result A) fs t a fs' t' : lift r (fs, t) = Ok (a, (fs', t')) → r = Ok a ∧ t' = t.
Proof. unfold lift. destruct r; [|done]. by intros [= -> _ ->]. Qed.
Lemma ret_inv {A} (x : A) fs t a fs' t' : (mret x : tx T A) (fs, t) = Ok (a, (fs', t')) → a = x ∧ t' = t.
Proof. by intros [= -> _ ->]. Qed.
Lemma ignoring_inv (m : tx T ()) fs t a fs' t' : ignoring m (fs, t) = Ok (a, (fs', t')) → t' = t ∨ ∃ fs2, m (fs, t) = Ok ((), (fs2, t')).
Proof. unfold ignoring. destruct (m (fs, t)) as [[[] [? ?]]|]; intros [= _ _ ->]; eauto. Qed.
Lemma query_or_inv {A} x (f : T → A) fs t a fs' t' : query_or x f (fs, t) = Ok (a, (fs', t')) → (a = f t ∨ a = x) ∧ t' = t.
Proof. unfold query_or. destruct (query f (fs, t)) as [[b [? ?]]|] eqn:H; [apply query_inv in H as [-> ->]|]; intros [= <- _ <-]; auto. Qed.
Lemma zoom_inv {S A} (get : T → S) set (m : tx S A) fs t a fs' t' : zoom get set m (fs, t) = Ok (a, (fs', t')) →
  ∃ s', m (fs, get t) = Ok (a, (fs', s')) ∧ t' = set s' t.
Proof. unfold zoom. cbn. destruct (m (fs, get t)) as [[? [? s']]|]; [|done]. intros [= -> -> <-]. eauto. Qed.

(** A transaction leaves the tables as they are, or ends as its function did. *)
Lemma transact_cases {A} (m : tx T (ending A)) faults t : (transact m faults t).2 = t ∨
  ∃ r fs t', m (faults, t) = Ok (commit r, (fs, t')) ∧ transact m faults t = (r, t').
Proof.
  unfold transact. destruct (m (faults, t)) as [[[r|r] [fs t']]|e] eqn:Hm; [|by left..]. destruct fs as [|[] fs]; [right|by left|right]; eauto.
Qed.
Lemma transaction_cases {A} (m : tx T A) faults t : (transaction m faults t).2 = t ∨
  ∃ a fs t', m (faults, t) = Ok (a, (fs, t')) ∧ transaction m faults t = (Ok a, t').
Proof.
  unfold transaction. destruct (transact_cases (a ← m; mret (commit (Ok a))) faults t) as [->|(r & fs & t' & H & Ht)]; [by left|].
  apply tx_bind_inv in H as (a & fs1 & t1 & Hm & [= <- -> ->]). right. eauto.
Qed.
Lemma single_cases {A} (m : tx T A) faults t : (single m faults t).2 = t ∨
  ∃ a fs t', m (faults, t) = Ok (a, (fs, t')) ∧ single m faults t = (Ok a, t').
Proof. unfold single. destruct (m (faults, t)) as [[a [fs t']]|e] eqn:Hm; [right; eauto|by left]. Qed.
Lemma transact_ok {A} (m : tx T (ending A)) faults t a : (transact m faults t).1 = Ok a →
  ∃ x fs t', m (faults, t) = Ok (x, (fs, t')) ∧ (x = commit (Ok a) ∧ (transact m faults t).2 = t' ∨ x = rollback (Ok a)).
Proof.
  unfold transact. destruct (m (faults, t)) as [[[r|r] [fs t']]|e] eqn:Hm; [|cbn; intros ->; eauto 10..|done].
  destruct fs as [|[] fs]; cbn; [intros ->; eauto 10|done|intros ->; eauto 10].
Qed.
Lemma transaction_ok {A} (m : tx T A) faults t a : (transaction m faults t).1 = Ok a →
  ∃ fs t', m (faults, t) = Ok (a, (fs, t')) ∧ (transaction m faults t).2 = t'.
Proof.
  intros (x & fs & t' & H & Hx)%transact_ok. apply tx_bind_inv in H as (b & fs1 & t1 & Hm & [= <- <- <-]).
  destruct Hx as [[[= <-] Ht]|[=]]. eauto.
Qed.
Lemma transact_eq {A} (m : tx T (ending A)) faults t a t' : transact m faults t = (Ok a, t') →
  ∃ x fs t1, m (faults, t) = Ok (x, (fs, t1)) ∧ (x = commit (Ok a) ∧ t1 = t' ∨ x = rollback (Ok a) ∧ t' = t).
Proof.
  unfold transact. destruct (m (faults, t)) as [[[r|r] [fs t1]]|e] eqn:Hm; [|intros [= -> ->]; eauto 10|done].
  destruct fs as [|[] fs]; [|done|]; intros [= -> ->]; eauto 10.
Qed.
(** An error comes with the tables as they were, unless the function ends with it. *)
Definition ends_ok {A} (m : tx T (ending A)) : Prop := ∀ s e s', m s ≠ Ok (commit (Err e), s').
Lemma transact_err {A} (m : tx T (ending A)) faults t e t' : transact m faults t = (Err e, t') → ends_ok m → t' = t.
Proof.
  unfold transact. intros H Hm. destruct (m (faults, t)) as [[[r|r] [fs t1]]|e1] eqn:Hr; [|by simplify_eq..]. destruct fs as [|[] fs]; [|by simplify_eq|]; simplify_eq; by apply Hm in Hr.
Qed.
Lemma transaction_eq {A} (m : tx T A) faults t a t' : transaction m faults t = (Ok a, t') → ∃ fs, m (faults, t) = Ok (a, (fs, t')).
Proof. intros (x & fs & t1 & H & Hx)%transact_eq. apply tx_bind_inv in H as (b & fs1 & t2 & Hm & [= <- <- <-]). destruct Hx as [[[= <-] <-]|[[=] _]]. eauto. Qed.
Lemma transaction_result {A} (m : tx T A) faults t : (∃ e, transaction m faults t = (Err e, t)) ∨ ∃ a t', transaction m faults t = (Ok a, t').
Proof.
  unfold transaction, transact, mbind, tx_mbind. destruct (m (faults, t)) as [[a [fs t1]]|e]; [|by eauto].
  cbn. destruct fs as [|[] fs]; eauto.
Qed.
Lemma single_eq {A} (m : tx T A) faults t a t' : single m faults t = (Ok a, t') → ∃ fs, m (faults, t) = Ok (a, (fs, t')).
Proof. unfold single. destruct (m (faults, t)) as [[b [fs t1]]|]; [|done]. intros [= -> ->]. eauto. Qed.
End Facts.

(** Goes through the statements of a function that succeeded. *)
Ltac sql_step :=
  match goal with
  | H : (_ ≫= _) (_, _) = Ok _ |- _ => apply tx_bind_inv in H as (? & ? & ? & ? & ?)
  | H : query _ (_, _) = Ok _ |- _ => apply query_inv in H as [-> ->]
  | H : exec _ (_, _) = Ok _ |- _ => apply exec_inv in H as ->
  | H : query_row _ _ (_, _) = Ok _ |- _ => apply query_row_inv in H as [? ->]
  | H : fail_when _ _ (_, _) = Ok _ |- _ => apply fail_when_inv in H as [? ->]
  | H : lift _ (_, _) = Ok _ |- _ => apply lift_inv in H as [? ->]
  | H : fail _ (_, _) = Ok _ |- _ => discriminate H
  | H : mret _ (_, _) = Ok _ |- _ => apply ret_inv in H as [? ?]; subst
  | H : statement _ (_, _) = Ok _ |- _ => apply statement_inv in H; injection H as ? ?; subst
  | H : attempt _ (_, _) = Ok _ |- _ => apply attempt_inv in H
  | H : query_or _ _ (_, _) = Ok _ |- _ => apply query_or_inv in H as [? ->]
  | H : zoom _ _ _ (_, _) = Ok _ |- _ => apply zoom_inv in H as (? & ? & ->)
  | H : context [let '(_, _) := ?p in _] |- _ => match type of H with _ (_, _) = Ok _ => destruct p end
  end.
Ltac sql_inv := repeat sql_step.
(** The same, splitting the cases the function distinguishes. *)
Ltac sql_run := repeat first [sql_step | match goal with H : (match ?x with _ => _ end) (_, _) = Ok _ |- _ => destruct x eqn:? end].
