(* ===== verification/AuditChain.v ===== *)
(** The audit trail of the Control Tower (control/internal/store/audit_chain.go and
    audit_detail.go): events in a table of the SQL database, from some moment on
    each chained to the one before it by a SHA-256 hash. The tables and the
    statements the code runs on them are modelled; [julianday] of SQLite is a
    parameter. *)
From S2P Require Import Prelude GoLib Base64 Json Entities SignedAuth Sql.
From stdpp Require Import options.
From Stdlib Require Import QArith.
Local Open Scope Z_scope.

(** The date function of SQLite: none for a text that is no date. *)
Class Sqlite := { julianday : string → option Q }.

Module audit.

Record auditRecord := mkAuditRecord {
  actorID : string; actorType : string; action : string; resource : string; result_ : string; correlationID : string; createdAt : string;
  policyIDs : string; evaluatedPath : string; capability : string; sourceIP : string; detail : string;
}.
#[global] Instance auditRecord_eta : Eta auditRecord := λ r,
  mkAuditRecord (actorID r) (actorType r) (action r) (resource r) (result_ r) (correlationID r) (createdAt r) (policyIDs r) (evaluatedPath r)
    (capability r) (sourceIP r) (detail r).
#[global] Instance auditRecord_eq_dec : EqDecision auditRecord.
Proof. solve_decision. Defined.

(** A row of audit_events. *)
Record event := mkEvent { event_id : Z; event_record : auditRecord; chain_data : string; chain_hash : string }.
#[global] Instance event_eta : Eta event := λ e, mkEvent (event_id e) (event_record e) (chain_data e) (chain_hash e).
Record AuditCheckpoint := mkCheckpoint { EventID : Z; EventHash : string; CreatedAt : string; Reason : string }.

(** The tables; [autoincrement] is the largest identifier audit_events ever had,
    and [chain_state] the single row of audit_chain_state, if it is there. *)
Record tables := mkTables {
  audit_events : list event;
  autoincrement : Z;
  chain_state : option (Z * string);
  checkpoints : list AuditCheckpoint;
}.
#[global] Instance tables_eta : Eta tables := λ t, mkTables (audit_events t) (autoincrement t) (chain_state t) (checkpoints t).

Definition max_id (l : list event) : Z := foldr Z.max 0 (event_id <$> l).
Definition zero_hash : string := of_bytes (replicate 64 "0"%char).

(** [EnableAuditChain]; [now] is the text of the current time. *)
Definition EnableAuditChain (now : string) : tx tables () :=
  exists_ ← query (λ t, bool_decide (is_Some (chain_state t)));
  if exists_ : bool then mret () else
  lastID ← query (λ t, max_id (audit_events t));
  exec (λ t, t <| chain_state := Some (lastID, zero_hash) |>) ≫= λ _,
  exec (λ t, t <| checkpoints := checkpoints t ++ [mkCheckpoint lastID zero_hash now "activation"] |>).

(** ** Appending *)

Definition chain_fields (previous : string) (id : Z) (r : auditRecord) : list string :=
  ["jolt-audit-v1"; previous; json_int id; actorID r; actorType r; action r; resource r; result_ r; correlationID r; createdAt r; policyIDs r;
   evaluatedPath r; capability r; sourceIP r; detail r].
(** The JSON array of the fields that is hashed; a text that is not UTF-8 is in it
    with U+FFFD for each byte that is not, while the row keeps the bytes. *)
Definition chain_payload (previous : string) (id : Z) (r : auditRecord) : string := json_list json_string (chain_fields previous id r).

Section Chain.
Context {C : Crypto} {Q_ : Sqlite}.

Definition chain_digest (payload : string) : string := hex_EncodeToString (sha256_Sum payload).

Definition with_defaults (r : auditRecord) (now : string) : auditRecord :=
  let r := if createdAt r =s "" then r <| createdAt := now |> else r in
  let r := if policyIDs r =s "" then r <| policyIDs := "[]" |> else r in
  if detail r =s "" then r <| detail := "{}" |> else r.
Definition set_chain (id : Z) (payload hash : string) (e : event) : event :=
  if event_id e =? id then e <| chain_data := payload |> <| chain_hash := hash |> else e.
Definition appendAuditTx (r : auditRecord) (now : string) : tx tables () :=
  let r := with_defaults r now in
  id ← statement (λ t, let id := autoincrement t + 1 in
         (id, t <| audit_events := audit_events t ++ [mkEvent id r "" ""] |> <| autoincrement := id |>));
  state ← query chain_state;
  match state with
  | None => mret ()
  | Some (_, previous) =>
    let payload := chain_payload previous id r in
    let hash := chain_digest payload in
    exec (λ t, t <| audit_events := set_chain id payload hash <$> audit_events t |>) ≫= λ _,
    exec (λ t, t <| chain_state := Some (id, hash) |>)
  end.
Definition appendAudit (r : auditRecord) (now : string) (faults : list bool) (t : tables) : result () * tables :=
  transaction (appendAuditTx r now) faults t.

(** * audit_detail.go *)

(** The rows a purge keeps: no date, or one that is not before the cutoff. *)
Definition retained (cutoff : string) (e : event) : bool :=
  match julianday (createdAt (event_record e)), julianday cutoff with
  | None, _ => true
  | Some d, Some c => Qle_bool c d
  | Some _, None => false
  end.
Definition boundary_of (cutoff : string) (l : list event) : Z :=
  match filter (λ e, retained cutoff e = true) l with
  | [] => max_id l + 1
  | e :: l' => foldr Z.min (event_id e) (event_id <$> l')
  end.
(** The last chained event before the boundary. *)
Definition last_chained (boundary : Z) (l : list event) : option (Z * string) :=
  last ((λ e, (event_id e, chain_hash e)) <$> filter (λ e, event_id e < boundary ∧ chain_hash e ≠ "") l).
Definition PurgeAuditBefore (cutoff now : string) : tx tables Z :=
  boundary ← query (λ t, boundary_of cutoff (audit_events t));
  found ← query (λ t, last_chained boundary (audit_events t));
  match found with
  | Some (lastID, lastHash) => exec (λ t, t <| checkpoints := checkpoints t ++ [mkCheckpoint lastID lastHash now "retention"] |>)
  | None => mret ()
  end ≫= λ _,
  statement (λ t,
    (Z.of_nat (length (filter (λ e, event_id e < boundary) (audit_events t))),
     t <| audit_events := filter (λ e, boundary <= event_id e) (audit_events t) |>)).

Definition latest_checkpoint (t : tables) : option AuditCheckpoint := last (checkpoints t).

(** ** The calls, in any order and with any statements failing *)

Inductive call :=
| Enable (now : string)
| Append (r : auditRecord) (now : string)
| Purge (cutoff now : string).
Definition run (c : call) (faults : list bool) (t : tables) : tables :=
  match c with
  | Enable now => (transaction (EnableAuditChain now) faults t).2
  | Append r now => (appendAudit r now faults t).2
  | Purge cutoff now => (transaction (PurgeAuditBefore cutoff now) faults t).2
  end.

(** * What a chain is *)

(** An event as [appendAuditTx] leaves it after the hash [previous]: it carries the
    payload of its own fields and of that hash, the digest of the payload, and an
    identifier after the one before. *)
Definition chains (after : Z) (previous : string) (e : event) : bool :=
  (chain_data e =s chain_payload previous (event_id e) (event_record e)) && (chain_hash e =s chain_digest (chain_data e)) && (after <? event_id e).
(** Where a list of events leads to from an identifier and a hash, if each of them
    chains to the one before. *)
Fixpoint follow_chain (after : Z) (previous : string) (l : list event) : option (Z * string) :=
  match l with
  | [] => Some (after, previous)
  | e :: l => if chains after previous e then follow_chain (event_id e) (chain_hash e) l else None
  end.

End Chain.
End audit.
