(* ===== verification/AuditChainFacts.v ===== *)
(** Correctness of the audit chain: whatever is appended, purged and fails, the
    events after the last checkpoint chain from it, and events that were altered
    do not chain to the same hash, short of a collision of SHA-256. *)
From S2P Require Import Prelude GoLib Base64 Json JsonFacts JsonStrings JsonPrint Entities SignedAuth SignedRoundtrip Sql AuditChain.
From stdpp Require Import options.
#[local] Set Default Proof Using "Type*".
Import audit.
Local Open Scope Z_scope.

Section Facts.
Context {C : Crypto} {CO : CryptoOk C} {Q_ : Sqlite}.
Implicit Types (t : tables) (e : event) (l : list event).

(** * Chains *)

Lemma follow_chain_app after previous l l' :
  follow_chain after previous (l ++ l') = match follow_chain after previous l with Some (a, p) => follow_chain a p l' | None => None end.
Proof.
  revert after previous. induction l as [|e l IH]; intros after previous; cbn [app follow_chain]; [done|].
  destruct (chains after previous e); [apply IH|done].
Qed.
Lemma chains_inv after previous e : chains after previous e = true →
  chain_data e = chain_payload previous (event_id e) (event_record e) ∧ chain_hash e = chain_digest (chain_data e) ∧ after < event_id e.
Proof. unfold chains. intros H. bool_to_prop. by split_and!. Qed.

Lemma json_int_inj x y : json_int x = json_int y → x = y.
Proof.
  assert (∀ n m, dec n = dec m → n = m) as Hdec.
  { intros n m Hn. pose proof (digits_val_dec n) as H1. rewrite Hn, digits_val_dec in H1. by simplify_eq. }
  assert (∀ n m s, "-" +++ dec n = dec m +++ s → False) as Hsign.
  { intros n m s. destruct (dec_head m) as (c & r & Hm & _). pose proof (dec_all_digits m c) as Hc. rewrite Hm in *. specialize (Hc ltac:(left)). intros [= <- _]. done. }
  unfold json_int. destruct (x <? 0) eqn:Hx, (y <? 0) eqn:Hy; intros H.
  - injection H as H%Hdec. lia.
  - exfalso. eapply (Hsign _ _ ""). rewrite append_nil_r. exact H.
  - exfalso. eapply (Hsign _ _ ""). rewrite append_nil_r. symmetry. exact H.
  - apply Hdec in H. lia.
Qed.
Lemma chain_fields_inj p p' i i' r r' : chain_fields p i r = chain_fields p' i' r' → p = p' ∧ i = i' ∧ r = r'.
Proof. unfold chain_fields. destruct r, r'. cbn. intros [= -> ?%json_int_inj]; subst; naive_solver. Qed.

(** The texts of a record, in the order of the payload. *)
Definition record_texts (r : auditRecord) : list string :=
  [actorID r; actorType r; action r; resource r; result_ r; correlationID r; createdAt r; policyIDs r; evaluatedPath r; capability r; sourceIP r; detail r].

Lemma hex_ascii s c : c ∈ bytes (hex_EncodeToString s) → byte_val c < 128.
Proof.
  induction s as [|x s IH]; cbn; [by intros ?%elem_of_nil|]. rewrite !elem_of_cons.
  assert (∀ v, 0 ≤ v < 16 → byte_val (hex_digit v) < 128) as Hv.
  { intros v Hv. assert (forallb (λ i, byte_val (hex_digit (Z.of_nat i)) <? 128) (seq 0 16) = true) as Hall by (vm_compute; reflexivity).
    rewrite forallb_elem in Hall. specialize (Hall (Z.to_nat v)). rewrite Z2Nat.id in Hall by lia. apply Z.ltb_lt, Hall, elem_of_seq. lia. }
  pose proof (byte_val_range x). intros [->|[->|?]]; [apply Hv..|by apply IH].
  - rewrite Z.shiftr_div_pow2 by lia. lia.
  - change 15 with (Z.ones 4). rewrite Z.land_ones by lia. apply Z.mod_pos_bound. lia.
Qed.
Lemma digest_text payload : utf8 (chain_digest payload).
Proof. apply ascii_valid. apply hex_ascii. Qed.
Lemma digest_nonempty payload : chain_digest payload ≠ "".
Proof.
  unfold chain_digest. pose proof (sha256_size payload) as Hs. destruct (sha256_Sum payload); [done|]. done.
Qed.
Lemma json_int_text z : utf8 (json_int z).
Proof.
  apply ascii_valid. intros c Hc. assert (∀ n, c ∈ bytes (dec n) → byte_val c < 128) as Hd.
  { intros n Hn%dec_all_digits. unfold in_range in Hn. bool_to_prop. lia. }
  unfold json_int in Hc. destruct (z <? 0); [|by eapply Hd]. cbn in Hc. apply elem_of_cons in Hc as [->|Hc]; [done|by eapply Hd].
Qed.
Lemma chain_payload_inj p p' i i' r r' : utf8 p → utf8 p' → Forall utf8 (record_texts r) → Forall utf8 (record_texts r') →
  chain_payload p i r = chain_payload p' i' r' → p = p' ∧ i = i' ∧ r = r'.
Proof.
  assert (∀ p i r, utf8 p → Forall utf8 (record_texts r) → json_parse (chain_payload p i r) = Ok (JArray (JString <$> chain_fields p i r))) as Hparse.
  { intros q j x Hq Hx. assert (Forall utf8 (chain_fields q j x)) as Hf.
    { constructor; [done|]. constructor; [done|]. constructor; [apply json_int_text|exact Hx]. }
    unfold chain_payload. rewrite (json_list_map JString json_string) by done. apply json_parse_printed. constructor. apply Forall_fmap.
    eapply Forall_impl; [exact Hf|]. intros y Hy. by constructor. }
  intros Hp Hp' Hr Hr' Heq. pose proof (Hparse p i r Hp Hr) as H1. rewrite Heq, Hparse in H1 by done. apply chain_fields_inj. unfold chain_fields in *. cbn in H1. congruence.
Qed.
Lemma follow_hash_text a p l n h : utf8 p → follow_chain a p l = Some (n, h) → utf8 h.
Proof.
  revert a p. induction l as [|e l IH]; intros a p Hp; cbn; [by intros [= _ <-]|]. destruct (chains a p e) eqn:He; [|done].
  apply chains_inv in He as (_ & Hh & _). apply IH. rewrite Hh. apply digest_text.
Qed.
Definition texts_of l : Prop := Forall (λ e, Forall utf8 (record_texts (event_record e))) l.

(** C39. Altering the trail shows. Two lists of as many events, each chained the
    way events are appended, from any hash that is a text, that lead to the same
    hash are the same, event for event and field for field, and start from the same
    hash, unless two of their payloads are a collision of SHA-256. The texts of the
    events are valid UTF-8: a payload does not tell a byte that is not from U+FFFD. *)
Theorem audit_chain_tamper_evident after after' previous previous' l l' n n' h :
  texts_of l → texts_of l' → utf8 previous → utf8 previous' →
  length l = length l' → follow_chain after previous l = Some (n, h) → follow_chain after' previous' l' = Some (n', h) →
  (l = l' ∧ previous = previous') ∨
  ∃ e e', e ∈ l ∧ e' ∈ l' ∧ chain_data e ≠ chain_data e' ∧ sha256_Sum (chain_data e) = sha256_Sum (chain_data e').
Proof.
  intros Hl Hl' Hu Hu'. revert l' Hl' h n n'. induction l as [|e l IH] using rev_ind; intros l' Hl' h n n' Hlen.
  { destruct l'; [|done]. cbn. intros [= _ <-] [= _ <-]. by left. }
  destruct l' as [|e' l' _] using rev_ind; [rewrite length_app in Hlen; cbn in Hlen; lia|]. rewrite !length_app in Hlen. cbn in Hlen.
  apply Forall_app in Hl as [Hl [He0 _]%Forall_cons], Hl' as [Hl' [He0' _]%Forall_cons].
  rewrite !follow_chain_app. destruct (follow_chain after previous l) as [[a p]|] eqn:Hf; [|done]. destruct (follow_chain after' previous' l') as [[a' p']|] eqn:Hf'; [|done].
  cbn [follow_chain]. destruct (chains a p e) eqn:He; [|done]. destruct (chains a' p' e') eqn:He'; [|done]. intros [= <- <-] [= <- Hh].
  apply chains_inv in He as (Hd1 & Hhash & _), He' as (Hd1' & Hhash' & _). rewrite Hhash, Hhash' in Hh. apply hex_EncodeToString_inj in Hh.
  destruct (decide (chain_data e = chain_data e')) as [Hd|Hd]; [|right; exists e, e'; rewrite !elem_of_app, !list_elem_of_singleton; auto].
  rewrite Hd1, Hd1' in Hd. apply chain_payload_inj in Hd as (-> & Hi & Hr); [|exact (follow_hash_text _ _ _ _ _ Hu Hf)|exact (follow_hash_text _ _ _ _ _ Hu' Hf')|done..].
  destruct (IH Hl l' Hl' p' a a') as [[-> ->]|(x & x' & ? & ? & ?)]; [lia|done|done| |].
  - left. split; [|done]. do 2 f_equal. destruct e, e'; cbn in *. congruence.
  - right. exists x, x'. rewrite !elem_of_app. naive_solver.
Qed.

(** * The trail *)

(** The events of a trail after its last checkpoint chain from it to the state of
    the chain; the ones before it, which only the activation leaves there, carry no
    hash. The identifiers are consecutive, so nothing is missing in between. *)
Definition consecutive (ids : list Z) : Prop := ∀ i a b, ids !! i = Some a → ids !! S i = Some b → b = a + 1.
Definition chained_from t (cp : AuditCheckpoint) (state : Z * string) : Prop :=
  ∃ old new, audit_events t = old ++ new ∧ Forall (λ e, event_id e ≤ EventID cp ∧ chain_hash e = "") old ∧
    follow_chain (EventID cp) (EventHash cp) new = Some state ∧ consecutive (event_id <$> new).
Record trail t : Prop := {
  trail_ids : 0 ≤ autoincrement t ∧ Forall (λ e, event_id e ≤ autoincrement t) (audit_events t);
  trail_chain : match chain_state t with
    | None => checkpoints t = [] ∧ Forall (λ e, chain_hash e = "") (audit_events t)
    | Some state => state.1 ≤ autoincrement t ∧ (state.1 < autoincrement t → ∀ e, e ∈ audit_events t → chain_hash e = "") ∧
        ∃ cp, latest_checkpoint t = Some cp ∧ chained_from t cp state
    end;
}.

Lemma max_id_bound l n : 0 ≤ n → Forall (λ e, event_id e ≤ n) l → max_id l ≤ n ∧ Forall (λ e, event_id e ≤ max_id l) l.
Proof.
  intros Hn. unfold max_id. induction 1 as [|e l He _ [IH1 IH2]]; cbn; [split; [lia|constructor]|]. split; [lia|]. constructor; [lia|].
  eapply Forall_impl; [exact IH2|]. cbn. intros x Hx. unfold max_id in Hx. lia.
Qed.

Lemma enable_trail now fs t a fs' t' : trail t → EnableAuditChain now (fs, t) = Ok (a, (fs', t')) → trail t'.
Proof.
  intros [[Hids0 Hids] Hc] H. unfold EnableAuditChain in H. sql_inv.
  match goal with H : (if bool_decide _ then _ else _) _ = Ok _ |- _ => rename H into Hrun end. destruct (chain_state t) as [state|] eqn:Hs.
  { rewrite bool_decide_true in Hrun by done. sql_inv. split; [done|]. by rewrite Hs. }
  rewrite bool_decide_false in Hrun by (by intros []). sql_inv. destruct Hc as [Hcp Hold]. destruct (max_id_bound _ _ Hids0 Hids) as [Hm1 Hm2].
  split; cbn; [done|]. split_and!; [done|intros _ e He; rewrite Forall_forall in Hold; by apply Hold|].
  exists (mkCheckpoint (max_id (audit_events t)) zero_hash now "activation"). unfold latest_checkpoint. cbn. rewrite last_snoc. split; [done|].
  exists (audit_events t), []. cbn. rewrite app_nil_r. split_and!; [done| |done|intros i x y Hx; by rewrite lookup_nil in Hx].
  rewrite Forall_forall in *. intros e He. auto.
Qed.

(** ** Appending *)

Lemma set_chain_other id payload hash l : Forall (λ e, event_id e < id) l → set_chain id payload hash <$> l = l.
Proof. induction 1 as [|e l He _ IH]; csimpl; [done|]. unfold set_chain at 1. rewrite (proj2 (Z.eqb_neq _ _)) by lia. by rewrite IH. Qed.
Lemma follow_chain_last a p l st : follow_chain a p l = Some st → last ((λ e, (event_id e, chain_hash e)) <$> l) = if decide (l = []) then None else Some st.
Proof.
  destruct l as [|e l _] using rev_ind; [done|]. rewrite follow_chain_app. destruct (follow_chain a p l) as [[a' p']|]; [|done]. cbn. destruct (chains a' p' e); [|done].
  intros [= <-]. rewrite fmap_app, last_app. cbn. rewrite decide_False; [done|]. by intros []%app_eq_nil.
Qed.
Lemma follow_chain_hashes a p l st : follow_chain a p l = Some st → Forall (λ e, a < event_id e ∧ chain_hash e ≠ "") l.
Proof.
  revert a p. induction l as [|e l IH]; intros a p; cbn; [constructor|]. destruct (chains a p e) eqn:He; [|done]. apply chains_inv in He as (_ & Hh & Hlt).
  intros Hl%IH. constructor; [split; [done|rewrite Hh; apply digest_nonempty]|]. eapply Forall_impl; [exact Hl|]. cbn. intros x [? ?]. split; [lia|done].
Qed.
Lemma consecutive_snoc ids n : consecutive ids → (∀ a, last ids = Some a → n = a + 1) → consecutive (ids ++ [n]).
Proof.
  intros Hc Hl i a b. destruct (decide (S i < length ids)%nat) as [Hi|Hi].
  { rewrite !lookup_app_l by lia. apply Hc. }
  intros Ha Hb. pose proof (lookup_lt_Some _ _ _ Hb) as Hlt. rewrite length_app in Hlt. cbn in Hlt.
  assert (S i = length ids) as Hn by lia. rewrite lookup_app_l in Ha by lia. rewrite lookup_app_r, Hn, Nat.sub_diag in Hb by lia. injection Hb as <-.
  apply Hl. rewrite last_lookup, <-Hn. exact Ha.
Qed.

Lemma append_trail r now fs t a fs' t' : trail t → appendAuditTx r now (fs, t) = Ok (a, (fs', t')) → trail t'.
Proof.
  intros [[Hids0 Hids] Hc] H. unfold appendAuditTx in H. cbv zeta in H. set (r' := with_defaults r now) in *. sql_inv. cbn [chain_state] in *.
  set (id := autoincrement t + 1) in *. assert (Forall (λ e, event_id e ≤ id) (audit_events t ++ [mkEvent id r' "" ""])) as Hids'.
  { apply Forall_app. split; [|constructor; [cbn; lia|constructor]]. eapply Forall_impl; [exact Hids|]. cbn. intros. lia. }
  change (chain_state (t <| audit_events := _ |> <| autoincrement := _ |>)) with (chain_state t) in *. destruct (chain_state t) as [[last_id previous]|] eqn:Hs; sql_inv.
  - destruct Hc as (Hle & Hnew & cp & Hcp & old & new & Hev & Hold & Hv & Hcons). cbn [fst snd] in *. set (payload := chain_payload _ _ _). set (e := mkEvent id r' payload (chain_digest payload)).
    assert (set_chain id payload (chain_digest payload) <$> (audit_events t ++ [mkEvent id r' "" ""]) = audit_events t ++ [e]) as Hset.
    { rewrite fmap_app, set_chain_other; [|eapply Forall_impl; [exact Hids|]; cbn; intros; lia]. unfold set_chain, e. csimpl. by rewrite Z.eqb_refl. }
    split; cbn; rewrite Hset; [split; [lia|]|].
    { apply Forall_app. split; [eapply Forall_impl; [exact Hids|]; cbn; intros; lia|]. constructor; [cbn; lia|constructor]. }
    split_and!; [done|lia|]. exists cp. split; [exact Hcp|]. exists old, (new ++ [e]). cbn. split_and!; [by rewrite Hev, app_assoc|done| |].
    + rewrite follow_chain_app, Hv. cbn [follow_chain]. unfold chains, e. cbn [chain_data chain_hash event_id event_record].
      rewrite !bool_decide_true by done. by rewrite (proj2 (Z.ltb_lt _ _)) by lia.
    + rewrite fmap_app. cbn. apply consecutive_snoc; [done|]. intros z Hz. pose proof (follow_chain_last _ _ _ _ Hv) as Hl. pose proof (follow_chain_hashes _ _ _ _ Hv) as Hh.
      destruct new as [|e0 new0]; [done|]. rewrite decide_False in Hl by done.
      assert (z = last_id) as ->. { rewrite fmap_last in Hz. rewrite fmap_last in Hl. destruct (last (e0 :: new0)) as [e1|]; [|done]. injection Hz as <-. by injection Hl as -> _. }
      destruct (decide (last_id < autoincrement t)) as [Hlt|]; [|lia]. exfalso. apply Forall_cons in Hh as [[_ Hh] _]. apply Hh, (Hnew Hlt). rewrite Hev, elem_of_app. right. left.
  - destruct Hc as [Hcp Hold]. split; cbn; [split; [lia|done]|]. rewrite Hs. split; [done|]. apply Forall_app. split; [done|]. by constructor.
Qed.

(** ** Purging *)

Lemma split_chain b a p l st : follow_chain a p l = Some st → ∃ l1 l2, l = l1 ++ l2 ∧ Forall (λ e, event_id e < b) l1 ∧ Forall (λ e, b ≤ event_id e) l2.
Proof.
  revert a p. induction l as [|e l IH]; intros a p Hl; [by exists [], []|]. pose proof (follow_chain_hashes _ _ _ _ Hl) as Hh. cbn in Hl. destruct (chains a p e); [|done].
  destruct (decide (event_id e < b)) as [Hb|Hb].
  - destruct (IH _ _ Hl) as (l1 & l2 & -> & ? & ?). exists (e :: l1), l2. split_and!; [done|by constructor|done].
  - exists [], (e :: l). split_and!; [done|constructor|]. constructor; [lia|]. apply follow_chain_hashes in Hl. eapply Forall_impl; [exact Hl|]. cbn. intros x [? _]. lia.
Qed.
Lemma consecutive_suffix (l1 l2 : list Z) : consecutive (l1 ++ l2) → consecutive l2.
Proof.
  intros Hc i a b Ha Hb. apply (Hc (length l1 + i)%nat); rewrite lookup_app_r by lia; [by replace (length l1 + i - length l1)%nat with i by lia|].
  by replace (S (length l1 + i) - length l1)%nat with (S i) by lia.
Qed.
Lemma filter_all (P : event → Prop) `{!∀ e, Decision (P e)} l : Forall P l → filter P l = l.
Proof. induction 1 as [|e l He _ IH]; [done|]. rewrite filter_cons_True by done. by rewrite IH. Qed.
Lemma filter_none (P : event → Prop) `{!∀ e, Decision (P e)} l : Forall (λ e, ¬ P e) l → filter P l = [].
Proof. induction 1 as [|e l He _ IH]; [done|]. by rewrite filter_cons_False. Qed.

Lemma last_chained_split b old l1 l2 : Forall (λ e, chain_hash e = "") old → Forall (λ e, event_id e < b) l1 → Forall (λ e, chain_hash e ≠ "") l1 →
  Forall (λ e, b ≤ event_id e) l2 → last_chained b (old ++ l1 ++ l2) = last ((λ e, (event_id e, chain_hash e)) <$> l1).
Proof.
  intros Hold H1 Hh1 H2. unfold last_chained. rewrite !filter_app.
  rewrite (filter_none _ old), (filter_all _ l1), (filter_none _ l2), app_nil_r; [done|..].
  - eapply Forall_impl; [exact H2|]. cbn. intros e ? [? _]. lia.
  - apply Forall_and. by split.
  - eapply Forall_impl; [exact Hold|]. cbn. intros e -> [_ []]. done.
Qed.

(** What a purge leaves: a suffix of the chained events, after a checkpoint. *)
Lemma purge_chained t b old new cp state now : audit_events t = old ++ new → Forall (λ e, event_id e ≤ EventID cp ∧ chain_hash e = "") old →
  follow_chain (EventID cp) (EventHash cp) new = Some state → consecutive (event_id <$> new) → latest_checkpoint t = Some cp →
  let cps := match last_chained b (audit_events t) with Some (i, h) => checkpoints t ++ [mkCheckpoint i h now "retention"] | None => checkpoints t end in
  ∃ cp' old' new', last cps = Some cp' ∧ filter (λ e, b <= event_id e) (audit_events t) = old' ++ new' ∧
    Forall (λ e, event_id e ≤ EventID cp' ∧ chain_hash e = "") old' ∧ follow_chain (EventID cp') (EventHash cp') new' = Some state ∧ consecutive (event_id <$> new').
Proof.
  intros Hev Hold Hv Hcons Hcp. destruct (split_chain b _ _ _ _ Hv) as (l1 & l2 & -> & H1 & H2). pose proof (follow_chain_hashes _ _ _ _ Hv) as [Hh _]%Forall_app.
  rewrite Hev, last_chained_split; [|eapply Forall_impl; [exact Hold|]; naive_solver|done|eapply Forall_impl; [exact Hh|]; naive_solver|done]. cbv zeta.
  rewrite !filter_app, (filter_none _ l1), (filter_all _ l2) by (done || (eapply Forall_impl; [exact H1|]; cbn; intros; lia)). rewrite fmap_app in Hcons.
  rewrite follow_chain_app in Hv. destruct l1 as [|e l1 _] using rev_ind.
  - cbn. exists cp, (filter (λ e, b <= event_id e) old), l2. split_and!; [done|done| |done|done].
    apply Forall_forall. intros e [_ He]%list_elem_of_filter. rewrite Forall_forall in Hold. by apply Hold.
  - destruct (follow_chain (EventID cp) (EventHash cp) (l1 ++ [e])) as [[i h]|] eqn:Hl; [|done].
    pose proof (follow_chain_last _ _ _ _ Hl) as Hlast. rewrite decide_False in Hlast by (by intros []%app_eq_nil). rewrite Hlast, last_snoc.
    exists (mkCheckpoint i h now "retention"), [], l2. split_and!; [done| |constructor|done|by eapply consecutive_suffix].
    rewrite (filter_none _ old); [done|]. apply Forall_app in H1 as [_ [He _]%Forall_cons]. apply Forall_app in Hh as [_ [[Hhe _] _]%Forall_cons].
    eapply Forall_impl; [exact Hold|]. cbn. intros x [? _]. lia.
Qed.

Lemma purge_trail cutoff now fs t a fs' t' : trail t → PurgeAuditBefore cutoff now (fs, t) = Ok (a, (fs', t')) → trail t'.
Proof.
  intros [[Hids0 Hids] Hc] H. unfold PurgeAuditBefore in H. sql_inv. set (b := boundary_of cutoff (audit_events t)) in *.
  assert (∀ l : list event, Forall (λ e, event_id e ≤ autoincrement t) l → Forall (λ e, event_id e ≤ autoincrement t) (filter (λ e, b <= event_id e) l)) as Hfil.
  { intros l Hl. apply Forall_forall. intros e [_ He]%list_elem_of_filter. rewrite Forall_forall in Hl. by apply Hl. }
  destruct (chain_state t) as [state|] eqn:Hs.
  - destruct Hc as (Hle & Hnew & cp & Hcp & old & new & Hev & Hold & Hv & Hcons).
    destruct (purge_chained t b old new cp state now) as (cp' & old' & new' & Hcp' & Hf & Hold' & Hv' & Hcons'); [done..|].
    destruct (last_chained b (audit_events t)) as [[i h]|]; sql_inv.
    all: split; cbn; [split; [done|by apply Hfil]|]; rewrite Hs; split_and!; [done|intros Hlt e [_ He]%list_elem_of_filter; by apply Hnew|].
    all: exists cp'; split; [exact Hcp'|]; exists old', new'; by split_and!.
  - destruct Hc as [Hcps Hold]. assert (last_chained b (audit_events t) = None) as Hnone.
    { unfold last_chained. rewrite filter_none; [done|]. eapply Forall_impl; [exact Hold|]. cbn. intros e -> [_ []]. done. }
    rewrite Hnone in *. sql_inv. split; cbn; [split; [done|by apply Hfil]|]. rewrite Hs. split; [done|].
    apply Forall_forall. intros e [_ He]%list_elem_of_filter. rewrite Forall_forall in Hold. by apply Hold.
Qed.

(** ** Any calls *)

Lemma run_trail c faults t : trail t → trail (run c faults t).
Proof.
  intros Ht. destruct c as [now|r now|cutoff now]; cbn [run]; unfold appendAudit.
  - destruct (transaction_cases (EnableAuditChain now) faults t) as [->|(a & fs & t' & H & ->)]; [done|by eapply enable_trail].
  - destruct (transaction_cases (appendAuditTx r now) faults t) as [->|(a & fs & t' & H & ->)]; [done|by eapply append_trail].
  - destruct (transaction_cases (PurgeAuditBefore cutoff now) faults t) as [->|(a & fs & t' & H & ->)]; [done|by eapply purge_trail].
Qed.

(** C40. The trail holds together: after any calls that append, purge and turn the
    chain on, with any texts and any of their statements failing, the events after
    the last checkpoint chain from it, one after the other and with no identifier
    missing, to the hash the store goes on from; only events from before the
    activation carry no hash. *)
Theorem audit_trail_chains events n calls state :
  0 ≤ n → Forall (λ e, event_id e ≤ n ∧ chain_hash e = "") events →
  let t := foldl (λ t (c : call * list bool), run c.1 c.2 t) (mkTables events n None []) calls in
  chain_state t = Some state → ∃ cp, latest_checkpoint t = Some cp ∧ chained_from t cp state.
Proof.
  intros Hn Hev. cbv zeta. set (t0 := mkTables events n None []). assert (trail t0) as Ht.
  { split; cbn; [split; [done|eapply Forall_impl; [exact Hev|]; naive_solver]|]. split; [done|eapply Forall_impl; [exact Hev|]; naive_solver]. }
  clearbody t0. revert t0 Ht. induction calls as [|[c fs] calls IH]; intros t0 Ht; cbn [foldl].
  - intros Hs. destruct Ht as [_ Ht]. rewrite Hs in Ht. naive_solver.
  - apply IH. by apply run_trail.
Qed.
End Facts.
