(* ===== verification/ControlDb.v ===== *)
(** The SQL database of the Control Tower (control/internal/store): its tables,
    with the rows as the code writes them, dates as texts and flags as numbers;
    what the schema of [migrate] enforces - primary keys, unique columns, foreign
    keys and their cascades - and the helpers the operations share. *)
From S2P Require Import Prelude GoLib Base64 Json Entities SignedAuth GoTime ControlStore Sql AuditChain.
From stdpp Require Import options.
Local Open Scope Z_scope.
Local Open Scope go_scope.

Module cdb.
Import store.

Definition ErrConflict : error := errors_New "conflict".
Definition ErrLastAdmin : error := errors_New "at least one enabled administrator is required".
Definition supportedSecurityVersion : Z := 10.
(** What a statement answers that a foreign key or a primary key refuses, where
    the code does not look at it. *)
Definition err_constraint : error := errors_New "constraint failed".

(** * Rows *)

Record user_row := mkUserRow {
  u_username : string; u_password : string; u_role : string; u_enabled : Z; u_created : string; u_updated : string;
}.
#[global] Instance user_row_eta : Eta user_row := λ r, mkUserRow (u_username r) (u_password r) (u_role r) (u_enabled r) (u_created r) (u_updated r).
Record session_row := mkSessionRow { se_user : string; se_expires : string; se_created : string }.
Record account_row := mkAccountRow {
  a_name : string; a_description : string; a_enabled : Z; a_created : string; a_updated : string; a_kind : string;
}.
#[global] Instance account_row_eta : Eta account_row := λ r, mkAccountRow (a_name r) (a_description r) (a_enabled r) (a_created r) (a_updated r) (a_kind r).
Record group_row := mkGroupRow { g_name : string; g_description : string; g_enabled : Z; g_created : string; g_updated : string }.
#[global] Instance group_row_eta : Eta group_row := λ r, mkGroupRow (g_name r) (g_description r) (g_enabled r) (g_created r) (g_updated r).
Record token_row := mkTokenRow {
  t_account : string; t_name : string; t_hash : string; t_expires : option string; t_used : option string; t_revoked : option string;
  t_created : string; t_limits : string;
}.
#[global] Instance token_row_eta : Eta token_row := λ r,
  mkTokenRow (t_account r) (t_name r) (t_hash r) (t_expires r) (t_used r) (t_revoked r) (t_created r) (t_limits r).
Record workload_row := mkWorkloadRow {
  w_provider : string; w_issuer : string; w_subject : string; w_audience : string; w_enabled : Z; w_created : string; w_updated : string;
}.
#[global] Instance workload_row_eta : Eta workload_row := λ r,
  mkWorkloadRow (w_provider r) (w_issuer r) (w_subject r) (w_audience r) (w_enabled r) (w_created r) (w_updated r).
Record policy_row := mkPolicyRow { p_name : string; p_description : string; p_created : string; p_updated : string }.
#[global] Instance policy_row_eta : Eta policy_row := λ r, mkPolicyRow (p_name r) (p_description r) (p_created r) (p_updated r).
Record rule_row := mkRuleRow {
  r_policy : string; r_path : string; r_capabilities : string; r_position : Z; r_file_types : string; r_visibility : string; r_approval : string;
}.
Record temporary_row := mkTemporaryRow { tp_created : string; tp_by : string; tp_expires : Z }.
Record node_row := mkNodeRow {
  n_name : string; n_endpoint : string; n_token : string; n_state : string; n_seen : option string; n_created : string; n_updated : string;
}.
#[global] Instance node_row_eta : Eta node_row := λ r,
  mkNodeRow (n_name r) (n_endpoint r) (n_token r) (n_state r) (n_seen r) (n_created r) (n_updated r).
Record connection_row := mkConnectionRow {
  c_invite : string; c_issuer : string; c_target : string; c_token : string; c_fingerprint : string; c_status : string;
  c_expires : string; c_created : string; c_updated : string;
}.
#[global] Instance connection_row_eta : Eta connection_row := λ r,
  mkConnectionRow (c_invite r) (c_issuer r) (c_target r) (c_token r) (c_fingerprint r) (c_status r) (c_expires r) (c_created r) (c_updated r).
Record share_row := mkShareRow {
  s_hash : string; s_node : string; s_mount : string; s_path : string; s_kind : string; s_name : string; s_password : string;
  s_archive : Z; s_max : Z; s_count : Z; s_by : string; s_by_type : string; s_credential : string; s_created : string;
  s_expires : option string; s_revoked : option string; s_access : option string;
}.
#[global] Instance share_row_eta : Eta share_row := λ r,
  mkShareRow (s_hash r) (s_node r) (s_mount r) (s_path r) (s_kind r) (s_name r) (s_password r) (s_archive r) (s_max r) (s_count r)
    (s_by r) (s_by_type r) (s_credential r) (s_created r) (s_expires r) (s_revoked r) (s_access r).
Record attempt_row := mkAttemptRow { l_failures : Z; l_locked : option string; l_updated : string }.
Record pending_row := mkPendingRow {
  po_kind : string; po_credential : string; po_requester_type : string; po_requester : string; po_method : string; po_node : string;
  po_resource : string; po_query : string; po_body : string; po_sha256 : string; po_summary : string; po_requirements : string;
  po_state : string; po_created : string; po_expires : Z; po_by_type : string; po_by : string; po_decided : string; po_note : string;
  po_status : Z; po_result : string;
}.
#[global] Instance pending_row_eta : Eta pending_row := λ r,
  mkPendingRow (po_kind r) (po_credential r) (po_requester_type r) (po_requester r) (po_method r) (po_node r) (po_resource r) (po_query r)
    (po_body r) (po_sha256 r) (po_summary r) (po_requirements r) (po_state r) (po_created r) (po_expires r) (po_by_type r) (po_by r)
    (po_decided r) (po_note r) (po_status r) (po_result r).
Record link_row := mkLinkRow {
  k_actor_type : string; k_actor : string; k_credential : string; k_digest : string; k_binding : string; k_confirmed : Z;
  k_confirmed_digest : string; k_confirmed_expiry : Z; k_pending : Z; k_envelope : string; k_pending_expiry : Z; k_created : string; k_updated : string;
}.
#[global] Instance link_row_eta : Eta link_row := λ r,
  mkLinkRow (k_actor_type r) (k_actor r) (k_credential r) (k_digest r) (k_binding r) (k_confirmed r) (k_confirmed_digest r)
    (k_confirmed_expiry r) (k_pending r) (k_envelope r) (k_pending_expiry r) (k_created r) (k_updated r).

Record join_row := mkJoinRow {
  j_hash : string; j_name : string; j_approval : string; j_by : string; j_created : string; j_expires : string; j_used : string; j_enrollment : string;
}.
#[global] Instance join_row_eta : Eta join_row := λ r,
  mkJoinRow (j_hash r) (j_name r) (j_approval r) (j_by r) (j_created r) (j_expires r) (j_used r) (j_enrollment r).
Record enrollment_row := mkEnrollmentRow {
  e_token : string; e_state : string; e_name : string; e_node : string; e_fingerprint : string; e_endpoint : string; e_remote : string; e_csr : string;
  e_csr_hash : string; e_operational : string; e_poll : string; e_by : string; e_note : string; e_response : string; e_created : string;
  e_expires : string; e_decided : string;
}.
#[global] Instance enrollment_row_eta : Eta enrollment_row := λ r,
  mkEnrollmentRow (e_token r) (e_state r) (e_name r) (e_node r) (e_fingerprint r) (e_endpoint r) (e_remote r) (e_csr r) (e_csr_hash r) (e_operational r)
    (e_poll r) (e_by r) (e_note r) (e_response r) (e_created r) (e_expires r) (e_decided r).
Record managed_row := mkManagedRow {
  m_enrolled : string; m_version : Z; m_serial : string; m_before : string; m_after : string; m_error : string; m_error_at : string;
  m_fingerprint : string; m_issuer : string; m_mode : string;
}.
#[global] Instance managed_row_eta : Eta managed_row := λ r,
  mkManagedRow (m_enrolled r) (m_version r) (m_serial r) (m_before r) (m_after r) (m_error r) (m_error_at r) (m_fingerprint r) (m_issuer r) (m_mode r).
Record pki_row := mkPkiRow {
  i_kind : string; i_state : string; i_serial : string; i_fingerprint : string; i_public : string; i_secret : string; i_before : string; i_after : string;
  i_created : string;
}.
#[global] Instance pki_row_eta : Eta pki_row := λ r,
  mkPkiRow (i_kind r) (i_state r) (i_serial r) (i_fingerprint r) (i_public r) (i_secret r) (i_before r) (i_after r) (i_created r).
Record intent_row := mkIntentRow {
  x_actor_type : string; x_actor : string; x_credential : string; x_digest : string; x_key : string; x_binding : string; x_request : string;
  x_options : string; x_envelope : string; x_expiry : Z; x_accepted : Z; x_created : string; x_updated : string;
}.
#[global] Instance intent_row_eta : Eta intent_row := λ r,
  mkIntentRow (x_actor_type r) (x_actor r) (x_credential r) (x_digest r) (x_key r) (x_binding r) (x_request r) (x_options r) (x_envelope r) (x_expiry r)
    (x_accepted r) (x_created r) (x_updated r).

(** * Tables, by primary key *)

Record database := mkDatabase {
  users : gmap string user_row;
  sessions : gmap string session_row;
  service_accounts : gmap string account_row;
  access_groups : gmap string group_row;
  access_group_nodes : gmap (string * string) string;
  access_group_policies : gmap (string * string) string;
  service_account_groups : gmap (string * string) string;
  service_account_tokens : gmap string token_row;
  agent_usage : gmap (string * string) Z;
  workload_identities : gmap string workload_row;
  job_links : gmap (string * string) link_row;
  job_scopes : gmap (string * string) (string * string);
  job_finished : gmap (string * string) string;
  pending_operations : gmap string pending_row;
  policies : gmap string policy_row;
  policy_rules : list rule_row;
  policy_assignments : gmap (string * (string * string)) string;
  temporary_assignments : gmap (string * (string * string)) temporary_row;
  roles : gmap string policy_row;
  role_policies : gmap (string * string) string;
  user_roles : gmap (string * string) string;
  nodes : gmap string node_row;
  token_rotations : gmap string (string * string);
  metadata : gmap string string;
  shares : gmap string share_row;
  login_attempts : gmap string attempt_row;
  connections : gmap string connection_row;
  join_tokens : gmap string join_row;
  enrollments : gmap string enrollment_row;
  managed_nodes : gmap string managed_row;
  pki_objects : gmap string pki_row;
  copy_intents : gmap (string * string) intent_row;
  trail : audit.tables;
}.
#[global] Instance database_eta : Eta database := λ d,
  mkDatabase (users d) (sessions d) (service_accounts d) (access_groups d) (access_group_nodes d) (access_group_policies d)
    (service_account_groups d) (service_account_tokens d) (agent_usage d) (workload_identities d) (job_links d) (job_scopes d)
    (job_finished d) (pending_operations d) (policies d) (policy_rules d) (policy_assignments d) (temporary_assignments d) (roles d)
    (role_policies d) (user_roles d) (nodes d) (token_rotations d) (metadata d) (shares d) (login_attempts d) (connections d)
    (join_tokens d) (enrollments d) (managed_nodes d) (pki_objects d) (copy_intents d) (trail d).

Definition empty_database : database :=
  mkDatabase ∅ ∅ ∅ ∅ ∅ ∅ ∅ ∅ ∅ ∅ ∅ ∅ ∅ ∅ ∅ [] ∅ ∅ ∅ ∅ ∅ ∅ ∅ ∅ ∅ ∅ ∅ ∅ ∅ ∅ ∅ ∅ (audit.mkTables [] 0 None []).

(** * Statements *)

Section Statements.
Context {K V : Type} `{Countable K} (get : database → gmap K V) `{!Setter get}.

(** INSERT: [taken] is the answer when the primary key or a unique column
    ([unique]) is taken, and a foreign key of the row must be there ([foreign]). *)
Definition insert_row (taken : error) (unique foreign : database → bool) (k : K) (v : V) : tx database () :=
  attempt (λ d,
    if bool_decide (is_Some (get d !! k)) || negb (unique d) then Err taken
    else if negb (foreign d) then Err err_constraint
    else Ok ((), d <| get := <[k := v]> (get d) |>)).
(** UPDATE of the row of a primary key, with the number of rows changed. *)
Definition update_row (k : K) (cond : database → V → bool) (f : V → V) : tx database Z :=
  statement (λ d,
    match get d !! k with
    | Some v => if cond d v then (1, d <| get := <[k := f v]> (get d) |>) else (0, d)
    | None => (0, d)
    end).
(** UPDATE of all the rows of a condition, with the number of rows changed. *)
Definition update_rows (cond : K → V → bool) (f : V → V) : tx database Z :=
  statement (λ d,
    (Z.of_nat (size (filter (λ kv, cond kv.1 kv.2 = true) (get d))),
     d <| get := map_imap (λ k v, Some (if cond k v then f v else v)) (get d) |>)).
Definition delete_rows (cond : K → V → bool) : tx database Z :=
  statement (λ d,
    (Z.of_nat (size (filter (λ kv, cond kv.1 kv.2 = true) (get d))),
     d <| get := filter (λ kv, cond kv.1 kv.2 = false) (get d) |>)).
(** INSERT ... ON CONFLICT DO UPDATE. *)
Definition upsert_row (f : option V → V) (foreign : database → bool) (k : K) : tx database () :=
  attempt (λ d, if negb (foreign d) then Err err_constraint else Ok ((), d <| get := <[k := f (get d !! k)]> (get d) |>)).
Definition row_exists (k : K) (d : database) : bool := bool_decide (is_Some (get d !! k)).
(** Whether no other row has a value in a unique column. *)
Definition unique_value {A} `{EqDecision A} (column : V → A) (k : K) (v : V) (d : database) : bool :=
  bool_decide (map_Forall (λ k' v', k' = k ∨ column v' ≠ column v) (get d)).
End Statements.
Definition always (_ : database) : bool := true.

(** The audit trail, in the same transaction. *)
Definition audit_tx {A} (m : tx audit.tables A) : tx database A := zoom trail (λ t d, d <| trail := t |>) m.

(** * Cascades

    DELETE of a row others refer to with ON DELETE CASCADE. *)
Definition without_key {V} (k : string) (m : gmap (string * string) V) : gmap (string * string) V := filter (λ kv, kv.1.1 ≠ k) m.
Definition without_value {V} (k : string) (m : gmap (string * string) V) : gmap (string * string) V := filter (λ kv, kv.1.2 ≠ k) m.
Definition cascade_user (id : string) (d : database) : database :=
  d <| users := delete id (users d) |> <| sessions := filter (λ kv, se_user kv.2 ≠ id) (sessions d) |>
    <| user_roles := without_key id (user_roles d) |>.
(** The tokens of an account, with their quotas and the identities mapped to them. *)
Definition token_kept (id : string) (d : database) (token : string) : Prop :=
  match service_account_tokens d !! token with Some r => t_account r ≠ id | None => True end.
#[global] Instance token_kept_dec id d token : base.Decision (token_kept id d token).
Proof. unfold token_kept. destruct (_ !! _); apply _. Defined.
Definition cascade_account (id : string) (d : database) : database :=
  d <| service_accounts := delete id (service_accounts d) |> <| service_account_groups := without_key id (service_account_groups d) |>
    <| agent_usage := filter (λ kv, token_kept id d kv.1.1) (agent_usage d) |>
    <| workload_identities := filter (λ kv, token_kept id d kv.1) (workload_identities d) |>
    <| service_account_tokens := filter (λ kv, t_account kv.2 ≠ id) (service_account_tokens d) |>.
Definition cascade_group (id : string) (d : database) : database :=
  d <| access_groups := delete id (access_groups d) |> <| access_group_nodes := without_key id (access_group_nodes d) |>
    <| access_group_policies := without_key id (access_group_policies d) |>
    <| service_account_groups := without_value id (service_account_groups d) |>.
Definition cascade_policy (id : string) (d : database) : database :=
  d <| policies := delete id (policies d) |> <| policy_rules := filter (λ r, r_policy r ≠ id) (policy_rules d) |>
    <| policy_assignments := filter (λ kv, kv.1.1 ≠ id) (policy_assignments d) |>
    <| temporary_assignments := filter (λ kv, kv.1.1 ≠ id) (temporary_assignments d) |>
    <| role_policies := without_value id (role_policies d) |> <| access_group_policies := without_value id (access_group_policies d) |>.
Definition cascade_role (id : string) (d : database) : database :=
  d <| roles := delete id (roles d) |> <| role_policies := without_key id (role_policies d) |> <| user_roles := without_value id (user_roles d) |>.
Definition cascade_node (id : string) (d : database) : database :=
  d <| nodes := delete id (nodes d) |> <| access_group_nodes := without_value id (access_group_nodes d) |>
    <| job_links := without_key id (job_links d) |> <| job_scopes := without_key id (job_scopes d) |>
    <| job_finished := without_key id (job_finished d) |> <| token_rotations := delete id (token_rotations d) |>
    <| managed_nodes := delete id (managed_nodes d) |> <| copy_intents := without_key id (copy_intents d) |>.
(** DELETE of one row and what goes with it, with the number of rows deleted. *)
Definition delete_one {V} (get : database → gmap string V) (cascade : string → database → database) (id : string) : tx database Z :=
  statement (λ d, if bool_decide (is_Some (get d !! id)) then (1, cascade id d) else (0, d)).

(** * Searching

    [a LIKE p ESCAPE '\'] without regard to the case of ASCII letters. *)
Inductive like_token := like_any | like_one | like_char (c : ascii).
Definition backslash : ascii := "\"%char.
Fixpoint like_tokens (p : string) : list like_token :=
  match p with
  | "" => []
  | String c p' =>
    if c =s backslash then match p' with "" => [like_char c] | String c' p'' => like_char c' :: like_tokens p'' end
    else (if c =s "%"%char then like_any else if c =s "_"%char then like_one else like_char c) :: like_tokens p'
  end.
Definition ascii_lower (c : ascii) : ascii := if in_range 65 90 c then byte_of (byte_val c + 32) else c.
Definition LOWER (s : string) : string := of_bytes (ascii_lower <$> bytes s).
Fixpoint like_match (p : list like_token) (s : list ascii) : bool :=
  match p with
  | [] => match s with [] => true | _ => false end
  | like_any :: p => (fix skip (s : list ascii) : bool := like_match p s || match s with [] => false | _ :: s => skip s end) s
  | like_one :: p => match s with [] => false | _ => like_match p (drop (Nat.max 1 (decode_rune (of_bytes s)).2) s) end
  | like_char c :: p => match s with [] => false | c' :: s => bool_decide (ascii_lower c = ascii_lower c') && like_match p s end
  end.
Definition LIKE (text pattern : string) : bool := like_match (like_tokens pattern) (bytes text).
Definition escape_byte (c : ascii) : list ascii :=
  if (c =s backslash) || (c =s "%"%char) || (c =s "_"%char) then [backslash; c] else [c].
Definition searchPattern {U : Unicode} (q : string) : string := "%" +++ of_bytes (bytes (TrimSpace q) ≫= escape_byte) +++ "%".
(** The WHERE of the searches: nothing to search for lets every row through. *)
Definition searched {U : Unicode} (q : string) (columns : list string) : bool :=
  (TrimSpace q =s "") || existsb (λ column, LIKE (LOWER column) (LOWER (searchPattern q))) columns.

(** * Helpers of store.go *)

Definition boolInt (b : bool) : Z := if b then 1 else 0.
Fixpoint uniqueStrings_from (seen : list string) (values : list string) : list string :=
  match values with
  | [] => []
  | v :: values => if v ∈b seen then uniqueStrings_from seen values else v :: uniqueStrings_from (v :: seen) values
  end.
Definition uniqueStrings (values : list string) : list string := uniqueStrings_from [] values.

(** CAST(value AS INTEGER): the integer a text starts with, or 0. *)
Fixpoint int_prefix (acc : Z) (s : string) : Z :=
  match s with
  | String c s' => match digit_val c with Some v => int_prefix (10 * acc + v) s' | None => acc end
  | "" => acc
  end.
Fixpoint cast_integer (s : string) : Z :=
  match s with
  | String c s' =>
    if (c =s " "%char) || ((9 <=? byte_val c) && (byte_val c <=? 13)) then cast_integer s'
    else if c =s "-"%char then - int_prefix 0 s'
    else if c =s "+"%char then int_prefix 0 s'
    else int_prefix 0 s
  | "" => 0
  end.
(** The upsert of minimum_security_version, which never lowers it. *)
Definition version_key : string := "minimum_security_version".
Definition raise_version (version : string) : tx database () :=
  exec (λ d, d <| metadata := <[version_key :=
    match metadata d !! version_key with
    | None => version
    | Some value => if cast_integer value <? cast_integer version then version else value
    end]> (metadata d) |>).

(** ORDER BY a text, and a text descending, as SQLite's binary collation does. *)
Definition by_text {A} (column : A → string) (a b : A) : Prop := String.le (column a) (column b).
#[global] Instance by_text_dec {A} (column : A → string) : RelDecision (by_text column).
Proof. intros a b. unfold by_text, String.le. apply _. Defined.
Definition order_by {A} (column : A → string) (l : list A) : list A := merge_sort (by_text column) l.
Definition order_by_desc {A} (column : A → string) (l : list A) : list A := merge_sort (flip (by_text column)) l.
Definition rows_where {K V} `{Countable K} (cond : K → V → bool) (m : gmap K V) : list (K * V) :=
  filter (λ kv, cond kv.1 kv.2 = true) (map_to_list m).

End cdb.
