(* ===== verification/ControlPending.v ===== *)
(** Requests that wait for an approval (control/internal/store/pending_operations.go):
    a request is kept exactly as it was made, and replayed when an approver accepts
    it. The life of a request is the column [po_state]. *)
From S2P Require Import Prelude GoLib Base64 Json Entities SignedAuth GoTime ControlStore ControlAccess Sql AuditChain ControlDb.
From stdpp Require Import options.
Import store cdb audit.
Local Open Scope Z_scope.
Local Open Scope go_scope.

Module pending.

Definition PendingState : string := "pending".
Definition PendingExecuting : string := "executing".
Definition PendingExecuted : string := "executed".
Definition PendingFailed : string := "failed".
Definition PendingRejected : string := "rejected".
Definition PendingExpired : string := "expired".
Definition PendingIndeterminate : string := "indeterminate".
Definition PendingLifetime : Z := 5 * minute.
Definition pendingKeep : Z := 30 * 24 * 60 * minute.
Definition ErrPendingExpired : error := errors_New "pending operation expired".
Definition ErrPendingTooMany : error := errors_New "too many pending operations".
Definition ErrPendingCorrupt : error := errors_New "pending operation does not match its digest".

Record PendingRequirement := mkPendingRequirement { pr_Path : string; pr_Capability : string }.
Definition PendingKindReplay : string := "replay".
Definition PendingKindPlan : string := "plan".
Definition PendingKindTransfer : string := "transfer".

Record PendingOperation := mkPendingOperation {
  Kind : string;
  op_CredentialID : string;
  op_ID : string;
  RequesterType : string;
  RequesterID : string;
  Method : string;
  op_NodeID : string;
  Resource : string;
  RawQuery : string;
  Body : string;
  BodySHA256 : string;
  Summary : string;
  Requirements : list PendingRequirement;
  State : string;
  op_CreatedAt : time;
  op_ExpiresAt : time;
  DecidedByType : string;
  DecidedByID : string;
  DecidedAt : option time;
  Note : string;
  ResultStatus : Z;
  ResultBody : string;
}.
#[global] Instance PendingOperation_eta : Eta PendingOperation := λ o,
  mkPendingOperation (Kind o) (op_CredentialID o) (op_ID o) (RequesterType o) (RequesterID o) (Method o) (op_NodeID o) (Resource o) (RawQuery o)
    (Body o) (BodySHA256 o) (Summary o) (Requirements o) (State o) (op_CreatedAt o) (op_ExpiresAt o) (DecidedByType o) (DecidedByID o)
    (DecidedAt o) (Note o) (ResultStatus o) (ResultBody o).

(** The requirements as JSON. A slice without elements is nil: the callers
    collect them with append. *)
Definition json_requirement (r : PendingRequirement) : string :=
  json_object [Some (json_field "path" (json_string (pr_Path r))); Some (json_field "capability" (json_string (pr_Capability r)))].
Definition json_requirements (l : list PendingRequirement) : string := match l with [] => "null" | _ => json_list json_requirement l end.

Section Pending.
Context {U : Unicode} {C : Crypto}.

Definition decode_requirement (old : PendingRequirement) (v : json) : result PendingRequirement :=
  httpapi.unmarshal_struct ["path"; "capability"]
    (λ acc name v,
      if name =s "path" then x ← decode_string (pr_Path acc) v; Ok (mkPendingRequirement x (pr_Capability acc))
      else x ← decode_string (pr_Capability acc) v; Ok (mkPendingRequirement (pr_Path acc) x)) old v.

Definition sha256_hex (body : string) : string := hex_EncodeToString (sha256_Sum body).
Definition IntegrityOK (op : PendingOperation) : bool := BodySHA256 op =s sha256_hex (Body op).

Definition scanPending (row : string * pending_row) : result PendingOperation :=
  let '(id, r) := row in
  v ← json_parse (po_requirements r);
  requirements ← decode_list decode_requirement (mkPendingRequirement "" "") [] v;
  Ok (mkPendingOperation (po_kind r) (po_credential r) id (po_requester_type r) (po_requester r) (po_method r) (po_node r) (po_resource r)
    (po_query r) (po_body r) (po_sha256 r) (po_summary r) requirements (po_state r) (Parse_or_zero (po_created r)) (po_expires r)
    (po_by_type r) (po_by r) (if po_decided r =s "" then None else Some (Parse_or_zero (po_decided r))) (po_note r) (po_status r) (po_result r)).
Definition row_of (id : string) (d : database) : option (string * pending_row) := pair id <$> pending_operations d !! id.

Definition expirePending (now : time) : tx database () :=
  update_rows pending_operations (λ _ r, (po_state r =s PendingState) && (po_expires r <=? now)) (λ r, r <| po_state := PendingExpired |>) ≫= λ _,
  delete_rows pending_operations (λ _ r, negb ((po_state r =s PendingState) || (po_state r =s PendingExecuting)) && (po_expires r <? now - pendingKeep)) ≫= λ _,
  mret ().

Definition pending_audit (actorID actorType action : string) (op : PendingOperation) (stamp : string) : auditRecord :=
  mkAuditRecord actorID actorType action ("nodes/" +++ op_NodeID op +++ "/" +++ Resource op) "allowed" "" stamp "" "" "" ""
    ("{" +++ json_string "pending_operation_id" +++ ":" +++ quote +++ op_ID op +++ quote +++ "}").

(** The row a request is stored as. *)
Definition pending_row_of (op : PendingOperation) : pending_row :=
  mkPendingRow (Kind op) (op_CredentialID op) (RequesterType op) (RequesterID op) (Method op) (op_NodeID op) (Resource op) (RawQuery op) (Body op)
    (BodySHA256 op) (Summary op) (json_requirements (Requirements op)) (State op) (Format (op_CreatedAt op)) (op_ExpiresAt op) "" "" "" "" 0 "".
Definition same_request (op : PendingOperation) (r : pending_row) : bool :=
  (po_requester_type r =s RequesterType op) && (po_requester r =s RequesterID op) && (po_state r =s PendingState) && (po_kind r =s Kind op)
  && (po_method r =s Method op) && (po_node r =s op_NodeID op) && (po_resource r =s Resource op) && (po_query r =s RawQuery op)
  && (po_sha256 r =s BodySHA256 op).
Definition open_of (requesterType requesterID : string) (d : database) : gmap string pending_row :=
  filter (λ kv, po_requester_type kv.2 = requesterType ∧ po_requester kv.2 = requesterID ∧ po_state kv.2 = PendingState) (pending_operations d).

(** The request with its kind and digest, and as it is stored from [now] on. *)
Definition with_digest (op : PendingOperation) : PendingOperation :=
  let op := if Kind op =s "" then op <| Kind := PendingKindReplay |> else op in
  op <| BodySHA256 := sha256_hex (Body op) |>.
Definition stamped (op : PendingOperation) (id : string) (now : time) : PendingOperation :=
  let op := op <| op_ID := id |> <| State := PendingState |> <| op_CreatedAt := now |> <| op_ExpiresAt := now + PendingLifetime |> in
  if Summary op =s "" then op <| Summary := "{}" |> else op.

(** [random] is what rand.Read gives. *)
Definition CreatePendingOperation (op : PendingOperation) (maxPerRequester : Z) (now : time) (random : result string)
    : list bool → database → result (PendingOperation * bool) * database :=
  transact (
    expirePending now ≫= λ _,
    let op := with_digest op in
    if (Kind op ≠s PendingKindReplay) && (Kind op ≠s PendingKindPlan) && (Kind op ≠s PendingKindTransfer)
    then fail (errors_New "unknown pending operation kind") else
    existing ← query (λ d, head (rows_where (λ _ r, same_request op r) (pending_operations d)));
    match existing with
    | Some row => existing ← lift (scanPending row); mret (rollback (Ok (existing, true)))
    | None =>
      open ← query (λ d, Z.of_nat (size (open_of (RequesterType op) (RequesterID op) d)));
      if maxPerRequester <=? open then fail ErrPendingTooMany else
      random ← lift random;
      let op := stamped op ("pop_" +++ hex_EncodeToString random) now in
      insert_row pending_operations err_constraint always always (op_ID op) (pending_row_of op) ≫= λ _,
      audit_tx (appendAuditTx (pending_audit (RequesterID op) (RequesterType op) "pending_operation_create" op (Format (op_CreatedAt op))) "") ≫= λ _,
      mret (commit (Ok (op, false)))
    end).

Definition GetPendingOperation (id : string) (now : time) : list bool → database → result PendingOperation * database :=
  transaction (
    expirePending now ≫= λ _,
    row ← query_row ErrNotFound (row_of id);
    lift (scanPending row)).

(** ORDER BY created_at compares the texts. *)
Definition ListPendingOperations (state requesterType requesterID : string) (limit : Z) (now : time)
    : list bool → database → result (list PendingOperation) * database :=
  transaction (
    expirePending now ≫= λ _,
    rows ← query (λ d,
      let rows := rows_where (λ _ r, ((state =s "") || (po_state r =s state))
        && ((requesterID =s "") || (po_requester_type r =s requesterType) && (po_requester r =s requesterID))) (pending_operations d) in
      let rows := order_by_desc (λ row, po_created row.2) rows in
      if limit <? 0 then rows else take (Z.to_nat limit) rows);
    lift (mapM scanPending rows)).

Definition ClaimPendingOperation (id byType byID : string) (now : time) : list bool → database → result PendingOperation * database :=
  transact (
    row ← query_row ErrNotFound (row_of id);
    op ← lift (scanPending row);
    if (State op =s PendingState) && negb (now <? op_ExpiresAt op) then
      update_row pending_operations id (λ _ r, po_state r =s PendingState) (λ r, r <| po_state := PendingExpired |>) ≫= λ _,
      mret (commit (Err ErrPendingExpired))
    else if negb (IntegrityOK op) then fail ErrPendingCorrupt else
    let stamp := Format now in
    changed ← update_row pending_operations id (λ _ r, po_state r =s PendingState)
      (λ r, r <| po_state := PendingExecuting |> <| po_by_type := byType |> <| po_by := byID |> <| po_decided := stamp |>);
    if negb (changed =? 1) then fail ErrConflict else
    audit_tx (appendAuditTx (pending_audit byID byType "pending_operation_approve" op stamp) "") ≫= λ _,
    mret (commit (Ok (op <| State := PendingExecuting |> <| DecidedByType := byType |> <| DecidedByID := byID |> <| DecidedAt := Some now |>)))).

Definition result_limit : nat := Z.to_nat 8192.
Definition FinishPendingOperation (id : string) (status : Z) (body : string) : list bool → database → result () * database :=
  let state := if 400 <=? status then PendingFailed else PendingExecuted in
  let body := of_bytes (take result_limit (bytes body)) in
  transaction (
    changed ← update_row pending_operations id (λ _ r, po_state r =s PendingExecuting)
      (λ r, r <| po_state := state |> <| po_status := status |> <| po_result := body |>);
    fail_when (negb (changed =? 1)) ErrConflict).

Definition RejectPendingOperation (id byType byID note : string) (now : time) : list bool → database → result PendingOperation * database :=
  transaction (
    expirePending now ≫= λ _,
    row ← query_row ErrNotFound (row_of id);
    op ← lift (scanPending row);
    fail_when (State op ≠s PendingState) ErrConflict ≫= λ _,
    let stamp := Format now in
    update_row pending_operations id (λ _ r, po_state r =s PendingState)
      (λ r, r <| po_state := PendingRejected |> <| po_by_type := byType |> <| po_by := byID |> <| po_decided := stamp |> <| po_note := note |>) ≫= λ _,
    audit_tx (appendAuditTx (pending_audit byID byType "pending_operation_reject" op stamp) "") ≫= λ _,
    mret (op <| State := PendingRejected |> <| Note := note |>)).

(** When the database opens. *)
Definition recoverPendingOperations : list bool → database → result Z * database :=
  single (update_rows pending_operations (λ _ r, po_state r =s PendingExecuting) (λ r, r <| po_state := PendingIndeterminate |>)).

End Pending.
End pending.
