(* ===== verification/ControlUsers.v ===== *)
(** Users, their sessions and the attempts to log in (control/internal/store/store.go).
    [now] is the time.Now() of a call. *)
From S2P Require Import Prelude GoLib Base64 Json Entities SignedAuth GoTime ControlStore Sql AuditChain ControlDb.
From stdpp Require Import options.
Import store cdb audit.
Local Open Scope Z_scope.
Local Open Scope go_scope.

Module users.
Section Users.
Context {U : Unicode} {C : Crypto}.

(** * Users *)

Definition scanUser (row : string * user_row) : User :=
  let '(id, r) := row in
  mkUser id (u_username r) (u_password r) (u_role r) (negb (u_enabled r =? 0)) (Parse_or_zero (u_created r)) (Parse_or_zero (u_updated r)).
Definition user_row_of (user : User) : user_row :=
  mkUserRow (Username user) (PasswordHash user) (Role user) (boolInt (User_Enabled user)) (Format (User_CreatedAt user)) (Format (User_UpdatedAt user)).
Definition user_by (id : string) (d : database) : option User := (λ r, scanUser (id, r)) <$> cdb.users d !! id.
Definition user_named (username : string) (d : database) : option User :=
  scanUser <$> head (rows_where (λ _ r, u_username r =s username) (cdb.users d)).
(** Administrators that can log in, other than one. *)
Definition other_admins (id : string) (d : database) : Z :=
  Z.of_nat (size (filter (λ kv, u_role kv.2 = "admin" ∧ u_enabled kv.2 = 1 ∧ kv.1 ≠ id) (cdb.users d))).
Definition username_free (id : string) (r : user_row) : database → bool := unique_value cdb.users u_username id r.

Definition UserByUsername (username : string) : tx database User := query_row ErrNotFound (user_named username).
Definition GetUser (id : string) : tx database User := query_row ErrNotFound (user_by id).
Definition SearchUsers (q : string) : tx database (list User) :=
  rows ← query (λ d, order_by (λ row, u_username row.2) (rows_where (λ _ r, searched q [u_username r; u_role r]) (cdb.users d)));
  mret (scanUser <$> rows).
Definition ListUsers : tx database (list User) := SearchUsers "".

Definition CreateUser (user : User) : list bool → database → result () * database :=
  let r := user_row_of user in
  single (insert_row cdb.users ErrConflict (username_free (User_ID user) r) always (User_ID user) r).

(** The guard UpdateUser and DeleteUser share. *)
Definition keep_an_admin (id : string) : tx database () :=
  others ← query (other_admins id); fail_when (others =? 0) ErrLastAdmin.
(** An UPDATE can run into the unique column too. *)
Definition rewrite_user (user : User) (passwordHash : string) : tx database () :=
  attempt (λ d,
    match cdb.users d !! User_ID user with
    | None => Ok ((), d)
    | Some r =>
      let r := r <| u_username := Username user |> <| u_role := Role user |> <| u_enabled := boolInt (User_Enabled user) |>
                 <| u_updated := Format (User_UpdatedAt user) |> in
      let r := if passwordHash =s "" then r else r <| u_password := passwordHash |> in
      if username_free (User_ID user) r d then Ok ((), d <| cdb.users := <[User_ID user := r]> (cdb.users d) |>) else Err ErrConflict
    end).
Definition UpdateUser (user : User) (passwordHash : string) : list bool → database → result () * database :=
  transaction (
    current ← query_row ErrNotFound (user_by (User_ID user));
    (if (Role current =s "admin") && User_Enabled current && ((Role user ≠s "admin") || negb (User_Enabled user))
     then keep_an_admin (User_ID user) else mret ()) ≫= λ _,
    rewrite_user user passwordHash ≫= λ _,
    if (passwordHash ≠s "") || negb (User_Enabled user)
    then delete_rows sessions (λ _ r, se_user r =s User_ID user) ≫= λ _, mret () else mret ()).
Definition DeleteUser (id : string) : list bool → database → result () * database :=
  transaction (
    current ← query_row ErrNotFound (user_by id);
    (if (Role current =s "admin") && User_Enabled current then keep_an_admin id else mret ()) ≫= λ _,
    delete_rows policy_assignments (λ k _, (k.2.1 =s "user") && (k.2.2 =s id)) ≫= λ _,
    delete_rows temporary_assignments (λ k _, (k.2.1 =s "user") && (k.2.2 =s id)) ≫= λ _,
    delete_one cdb.users cascade_user id ≫= λ _, mret ()).

Definition EnsureAdmin (id username passwordHash : string) (now : time) : list bool → database → result () * database :=
  single (
    count ← query (λ d, Z.of_nat (size (filter (λ kv, u_role kv.2 = "admin") (cdb.users d))));
    if 0 <? count then mret () else
    let r := mkUserRow username passwordHash "admin" 1 (Format now) (Format now) in
    insert_row cdb.users err_constraint (username_free id r) always id r).

Record AdminRecoveryResult := mkAdminRecoveryResult { rec_User : User; rec_Created : bool; RevokedSessions : Z }.
Definition recovery_audit (id correlationID stamp : string) : auditRecord :=
  mkAuditRecord id "recovery" "recover_admin" ("control-tower/users/" +++ id) "allowed" correlationID stamp "" "control-tower/users" "sudo" "" "".
Definition EmergencyRecoverAdmin (newUserID username passwordHash correlationID : string) (now : time)
    : list bool → database → result AdminRecoveryResult * database :=
  if (TrimSpace username =s "") || (passwordHash =s "") || (correlationID =s "")
  then λ _ d, (Err (errors_New "username, password hash, and correlation ID are required"), d) else
  transaction (
    found ← query (user_named username);
    '(user, created) ← match found with
      | None =>
        fail_when (newUserID =s "") (errors_New "new user ID is required") ≫= λ _,
        let r := mkUserRow username passwordHash "admin" 1 (Format now) (Format now) in
        insert_row cdb.users err_constraint (username_free newUserID r) always newUserID r ≫= λ _,
        mret (mkUser newUserID username passwordHash "admin" true now now, true)
      | Some user =>
        update_row cdb.users (User_ID user) (λ _ _, true)
          (λ r, r <| u_password := passwordHash |> <| u_role := "admin" |> <| u_enabled := 1 |> <| u_updated := Format now |>) ≫= λ _,
        mret (mkUser (User_ID user) (Username user) passwordHash "admin" true (User_CreatedAt user) now, false)
      end;
    revoked ← delete_rows sessions (λ _ _, true);
    audit_tx (appendAuditTx (recovery_audit (User_ID user) correlationID (Format now)) "") ≫= λ _,
    mret (mkAdminRecoveryResult (mkUser (User_ID user) (Username user) "" (Role user) (User_Enabled user) (User_CreatedAt user) (User_UpdatedAt user))
      created revoked)).

(** * Sessions *)

Definition CreateSession (hash userID : string) (expires now : time) : list bool → database → result () * database :=
  single (insert_row sessions err_constraint always (row_exists cdb.users userID) hash (mkSessionRow userID (Format expires) (Format now))).
Definition session_of (hash : string) (d : database) : option (User * string) :=
  s ← sessions d !! hash; user ← user_by (se_user s) d; Some (user, se_expires s).
Definition SessionUserAndExpiry (hash : string) (now : time) : tx database (User * time) :=
  '(user, expiresAt) ← query_row ErrNotFound (session_of hash);
  match Parse expiresAt with
  | None => fail ErrNotFound
  | Some expiry => if negb (After expiry now) then fail ErrNotFound else mret (user, expiry)
  end.
Definition SessionUser (hash : string) (now : time) : tx database User := '(user, _) ← SessionUserAndExpiry hash now; mret user.
Definition DeleteSession (hash : string) : list bool → database → result Z * database :=
  single (delete_rows sessions (λ k _, k =s hash)).

(** * Attempts to log in *)

(** None is the zero time: the key is not locked. *)
Definition LoginLockedUntil (key : string) (now : time) : tx database (option time) :=
  row ← query (λ d, login_attempts d !! key);
  match row ≫= l_locked with
  | None => mret None
  | Some text =>
    match Parse text with
    | None => fail (errors_New "parsing time")
    | Some t => mret (if After t now then Some t else None)
    end
  end.
Definition lockout (failures : Z) : Z := Z.min (Z.shiftl 30 (Z.min (failures - 5) 5)) 900 * nanoseconds.
Definition RegisterLoginFailure (key : string) (now : time) : list bool → database → result () * database :=
  transaction (
    failures ← query_or 0 (λ d, match login_attempts d !! key with Some r => l_failures r | None => 0 end);
    let failures := failures + 1 in
    let lockedUntil := if 5 <=? failures then Some (Format (now + lockout failures)) else None in
    upsert_row login_attempts (λ _, mkAttemptRow failures lockedUntil (Format now)) always key).
Definition ClearLoginFailures (key : string) : list bool → database → result Z * database :=
  single (delete_rows login_attempts (λ k _, k =s key)).
(** The cutoff is compared as a text. *)
Definition PurgeStaleLoginAttempts (before : time) : list bool → database → result Z * database :=
  single (delete_rows login_attempts (λ _ r, String.ltb (l_updated r) (Format before))).

End Users.
End users.
