(* ===== verification/ControlPolicies.v ===== *)
(** Policies with their rules, roles, and who has them: the assignments, the
    temporary ones, roles and groups (control/internal/store/store.go and
    temporary_policies.go). [now] is the time.Now() of a call. *)
From S2P Require Import Prelude GoLib Base64 Json FileTypes Rbac Entities SignedAuth GoTime ControlStore Sql AuditChain ControlDb.
From stdpp Require Import options.
Import store cdb audit.
Local Open Scope Z_scope.
Local Open Scope go_scope.

Module policies.
Section Policies.
Context {U : Unicode} {C : Crypto}.

(** * Rules *)

Definition validatePolicyTypeRule (rule : rbac.Rule) : result () :=
  if negb (rbac.ValidNeedsApproval rule) then Err (errors_New "invalid approval marks") else
  match rbac.FileTypes rule with
  | None => if rbac.Visibility rule ≠s "" then Err (errors_New "visibility requires file types") else Ok ()
  | Some selector =>
    if (rbac.Visibility rule ≠s "") && (rbac.Visibility rule ≠s "hidden") && (rbac.Visibility rule ≠s "visible")
    then Err (errors_New "invalid file type visibility") else
    let mount := match Split slash (rbac.NormalizePath (rbac.Path rule)) with
                 | p0 :: p1 :: p2 :: p3 :: p4 :: _ => (p0 =s "nodes") && (p2 =s "files") && (p3 =s "mounts") && (p1 ≠s "**") && (p4 ≠s "**")
                 | _ => false
                 end in
    if negb (rbac.ValidPath (rbac.Path rule)) || negb mount then Err (errors_New "file types require a mount file path")
    else filetypes.Validate selector
  end.

(** Columns with JSON. *)
Definition json_strings (l : list string) : string := json_list json_string l.
Definition json_file_types (s : option filetypes.Selector) : string := match s with None => "null" | Some s => filetypes.json_selector s end.
Definition decode_names (text : string) : result (list string) := v ← json_parse text; decode_list decode_string "" [] v.
Definition decode_file_types (text : string) : result (option filetypes.Selector) :=
  v ← json_parse text;
  match v with JNull => Ok None | _ => s ← filetypes.decode_selector filetypes.Selector_zero v; Ok (Some s) end.

Definition read_rule (r : rule_row) : result rbac.Rule :=
  approval ← (if (r_approval r =s "") || (r_approval r =s "[]") then Ok [] else decode_names (r_approval r));
  capabilities ← decode_names (r_capabilities r);
  selector ← decode_file_types (r_file_types r);
  let rule := {| rbac.Path := r_path r; rbac.Capabilities := capabilities; rbac.FileTypes := selector; rbac.Visibility := r_visibility r;
                 rbac.rule_NeedsApproval := approval |} in
  validatePolicyTypeRule rule ≫= λ _, Ok rule.
(** ORDER BY position, id: the rows are in the order of their identifiers. *)
Definition by_position (a b : rule_row) : Prop := r_position a ≤ r_position b.
#[local] Instance by_position_dec : RelDecision by_position.
Proof. intros a b. unfold by_position. apply _. Defined.
Definition rules_of (policyID : string) (d : database) : list rule_row :=
  merge_sort by_position (filter (λ r, r_policy r = policyID) (policy_rules d)).
Definition policyRules (policyID : string) : tx database (list rbac.Rule) :=
  rows ← query (rules_of policyID); lift (mapM read_rule rows).

Definition write_rule (policyID : string) (position : Z) (rule : rbac.Rule) : rule_row :=
  mkRuleRow policyID (rbac.Path rule) (json_strings (rbac.Capabilities rule)) position (json_file_types (rbac.FileTypes rule)) (rbac.Visibility rule)
    (json_strings (rbac.rule_NeedsApproval rule)).
Fixpoint insertPolicyRules (policyID : string) (position : Z) (rules : list rbac.Rule) : tx database () :=
  match rules with
  | [] => mret ()
  | rule :: rules =>
    lift (validatePolicyTypeRule rule) ≫= λ _,
    (if bool_decide (is_Some (rbac.FileTypes rule)) then raise_version "2" else mret ()) ≫= λ _,
    (if bool_decide (rbac.rule_NeedsApproval rule = []) then mret () else raise_version "8") ≫= λ _,
    exec (λ d, d <| policy_rules := policy_rules d ++ [write_rule policyID position rule] |>) ≫= λ _,
    insertPolicyRules policyID (position + 1) rules
  end.

(** * Policies *)

Record Policy := mkPolicy {
  Policy_ID : string; Policy_Name : string; Policy_Description : string; Policy_Rules : list rbac.Rule; Policy_CreatedAt : time; Policy_UpdatedAt : time;
}.
Definition scan_policy (row : string * policy_row) (rules : list rbac.Rule) : Policy :=
  let '(id, r) := row in mkPolicy id (p_name r) (p_description r) rules (Parse_or_zero (p_created r)) (Parse_or_zero (p_updated r)).
Definition policy_row_of (p : Policy) : policy_row :=
  mkPolicyRow (Policy_Name p) (Policy_Description p) (Format (Policy_CreatedAt p)) (Format (Policy_UpdatedAt p)).
Definition with_rules (row : string * policy_row) : tx database Policy := rules ← policyRules row.1; mret (scan_policy row rules).
Fixpoint each {A B} (f : A → tx database B) (l : list A) : tx database (list B) :=
  match l with [] => mret [] | a :: l => b ← f a; bs ← each f l; mret (b :: bs) end.

Definition SearchPolicies (q : string) : tx database (list Policy) :=
  rows ← query (λ d, order_by (λ row, p_name row.2) (rows_where (λ _ r, searched q [p_name r; p_description r]) (cdb.policies d)));
  each with_rules rows.
Definition ListPolicies : tx database (list Policy) := SearchPolicies "".
Definition GetPolicy (id : string) : tx database Policy :=
  row ← query_row ErrNotFound (λ d, pair id <$> cdb.policies d !! id); with_rules row.

Definition CreatePolicy (p : Policy) : list bool → database → result () * database :=
  let r := policy_row_of p in
  transaction (
    insert_row cdb.policies ErrConflict (unique_value cdb.policies p_name (Policy_ID p) r) always (Policy_ID p) r ≫= λ _,
    insertPolicyRules (Policy_ID p) 0 (Policy_Rules p)).
(** UPDATE of name, description and date, which are the columns of roles too. *)
Definition rename_row (get : database → gmap string policy_row) `{!Setter get} (id name description updated : string) : tx database () :=
  attempt (λ d,
    match get d !! id with
    | None => Err ErrNotFound
    | Some r =>
      let r := r <| p_name := name |> <| p_description := description |> <| p_updated := updated |> in
      if unique_value get p_name id r d then Ok ((), d <| get := <[id := r]> (get d) |>) else Err ErrConflict
    end).
Definition UpdatePolicy (p : Policy) : list bool → database → result () * database :=
  transaction (
    rename_row cdb.policies (Policy_ID p) (Policy_Name p) (Policy_Description p) (Format (Policy_UpdatedAt p)) ≫= λ _,
    exec (λ d, d <| policy_rules := filter (λ r, r_policy r ≠ Policy_ID p) (policy_rules d) |>) ≫= λ _,
    insertPolicyRules (Policy_ID p) 0 (Policy_Rules p)).
Definition not_found_unless (count : Z) : tx database () := fail_when (count =? 0) ErrNotFound.
Definition DeletePolicy (id : string) : list bool → database → result () * database :=
  single (count ← delete_one cdb.policies cascade_policy id; not_found_unless count).

(** * Roles *)

Record Role := mkRole {
  Role_ID : string; Role_Name : string; Role_Description : string; Role_PolicyIDs : list string; Role_CreatedAt : time; Role_UpdatedAt : time;
}.
Definition scanRole (row : string * policy_row) (policyIDs : list string) : Role :=
  let '(id, r) := row in mkRole id (p_name r) (p_description r) policyIDs (Parse_or_zero (p_created r)) (Parse_or_zero (p_updated r)).
(** The second column of the rows of a first one, in order. *)
Definition values_of {V} (id : string) (m : gmap (string * string) V) : list string :=
  order_by (λ x, x) ((λ kv, kv.1.2) <$> rows_where (λ k _, k.1 =s id) m).
Definition RolePolicyIDs (roleID : string) : tx database (list string) := query (λ d, values_of roleID (role_policies d)).
Definition with_policies (row : string * policy_row) : tx database Role := ids ← RolePolicyIDs row.1; mret (scanRole row ids).
Definition SearchRoles (q : string) : tx database (list Role) :=
  rows ← query (λ d, order_by (λ row, p_name row.2) (rows_where (λ _ r, searched q [p_name r; p_description r]) (roles d)));
  each with_policies rows.
Definition ListRoles : tx database (list Role) := SearchRoles "".
Definition GetRole (id : string) : tx database Role :=
  row ← query_row ErrNotFound (λ d, pair id <$> roles d !! id); with_policies row.

(** [SELECT COUNT] for each, and ErrNotFound for the first that is not there. *)
Fixpoint all_exist {V} (get : database → gmap string V) (ids : list string) : tx database () :=
  match ids with
  | [] => mret ()
  | id :: ids => found ← query (row_exists get id); fail_when (negb found) ErrNotFound ≫= λ _, all_exist get ids
  end.
(** One INSERT for each row. *)
Fixpoint insert_each {K V} `{Countable K} (get : database → gmap K V) `{!Setter get} (foreign : K → database → bool) (rows : list (K * V)) : tx database () :=
  match rows with
  | [] => mret ()
  | (k, v) :: rows => insert_row get err_constraint always (foreign k) k v ≫= λ _, insert_each get foreign rows
  end.
Definition setRolePolicies (roleID : string) (policyIDs : list string) (now : time) : tx database () :=
  all_exist cdb.policies (uniqueStrings policyIDs) ≫= λ _,
  delete_rows role_policies (λ k _, k.1 =s roleID) ≫= λ _,
  insert_each role_policies (λ k d, row_exists roles k.1 d && row_exists cdb.policies k.2 d)
    ((λ id, ((roleID, id), Format now)) <$> uniqueStrings policyIDs).
Definition CreateRole (role : Role) (now : time) : list bool → database → result () * database :=
  let r := mkPolicyRow (Role_Name role) (Role_Description role) (Format (Role_CreatedAt role)) (Format (Role_UpdatedAt role)) in
  transaction (
    insert_row roles ErrConflict (unique_value roles p_name (Role_ID role) r) always (Role_ID role) r ≫= λ _,
    setRolePolicies (Role_ID role) (Role_PolicyIDs role) now).
Definition UpdateRole (role : Role) (now : time) : list bool → database → result () * database :=
  transaction (
    rename_row roles (Role_ID role) (Role_Name role) (Role_Description role) (Format (Role_UpdatedAt role)) ≫= λ _,
    setRolePolicies (Role_ID role) (Role_PolicyIDs role) now).
Definition DeleteRole (id : string) : list bool → database → result () * database :=
  single (count ← delete_one roles cascade_role id; not_found_unless count).
Definition SetUserRoles (userID : string) (roleIDs : list string) (now : time) : list bool → database → result () * database :=
  transaction (
    all_exist cdb.users [userID] ≫= λ _,
    all_exist roles (uniqueStrings roleIDs) ≫= λ _,
    delete_rows user_roles (λ k _, k.1 =s userID) ≫= λ _,
    insert_each user_roles (λ k d, row_exists cdb.users k.1 d && row_exists roles k.2 d) ((λ id, ((userID, id), Format now)) <$> uniqueStrings roleIDs)).
Definition UserRoleIDs (userID : string) : tx database (list string) := query (λ d, values_of userID (user_roles d)).

(** * Who has which policies *)

Definition subject_exists (subjectType subjectID : string) : option (tx database ()) :=
  if subjectType =s "user" then Some (all_exist cdb.users [subjectID])
  else if subjectType =s "service_account" then Some (all_exist service_accounts [subjectID])
  else None.
Definition SetSubjectPolicies (subjectType subjectID : string) (policyIDs : list string) (now : time) : list bool → database → result () * database :=
  transaction (
    match subject_exists subjectType subjectID with None => fail ErrNotFound | Some check => check end ≫= λ _,
    all_exist cdb.policies policyIDs ≫= λ _,
    delete_rows policy_assignments (λ k _, (k.2.1 =s subjectType) && (k.2.2 =s subjectID)) ≫= λ _,
    insert_each policy_assignments (λ k, row_exists cdb.policies k.1)
      ((λ id, ((id, (subjectType, subjectID)), Format now)) <$> uniqueStrings policyIDs)).
Definition SubjectPolicyIDs (subjectType subjectID : string) : tx database (list string) :=
  query (λ d, order_by (λ x, x) ((λ kv, kv.1.1) <$> rows_where (λ k _, (k.2.1 =s subjectType) && (k.2.2 =s subjectID)) (policy_assignments d))).

(** LEFT JOIN: a row without a match is kept once, with NULL. *)
Definition left_join {A B} (rows : list A) (on : A → list B) : list (A * option B) :=
  rows ≫= λ a, match on a with [] => [(a, None)] | bs => (λ b, (a, Some b)) <$> bs end.
Definition keys_where {K V} `{Countable K} (cond : K → V → bool) (m : gmap K V) : list K := (rows_where cond m).*1.

Section Joins.
Context (d : database) (subjectID : string) (now : time).
Definition assigned (subjectType policyID : string) : list (string * (string * string)) :=
  keys_where (λ k _, (k.1 =s policyID) && (k.2.1 =s subjectType) && (k.2.2 =s subjectID)) (policy_assignments d).
Definition assigned_for_now (subjectType policyID : string) : list (string * (string * string)) :=
  keys_where (λ k r, (k.1 =s policyID) && (k.2.1 =s subjectType) && (k.2.2 =s subjectID) && (now <? tp_expires r)) (temporary_assignments d).
Definition not_null {A} (a : option A) : bool := bool_decide (is_Some a).

(** The FROM, LEFT JOINs and WHERE for a user, and the policies they select. *)
Definition user_policies : list string :=
  let p := (map_to_list (cdb.policies d)).*1 in
  let pa := left_join p (assigned "user") in
  let pat := left_join pa (λ '(p, _), assigned_for_now "user" p) in
  let patr := left_join pat (λ '((p, _), _), keys_where (λ k _, k.2 =s p) (role_policies d)) in
  let patru := left_join patr (λ '(_, rp), match rp with
    | None => []
    | Some rp => keys_where (λ k _, (k.2 =s rp.1) && (k.1 =s subjectID)) (user_roles d)
    end) in
  (λ '((((p, _), _), _), _), p) <$> filter (λ '((((_, a), t), _), ur), not_null a || not_null t || not_null ur = true) patru.
(** The same for a service account. *)
Definition account_policies : list string :=
  let p := (map_to_list (cdb.policies d)).*1 in
  let pa := left_join p (assigned "service_account") in
  let pat := left_join pa (λ '(p, _), assigned_for_now "service_account" p) in
  let pats := left_join pat (λ _, keys_where (λ k _, k.1 =s subjectID) (service_account_groups d)) in
  let patsg := left_join pats (λ '(_, sg), match sg with
    | None => []
    | Some sg => keys_where (λ k r, (k =s sg.2) && (g_enabled r =? 1)) (access_groups d)
    end) in
  let patsgp := left_join patsg (λ '((((p, _), _), _), g), match g with
    | None => []
    | Some g => keys_where (λ k _, (k.2 =s p) && (k.1 =s g)) (access_group_policies d)
    end) in
  (λ '(((((p, _), _), _), _), _), p) <$> filter (λ '(((((_, a), t), _), _), gp), not_null a || not_null t || not_null gp = true) patsgp.
Definition other_policies (subjectType : string) : list string :=
  (map_to_list (cdb.policies d)).*1 ≫= λ p, (λ _, p) <$> assigned subjectType p.

(** SELECT DISTINCT ... ORDER BY p.id. *)
Definition select_policies (subjectType : string) : list (string * string) :=
  let ids := if subjectType =s "user" then user_policies
             else if subjectType =s "service_account" then account_policies else other_policies subjectType in
  omap (λ id, (λ r, (id, p_name r)) <$> cdb.policies d !! id) (order_by (λ x, x) (remove_dups ids)).
End Joins.

Definition RBACPoliciesForSubject (subjectType subjectID : string) (now : time) : tx database (list rbac.Policy) :=
  rows ← query (λ d, select_policies d subjectID now subjectType);
  each (λ '(id, name), rules ← policyRules id; mret {| rbac.ID := id; rbac.Name := name; rbac.Rules := rules |}) rows.

(** * Temporary assignments *)

Definition temporary_audit (actorID actorType action subjectType subjectID correlationID created detail : string) : auditRecord :=
  mkAuditRecord actorID actorType action ("policy_assignments/" +++ subjectType +++ "/" +++ subjectID) "allowed" correlationID created "" "" "" "" detail.
(** The details are a Go map, whose fields are written in the order of their names. *)
Definition temporary_detail (policyID subjectType subjectID : string) (expires : option time) : string :=
  json_object [(λ e, json_field "expires_at" (json_string (Format e))) <$> expires; Some (json_field "policy_id" (json_string policyID));
    Some (json_field "subject_id" (json_string subjectID)); Some (json_field "subject_type" (json_string subjectType))].
Definition max_duration : Z := 60 * minute.
Definition GrantTemporaryPolicy (subjectType subjectID policyID actorID actorType correlationID : string) (duration : Z) (now : time)
    : list bool → database → result TemporaryPolicyAssignment * database :=
  if (duration <=? 0) || (max_duration <? duration) then λ _ d, (Err (errors_New "invalid temporary assignment duration"), d) else
  match subject_exists subjectType subjectID with
  | None => λ _ d, (Err ErrNotFound, d)
  | Some check =>
    transaction (
      check ≫= λ _,
      all_exist cdb.policies [policyID] ≫= λ _,
      let expires := now + duration in
      upsert_row temporary_assignments (λ _, mkTemporaryRow (Format now) actorID expires) (row_exists cdb.policies policyID) (policyID, (subjectType, subjectID)) ≫= λ _,
      audit_tx (appendAuditTx (temporary_audit actorID actorType "grant_temporary_policy" subjectType subjectID correlationID (Format now)
        (temporary_detail policyID subjectType subjectID (Some expires))) "") ≫= λ _,
      mret (mkTemporaryPolicyAssignment policyID actorID now expires))
  end.
Definition TemporaryPolicies (subjectType subjectID : string) (now : time) : tx database (list TemporaryPolicyAssignment) :=
  rows ← query (λ d, order_by (λ row, row.1.1)
    (rows_where (λ k r, (k.2.1 =s subjectType) && (k.2.2 =s subjectID) && (now <? tp_expires r)) (temporary_assignments d)));
  lift (mapM (λ row, match Parse (tp_created row.2) with
    | None => Err (errors_New "parsing time")
    | Some created => Ok (mkTemporaryPolicyAssignment row.1.1 (tp_by row.2) created (tp_expires row.2))
    end) rows).
Definition RevokeTemporaryPolicy (subjectType subjectID policyID actorID actorType correlationID : string) (now : time)
    : list bool → database → result () * database :=
  transaction (
    count ← delete_rows temporary_assignments (λ k _, k =s (policyID, (subjectType, subjectID)));
    not_found_unless count ≫= λ _,
    audit_tx (appendAuditTx (temporary_audit actorID actorType "revoke_temporary_policy" subjectType subjectID correlationID ""
      (temporary_detail policyID subjectType subjectID None)) (Format now))).

End Policies.
End policies.
