(* ===== verification/ControlAccounts.v ===== *)
(** Service accounts with their tokens, groups of access, mapped workload
    identities and the quotas of agents (control/internal/store/store.go,
    workload_identities.go, agent_usage.go). [now] is the time.Now() of a call. *)
From S2P Require Import Prelude GoLib Base64 Json Entities SignedAuth GoTime ControlStore ControlAccess Sql AuditChain ControlDb ControlPolicies.
From stdpp Require Import options.
Import store cdb audit policies.
Local Open Scope Z_scope.
Local Open Scope go_scope.

Module accounts.
Section Accounts.
Context {U : Unicode} {C : Crypto}.

(** * The limits of a credential, as JSON *)

Definition json_limits (l : AgentLimits) : string :=
  json_object [Some (json_field "requests_per_minute" (json_int (RequestsPerMinute l))); Some (json_field "burst" (json_int (Burst l)));
    Some (json_field "max_concurrent" (json_int (MaxConcurrent l))); Some (json_field "max_response_bytes" (json_int (MaxResponseBytes l)));
    Some (json_field "daily_bytes" (json_int (DailyBytes l))); omitempty_list "allowed_cidrs" (AllowedCIDRs l);
    omitempty_list "read_media_types" (ReadMediaTypes l); (λ c, json_field "capabilities" (json_strings c)) <$> Limits_Capabilities l;
    if RequestDeletes l then Some (json_field "request_deletes" "true") else None].
Definition json_optional_limits (l : option AgentLimits) : string := match l with None => "null" | Some l => json_limits l end.
Definition AgentLimits_zero : AgentLimits := mkAgentLimits 0 0 0 0 0 [] [] None false.
Definition decode_limits (text : string) : result (option AgentLimits) :=
  v ← json_parse text;
  match v with
  | JNull => Ok None
  | _ =>
    l ← httpapi.unmarshal_struct ["requests_per_minute"; "burst"; "max_concurrent"; "max_response_bytes"; "daily_bytes"; "allowed_cidrs";
        "read_media_types"; "capabilities"; "request_deletes"]
      (λ acc name v,
        if name =s "requests_per_minute" then x ← decode_int (RequestsPerMinute acc) v; Ok (acc <| RequestsPerMinute := x |>)
        else if name =s "burst" then x ← decode_int (Burst acc) v; Ok (acc <| Burst := x |>)
        else if name =s "max_concurrent" then x ← decode_int (MaxConcurrent acc) v; Ok (acc <| MaxConcurrent := x |>)
        else if name =s "max_response_bytes" then x ← decode_int (MaxResponseBytes acc) v; Ok (acc <| MaxResponseBytes := x |>)
        else if name =s "daily_bytes" then x ← decode_int (DailyBytes acc) v; Ok (acc <| DailyBytes := x |>)
        else if name =s "allowed_cidrs" then x ← decode_list decode_string "" (AllowedCIDRs acc) v; Ok (acc <| AllowedCIDRs := x |>)
        else if name =s "read_media_types" then x ← decode_list decode_string "" (ReadMediaTypes acc) v; Ok (acc <| ReadMediaTypes := x |>)
        else if name =s "capabilities" then
          match v with
          | JNull => Ok (acc <| Limits_Capabilities := None |>)
          | _ => x ← decode_list decode_string "" (default [] (Limits_Capabilities acc)) v; Ok (acc <| Limits_Capabilities := Some x |>)
          end
        else x ← httpapi.decode_bool (RequestDeletes acc) v; Ok (acc <| RequestDeletes := x |>)) AgentLimits_zero v;
    Ok (Some l)
  end.

(** * Service accounts *)

Definition scanServiceAccount (row : string * account_row) : ServiceAccount :=
  let '(id, r) := row in
  mkServiceAccount (a_kind r) id (a_name r) (a_description r) (negb (a_enabled r =? 0)) (Parse_or_zero (a_created r)) (Parse_or_zero (a_updated r)).
Definition account_by (id : string) (d : database) : option ServiceAccount := (λ r, scanServiceAccount (id, r)) <$> service_accounts d !! id.
Definition SearchServiceAccounts (q : string) : tx database (list ServiceAccount) :=
  rows ← query (λ d, order_by (λ row, a_name row.2) (rows_where (λ _ r, searched q [a_name r; a_description r]) (service_accounts d)));
  mret (scanServiceAccount <$> rows).
Definition ListServiceAccounts : tx database (list ServiceAccount) := SearchServiceAccounts "".
Definition GetServiceAccount (id : string) : tx database ServiceAccount := query_row ErrNotFound (account_by id).
Definition CreateServiceAccount (account : ServiceAccount) : list bool → database → result () * database :=
  let kind := if Account_Kind account =s "" then "automation" else Account_Kind account in
  if (kind ≠s "automation") && (kind ≠s "agent") then λ _ d, (Err ErrConflict, d) else
  let r := mkAccountRow (Account_Name account) (Account_Description account) (boolInt (Account_Enabled account))
             (Format (Account_CreatedAt account)) (Format (Account_UpdatedAt account)) kind in
  transaction (
    insert_row service_accounts ErrConflict (unique_value service_accounts a_name (Account_ID account) r) always (Account_ID account) r ≫= λ _,
    if kind =s "agent" then raise_version "1" else mret ()).
Definition UpdateServiceAccount (account : ServiceAccount) : list bool → database → result () * database :=
  single (attempt (λ d,
    match service_accounts d !! Account_ID account with
    | None => Err ErrNotFound
    | Some r =>
      let r := r <| a_name := Account_Name account |> <| a_description := Account_Description account |>
                 <| a_enabled := boolInt (Account_Enabled account) |> <| a_updated := Format (Account_UpdatedAt account) |> in
      if unique_value service_accounts a_name (Account_ID account) r d
      then Ok ((), d <| service_accounts := <[Account_ID account := r]> (service_accounts d) |>) else Err ErrConflict
    end)).
Definition DeleteServiceAccount (id : string) : list bool → database → result () * database :=
  transaction (
    delete_rows policy_assignments (λ k _, (k.2.1 =s "service_account") && (k.2.2 =s id)) ≫= λ _,
    delete_rows temporary_assignments (λ k _, (k.2.1 =s "service_account") && (k.2.2 =s id)) ≫= λ _,
    count ← delete_one service_accounts cascade_account id;
    not_found_unless count).

(** * Tokens *)

Definition is_workload (d : database) (token : string) : bool := row_exists workload_identities token d.
Definition CreateServiceAccountToken (token : ServiceAccountToken) (revokeExisting : bool) : list bool → database → result () * database :=
  let r := mkTokenRow (Token_ServiceAccountID token) (Token_Name token) (TokenHash token) (nullableTime (Token_ExpiresAt token))
             (nullableTime (Token_LastUsedAt token)) (nullableTime (Token_RevokedAt token)) (Format (Token_CreatedAt token))
             (json_optional_limits (Token_AgentLimits token)) in
  transaction (
    all_exist service_accounts [Token_ServiceAccountID token] ≫= λ _,
    (if revokeExisting then
       exec (λ d, d <| service_account_tokens := map_imap (λ id r, Some
         (if (t_account r =s Token_ServiceAccountID token) && bool_decide (t_revoked r = None) && negb (is_workload d id)
          then r <| t_revoked := Some (Format (Token_CreatedAt token)) |> else r)) (service_account_tokens d) |>)
     else mret ()) ≫= λ _,
    (if match Token_AgentLimits token with Some l => RequestDeletes l | None => false end then raise_version "8" else mret ()) ≫= λ _,
    insert_row service_account_tokens ErrConflict (unique_value service_account_tokens t_hash (Token_ID token) r)
      (row_exists service_accounts (Token_ServiceAccountID token)) (Token_ID token) r).
Definition scanServiceAccountToken (row : string * token_row) : result ServiceAccountToken :=
  let '(id, r) := row in
  limits ← decode_limits (t_limits r);
  Ok (mkServiceAccountToken limits id (t_account r) (t_name r) (t_hash r) (parseNullableTime (t_expires r)) (parseNullableTime (t_used r))
    (parseNullableTime (t_revoked r)) (Parse_or_zero (t_created r))).
Definition ListServiceAccountTokens (accountID : string) : tx database (list ServiceAccountToken) :=
  GetServiceAccount accountID ≫= λ _,
  rows ← query (λ d, order_by_desc (λ row, t_created row.2)
    (rows_where (λ id r, (t_account r =s accountID) && negb (is_workload d id)) (service_account_tokens d)));
  lift (mapM scanServiceAccountToken rows).
(** A text that is no date, or a date that has passed, ends the credential. *)
Definition unexpired (expiry : option string) (now : time) : option (option time) :=
  match expiry with
  | None => Some None
  | Some text => match Parse text with Some t => if After t now then Some (Some t) else None | None => None end
  end.
Definition GetActiveServiceAccountToken (accountID tokenID : string) (now : time) : tx database ServiceAccountToken :=
  r ← query_row ErrNotFound (λ d, r ← service_account_tokens d !! tokenID; if t_account r =s accountID then Some r else None);
  if bool_decide (is_Some (t_revoked r)) then fail ErrNotFound else
  limits ← lift (decode_limits (t_limits r));
  match unexpired (t_expires r) now with
  | None => fail ErrNotFound
  | Some expiry => mret (mkServiceAccountToken limits tokenID accountID "" "" expiry None None zero_time)
  end.
(** The join of tokens and accounts. *)
Definition token_hashed (tokenHash : string) (d : database) : option (string * token_row * (string * account_row)) :=
  '(id, t) ← head (rows_where (λ _ t, (t_hash t =s tokenHash) && bool_decide (t_revoked t = None)
                     && match service_accounts d !! t_account t with Some a => a_enabled a =? 1 | None => false end) (service_account_tokens d));
  a ← service_accounts d !! t_account t;
  Some ((id, t), (t_account t, a)).
Definition AuthenticateServiceAccount (tokenHash : string) (now : time) : tx database (ServiceAccount * ServiceAccountToken) :=
  '((id, t), account) ← query_row ErrNotFound (token_hashed tokenHash);
  limits ← lift (decode_limits (t_limits t));
  match unexpired (t_expires t) now with
  | None => fail ErrNotFound
  | Some expiry =>
    ignoring (update_row service_account_tokens id (λ _ _, true) (λ r, r <| t_used := Some (Format now) |>) ≫= λ _, mret ()) ≫= λ _,
    mret (scanServiceAccount account,
      mkServiceAccountToken limits id (t_account t) (t_name t) (t_hash t) expiry (Some now) (parseNullableTime (t_revoked t)) (Parse_or_zero (t_created t)))
  end.
Definition RevokeServiceAccountToken (accountID tokenID : string) (now : time) : list bool → database → result () * database :=
  single (
    count ← update_row service_account_tokens tokenID (λ _ r, (t_account r =s accountID) && bool_decide (t_revoked r = None))
      (λ r, r <| t_revoked := Some (Format now) |>);
    not_found_unless count).
Definition UpdateAgentTokenLimits (accountID tokenID : string) (limits : AgentLimits) : list bool → database → result () * database :=
  single (
    count ← update_row service_account_tokens tokenID
      (λ d r, (t_account r =s accountID) && bool_decide (t_revoked r = None)
              && match service_accounts d !! accountID with Some a => a_kind a =s "agent" | None => false end)
      (λ r, r <| t_limits := json_limits limits |>);
    fail_when (negb (count =? 1)) ErrNotFound).
Definition DisableAgents (now : time) : list bool → database → result Z * database :=
  single (update_rows service_accounts (λ _ r, (a_kind r =s "agent") && (a_enabled r =? 1)) (λ r, r <| a_enabled := 0 |> <| a_updated := Format now |>)).

(** * Groups *)

Record AccessGroup := mkAccessGroup {
  Group_ID : string; Group_Name : string; Group_Description : string; Group_Enabled : bool; NodeIDs : list string; Group_PolicyIDs : list string;
  Group_CreatedAt : time; Group_UpdatedAt : time;
}.
Definition ServiceAccountGroupIDs (accountID : string) (activeOnly : bool) : tx database (list string) :=
  query (λ d, order_by (λ x, x) ((λ kv, kv.1.2) <$> rows_where (λ k _, (k.1 =s accountID)
    && (negb activeOnly || match access_groups d !! k.2 with Some g => g_enabled g =? 1 | None => false end)) (service_account_groups d))).
Definition SetServiceAccountGroups (accountID : string) (groupIDs : list string) (now : time) : list bool → database → result () * database :=
  transaction (
    all_exist service_accounts [accountID] ≫= λ _,
    all_exist access_groups (uniqueStrings groupIDs) ≫= λ _,
    delete_rows service_account_groups (λ k _, k.1 =s accountID) ≫= λ _,
    insert_each service_account_groups (λ k d, row_exists service_accounts k.1 d && row_exists access_groups k.2 d)
      ((λ id, ((accountID, id), Format now)) <$> uniqueStrings groupIDs)).
Definition AccessGroupNodeIDs (groupID : string) : tx database (list string) := query (λ d, values_of groupID (access_group_nodes d)).
Definition AccessGroupPolicyIDs (groupID : string) : tx database (list string) := query (λ d, values_of groupID (access_group_policies d)).
(** [scanAccessGroup] and [populateAccessGroup]. *)
Definition read_group (row : string * group_row) : tx database AccessGroup :=
  let '(id, r) := row in
  nodes ← AccessGroupNodeIDs id;
  policies ← AccessGroupPolicyIDs id;
  mret (mkAccessGroup id (g_name r) (g_description r) (negb (g_enabled r =? 0)) nodes policies (Parse_or_zero (g_created r)) (Parse_or_zero (g_updated r))).
Definition SearchAccessGroups (q : string) : tx database (list AccessGroup) :=
  rows ← query (λ d, order_by (λ row, g_name row.2) (rows_where (λ _ r, searched q [g_name r; g_description r]) (access_groups d)));
  each read_group rows.
Definition ListAccessGroups : tx database (list AccessGroup) := SearchAccessGroups "".
Definition GetAccessGroup (id : string) : tx database AccessGroup :=
  row ← query_row ErrNotFound (λ d, pair id <$> access_groups d !! id); read_group row.
Definition CreateAccessGroup (group : AccessGroup) : list bool → database → result () * database :=
  let r := mkGroupRow (Group_Name group) (Group_Description group) (boolInt (Group_Enabled group)) (Format (Group_CreatedAt group)) (Format (Group_UpdatedAt group)) in
  single (insert_row access_groups ErrConflict (unique_value access_groups g_name (Group_ID group) r) always (Group_ID group) r).
Definition UpdateAccessGroup (group : AccessGroup) : list bool → database → result () * database :=
  single (attempt (λ d,
    match access_groups d !! Group_ID group with
    | None => Err ErrNotFound
    | Some r =>
      let r := r <| g_name := Group_Name group |> <| g_description := Group_Description group |>
                 <| g_enabled := boolInt (Group_Enabled group) |> <| g_updated := Format (Group_UpdatedAt group) |> in
      if unique_value access_groups g_name (Group_ID group) r d
      then Ok ((), d <| access_groups := <[Group_ID group := r]> (access_groups d) |>) else Err ErrConflict
    end)).
Definition DeleteAccessGroup (id : string) : list bool → database → result () * database :=
  transaction (
    delete_rows service_account_groups (λ k _, k.2 =s id) ≫= λ _,
    count ← delete_one access_groups cascade_group id;
    not_found_unless count).
(** What SetAccessGroupNodes and SetAccessGroupPolicies have in common. *)
Definition set_group {V : Type} (get : database → gmap (string * string) string) `{!Setter get} (members : database → gmap string V)
    (groupID : string) (ids : list string) (now : time) : tx database () :=
  all_exist access_groups [groupID] ≫= λ _,
  all_exist members (uniqueStrings ids) ≫= λ _,
  delete_rows get (λ k _, k.1 =s groupID) ≫= λ _,
  insert_each get (λ k d, row_exists access_groups k.1 d && row_exists members k.2 d) ((λ id, ((groupID, id), Format now)) <$> uniqueStrings ids) ≫= λ _,
  update_row access_groups groupID (λ _ _, true) (λ r, r <| g_updated := Format now |>) ≫= λ _, mret ().
Definition SetAccessGroupNodes (groupID : string) (nodeIDs : list string) (now : time) : list bool → database → result () * database :=
  transaction (set_group access_group_nodes nodes groupID nodeIDs now).
Definition SetAccessGroupPolicies (groupID : string) (policyIDs : list string) (now : time) : list bool → database → result () * database :=
  transaction (set_group access_group_policies cdb.policies groupID policyIDs now).
Definition NodeInAccessGroup (groupID nodeID : string) : tx database bool := query (row_exists access_group_nodes (groupID, nodeID)).

(** * Workload identities *)

Definition IsControl (r : Z) : bool := (r <? 32) || ((127 <=? r) && (r <? 160)).
Definition validWorkloadField (value : string) (empty : bool) (max : Z) : bool :=
  if value =s "" then empty else
  negb ((max <? len value) || negb (ValidString value) || (TrimSpace value ≠s value) || existsb (λ rw, IsControl rw.1) (runes value)).
Definition workload_key (r : workload_row) : string * string * string * string := (w_provider r, w_issuer r, w_subject r, w_audience r).
Definition workload_audit (actorID actorType action id correlationID stamp : string) : auditRecord :=
  mkAuditRecord actorID actorType action ("workload-identities/" +++ id) "allowed" correlationID stamp "" "" "" "" "".
Definition CreateWorkloadIdentity (identity : WorkloadIdentity) (limits : option AgentLimits) (actorID actorType correlationID : string) (now : time)
    : list bool → database → result () * database :=
  if negb (validWorkloadField (Identity_CredentialID identity) false 128) || ContainsAny (Identity_CredentialID identity) "/\:"
     || negb (validWorkloadField (Identity_ServiceAccountID identity) false 128) || negb (validWorkloadField (Identity_ProviderID identity) false 128)
     || negb (validWorkloadField (Identity_Issuer identity) true 2048) || negb (validWorkloadField (Identity_Subject identity) false 2048)
     || negb (validWorkloadField (Identity_Audience identity) false 2048)
  then λ _ d, (Err ErrConflict, d) else
  let id := Identity_CredentialID identity in
  let stamp := Format now in
  let t := mkTokenRow (Identity_ServiceAccountID identity) "workload identity" ("workload:" +++ id) None None None stamp (json_optional_limits limits) in
  let w := mkWorkloadRow (Identity_ProviderID identity) (Identity_Issuer identity) (Identity_Subject identity) (Identity_Audience identity) 1 stamp stamp in
  transaction (
    account ← query_row ErrNotFound (λ d, service_accounts d !! Identity_ServiceAccountID identity);
    fail_when (a_enabled account =? 0) ErrConflict ≫= λ _,
    insert_row service_account_tokens ErrConflict (unique_value service_account_tokens t_hash id t)
      (row_exists service_accounts (Identity_ServiceAccountID identity)) id t ≫= λ _,
    insert_row workload_identities ErrConflict (unique_value workload_identities workload_key id w) (row_exists service_account_tokens id) id w ≫= λ _,
    raise_version "4" ≫= λ _,
    audit_tx (appendAuditTx (workload_audit actorID actorType "create_workload_identity" id correlationID stamp) "")).
Definition parsed (text : string) : result time := match Parse text with Some t => Ok t | None => Err (errors_New "parsing time") end.
(** The join of identities, tokens and accounts. *)
Definition active_workload (provider issuer subject audience : string) (d : database) : option (string * workload_row * token_row) :=
  '(id, w) ← head (rows_where (λ id w, bool_decide (workload_key w = (provider, issuer, subject, audience)) && (w_enabled w =? 1)
      && match service_account_tokens d !! id with
         | Some t => bool_decide (t_revoked t = None) && match service_accounts d !! t_account t with Some a => a_enabled a =? 1 | None => false end
         | None => false
         end) (workload_identities d));
  t ← service_account_tokens d !! id;
  Some (id, w, t).
Definition ActiveWorkloadIdentity (provider issuer subject audience : string) (now : time) : tx database WorkloadIdentity :=
  '(id, w, t) ← query_row ErrNotFound (active_workload provider issuer subject audience);
  match unexpired (t_expires t) now with
  | None => fail ErrNotFound
  | Some _ =>
    created ← lift (parsed (w_created w));
    updated ← lift (parsed (w_updated w));
    mret (mkWorkloadIdentity None id (t_account t) (w_provider w) (w_issuer w) (w_subject w) (w_audience w) (negb (w_enabled w =? 0)) false created updated)
  end.
(** [or_not_found m]: any error of [m] becomes ErrNotFound. *)
Definition or_not_found {A} (m : tx database A) : tx database A := λ s, match m s with Ok r => Ok r | Err _ => Err ErrNotFound end.
Definition AuthenticateWorkloadIdentity (provider issuer subject audience : string) (assertionExpiry now wall : time)
    : tx database (ServiceAccount * ServiceAccountToken) :=
  if negb (After assertionExpiry now) then fail ErrNotFound else
  identity ← ActiveWorkloadIdentity provider issuer subject audience wall;
  account ← or_not_found (GetServiceAccount (Identity_ServiceAccountID identity));
  if negb (Account_Enabled account) then fail ErrNotFound else
  row ← query_row ErrNotFound (λ d, r ← service_account_tokens d !! Identity_CredentialID identity;
    if t_account r =s Account_ID account then Some (Identity_CredentialID identity, r) else None);
  token ← lift (scanServiceAccountToken row);
  current ← or_not_found (ActiveWorkloadIdentity provider issuer subject audience wall);
  if (Identity_CredentialID current ≠s Identity_CredentialID identity) || (Identity_ServiceAccountID current ≠s Account_ID account) then fail ErrNotFound else
  let deadline := match Token_ExpiresAt token with Some e => if Before e assertionExpiry then e else assertionExpiry | None => assertionExpiry end in
  mret (account, mkServiceAccountToken (Token_AgentLimits token) (Token_ID token) (Token_ServiceAccountID token) (Token_Name token) (TokenHash token)
    (Some deadline) (Token_LastUsedAt token) (Token_RevokedAt token) (Token_CreatedAt token)).
Definition SetWorkloadIdentityEnabled (accountID id : string) (enabled : bool) (actorID actorType correlationID : string) (now : time)
    : list bool → database → result () * database :=
  transaction (
    count ← update_row workload_identities id
      (λ d _, match service_account_tokens d !! id with Some t => t_account t =s accountID | None => false end)
      (λ r, r <| w_enabled := boolInt enabled |> <| w_updated := Format now |>);
    fail_when (negb (count =? 1)) ErrNotFound ≫= λ _,
    audit_tx (appendAuditTx (workload_audit actorID actorType (if enabled then "enable_workload_identity" else "disable_workload_identity") id
      correlationID (Format now)) "")).
Definition scanWorkloadIdentity (row : string * (workload_row * token_row)) : result WorkloadIdentity :=
  let '(id, (w, t)) := row in
  created ← parsed (w_created w);
  updated ← parsed (w_updated w);
  limits ← decode_limits (t_limits t);
  Ok (mkWorkloadIdentity limits id (t_account t) (w_provider w) (w_issuer w) (w_subject w) (w_audience w) (negb (w_enabled w =? 0))
    (bool_decide (is_Some (t_revoked t))) created updated).
(** workload_identities JOIN service_account_tokens, for one account. *)
Definition account_workloads (accountID : string) (d : database) : list (string * (workload_row * token_row)) :=
  omap (λ row, t ← service_account_tokens d !! row.1; if t_account t =s accountID then Some (row.1, (row.2, t)) else None) (map_to_list (workload_identities d)).
Definition GetWorkloadIdentity (accountID id : string) : tx database WorkloadIdentity :=
  row ← query_row ErrNotFound (λ d, head (filter (λ row, row.1 = id) (account_workloads accountID d)));
  lift (scanWorkloadIdentity row).
Definition ListWorkloadIdentities (accountID : string) : tx database (list WorkloadIdentity) :=
  GetServiceAccount accountID ≫= λ _,
  rows ← query (λ d, order_by (λ row, w_created row.2.1) (order_by fst (account_workloads accountID d)));
  lift (mapM scanWorkloadIdentity rows).

(** * Quotas of agents *)

Definition ErrAgentQuota : error := errors_New "agent daily quota exhausted".
Definition usage (tokenID day : string) (d : database) : Z := default 0 (agent_usage d !! (tokenID, day)).
Definition ReserveAgentBytes (tokenID day : string) (requested daily : Z) : list bool → database → result Z * database :=
  transaction (
    upsert_row agent_usage (default 0) (row_exists service_account_tokens tokenID) (tokenID, day) ≫= λ _,
    charged ← query (usage tokenID day);
    let remaining := i64 (daily - charged) in
    fail_when (remaining <? 1024) ErrAgentQuota ≫= λ _,
    let requested := if remaining <? requested then remaining else requested in
    changed ← update_row agent_usage (tokenID, day) (λ _ charged, charged + requested <=? daily) (λ charged, charged + requested);
    fail_when (negb (changed =? 1)) ErrAgentQuota ≫= λ _,
    mret requested).
Definition RefundAgentBytes (tokenID day : string) (amount : Z) : list bool → database → result () * database :=
  if amount <=? 0 then λ _ d, (Ok (), d) else
  single (update_row agent_usage (tokenID, day) (λ _ _, true) (λ charged, Z.max 0 (charged - amount)) ≫= λ _, mret ()).
Definition AgentUsage (tokenID day : string) : tx database Z := query (usage tokenID day).

End Accounts.
End accounts.
