(* ===== verification/ControlNodes.v ===== *)
(** Registered nodes, the connections between them, the rotation of their tokens,
    the metadata of the database and the shares (control/internal/store/store.go,
    shares.go). [now] is the time.Now() of a call. *)
From S2P Require Import Prelude GoLib Base64 Json Entities SignedAuth GoTime ControlStore Sql AuditChain ControlDb ControlPolicies.
From stdpp Require Import options.
Import store cdb audit policies.
Local Open Scope Z_scope.
Local Open Scope go_scope.

Module nodes.
Section Nodes.
Context {U : Unicode} {C : Crypto}.

(** * Nodes *)

Record Node := mkNode {
  Node_ID : string; Node_Name : string; Node_Endpoint : string; TokenEncrypted : string; Node_State : string; LastSeenAt : option time;
  Node_CreatedAt : time; Node_UpdatedAt : time;
}.
(** A date of [last_seen_at] that can not be read is the zero time. *)
Definition scanNode (row : string * node_row) : Node :=
  let '(id, r) := row in
  mkNode id (n_name r) (n_endpoint r) (n_token r) (n_state r) (Parse_or_zero <$> n_seen r) (Parse_or_zero (n_created r)) (Parse_or_zero (n_updated r)).
Definition ListNodes : tx database (list Node) :=
  rows ← query (λ d, order_by (λ row, n_name row.2) (map_to_list (cdb.nodes d))); mret (scanNode <$> rows).
Definition GetNode (id : string) : tx database Node := query_row ErrNotFound (λ d, (λ r, scanNode (id, r)) <$> cdb.nodes d !! id).
Definition SaveNode (node : Node) : list bool → database → result () * database :=
  let r := mkNodeRow (Node_Name node) (Node_Endpoint node) (TokenEncrypted node) (Node_State node) (nullableTime (LastSeenAt node))
             (Format (Node_CreatedAt node)) (Format (Node_UpdatedAt node)) in
  single (attempt (λ d,
    let r := match cdb.nodes d !! Node_ID node with None => r | Some old => r <| n_created := n_created old |> end in
    if unique_value cdb.nodes n_endpoint (Node_ID node) r d then Ok ((), d <| cdb.nodes := <[Node_ID node := r]> (cdb.nodes d) |>) else Err err_constraint)).
Definition UpdateNodeToken (nodeID encryptedToken : string) (updatedAt : time) : list bool → database → result () * database :=
  single (
    count ← update_row cdb.nodes nodeID (λ _ _, true) (λ r, r <| n_token := encryptedToken |> <| n_updated := Format updatedAt |>);
    not_found_unless count).
Definition UpdateNodeState (id state : string) (seen : option time) (now : time) : list bool → database → result Z * database :=
  single (update_row cdb.nodes id (λ _ _, true) (λ r, r <| n_state := state |> <| n_seen := nullableTime seen |> <| n_updated := Format now |>)).
Definition involves (id : string) (r : connection_row) : bool := (c_issuer r =s id) || (c_target r =s id).
Definition DeleteNode (id : string) : list bool → database → result () * database :=
  transaction (
    all_exist cdb.nodes [id] ≫= λ _,
    delete_rows connections (λ _ r, involves id r) ≫= λ _,
    count ← delete_one cdb.nodes cascade_node id;
    not_found_unless count).
Definition EmergencyReplaceNodeToken (nodeID encryptedToken correlationID : string) (now : time) : list bool → database → result Node * database :=
  if (TrimSpace nodeID =s "") || (encryptedToken =s "") || (correlationID =s "")
  then λ _ d, (Err (errors_New "node ID, encrypted token, and correlation ID are required"), d) else
  transaction (
    count ← update_row cdb.nodes nodeID (λ _ _, true)
      (λ r, r <| n_token := encryptedToken |> <| n_state := "unknown" |> <| n_seen := None |> <| n_updated := Format now |>);
    not_found_unless count ≫= λ _,
    let path := "control-tower/nodes/" +++ nodeID +++ "/token" in
    audit_tx (appendAuditTx (mkAuditRecord nodeID "recovery" "recover_node_token" path "allowed" correlationID (Format now) "" path "sudo" "" "") "") ≫= λ _,
    node ← GetNode nodeID;
    mret (mkNode (Node_ID node) (Node_Name node) (Node_Endpoint node) "" (Node_State node) (LastSeenAt node) (Node_CreatedAt node) (Node_UpdatedAt node))).

(** * The rotation of a node's token *)

Definition BeginNodeTokenRotation (id candidate : string) (now : time) : list bool → database → result (string * bool) * database :=
  transaction (
    existed ← attempt (λ d,
      if row_exists token_rotations id d then Ok (true, d)
      else if negb (row_exists cdb.nodes id d) then Err err_constraint
      else Ok (false, d <| token_rotations := <[id := (candidate, Format now)]> (token_rotations d) |>));
    stored ← query_row err_sql (λ d, fst <$> token_rotations d !! id);
    mret (stored, existed)).
Definition FinishNodeTokenRotation (id candidate : string) (now : time) : list bool → database → result () * database :=
  transaction (
    stored ← query_row err_sql (λ d, fst <$> token_rotations d !! id);
    fail_when (stored ≠s candidate) ErrConflict ≫= λ _,
    update_row cdb.nodes id (λ _ _, true) (λ r, r <| n_token := candidate |> <| n_updated := Format now |>) ≫= λ _,
    delete_rows token_rotations (λ k r, (k =s id) && (r.1 =s candidate)) ≫= λ _, mret ()).

(** * Connections *)

Record Connection := mkConnection {
  RequestID : string; InviteID : string; IssuerNodeID : string; TargetNodeID : string; InviteTokenEncrypted : string; IssuerFingerprint : string;
  Status : string; Connection_ExpiresAt : time; Connection_CreatedAt : time; Connection_UpdatedAt : time;
}.
Definition scanConnection (row : string * connection_row) : Connection :=
  let '(id, r) := row in
  mkConnection id (c_invite r) (c_issuer r) (c_target r) (c_token r) (c_fingerprint r) (c_status r) (Parse_or_zero (c_expires r))
    (Parse_or_zero (c_created r)) (Parse_or_zero (c_updated r)).
Definition SaveConnection (c : Connection) : list bool → database → result () * database :=
  let r := mkConnectionRow (InviteID c) (IssuerNodeID c) (TargetNodeID c) (InviteTokenEncrypted c) (IssuerFingerprint c) (Status c)
             (Format (Connection_ExpiresAt c)) (Format (Connection_CreatedAt c)) (Format (Connection_UpdatedAt c)) in
  single (insert_row connections err_constraint (unique_value connections c_invite (RequestID c) r)
    (λ d, row_exists cdb.nodes (IssuerNodeID c) d && row_exists cdb.nodes (TargetNodeID c) d) (RequestID c) r).
Definition GetConnection (requestID : string) : tx database Connection :=
  query_row ErrNotFound (λ d, (λ r, scanConnection (requestID, r)) <$> connections d !! requestID).
Definition newest_connections (cond : connection_row → bool) : tx database (list Connection) :=
  rows ← query (λ d, order_by_desc (λ row, c_created row.2) (rows_where (λ _ r, cond r) (connections d)));
  mret (scanConnection <$> rows).
Definition ListConnections : tx database (list Connection) := newest_connections (λ _, true).
Definition ConnectionsForNode (nodeID : string) : tx database (list Connection) := newest_connections (involves nodeID).
Definition UpdateConnectionStatus (requestID status : string) (now : time) : list bool → database → result () * database :=
  single (
    count ← update_row connections requestID (λ _ _, true) (λ r, r <| c_status := status |> <| c_updated := Format now |>);
    not_found_unless count).

(** * Metadata *)

Definition Metadata (key : string) : tx database string := query_row ErrNotFound (λ d, metadata d !! key).
Definition SetMetadata (key value : string) : list bool → database → result () * database :=
  single (upsert_row metadata (λ _, value) always key).
(** [strconv.Atoi] on what a version can be: an optional sign and digits. *)
Definition Atoi (s : string) : option Z :=
  match s with
  | String c s' => if c =s "-"%char then Z.opp <$> ParseUint s' else if c =s "+"%char then ParseUint s' else ParseUint s
  | "" => None
  end.
(** Whether the database may be opened by a program of a version, and by this one. *)
Definition opens_with (supported : Z) (d : database) : bool :=
  match metadata d !! version_key with
  | None => true
  | Some raw => match Atoi raw with Some version => (1 <=? version) && (version <=? supported) | None => false end
  end.
Definition checkSecurityVersion : database → bool := opens_with supportedSecurityVersion.

(** * Shares *)

Definition ErrShareExhausted : error := errors_New "share is no longer available".
Definition share_row_of (s : Share) (byType : string) : share_row :=
  mkShareRow (Share_TokenHash s) (Share_NodeID s) (Share_MountID s) (Share_Path s) (Share_Kind s) (Share_Name s) (Share_PasswordHash s)
    (boolInt (AllowArchive s)) (MaxDownloads s) (DownloadCount s) (CreatedBy s) byType (CreatedCredentialID s) (Format (Share_CreatedAt s))
    (nullableTime (Share_ExpiresAt s)) (nullableTime (Share_RevokedAt s)) (nullableTime (LastAccessAt s)).
Definition CreateShare (s : Share) : list bool → database → result () * database :=
  let byType := if CreatedByType s =s "" then "user" else CreatedByType s in
  if (byType ≠s "user") && (byType ≠s "service_account") || (byType =s "service_account") && (CreatedCredentialID s =s "")
     || (byType =s "user") && (CreatedCredentialID s ≠s "")
  then λ _ d, (Err (errors_New "invalid share creator identity"), d) else
  let r := share_row_of s byType in
  transaction (
    (if byType =s "service_account" then raise_version "3" else mret ()) ≫= λ _,
    insert_row shares err_constraint (unique_value shares s_hash (Share_ID s) r) always (Share_ID s) r).
(** A date that can not be read is an error for the first two, and none for the last. *)
Definition read_time (text : option string) : result (option time) :=
  match text with
  | None => Ok None
  | Some text => match Parse text with Some t => Ok (Some t) | None => Err (errors_New "parsing time") end
  end.
Definition scanShare (row : string * share_row) : result Share :=
  let '(id, r) := row in
  expires ← read_time (s_expires r);
  revoked ← read_time (s_revoked r);
  Ok (mkShare id (s_hash r) (s_node r) (s_mount r) (s_path r) (s_kind r) (s_name r) (s_password r) (s_password r ≠s "") (negb (s_archive r =? 0)) (s_max r) (s_count r)
    (s_by r) (s_by_type r) (s_credential r) (Parse_or_zero (s_created r)) expires revoked (parseNullableTime (s_access r))).
Definition ShareByTokenHash (tokenHash : string) : tx database Share :=
  row ← query_row ErrNotFound (λ d, head (rows_where (λ _ r, s_hash r =s tokenHash) (shares d))); lift (scanShare row).
Definition GetShare (id : string) : tx database Share := row ← query_row ErrNotFound (λ d, pair id <$> shares d !! id); lift (scanShare row).
Definition ListShares (createdBy actorType : string) : tx database (list Share) :=
  rows ← query (λ d, order_by_desc (λ row, s_created row.2)
    (rows_where (λ _ r, (createdBy =s "") || (s_by r =s createdBy) && (s_by_type r =s actorType)) (shares d)));
  lift (mapM scanShare rows).
Definition RevokeShare (id : string) (now : time) : list bool → database → result () * database :=
  single (
    count ← update_row shares id (λ _ r, bool_decide (s_revoked r = None)) (λ r, r <| s_revoked := Some (Format now) |>);
    not_found_unless count).
Definition DeleteShare (id : string) : list bool → database → result Z * database := single (delete_rows shares (λ k _, k =s id)).
Definition RegisterShareDownload (id : string) (now : time) : list bool → database → result () * database :=
  single (
    expiry ← query_row ErrShareExhausted (λ d, s_expires <$> shares d !! id);
    fail_when (match expiry with Some text => match Parse text with Some deadline => negb (After deadline now) | None => true end | None => false end)
      ErrShareExhausted ≫= λ _,
    changed ← update_row shares id (λ _ r, bool_decide (s_revoked r = None) && bool_decide (s_expires r = expiry)
        && ((s_max r <=? 0) || (s_count r <? s_max r)))
      (λ r, r <| s_count := s_count r + 1 |> <| s_access := Some (Format now) |>);
    fail_when (changed =? 0) ErrShareExhausted).
Definition TouchShare (id : string) (now : time) : list bool → database → result Z * database :=
  single (update_row shares id (λ _ _, true) (λ r, r <| s_access := Some (Format now) |>)).
(** The deletions are statements of their own: an error leaves what the ones
    before it did. *)
Fixpoint purge_shares (expired : list (string * string)) (removed : Z) (faults : list bool) (d : database) : result Z * database :=
  match expired with
  | [] => (Ok removed, d)
  | (id, expiry) :: expired =>
    match delete_rows shares (λ k r, (k =s id) && bool_decide (s_expires r = Some expiry)) (faults, d) with
    | Err e => (Err e, d)
    | Ok (count, (faults, d)) => purge_shares expired (removed + count) faults d
    end
  end.
Definition PurgeExpiredShares (before : time) (faults : list bool) (d : database) : result Z * database :=
  match query (λ d, omap (λ row, text ← s_expires row.2; t ← Parse text; if Before t before then Some (row.1, text) else None) (map_to_list (shares d)))
          (faults, d) with
  | Err e => (Err e, d)
  | Ok (expired, (faults, _)) => purge_shares expired 0 faults d
  end.

End Nodes.
End nodes.
