(* ===== verification/ControlLinks.v ===== *)
(** The leases of a job as the Control Tower keeps them
    (control/internal/store/job_authorization_links.go): which actor and credential
    a job is bound to, the revision a node confirmed last and the envelope staged
    for the next one. *)
From S2P Require Import Prelude GoLib Base64 Json FileTypes Entities SignedAuth GoTime ControlStore ControlAccess Sql AuditChain ControlDb.
From stdpp Require Import options.
Import signedauth store cdb audit.
Local Open Scope Z_scope.
Local Open Scope go_scope.

Module links.
Section Links.
Context {U : Unicode} {C : Crypto}.

(** [security.Digest]. *)
Definition Digest (value : string) : string := RawURL_EncodeToString (sha256_Sum value).
Definition MaxInt64 : Z := 2 ^ 63 - 1.

Record JobAuthorizationLink := mkLink {
  Link_NodeID : string;
  Link_JobID : string;
  Link_ActorType : string;
  Link_ActorID : string;
  Link_CredentialID : string;
  CredentialDigest : string;
  Link_Binding : Binding;
  ConfirmedRevision : Z;
  ConfirmedDigest : string;
  ConfirmedExpiry : time;
  PendingRevision : Z;
  PendingEnvelope : string;
  PendingExpiry : time;
  Link_CreatedAt : time;
  Link_UpdatedAt : time;
}.
#[global] Instance JobAuthorizationLink_eta : Eta JobAuthorizationLink := λ l,
  mkLink (Link_NodeID l) (Link_JobID l) (Link_ActorType l) (Link_ActorID l) (Link_CredentialID l) (CredentialDigest l) (Link_Binding l)
    (ConfirmedRevision l) (ConfirmedDigest l) (ConfirmedExpiry l) (PendingRevision l) (PendingEnvelope l) (PendingExpiry l) (Link_CreatedAt l) (Link_UpdatedAt l).

Definition validCredentialDigest (value : string) : bool :=
  match RawURL_DecodeString value with Some decoded => len decoded =? 32 | None => false end.
Definition linkBindingOwnedByNode (binding : Binding) (nodeID : string) : bool :=
  if (Operation binding =s "transfer_pull_batch") || (Operation binding =s "transfer_move_batch")
  then DestinationNodeID binding =s nodeID else SourceNodeID binding =s nodeID.
Definition linkOperations : list string := ["delete"; "copy_local"; "move_local"; "transfer_pull_batch"; "transfer_move_batch"].
(** What the creation of a link and the reading of one check alike. *)
Definition link_owned (nodeID jobID actorID credentialID digest : string) (binding : Binding) : bool :=
  ValidKeyID nodeID && ValidKeyID jobID && ValidKeyID actorID && ValidKeyID credentialID && validCredentialDigest digest
  && (ActorID binding =s actorID) && (CredentialID binding =s credentialID) && (PlanID binding =s jobID)
  && linkBindingOwnedByNode binding nodeID && (RequestID binding =s "").

(** The credential a link names, if it is still good, with its expiry. *)
Definition session_expiry (digest actorID : string) (d : database) : option (option string) :=
  s ← sessions d !! digest;
  u ← users d !! se_user s;
  if (se_user s =s actorID) && (u_enabled u =? 1) then Some (Some (se_expires s)) else None.
Definition token_expiry (id digest actorID : string) (d : database) : option (option string) :=
  t ← service_account_tokens d !! id;
  a ← service_accounts d !! t_account t;
  if (t_hash t =s digest) && (t_account t =s actorID) && (a_enabled a =? 1) && (a_kind a =s "automation") && bool_decide (t_revoked t = None)
     && negb (row_exists workload_identities id d)
  then Some (t_expires t) else None.
Definition currentLinkedCredentialTx (link : JobAuthorizationLink) (now : time) : tx database (option time) :=
  expiry ← (
    if Link_ActorType link =s "user" then
      if negb (HasPrefix (Link_CredentialID link) "session-") || negb (validCredentialDigest (TrimPrefix (Link_CredentialID link) "session-"))
      then fail ErrNotFound
      else query_row ErrNotFound (session_expiry (CredentialDigest link) (Link_ActorID link))
    else if Link_ActorType link =s "service_account" then
      if negb (HasPrefix (Link_CredentialID link) "token-") then fail ErrNotFound else
      let id := TrimPrefix (Link_CredentialID link) "token-" in
      if negb (ValidKeyID id) then fail ErrNotFound
      else query_row ErrNotFound (token_expiry id (CredentialDigest link) (Link_ActorID link))
    else fail ErrNotFound);
  match expiry with
  | Some text => match Parse text with Some deadline => if After deadline now then mret (Some deadline) else fail ErrNotFound | None => fail ErrNotFound end
  | None => if Link_ActorType link =s "user" then fail ErrNotFound else mret None
  end.

Definition link_audit (link : JobAuthorizationLink) (nodeID jobID action stamp : string) : auditRecord :=
  mkAuditRecord (Link_ActorID link) (Link_ActorType link) action ("nodes/" +++ nodeID +++ "/jobs/" +++ jobID) "allowed" "" stamp "" "" "" "" "".
Definition unstaged (link : JobAuthorizationLink) : bool :=
  (ConfirmedRevision link =? 0) && (ConfirmedDigest link =s "") && IsZero (ConfirmedExpiry link) && (PendingRevision link =? 0)
  && (PendingEnvelope link =s "") && IsZero (PendingExpiry link).
Definition CreateJobAuthorizationLink (link : JobAuthorizationLink) (now : time) : list bool → database → result () * database :=
  if negb (link_owned (Link_NodeID link) (Link_JobID link) (Link_ActorID link) (Link_CredentialID link) (CredentialDigest link) (Link_Binding link))
     || IsZero now || negb (unstaged link)
  then λ _ d, (Err ErrConflict, d) else
  if negb (is_ok (JobLeaseBinding (Link_Binding link) 1)) || negb (Operation (Link_Binding link) ∈b linkOperations) then λ _ d, (Err ErrConflict, d) else
  let stamp := Format now in
  let r := mkLinkRow (Link_ActorType link) (Link_ActorID link) (Link_CredentialID link) (CredentialDigest link) (binding_json (Link_Binding link))
             0 "" 0 0 "" 0 stamp stamp in
  transaction (
    currentLinkedCredentialTx link now ≫= λ _,
    exists_ ← query (row_exists nodes (Link_NodeID link));
    fail_when (negb exists_) ErrNotFound ≫= λ _,
    insert_row job_links ErrConflict always (row_exists nodes (Link_NodeID link)) (Link_NodeID link, Link_JobID link) r ≫= λ _,
    raise_version (if JobOptionsDigest (Link_Binding link) ≠s "" then "6" else "5") ≫= λ _,
    audit_tx (appendAuditTx (link_audit link (Link_NodeID link) (Link_JobID link) "bind_job_authorization" stamp) "")).

Definition max_envelope : Z := 64 * 1024.
(** A row that can be a link. *)
Definition consistent_row (r : link_row) : bool :=
  (0 <=? k_confirmed r) && (0 <=? k_pending r)
  && (negb (k_confirmed r =? 0) || (k_confirmed_digest r =s "") && (k_confirmed_expiry r =? 0))
  && (negb (0 <? k_confirmed r) || validCredentialDigest (k_confirmed_digest r) && (0 <? k_confirmed_expiry r))
  && (negb (k_pending r =? 0) || (k_envelope r =s "") && (k_pending_expiry r =? 0))
  && (negb (0 <? k_pending r) || (k_pending r =? i64 (k_confirmed r + 1)) && (k_envelope r ≠s "") && (len (k_envelope r) <=? max_envelope) && (0 <? k_pending_expiry r)).
Definition expiry_of (ns : Z) : time := if ns =? 0 then zero_time else ns.
Definition readJobAuthorizationLink (row : (string * string) * link_row) : result JobAuthorizationLink :=
  let '((nodeID, jobID), r) := row in
  if negb (is_ok (filetypes.validateUniqueJSON (k_binding r))) then Err ErrConflict else
  match json_parse (k_binding r) ≫= decode_binding Binding_zero with
  | Err _ => Err ErrConflict
  | Ok binding =>
    if negb (link_owned nodeID jobID (k_actor r) (k_credential r) (k_digest r) binding)
       || (k_actor_type r ≠s "user") && (k_actor_type r ≠s "service_account") || negb (consistent_row r)
       || negb (is_ok (JobLeaseBinding binding 1)) || negb (Operation binding ∈b linkOperations)
    then Err ErrConflict else
    match Parse (k_created r), Parse (k_updated r) with
    | Some created, Some updated =>
      Ok (mkLink nodeID jobID (k_actor_type r) (k_actor r) (k_credential r) (k_digest r) binding (k_confirmed r) (k_confirmed_digest r)
        (expiry_of (k_confirmed_expiry r)) (k_pending r) (k_envelope r) (expiry_of (k_pending_expiry r)) created updated)
    | _, _ => Err (errors_New "parsing time")
    end
  end.
Definition read_link (nodeID jobID : string) : tx database JobAuthorizationLink :=
  row ← query_row ErrNotFound (λ d, pair (nodeID, jobID) <$> job_links d !! (nodeID, jobID));
  lift (readJobAuthorizationLink row).
Definition GetJobAuthorizationLink : string → string → tx database JobAuthorizationLink := read_link.

(** The expiry is stored as its nanoseconds, a 64-bit integer in the code (exact until
    the year 2262). *)
Definition StageJobAuthorization (nodeID jobID : string) (revision : Z) (envelope : string) (keys : gmap string string) (now : time)
    : list bool → database → result JobAuthorizationLink * database :=
  if (revision =? 0) || (MaxInt64 <? revision) || IsZero now then λ _ d, (Err ErrConflict, d) else
  transact (
    link ← read_link nodeID jobID;
    credentialExpiry ← currentLinkedCredentialTx link now;
    if negb (revision =? u64 (ConfirmedRevision link + 1)) then fail ErrConflict else
    match VerifyJobLease envelope keys (Link_Binding link) nodeID revision now with
    | Err _ => fail ErrConflict
    | Ok (claims, _) =>
      let expiry := of_Unix (ExpiresAt claims) in
      if match credentialExpiry with Some e => After expiry e | None => false end then fail ErrConflict else
      if negb (PendingRevision link =? 0) then
        if negb (PendingRevision link =? revision) || (PendingEnvelope link ≠s envelope) || negb (PendingExpiry link =? expiry)
        then fail ErrConflict else mret (rollback (Ok link))
      else
        changed ← update_row job_links (nodeID, jobID) (λ _ r, (k_confirmed r =? ConfirmedRevision link) && (k_pending r =? 0))
          (λ r, r <| k_pending := revision |> <| k_envelope := envelope |> <| k_pending_expiry := expiry |> <| k_updated := Format now |>);
        fail_when (negb (changed =? 1)) ErrConflict ≫= λ _,
        mret (commit (Ok (link <| PendingRevision := revision |> <| PendingEnvelope := envelope |> <| PendingExpiry := expiry |> <| Link_UpdatedAt := now |>)))
    end).

(** The UPDATE of a confirmation. *)
Definition confirm_row (revision : Z) (digest : string) (expiry : Z) (stamp : string) (r : link_row) : link_row :=
  r <| k_confirmed := revision |> <| k_confirmed_digest := digest |> <| k_confirmed_expiry := expiry |> <| k_pending := 0 |> <| k_envelope := "" |>
    <| k_pending_expiry := 0 |> <| k_updated := stamp |>.
Definition ConfirmJobAuthorization (nodeID jobID : string) (revision : Z) (envelopeDigest : string) (expiry now : time)
    : list bool → database → result () * database :=
  if (revision =? 0) || (MaxInt64 <? revision) || negb (validCredentialDigest envelopeDigest) || IsZero now then λ _ d, (Err ErrConflict, d) else
  transact (
    link ← read_link nodeID jobID;
    credentialExpiry ← currentLinkedCredentialTx link now;
    if match credentialExpiry with Some e => After expiry e | None => false end then fail ErrConflict else
    if (PendingRevision link =? 0) && (ConfirmedRevision link =? revision) && (ConfirmedDigest link =s envelopeDigest)
       && (ConfirmedExpiry link =? expiry) && After expiry now
    then mret (rollback (Ok ())) else
    if negb (PendingRevision link =? revision) || (PendingEnvelope link =s "") || (Digest (PendingEnvelope link) ≠s envelopeDigest)
       || negb (PendingExpiry link =? expiry) || negb (After expiry now) || negb (revision =? u64 (ConfirmedRevision link + 1))
    then fail ErrConflict else
    let stamp := Format now in
    changed ← update_row job_links (nodeID, jobID) (λ _ r, k_pending r =? revision) (confirm_row revision envelopeDigest expiry stamp);
    fail_when (negb (changed =? 1)) ErrConflict ≫= λ _,
    audit_tx (appendAuditTx (link_audit link nodeID jobID "confirm_job_authorization" stamp) "") ≫= λ _,
    mret (commit (Ok ()))).

Definition ResolveExpiredJobAuthorization (nodeID jobID : string) (revision : Z) (digest : string) (expiry now : time)
    : list bool → database → result () * database :=
  if IsZero now || (MaxInt64 <? revision) || (revision =? 0) && ((digest ≠s "") || negb (IsZero expiry))
     || (0 <? revision) && (negb (validCredentialDigest digest) || IsZero expiry)
  then λ _ d, (Err ErrConflict, d) else
  transaction (
    link ← read_link nodeID jobID;
    currentLinkedCredentialTx link now ≫= λ _,
    fail_when ((PendingRevision link =? 0) || After (PendingExpiry link) now) ErrConflict ≫= λ _,
    '(confirmedRevision, confirmedDigest, confirmedExpiryNS) ← lift (
      if (revision =? PendingRevision link) && (digest =s Digest (PendingEnvelope link)) && (expiry =? PendingExpiry link)
      then Ok (revision, digest, expiry)
      else if (revision =? ConfirmedRevision link) && (digest =s ConfirmedDigest link) && (expiry =? ConfirmedExpiry link)
      then Ok (ConfirmedRevision link, ConfirmedDigest link, if IsZero (ConfirmedExpiry link) then 0 else ConfirmedExpiry link)
      else Err ErrConflict);
    let stamp := Format now in
    changed ← update_row job_links (nodeID, jobID) (λ _ r, (k_confirmed r =? ConfirmedRevision link) && (k_pending r =? PendingRevision link))
      (confirm_row confirmedRevision confirmedDigest confirmedExpiryNS stamp);
    fail_when (negb (changed =? 1)) ErrConflict ≫= λ _,
    audit_tx (appendAuditTx (link_audit link nodeID jobID "resolve_expired_job_authorization" stamp) "")).

(** ORDER BY updated_at, job_id; a row that is no link is passed over. *)
Definition ListActiveJobAuthorizationLinks (limit : Z) : tx database (list JobAuthorizationLink) :=
  if (limit <=? 0) || (1000 <? limit) then fail ErrConflict else
  rows ← query (λ d, take (Z.to_nat limit) (order_by (λ row, k_updated row.2) (order_by (λ row, row.1.2)
    (rows_where (λ k _, bool_decide (job_finished d !! k = None)) (job_links d)))));
  mret (omap (λ row, match readJobAuthorizationLink row with Ok link => Some link | Err _ => None end) rows).

Definition FinishJobAuthorizationLink (nodeID jobID : string) (now : time) : list bool → database → result () * database :=
  if negb (ValidKeyID nodeID) || negb (ValidKeyID jobID) || IsZero now then λ _ d, (Err ErrConflict, d) else
  transaction (
    link ← read_link nodeID jobID;
    let stamp := Format now in
    inserted ← attempt (λ d,
      if row_exists job_finished (nodeID, jobID) d then Ok (false, d)
      else if negb (row_exists nodes nodeID d) then Err err_constraint
      else Ok (true, d <| job_finished := <[(nodeID, jobID) := stamp]> (job_finished d) |>));
    if inserted : bool then audit_tx (appendAuditTx (link_audit link nodeID jobID "finish_job_authorization" stamp) "") else mret ()).

Definition SaveJobAuthorizationScope (nodeID jobID scope : string) (now : time) : list bool → database → result () * database :=
  if negb (ValidKeyID nodeID) || negb (ValidKeyID jobID) || (len scope =? 0) || (max_envelope <? len scope) || negb (is_ok (json_parse scope)) || IsZero now
  then λ _ d, (Err ErrConflict, d) else
  transact (
    read_link nodeID jobID ≫= λ _,
    existing ← query (λ d, fst <$> job_scopes d !! (nodeID, jobID));
    match existing with
    | Some existing => if existing ≠s scope then fail ErrConflict else mret (rollback (Ok ()))
    | None =>
      insert_row job_scopes err_constraint always (row_exists nodes nodeID) (nodeID, jobID) (scope, Format now) ≫= λ _,
      mret (commit (Ok ()))
    end).
Definition GetJobAuthorizationScope (nodeID jobID : string) : tx database string := query_row ErrNotFound (λ d, fst <$> job_scopes d !! (nodeID, jobID)).

End Links.
End links.
