(* ===== verification/ControlEnroll.v ===== *)
(** Joining of nodes (control/internal/store/enrollment.go): tokens that let a node
    enroll once, the enrollments that wait for a person, and the nodes that are
    managed; and the objects of the certificate authority (pki.go), opaque here. *)
From S2P Require Import Prelude GoLib Base64 Json Entities SignedAuth GoTime ControlStore Sql AuditChain ControlDb ControlPolicies.
From stdpp Require Import options.
Import store cdb policies.
Local Open Scope Z_scope.
Local Open Scope go_scope.

Module enroll.

Definition EnrollmentPending : string := "pending".
Definition EnrollmentIssued : string := "issued".
Definition EnrollmentRejected : string := "rejected".
Definition EnrollmentExpired : string := "expired".
Definition EnrollmentLifetime : Z := 15 * minute.
Definition maxPendingEnroll : Z := 20.
Definition ErrTokenUsed : error := errors_New "join token already used".
Definition ErrTooManyEnrollments : error := errors_New "too many pending enrollments".

Record JoinToken := mkJoinToken {
  Join_ID : string; SecretHash : string; Join_NodeName : string; Approval : string; Join_CreatedBy : string; Join_CreatedAt : time; Join_ExpiresAt : time;
  UsedAt : option time; EnrollmentID : string;
}.
Record Enrollment := mkEnrollment {
  Enroll_ID : string; Enroll_TokenID : string; Enroll_State : string; Enroll_NodeName : string; Enroll_NodeID : string; NodeFingerprint : string;
  APIEndpoint : string; RemoteAddr : string; CSRPEM : string; CSRHash : string; OperationalEncrypted : string; PollHash : string; Enroll_DecidedBy : string;
  Enroll_Note : string; Response : string; Enroll_CreatedAt : time; Enroll_ExpiresAt : time; Enroll_DecidedAt : option time;
}.
#[global] Instance Enrollment_eta : Eta Enrollment := λ e,
  mkEnrollment (Enroll_ID e) (Enroll_TokenID e) (Enroll_State e) (Enroll_NodeName e) (Enroll_NodeID e) (NodeFingerprint e) (APIEndpoint e) (RemoteAddr e)
    (CSRPEM e) (CSRHash e) (OperationalEncrypted e) (PollHash e) (Enroll_DecidedBy e) (Enroll_Note e) (Response e) (Enroll_CreatedAt e) (Enroll_ExpiresAt e)
    (Enroll_DecidedAt e).
Record ManagedNode := mkManagedNode {
  Managed_NodeID : string; EnrolledAt : time; BundleVersion : Z; CertSerial : string; CertNotBefore : time; CertNotAfter : time; CertFingerprint : string;
  CertIssuer : string; AuthMode : string; LastError : string; LastErrorAt : option time;
}.

Definition parseTimePtr (value : string) : option time := if value =s "" then None else Some (Parse_or_zero value).

(** * Tokens *)

Definition scan_join (row : string * join_row) : JoinToken :=
  let '(id, r) := row in
  mkJoinToken id (j_hash r) (j_name r) (j_approval r) (j_by r) (Parse_or_zero (j_created r)) (Parse_or_zero (j_expires r)) (parseTimePtr (j_used r)) (j_enrollment r).
Definition CreateJoinToken (token : JoinToken) : list bool → database → result () * database :=
  let r := mkJoinRow (SecretHash token) (Join_NodeName token) (Approval token) (Join_CreatedBy token) (Format (Join_CreatedAt token))
             (Format (Join_ExpiresAt token)) "" "" in
  transaction (
    raise_version "10" ≫= λ _,
    insert_row join_tokens ErrConflict (unique_value join_tokens j_hash (Join_ID token) r) always (Join_ID token) r).
Definition newest {V} (column : V → string) (limit : Z) (rows : list (string * V)) : list (string * V) :=
  let rows := order_by_desc (λ row, column row.2) (order_by fst rows) in
  if limit <? 0 then rows else take (Z.to_nat limit) rows.
Definition ListJoinTokens (limit : Z) : tx database (list JoinToken) :=
  rows ← query (λ d, newest j_created limit (map_to_list (join_tokens d))); mret (scan_join <$> rows).
Definition RevokeJoinToken (id : string) : list bool → database → result () * database :=
  single (count ← delete_rows join_tokens (λ k r, (k =s id) && (j_used r =s "")); not_found_unless count).

(** * Enrollments *)

Definition enrollment_row_of (e : Enrollment) (tokenID : string) : enrollment_row :=
  mkEnrollmentRow tokenID (Enroll_State e) (Enroll_NodeName e) (Enroll_NodeID e) (NodeFingerprint e) (APIEndpoint e) (RemoteAddr e) (CSRPEM e) (CSRHash e)
    (OperationalEncrypted e) (PollHash e) (Enroll_DecidedBy e) (Enroll_Note e) (Response e) (Format (Enroll_CreatedAt e)) (Format (Enroll_ExpiresAt e)) "".
(** Dates are compared as texts. *)
Definition waits (now : time) (r : enrollment_row) : bool := (e_state r =s EnrollmentPending) && String.ltb (Format now) (e_expires r).
(** The token is spent, and ErrTokenUsed comes with the token that was. *)
Inductive started := Started (token : JoinToken) | Used (token : JoinToken).
Definition StartEnrollment (secretHash : string) (enrollment : Enrollment) (now : time) : list bool → database → result started * database :=
  transact (
    row ← query_row ErrNotFound (λ d, head (rows_where (λ _ r, j_hash r =s secretHash) (join_tokens d)));
    let token := scan_join row in
    if Join_NodeName token ≠s Enroll_NodeName enrollment then fail ErrNotFound else
    if j_used row.2 ≠s "" then mret (rollback (Ok (Used token))) else
    if negb (Before now (Join_ExpiresAt token)) then fail ErrNotFound else
    (if Enroll_State enrollment =s EnrollmentPending then
       pending ← query (λ d, Z.of_nat (size (filter (λ kv, waits now kv.2 = true) (enrollments d))));
       fail_when (maxPendingEnroll <=? pending) ErrTooManyEnrollments
     else mret ()) ≫= λ _,
    raise_version "10" ≫= λ _,
    insert_row enrollments err_constraint always always (Enroll_ID enrollment) (enrollment_row_of enrollment (Join_ID token)) ≫= λ _,
    update_row join_tokens (Join_ID token) (λ _ _, true) (λ r, r <| j_used := Format now |> <| j_enrollment := Enroll_ID enrollment |>) ≫= λ _,
    mret (commit (Ok (Started (mkJoinToken (Join_ID token) (SecretHash token) (Join_NodeName token) (Approval token) (Join_CreatedBy token)
      (Join_CreatedAt token) (Join_ExpiresAt token) (Some now) (Enroll_ID enrollment)))))).
Definition scanEnrollment (row : string * enrollment_row) : Enrollment :=
  let '(id, r) := row in
  mkEnrollment id (e_token r) (e_state r) (e_name r) (e_node r) (e_fingerprint r) (e_endpoint r) (e_remote r) (e_csr r) (e_csr_hash r) (e_operational r)
    (e_poll r) (e_by r) (e_note r) (e_response r) (Parse_or_zero (e_created r)) (Parse_or_zero (e_expires r)) (parseTimePtr (e_decided r)).
(** A pending one past its time reads as expired. *)
Definition read_enrollment (now : time) (row : string * enrollment_row) : Enrollment :=
  let e := scanEnrollment row in
  if (Enroll_State e =s EnrollmentPending) && negb (Before now (Enroll_ExpiresAt e)) then e <| Enroll_State := EnrollmentExpired |> else e.
Definition GetEnrollment (id : string) (now : time) : tx database Enrollment :=
  query_row ErrNotFound (λ d, (λ r, read_enrollment now (id, r)) <$> enrollments d !! id).
Definition ListEnrollments (state : string) (limit : Z) (now : time) : tx database (list Enrollment) :=
  rows ← query (λ d, newest e_created limit (rows_where (λ _ r, (state =s "") || (e_state r =s state)) (enrollments d)));
  mret (filter (λ e, (state =s "") || (Enroll_State e =s state) = true) (read_enrollment now <$> rows)).
Definition DecideEnrollment (id state by_ note response : string) (now : time) : list bool → database → result () * database :=
  single (
    count ← update_row enrollments id (λ _ r, waits now r)
      (λ r, r <| e_state := state |> <| e_by := by_ |> <| e_note := note |> <| e_response := response |> <| e_decided := Format now |>
              <| e_csr := if state =s EnrollmentIssued then "" else e_csr r |>);
    fail_when (count =? 0) ErrConflict).
Definition ReplacePollSecret (id hash : string) : list bool → database → result () * database :=
  single (update_row enrollments id (λ _ r, e_state r =s EnrollmentPending) (λ r, r <| e_poll := hash |>) ≫= λ _, mret ()).
Definition ExpireEnrollments (now : time) : list bool → database → result Z * database :=
  single (update_rows enrollments (λ _ r, (e_state r =s EnrollmentPending) && negb (String.ltb (Format now) (e_expires r)))
    (λ r, r <| e_state := EnrollmentExpired |> <| e_csr := "" |> <| e_operational := "" |> <| e_decided := Format now |>)).

(** * Managed nodes *)

Definition SaveManagedNode (node : ManagedNode) : list bool → database → result () * database :=
  let r := mkManagedRow (Format (EnrolledAt node)) (BundleVersion node) (CertSerial node) (Format (CertNotBefore node)) (Format (CertNotAfter node))
             (LastError node) (match LastErrorAt node with Some t => Format t | None => "" end) (CertFingerprint node) (CertIssuer node) (AuthMode node) in
  single (upsert_row managed_nodes (λ old, match old with None => r | Some old => r <| m_enrolled := m_enrolled old |> end)
    (row_exists nodes (Managed_NodeID node)) (Managed_NodeID node)).
Definition scan_managed (row : string * managed_row) : ManagedNode :=
  let '(id, r) := row in
  mkManagedNode id (Parse_or_zero (m_enrolled r)) (m_version r) (m_serial r) (Parse_or_zero (m_before r)) (Parse_or_zero (m_after r)) (m_fingerprint r)
    (m_issuer r) (m_mode r) (m_error r) (parseTimePtr (m_error_at r)).
Definition ListManagedNodes : tx database (list ManagedNode) :=
  rows ← query (λ d, order_by fst (map_to_list (managed_nodes d))); mret (scan_managed <$> rows).

(** * Objects of the certificate authority *)

Record PKIObject := mkPKIObject {
  PKI_ID : string; PKI_Kind : string; PKI_State : string; PKI_Serial : string; PKI_Fingerprint : string; PKI_Public : string; PKI_Secret : string;
  PKI_NotBefore : time; PKI_NotAfter : time; PKI_CreatedAt : time;
}.
Definition scan_pki (row : string * pki_row) : PKIObject :=
  let '(id, r) := row in
  mkPKIObject id (i_kind r) (i_state r) (i_serial r) (i_fingerprint r) (i_public r) (i_secret r) (Parse_or_zero (i_before r)) (Parse_or_zero (i_after r))
    (Parse_or_zero (i_created r)).
Definition ListPKIObjects : tx database (list PKIObject) :=
  rows ← query (λ d, order_by (λ row, i_created row.2) (order_by fst (map_to_list (pki_objects d)))); mret (scan_pki <$> rows).
(** What an INSERT leaves of a row that is there: its state, its two parts and its end. *)
Definition put_pki (object : PKIObject) (old : option pki_row) : pki_row :=
  let r := mkPkiRow (PKI_Kind object) (PKI_State object) (PKI_Serial object) (PKI_Fingerprint object) (PKI_Public object) (PKI_Secret object)
             (Format (PKI_NotBefore object)) (Format (PKI_NotAfter object)) (Format (PKI_CreatedAt object)) in
  match old with
  | None => r
  | Some old => old <| i_state := i_state r |> <| i_public := i_public r |> <| i_secret := i_secret r |> <| i_after := i_after r |>
  end.
Fixpoint remove_objects (ids : list string) : tx database () :=
  match ids with [] => mret () | id :: ids => delete_rows pki_objects (λ k _, k =s id) ≫= λ _, remove_objects ids end.
Fixpoint put_objects (objects : list PKIObject) : tx database () :=
  match objects with [] => mret () | o :: objects => upsert_row pki_objects (put_pki o) always (PKI_ID o) ≫= λ _, put_objects objects end.
Definition SavePKIObjects (put : list PKIObject) (remove : list string) : list bool → database → result () * database :=
  transaction (raise_version "9" ≫= λ _, remove_objects remove ≫= λ _, put_objects put).

End enroll.
