(* ===== verification/ControlIntents.v ===== *)
(** Copies a node is asked for with a signed envelope, kept before the node is
    contacted (control/internal/store/signed_copy_intents.go). *)
From S2P Require Import Prelude GoLib Base64 Json FileTypes Entities SignedAuth GoTime ControlStore ControlAccess Sql AuditChain ControlDb ControlLinks.
From stdpp Require Import options.
Import signedauth store cdb audit links.
Local Open Scope Z_scope.
Local Open Scope go_scope.

Module intents.
#[global] Instance JobOptions_eq_dec : EqDecision JobOptions.
Proof. solve_decision. Defined.
#[global] Instance JobOptions_eta : Eta JobOptions := λ o,
  Build_JobOptions (Overwrite o) (Recursive o) (ConflictPolicy o) (SourceChangePolicy o) (VerifyChecksum o) (BandwidthLimit o) (MaxParallelFiles o)
    (MaxParallelChunks o) (MaxAttempts o).

Record SignedCopyRequest := mkCopyRequest {
  cr_MountID : string; cr_Source : string; cr_Destination : string; cr_Overwrite : bool; cr_Recursive : bool; cr_ConflictPolicy : string;
  cr_SourceChangePolicy : string; cr_VerifyChecksum : bool; cr_BandwidthLimit : Z; cr_MaxParallelFiles : Z; cr_MaxParallelChunks : Z; cr_MaxAttempts : Z;
}.
#[global] Instance SignedCopyRequest_eta : Eta SignedCopyRequest := λ r,
  mkCopyRequest (cr_MountID r) (cr_Source r) (cr_Destination r) (cr_Overwrite r) (cr_Recursive r) (cr_ConflictPolicy r) (cr_SourceChangePolicy r)
    (cr_VerifyChecksum r) (cr_BandwidthLimit r) (cr_MaxParallelFiles r) (cr_MaxParallelChunks r) (cr_MaxAttempts r).
Definition CopyRequest_zero : SignedCopyRequest := mkCopyRequest "" "" "" false false "" "" false 0 0 0 0.
Definition JobOptions_zero : JobOptions := Build_JobOptions false false "" "" false 0 0 0 0.

Record SignedCopyIntent := mkIntent {
  in_Link : JobAuthorizationLink; in_IdempotencyKey : string; in_Request : SignedCopyRequest; in_Options : JobOptions; in_Envelope : string;
  in_Expiry : time; in_Accepted : bool;
}.
#[global] Instance SignedCopyIntent_eta : Eta SignedCopyIntent := λ i,
  mkIntent (in_Link i) (in_IdempotencyKey i) (in_Request i) (in_Options i) (in_Envelope i) (in_Expiry i) (in_Accepted i).

Section Intents.
Context {U : Unicode} {C : Crypto}.

Definition conflicts : list string := ["skip"; "overwrite"; "rename"; "fail"; "ask"; "checksum"].
Definition changes : list string := ["fail"; "retry"; "copy_anyway"].
Definition MatchesOptions (r : SignedCopyRequest) (o : JobOptions) : bool :=
  let conflict := ToLower (TrimSpace (cr_ConflictPolicy r)) in
  let conflict := if conflict =s "" then if cr_Overwrite r then "overwrite" else "fail" else conflict in
  if negb (conflict ∈b conflicts) then false else
  let change := ToLower (TrimSpace (cr_SourceChangePolicy r)) in
  let change := if change =s "" then "fail" else change in
  if negb (change ∈b changes) then false else
  Bool.eqb (cr_Overwrite r) (Overwrite o) && Bool.eqb (cr_Recursive r) (Recursive o) && (conflict =s ConflictPolicy o)
  && (change =s SourceChangePolicy o) && Bool.eqb (cr_VerifyChecksum r || (conflict =s "checksum")) (VerifyChecksum o)
  && (0 <=? cr_BandwidthLimit r) && (cr_BandwidthLimit r <=? 2 ^ 40) && (cr_BandwidthLimit r =? BandwidthLimit o)
  && (0 <=? cr_MaxParallelFiles r) && (cr_MaxParallelFiles r <=? 32) && (0 <? MaxParallelFiles o) && (MaxParallelFiles o <=? 32)
  && ((cr_MaxParallelFiles r =? 0) || (cr_MaxParallelFiles r =? MaxParallelFiles o))
  && (0 <=? cr_MaxParallelChunks r) && (cr_MaxParallelChunks r <=? 16) && (0 <? MaxParallelChunks o) && (MaxParallelChunks o <=? 16)
  && ((cr_MaxParallelChunks r =? 0) || (cr_MaxParallelChunks r =? MaxParallelChunks o))
  && (0 <? MaxAttempts o) && ((cr_MaxAttempts r <=? 0) || (cr_MaxAttempts r =? MaxAttempts o)).

(** * JSON *)

Definition request_json (r : SignedCopyRequest) : string :=
  json_object [Some (json_field "mount_id" (json_string (cr_MountID r))); Some (json_field "source_path" (json_string (cr_Source r)));
    Some (json_field "destination_path" (json_string (cr_Destination r))); Some (json_field "overwrite" (json_bool (cr_Overwrite r)));
    Some (json_field "recursive" (json_bool (cr_Recursive r))); Some (json_field "conflict_policy" (json_string (cr_ConflictPolicy r)));
    Some (json_field "source_change_policy" (json_string (cr_SourceChangePolicy r))); Some (json_field "verify_checksum" (json_bool (cr_VerifyChecksum r)));
    Some (json_field "bandwidth_limit_bytes_per_second" (json_int (cr_BandwidthLimit r))); Some (json_field "max_parallel_files" (json_int (cr_MaxParallelFiles r)));
    Some (json_field "max_parallel_chunks" (json_int (cr_MaxParallelChunks r))); Some (json_field "max_attempts" (json_int (cr_MaxAttempts r)))].
Definition options_fields : list string :=
  ["overwrite"; "recursive"; "conflict_policy"; "source_change_policy"; "verify_checksum"; "bandwidth_limit_bytes_per_second"; "max_parallel_files";
   "max_parallel_chunks"; "max_attempts"].
Definition decode_options (old : JobOptions) (v : json) : result JobOptions :=
  decode_struct options_fields (λ o name _ v,
    if name =s "overwrite" then x ← httpapi.decode_bool (Overwrite o) v; Ok (o <| Overwrite := x |>)
    else if name =s "recursive" then x ← httpapi.decode_bool (Recursive o) v; Ok (o <| Recursive := x |>)
    else if name =s "conflict_policy" then x ← decode_string (ConflictPolicy o) v; Ok (o <| ConflictPolicy := x |>)
    else if name =s "source_change_policy" then x ← decode_string (SourceChangePolicy o) v; Ok (o <| SourceChangePolicy := x |>)
    else if name =s "verify_checksum" then x ← httpapi.decode_bool (VerifyChecksum o) v; Ok (o <| VerifyChecksum := x |>)
    else if name =s "bandwidth_limit_bytes_per_second" then x ← decode_int (BandwidthLimit o) v; Ok (o <| BandwidthLimit := x |>)
    else if name =s "max_parallel_files" then x ← decode_int (MaxParallelFiles o) v; Ok (o <| MaxParallelFiles := x |>)
    else if name =s "max_parallel_chunks" then x ← decode_int (MaxParallelChunks o) v; Ok (o <| MaxParallelChunks := x |>)
    else x ← decode_int (MaxAttempts o) v; Ok (o <| MaxAttempts := x |>)) old v.
Definition decode_request (old : SignedCopyRequest) (v : json) : result SignedCopyRequest :=
  decode_struct (["mount_id"; "source_path"; "destination_path"] ++ options_fields) (λ r name _ v,
    if name =s "mount_id" then x ← decode_string (cr_MountID r) v; Ok (r <| cr_MountID := x |>)
    else if name =s "source_path" then x ← decode_string (cr_Source r) v; Ok (r <| cr_Source := x |>)
    else if name =s "destination_path" then x ← decode_string (cr_Destination r) v; Ok (r <| cr_Destination := x |>)
    else if name =s "overwrite" then x ← httpapi.decode_bool (cr_Overwrite r) v; Ok (r <| cr_Overwrite := x |>)
    else if name =s "recursive" then x ← httpapi.decode_bool (cr_Recursive r) v; Ok (r <| cr_Recursive := x |>)
    else if name =s "conflict_policy" then x ← decode_string (cr_ConflictPolicy r) v; Ok (r <| cr_ConflictPolicy := x |>)
    else if name =s "source_change_policy" then x ← decode_string (cr_SourceChangePolicy r) v; Ok (r <| cr_SourceChangePolicy := x |>)
    else if name =s "verify_checksum" then x ← httpapi.decode_bool (cr_VerifyChecksum r) v; Ok (r <| cr_VerifyChecksum := x |>)
    else if name =s "bandwidth_limit_bytes_per_second" then x ← decode_int (cr_BandwidthLimit r) v; Ok (r <| cr_BandwidthLimit := x |>)
    else if name =s "max_parallel_files" then x ← decode_int (cr_MaxParallelFiles r) v; Ok (r <| cr_MaxParallelFiles := x |>)
    else if name =s "max_parallel_chunks" then x ← decode_int (cr_MaxParallelChunks r) v; Ok (r <| cr_MaxParallelChunks := x |>)
    else x ← decode_int (cr_MaxAttempts r) v; Ok (r <| cr_MaxAttempts := x |>)) old v.
Definition strictIntentJSON {A} (decode : A → json → result A) (zero : A) (raw : string) : result A :=
  if (len raw =? 0) || (64 * 1024 <? len raw) || negb (is_ok (filetypes.validateUniqueJSON raw)) then Err ErrConflict else
  match json_parse raw ≫= decode zero with Ok a => Ok a | Err _ => Err ErrConflict end.
Definition is_copy_of (r : SignedCopyRequest) (b : Binding) : bool :=
  (cr_MountID r =s SourceMountID b) && (cr_MountID r =s DestinationMountID b) && (cr_Source r =s SourceRoot b) && (cr_Destination r =s DestinationRoot b).

(** * Creating *)

Definition intent_link_ok (link : JobAuthorizationLink) (options : JobOptions) : bool :=
  let b := Link_Binding link in
  ValidKeyID (Link_NodeID link) && ValidKeyID (Link_JobID link) && ValidKeyID (Link_ActorID link) && ValidKeyID (Link_CredentialID link)
  && validCredentialDigest (CredentialDigest link) && (Operation b =s "copy_local") && (ActorID b =s Link_ActorID link)
  && (CredentialID b =s Link_CredentialID link) && (PlanID b =s Link_JobID link) && (SourceNodeID b =s Link_NodeID link)
  && (DestinationNodeID b =s Link_NodeID link) && (RequestID b =s "") && (JobOptionsDigest b ≠s "") && (JobOptionsDigest b =s options_digest options).
Definition intent_of (node actorType actorID key : string) (d : database) : option ((string * string) * intent_row) :=
  head (rows_where (λ k r, (k.1 =s node) && (x_actor_type r =s actorType) && (x_actor r =s actorID) && (x_key r =s key)) (copy_intents d)).
Definition Unix (t : time) : Z := t / nanoseconds.
(** The lease an intent has kept was good one second before it ended. *)
Definition kept_lease (envelope : string) (keys : gmap string string) (binding : Binding) (nodeID : string) (expiry : time) : bool :=
  match VerifyJobLease envelope keys binding nodeID 1 (expiry - nanoseconds) with
  | Ok (claims, _) => ExpiresAt claims =? Unix expiry
  | Err _ => false
  end.
Definition intent_key (k : string * string) (r : intent_row) : string * string * string * string := (k.1, x_actor_type r, x_actor r, x_key r).
Definition key_free (k : string * string) (r : intent_row) (d : database) : bool :=
  bool_decide (map_Forall (λ k' r', k' = k ∨ intent_key k' r' ≠ intent_key k r) (copy_intents d)).
Definition intent_audit (link : JobAuthorizationLink) (action stamp : string) : auditRecord :=
  link_audit link (Link_NodeID link) (Link_JobID link) action stamp.

Definition CreateSignedCopyIntent (link : JobAuthorizationLink) (idempotencyKey requestJSON : string) (options : JobOptions) (envelope : string)
    (keys : gmap string string) (now : time) : list bool → database → result (SignedCopyIntent * bool) * database :=
  let b := Link_Binding link in
  if negb (intent_link_ok link options) || negb (ValidKeyID idempotencyKey) || IsZero now || negb (unstaged link) then λ _ d, (Err ErrConflict, d) else
  match strictIntentJSON decode_request CopyRequest_zero requestJSON with
  | Err _ => λ _ d, (Err ErrConflict, d)
  | Ok request =>
    if negb (is_copy_of request b) || negb (MatchesOptions request options) then λ _ d, (Err ErrConflict, d) else
    match VerifyJobLease envelope keys b (Link_NodeID link) 1 now with
    | Err _ => λ _ d, (Err ErrConflict, d)
    | Ok (claims, _) =>
      let expiry := of_Unix (ExpiresAt claims) in
      let requestBody := request_json request in
      let optionsJSON := options_json options in
      let stamp := Format now in
      let k := (Link_NodeID link, Link_JobID link) in
      let r := mkIntentRow (Link_ActorType link) (Link_ActorID link) (Link_CredentialID link) (CredentialDigest link) idempotencyKey (binding_json b)
                 requestBody optionsJSON envelope expiry 0 stamp stamp in
      transact (
        credentialExpiry ← currentLinkedCredentialTx link now;
        if match credentialExpiry with Some e => After expiry e | None => false end then fail ErrConflict else
        exists_ ← query (row_exists nodes (Link_NodeID link));
        fail_when (negb exists_) ErrNotFound ≫= λ _,
        existing ← query (intent_of (Link_NodeID link) (Link_ActorType link) (Link_ActorID link) idempotencyKey);
        match existing with
        | Some ((_, jobID), old) =>
          match strictIntentJSON decode_binding Binding_zero (x_binding old) with
          | Err _ => fail ErrConflict
          | Ok previous =>
            if (x_credential old ≠s Link_CredentialID link) || (x_digest old ≠s CredentialDigest link) || (x_request old ≠s requestBody)
               || (x_options old ≠s optionsJSON) || negb (x_accepted old =? 0) && negb (x_accepted old =? 1) || (x_expiry old <=? 0)
               || negb (Z.rem (x_expiry old) nanoseconds =? 0) || (x_envelope old =s "")
            then fail ErrConflict else
            if negb (bool_decide (b <| PlanID := PlanID previous |> = previous)) || (PlanID previous ≠s jobID) then fail ErrConflict else
            if negb (kept_lease (x_envelope old) keys previous (Link_NodeID link) (x_expiry old)) then fail ErrConflict else
            mret (rollback (Ok (mkIntent (link <| Link_JobID := jobID |> <| Link_Binding := previous |>) idempotencyKey request options (x_envelope old)
              (x_expiry old) (x_accepted old =? 1), true)))
          end
        | None =>
          insert_row copy_intents ErrConflict (key_free k r) (row_exists nodes (Link_NodeID link)) k r ≫= λ _,
          raise_version "7" ≫= λ _,
          audit_tx (appendAuditTx (intent_audit link "prepare_signed_copy" stamp) "") ≫= λ _,
          mret (commit (Ok (mkIntent link idempotencyKey request options envelope expiry false, false)))
        end)
    end
  end.

(** * Loading, refreshing, completing *)

Definition empty_link (nodeID jobID actorType actorID credentialID credentialDigest : string) (b : Binding) : JobAuthorizationLink :=
  mkLink nodeID jobID actorType actorID credentialID credentialDigest b 0 "" zero_time 0 "" zero_time zero_time zero_time.
Definition intent_binding_ok (b : Binding) (nodeID jobID actorID credentialID : string) (request : SignedCopyRequest) (options : JobOptions) : bool :=
  (ActorID b =s actorID) && (CredentialID b =s credentialID) && (SourceNodeID b =s nodeID) && (DestinationNodeID b =s nodeID) && (PlanID b =s jobID)
  && (Operation b =s "copy_local") && (RequestID b =s "") && (JobOptionsDigest b ≠s "") && (JobOptionsDigest b =s options_digest options)
  && is_copy_of request b && MatchesOptions request options.
Definition LoadSignedCopyIntent (nodeID actorType actorID credentialID credentialDigest idempotencyKey : string) (keys : gmap string string) (now : time)
    : tx database SignedCopyIntent :=
  if negb (ValidKeyID nodeID) || negb (ValidKeyID actorID) || negb (ValidKeyID credentialID) || negb (ValidKeyID idempotencyKey)
     || negb (validCredentialDigest credentialDigest) || IsZero now
  then fail ErrConflict else
  '((_, jobID), r) ← query_row ErrNotFound (intent_of nodeID actorType actorID idempotencyKey);
  if (x_credential r ≠s credentialID) || (x_digest r ≠s credentialDigest) || negb (ValidKeyID jobID) || (x_expiry r <=? 0)
     || negb (Z.rem (x_expiry r) nanoseconds =? 0) || negb (x_accepted r =? 0) && negb (x_accepted r =? 1)
  then fail ErrConflict else
  match strictIntentJSON decode_binding Binding_zero (x_binding r), strictIntentJSON decode_request CopyRequest_zero (x_request r),
        strictIntentJSON decode_options JobOptions_zero (x_options r) with
  | Ok binding, Ok request, Ok options =>
    if negb (intent_binding_ok binding nodeID jobID actorID credentialID request options) then fail ErrConflict else
    if negb (kept_lease (x_envelope r) keys binding nodeID (x_expiry r)) then fail ErrConflict else
    let link := empty_link nodeID jobID actorType actorID credentialID credentialDigest binding in
    currentLinkedCredentialTx link now ≫= λ _,
    mret (mkIntent link idempotencyKey request options (x_envelope r) (x_expiry r) (x_accepted r =? 1))
  | _, _, _ => fail ErrConflict
  end.
(** A transaction after a call that reads. *)
Definition after_reading {A B} (m : tx database A) (f : A → list bool → database → result B * database) (faults : list bool) (d : database)
    : result B * database :=
  match m (faults, d) with Err e => (Err e, d) | Ok (a, (faults, _)) => f a faults d end.

Definition RefreshSignedCopyIntent (nodeID actorType actorID credentialID credentialDigest idempotencyKey envelope : string) (keys : gmap string string)
    (now : time) : list bool → database → result SignedCopyIntent * database :=
  after_reading (LoadSignedCopyIntent nodeID actorType actorID credentialID credentialDigest idempotencyKey keys now) (λ intent,
    if in_Accepted intent || After (in_Expiry intent) now then λ _ d, (Err ErrConflict, d) else
    match VerifyJobLease envelope keys (Link_Binding (in_Link intent)) nodeID 1 now with
    | Err _ => λ _ d, (Err ErrConflict, d)
    | Ok (claims, _) =>
      let expiry := of_Unix (ExpiresAt claims) in
      let stamp := Format now in
      transaction (
        credentialExpiry ← currentLinkedCredentialTx (in_Link intent) now;
        fail_when (match credentialExpiry with Some e => After expiry e | None => false end) ErrConflict ≫= λ _,
        changed ← update_row copy_intents (nodeID, Link_JobID (in_Link intent))
          (λ _ r, (x_actor_type r =s actorType) && (x_actor r =s actorID) && (x_credential r =s credentialID) && (x_digest r =s credentialDigest)
                  && (x_key r =s idempotencyKey) && (x_accepted r =? 0) && (x_envelope r =s in_Envelope intent) && (x_expiry r =? in_Expiry intent))
          (λ r, r <| x_envelope := envelope |> <| x_expiry := expiry |> <| x_updated := stamp |>);
        fail_when (negb (changed =? 1)) ErrConflict ≫= λ _,
        audit_tx (appendAuditTx (intent_audit (in_Link intent) "refresh_signed_copy_intent" stamp) "") ≫= λ _,
        mret (intent <| in_Envelope := envelope |> <| in_Expiry := expiry |>))
    end).

Record SignedCopyReceipt := mkReceipt {
  rc_JobID : string; rc_Type : string; rc_State : string; rc_MountID : string; rc_Source : string; rc_Destination : string; rc_Options : JobOptions;
}.
Definition receipt_matches (receipt : SignedCopyReceipt) (intent : SignedCopyIntent) : bool :=
  (rc_JobID receipt =s Link_JobID (in_Link intent)) && (rc_Type receipt =s "copy_local") && (rc_State receipt =s "waiting_validation")
  && (rc_MountID receipt =s cr_MountID (in_Request intent)) && (rc_Source receipt =s cr_Source (in_Request intent))
  && (rc_Destination receipt =s cr_Destination (in_Request intent)) && bool_decide (rc_Options receipt = in_Options intent).
(** [readJobAuthorizationLink] of a row that may not be there; any other error is
    ErrConflict. *)
Definition find_link (nodeID jobID : string) : tx database (option JobAuthorizationLink) := λ s,
  match (row ← query (λ d, pair (nodeID, jobID) <$> job_links d !! (nodeID, jobID));
         match row with None => mret None | Some row => link ← lift (readJobAuthorizationLink row); mret (Some link) end) s with
  | Ok r => Ok r
  | Err _ => Err ErrConflict
  end.
Definition CompleteSignedCopyIntent (nodeID actorType actorID credentialID credentialDigest idempotencyKey : string) (receipt : SignedCopyReceipt)
    (keys : gmap string string) (now : time) : list bool → database → result () * database :=
  after_reading (LoadSignedCopyIntent nodeID actorType actorID credentialID credentialDigest idempotencyKey keys now) (λ intent,
    if negb (receipt_matches receipt intent) then λ _ d, (Err ErrConflict, d) else
    let link := in_Link intent in
    let k := (nodeID, Link_JobID link) in
    let stamp := Format now in
    transact (
      currentLinkedCredentialTx link now ≫= λ _,
      '(currentEnvelope, expiryNS, accepted) ← query_row err_sql (λ d, r ← copy_intents d !! k;
        if (x_actor_type r =s actorType) && (x_actor r =s actorID) && (x_credential r =s credentialID) && (x_digest r =s credentialDigest)
           && (x_key r =s idempotencyKey) then Some (x_envelope r, x_expiry r, x_accepted r) else None);
      if (currentEnvelope ≠s in_Envelope intent) || negb (expiryNS =? in_Expiry intent) || negb (accepted =? 0) && negb (accepted =? 1)
      then fail ErrConflict else
      existing ← find_link nodeID (Link_JobID link);
      match existing with
      | Some existing =>
        fail_when ((Link_ActorType existing ≠s actorType) || (Link_ActorID existing ≠s actorID) || (Link_CredentialID existing ≠s credentialID)
          || (CredentialDigest existing ≠s credentialDigest) || negb (bool_decide (Link_Binding existing = Link_Binding link))) ErrConflict
      | None =>
        if accepted =? 0 then
          insert_row job_links err_constraint always (row_exists nodes nodeID) k
            (mkLinkRow actorType actorID credentialID credentialDigest (binding_json (Link_Binding link)) 0 "" 0 0 "" 0 stamp stamp)
        else fail ErrConflict
      end ≫= λ _,
      if accepted =? 1 then mret (rollback (Ok ())) else
      changed ← update_row copy_intents k (λ _ r, (x_accepted r =? 0) && (x_envelope r =s in_Envelope intent) && (x_expiry r =? in_Expiry intent))
        (λ r, r <| x_accepted := 1 |> <| x_updated := stamp |>);
      fail_when (negb (changed =? 1)) ErrConflict ≫= λ _,
      audit_tx (appendAuditTx (intent_audit link "accept_signed_copy" stamp) "") ≫= λ _,
      mret (commit (Ok ())))).

End Intents.
End intents.
