(* ===== verification/ControlCalls.v ===== *)
(** Every call of the Control Tower's store that changes its database, as one step
    function, and how a property of the steps is proved: statement by statement,
    for a preorder on databases. *)
From S2P Require Import Prelude GoLib Base64 Json Rbac Entities SignedAuth GoTime ControlStore Sql AuditChain ControlDb ControlPending.
From S2P Require Import ControlUsers ControlPolicies ControlAccounts ControlNodes ControlLinks ControlEnroll ControlIntents.
From stdpp Require Import options.
Import store cdb audit pending policies accounts nodes links enroll intents.
Local Open Scope Z_scope.
Local Open Scope go_scope.

Module control.

(** * Calls *)

Inductive call :=
| call_CreatePendingOperation (op : PendingOperation) (max : Z) (now : time) (random : result string)
| call_GetPendingOperation (id : string) (now : time)
| call_ListPendingOperations (state requesterType requesterID : string) (limit : Z) (now : time)
| call_ClaimPendingOperation (id byType byID : string) (now : time)
| call_FinishPendingOperation (id : string) (status : Z) (body : string)
| call_RejectPendingOperation (id byType byID note : string) (now : time)
| call_recoverPendingOperations
| call_CreateUser (user : User)
| call_UpdateUser (user : User) (passwordHash : string)
| call_DeleteUser (id : string)
| call_EnsureAdmin (id username passwordHash : string) (now : time)
| call_EmergencyRecoverAdmin (newUserID username passwordHash correlationID : string) (now : time)
| call_CreateSession (hash userID : string) (expires now : time)
| call_DeleteSession (hash : string)
| call_RegisterLoginFailure (key : string) (now : time)
| call_ClearLoginFailures (key : string)
| call_PurgeStaleLoginAttempts (before : time)
| call_CreatePolicy (p : Policy)
| call_UpdatePolicy (p : Policy)
| call_DeletePolicy (id : string)
| call_CreateRole (role : policies.Role) (now : time)
| call_UpdateRole (role : policies.Role) (now : time)
| call_DeleteRole (id : string)
| call_SetUserRoles (userID : string) (roleIDs : list string) (now : time)
| call_SetSubjectPolicies (subjectType subjectID : string) (policyIDs : list string) (now : time)
| call_GrantTemporaryPolicy (subjectType subjectID policyID actorID actorType correlationID : string) (duration : Z) (now : time)
| call_RevokeTemporaryPolicy (subjectType subjectID policyID actorID actorType correlationID : string) (now : time)
| call_CreateServiceAccount (account : ServiceAccount)
| call_UpdateServiceAccount (account : ServiceAccount)
| call_DeleteServiceAccount (id : string)
| call_CreateServiceAccountToken (token : ServiceAccountToken) (revokeExisting : bool)
| call_AuthenticateServiceAccount (tokenHash : string) (now : time)
| call_RevokeServiceAccountToken (accountID tokenID : string) (now : time)
| call_UpdateAgentTokenLimits (accountID tokenID : string) (limits : AgentLimits)
| call_DisableAgents (now : time)
| call_SetServiceAccountGroups (accountID : string) (groupIDs : list string) (now : time)
| call_CreateAccessGroup (group : AccessGroup)
| call_UpdateAccessGroup (group : AccessGroup)
| call_DeleteAccessGroup (id : string)
| call_SetAccessGroupNodes (groupID : string) (nodeIDs : list string) (now : time)
| call_SetAccessGroupPolicies (groupID : string) (policyIDs : list string) (now : time)
| call_CreateWorkloadIdentity (identity : WorkloadIdentity) (limits : option AgentLimits) (actorID actorType correlationID : string) (now : time)
| call_SetWorkloadIdentityEnabled (accountID id : string) (enabled : bool) (actorID actorType correlationID : string) (now : time)
| call_ReserveAgentBytes (tokenID day : string) (requested daily : Z)
| call_RefundAgentBytes (tokenID day : string) (amount : Z)
| call_SaveNode (node : Node)
| call_UpdateNodeToken (nodeID encryptedToken : string) (updatedAt : time)
| call_UpdateNodeState (id state : string) (seen : option time) (now : time)
| call_DeleteNode (id : string)
| call_EmergencyReplaceNodeToken (nodeID encryptedToken correlationID : string) (now : time)
| call_BeginNodeTokenRotation (id candidate : string) (now : time)
| call_FinishNodeTokenRotation (id candidate : string) (now : time)
| call_SaveConnection (c : Connection)
| call_UpdateConnectionStatus (requestID status : string) (now : time)
| call_SetMetadata (key value : string)
| call_CreateShare (s : Share)
| call_RevokeShare (id : string) (now : time)
| call_DeleteShare (id : string)
| call_RegisterShareDownload (id : string) (now : time)
| call_TouchShare (id : string) (now : time)
| call_PurgeExpiredShares (before : time)
| call_CreateJobAuthorizationLink (link : JobAuthorizationLink) (now : time)
| call_StageJobAuthorization (nodeID jobID : string) (revision : Z) (envelope : string) (keys : gmap string string) (now : time)
| call_ConfirmJobAuthorization (nodeID jobID : string) (revision : Z) (digest : string) (expiry now : time)
| call_ResolveExpiredJobAuthorization (nodeID jobID : string) (revision : Z) (digest : string) (expiry now : time)
| call_FinishJobAuthorizationLink (nodeID jobID : string) (now : time)
| call_SaveJobAuthorizationScope (nodeID jobID scope : string) (now : time)
| call_CreateJoinToken (token : JoinToken)
| call_RevokeJoinToken (id : string)
| call_StartEnrollment (secretHash : string) (enrollment : Enrollment) (now : time)
| call_DecideEnrollment (id state by_ note response : string) (now : time)
| call_ReplacePollSecret (id hash : string)
| call_ExpireEnrollments (now : time)
| call_SaveManagedNode (node : ManagedNode)
| call_SavePKIObjects (put : list PKIObject) (remove : list string)
| call_CreateSignedCopyIntent (link : JobAuthorizationLink) (key requestJSON : string) (options : signedauth.JobOptions) (envelope : string) (keys : gmap string string) (now : time)
| call_RefreshSignedCopyIntent (nodeID actorType actorID credentialID digest key envelope : string) (keys : gmap string string) (now : time)
| call_CompleteSignedCopyIntent (nodeID actorType actorID credentialID digest key : string) (receipt : SignedCopyReceipt) (keys : gmap string string) (now : time)
| call_EnableAuditChain (now : time)
| call_appendAudit (r : auditRecord) (now : time)
| call_PurgeAuditBefore (cutoff now : time).

Section Calls.
Context {U : Unicode} {C : Crypto} {Q_ : Sqlite}.

Definition run (c : call) (faults : list bool) (d : database) : database :=
  match c with
  | call_CreatePendingOperation op max now random => (CreatePendingOperation op max now random faults d).2
  | call_GetPendingOperation id now => (GetPendingOperation id now faults d).2
  | call_ListPendingOperations state requesterType requesterID limit now => (ListPendingOperations state requesterType requesterID limit now faults d).2
  | call_ClaimPendingOperation id byType byID now => (ClaimPendingOperation id byType byID now faults d).2
  | call_FinishPendingOperation id status body => (FinishPendingOperation id status body faults d).2
  | call_RejectPendingOperation id byType byID note now => (RejectPendingOperation id byType byID note now faults d).2
  | call_recoverPendingOperations => (recoverPendingOperations faults d).2
  | call_CreateUser user => (users.CreateUser user faults d).2
  | call_UpdateUser user passwordHash => (users.UpdateUser user passwordHash faults d).2
  | call_DeleteUser id => (users.DeleteUser id faults d).2
  | call_EnsureAdmin id username passwordHash now => (users.EnsureAdmin id username passwordHash now faults d).2
  | call_EmergencyRecoverAdmin newUserID username passwordHash correlationID now =>
      (users.EmergencyRecoverAdmin newUserID username passwordHash correlationID now faults d).2
  | call_CreateSession hash userID expires now => (users.CreateSession hash userID expires now faults d).2
  | call_DeleteSession hash => (users.DeleteSession hash faults d).2
  | call_RegisterLoginFailure key now => (users.RegisterLoginFailure key now faults d).2
  | call_ClearLoginFailures key => (users.ClearLoginFailures key faults d).2
  | call_PurgeStaleLoginAttempts before => (users.PurgeStaleLoginAttempts before faults d).2
  | call_CreatePolicy p => (CreatePolicy p faults d).2
  | call_UpdatePolicy p => (UpdatePolicy p faults d).2
  | call_DeletePolicy id => (DeletePolicy id faults d).2
  | call_CreateRole role now => (CreateRole role now faults d).2
  | call_UpdateRole role now => (UpdateRole role now faults d).2
  | call_DeleteRole id => (DeleteRole id faults d).2
  | call_SetUserRoles userID roleIDs now => (SetUserRoles userID roleIDs now faults d).2
  | call_SetSubjectPolicies subjectType subjectID policyIDs now => (SetSubjectPolicies subjectType subjectID policyIDs now faults d).2
  | call_GrantTemporaryPolicy subjectType subjectID policyID actorID actorType correlationID duration now =>
      (GrantTemporaryPolicy subjectType subjectID policyID actorID actorType correlationID duration now faults d).2
  | call_RevokeTemporaryPolicy subjectType subjectID policyID actorID actorType correlationID now =>
      (RevokeTemporaryPolicy subjectType subjectID policyID actorID actorType correlationID now faults d).2
  | call_CreateServiceAccount account => (CreateServiceAccount account faults d).2
  | call_UpdateServiceAccount account => (UpdateServiceAccount account faults d).2
  | call_DeleteServiceAccount id => (DeleteServiceAccount id faults d).2
  | call_CreateServiceAccountToken token revokeExisting => (CreateServiceAccountToken token revokeExisting faults d).2
  | call_AuthenticateServiceAccount tokenHash now => (single (AuthenticateServiceAccount tokenHash now) faults d).2
  | call_RevokeServiceAccountToken accountID tokenID now => (RevokeServiceAccountToken accountID tokenID now faults d).2
  | call_UpdateAgentTokenLimits accountID tokenID limits => (UpdateAgentTokenLimits accountID tokenID limits faults d).2
  | call_DisableAgents now => (DisableAgents now faults d).2
  | call_SetServiceAccountGroups accountID groupIDs now => (SetServiceAccountGroups accountID groupIDs now faults d).2
  | call_CreateAccessGroup group => (CreateAccessGroup group faults d).2
  | call_UpdateAccessGroup group => (UpdateAccessGroup group faults d).2
  | call_DeleteAccessGroup id => (DeleteAccessGroup id faults d).2
  | call_SetAccessGroupNodes groupID nodeIDs now => (SetAccessGroupNodes groupID nodeIDs now faults d).2
  | call_SetAccessGroupPolicies groupID policyIDs now => (SetAccessGroupPolicies groupID policyIDs now faults d).2
  | call_CreateWorkloadIdentity identity limits actorID actorType correlationID now =>
      (CreateWorkloadIdentity identity limits actorID actorType correlationID now faults d).2
  | call_SetWorkloadIdentityEnabled accountID id enabled actorID actorType correlationID now =>
      (SetWorkloadIdentityEnabled accountID id enabled actorID actorType correlationID now faults d).2
  | call_ReserveAgentBytes tokenID day requested daily => (ReserveAgentBytes tokenID day requested daily faults d).2
  | call_RefundAgentBytes tokenID day amount => (RefundAgentBytes tokenID day amount faults d).2
  | call_SaveNode node => (SaveNode node faults d).2
  | call_UpdateNodeToken nodeID encryptedToken updatedAt => (UpdateNodeToken nodeID encryptedToken updatedAt faults d).2
  | call_UpdateNodeState id state seen now => (UpdateNodeState id state seen now faults d).2
  | call_DeleteNode id => (DeleteNode id faults d).2
  | call_EmergencyReplaceNodeToken nodeID encryptedToken correlationID now => (EmergencyReplaceNodeToken nodeID encryptedToken correlationID now faults d).2
  | call_BeginNodeTokenRotation id candidate now => (BeginNodeTokenRotation id candidate now faults d).2
  | call_FinishNodeTokenRotation id candidate now => (FinishNodeTokenRotation id candidate now faults d).2
  | call_SaveConnection c => (SaveConnection c faults d).2
  | call_UpdateConnectionStatus requestID status now => (UpdateConnectionStatus requestID status now faults d).2
  | call_SetMetadata key value => (SetMetadata key value faults d).2
  | call_CreateShare s => (CreateShare s faults d).2
  | call_RevokeShare id now => (RevokeShare id now faults d).2
  | call_DeleteShare id => (DeleteShare id faults d).2
  | call_RegisterShareDownload id now => (RegisterShareDownload id now faults d).2
  | call_TouchShare id now => (TouchShare id now faults d).2
  | call_PurgeExpiredShares before => (PurgeExpiredShares before faults d).2
  | call_CreateJobAuthorizationLink link now => (CreateJobAuthorizationLink link now faults d).2
  | call_StageJobAuthorization nodeID jobID revision envelope keys now => (StageJobAuthorization nodeID jobID revision envelope keys now faults d).2
  | call_ConfirmJobAuthorization nodeID jobID revision digest expiry now => (ConfirmJobAuthorization nodeID jobID revision digest expiry now faults d).2
  | call_ResolveExpiredJobAuthorization nodeID jobID revision digest expiry now =>
      (ResolveExpiredJobAuthorization nodeID jobID revision digest expiry now faults d).2
  | call_FinishJobAuthorizationLink nodeID jobID now => (FinishJobAuthorizationLink nodeID jobID now faults d).2
  | call_SaveJobAuthorizationScope nodeID jobID scope now => (SaveJobAuthorizationScope nodeID jobID scope now faults d).2
  | call_CreateJoinToken token => (CreateJoinToken token faults d).2
  | call_RevokeJoinToken id => (RevokeJoinToken id faults d).2
  | call_StartEnrollment secretHash enrollment now => (StartEnrollment secretHash enrollment now faults d).2
  | call_DecideEnrollment id state by_ note response now => (DecideEnrollment id state by_ note response now faults d).2
  | call_ReplacePollSecret id hash => (ReplacePollSecret id hash faults d).2
  | call_ExpireEnrollments now => (ExpireEnrollments now faults d).2
  | call_SaveManagedNode node => (SaveManagedNode node faults d).2
  | call_SavePKIObjects put remove => (SavePKIObjects put remove faults d).2
  | call_CreateSignedCopyIntent link key requestJSON options envelope keys now =>
      (CreateSignedCopyIntent link key requestJSON options envelope keys now faults d).2
  | call_RefreshSignedCopyIntent nodeID actorType actorID credentialID digest key envelope keys now =>
      (RefreshSignedCopyIntent nodeID actorType actorID credentialID digest key envelope keys now faults d).2
  | call_CompleteSignedCopyIntent nodeID actorType actorID credentialID digest key receipt keys now =>
      (CompleteSignedCopyIntent nodeID actorType actorID credentialID digest key receipt keys now faults d).2
  | call_EnableAuditChain now => (transaction (audit_tx (EnableAuditChain (Format now))) faults d).2
  | call_appendAudit r now => (transaction (audit_tx (appendAuditTx r (Format now))) faults d).2
  | call_PurgeAuditBefore cutoff now => (transaction (audit_tx (PurgeAuditBefore (Format cutoff) (Format now))) faults d).2
  end.
(** A history: calls one after another, each with the statements of it that fail. *)
Definition run_all (calls : list (call * list bool)) (d : database) : database := foldl (λ d c, run c.1 c.2 d) d calls.
End Calls.
End control.
