(* ===== verification/ControlSteps.v ===== *)
(** How a property of the calls is proved: for a preorder on databases, statement
    by statement. A call that does not write a table keeps it. *)
From S2P Require Import Prelude GoLib Base64 Json Rbac Entities SignedAuth GoTime ControlStore Sql AuditChain ControlDb ControlPending.
From S2P Require Import ControlUsers ControlPolicies ControlAccounts ControlNodes ControlLinks ControlEnroll ControlIntents ControlCalls.
From stdpp Require Import options.
Import store cdb audit pending policies accounts nodes links enroll intents control.
Local Open Scope Z_scope.
#[local] Set Default Proof Using "Type*".

(** * What the statements do *)

Section Rows.
Context {K V : Type} `{Countable K} (get : database → gmap K V) `{!Setter get}.
Lemma insert_row_inv taken unique foreign k v fs d a fs' d' : insert_row get taken unique foreign k v (fs, d) = Ok (a, (fs', d')) →
  get d !! k = None ∧ unique d = true ∧ foreign d = true ∧ d' = d <| get := <[k := v]> (get d) |>.
Proof.
  unfold insert_row. intros Hi%attempt_inv. destruct (bool_decide_reflect (is_Some (get d !! k))) as [|Hk]; [done|]. apply eq_None_not_Some in Hk.
  destruct (unique d), (foreign d); cbn in Hi; try done. by injection Hi as _ <-.
Qed.
Lemma update_row_inv k cond f fs d n fs' d' : update_row get k cond f (fs, d) = Ok (n, (fs', d')) →
  (n = 1 ∧ ∃ v, get d !! k = Some v ∧ cond d v = true ∧ d' = d <| get := <[k := f v]> (get d) |>) ∨
  (n = 0 ∧ d' = d ∧ ∀ v, get d !! k = Some v → cond d v = false).
Proof.
  unfold update_row. intros Hi%statement_inv. destruct (get d !! k) as [v|] eqn:Hk; [|injection Hi as <- <-; by right].
  destruct (cond d v) eqn:Hc; injection Hi as <- <-; [left; eauto|right]. split_and!; [done..|]. by intros v' [= <-].
Qed.
Lemma update_rows_inv cond f fs d n fs' d' : update_rows get cond f (fs, d) = Ok (n, (fs', d')) →
  d' = d <| get := map_imap (λ k v, Some (if cond k v then f v else v)) (get d) |>.
Proof. by intros [= _ ->]%statement_inv. Qed.
Lemma delete_rows_inv cond fs d n fs' d' : delete_rows get cond (fs, d) = Ok (n, (fs', d')) →
  n = Z.of_nat (size (filter (λ kv, cond kv.1 kv.2 = true) (get d))) ∧ d' = d <| get := filter (λ kv, cond kv.1 kv.2 = false) (get d) |>.
Proof. by intros [= -> ->]%statement_inv. Qed.
Lemma upsert_row_inv f foreign k fs d a fs' d' : upsert_row get f foreign k (fs, d) = Ok (a, (fs', d')) →
  foreign d = true ∧ d' = d <| get := <[k := f (get d !! k)]> (get d) |>.
Proof. unfold upsert_row. intros Hi%attempt_inv. destruct (foreign d); cbn in Hi; [|done]. by injection Hi as _ <-. Qed.
End Rows.
Lemma delete_one_inv {V} (get : database → gmap string V) cascade id fs d n fs' d' : delete_one get cascade id (fs, d) = Ok (n, (fs', d')) →
  (n = 1 ∧ d' = cascade id d) ∨ (n = 0 ∧ d' = d).
Proof. unfold delete_one. intros Hi%statement_inv. case_bool_decide; injection Hi as <- <-; auto. Qed.
Lemma audit_tx_inv {A} (m : tx audit.tables A) fs d a fs' d' : audit_tx m (fs, d) = Ok (a, (fs', d')) →
  ∃ t, m (fs, trail d) = Ok (a, (fs', t)) ∧ d' = d <| trail := t |>.
Proof. intros (t & Hm & ->)%zoom_inv. eauto. Qed.

(** An append adds one record to the trail. *)
Definition records (d : database) : list auditRecord := event_record <$> audit_events (trail d).
Lemma set_chain_record id payload hash (l : list event) : event_record <$> (set_chain id payload hash <$> l) = event_record <$> l.
Proof. induction l as [|e l IH]; [done|]. rewrite !fmap_cons, IH. f_equal. unfold set_chain. by case_match. Qed.
Lemma append_recorded {C : Crypto} r now fs t a fs' t' : appendAuditTx r now (fs, t) = Ok (a, (fs', t')) →
  event_record <$> audit_events t' = (event_record <$> audit_events t) ++ [with_defaults r now].
Proof.
  unfold appendAuditTx. cbv zeta. intros H. sql_inv. destruct (chain_state _) as [[]|]; sql_inv; [etrans; [apply set_chain_record|]|]; apply (fmap_app event_record).
Qed.

Lemma all_exist_inv {V} (get : database → gmap string V) ids fs d a fs' d' : all_exist get ids (fs, d) = Ok (a, (fs', d')) →
  d' = d ∧ Forall (λ id, is_Some (get d !! id)) ids.
Proof.
  revert fs. induction ids as [|id ids IH]; intros fs H; cbn [all_exist] in H; sql_inv; [done|].
  match goal with H : all_exist _ _ _ = _ |- _ => apply IH in H as [-> ?] end. split; [done|]. constructor; [|done]. bool_to_prop. unfold row_exists in *. by bool_to_prop.
Qed.
Lemma insert_each_inv {K V} `{Countable K} (get : database → gmap K V) `{!Setter get} foreign rows fs d a fs' d' :
  (∀ d m, get (d <| get := m |>) = m) → (∀ d m m', d <| get := m |> <| get := m' |> = d <| get := m' |>) → (∀ d, d <| get := get d |> = d) →
  (∀ d m k, foreign k (d <| get := m |>) = foreign k d) → insert_each get foreign rows (fs, d) = Ok (a, (fs', d')) →
  ∃ m, d' = d <| get := m |> ∧ get d ⊆ m ∧ (∀ k, is_Some (m !! k) → is_Some (get d !! k) ∨ k ∈ rows.*1) ∧ Forall (λ k, foreign k d = true) rows.*1
    ∧ Forall (λ k, is_Some (m !! k)) rows.*1.
Proof.
  intros Hget Hset Hid Hforeign. revert fs d. induction rows as [|[k v] rows IH]; intros fs d Hrun; cbn [insert_each] in Hrun.
  - sql_inv. exists (get d). rewrite Hid. split_and!; [done..|by left|constructor|constructor].
  - sql_inv. match goal with H : insert_row _ _ _ _ _ _ _ = _ |- _ => apply insert_row_inv in H as (Hk & _ & Hf & ->) end.
    match goal with H : insert_each _ _ _ _ = _ |- _ => apply IH in H as (m & -> & Hsub & Hin & Hall & Hthere) end. rewrite Hget in *. exists m. rewrite Hset.
    split_and!; [done| | | |].
    + etrans; [|exact Hsub]. by apply insert_subseteq.
    + intros k' Hk'. destruct (Hin _ Hk') as [[w Hw]|]; [|right; by right]. destruct (decide (k = k')) as [<-|Hne]; [right; by left|]. left. rewrite lookup_insert_ne in Hw by done. by eexists.
    + constructor; [done|]. eapply Forall_impl; [exact Hall|]. intros k'. cbv beta. by rewrite Hforeign.
    + constructor; [|done]. exists v. eapply lookup_weaken; [|exact Hsub]. apply lookup_insert_eq.
Qed.

Section Reads.
Context {U : Unicode} {C : Crypto}.
Lemma currentLinkedCredentialTx_inv link now fs d a fs' d' : currentLinkedCredentialTx link now (fs, d) = Ok (a, (fs', d')) → d' = d ∧ ∀ e, a = Some e → now < e.
Proof.
  unfold currentLinkedCredentialTx. intros (x & fs1 & d1 & Hx & H)%tx_bind_inv. assert (d1 = d) as -> by (cbv zeta in Hx; sql_run; by simplify_eq).
  destruct x as [text|]; [destruct (Parse text) as [t|]; [|done]; destruct (After t now) eqn:Ha; [|done]|case_match; [done|]]; apply ret_inv in H as [-> ->]; split; try done.
  intros e [= <-]. unfold After in Ha. lia.
Qed.
Lemma read_link_inv nodeID jobID fs d link fs' d' : read_link nodeID jobID (fs, d) = Ok (link, (fs', d')) →
  d' = d ∧ ∃ r, job_links d !! (nodeID, jobID) = Some r ∧ readJobAuthorizationLink ((nodeID, jobID), r) = Ok link.
Proof. 
  unfold read_link. intros H. sql_inv. split; [done|]. destruct (job_links d !! (nodeID, jobID)) as [r|]; [|done]. exists r. split; [done|].
  match goal with H : pair _ <$> Some r = Some _ |- _ => by injection H as <- end.
Qed.
Lemma find_link_inv nodeID jobID fs d a fs' d' : find_link nodeID jobID (fs, d) = Ok (a, (fs', d')) →
  d' = d ∧ (a = None → job_links d !! (nodeID, jobID) = None).
Proof.
  unfold find_link. match goal with |- context [match ?x with Ok _ => _ | Err _ => _ end] => destruct x as [[a1 [fs1 d1]]|] eqn:H end; [|done].
  intros [= <- <- <-]. sql_run; simplify_eq; split; try done. by destruct (job_links d !! _).
Qed.
End Reads.

(** Goes through the statements of a call that succeeded. *)
Ltac db_step :=
  match goal with
  | H : insert_row _ _ _ _ _ _ (_, _) = Ok _ |- _ => apply insert_row_inv in H as (? & ? & ? & ->)
  | H : update_row _ _ _ _ (_, _) = Ok _ |- _ => apply update_row_inv in H as [(? & ? & ? & ? & ->)|(? & -> & ?)]
  | H : update_rows _ _ _ (_, _) = Ok _ |- _ => apply update_rows_inv in H as ->
  | H : delete_rows _ _ (_, _) = Ok _ |- _ => apply delete_rows_inv in H as [? ->]
  | H : upsert_row _ _ _ _ (_, _) = Ok _ |- _ => apply upsert_row_inv in H as [? ->]
  | H : delete_one _ _ _ (_, _) = Ok _ |- _ => apply delete_one_inv in H as [[? ->]|[? ->]]
  | H : audit_tx _ (_, _) = Ok _ |- _ => apply audit_tx_inv in H as (? & ? & ->)
  | H : not_found_unless _ (_, _) = Ok _ |- _ => apply fail_when_inv in H as [? ->]
  | H : raise_version _ (_, _) = Ok _ |- _ => apply exec_inv in H as ->
  | H : currentLinkedCredentialTx _ _ (_, _) = Ok _ |- _ => apply currentLinkedCredentialTx_inv in H as [-> ?]
  | H : read_link _ _ (_, _) = Ok _ |- _ => apply read_link_inv in H as (-> & ? & ? & ?)
  | H : find_link _ _ (_, _) = Ok _ |- _ => apply find_link_inv in H as [-> ?]
  | H : all_exist _ _ (_, _) = Ok _ |- _ => apply all_exist_inv in H as [-> ?]
  | H : insert_each _ _ _ (_, _) = Ok _ |- _ => apply insert_each_inv in H as (? & -> & ? & ? & ? & ?); [|by intros []..|done]
  end.
Ltac db_run := repeat first [sql_step | db_step | match goal with H : (match ?x with _ => _ end) (_, _) = Ok _ |- _ => destruct x eqn:? end].

(** * Steps *)

Section Steps.
Context (R : relation database) `{!PreOrder R}.

Definition steps {A} (m : tx database A) : Prop := ∀ fs d a fs' d', m (fs, d) = Ok (a, (fs', d')) → R d d'.
(** The preorder does not look at a table. *)
Definition ignores {T} (get : database → T) `{!Setter get} : Prop := ∀ d m, R d (d <| get := m |>).

Lemma steps_ret {A} (a : A) : steps (mret a).
Proof. intros fs d b fs' d' [_ ->]%ret_inv. done. Qed.
Lemma steps_fail {A} e : steps (fail e : tx database A).
Proof. by intros fs d a fs' d'. Qed.
Lemma steps_bind {A B} (m : tx database A) (f : A → tx database B) : steps m → (∀ a, steps (f a)) → steps (m ≫= f).
Proof. intros Hm Hf fs d b fs' d' (a & fs1 & d1 & H1 & H2)%tx_bind_inv. transitivity d1; [by eapply Hm|by eapply Hf]. Qed.
Lemma steps_attempt {A} (f : database → result (A * database)) : (∀ d a d', f d = Ok (a, d') → R d d') → steps (attempt f).
Proof. intros Hf fs d a fs' d' H%attempt_inv. by eapply Hf. Qed.
Lemma steps_exec (f : database → database) : (∀ d, R d (f d)) → steps (exec f).
Proof. intros Hf fs d a fs' d' ->%exec_inv. done. Qed.
Lemma steps_query {A} (f : database → A) : steps (query f).
Proof. by intros fs d a fs' d' [_ ->]%query_inv. Qed.
Lemma steps_query_row {A} e (f : database → option A) : steps (query_row e f).
Proof. by intros fs d a fs' d' [_ ->]%query_row_inv. Qed.
Lemma steps_query_or {A} x (f : database → A) : steps (query_or x f).
Proof. by intros fs d a fs' d' [_ ->]%query_or_inv. Qed.
Lemma steps_fail_when b e : steps (fail_when b e).
Proof. by intros fs d a fs' d' [_ ->]%fail_when_inv. Qed.
Lemma steps_lift {A} (r : result A) : steps (lift r).
Proof. by intros fs d a fs' d' [_ ->]%lift_inv. Qed.
Lemma steps_ignoring m : steps m → steps (ignoring m).
Proof. intros Hm fs d a fs' d' [->|[fs2 H]]%ignoring_inv; [done|]. by eapply Hm. Qed.
Lemma steps_or_not_found {A} (m : tx database A) : steps m → steps (or_not_found m).
Proof. intros Hm fs d a fs' d'. unfold or_not_found. destruct (m (fs, d)) as [[? [? ?]]|] eqn:H; [|done]. intros [= -> _ ->]. by eapply Hm. Qed.

Lemma steps_insert_row {K V} `{Countable K} (get : database → gmap K V) `{!Setter get} taken unique foreign k v :
  ignores get → steps (insert_row get taken unique foreign k v).
Proof. intros Hi fs d a fs' d' (_ & _ & _ & ->)%insert_row_inv. apply Hi. Qed.
Lemma steps_update_row {K V} `{Countable K} (get : database → gmap K V) `{!Setter get} k cond f : ignores get → steps (update_row get k cond f).
Proof. intros Hi fs d a fs' d' [(_ & v & _ & _ & ->)|(_ & -> & _)]%update_row_inv; [apply Hi|done]. Qed.
Lemma steps_update_rows {K V} `{Countable K} (get : database → gmap K V) `{!Setter get} cond f : ignores get → steps (update_rows get cond f).
Proof. intros Hi fs d a fs' d' ->%update_rows_inv. apply Hi. Qed.
Lemma steps_delete_rows {K V} `{Countable K} (get : database → gmap K V) `{!Setter get} cond : ignores get → steps (delete_rows get cond).
Proof. intros Hi fs d a fs' d' [_ ->]%delete_rows_inv. apply Hi. Qed.
Lemma steps_upsert_row {K V} `{Countable K} (get : database → gmap K V) `{!Setter get} f foreign k : ignores get → steps (upsert_row get f foreign k).
Proof. intros Hi fs d a fs' d' [_ ->]%upsert_row_inv. apply Hi. Qed.
Lemma steps_delete_one {V} (get : database → gmap string V) cascade id : (∀ d, R d (cascade id d)) → steps (delete_one get cascade id).
Proof. intros Hc fs d a fs' d' [[_ ->]|[_ ->]]%delete_one_inv; [apply Hc|done]. Qed.
Lemma steps_audit_tx {A} (m : tx audit.tables A) : ignores trail → steps (audit_tx m).
Proof. intros Hi fs d a fs' d' (t & _ & ->)%audit_tx_inv. apply Hi. Qed.
Lemma steps_raise_version v : ignores metadata → steps (raise_version v).
Proof. intros Hi. apply steps_exec. intros d. apply Hi. Qed.
Lemma steps_all_exist {V} (get : database → gmap string V) ids : steps (all_exist get ids).
Proof. induction ids as [|id ids IH]; [apply steps_ret|]. apply steps_bind; [apply steps_query|intros x]. apply steps_bind; [apply steps_fail_when|by intros]. Qed.
Lemma steps_insert_each {K V} `{Countable K} (get : database → gmap K V) `{!Setter get} foreign rows : ignores get → steps (insert_each get foreign rows).
Proof. intros Hi. induction rows as [|[k v] rows IH]; [apply steps_ret|]. apply steps_bind; [by apply steps_insert_row|by intros]. Qed.
Lemma steps_each {A B} (f : A → tx database B) l : (∀ a, steps (f a)) → steps (each f l).
Proof. intros Hf. induction l as [|a l IH]; [apply steps_ret|]. apply steps_bind; [done|intros b]. apply steps_bind; [done|intros bs]. apply steps_ret. Qed.
Lemma steps_remove_objects ids : ignores pki_objects → steps (remove_objects ids).
Proof. intros Hi. induction ids as [|id ids IH]; [apply steps_ret|]. apply steps_bind; [by apply steps_delete_rows|by intros]. Qed.
Lemma steps_put_objects objects : ignores pki_objects → steps (put_objects objects).
Proof. intros Hi. induction objects as [|o objects IH]; [apply steps_ret|]. apply steps_bind; [by apply steps_upsert_row|by intros]. Qed.
Lemma steps_expirePending now : ignores pending_operations → steps (expirePending now).
Proof. intros Hi. apply steps_bind; [by apply steps_update_rows|intros _]. apply steps_bind; [by apply steps_delete_rows|intros _]. apply steps_ret. Qed.

Lemma transact_steps {A} (m : tx database (ending A)) fs d : steps m → R d (transact m fs d).2.
Proof. intros Hm. destruct (transact_cases m fs d) as [->|(r & fs' & d' & H & ->)]; [done|]. by eapply Hm. Qed.
Lemma transaction_steps {A} (m : tx database A) fs d : steps m → R d (transaction m fs d).2.
Proof. intros Hm. apply transact_steps, steps_bind; [done|intros a; apply steps_ret]. Qed.
Lemma single_steps {A} (m : tx database A) fs d : steps m → R d (single m fs d).2.
Proof. intros Hm. destruct (single_cases m fs d) as [->|(r & fs' & d' & H & ->)]; [done|]. by eapply Hm. Qed.
Lemma purge_steps before fs d : ignores shares → R d (PurgeExpiredShares before fs d).2.
Proof.
  intros Hi. unfold PurgeExpiredShares. destruct (query _ (fs, d)) as [[l [fs1 d1]]|]; [|done]. generalize 0. clear d1. revert fs1 d.
  induction l as [|[id e] l IH]; intros fs1 d n; cbn [purge_shares]; [done|]. destruct (delete_rows _ _ _) as [[m [fs2 d2]]|] eqn:Hd; [|done].
  transitivity d2; [|apply IH]. apply delete_rows_inv in Hd as [_ ->]. apply Hi.
Qed.
End Steps.

(** [apply], and the preorder is one. *)
Ltac go lem := apply lem; try lazymatch goal with |- PreOrder _ => apply _ end.

Section More.
Context {U : Unicode} {C : Crypto} (R : relation database) `{!PreOrder R}.
Lemma steps_policyRules id : steps R (policyRules id).
Proof. go steps_bind; [go steps_query|intros rows; by go steps_lift]. Qed.
Lemma steps_insertPolicyRules id n rules : (∀ v, steps R (raise_version v)) → ignores R policy_rules → steps R (insertPolicyRules id n rules).
Proof.
  intros Hm Hr. revert n. induction rules as [|rule rules IH]; intros n; [by go steps_ret|]. cbn [insertPolicyRules].
  go steps_bind; [by go steps_lift|intros _]. go steps_bind; [|intros _].
  { destruct (bool_decide _); [done|by go steps_ret]. }
  go steps_bind; [|intros _]. { destruct (bool_decide _); [by go steps_ret|done]. }
  go steps_bind; [go steps_exec; intros d; apply Hr|intros _; apply IH].
Qed.
Lemma steps_rename_row (get : database → gmap string policy_row) `{!Setter get} id name description updated :
  ignores R get → steps R (rename_row get id name description updated).
Proof. intros Hi. go steps_attempt. intros d a d'. destruct (get d !! id); [|done]. cbv zeta. destruct (unique_value _ _ _ _ _); intros [= _ <-]. apply Hi. Qed.
Lemma steps_currentLinkedCredentialTx link now : steps R (currentLinkedCredentialTx link now).
Proof. by intros fs d a fs' d' [-> _]%currentLinkedCredentialTx_inv. Qed.
Lemma steps_find_link nodeID jobID : steps R (find_link nodeID jobID).
Proof. by intros fs d a fs' d' [-> _]%find_link_inv. Qed.
Lemma after_reading_steps {A B} (m : tx database A) (f : A → list bool → database → result B * database) fs d :
  (∀ a fs, R d (f a fs d).2) → R d (after_reading m f fs d).2.
Proof. intros Hf. unfold after_reading. destruct (m (fs, d)) as [[a [fs' d']]|]; [apply Hf|done]. Qed.
Lemma steps_read_link nodeID jobID : steps R (read_link nodeID jobID).
Proof. go steps_bind; [by go steps_query_row|intros row; by go steps_lift]. Qed.
End More.

(** Goes through a call; what is left is that the preorder allows the writes. *)
Ltac step_through :=
  repeat lazymatch goal with
  | |- steps _ (_ ≫= _) => go steps_bind; [|intros ?]
  | |- steps _ (mret _) => go steps_ret
  | |- steps _ (fail _) => go steps_fail
  | |- steps _ (query _) => go steps_query
  | |- steps _ (query_row _ _) => go steps_query_row
  | |- steps _ (query_or _ _) => go steps_query_or
  | |- steps _ (lift _) => go steps_lift
  | |- steps _ (fail_when _ _) => go steps_fail_when
  | |- steps _ (not_found_unless _) => go steps_fail_when
  | |- steps _ (ignoring _) => go steps_ignoring
  | |- steps _ (exec _) => go steps_exec
  | |- steps _ (insert_row _ _ _ _ _ _) => go steps_insert_row
  | |- steps _ (update_row _ _ _ _) => go steps_update_row
  | |- steps _ (update_rows _ _ _) => go steps_update_rows
  | |- steps _ (delete_rows _ _) => go steps_delete_rows
  | |- steps _ (upsert_row _ _ _ _) => go steps_upsert_row
  | |- steps _ (delete_one _ _ _) => go steps_delete_one
  | |- steps _ (audit_tx _) => go steps_audit_tx
  | |- steps _ (raise_version _) => first [match goal with H : ∀ v, steps _ (raise_version v) |- _ => apply H end|go steps_raise_version]
  | |- steps _ (all_exist _ _) => go steps_all_exist
  | |- steps _ (insert_each _ _ _) => go steps_insert_each
  | |- steps _ (expirePending _) => go steps_expirePending
  | |- steps _ (remove_objects _) => go steps_remove_objects
  | |- steps _ (put_objects _) => go steps_put_objects
  | |- steps _ (find_link _ _) => go steps_find_link
  | |- steps _ (policyRules _) => go steps_policyRules
  | |- steps _ (insertPolicyRules _ _ _) => go steps_insertPolicyRules
  | |- steps _ (rename_row _ _ _ _ _) => go steps_rename_row
  | |- steps _ (currentLinkedCredentialTx _ _) => go steps_currentLinkedCredentialTx
  | |- steps _ (read_link _ _) => go steps_read_link
  | |- steps _ (attempt _) => go steps_attempt; intros ? ? ?
  | |- steps _ (let _ := _ in _) => cbv zeta
  | |- steps _ (match ?x with _ => _ end) => lazymatch x with if ?b then _ else _ => destruct b | _ => destruct x end; cbv iota
  end.
(** The calls one by one. *)
Ltac call_through :=
  lazymatch goal with
  | |- _ (transact _ _ _).2 => go transact_steps
  | |- _ (transaction _ _ _).2 => go transaction_steps
  | |- _ (single _ _ _).2 => go single_steps
  | |- _ (PurgeExpiredShares _ _ _).2 => go purge_steps
  | |- _ (after_reading _ _ _ _).2 => go after_reading_steps; intros ? ?; cbv zeta; repeat (case_match; cbn [snd]; try reflexivity); try call_through
  end.
(** A call that left the database as it is, or one that went through. *)
Ltac call_cases :=
  match goal with
  | |- context [transact ?m ?fs ?d] => destruct (transact_cases m fs d) as [->|(? & ? & ? & Hrun & ->)]
  | |- context [transaction ?m ?fs ?d] => destruct (transaction_cases m fs d) as [->|(? & ? & ? & Hrun & ->)]
  | |- context [single ?m ?fs ?d] => destruct (single_cases m fs d) as [->|(? & ? & ? & Hrun & ->)]
  end.

(** The two outcomes of a call that is a transaction. *)
Ltac outcome t :=
  lazymatch t with
  | ?f ?fs ?d => destruct (transaction_result _ fs d : (∃ e, t = (Err e, d)) ∨ (∃ a d', t = (Ok a, d'))) as [[? ->]|([] & ? & Hrun)]; [|rewrite Hrun]
  end.

(** A row written under a key is looked up; two looks at a row find the same. *)
Ltac at_row := match goal with |- context [<[?k := _]> _ !! ?i] => destruct (decide (k = i)) as [<-|?]; [rewrite lookup_insert_eq|rewrite lookup_insert_ne by done] end.
Ltac same_row := match goal with H1 : ?m !! ?k = Some ?v, H2 : ?m !! ?k = Some ?w |- _ => assert (w = v) by congruence; clear H2; subst w end.
Ltac rewrite_row := match goal with H : ?m !! ?k = Some _ |- context [?m !! ?k] => rewrite H end.

Create HintDb calls.
#[export] Hint Unfold CreatePendingOperation GetPendingOperation ListPendingOperations ClaimPendingOperation FinishPendingOperation RejectPendingOperation recoverPendingOperations users.CreateUser users.UpdateUser users.DeleteUser users.EnsureAdmin users.EmergencyRecoverAdmin users.CreateSession users.DeleteSession users.RegisterLoginFailure users.ClearLoginFailures users.PurgeStaleLoginAttempts CreatePolicy UpdatePolicy DeletePolicy CreateRole UpdateRole DeleteRole SetUserRoles SetSubjectPolicies GrantTemporaryPolicy RevokeTemporaryPolicy CreateServiceAccount UpdateServiceAccount DeleteServiceAccount CreateServiceAccountToken RevokeServiceAccountToken UpdateAgentTokenLimits DisableAgents SetServiceAccountGroups CreateAccessGroup UpdateAccessGroup DeleteAccessGroup SetAccessGroupNodes SetAccessGroupPolicies CreateWorkloadIdentity SetWorkloadIdentityEnabled ReserveAgentBytes RefundAgentBytes SaveNode UpdateNodeToken UpdateNodeState DeleteNode EmergencyReplaceNodeToken BeginNodeTokenRotation FinishNodeTokenRotation SaveConnection UpdateConnectionStatus SetMetadata CreateShare RevokeShare DeleteShare RegisterShareDownload TouchShare CreateJobAuthorizationLink StageJobAuthorization ConfirmJobAuthorization ResolveExpiredJobAuthorization FinishJobAuthorizationLink SaveJobAuthorizationScope CreateJoinToken RevokeJoinToken StartEnrollment DecideEnrollment ReplacePollSecret ExpireEnrollments SaveManagedNode SavePKIObjects CreateSignedCopyIntent RefreshSignedCopyIntent CompleteSignedCopyIntent
  AuthenticateServiceAccount users.keep_an_admin users.rewrite_user setRolePolicies set_group subject_exists GetNode GetServiceAccount : calls.

(** * Tables a call does not write *)

Definition same {T} (get : database → T) : relation database := λ d d', get d' = get d.
#[global] Instance same_preorder {T} (get : database → T) : PreOrder (same get).
Proof. split; [by intros d|]. intros d1 d2 d3 H12 H23. unfold same in *. congruence. Qed.
(** A call respects a preorder: its statements do. What is left goes to [side]. *)
Ltac respects side :=
  cbn [run]; autounfold with calls; cbv zeta;
  repeat match goal with
  | |- _ _ ((if ?b then _ else _) _ _).2 => destruct b
  | |- _ _ (match ?x with _ => _ end _ _).2 => lazymatch x with if ?b then _ else _ => destruct b | _ => destruct x end; cbv iota
  end;
  first [reflexivity|call_through; step_through]; side.
Ltac keeps_table := respects ltac:(
  try (intros ? ?; reflexivity); try (intros ?; reflexivity); try (intros ?; go steps_raise_version; intros ? ?; reflexivity);
  try (intros Ha; repeat (case_match; simplify_eq); reflexivity)).

Section Kept.
Context {U : Unicode} {C : Crypto} {Q_ : Sqlite}.
Lemma run_all_snoc h c d : run_all (h ++ [c]) d = run c.1 c.2 (run_all h d).
Proof. unfold run_all. by rewrite foldl_app. Qed.
(** What every call of a history respects, the history does. *)
Lemma run_all_steps (R : relation database) `{!PreOrder R} (P : call → Prop) h d :
  (∀ c fs d, P c → R d (run c fs d)) → Forall (λ c, P c.1) h → R d (run_all h d).
Proof.
  intros Hstep. induction h as [|c h IH] using rev_ind; intros Hh; [done|]. apply Forall_app in Hh as [Hh Hc]. rewrite Forall_singleton in Hc.
  rewrite run_all_snoc. etrans; [by apply IH|by apply Hstep].
Qed.
Lemma run_all_invariant (I : database → Prop) (P : call → Prop) h d :
  (∀ c fs d, P c → I d → I (run c fs d)) → Forall (λ c, P c.1) h → I d → I (run_all h d).
Proof.
  intros Hstep. induction h as [|c h IH] using rev_ind; intros Hh Hd; [done|]. apply Forall_app in Hh as [Hh Hc]. rewrite Forall_singleton in Hc.
  rewrite run_all_snoc. apply Hstep; [done|by apply IH].
Qed.
Definition pending_call (c : call) : bool :=
  match c with
  | call_CreatePendingOperation _ _ _ _ | call_GetPendingOperation _ _ | call_ListPendingOperations _ _ _ _ _ | call_ClaimPendingOperation _ _ _ _
  | call_FinishPendingOperation _ _ _ | call_RejectPendingOperation _ _ _ _ _ | call_recoverPendingOperations => true
  | _ => false
  end.
Lemma pending_kept c fs d : pending_call c = false → pending_operations (run c fs d) = pending_operations d.
Proof.
  intros Hc. change (same pending_operations d (run c fs d)). destruct c; try done; clear Hc; keeps_table.
Qed.
End Kept.
