(* ===== verification/PendingFacts.v ===== *)
(** Requests that wait for an approval: their life cycle under any calls, and what
    an approval rests on. *)
From S2P Require Import Prelude GoLib Base64 Json JsonFacts JsonPrint Rbac Entities SignedAuth SignedAuthFacts SignedRoundtrip ControlStore.
From S2P Require Import ControlAccess GoTime Sql AuditChain ControlDb ControlPending ControlUsers ControlPolicies ControlAccounts ControlNodes.
From S2P Require Import ControlLinks ControlCalls ControlSteps.
From stdpp Require Import options.
Import store cdb audit pending control.
Local Open Scope Z_scope.
Local Open Scope go_scope.
#[local] Set Default Proof Using "Type*".

Section Facts.
Context {U : Unicode} {C : Crypto} {Q_ : Sqlite}.

(** * The life of a row *)

(** When a call that closes what nobody decided in time does so. *)
Definition call_time (c : call) : option time :=
  match c with
  | call_CreatePendingOperation _ _ now _ | call_GetPendingOperation _ now | call_ListPendingOperations _ _ _ _ now
  | call_ClaimPendingOperation _ _ _ now | call_RejectPendingOperation _ _ _ _ now => Some now
  | _ => None
  end.

(** What a call [c] may make of the row [r] of a request. *)
Inductive moves (c : call) (id : string) (r : pending_row) : pending_row → Prop :=
| moves_not : moves c id r r
| moves_expired now : call_time c = Some now → po_state r = PendingState → po_expires r ≤ now → moves c id r (r <| po_state := PendingExpired |>)
| moves_approved byType byID now : c = call_ClaimPendingOperation id byType byID now →
    po_state r = PendingState → now < po_expires r → po_sha256 r = sha256_hex (po_body r) →
    moves c id r (r <| po_state := PendingExecuting |> <| po_by_type := byType |> <| po_by := byID |> <| po_decided := Format now |>)
| moves_rejected byType byID note now : c = call_RejectPendingOperation id byType byID note now → po_state r = PendingState → now < po_expires r →
    moves c id r (r <| po_state := PendingRejected |> <| po_by_type := byType |> <| po_by := byID |> <| po_decided := Format now |> <| po_note := note |>)
| moves_done status body : c = call_FinishPendingOperation id status body → po_state r = PendingExecuting →
    moves c id r (r <| po_state := if 400 <=? status then PendingFailed else PendingExecuted |> <| po_status := status |>
                    <| po_result := of_bytes (take result_limit (bytes body)) |>)
| moves_lost : c = call_recoverPendingOperations → po_state r = PendingExecuting → moves c id r (r <| po_state := PendingIndeterminate |>).

(** A row that is not there, or that the expiry of old requests removes. *)
Definition gone (c : call) (before : option pending_row) : Prop :=
  match before with
  | Some r => po_state r ≠ PendingExecuting ∧ ∃ now, call_time c = Some now ∧ po_expires r + pendingKeep < now
  | None => True
  end.
Inductive lives (c : call) (id : string) : option pending_row → option pending_row → Prop :=
| lives_on r r' : moves c id r r' → lives c id (Some r) (Some r')
| lives_gone before : gone c before → lives c id before None
| lives_new before op max now random : c = call_CreatePendingOperation op max now (Ok random) → id = "pop_" +++ hex_EncodeToString random →
    gone c before → lives c id before (Some (pending_row_of (stamped (with_digest op) id now))).

(** What [expirePending] leaves of a row. *)
Definition expire_row (now : time) (r : pending_row) : option pending_row :=
  let r := if (po_state r =s PendingState) && (po_expires r <=? now) then r <| po_state := PendingExpired |> else r in
  if negb ((po_state r =s PendingState) || (po_state r =s PendingExecuting)) && (po_expires r <? now - pendingKeep) then None else Some r.
Lemma expirePending_inv now fs d a fs' d' : expirePending now (fs, d) = Ok (a, (fs', d')) →
  ∃ m, d' = d <| pending_operations := m |> ∧ ∀ id, m !! id = pending_operations d !! id ≫= expire_row now.
Proof.
  unfold expirePending. intros H. sql_inv. apply update_rows_inv in H as ->. apply delete_rows_inv in H0 as [_ ->]. eexists. split; [reflexivity|].
  intros id. cbn. rewrite map_lookup_filter, map_lookup_imap. destruct (pending_operations d !! id) as [r|]; [|done]. cbn. unfold expire_row.
  cbv zeta. set (r1 := if _ && _ then _ else r). case_guard as Hg; cbn; [by rewrite Hg|]. apply not_false_is_true in Hg. by rewrite Hg.
Qed.
Lemma expire_row_gone c now r : call_time c = Some now → expire_row now r = None → gone c (Some r).
Proof.
  intros Hc. unfold expire_row. destruct ((po_state r =s PendingState) && (po_expires r <=? now)) eqn:He; cbn zeta.
  - apply andb_true_iff in He as [Hs _]. bool_to_prop. destruct (negb _ && _) eqn:Hd; [|done]. intros _. apply andb_true_iff in Hd as [_ Hd]. bool_to_prop. cbn in Hd.
    split; [by rewrite Hs|]. exists now. split; [done|lia].
  - destruct (negb _ && _) eqn:Hd; [|done]. intros _. apply andb_true_iff in Hd as [Hx Hd]. bool_to_prop. split; [done|]. exists now. split; [done|lia].
Qed.
Lemma expire_row_moves c id now r r' : call_time c = Some now → expire_row now r = Some r' → moves c id r r'.
Proof.
  intros Hc. unfold expire_row. destruct ((po_state r =s PendingState) && (po_expires r <=? now)) eqn:He; cbn zeta; destruct (negb _ && _); [done| |done|]; intros [= <-]; [|constructor].
  bool_to_prop. by eapply moves_expired.
Qed.
(** A row that is open after the expiry was left as it was. *)
Lemma expire_row_open now r r' : expire_row now r = Some r' → po_state r' = PendingState → r' = r ∧ now < po_expires r.
Proof.
  unfold expire_row. destruct ((po_state r =s PendingState) && (po_expires r <=? now)) eqn:He; cbn zeta; [destruct (negb _ && _); [done|]; by intros [= <-]|].
  destruct (negb _ && _) eqn:Hd; [done|]. intros [= <-] Hs. rewrite Hs in He. rewrite bool_decide_true in He by done. cbn in He. split; [done|lia].
Qed.

Lemma lives_refl c id o : lives c id o o.
Proof. destruct o; [by constructor; constructor|by constructor]. Qed.
Lemma expired_gone c now d (m : gmap string pending_row) id : call_time c = Some now → m !! id = pending_operations d !! id ≫= expire_row now →
  m !! id = None → gone c (pending_operations d !! id).
Proof. intros Hc -> Hn. destruct (pending_operations d !! id) as [r|]; [|done]. by eapply expire_row_gone. Qed.
Lemma expired_lives c now d (m : gmap string pending_row) id : call_time c = Some now → m !! id = pending_operations d !! id ≫= expire_row now →
  lives c id (pending_operations d !! id) (m !! id).
Proof.
  intros Hc Hm. destruct (m !! id) as [r'|] eqn:Hn; [|apply lives_gone; rewrite <-Hn in Hm; by eapply expired_gone].
  destruct (pending_operations d !! id) as [r|]; [|done]. apply lives_on. by eapply expire_row_moves.
Qed.
Lemma scanPending_inv id r op : scanPending (id, r) = Ok op → op_ID op = id ∧ State op = po_state r ∧ op_ExpiresAt op = po_expires r ∧
  Body op = po_body r ∧ BodySHA256 op = po_sha256 r.
Proof. unfold scanPending. destruct (json_parse _); [|done]. cbn. destruct (decode_list _ _ _ _); [|done]. cbn. by intros [= <-]. Qed.
Lemma stamped_id op id now : op_ID (stamped op id now) = id.
Proof. unfold stamped. cbv zeta. by destruct (_ =s _). Qed.
Lemma row_of_inv id d x : row_of id d = Some x → ∃ r, x = (id, r) ∧ pending_operations d !! id = Some r.
Proof. unfold row_of. destruct (pending_operations d !! id); [|done]. intros [= <-]. eauto. Qed.

(** * The calls *)

Lemma create_lives op max now random fs d id : let c := call_CreatePendingOperation op max now random in
  lives c id (pending_operations d !! id) (pending_operations (run c fs d) !! id).
Proof.
  cbn [run]. unfold CreatePendingOperation. call_cases; [apply lives_refl|]. db_run; simplify_eq.
  apply expirePending_inv in H as (m & -> & Hm). cbn in *. rewrite stamped_id in *.
  match goal with |- context [<[?k := _]> m] => destruct (decide (k = id)) as [<-|Hne] end.
  - rewrite lookup_insert_eq. eapply lives_new; [done..|]. by eapply expired_gone.
  - rewrite lookup_insert_ne by done. by eapply expired_lives.
Qed.
Lemma get_lives id' now fs d id : let c := call_GetPendingOperation id' now in
  lives c id (pending_operations d !! id) (pending_operations (run c fs d) !! id).
Proof.
  cbn [run]. unfold GetPendingOperation. call_cases; [apply lives_refl|]. db_run; simplify_eq. apply expirePending_inv in H as (m & -> & Hm). by eapply expired_lives.
Qed.
Lemma list_lives state rt rid limit now fs d id : let c := call_ListPendingOperations state rt rid limit now in
  lives c id (pending_operations d !! id) (pending_operations (run c fs d) !! id).
Proof.
  cbn [run]. unfold ListPendingOperations. call_cases; [apply lives_refl|]. db_run; simplify_eq. apply expirePending_inv in H as (m & -> & Hm). by eapply expired_lives.
Qed.
Lemma claim_lives id' byType byID now fs d id : let c := call_ClaimPendingOperation id' byType byID now in
  lives c id (pending_operations d !! id) (pending_operations (run c fs d) !! id).
Proof.
  cbn [run]. unfold ClaimPendingOperation. call_cases; [apply lives_refl|]. db_run; simplify_eq; try apply lives_refl.
  all: match goal with H : row_of _ _ = Some _ |- _ => apply row_of_inv in H as (r & -> & Hr) end.
  all: match goal with H : scanPending _ = Ok _ |- _ => apply scanPending_inv in H as (_ & Hs & He & Hb & Hd) end.
  all: same_row; cbn; at_row; [|apply lives_refl]; bool_to_prop; rewrite_row; apply lives_on.
  - eapply moves_expired; [done|congruence|]. bool_to_prop. lia.
  - match goal with H : IntegrityOK _ = true |- _ => unfold IntegrityOK in H end. bool_to_prop. apply moves_approved with (now := now); [done..| |congruence].
    match goal with H : _ && _ = false |- _ => apply andb_false_iff in H as [?|?] end; bool_to_prop; [congruence|lia].
Qed.
Lemma finish_lives id' status body fs d id : let c := call_FinishPendingOperation id' status body in
  lives c id (pending_operations d !! id) (pending_operations (run c fs d) !! id).
Proof.
  cbn [run]. unfold FinishPendingOperation. cbv zeta. call_cases; [apply lives_refl|]. db_run; simplify_eq. cbn. bool_to_prop.
  destruct (decide (id' = id)) as [<-|Hne]; [|rewrite lookup_insert_ne by done; apply lives_refl].
  rewrite lookup_insert_eq. match goal with H : _ !! id' = _ |- _ => rewrite H end. apply lives_on. by apply moves_done.
Qed.
Lemma reject_lives id' byType byID note now fs d id : let c := call_RejectPendingOperation id' byType byID note now in
  lives c id (pending_operations d !! id) (pending_operations (run c fs d) !! id).
Proof.
  cbn [run]. unfold RejectPendingOperation. cbv zeta. call_cases; [apply lives_refl|]. db_run; simplify_eq.
  all: apply expirePending_inv in H as (m & -> & Hm); cbn in *. 2: by eapply expired_lives.
  destruct (decide (id' = id)) as [<-|Hne]; [|rewrite lookup_insert_ne by done; by eapply expired_lives].
  rewrite lookup_insert_eq. bool_to_prop. match goal with H : m !! id' = Some ?v |- _ => rename H into Hv; rename v into r' end.
  rewrite Hm in Hv. destruct (pending_operations d !! id') as [r|] eqn:Hr; [|done]. cbn in Hv. apply expire_row_open in Hv as [-> Hlt]; [|done].
  apply lives_on. by apply moves_rejected.
Qed.
Lemma recover_lives fs d id : lives call_recoverPendingOperations id (pending_operations d !! id) (pending_operations (run call_recoverPendingOperations fs d) !! id).
Proof.
  cbn [run]. unfold recoverPendingOperations. call_cases; [apply lives_refl|]. db_run. cbn. rewrite map_lookup_imap.
  destruct (pending_operations d !! id) as [r|]; cbn; [|apply lives_refl]. apply lives_on. destruct (bool_decide_reflect (po_state r = PendingExecuting)); [by apply moves_lost|constructor].
Qed.

Lemma pending_lives c fs d id : lives c id (pending_operations d !! id) (pending_operations (run c fs d) !! id).
Proof.
  destruct (pending_call c) eqn:Hc; [|rewrite pending_kept by done; apply lives_refl]. destruct c; try done.
  - apply create_lives.
  - apply get_lives.
  - apply list_lives.
  - apply claim_lives.
  - apply finish_lives.
  - apply reject_lives.
  - apply recover_lives.
Qed.
End Facts.

(** * Histories of calls: what an approval replays was asked as it stands, a request
    is approved once, and a requester has a bounded number of open requests *)

Section Rows.
Context {U : Unicode} {C : Crypto}.

(** * A request is read back as it was stored *)

Definition requirement_tree (r : PendingRequirement) : json := obj [text "path" (pr_Path r); text "capability" (pr_Capability r)].
Definition requirements_tree (l : list PendingRequirement) : json := match l with [] => JNull | _ => JArray (requirement_tree <$> l) end.
Lemma json_requirements_tree l : json_requirements l = jprint (requirements_tree l).
Proof.
  destruct l as [|r l]; [done|]. unfold json_requirements, requirements_tree. apply (json_list_map requirement_tree). intros a. unfold requirement_tree. by rewrite jprint_obj.
Qed.
Definition utf8_requirement (r : PendingRequirement) : Prop := utf8 (pr_Path r) ∧ utf8 (pr_Capability r).
Lemma printed_requirements l : Forall utf8_requirement l → printed (requirements_tree l).
Proof.
  intros Hl. destruct l as [|r l]; [constructor|]. constructor. apply Forall_fmap. eapply Forall_impl; [exact Hl|]. intros x [Hp Hc]. apply printed_obj.
  repeat apply Forall_cons_2; [by apply printed_text..|constructor].
Qed.
Lemma decode_requirement_tree r : decode_requirement (mkPendingRequirement "" "") (requirement_tree r) = Ok r.
Proof. by destruct r. Qed.
Lemma decode_requirements_tree l : decode_list decode_requirement (mkPendingRequirement "" "") [] (requirements_tree l) = Ok l.
Proof.
  assert (decode_elements decode_requirement (mkPendingRequirement "" "") [] (requirement_tree <$> l) = Ok l) as H.
  { induction l as [|r l IH]; [done|]. cbn [fmap list_fmap decode_elements head tail default]. rewrite decode_requirement_tree, Ok_bind. cbn [fmap] in IH. by rewrite IH. }
  by destruct l.
Qed.
(** What a request is before anybody decided on it. *)
Definition undecided (op : PendingOperation) : Prop :=
  DecidedByType op = "" ∧ DecidedByID op = "" ∧ DecidedAt op = None ∧ Note op = "" ∧ ResultStatus op = 0 ∧ ResultBody op = "".
Lemma scan_stored op id now : Forall utf8_requirement (Requirements op) → four_digit_year now → undecided op →
  scanPending (id, pending_row_of (stamped (with_digest op) id now)) = Ok (stamped (with_digest op) id now).
Proof.
  intros Hr Hy (H1 & H2 & H3 & H4 & H5 & H6). unfold scanPending.
  assert (po_requirements (pending_row_of (stamped (with_digest op) id now)) = json_requirements (Requirements op)) as ->.
  { unfold stamped, with_digest. cbv zeta. by destruct (Kind op =s ""), (Summary _ =s ""). }
  rewrite json_requirements_tree, json_parse_printed by by apply printed_requirements. cbn [mbind result_bind]. rewrite decode_requirements_tree, Ok_bind. f_equal.
  assert (Parse_or_zero (Format now) = now) as Hp by (unfold Parse_or_zero; by rewrite Parse_Format).
  unfold stamped, with_digest. cbv zeta. destruct op; cbn -[Format Parse_or_zero sha256_hex] in *. subst.
  repeat case_bool_decide; cbn -[Format Parse_or_zero sha256_hex] in *; by rewrite Hp.
Qed.
End Rows.

Section History.
Context {U : Unicode} {C : Crypto} {Q_ : Sqlite}.

(** * What was asked *)

(** The columns of a row no decision changes. *)
Definition asked (r : pending_row) : pending_row :=
  r <| po_state := "" |> <| po_by_type := "" |> <| po_by := "" |> <| po_decided := "" |> <| po_note := "" |> <| po_status := 0 |> <| po_result := "" |>.
Lemma moves_asked c id r r' : moves c id r r' → asked r' = asked r ∧ (po_state r' = PendingState → r' = r).
Proof. destruct 1; split; try done. cbn. by case_match. Qed.
(** The row of a request that the history created, untouched as long as it is open. *)
Definition made (h : list (call * list bool)) (id : string) (r : pending_row) : Prop :=
  ∃ op max created random faults, (call_CreatePendingOperation op max created (Ok random), faults) ∈ h ∧ id = "pop_" +++ hex_EncodeToString random
    ∧ let row := pending_row_of (stamped (with_digest op) id created) in asked r = asked row ∧ (po_state r = PendingState → r = row).
Lemma rows_made h id r : pending_operations (run_all h empty_database) !! id = Some r → made h id r.
Proof.
  revert r. induction h as [|[c fs] h IH] using rev_ind; intros r; [done|]. rewrite run_all_snoc. cbn. intros Hr.
  pose proof (pending_lives c fs (run_all h empty_database) id) as Hl. rewrite Hr in Hl. inversion Hl as [r0 r' Hm Hb|?|? op max now random Hc Hid]; subst.
  - symmetry in Hb. destruct (IH _ Hb) as (op & max & created & random & faults & Hin & Hid & Ha & Ho). exists op, max, created, random, faults.
    apply moves_asked in Hm as [Hm Hp]. split; [apply elem_of_app; by left|]. split; [done|]. split; [by etrans|]. intros Hs. specialize (Hp Hs) as ->. exact (Ho Hs).
  - exists op, max, now, random, fs. split; [apply elem_of_app; right; by apply list_elem_of_singleton|]. done.
Qed.

(** A request is created with texts and a date that can be written. *)
Definition writable (c : call) : Prop :=
  match c with
  | call_CreatePendingOperation op _ now _ => Forall utf8_requirement (Requirements op) ∧ four_digit_year now ∧ undecided op
  | _ => True
  end.
Lemma claim_inv id byType byID now fs d op d' : ClaimPendingOperation id byType byID now fs d = (Ok op, d') →
  ∃ r op0, pending_operations d !! id = Some r ∧ scanPending (id, r) = Ok op0 ∧ po_state r = PendingState ∧ now < po_expires r ∧ IntegrityOK op0 = true
    ∧ op = op0 <| State := PendingExecuting |> <| DecidedByType := byType |> <| DecidedByID := byID |> <| DecidedAt := Some now |>
    ∧ pending_operations d' = <[id := r <| po_state := PendingExecuting |> <| po_by_type := byType |> <| po_by := byID |> <| po_decided := Format now |>]> (pending_operations d)
    ∧ records d' = records d ++ [with_defaults (pending_audit byID byType "pending_operation_approve" op0 (Format now)) ""].
Proof.
  unfold ClaimPendingOperation. cbv zeta. intros (x & fs1 & d1 & Hrun & Hx)%transact_eq. db_run; simplify_eq; destruct Hx as [[? ?]|[? ?]]; simplify_eq.
  match goal with H : row_of _ _ = Some _ |- _ => apply row_of_inv in H as (r & -> & Hr) end. same_row.
  match goal with H : scanPending _ = Ok _ |- _ => pose proof (scanPending_inv _ _ _ H) as (_ & Hs & He & _) end. bool_to_prop.
  exists r. eexists. split_and!; [done..| |done|done|done|unfold records; cbn; by eapply append_recorded].
  match goal with H : _ && _ = false |- _ => apply andb_false_iff in H as [?|?] end; bool_to_prop; [congruence|lia].
Qed.

(** C28. An approval replays a request exactly as some call asked for it, method, path,
    query, body and requirements included, before it expired, and is recorded. *)
Theorem claim_replays_what_was_asked h id byType byID now fs op d' :
  Forall (λ c, writable c.1) h →
  ClaimPendingOperation id byType byID now fs (run_all h empty_database) = (Ok op, d') →
  ∃ ask max created random faults, (call_CreatePendingOperation ask max created (Ok random), faults) ∈ h
    ∧ id = "pop_" +++ hex_EncodeToString random ∧ now < created + PendingLifetime
    ∧ op = (stamped (with_digest ask) id created) <| State := PendingExecuting |> <| DecidedByType := byType |> <| DecidedByID := byID |> <| DecidedAt := Some now |>
    ∧ records d' = records (run_all h empty_database) ++ [with_defaults (pending_audit byID byType "pending_operation_approve" op (Format now)) ""].
Proof.
  intros Hw (r & op0 & Hr & Hscan & Hs & Hlt & _ & -> & _ & Hrec)%claim_inv. destruct (rows_made _ _ _ Hr) as (ask & max & created & random & faults & Hin & Hid & _ & Ho).
  specialize (Ho Hs). rewrite Forall_forall in Hw. pose proof (Hw _ Hin) as (H1 & H2 & H3). cbn in H1, H2, H3.
  rewrite Ho, scan_stored in Hscan by done. injection Hscan as Heq. exists ask, max, created, random, faults. split; [exact Hin|]. split; [exact Hid|]. split; [|split].
  - rewrite Ho in Hlt. clear -Hlt. revert Hlt. unfold stamped. cbv zeta. by destruct (Summary _ =s "").
  - by rewrite Heq.
  - exact Hrec.
Qed.

(** * A decision is final *)

(** A call that approves or rejects the request. *)
Definition decides (id : string) (c : call) (fs : list bool) (d : database) : Prop :=
  match c with
  | call_ClaimPendingOperation id' byType byID now => id' = id ∧ is_ok (ClaimPendingOperation id' byType byID now fs d).1 = true
  | call_RejectPendingOperation id' byType byID note now => id' = id ∧ is_ok (RejectPendingOperation id' byType byID note now fs d).1 = true
  | _ => False
  end.
Definition open_in (d : database) (id : string) : Prop := ∃ r, pending_operations d !! id = Some r ∧ po_state r = PendingState.
Definition creates (id : string) (c : call) : Prop :=
  match c with call_CreatePendingOperation _ _ _ (Ok random) => id = "pop_" +++ hex_EncodeToString random | _ => False end.
Lemma reject_inv id byType byID note now fs d op d' : RejectPendingOperation id byType byID note now fs d = (Ok op, d') →
  ∃ r, pending_operations d !! id = Some r ∧ po_state r = PendingState ∧ now < po_expires r
    ∧ pending_operations d' !! id = Some (r <| po_state := PendingRejected |> <| po_by_type := byType |> <| po_by := byID |> <| po_decided := Format now |> <| po_note := note |>).
Proof.
  unfold RejectPendingOperation. cbv zeta. intros [fs1 Hrun]%transaction_eq. db_run; simplify_eq.
  all: match goal with H : expirePending _ _ = _ |- _ => apply expirePending_inv in H as (m & -> & Hm) end.
  all: match goal with H : row_of _ _ = Some _ |- _ => apply row_of_inv in H as (r' & -> & Hr) end.
  all: match goal with H : scanPending _ = Ok _ |- _ => apply scanPending_inv in H as (_ & Hs & _) end; bool_to_prop; cbn in *.
  all: rewrite Hm in Hr; destruct (pending_operations d !! id) as [r|] eqn:Hd; [|done]; cbn in Hr.
  all: pose proof (expire_row_open _ _ _ Hr) as Ho; destruct Ho as [-> Hlt]; [congruence|].
  - exists r. split_and!; [done|congruence|done|]. rewrite lookup_insert_eq. rewrite Hm, Hd in *. cbn in *. congruence.
  - exfalso. match goal with H : ∀ v, _ → _ = false |- _ => specialize (H r); rewrite Hm, Hd in H; specialize (H Hr) end. bool_to_prop. congruence.
Qed.
Lemma decides_open id c fs d : decides id c fs d → open_in d id ∧ ¬ open_in (run c fs d) id.
Proof.
  destruct c; try done; cbn [decides run]; intros [-> Hok].
  - destruct (ClaimPendingOperation _ _ _ _ _ _) as [[op|] d'] eqn:H; [|done]. apply claim_inv in H as (r & op0 & Hr & _ & Hs & _ & _ & _ & Hd & _). split; [by exists r|].
    intros (r' & Hr' & Hs'). cbn in Hr'. rewrite Hd, lookup_insert_eq in Hr'. by injection Hr' as <-.
  - destruct (RejectPendingOperation _ _ _ _ _ _ _) as [[op|] d'] eqn:H; [|done]. apply reject_inv in H as (r & Hr & Hs & _ & Hd). split; [by exists r|].
    intros (r' & Hr' & Hs'). cbn in Hr'. rewrite Hd in Hr'. by injection Hr' as <-.
Qed.
Lemma closed_stays c fs d id : ¬ creates id c → ¬ open_in d id → ¬ open_in (run c fs d) id.
Proof.
  intros Hc Hn (r & Hr & Hs). apply Hn. pose proof (pending_lives c fs d id) as Hl. rewrite Hr in Hl. inversion Hl as [r0 r' Hm Hb|?|? op max now random Hcr Hid]; subst.
  - apply moves_asked in Hm as [_ Hp]. specialize (Hp Hs). subst r0. by exists r.
  - by destruct Hc.
Qed.
Lemma closed_stays_all h d id : Forall (λ c, ¬ creates id c.1) h → ¬ open_in d id → ¬ open_in (run_all h d) id.
Proof.
  induction h as [|c h IH] using rev_ind; intros Hh Hn; [done|]. apply Forall_app in Hh as [Hh Hc]. rewrite run_all_snoc. rewrite Forall_singleton in Hc.
  apply closed_stays; [exact Hc|by apply IH].
Qed.
(** A request is decided once: after it was approved or rejected, no later call
    approves or rejects it, unless a new request draws the same random bytes. *)
Theorem decided_once id c fs d h c' fs' :
  decides id c fs d → Forall (λ c, ¬ creates id c.1) h → ¬ decides id c' fs' (run_all h (run c fs d)).
Proof. intros [_ Hc]%decides_open Hh [Ho _]%decides_open. by eapply closed_stays_all. Qed.

(** * Open requests *)

(** Open requests of one requester that ask for the same. *)
Definition request_key (r : pending_row) : list string :=
  [po_requester_type r; po_requester r; po_kind r; po_method r; po_node r; po_resource r; po_query r; po_sha256 r].
Definition no_open_twice (d : database) : Prop := ∀ id id' r r', pending_operations d !! id = Some r → pending_operations d !! id' = Some r' →
  po_state r = PendingState → po_state r' = PendingState → request_key r = request_key r' → id = id'.
Definition open_rows (d : database) (id : string) (r : pending_row) : Prop := pending_operations d !! id = Some r ∧ po_state r = PendingState.
Lemma open_of_lookup t q d id r : open_of t q d !! id = Some r ↔ open_rows d id r ∧ po_requester_type r = t ∧ po_requester r = q.
Proof. unfold open_of, open_rows. rewrite map_lookup_filter_Some. cbn. tauto. Qed.
Lemma open_of_mono t q d d' : (∀ id r, open_rows d' id r → open_rows d id r) → (size (open_of t q d') ≤ size (open_of t q d))%nat.
Proof. intros H. apply map_subseteq_size, map_subseteq_spec. intros id r [Hr Ht]%open_of_lookup. apply open_of_lookup. auto. Qed.

(** What a call leaves open was open, but for the one a creation adds when the
    requester has fewer than [max] and none of them asks for the same. *)
Inductive opens (c : call) (d d' : database) : Prop :=
| opens_none : (∀ id r, open_rows d' id r → open_rows d id r) → opens c d d'
| opens_one op max now random (d1 : database) : c = call_CreatePendingOperation op max now (Ok random) → (∀ id r, open_rows d1 id r → open_rows d id r) →
    (∀ id r, pending_operations d1 !! id = Some r → same_request (with_digest op) r = false) →
    Z.of_nat (size (open_of (RequesterType op) (RequesterID op) d1)) < max →
    (let id := "pop_" +++ hex_EncodeToString random in pending_operations d' = <[id := pending_row_of (stamped (with_digest op) id now)]> (pending_operations d1)) →
    opens c d d'.
Lemma expired_open now d (m : gmap string pending_row) : (∀ id, m !! id = pending_operations d !! id ≫= expire_row now) →
  ∀ id r, open_rows (d <| pending_operations := m |>) id r → open_rows d id r.
Proof.
  intros Hm id r [Hr Hs]. cbn in Hr. rewrite Hm in Hr. destruct (pending_operations d !! id) as [r0|] eqn:Hd; [|done]. cbn in Hr.
  pose proof (expire_row_open _ _ _ Hr Hs) as [-> _]. done.
Qed.
Lemma rows_where_none (cond : string → pending_row → bool) m : head (rows_where cond m) = None → ∀ id r, m !! id = Some r → cond id r = false.
Proof.
  intros Hh id r Hr. destruct (cond id r) eqn:Hc; [|done]. exfalso. unfold rows_where in Hh.
  assert ((id, r) ∈ filter (λ kv, cond kv.1 kv.2 = true) (map_to_list m)) as Hin by (apply list_elem_of_filter; split; [done|by apply elem_of_map_to_list]).
  destruct (filter _ _); [by apply not_elem_of_nil in Hin|done].
Qed.
Lemma create_opens op max now random fs d : opens (call_CreatePendingOperation op max now random) d (run (call_CreatePendingOperation op max now random) fs d).
Proof.
  cbn [run]. unfold CreatePendingOperation. cbv zeta. call_cases; [by apply opens_none|]. db_run; simplify_eq.
  match goal with H : expirePending _ _ = _ |- _ => apply expirePending_inv in H as (m & -> & Hm) end. bool_to_prop.
  assert (RequesterType (with_digest op) = RequesterType op ∧ RequesterID (with_digest op) = RequesterID op) as [Ht Hq] by (unfold with_digest; cbv zeta; by destruct (Kind op =s "")).
  eapply opens_one with (d1 := d <| pending_operations := m |>); [done|by eapply expired_open| | |].
  - by apply rows_where_none.
  - rewrite <-Ht, <-Hq. lia.
  - cbv zeta. rewrite stamped_id. done.
Qed.
Lemma other_opens c fs d : (∀ id, ¬ creates id c) → opens c d (run c fs d).
Proof.
  intros Hc. apply opens_none. intros id r [Hr Hs]. pose proof (pending_lives c fs d id) as Hl. rewrite Hr in Hl. inversion Hl as [r0 ? Hm Hb|?|]; subst.
  - apply moves_asked in Hm as [_ Hp]. specialize (Hp Hs). subst r0. by split.
  - by edestruct Hc.
Qed.
Lemma run_opens c fs d : opens c d (run c fs d).
Proof. destruct c; try apply create_opens; apply other_opens; intros ? []. Qed.

Lemma stamped_columns op id now : let r := pending_row_of (stamped (with_digest op) id now) in
  po_requester_type r = RequesterType op ∧ po_requester r = RequesterID op ∧ po_state r = PendingState ∧
  ∀ r', po_state r' = PendingState → request_key r' = request_key r → same_request (with_digest op) r' = true.
Proof.
  unfold stamped, with_digest, same_request. cbv zeta. destruct (Kind op =s ""), (Summary _ =s ""); cbn -[sha256_hex]; split_and!; try done.
  all: intros r' Hs [= -> -> -> -> -> -> -> ->]; rewrite Hs; by repeat (rewrite bool_decide_true by done).
Qed.
Lemma open_of_insert t q d d1 id row : pending_operations d = <[id := row]> (pending_operations d1) →
  (size (open_of t q d) ≤ if decide (po_requester_type row = t ∧ po_requester row = q) then S (size (open_of t q d1)) else size (open_of t q d1))%nat.
Proof.
  intros Hd. unfold open_of. rewrite Hd, map_filter_insert. case_decide as Hrow.
  - destruct Hrow as (Ht & Hq & _). rewrite decide_True by done. rewrite map_size_insert. destruct (_ !! id); cbn; unfold Datatypes.id; lia.
  - assert (filter (λ kv, po_requester_type kv.2 = t ∧ po_requester kv.2 = q ∧ po_state kv.2 = PendingState) (delete id (pending_operations d1)) ⊆
            filter (λ kv, po_requester_type kv.2 = t ∧ po_requester kv.2 = q ∧ po_state kv.2 = PendingState) (pending_operations d1)) as Hsub%map_subseteq_size
      by apply map_filter_subseteq_mono, delete_subseteq.
    case_decide; lia.
Qed.
Lemma no_open_twice_insert op id now d d1 : no_open_twice d1 → (∀ id r, pending_operations d1 !! id = Some r → same_request (with_digest op) r = false) →
  pending_operations d = <[id := pending_row_of (stamped (with_digest op) id now)]> (pending_operations d1) → no_open_twice d.
Proof.
  intros Htwice Hsame Hd. destruct (stamped_columns op id now) as (_ & _ & _ & Hkey). intros a b r r'. rewrite Hd.
  destruct (decide (id = a)) as [<-|Ha], (decide (id = b)) as [<-|Hb]; rewrite ?lookup_insert_eq, ?lookup_insert_ne by done; [done| | |apply Htwice].
  - intros [= <-] Hr' _ Hs' Heq. symmetry in Heq. apply Hkey in Heq; [|done]. by rewrite (Hsame _ _ Hr') in Heq.
  - intros Hr [= <-] Hs _ Heq. apply Hkey in Heq; [|done]. by rewrite (Hsame _ _ Hr) in Heq.
Qed.
(** No requester ever has more open requests than the bound the calls give, and no
    two open requests of a requester ask for the same. *)
Theorem open_requests_bounded h (bound : Z) t q :
  0 ≤ bound → Forall (λ c, match c.1 with call_CreatePendingOperation _ max _ _ => max ≤ bound | _ => True end) h →
  Z.of_nat (size (open_of t q (run_all h empty_database))) ≤ bound ∧ no_open_twice (run_all h empty_database).
Proof.
  intros Hb. revert t q. induction h as [|[c fs] h IH] using rev_ind; intros t q Hh; [split; [done|]; by intros ? ? ? ?|].
  apply Forall_app in Hh as [Hh Hc]. rewrite Forall_singleton in Hc. cbn in Hc. rewrite run_all_snoc. cbn [fst snd]. set (d := run_all h empty_database) in *.
  assert (∀ t q, Z.of_nat (size (open_of t q d)) ≤ bound) as Hsize by (intros t' q'; by apply IH). destruct (IH t q Hh) as [_ Htwice]. clear IH.
  destruct (run_opens c fs d) as [Ho|op max now random d1 -> Ho Hsame Hmax Hd].
  - split; [pose proof (open_of_mono t q _ _ Ho); specialize (Hsize t q); lia|]. intros id id' r r' H1 H2 H3 H4. destruct (Ho id r), (Ho id' r'); [done..|]. by apply Htwice.
  - cbv zeta in Hd. destruct (stamped_columns op ("pop_" +++ hex_EncodeToString random) now) as (Ht & Hq & _). split.
    + pose proof (open_of_insert t q _ _ _ _ Hd) as Hi. rewrite Ht, Hq in Hi. pose proof (open_of_mono t q _ _ Ho). specialize (Hsize t q).
      case_decide as Heq; [destruct Heq as [<- <-]|]; lia.
    + eapply no_open_twice_insert; [|done..]. intros a b r r' H1 H2 H3 H4. destruct (Ho a r), (Ho b r'); [done..|]. by apply Htwice.
Qed.
End History.
