(* ===== verification/UsersFacts.v ===== *)
(** Users over histories of calls: an enabled administrator remains, sessions end
    with a password, and a login is locked only after five failures and for a
    bounded time. *)
From S2P Require Import Prelude GoLib Base64 Json Rbac Entities SignedAuth GoTime ControlStore Sql AuditChain ControlDb ControlPending.
From S2P Require Import ControlUsers ControlPolicies ControlAccounts ControlNodes ControlLinks ControlCalls ControlSteps.
From stdpp Require Import options.
Import store cdb audit users control.
Local Open Scope Z_scope.
Local Open Scope go_scope.
#[local] Set Default Proof Using "Type*".

Section Users.
Context {U : Unicode} {C : Crypto} {Q_ : Sqlite}.

(** * An administrator remains *)

Definition admin (r : user_row) : Prop := u_role r = "admin" ∧ u_enabled r = 1.
Definition has_admin (d : database) : Prop := ∃ id r, cdb.users d !! id = Some r ∧ admin r.
Definition user_call (c : call) : bool :=
  match c with
  | call_CreateUser _ | call_UpdateUser _ _ | call_DeleteUser _ | call_EnsureAdmin _ _ _ _ | call_EmergencyRecoverAdmin _ _ _ _ _ => true
  | _ => false
  end.
Lemma users_kept c fs d : user_call c = false → cdb.users (run c fs d) = cdb.users d.
Proof. intros Hc. change (same cdb.users d (run c fs d)). destruct c; try done; clear Hc; keeps_table. Qed.
Lemma other_admin id d : (other_admins id d =? 0) = false → ∃ id' r, cdb.users d !! id' = Some r ∧ admin r ∧ id' ≠ id.
Proof.
  intros Ho. unfold other_admins in Ho. destruct (decide (filter (λ kv, u_role kv.2 = "admin" ∧ u_enabled kv.2 = 1 ∧ kv.1 ≠ id) (cdb.users d) = ∅)) as [He|He].
  - by rewrite He in Ho.
  - apply map_choose in He as (id' & r & (Hr & Ha & He & Hne)%map_lookup_filter_Some). by exists id', r.
Qed.
(** The row of a user rewritten: another administrator is still there. *)
Lemma rewritten_admin id r' d d' : cdb.users d' = <[id := r']> (cdb.users d) → has_admin d →
  (∀ r, cdb.users d !! id = Some r → admin r → admin r' ∨ ∃ id' r0, cdb.users d !! id' = Some r0 ∧ admin r0 ∧ id' ≠ id) → has_admin d'.
Proof.
  intros Hd (a & r & Hr & Ha) Hrow. destruct (decide (id = a)) as [<-|Hne].
  - destruct (Hrow _ Hr Ha) as [Hr'|(id' & r0 & H0 & Ha0 & Hne)]; [exists id, r'|exists id', r0]; by rewrite Hd, ?lookup_insert_eq, ?lookup_insert_ne.
  - exists a, r. by rewrite Hd, lookup_insert_ne.
Qed.
Lemma create_admin user fs d : has_admin d → has_admin (run (call_CreateUser user) fs d).
Proof.
  intros Hd. cbn [run]. unfold CreateUser. cbv zeta. call_cases; [done|]. db_run. eapply rewritten_admin; [done|done|]. intros r Hr. congruence.
Qed.
Lemma ensure_admin id name hash now fs d : has_admin d → has_admin (run (call_EnsureAdmin id name hash now) fs d).
Proof.
  intros Hd. cbn [run]. unfold EnsureAdmin. cbv zeta. call_cases; [done|]. db_run; [done|]. eapply rewritten_admin; [done|done|]. intros r Hr. congruence.
Qed.
Lemma recover_admin id name hash cid now fs d : has_admin d → has_admin (run (call_EmergencyRecoverAdmin id name hash cid now) fs d).
Proof.
  intros Hd. cbn [run]. unfold EmergencyRecoverAdmin. case_match; [done|]. cbv zeta. call_cases; [done|]. db_run; try done.
  all: eapply rewritten_admin; [done|done|]; intros r Hr; by left.
Qed.
Lemma user_by_inv id d user : user_by id d = Some user → ∃ r, cdb.users d !! id = Some r ∧ user = scanUser (id, r).
Proof. unfold user_by. destruct (cdb.users d !! id); [|done]. intros [= <-]. eauto. Qed.
Lemma keep_an_admin_inv id fs d a fs' d' : keep_an_admin id (fs, d) = Ok (a, (fs', d')) → d' = d ∧ ∃ id' r, cdb.users d !! id' = Some r ∧ admin r ∧ id' ≠ id.
Proof. unfold keep_an_admin. intros H. sql_inv. split; [done|by apply other_admin]. Qed.
Lemma rewrite_user_inv user hash fs d a fs' d' : rewrite_user user hash (fs, d) = Ok (a, (fs', d')) → is_Some (cdb.users d !! User_ID user) →
  ∃ r r', cdb.users d !! User_ID user = Some r ∧ u_role r' = Role user ∧ u_enabled r' = boolInt (User_Enabled user)
    ∧ d' = d <| cdb.users := <[User_ID user := r']> (cdb.users d) |>.
Proof.
  unfold rewrite_user. intros H%attempt_inv [r Hr]. rewrite Hr in H. cbv zeta in H. destruct (username_free _ _ _); [|done]. injection H as _ <-.
  eexists _, _. split; [done|]. split_and!; [..|reflexivity]; by destruct (hash =s "").
Qed.
(** What an update of a user does to the tables. *)
Lemma UpdateUser_inv user hash fs d d' : UpdateUser user hash fs d = (Ok (), d') →
  ∃ r r' s, cdb.users d !! User_ID user = Some r ∧ u_role r' = Role user ∧ u_enabled r' = boolInt (User_Enabled user)
    ∧ d' = d <| cdb.users := <[User_ID user := r']> (cdb.users d) |> <| sessions := s |>
    ∧ s = (if (hash ≠s "") || negb (User_Enabled user) then filter (λ kv, (se_user kv.2 =s User_ID user) = false) (sessions d) else sessions d)
    ∧ (admin r → admin r' ∨ ∃ id' r0, cdb.users d !! id' = Some r0 ∧ admin r0 ∧ id' ≠ User_ID user).
Proof.
  intros [fs' H]%transaction_eq. apply tx_bind_inv in H as (current & fs1 & d1 & [(r & Hr & ->)%user_by_inv ->]%query_row_inv & H). apply tx_bind_inv in H as ([] & fs2 & d2 & Hkeep & H).
  apply tx_bind_inv in H as ([] & fs3 & d3 & Hrw & H).
  set (guarded := (Role _ =s "admin") && _ && _) in *.
  assert (d2 = d ∧ (guarded = true → ∃ id' r, cdb.users d !! id' = Some r ∧ admin r ∧ id' ≠ User_ID user)) as [-> Hg].
  { destruct guarded; [by apply keep_an_admin_inv in Hkeep as [-> ?]|]. apply ret_inv in Hkeep as [_ ->]. done. }
  apply rewrite_user_inv in Hrw as (r0 & r' & Hr0 & Hrole & Hen & ->); [|by eexists]. assert (r0 = r) as -> by congruence.
  eexists r, r', _. split_and!; [done..| |reflexivity|].
  - destruct ((hash ≠s "") || _); db_run; done.
  - intros [Ha He]. destruct guarded eqn:Hgd; [right; by apply Hg|left]. subst guarded. cbn in Hgd. rewrite Ha, He in Hgd. cbn in Hgd.
    rewrite bool_decide_true in Hgd by done. cbn in Hgd. bool_to_prop. split; [by rewrite Hrole|]. rewrite Hen. by destruct (User_Enabled user).
Qed.
Lemma update_admin user hash fs d : has_admin d → has_admin (run (call_UpdateUser user hash) fs d).
Proof.
  intros Hd. cbn [run]. outcome (UpdateUser user hash fs d); [done|]. apply UpdateUser_inv in Hrun as (r & r' & s & Hr & _ & _ & -> & _ & Ha).
  eapply rewritten_admin; [done|done|]. intros r0 Hr0. assert (r0 = r) as -> by congruence. done.
Qed.
Lemma DeleteUser_inv id fs d d' : DeleteUser id fs d = (Ok (), d') →
  ∃ r, cdb.users d !! id = Some r ∧ d' = cascade_user id (d <| policy_assignments := filter (λ kv, (kv.1.2.1 =s "user") && (kv.1.2.2 =s id) = false) (policy_assignments d) |>
      <| temporary_assignments := filter (λ kv, (kv.1.2.1 =s "user") && (kv.1.2.2 =s id) = false) (temporary_assignments d) |>)
    ∧ (admin r → ∃ id' r0, cdb.users d !! id' = Some r0 ∧ admin r0 ∧ id' ≠ id).
Proof.
  intros [fs' H]%transaction_eq. apply tx_bind_inv in H as (current & fs1 & d1 & [(r & Hr & ->)%user_by_inv ->]%query_row_inv & H).
  apply tx_bind_inv in H as ([] & fs2 & d2 & Hkeep & H). set (guarded := (Role _ =s "admin") && _) in *.
  assert (d2 = d ∧ (guarded = true → ∃ id' r, cdb.users d !! id' = Some r ∧ admin r ∧ id' ≠ id)) as [-> Hg].
  { destruct guarded; [by apply keep_an_admin_inv in Hkeep as [-> ?]|]. apply ret_inv in Hkeep as [_ ->]. done. }
  exists r. split_and!; [done| |].
  - clear Hg Hkeep guarded. sql_inv. repeat match goal with H : delete_rows _ _ _ = _ |- _ => apply delete_rows_inv in H as [_ ->] end.
    match goal with H : delete_one _ _ _ _ = _ |- _ => unfold delete_one in H; apply statement_inv in H; cbn in H; rewrite Hr in H end.
    rewrite bool_decide_true in * by done. congruence.
  - intros [Ha He]. apply Hg. subst guarded. cbn. by rewrite Ha, He.
Qed.
Lemma delete_admin id fs d : has_admin d → has_admin (run (call_DeleteUser id) fs d).
Proof.
  intros Hd. cbn [run]. outcome (DeleteUser id fs d); [done|]. apply DeleteUser_inv in Hrun as (r & Hr & -> & Ha). destruct Hd as (a & r0 & H0 & Ha0).
  assert (∃ id' r0, cdb.users d !! id' = Some r0 ∧ admin r0 ∧ id' ≠ id) as (id' & r1 & H1 & Ha1 & Hne).
  { destruct (decide (a = id)) as [->|Hne]; [|by exists a, r0]. apply Ha. congruence. }
  exists id', r1. cbn. by rewrite lookup_delete_ne by done.
Qed.
(** C32. As soon as an administrator can log in, one can after any calls, whichever of
    their statements fail. *)
Theorem admin_remains h d : has_admin d → has_admin (run_all h d).
Proof.
  apply (run_all_invariant _ (λ _, True)); [|by apply Forall_true]. intros c fs d0 _ Hd. destruct (user_call c) eqn:Hc; [|unfold has_admin; by rewrite users_kept].
  destruct c; try done; [by apply create_admin|by apply update_admin|by apply delete_admin|by apply ensure_admin|by apply recover_admin].
Qed.

(** * Sessions end *)

Definition signed_out (id : string) (d : database) : Prop := ∀ hash s, sessions d !! hash = Some s → se_user s ≠ id.
Lemma signed_out_mono id d d' : sessions d' ⊆ sessions d → signed_out id d → signed_out id d'.
Proof. intros Hsub Hd hash s Hs. apply (Hd hash). by eapply lookup_weaken. Qed.
Definition session_call (c : call) : bool :=
  match c with
  | call_CreateSession _ _ _ _ | call_DeleteSession _ | call_UpdateUser _ _ | call_DeleteUser _ | call_EmergencyRecoverAdmin _ _ _ _ _ => true
  | _ => false
  end.
Lemma sessions_kept c fs d : session_call c = false → sessions (run c fs d) = sessions d.
Proof. intros Hc. change (same sessions d (run c fs d)). destruct c; try done; clear Hc; keeps_table. Qed.
Lemma sessions_shrink c fs d : match c with call_CreateSession _ _ _ _ => False | _ => True end → sessions (run c fs d) ⊆ sessions d.
Proof.
  intros Hc. destruct (session_call c) eqn:Hs; [|by rewrite sessions_kept]. destruct c; try discriminate Hs; try destruct Hc; clear Hs.
  - cbn [run]. outcome (UpdateUser user passwordHash fs d); [done|]. apply UpdateUser_inv in Hrun as (r & r' & s & _ & _ & _ & -> & -> & _). cbn.
    case_match; [apply map_filter_subseteq|done].
  - cbn [run]. outcome (DeleteUser id fs d); [done|]. apply DeleteUser_inv in Hrun as (r & _ & -> & _). apply map_filter_subseteq.
  - cbn [run]. unfold EmergencyRecoverAdmin. case_match; [done|]. cbv zeta. call_cases; [done|]. db_run; apply map_filter_subseteq.
  - cbn [run]. unfold DeleteSession. call_cases; [done|]. db_run. apply map_filter_subseteq.
Qed.
Lemma signed_out_stays id c fs d : match c with call_CreateSession _ id' _ _ => id' ≠ id | _ => True end → signed_out id d → signed_out id (run c fs d).
Proof.
  intros Hc Hd. destruct c; try (eapply signed_out_mono; [by apply sessions_shrink|done]).
  cbn [run]. unfold CreateSession. call_cases; [done|]. db_run. intros hash' s. cbn. destruct (decide (hash = hash')) as [<-|Hne].
  - rewrite lookup_insert_eq. by intros [= <-].
  - rewrite lookup_insert_ne by done. apply Hd.
Qed.
(** A call that ends the sessions of a user. *)
Definition ends_sessions (id : string) (c : call) (fs : list bool) (d : database) : Prop :=
  match c with
  | call_UpdateUser user hash => User_ID user = id ∧ (hash ≠ "" ∨ User_Enabled user = false) ∧ is_ok (UpdateUser user hash fs d).1 = true
  | call_DeleteUser id' => id' = id ∧ is_ok (DeleteUser id fs d).1 = true
  | call_EmergencyRecoverAdmin newID name hash cid now => is_ok (EmergencyRecoverAdmin newID name hash cid now fs d).1 = true
  | _ => False
  end.
Lemma ended_signed_out id c fs d : ends_sessions id c fs d → signed_out id (run c fs d).
Proof.
  destruct c; try done; cbn [ends_sessions run].
  - intros (<- & Hw & Hok). revert Hok. outcome (UpdateUser user passwordHash fs d); [done|]. intros _.
    apply UpdateUser_inv in Hrun as (r & r' & s & _ & _ & _ & -> & -> & _). intros hash s' Hs. cbn in Hs.
    assert ((passwordHash ≠s "") || negb (User_Enabled user) = true) as Hb by (destruct Hw as [Hw| ->]; [by rewrite bool_decide_false|apply orb_true_r]).
    rewrite Hb in Hs. apply map_lookup_filter_Some in Hs as [_ Hs]. by apply bool_decide_eq_false in Hs.
  - intros (-> & Hok). revert Hok. outcome (DeleteUser id fs d); [done|]. intros _. apply DeleteUser_inv in Hrun as (r & _ & -> & _).
    intros hash s Hs. cbn in Hs. by apply map_lookup_filter_Some in Hs as [_ Hs].
  - unfold EmergencyRecoverAdmin. case_match; [done|]. cbv zeta. match goal with |- context [transaction ?m fs d] => destruct (transaction_result m fs d) as [[e ->]|(a & d' & Hrun)] end; [done|].
    rewrite Hrun. intros _ hash s Hs. apply transaction_eq in Hrun as [fs' Hrun]. db_run; by apply map_lookup_filter_Some in Hs as [_ Hs].
Qed.
(** Changing the password of a user, disabling or deleting them, and recovering an
    administrator end their sessions: no session names them until they log in again. *)
Theorem sessions_end id c fs d h hash now fs' user expiry s :
  ends_sessions id c fs d → Forall (λ c, match c.1 with call_CreateSession _ id' _ _ => id' ≠ id | _ => True end) h →
  SessionUserAndExpiry hash now (fs', run_all h (run c fs d)) = Ok ((user, expiry), s) → User_ID user ≠ id.
Proof.
  intros He%ended_signed_out Hh. pose proof (run_all_invariant (signed_out id) _ h _ (signed_out_stays id) Hh He) as Hout. destruct s as [fs1 d1].
  unfold SessionUserAndExpiry. intros Hs. db_run; simplify_eq.
  match goal with H : session_of _ _ = Some _ |- _ => unfold session_of in H end. repeat (simplify_option_eq; try case_match).
  match goal with H : user_by _ _ = Some _ |- _ => apply user_by_inv in H as (r & _ & ->) end. cbn. by eapply Hout.
Qed.

(** * Locked logins *)

Definition failure_of (key : string) (c : call) : bool := match c with call_RegisterLoginFailure key' _ => key' =s key | _ => false end.
Definition failures_of (key : string) (h : list (call * list bool)) : nat := length (filter (λ c, failure_of key c.1 = true) h).
Definition attempt_ok (h : list (call * list bool)) (key : string) (r : attempt_row) : Prop :=
  l_failures r ≤ Z.of_nat (failures_of key h) ∧ 0 ≤ l_failures r ∧
  ∀ text, l_locked r = Some text → 5 ≤ l_failures r ∧ ∃ at_ faults, (call_RegisterLoginFailure key at_, faults) ∈ h ∧ text = Format (at_ + lockout (l_failures r)).
Lemma attempt_ok_mono h c key r : attempt_ok h key r → attempt_ok (h ++ [c]) key r.
Proof.
  intros (Hc & Hn & Hl). split_and!; [|done|].
  - unfold failures_of in *. rewrite filter_app, length_app. lia.
  - intros text Ht. destruct (Hl _ Ht) as (H5 & a & f & Hin & Htext). split; [done|]. exists a, f. split; [|done]. apply elem_of_app. by left.
Qed.
Definition attempt_call (c : call) : bool :=
  match c with call_RegisterLoginFailure _ _ | call_ClearLoginFailures _ | call_PurgeStaleLoginAttempts _ => true | _ => false end.
Lemma attempts_kept c fs d : attempt_call c = false → login_attempts (run c fs d) = login_attempts d.
Proof. intros Hc. change (same login_attempts d (run c fs d)). destruct c; try done; clear Hc; keeps_table. Qed.
Lemma registered_ok h key now fs n : 0 ≤ n ≤ Z.of_nat (failures_of key h) →
  attempt_ok (h ++ [(call_RegisterLoginFailure key now, fs)]) key
    (mkAttemptRow (n + 1) (if 5 <=? n + 1 then Some (Format (now + lockout (n + 1))) else None) (Format now)).
Proof.
  intros Hn. unfold attempt_ok, failures_of in *. rewrite filter_app, length_app.
  rewrite filter_cons_True by by apply bool_decide_true. rewrite filter_nil. cbn. split_and!; [lia..|].
  intros text. destruct (Z.leb_spec 5 (n + 1)); [|done]. intros [= <-]. split; [done|]. exists now, fs. split; [|done]. apply elem_of_app. right. by apply list_elem_of_singleton.
Qed.
Lemma attempts_ok h key r : login_attempts (run_all h empty_database) !! key = Some r → attempt_ok h key r.
Proof.
  revert key r. induction h as [|[c fs] h IH] using rev_ind; intros key r; [done|]. rewrite run_all_snoc. cbn [fst snd]. set (d := run_all h empty_database) in *.
  destruct (attempt_call c) eqn:Hc; [|rewrite attempts_kept by done; intros Hr; by apply attempt_ok_mono, IH]. destruct c; try done; clear Hc; cbn [run].
  - unfold RegisterLoginFailure. cbv zeta. call_cases; [intros Hr; by apply attempt_ok_mono, IH|]. db_run; cbn. destruct (decide (key0 = key)) as [->|Hne].
    + rewrite lookup_insert_eq. intros [= <-]. apply registered_ok. destruct H as [-> | ->]; [|lia]. destruct (login_attempts d !! key) as [r|] eqn:Hr; [|cbn; lia].
      destruct (IH _ _ Hr) as (? & ? & _). lia.
    + rewrite lookup_insert_ne by done. intros Hr. by apply attempt_ok_mono, IH.
  - unfold ClearLoginFailures. call_cases; [intros Hr; by apply attempt_ok_mono, IH|]. db_run. cbn. intros [Hr _]%map_lookup_filter_Some. by apply attempt_ok_mono, IH.
  - unfold PurgeStaleLoginAttempts. call_cases; [intros Hr; by apply attempt_ok_mono, IH|]. db_run. cbn. intros [Hr _]%map_lookup_filter_Some. by apply attempt_ok_mono, IH.
Qed.
Lemma lockout_bounds n : 5 ≤ n → 0 ≤ lockout n ≤ 900 * nanoseconds.
Proof.
  intros Hn. unfold lockout, nanoseconds. assert (0 ≤ Z.shiftl 30 (Z.min (n - 5) 5)) by (apply Z.shiftl_nonneg; lia). lia.
Qed.
(** A login is locked only after five failures with its key, and never for more
    than a quarter of an hour after one of them. *)
Theorem locked_after_failures h key now fs t s :
  Forall (λ c, match c.1 with call_RegisterLoginFailure _ at_ => ∀ n, 5 ≤ n → four_digit_year (at_ + lockout n) | _ => True end) h →
  LoginLockedUntil key now (fs, run_all h empty_database) = Ok (Some t, s) →
  (5 ≤ failures_of key h)%nat ∧ now < t ∧ ∃ at_ faults, (call_RegisterLoginFailure key at_, faults) ∈ h ∧ at_ ≤ t ≤ at_ + 900 * nanoseconds.
Proof.
  intros Hw Hl. destruct s as [fs1 d1]. unfold LoginLockedUntil in Hl. db_run; simplify_eq. case_match; simplify_eq.
  destruct (login_attempts _ !! key) as [r|] eqn:Hr; [|done]. cbn in *. apply attempts_ok in Hr as (Hc & _ & Hlock).
  match goal with H : l_locked r = Some _ |- _ => destruct (Hlock _ H) as (H5 & at_ & faults & Hin & ->) end.
  rewrite Forall_forall in Hw. rewrite Parse_Format in * by by apply (Hw _ Hin). simplify_eq. pose proof (lockout_bounds _ H5).
  split; [lia|]. unfold After in *. split; [lia|]. exists at_, faults. split; [done|lia].
Qed.
(** A call that makes the count of failures of a key start again. *)
Definition forgets (key : string) (c : call) : Prop :=
  match c with call_ClearLoginFailures key' => key' = key | call_PurgeStaleLoginAttempts _ => True | _ => False end.
Lemma register_row key at_ d : login_attempts (run (call_RegisterLoginFailure key at_) [] d) =
  let n := match login_attempts d !! key with Some r => l_failures r | None => 0 end + 1 in
  <[key := mkAttemptRow n (if 5 <=? n then Some (Format (at_ + lockout n)) else None) (Format at_)]> (login_attempts d).
Proof. done. Qed.
Lemma failures_counted h key : Forall (λ c, c.2 = [] ∧ ¬ forgets key c.1) h →
  match login_attempts (run_all h empty_database) !! key with Some r => l_failures r | None => 0 end = Z.of_nat (failures_of key h).
Proof.
  induction h as [|[c fs] h IH] using rev_ind; [done|]. intros [Hh [[Hfs Hc] _]%Forall_cons]%Forall_app. specialize (IH Hh). cbn in Hfs, Hc. subst fs. rewrite run_all_snoc. cbn [fst snd].
  unfold failures_of in *. rewrite filter_app, length_app. set (d := run_all h empty_database) in *. set (n := length (filter _ h)) in *. clearbody n.
  destruct (attempt_call c) eqn:Hcall. 2: { rewrite attempts_kept, IH by done. rewrite filter_cons_False; [cbn; lia|]. by destruct c. }
  destruct c; try discriminate Hcall; cbn [forgets] in Hc; [| |done].
  - rewrite register_row. cbv zeta. destruct (decide (key0 = key)) as [->|Hne].
    + rewrite filter_cons_True by by apply bool_decide_true. rewrite lookup_insert_eq. cbn [l_failures]. cbn [filter list_filter length]. lia.
    + rewrite filter_cons_False by (cbn; by rewrite bool_decide_false). rewrite lookup_insert_ne by done. cbn [filter list_filter length]. lia.
  - rewrite filter_cons_False by done. cbn [filter list_filter length run]. unfold ClearLoginFailures. call_cases; [lia|]. db_run. cbn.
    rewrite map_lookup_filter, Nat.add_0_r, <-IH. destruct (login_attempts d !! key) as [r|]; [|done]. cbn. rewrite option_guard_True; [done|]. by rewrite bool_decide_false.
Qed.
(** C33. Failures lock a login: when the calls of a history succeed and none forgets the
    key, the next failure, if at least the fourth came before it, locks the login
    until exactly the time its count gives, and a login is open before that many. *)
Theorem login_lock_exact h key at_ now : Forall (λ c, c.2 = [] ∧ ¬ forgets key c.1) h → let n := Z.of_nat (failures_of key h) + 1 in four_digit_year (at_ + lockout n) →
  ∃ s, LoginLockedUntil key now ([], run (call_RegisterLoginFailure key at_) [] (run_all h empty_database))
  = Ok (if (5 <=? n) && (now <? at_ + lockout n) then Some (at_ + lockout n) else None, s).
Proof.
  intros Hh n Hy. eexists. pose proof (failures_counted h key Hh) as Hn. unfold LoginLockedUntil, query, statement, attempt, mbind, tx_mbind. cbn [fst snd].
  rewrite register_row. cbv zeta. rewrite Hn, lookup_insert_eq. fold n. cbn [mbind option_bind l_locked]. destruct (5 <=? n); cbn [andb]; [|reflexivity].
  rewrite Parse_Format by done. reflexivity.
Qed.
End Users.
