(* ===== verification/PoliciesFacts.v ===== *)
(** Who has which policies: what [RBACPoliciesForSubject] reads through its joins,
    policies read back as they were saved, and no assignment left behind by a
    subject that is gone. *)
From S2P Require Import Prelude GoLib Base64 Json JsonFacts JsonPrint FileTypes Rbac Entities SignedAuth SignedAuthFacts SignedRoundtrip GoTime ControlStore.
From S2P Require Import Sql AuditChain ControlDb ControlPending ControlUsers ControlPolicies ControlAccounts ControlNodes ControlLinks ControlCalls ControlSteps UsersFacts.
From stdpp Require Import options.
Import store cdb audit policies control.
Local Open Scope Z_scope.
Local Open Scope go_scope.
#[local] Set Default Proof Using "Type*".

(** * Joins *)

Lemma elem_of_rows_where {K V} `{Countable K} (cond : K → V → bool) (m : gmap K V) k v : (k, v) ∈ rows_where cond m ↔ m !! k = Some v ∧ cond k v = true.
Proof. unfold rows_where. rewrite list_elem_of_filter, elem_of_map_to_list. cbn. tauto. Qed.
Lemma head_where {K V} `{Countable K} (cond : K → V → bool) (m : gmap K V) k v : head (rows_where cond m) = Some (k, v) → m !! k = Some v ∧ cond k v = true.
Proof. intros Hh. apply elem_of_rows_where. destruct (rows_where cond m); [done|]. injection Hh as ->. by left. Qed.
Lemma elem_of_keys_where {K V} `{Countable K} (cond : K → V → bool) (m : gmap K V) k : k ∈ keys_where cond m ↔ ∃ v, m !! k = Some v ∧ cond k v = true.
Proof.
  unfold keys_where. rewrite list_elem_of_fmap. split.
  - intros ([k' v] & -> & Hin%elem_of_rows_where). eauto.
  - intros (v & Hv). exists (k, v). by rewrite elem_of_rows_where.
Qed.
Lemma left_join_inv {A B} (rows : list A) (on : A → list B) a b : (a, b) ∈ left_join rows on → a ∈ rows ∧ ∀ x, b = Some x → x ∈ on a.
Proof.
  unfold left_join. rewrite list_elem_of_bind. intros (a' & Hin & Ha'). assert (a' = a ∧ ∀ x, b = Some x → x ∈ on a') as [-> Hx]; [|done].
  destruct (on a') as [|y l] eqn:Hon; [by apply list_elem_of_singleton in Hin as [= -> ->]|]. apply list_elem_of_fmap in Hin as (z & [= -> ->] & Hz). split; [done|]. by intros x [= ->].
Qed.
(** A row is kept, with the match that is wanted if there is one. *)
Lemma left_join_pick {A B} (rows : list A) (on : A → list B) a (w : option B) : a ∈ rows → (∀ x, w = Some x → x ∈ on a) →
  ∃ b, (a, b) ∈ left_join rows on ∧ (is_Some w → b = w).
Proof.
  intros Ha Hw. unfold left_join. destruct (on a) as [|y l] eqn:Hon.
  - exists None. split; [|intros [x Hx]; by apply Hw, not_elem_of_nil in Hx]. apply list_elem_of_bind. exists a. rewrite Hon. split; [by apply list_elem_of_singleton|done].
  - exists (Some (default y w)). split; [|by intros [x ->]]. apply list_elem_of_bind. exists a. rewrite Hon. split; [|done]. apply list_elem_of_fmap. exists (default y w).
    split; [done|]. destruct w as [x|]; [by apply Hw|by left].
Qed.

Section Policies.
Context {U : Unicode} {C : Crypto} {Q_ : Sqlite}.

Section Subject.
Context (d : database) (subjectID : string) (now : time).
Definition has_assignment (subjectType id : string) : Prop := is_Some (policy_assignments d !! (id, (subjectType, subjectID))).
Definition has_assignment_for_now (subjectType id : string) : Prop :=
  ∃ r, temporary_assignments d !! (id, (subjectType, subjectID)) = Some r ∧ now < tp_expires r.
Definition has_through_role (id : string) : Prop := ∃ role, is_Some (user_roles d !! (subjectID, role)) ∧ is_Some (role_policies d !! (role, id)).
Definition has_through_group (id : string) : Prop :=
  ∃ group r, is_Some (service_account_groups d !! (subjectID, group)) ∧ access_groups d !! group = Some r ∧ g_enabled r = 1
    ∧ is_Some (access_group_policies d !! (group, id)).
(** Whether a policy applies to the subject, without any join. *)
Definition applies (subjectType id : string) : Prop :=
  if subjectType =s "user" then has_assignment "user" id ∨ has_assignment_for_now "user" id ∨ has_through_role id
  else if subjectType =s "service_account"
  then has_assignment "service_account" id ∨ has_assignment_for_now "service_account" id ∨ has_through_group id
  else has_assignment subjectType id.

Lemma elem_of_assigned subjectType id x : x ∈ assigned d subjectID subjectType id → has_assignment subjectType id.
Proof. intros (v & Hv & Hc)%elem_of_keys_where. bool_to_prop. destruct x as [? [? ?]]. cbn in *. subst. by eexists. Qed.
Lemma assigned_elem subjectType id : has_assignment subjectType id → (id, (subjectType, subjectID)) ∈ assigned d subjectID subjectType id.
Proof. intros [v Hv]. apply elem_of_keys_where. exists v. split; [done|]. cbn. by rewrite !bool_decide_true. Qed.
Lemma elem_of_assigned_for_now subjectType id x : x ∈ assigned_for_now d subjectID now subjectType id → has_assignment_for_now subjectType id.
Proof. intros (v & Hv & Hc)%elem_of_keys_where. bool_to_prop. destruct x as [? [? ?]]. cbn in *. subst. exists v. split; [done|lia]. Qed.
Lemma assigned_for_now_elem subjectType id : has_assignment_for_now subjectType id → (id, (subjectType, subjectID)) ∈ assigned_for_now d subjectID now subjectType id.
Proof. intros (r & Hr & Hlt). apply elem_of_keys_where. exists r. split; [done|]. cbn. rewrite !bool_decide_true by done. cbn. by apply Z.ltb_lt. Qed.

Lemma policy_ids id : id ∈ (map_to_list (cdb.policies d)).*1 ↔ is_Some (cdb.policies d !! id).
Proof.
  rewrite list_elem_of_fmap. split; [intros ([k v] & -> & Hin%elem_of_map_to_list); by eexists|]. intros [v Hv]. exists (id, v). by rewrite elem_of_map_to_list.
Qed.
Lemma user_policies_spec id : id ∈ user_policies d subjectID now ↔ is_Some (cdb.policies d !! id) ∧ applies "user" id.
Proof.
  rewrite <-policy_ids. unfold applies. rewrite bool_decide_true by done. unfold user_policies. cbv zeta. rewrite list_elem_of_fmap. split.
  - intros (((((p & a) & t) & rp) & ur) & -> & [Hw Hin]%list_elem_of_filter). apply left_join_inv in Hin as [Hin Hur]. apply left_join_inv in Hin as [Hin Hrp].
    apply left_join_inv in Hin as [Hin Ht]. apply left_join_inv in Hin as [Hin Ha]. split; [done|]. destruct a as [a|]; [left; by eapply elem_of_assigned, Ha|right].
    destruct t as [t|]; [left; by eapply elem_of_assigned_for_now, Ht|right]. destruct ur as [ur|]; [|done]. destruct rp as [rp|]; [|by destruct (not_elem_of_nil _ (Hur _ eq_refl))].
    specialize (Hrp _ eq_refl) as (v & Hv & Hc)%elem_of_keys_where. specialize (Hur _ eq_refl) as (w & Hw' & Hc')%elem_of_keys_where.
    bool_to_prop. destruct rp as [? ?], ur as [? ?]. cbn in *. subst. eexists. split; by eexists.
  - intros [Hid Happ].
    assert (∃ wa wt wr wu, (∀ x, wa = Some x → x ∈ assigned d subjectID "user" id) ∧ (∀ x, wt = Some x → x ∈ assigned_for_now d subjectID now "user" id)
      ∧ (∀ x, wr = Some x → x ∈ keys_where (λ k _, k.2 =s id) (role_policies d))
      ∧ (∀ x, wu = Some x → ∃ r, wr = Some r ∧ x ∈ keys_where (λ k _, (k.2 =s r.1) && (k.1 =s subjectID)) (user_roles d))
      ∧ (is_Some wa ∨ is_Some wt ∨ is_Some wu)) as (wa & wt & wr & wu & Ha & Ht & Hr & Hu & Hsome).
    { destruct Happ as [Ha|[Ht|(role & [u Hu] & [r Hr])]].
      - exists (Some (id, ("user", subjectID))), None, None, None. split_and!; [|done..|left; by eexists]. intros x [= <-]. by apply assigned_elem.
      - exists None, (Some (id, ("user", subjectID))), None, None. split_and!; [done| |done..|right; left; by eexists]. intros x [= <-]. by apply assigned_for_now_elem.
      - exists None, None, (Some (role, id)), (Some (subjectID, role)). split_and!; [done|done| | |right; right; by eexists].
        + intros x [= <-]. apply elem_of_keys_where. exists r. by rewrite bool_decide_true.
        + intros x [= <-]. eexists. split; [done|]. apply elem_of_keys_where. exists u. cbn. by rewrite !bool_decide_true. }
    destruct (left_join_pick (map_to_list (cdb.policies d)).*1 (assigned d subjectID "user") id wa) as (a & Hina & Hwa); [done..|].
    edestruct (left_join_pick _ (λ '(p, _), assigned_for_now d subjectID now "user" p) _ wt Hina) as (t & Hint & Hwt); [done|].
    edestruct (left_join_pick _ (λ '((p, _), _), keys_where (λ k _, k.2 =s p) (role_policies d)) _ wr Hint) as (rp & Hinr & Hwr); [done|].
    edestruct (left_join_pick _ (λ '(_, rp), match rp with None => [] | Some rp => keys_where (λ k _, (k.2 =s rp.1) && (k.1 =s subjectID)) (user_roles d) end) _ wu Hinr)
      as (ur & Hinu & Hwu); [intros x Hx; destruct (Hu _ Hx) as (r & -> & Hin); by rewrite Hwr|].
    eexists. split; [|apply list_elem_of_filter; split; [|exact Hinu]]; [done|]. cbn. destruct Hsome as [Hs|[Hs|Hs]].
    + rewrite Hwa by done. destruct Hs as [x ->]. done.
    + rewrite Hwt by done. destruct Hs as [x ->]. by destruct a.
    + rewrite Hwu by done. destruct Hs as [x ->]. by destruct a, t.
Qed.
Lemma account_policies_spec id : id ∈ account_policies d subjectID now ↔ is_Some (cdb.policies d !! id) ∧ applies "service_account" id.
Proof.
  rewrite <-policy_ids. unfold applies. rewrite bool_decide_false, bool_decide_true by done. unfold account_policies. cbv zeta. rewrite list_elem_of_fmap. split.
  - intros ((((((p & a) & t) & sg) & g) & gp) & -> & [Hw Hin]%list_elem_of_filter). apply left_join_inv in Hin as [Hin Hgp]. apply left_join_inv in Hin as [Hin Hg].
    apply left_join_inv in Hin as [Hin Hsg]. apply left_join_inv in Hin as [Hin Ht]. apply left_join_inv in Hin as [Hin Ha]. split; [done|].
    destruct a as [a|]; [left; by eapply elem_of_assigned, Ha|right]. destruct t as [t|]; [left; by eapply elem_of_assigned_for_now, Ht|right]. destruct gp as [gp|]; [|done].
    destruct g as [g|]; [|by destruct (not_elem_of_nil _ (Hgp _ eq_refl))]. destruct sg as [sg|]; [|by destruct (not_elem_of_nil _ (Hg _ eq_refl))].
    specialize (Hgp _ eq_refl) as (v & Hv & Hc)%elem_of_keys_where. specialize (Hg _ eq_refl) as (r & Hr & Hc')%elem_of_keys_where.
    specialize (Hsg _ eq_refl) as (w & Hw' & Hc'')%elem_of_keys_where. bool_to_prop. destruct gp as [? ?], sg as [? ?]. cbn in *. subst.
    eexists _, r. split_and!; [by eexists|done|lia|by eexists].
  - intros [Hid Happ].
    assert (∃ wa wt ws wg wp, (∀ x, wa = Some x → x ∈ assigned d subjectID "service_account" id) ∧ (∀ x, wt = Some x → x ∈ assigned_for_now d subjectID now "service_account" id)
      ∧ (∀ x, ws = Some x → x ∈ keys_where (λ k _, k.1 =s subjectID) (service_account_groups d))
      ∧ (∀ x, wg = Some x → ∃ m, ws = Some m ∧ x ∈ keys_where (λ k r, (k =s m.2) && (g_enabled r =? 1)) (access_groups d))
      ∧ (∀ x, wp = Some x → ∃ g, wg = Some g ∧ x ∈ keys_where (λ k _, (k.2 =s id) && (k.1 =s g)) (access_group_policies d))
      ∧ (is_Some wa ∨ is_Some wt ∨ is_Some wp)) as (wa & wt & ws & wg & wp & Ha & Ht & Hs & Hg & Hp & Hsome).
    { destruct Happ as [Ha|[Ht|(group & r & [m Hm] & Hr & He & [q Hq])]].
      - exists (Some (id, ("service_account", subjectID))), None, None, None, None. split_and!; [|done..|left; by eexists]. intros x [= <-]. by apply assigned_elem.
      - exists None, (Some (id, ("service_account", subjectID))), None, None, None. split_and!; [done| |done..|right; left; by eexists]. intros x [= <-]. by apply assigned_for_now_elem.
      - exists None, None, (Some (subjectID, group)), (Some group), (Some (group, id)). split_and!; [done|done| | | |right; right; by eexists].
        + intros x [= <-]. apply elem_of_keys_where. exists m. by rewrite bool_decide_true.
        + intros x [= <-]. eexists. split; [done|]. apply elem_of_keys_where. exists r. split; [done|]. by rewrite bool_decide_true, He.
        + intros x [= <-]. eexists. split; [done|]. apply elem_of_keys_where. exists q. cbn. by rewrite !bool_decide_true. }
    destruct (left_join_pick (map_to_list (cdb.policies d)).*1 (assigned d subjectID "service_account") id wa) as (a & Hina & Hwa); [done..|].
    edestruct (left_join_pick _ (λ '(p, _), assigned_for_now d subjectID now "service_account" p) _ wt Hina) as (t & Hint & Hwt); [done|].
    edestruct (left_join_pick _ (λ _, keys_where (λ k _, k.1 =s subjectID) (service_account_groups d)) _ ws Hint) as (sg & Hins & Hws); [done|].
    edestruct (left_join_pick _ (λ '(_, sg), match sg with None => [] | Some sg => keys_where (λ k r, (k =s sg.2) && (g_enabled r =? 1)) (access_groups d) end) _ wg Hins)
      as (g & Hing & Hwg); [intros x Hx; destruct (Hg _ Hx) as (m & -> & Hin); by rewrite Hws|].
    edestruct (left_join_pick _ (λ '((((p, _), _), _), g), match g with None => [] | Some g => keys_where (λ k _, (k.2 =s p) && (k.1 =s g)) (access_group_policies d) end) _ wp Hing)
      as (gp & Hinp & Hwp); [intros x Hx; destruct (Hp _ Hx) as (m & -> & Hin); by rewrite Hwg|].
    eexists. split; [|apply list_elem_of_filter; split; [|exact Hinp]]; [done|]. cbn. destruct Hsome as [Hs'|[Hs'|Hs']].
    + rewrite Hwa by done. destruct Hs' as [x ->]. done.
    + rewrite Hwt by done. destruct Hs' as [x ->]. by destruct a.
    + rewrite Hwp by done. destruct Hs' as [x ->]. by destruct a, t.
Qed.
Lemma other_policies_spec subjectType id : subjectType ≠ "user" → subjectType ≠ "service_account" →
  id ∈ other_policies d subjectID subjectType ↔ is_Some (cdb.policies d !! id) ∧ applies subjectType id.
Proof.
  intros Hu Hs. rewrite <-policy_ids. unfold applies. rewrite !bool_decide_false by done. unfold other_policies. rewrite list_elem_of_bind. split.
  - intros (p & Hin & Hp). apply list_elem_of_fmap in Hin as (x & -> & Hx). split; [done|]. by eapply elem_of_assigned.
  - intros [Hid Ha]. exists id. split; [|done]. apply list_elem_of_fmap. eexists. split; [done|]. by apply assigned_elem.
Qed.
Lemma select_policies_spec subjectType id name : (id, name) ∈ select_policies d subjectID now subjectType ↔
  ∃ r, cdb.policies d !! id = Some r ∧ name = p_name r ∧ applies subjectType id.
Proof.
  unfold select_policies. cbv zeta. rewrite list_elem_of_omap. match goal with |- context [remove_dups ?l] => set (ids := l) end.
  assert (∀ id, id ∈ ids ↔ is_Some (cdb.policies d !! id) ∧ applies subjectType id) as Hids.
  { intros i. unfold ids. destruct (bool_decide_reflect (subjectType = "user")) as [->|]; [apply user_policies_spec|].
    destruct (bool_decide_reflect (subjectType = "service_account")) as [->|]; [apply account_policies_spec|by apply other_policies_spec]. }
  assert (∀ i : string, i ∈ order_by (λ x : string, x) (remove_dups ids) ↔ i ∈ ids) as Hord by (intros i; unfold order_by; by rewrite merge_sort_Permutation, elem_of_remove_dups).
  split.
  - intros (i & Hi & Hsome). destruct (cdb.policies d !! i) as [r|] eqn:Hr; [|done]. injection Hsome as <- <-. apply Hord, Hids in Hi as [_ Ha]. eauto.
  - intros (r & Hr & -> & Ha). exists id. rewrite Hr. split; [|done]. apply Hord, Hids. split; [by eexists|done].
Qed.
Lemma select_policies_distinct subjectType : NoDup (select_policies d subjectID now subjectType).*1.
Proof.
  unfold select_policies. cbv zeta. match goal with |- context [remove_dups ?l] => set (ids := l) end. assert (NoDup (order_by (λ x : string, x) (remove_dups ids))) as Hd.
  { unfold order_by. rewrite merge_sort_Permutation. apply NoDup_remove_dups. }
  induction Hd as [|i l Hi Hd IH]; [constructor|]. cbn. destruct (cdb.policies d !! i) as [r|]; cbn; [|done]. constructor; [|done].
  intros ([j n] & -> & Hin)%list_elem_of_fmap. apply list_elem_of_omap in Hin as (k & Hk & Hs). destruct (cdb.policies d !! k); [|done]. by injection Hs as -> _.
Qed.
End Subject.

Lemma policyRules_inv id fs d rules fs' d' : policyRules id (fs, d) = Ok (rules, (fs', d')) → d' = d ∧ mapM read_rule (rules_of id d) = Ok rules.
Proof. unfold policyRules. intros H. sql_inv. done. Qed.
Lemma each_read {A B} (f : A → tx database B) (P : database → A → B → Prop) rows fs d l fs' d' :
  (∀ a fs d b fs' d', f a (fs, d) = Ok (b, (fs', d')) → d' = d ∧ P d a b) → each f rows (fs, d) = Ok (l, (fs', d')) → d' = d ∧ Forall2 (P d) rows l.
Proof.
  intros Hf. revert fs l fs' d'. induction rows as [|a rows IH]; intros fs l fs' d' H; cbn [each] in H; sql_inv; [done|].
  match goal with H : f a _ = _ |- _ => apply Hf in H as [-> HP] end. match goal with H : each f _ _ = _ |- _ => apply IH in H as [-> HF] end. split; [done|by constructor].
Qed.
(** C29. The policies of a subject are exactly those that apply to it - assigned, assigned
    for now and not expired, through a role of the user, or through an enabled group
    of the service account - once each, with the rules the database has for them. *)
Theorem subject_policies_exact subjectType subjectID now fs d l s :
  RBACPoliciesForSubject subjectType subjectID now (fs, d) = Ok (l, s) →
  NoDup (rbac.ID <$> l) ∧ ∀ p, p ∈ l ↔ ∃ r, cdb.policies d !! rbac.ID p = Some r ∧ rbac.Name p = p_name r ∧ applies d subjectID now subjectType (rbac.ID p)
    ∧ mapM read_rule (rules_of (rbac.ID p) d) = Ok (rbac.Rules p).
Proof.
  destruct s as [fs' d']. unfold RBACPoliciesForSubject. intros H. sql_inv.
  match goal with H : each _ _ _ = _ |- _ => eapply (each_read _ (λ d row p, rbac.ID p = row.1 ∧ rbac.Name p = row.2 ∧ mapM read_rule (rules_of row.1 d) = Ok (rbac.Rules p))) in H as [_ HF] end.
  2: { intros [id name] fs1 d1 b fs2 d2 H. sql_inv. match goal with H : policyRules _ _ = _ |- _ => apply policyRules_inv in H as [-> ?] end. done. }
  split.
  - assert (rbac.ID <$> l = (select_policies d subjectID now subjectType).*1) as ->; [|apply select_policies_distinct].
    clear -HF. induction HF as [|[id name] p rows l (Hid & _) _ IH]; [done|]. cbn in *. by rewrite Hid, IH.
  - intros p. split.
    + intros Hp. apply list_elem_of_lookup in Hp as [i Hi]. destruct (Forall2_lookup_r _ _ _ _ _ HF Hi) as ([id name] & Hrow & Hid & Hname & Hrules). cbn in *. subst.
      apply list_elem_of_lookup_2, select_policies_spec in Hrow as (r & Hr & Hn & Ha). eauto 10.
    + intros (r & Hr & Hn & Ha & Hrules).
      assert ((rbac.ID p, rbac.Name p) ∈ select_policies d subjectID now subjectType) as [i Hi]%list_elem_of_lookup by (apply select_policies_spec; eauto).
      destruct (Forall2_lookup_l _ _ _ _ _ HF Hi) as (q & Hq & Hid & Hname & Hrules'). cbn in *. apply list_elem_of_lookup. exists i. rewrite Hq. f_equal.
      destruct p, q. cbn in *. simplify_eq. congruence.
Qed.

(** * Rules *)

Fixpoint rule_rows (policyID : string) (position : Z) (rules : list rbac.Rule) : list rule_row :=
  match rules with [] => [] | rule :: rules => write_rule policyID position rule :: rule_rows policyID (position + 1) rules end.
Lemma raised v fs d a fs' d' : raise_version v (fs, d) = Ok (a, (fs', d')) → ∃ m, d' = d <| metadata := m |>.
Proof. intros ->%exec_inv. by eexists. Qed.
Lemma not_raised fs d (a : ()) fs' d' : (mret () : tx database ()) (fs, d) = Ok (a, (fs', d')) → ∃ m, d' = d <| metadata := m |>.
Proof. intros [_ ->]%ret_inv. exists (metadata d). by destruct d. Qed.
Lemma insertPolicyRules_inv id n rules fs d a fs' d' : insertPolicyRules id n rules (fs, d) = Ok (a, (fs', d')) →
  (∃ m, d' = d <| metadata := m |> <| policy_rules := policy_rules d ++ rule_rows id n rules |>) ∧ Forall (λ rule, validatePolicyTypeRule rule = Ok ()) rules.
Proof.
  revert n fs d. induction rules as [|rule rules IH]; intros n fs d H; cbn [insertPolicyRules] in H.
  - sql_inv. split; [|constructor]. exists (metadata d). cbn. rewrite app_nil_r. by destruct d.
  - apply tx_bind_inv in H as ([] & fs1 & d1 & [Hv ->]%lift_inv & H). apply tx_bind_inv in H as ([] & fs2 & d2 & H2 & H). apply tx_bind_inv in H as ([] & fs3 & d3 & H3 & H).
    assert (∃ m, d3 = d <| metadata := m |>) as [m ->].
    { assert (∃ m, d2 = d <| metadata := m |>) as [m ->] by (destruct (bool_decide (is_Some _)); [by eapply raised|by eapply not_raised]).
      assert (∃ m', d3 = d <| metadata := m |> <| metadata := m' |>) as [m' ->] by (destruct (rbac.rule_NeedsApproval rule =s []); [by eapply not_raised|by eapply raised]). by exists m'. }
    sql_inv. match goal with H : insertPolicyRules _ _ _ _ = _ |- _ => apply IH in H as [[m' ->] Hall] end. split; [|by constructor].
    exists m'. cbn. by rewrite <-app_assoc.
Qed.
Lemma rule_rows_policy id n rules : Forall (λ r, r_policy r = id) (rule_rows id n rules).
Proof. revert n. induction rules as [|rule rules IH]; intros n; constructor; [done|apply IH]. Qed.
End Policies.
