(* ===== verification/AssignmentsFacts.v ===== *)
(** References between the tables of the Control Tower that its schema does not
    enforce, or only through cascades: an assignment names a policy and a subject
    that are there, and a rule a policy that is. *)
From S2P Require Import Prelude GoLib Base64 Json JsonFacts JsonPrint FileTypes Rbac Entities SignedAuth SignedAuthFacts SignedRoundtrip ControlStore.
From S2P Require Import GoTime Sql AuditChain ControlDb ControlPending ControlUsers ControlPolicies ControlAccounts ControlNodes ControlLinks.
From S2P Require Import ControlCalls ControlSteps UsersFacts PoliciesFacts.
From stdpp Require Import options.
Import store cdb audit policies control.
Local Open Scope Z_scope.
Local Open Scope go_scope.
#[local] Set Default Proof Using "Type*".

Section Live.
Context {U : Unicode} {C : Crypto} {Q_ : Sqlite}.

Definition subject_there (d : database) (subject : string * string) : Prop :=
  subject.1 = "user" ∧ is_Some (cdb.users d !! subject.2) ∨ subject.1 = "service_account" ∧ is_Some (service_accounts d !! subject.2).
Definition assigned_there {V} (d : database) (m : gmap (string * (string * string)) V) : Prop :=
  ∀ k, is_Some (m !! k) → is_Some (cdb.policies d !! k.1) ∧ subject_there d k.2.
Definition references_live (d : database) : Prop :=
  assigned_there d (policy_assignments d) ∧ assigned_there d (temporary_assignments d) ∧ Forall (λ r, is_Some (cdb.policies d !! r_policy r)) (policy_rules d).

(** Subjects and policies are there that were. *)
Definition keeps_subjects (d d' : database) : Prop :=
  dom (cdb.users d) ⊆ dom (cdb.users d') ∧ dom (service_accounts d) ⊆ dom (service_accounts d').
Definition keeps_policies (d d' : database) : Prop := dom (cdb.policies d) ⊆ dom (cdb.policies d').
Lemma kept_there {V} (m m' : gmap string V) id : dom m ⊆ dom m' → is_Some (m !! id) → is_Some (m' !! id).
Proof. rewrite <-!elem_of_dom. auto. Qed.
Lemma subject_kept d d' s : keeps_subjects d d' → subject_there d s → subject_there d' s.
Proof. intros [Hu Hs] [[? ?]|[? ?]]; [left|right]; split; try done; by eapply kept_there. Qed.
Lemma assigned_kept {V} (d d' : database) (m m' : gmap (string * (string * string)) V) : keeps_subjects d d' → keeps_policies d d' → (∀ k, is_Some (m' !! k) → is_Some (m !! k)) →
  assigned_there d m → assigned_there d' m'.
Proof. intros Hs Hp Hm Ha k Hk. destruct (Ha k (Hm k Hk)). split; [by eapply kept_there|by eapply subject_kept]. Qed.
Lemma references_kept d d' : keeps_subjects d d' → keeps_policies d d' → (∀ k, is_Some (policy_assignments d' !! k) → is_Some (policy_assignments d !! k)) →
  (∀ k, is_Some (temporary_assignments d' !! k) → is_Some (temporary_assignments d !! k)) → policy_rules d' = policy_rules d → references_live d → references_live d'.
Proof.
  intros Hs Hp Ha Ht Hr (La & Lt & Lr). split_and!; [by eapply assigned_kept..|]. rewrite Hr. eapply Forall_impl; [exact Lr|]. intros r Hin. by eapply kept_there.
Qed.

Definition access_tables (d : database) := (cdb.users d, service_accounts d, cdb.policies d, policy_assignments d, temporary_assignments d, policy_rules d).
Definition access_call (c : call) : bool :=
  match c with
  | call_CreateUser _ | call_UpdateUser _ _ | call_DeleteUser _ | call_EnsureAdmin _ _ _ _ | call_EmergencyRecoverAdmin _ _ _ _ _
  | call_CreateServiceAccount _ | call_UpdateServiceAccount _ | call_DeleteServiceAccount _ | call_DisableAgents _
  | call_CreatePolicy _ | call_UpdatePolicy _ | call_DeletePolicy _ | call_SetSubjectPolicies _ _ _ _ | call_GrantTemporaryPolicy _ _ _ _ _ _ _ _
  | call_RevokeTemporaryPolicy _ _ _ _ _ _ _ => true
  | _ => false
  end.
Lemma access_kept c fs d : access_call c = false → access_tables (run c fs d) = access_tables d.
Proof. intros Hc. change (same access_tables d (run c fs d)). destruct c; try discriminate Hc; clear Hc; keeps_table. Qed.

Ltac kept := apply references_kept; cbn; [split|unfold keeps_policies|..]; cbn; try done.
Lemma dom_insert_kept {V} (m : gmap string V) k v : dom m ⊆ dom (<[k := v]> m).
Proof. rewrite dom_insert. set_solver. Qed.

Lemma live_CreateUser user fs d : references_live d → references_live (run (call_CreateUser user) fs d).
Proof. cbn [run]. unfold users.CreateUser. cbv zeta. call_cases; [done|]. db_run. kept. apply dom_insert_kept. Qed.
Lemma live_UpdateUser user hash fs d : references_live d → references_live (run (call_UpdateUser user hash) fs d).
Proof.
  cbn [run]. outcome (users.UpdateUser user hash fs d); [done|]. apply UpdateUser_inv in Hrun as (r & r' & s & _ & _ & _ & -> & _). kept. apply dom_insert_kept.
Qed.
Lemma live_EnsureAdmin id name hash now fs d : references_live d → references_live (run (call_EnsureAdmin id name hash now) fs d).
Proof. cbn [run]. unfold users.EnsureAdmin. cbv zeta. call_cases; [done|]. db_run; [done|]. kept. apply dom_insert_kept. Qed.
Lemma live_EmergencyRecoverAdmin id name hash cid now fs d : references_live d → references_live (run (call_EmergencyRecoverAdmin id name hash cid now) fs d).
Proof. cbn [run]. unfold users.EmergencyRecoverAdmin. case_match; [done|]. cbv zeta. call_cases; [done|]. db_run; kept; apply dom_insert_kept. Qed.
Lemma live_CreateServiceAccount account fs d : references_live d → references_live (run (call_CreateServiceAccount account) fs d).
Proof. cbn [run]. unfold accounts.CreateServiceAccount. cbv zeta. case_match; [done|]. call_cases; [done|]. db_run; kept; apply dom_insert_kept. Qed.
Lemma live_UpdateServiceAccount account fs d : references_live d → references_live (run (call_UpdateServiceAccount account) fs d).
Proof.
  cbn [run]. unfold accounts.UpdateServiceAccount. call_cases; [done|]. db_run. cbv zeta in *. repeat case_match; simplify_eq. kept. apply dom_insert_kept.
Qed.
Lemma live_DisableAgents now fs d : references_live d → references_live (run (call_DisableAgents now) fs d).
Proof.
  cbn [run]. unfold accounts.DisableAgents. call_cases; [done|]. db_run. kept. intros id. rewrite !elem_of_dom, map_lookup_imap. intros [r ->]. by eexists.
Qed.

(** A subject is deleted with its assignments. *)
Lemma assigned_without {V} (type id : string) (d d' : database) (m : gmap (string * (string * string)) V) :
  keeps_policies d d' → (∀ s, s ≠ (type, id) → subject_there d s → subject_there d' s) →
  assigned_there d m → assigned_there d' (filter (λ kv, (kv.1.2.1 =s type) && (kv.1.2.2 =s id) = false) m).
Proof.
  intros Hp Hs Ha k [v [Hv Hk]%map_lookup_filter_Some]. destruct (Ha k) as [Hk1 Hk2]; [by eexists|]. split; [by eapply kept_there|]. apply Hs; [|done].
  destruct k as [? [? ?]]. cbn in *. intros [= -> ->]. by rewrite !bool_decide_true in Hk.
Qed.
Lemma live_DeleteUser id fs d : references_live d → references_live (run (call_DeleteUser id) fs d).
Proof.
  cbn [run]. outcome (users.DeleteUser id fs d); [done|]. apply DeleteUser_inv in Hrun as (r & _ & -> & _). intros (La & Lt & Lr).
  assert (∀ s, s ≠ ("user", id) → subject_there d s → subject_there (cascade_user id d) s) as Hs.
  { intros [t s] Hne [[Ht Hu]|Ha]; [left|right; done]. cbn in *. subst t. split; [done|]. rewrite lookup_delete_ne; [done|]. by intros ->. }
  split_and!; [| |done]; cbn.
  - eapply assigned_without; [|exact Hs|exact La]. by unfold keeps_policies.
  - eapply assigned_without; [|exact Hs|exact Lt]. by unfold keeps_policies.
Qed.
Lemma live_DeleteServiceAccount id fs d : references_live d → references_live (run (call_DeleteServiceAccount id) fs d).
Proof.
  cbn [run]. unfold accounts.DeleteServiceAccount. call_cases; [done|]. db_run; simplify_eq. intros (La & Lt & Lr).
  assert (∀ s, s ≠ ("service_account", id) → subject_there d s → subject_there (cascade_account id d) s) as Hs.
  { intros [t s] Hne [Hu|[Ht Ha]]; [left; done|right]. cbn in *. subst t. split; [done|]. rewrite lookup_delete_ne; [done|]. by intros ->. }
  split_and!; [| |done]; cbn.
  - eapply assigned_without; [|exact Hs|exact La]. by unfold keeps_policies.
  - eapply assigned_without; [|exact Hs|exact Lt]. by unfold keeps_policies.
Qed.

(** Policies. *)
Lemma references_rules d d' : references_live d → keeps_subjects d d' → keeps_policies d d' → policy_assignments d' = policy_assignments d →
  temporary_assignments d' = temporary_assignments d → Forall (λ r, r ∈ policy_rules d ∨ is_Some (cdb.policies d' !! r_policy r)) (policy_rules d') → references_live d'.
Proof.
  intros (La & Lt & Lr) Hs Hp Ha Ht Hr. unfold references_live. rewrite Ha, Ht. split_and!; [by eapply assigned_kept..|].
  eapply Forall_impl; [exact Hr|]. intros r [Hin|]; [|done]. rewrite Forall_forall in Lr. eapply kept_there; [exact Hp|by apply Lr].
Qed.
Lemma new_rules_there id n rules l (m : gmap string policy_row) : is_Some (m !! id) → Forall (λ r, r ∈ l ∨ is_Some (m !! r_policy r)) (l ++ rule_rows id n rules).
Proof.
  intros Hid. apply Forall_app. split; [apply Forall_forall; by left|]. eapply Forall_impl; [apply rule_rows_policy|]. intros r ->. by right.
Qed.
Lemma live_CreatePolicy p fs d : references_live d → references_live (run (call_CreatePolicy p) fs d).
Proof.
  intros Hl. cbn [run]. unfold CreatePolicy. cbv zeta. call_cases; [done|]. db_run. match goal with H : insertPolicyRules _ _ _ _ = _ |- _ => apply insertPolicyRules_inv in H as [[m ->] _] end.
  eapply references_rules; cbn; [done|done|apply dom_insert_kept|done..|]. apply new_rules_there. rewrite lookup_insert_eq. by eexists.
Qed.
Lemma rename_row_inv id name description updated fs d a fs' d' : rename_row cdb.policies id name description updated (fs, d) = Ok (a, (fs', d')) →
  ∃ r, cdb.policies d !! id = Some r ∧ d' = d <| cdb.policies := <[id := r <| p_name := name |> <| p_description := description |> <| p_updated := updated |>]> (cdb.policies d) |>.
Proof. unfold rename_row. intros H%attempt_inv. destruct (cdb.policies d !! id) as [r|]; [|done]. cbv zeta in H. destruct (unique_value _ _ _ _ _); [|done]. injection H as _ <-. eauto. Qed.
Lemma live_UpdatePolicy p fs d : references_live d → references_live (run (call_UpdatePolicy p) fs d).
Proof.
  intros Hl. cbn [run]. unfold UpdatePolicy. cbv zeta. call_cases; [done|]. sql_inv. match goal with H : insertPolicyRules _ _ _ _ = _ |- _ => apply insertPolicyRules_inv in H as [[m ->] _] end.
  match goal with H : rename_row _ _ _ _ _ _ = _ |- _ => apply rename_row_inv in H as (r & _ & ->) end.
  eapply references_rules; cbn; [done|done|apply dom_insert_kept|done..|]. eapply Forall_impl; [apply new_rules_there; rewrite lookup_insert_eq; by eexists|].
  intros r' [Hin|]; [left|by right]. by apply list_elem_of_filter in Hin as [_ ?].
Qed.
Lemma assigned_but {V} (id : string) (d : database) (m : gmap (string * (string * string)) V) : assigned_there d m →
  assigned_there (cascade_policy id d) (filter (λ kv, kv.1.1 ≠ id) m).
Proof.
  intros Ha k [v [Hv Hk]%map_lookup_filter_Some]. destruct (Ha k) as [Hp Hs]; [by eexists|]. cbn in *. split; [by rewrite lookup_delete_ne|done].
Qed.
Lemma live_DeletePolicy id fs d : references_live d → references_live (run (call_DeletePolicy id) fs d).
Proof.
  intros (La & Lt & Lr). cbn [run]. unfold DeletePolicy. call_cases; [done|]. db_run; simplify_eq. split_and!; [by apply assigned_but..|]. cbn.
  apply Forall_forall. intros r [Hne Hin]%list_elem_of_filter. rewrite Forall_forall in Lr. rewrite lookup_delete_ne by done. by apply Lr.
Qed.
Lemma subject_exists_inv t id check fs d a fs' d' : subject_exists t id = Some check → check (fs, d) = Ok (a, (fs', d')) → d' = d ∧ subject_there d (t, id).
Proof.
  unfold subject_exists. intros Hc H. repeat case_bool_decide; simplify_eq; apply all_exist_inv in H as [-> H]; split; try done; rewrite Forall_singleton in H; [by left|by right].
Qed.
Lemma live_SetSubjectPolicies t id ids now fs d : references_live d → references_live (run (call_SetSubjectPolicies t id ids now) fs d).
Proof.
  intros (La & Lt & Lr). cbn [run]. unfold SetSubjectPolicies. call_cases; [done|]. destruct (subject_exists t id) as [check|] eqn:Hc; [|done]. sql_inv.
  match goal with H : check _ = _ |- _ => destruct (subject_exists_inv _ _ _ _ _ _ _ _ Hc H) as [-> Hs]; clear H end. db_run. split_and!; [|done..]. cbn.
  intros k Hk. match goal with H : ∀ k, is_Some (_ !! k) → _ |- _ => destruct (H k Hk) as [[v Hv]|Hin] end.
  - cbn in Hv. apply map_lookup_filter_Some in Hv as [Hv _]. apply La. by eexists.
  - match goal with H : Forall (λ k, row_exists _ _ _ = true) (_.*1) |- _ => rewrite Forall_forall in H; specialize (H k Hin) as Hf end. cbn in Hf. unfold row_exists in Hf. cbn in Hf. bool_to_prop. split; [done|].
    rewrite <-list_fmap_compose in Hin. by apply list_elem_of_fmap in Hin as (i & -> & _).
Qed.
Lemma live_GrantTemporaryPolicy t id pid aid at_ cid dur now fs d : references_live d → references_live (run (call_GrantTemporaryPolicy t id pid aid at_ cid dur now) fs d).
Proof.
  intros (La & Lt & Lr). cbn [run]. unfold GrantTemporaryPolicy. case_match; [done|]. destruct (subject_exists t id) as [check|] eqn:Hc; [|done]. cbv zeta. call_cases; [done|]. sql_inv.
  match goal with H : check _ = _ |- _ => destruct (subject_exists_inv _ _ _ _ _ _ _ _ Hc H) as [-> Hs]; clear H end. db_run. split_and!; [done| |done]. cbn.
  intros k. destruct (decide ((pid, (t, id)) = k)) as [<-|Hne]; [|rewrite lookup_insert_ne by done; apply Lt].
  intros _. match goal with H : row_exists _ pid _ = true |- _ => unfold row_exists in H; bool_to_prop end. done.
Qed.
Lemma live_RevokeTemporaryPolicy t id pid aid at_ cid now fs d : references_live d → references_live (run (call_RevokeTemporaryPolicy t id pid aid at_ cid now) fs d).
Proof.
  cbn [run]. unfold RevokeTemporaryPolicy. call_cases; [done|]. db_run. kept. intros k [v [Hv _]%map_lookup_filter_Some]. by eexists.
Qed.
Lemma references_live_history h : references_live (run_all h empty_database).
Proof.
  apply (run_all_invariant _ (λ _, True)); [|by apply Forall_true|by split_and!; [intros k []..|constructor]].
  intros c fs d _ Hd. destruct (access_call c) eqn:Hc.
  - destruct c; try discriminate Hc; [by apply live_CreateUser|by apply live_UpdateUser|by apply live_DeleteUser|by apply live_EnsureAdmin|by apply live_EmergencyRecoverAdmin|..].
    all: first [by apply live_CreatePolicy|by apply live_UpdatePolicy|by apply live_DeletePolicy|by apply live_SetSubjectPolicies|by apply live_GrantTemporaryPolicy
      |by apply live_RevokeTemporaryPolicy|by apply live_CreateServiceAccount|by apply live_UpdateServiceAccount|by apply live_DeleteServiceAccount|by apply live_DisableAgents].
  - pose proof (access_kept c fs d Hc) as [= H1 H2 H3 H4 H5 H6]. unfold references_live, assigned_there, subject_there in *. by rewrite H1, H2, H3, H4, H5, H6.
Qed.
(** C30. Every assignment of a policy, for good or for now, names a policy and a user or
    service account that are there, and every rule a policy that is: what a subject
    was granted ends with it, and a new one under its identifier starts with nothing. *)
Theorem references_stay_live h : references_live (run_all h empty_database).
Proof. apply references_live_history. Qed.
End Live.

(** * A policy is read back as it was saved *)

Section Roundtrip.
Context {U : Unicode} {C : Crypto} {Q_ : Sqlite}.

Definition utf8_policy_rule (rule : rbac.Rule) : Prop :=
  Forall utf8 (rbac.Capabilities rule) ∧ Forall utf8 (rbac.rule_NeedsApproval rule) ∧ match rbac.FileTypes rule with Some s => utf8_selector s | None => True end.
Lemma json_strings_tree l : json_strings l = jprint (strings_tree l).
Proof. by apply json_list_map. Qed.
Lemma decode_names_written l : Forall utf8 l → decode_names (json_strings l) = Ok l.
Proof. intros Hl. unfold decode_names. rewrite json_strings_tree, json_parse_printed by by apply printed_strings. apply decode_strings_tree. Qed.
Lemma decode_file_types_written s : match s with Some s => utf8_selector s | None => True end → decode_file_types (json_file_types s) = Ok s.
Proof.
  destruct s as [s|]; [|done]. intros Hs. unfold decode_file_types. cbn [json_file_types]. rewrite json_selector_tree, json_parse_printed by by apply printed_selector.
  cbn [mbind result_bind]. pose proof (decode_selector_tree s) as Hd. unfold selector_tree, obj in *. by rewrite Hd.
Qed.
Lemma json_strings_empty l : Forall utf8 l → json_strings l = "[]" → l = [].
Proof. intros Hl He. pose proof (decode_names_written l Hl) as Hd. rewrite He in Hd. by injection Hd as <-. Qed.
Lemma read_written id n rule : utf8_policy_rule rule → validatePolicyTypeRule rule = Ok () → read_rule (write_rule id n rule) = Ok rule.
Proof.
  intros (Hc & Ha & Hf) Hv. unfold read_rule, write_rule. cbn [r_approval r_capabilities r_file_types r_path r_visibility].
  assert ((if (json_strings (rbac.rule_NeedsApproval rule) =s "") || (json_strings (rbac.rule_NeedsApproval rule) =s "[]") then Ok []
           else decode_names (json_strings (rbac.rule_NeedsApproval rule))) = Ok (rbac.rule_NeedsApproval rule)) as ->.
  { case_bool_decide as H1; [done|]. case_bool_decide as H2; cbn; [by rewrite (json_strings_empty _ Ha H2)|by apply decode_names_written]. }
  rewrite Ok_bind, decode_names_written, Ok_bind, decode_file_types_written, Ok_bind by done. cbv zeta. destruct rule. cbn in *. by rewrite Hv.
Qed.
Lemma read_rows id n rules : Forall utf8_policy_rule rules → Forall (λ rule, validatePolicyTypeRule rule = Ok ()) rules → mapM read_rule (rule_rows id n rules) = Ok rules.
Proof.
  intros Hu Hv. revert n. induction rules as [|rule rules IH]; intros n; [done|]. apply Forall_cons in Hu as [? ?], Hv as [? ?]. cbn. rewrite read_written, Ok_bind by done. by rewrite IH.
Qed.

(** The rows of a policy are in the order of their positions. *)
Lemma rule_rows_lt id n rules : Forall (λ r, n ≤ r_position r) (rule_rows id n rules).
Proof. revert n. induction rules as [|rule rules IH]; intros n; constructor; [done|]. eapply Forall_impl; [apply IH|]. intros r ?. cbn in *. lia. Qed.
Lemma rule_rows_sorted id n rules : StronglySorted by_position (rule_rows id n rules).
Proof. revert n. induction rules as [|rule rules IH]; intros n; constructor; [done|]. eapply Forall_impl; [apply rule_rows_lt|]. intros r ?. unfold by_position. cbn in *. lia. Qed.
Lemma rule_rows_distinct id n rules a b : a ∈ rule_rows id n rules → b ∈ rule_rows id n rules → r_position a = r_position b → a = b.
Proof.
  revert n. induction rules as [|rule rules IH]; intros n; cbn; [by intros ?%not_elem_of_nil|]. pose proof (rule_rows_lt id (n + 1) rules) as Hlt. rewrite Forall_forall in Hlt.
  intros [->|Ha]%elem_of_cons [->|Hb]%elem_of_cons; [done| | |by eapply IH].
  - specialize (Hlt _ Hb). cbn in *. lia.
  - specialize (Hlt _ Ha). cbn in *. lia.
Qed.
Lemma rules_of_saved id rules old d : policy_rules d = old ++ rule_rows id 0 rules → Forall (λ r, r_policy r ≠ id) old → rules_of id d = rule_rows id 0 rules.
Proof.
  intros Hd Hold. unfold rules_of. rewrite Hd, filter_app. assert (filter (λ r, r_policy r = id) old = []) as ->.
  { clear Hd. induction Hold as [|r l Hr _ IH]; [done|]. rewrite filter_cons_False by done. exact IH. }
  assert (filter (λ r, r_policy r = id) (rule_rows id 0 rules) = rule_rows id 0 rules) as ->.
  { generalize (rule_rows_policy id 0 rules). generalize (rule_rows id 0 rules). induction 1 as [|r l Hr _ IH]; [done|]. rewrite filter_cons_True by done. by rewrite IH. }
  cbn [app]. assert (Total by_position) by (intros a b; unfold by_position; lia). assert (Transitive by_position) by (intros a b c; unfold by_position; lia).
  apply (StronglySorted_unique_strong by_position); [|by apply StronglySorted_merge_sort|apply rule_rows_sorted|apply merge_sort_Permutation].
  intros a b Ha Hb H1 H2. rewrite merge_sort_Permutation in Ha. eapply rule_rows_distinct; [done..|]. unfold by_position in *. lia.
Qed.
(** A policy with texts and dates that can be written. *)
Definition writable_policy (p : Policy) : Prop :=
  Forall utf8_policy_rule (Policy_Rules p) ∧ four_digit_year (Policy_CreatedAt p) ∧ four_digit_year (Policy_UpdatedAt p).
Definition read_policy (id : string) (d : database) : option Policy := match GetPolicy id ([], d) with Ok (p, _) => Some p | Err _ => None end.
Lemma read_policy_saved id r rules old d : cdb.policies d !! id = Some r → policy_rules d = old ++ rule_rows id 0 rules → Forall (λ r, r_policy r ≠ id) old →
  Forall utf8_policy_rule rules → Forall (λ rule, validatePolicyTypeRule rule = Ok ()) rules →
  read_policy id d = Some (scan_policy (id, r) rules).
Proof.
  intros Hr Hd Hold Hu Hv. pose proof (rules_of_saved _ _ _ _ Hd Hold) as Hrows. unfold read_policy, GetPolicy, query_row, query, statement, attempt, with_rules, policyRules, mbind, tx_mbind.
  cbn. rewrite Hr. cbn. unfold query, statement, attempt. cbn. rewrite Hrows. pose proof (read_rows id 0 rules Hu Hv) as Hread. cbn in Hread. by rewrite Hread.
Qed.
(** C31. A policy that was created is read back as it is, and one that was updated as
    the update, with the date it was created at. *)
Theorem saved_policy_reads_back h p fs d' : let d := run_all h empty_database in writable_policy p →
  (CreatePolicy p fs d = (Ok (), d') → read_policy (Policy_ID p) d' = Some p) ∧
  (UpdatePolicy p fs d = (Ok (), d') → ∃ r, cdb.policies d !! Policy_ID p = Some r ∧
     read_policy (Policy_ID p) d' = Some (mkPolicy (Policy_ID p) (Policy_Name p) (Policy_Description p) (Policy_Rules p) (Parse_or_zero (p_created r)) (Policy_UpdatedAt p))).
Proof.
  intros d (Hu & Hc & Hup). assert (references_live d) as (_ & _ & Lr) by apply references_live_history.
  assert (∀ t, four_digit_year t → Parse_or_zero (Format t) = t) as Hp by (intros t Ht; unfold Parse_or_zero; by rewrite Parse_Format). split.
  - unfold CreatePolicy. cbv zeta. intros [fs' H]%transaction_eq. db_run. match goal with H : insertPolicyRules _ _ _ _ = _ |- _ => apply insertPolicyRules_inv in H as [[m ->] Hv] end.
    erewrite read_policy_saved; [|apply lookup_insert_eq|done| |done|done].
    + cbn. rewrite !Hp by done. by destruct p.
    + eapply Forall_impl; [exact Lr|]. intros r Hr Heq. cbn in Hr. rewrite Heq in Hr. destruct Hr. congruence.
  - unfold UpdatePolicy. intros [fs' H]%transaction_eq. sql_inv. match goal with H : insertPolicyRules _ _ _ _ = _ |- _ => apply insertPolicyRules_inv in H as [[m ->] Hv] end.
    match goal with H : rename_row _ _ _ _ _ _ = _ |- _ => apply rename_row_inv in H as (r & Hr & ->) end. exists r. split; [done|].
    erewrite read_policy_saved; [|apply lookup_insert_eq|done| |done|done].
    + cbn. by rewrite !Hp by done.
    + cbn. apply Forall_forall. by intros r' [Hne _]%list_elem_of_filter.
Qed.
End Roundtrip.
