(* ===== verification/CredentialsFacts.v ===== *)
(** Credentials over histories of calls: a token that was revoked authenticates
    nobody again, an agent stays within its daily quota, and a share within its
    downloads. *)
From S2P Require Import Prelude GoLib Base64 Json FileTypes Rbac Entities SignedAuth ControlStore GoTime Sql AuditChain ControlDb ControlPending.
From S2P Require Import ControlUsers ControlPolicies ControlAccounts ControlNodes ControlLinks ControlCalls ControlSteps PoliciesFacts.
From stdpp Require Import options.
Import store cdb audit policies accounts nodes control.
Local Open Scope Z_scope.
Local Open Scope go_scope.
#[local] Set Default Proof Using "Type*".

Section Credentials.
Context {U : Unicode} {C : Crypto} {Q_ : Sqlite}.

(** * Tokens *)

(** The row of a token, if there is one, has a property. *)
Definition token_all (P : token_row → Prop) (id : string) (d : database) : Prop := ∀ r, service_account_tokens d !! id = Some r → P r.
Definition dead_token : string → database → Prop := token_all (λ r, t_revoked r ≠ None).
Definition no_token : string → database → Prop := token_all (λ _, False).
Definition token_call (c : call) : bool :=
  match c with
  | call_CreateServiceAccountToken _ _ | call_AuthenticateServiceAccount _ _ | call_RevokeServiceAccountToken _ _ _ | call_UpdateAgentTokenLimits _ _ _
  | call_DeleteServiceAccount _ | call_CreateWorkloadIdentity _ _ _ _ _ _ => true
  | _ => false
  end.
Lemma tokens_kept c fs d : token_call c = false → service_account_tokens (run c fs d) = service_account_tokens d.
Proof. intros Hc. change (same service_account_tokens d (run c fs d)). destruct c; try discriminate Hc; clear Hc; keeps_table. Qed.
(** A call that gives out a credential under an identifier. *)
Definition issues (id : string) (c : call) : Prop :=
  match c with
  | call_CreateServiceAccountToken token _ => Token_ID token = id
  | call_CreateWorkloadIdentity identity _ _ _ _ _ => Identity_CredentialID identity = id
  | _ => False
  end.
Lemma token_all_insert P id k r d d' : service_account_tokens d' = <[k := r]> (service_account_tokens d) → (k = id → P r) → token_all P id d → token_all P id d'.
Proof.
  intros Hd Hr Hall r'. rewrite Hd. destruct (decide (k = id)) as [->|Hne]; [rewrite lookup_insert_eq; intros [= <-]; auto|rewrite lookup_insert_ne by done; apply Hall].
Qed.
Lemma token_hashed_inv hash d id t account : token_hashed hash d = Some ((id, t), account) →
  service_account_tokens d !! id = Some t ∧ t_hash t = hash ∧ t_revoked t = None ∧ ∃ a, service_accounts d !! t_account t = Some a ∧ account = (t_account t, a) ∧ a_enabled a = 1.
Proof.
  unfold token_hashed. destruct (head _) as [[id' t']|] eqn:Hh; [|done]. cbn. apply head_where in Hh as [Ht Hc]. destruct (service_accounts d !! t_account t') as [a|] eqn:Ha; [|done].
  cbn. intros [= -> -> <-]. bool_to_prop. rewrite Ha in *. split_and!; [done..|]. exists a. split_and!; [done..|lia].
Qed.
Lemma Authenticate_inv hash now fs d account token fs' d' : AuthenticateServiceAccount hash now (fs, d) = Ok ((account, token), (fs', d')) →
  ∃ id t row, token_hashed hash d = Some ((id, t), row) ∧ Token_ID token = id ∧ Token_ServiceAccountID token = t_account t ∧ Account_ID account = t_account t
    ∧ (d' = d ∨ d' = d <| service_account_tokens := <[id := t <| t_used := Some (Format now) |>]> (service_account_tokens d) |>)
    ∧ (∀ e, Token_ExpiresAt token = Some e → now < e).
Proof.
  unfold AuthenticateServiceAccount. intros H. db_run; simplify_eq.
  match goal with H : token_hashed _ _ = Some _ |- _ => pose proof (token_hashed_inv _ _ _ _ _ H) as (Ht & _ & _ & a & _ & -> & _) end.
  eexists _, _, _. split; [done|]. split_and!; [done..| |].
  - match goal with H : ignoring _ _ = _ |- _ => apply ignoring_inv in H as [->|[fs2 H]] end; [by left|right]. db_run; [same_row; reflexivity|match goal with H : ∀ v, _ → true = false |- _ => by specialize (H _ Ht) end].
  - cbn. intros e He. unfold unexpired, After in *. repeat case_match; simplify_eq; lia.
Qed.
(** No call takes a revocation back or brings a token back, but its issue. *)
Lemma token_all_stays (P : token_row → Prop) id c fs d :
  (∀ r t, P r → P (r <| t_used := t |>)) → (∀ r t, P r → P (r <| t_revoked := Some t |>)) → (∀ r t, P r → P (r <| t_limits := t |>)) →
  ¬ issues id c → token_all P id d → token_all P id (run c fs d).
Proof.
  intros Pu Pr Pl Hc Hd. destruct (token_call c) eqn:Ht; [|unfold token_all; by rewrite tokens_kept]. destruct c; try discriminate Ht; clear Ht; cbn [run issues] in *.
  - unfold DeleteServiceAccount. call_cases; [done|]. db_run; simplify_eq. intros r. cbn. intros [Hr _]%map_lookup_filter_Some. by apply Hd.
  - unfold CreateServiceAccountToken. cbv zeta. call_cases; [done|]. db_run.
    all: eapply token_all_insert; [done|done|]; try done. all: intros r'; cbn; rewrite map_lookup_imap; destruct (service_account_tokens d !! id) as [r0|] eqn:Hr; [|done]; cbn; intros [= <-].
    all: match goal with |- ?Q (if ?b then _ else _) => destruct b end; [by apply Pr, Hd|by apply Hd].
  - call_cases; [done|]. destruct x as [account token]. apply Authenticate_inv in Hrun as (id' & t & row & (Ht & _)%token_hashed_inv & _ & _ & _ & [->| ->] & _); [done|].
    eapply token_all_insert; [done| |done]. intros ->. by apply Pu, Hd.
  - unfold RevokeServiceAccountToken. call_cases; [done|]. db_run; simplify_eq. eapply token_all_insert; [done| |done]. intros ->. by apply Pr, Hd.
  - unfold UpdateAgentTokenLimits. call_cases; [done|]. db_run; simplify_eq. eapply token_all_insert; [done| |done]. intros ->. by apply Pl, Hd.
  - unfold CreateWorkloadIdentity. case_match; [done|]. cbv zeta. call_cases; [done|]. db_run. by eapply token_all_insert.
Qed.
Lemma active_workload_inv provider issuer subject audience d id w t : active_workload provider issuer subject audience d = Some (id, w, t) →
  service_account_tokens d !! id = Some t ∧ t_revoked t = None.
Proof.
  unfold active_workload. destruct (head _) as [[id' w']|] eqn:Hh; [|done]. cbn. apply head_where in Hh as [Hw Hc].
  destruct (service_account_tokens d !! id') as [t'|] eqn:Ht; [|done]. cbn. intros [= -> -> ->]. bool_to_prop. rewrite Ht in *. by bool_to_prop.
Qed.
Lemma ActiveWorkloadIdentity_inv provider issuer subject audience now fs d identity fs' d' :
  ActiveWorkloadIdentity provider issuer subject audience now (fs, d) = Ok (identity, (fs', d')) →
  d' = d ∧ ∃ t, service_account_tokens d !! Identity_CredentialID identity = Some t ∧ t_revoked t = None.
Proof.
  unfold ActiveWorkloadIdentity. intros H. db_run; simplify_eq. split; [done|]. match goal with H : active_workload _ _ _ _ _ = _ |- _ => apply active_workload_inv in H end. eauto.
Qed.
(** C34. After a token was revoked, no call authenticates with it, whatever its hash: not
    as a token, not as an agent's credential, not as the credential of a workload. *)
Theorem revoked_tokens_stay_revoked account id now fs d d' h :
  RevokeServiceAccountToken account id now fs d = (Ok (), d') → Forall (λ c, ¬ issues id c.1) h → let d1 := run_all h d' in
  (∀ hash now fs a t s, AuthenticateServiceAccount hash now (fs, d1) = Ok ((a, t), s) → Token_ID t ≠ id) ∧
  (∀ account now fs, is_ok (GetActiveServiceAccountToken account id now (fs, d1)) = false) ∧
  (∀ provider issuer subject audience now fs identity s,
     ActiveWorkloadIdentity provider issuer subject audience now (fs, d1) = Ok (identity, s) → Identity_CredentialID identity ≠ id).
Proof.
  intros [fs' H]%single_eq Hh d1. assert (dead_token id d1) as Hdead.
  { apply (run_all_invariant _ (λ c, ¬ issues id c)); [by intros; apply token_all_stays|done|]. db_run; simplify_eq. intros r. cbn. rewrite lookup_insert_eq. by intros [= <-]. }
  clear H Hh. split_and!.
  - intros hash now' fs1 a t [fs2 d2] (id' & t' & row & (Ht & _ & Hr & _)%token_hashed_inv & -> & _)%Authenticate_inv ->. by apply Hdead in Ht.
  - intros account' now' fs1. destruct (GetActiveServiceAccountToken _ _ _ _) as [[t [fs2 d2]]|] eqn:Hg; [|done]. exfalso. unfold GetActiveServiceAccountToken in Hg.
    db_run; simplify_eq. simplify_option_eq. match goal with H : service_account_tokens d1 !! id = Some ?r, H' : bool_decide _ = false |- _ =>
      apply bool_decide_eq_false in H'; apply Hdead in H; by apply not_eq_None_Some in H end.
  - intros provider issuer subject audience now' fs1 identity [fs2 d2] [_ (t & Ht & Hr)]%ActiveWorkloadIdentity_inv Heq. rewrite Heq in Ht. by apply Hdead in Ht.
Qed.

(** * Quotas *)

Definition usage_call (c : call) : bool :=
  match c with call_ReserveAgentBytes _ _ _ _ | call_RefundAgentBytes _ _ _ | call_DeleteServiceAccount _ => true | _ => false end.
Lemma usage_kept c fs d : usage_call c = false → agent_usage (run c fs d) = agent_usage d.
Proof. intros Hc. change (same agent_usage d (run c fs d)). destruct c; try discriminate Hc; clear Hc; keeps_table. Qed.
(** The bytes a call grants a token on a day, refunds counted as negative. *)
Definition grants (token day : string) (c : call) (fs : list bool) (d : database) : Z :=
  match c with
  | call_ReserveAgentBytes token' day' requested daily =>
      if bool_decide ((token', day') = (token, day)) then match (ReserveAgentBytes token' day' requested daily fs d).1 with Ok n => n | Err _ => 0 end else 0
  | call_RefundAgentBytes token' day' amount =>
      if bool_decide ((token', day') = (token, day)) then match (RefundAgentBytes token' day' amount fs d).1 with Ok _ => - Z.max 0 amount | Err _ => 0 end else 0
  | _ => 0
  end.
Fixpoint granted (token day : string) (h : list (call * list bool)) (d : database) : Z :=
  match h with [] => 0 | (c, fs) :: h => grants token day c fs d + granted token day h (run c fs d) end.
Definition daily_within (token day : string) (bound : Z) (c : call) : Prop :=
  match c with call_ReserveAgentBytes token' day' _ daily => (token', day') = (token, day) → daily ≤ bound | _ => True end.
Lemma reserve_inv token day requested daily fs d n d' : ReserveAgentBytes token day requested daily fs d = (Ok n, d') →
  n ≤ requested ∧ usage token day d + n ≤ daily ∧ is_Some (service_account_tokens d !! token)
    ∧ agent_usage d' = <[(token, day) := usage token day d + n]> (agent_usage d) ∧ service_account_tokens d' = service_account_tokens d.
Proof.
  unfold ReserveAgentBytes. cbv zeta. intros [fs' H]%transaction_eq. db_run; simplify_eq. unfold row_exists, usage in *. cbn in *. rewrite !lookup_insert_eq in *. cbn in *. bool_to_prop. simplify_eq.
  split_and!; [case_match; lia|lia|done| |done]. by rewrite insert_insert_eq.
Qed.
Lemma refund_inv token day amount fs d d' : RefundAgentBytes token day amount fs d = (Ok (), d') →
  usage token day d - Z.max 0 amount ≤ usage token day d' ∧ (0 ≤ usage token day d → 0 ≤ usage token day d')
   ∧ usage token day d' ≤ Z.max 0 (usage token day d) ∧ ∀ k, k ≠ (token, day) → agent_usage d' !! k = agent_usage d !! k.
Proof.
  unfold RefundAgentBytes. case_match; [intros [= <-]; split_and!; [lia..|done]|]. intros [fs' H']%single_eq. db_run; unfold usage; cbn.
  - rewrite lookup_insert_eq. match goal with H : agent_usage d !! _ = Some _ |- _ => rewrite H end. cbn. split_and!; [lia..|]. intros k Hk. by rewrite lookup_insert_ne.
  - split_and!; [lia..|done].
Qed.
Lemma usage_cascade token day id d : usage token day (cascade_account id d) = usage token day d ∨
  usage token day (cascade_account id d) = 0 ∧ no_token token (cascade_account id d).
Proof.
  unfold usage. cbn. rewrite map_lookup_filter. destruct (agent_usage d !! (token, day)) as [n|]; [|by left]. cbn. case_guard as Hk; [by left|right]. split; [done|].
  intros r. cbn. intros [Hr Hne]%map_lookup_filter_Some. apply Hk. unfold token_kept. cbn. by rewrite Hr.
Qed.
Lemma DeleteServiceAccount_usage token day id fs d : let d' := (DeleteServiceAccount id fs d).2 in
  usage token day d' = usage token day d ∨ usage token day d' = 0 ∧ no_token token d'.
Proof. unfold DeleteServiceAccount. call_cases; [by left|]. db_run; simplify_eq. exact (usage_cascade token day id d). Qed.
Lemma usage_insert token day k n d d' : agent_usage d' = <[k := n]> (agent_usage d) → usage token day d' = if bool_decide (k = (token, day)) then n else usage token day d.
Proof. intros Hd. unfold usage. rewrite Hd. case_bool_decide as Hk; [subst k; by rewrite lookup_insert_eq|by rewrite lookup_insert_ne]. Qed.
Lemma grant_step token day bound c fs d : 0 ≤ bound → daily_within token day bound c → usage token day d ≤ bound → let d' := run c fs d in
  usage token day d' ≤ bound ∧ (grants token day c fs d + usage token day d ≤ usage token day d' ∨ grants token day c fs d = 0 ∧ no_token token d').
Proof.
  intros Hb Hw Hu. destruct (usage_call c) eqn:Hc.
  2: { unfold usage. rewrite usage_kept by done. split; [done|left]. destruct c; try discriminate Hc; cbn; lia. }
  destruct c; try discriminate Hc; cbn [grants run daily_within] in *.
  - destruct (DeleteServiceAccount_usage token day id fs d) as [->|[-> Hn]]; split; try done; [left; lia|by right].
  - rename tokenID into token', day0 into day'. destruct (ReserveAgentBytes token' day' requested daily fs d) as [[n|e] d'] eqn:Hr; cbn [fst snd].
    + apply reserve_inv in Hr as (_ & Hn & _ & Hd & _). rewrite (usage_insert _ _ _ _ _ _ Hd). case_bool_decide as Hk; [|split; [done|left; lia]].
      injection Hk as -> ->. specialize (Hw eq_refl). split; [lia|left; lia].
    + assert (d' = d) as ->; [|case_bool_decide; split; try done; left; lia]. unfold ReserveAgentBytes in Hr. cbv zeta in Hr.
      match type of Hr with transaction ?m fs d = _ => destruct (transaction_result m fs d) as [[? Ht]|(? & ? & Ht)] end; rewrite Ht in Hr; by injection Hr.
  - rename tokenID into token', day0 into day'. destruct (RefundAgentBytes token' day' amount fs d) as [[[]|e] d'] eqn:Hr; cbn [fst snd].
    + apply refund_inv in Hr as (H1 & _ & H3 & Hother). case_bool_decide as Hk; [injection Hk as -> ->; split; [lia|left; lia]|].
      assert (usage token day d' = usage token day d) as -> by (unfold usage; by rewrite Hother by congruence). split; [done|left; lia].
    + assert (d' = d) as ->; [|case_bool_decide; split; try done; left; lia]. unfold RefundAgentBytes in Hr. case_match; [done|]. unfold single in Hr. repeat case_match; by simplify_eq.
Qed.
Lemma no_token_grants token day h d : no_token token d → Forall (λ c, ¬ issues token c.1) h → granted token day h d ≤ 0.
Proof.
  revert d. induction h as [|[c fs] h IH]; intros d Hn Hh; [done|]. apply Forall_cons in Hh as [Hc Hh]. cbn [granted].
  assert (granted token day h (run c fs d) ≤ 0) by (apply IH; [by apply token_all_stays|done]).
  assert (grants token day c fs d ≤ 0); [|lia]. destruct c; cbn; try lia.
  - case_bool_decide as Hk; [|done]. injection Hk as -> ->. destruct (ReserveAgentBytes _ _ _ _ _ _) as [[n|] d'] eqn:Hr; [|done]. apply reserve_inv in Hr as (_ & _ & [r Hr] & _). by apply Hn in Hr.
  - case_bool_decide; [|done]. case_match; lia.
Qed.
(** C35. However the calls interleave and fail, the bytes granted to a token on a day, less
    those refunded, stay within the largest daily quota the calls name. *)
Theorem quota_bounded token day bound h d :
  0 ≤ bound → usage token day d ≤ bound → Forall (λ c, daily_within token day bound c.1 ∧ ¬ issues token c.1) h →
  granted token day h d + usage token day d ≤ bound.
Proof.
  intros Hb. revert d. induction h as [|[c fs] h IH]; intros d Hu Hh; [cbn; lia|]. apply Forall_cons in Hh as [[Hw Hi] Hh]. cbn [granted].
  destruct (grant_step token day bound c fs d Hb Hw Hu) as [Hu' [Hg|[Hg Hn]]]; [specialize (IH _ Hu' Hh); lia|].
  pose proof (no_token_grants token day h _ Hn) as H0. rewrite Hg. assert (granted token day h (run c fs d) ≤ 0); [|lia]. apply H0. eapply Forall_impl; [exact Hh|]. by intros ? [].
Qed.
End Credentials.

(** * Public shares *)

Section Shares.
Context {U : Unicode} {C : Crypto} {Q_ : Sqlite}.

Definition share_call (c : call) : bool :=
  match c with
  | call_CreateShare _ | call_RevokeShare _ _ | call_DeleteShare _ | call_RegisterShareDownload _ _ | call_TouchShare _ _ | call_PurgeExpiredShares _ => true
  | _ => false
  end.
Lemma shares_kept c fs d : share_call c = false → shares (run c fs d) = shares d.
Proof. intros Hc. change (same shares d (run c fs d)). destruct c; try discriminate Hc; clear Hc; keeps_table. Qed.

(** Whether a call is a download of the share that was let through. *)
Definition downloads_share (id : string) (c : call) (fs : list bool) (d : database) : bool :=
  match c with call_RegisterShareDownload id' now => (id' =s id) && is_ok (RegisterShareDownload id' now fs d).1 | _ => false end.
Fixpoint downloads (id : string) (h : list (call * list bool)) (d : database) : nat :=
  match h with [] => 0 | (c, fs) :: h => (if downloads_share id c fs d then 1 else 0) + downloads id h (run c fs d) end.
Definition creates_share (id : string) (c : call) : Prop := match c with call_CreateShare s => Share_ID s = id | _ => False end.

(** What a call makes of the row of a share: it is gone, or has the same limit and
    dates, a revocation it had, and one download more if the call is one. *)
Definition share_next (counted : bool) (before after : option share_row) : Prop :=
  match after with
  | None => counted = false
  | Some r' => ∃ r, before = Some r ∧ s_max r' = s_max r ∧ s_expires r' = s_expires r ∧ s_count r' = s_count r + (if counted then 1 else 0)
      ∧ (s_revoked r ≠ None → s_revoked r' ≠ None)
  end.
Lemma share_same o : share_next false o o.
Proof. destruct o as [r|]; [|done]. exists r. split_and!; [done..|lia|done]. Qed.
Lemma share_row_next (k id : string) (m : gmap string share_row) (f : share_row → share_row) r : m !! k = Some r → (let r' := f r in s_max r' = s_max r ∧ s_expires r' = s_expires r ∧ s_count r' = s_count r
    ∧ (s_revoked r ≠ None → s_revoked r' ≠ None)) → share_next false (m !! id) (<[k := f r]> m !! id).
Proof.
  intros Hr (H1 & H2 & H3 & H4). destruct (decide (k = id)) as [->|Hne]; [rewrite lookup_insert_eq, Hr; exists r; split_and!; [done..|lia|done]|].
  rewrite lookup_insert_ne by done. apply share_same.
Qed.
Lemma share_filter P `{!∀ kv, Decision (P kv)} (m : gmap string share_row) id : share_next false (m !! id) (filter P m !! id).
Proof. rewrite map_lookup_filter. destruct (m !! id) as [r|]; [|done]. cbn. case_guard; [apply (share_same (Some r))|done]. Qed.
Lemma share_next_trans a b c : share_next false a b → share_next false b c → share_next false a c.
Proof. destruct c as [r2|]; [|done]. intros H1 (r1 & -> & H3 & H4 & H5 & H6). destruct H1 as (r0 & -> & H7 & H8 & H9 & H10). exists r0. split_and!; [done|congruence..|lia|auto]. Qed.
Lemma purge_next id before fs d : share_next false (shares d !! id) (shares (PurgeExpiredShares before fs d).2 !! id).
Proof.
  unfold PurgeExpiredShares. destruct (query _ (fs, d)) as [[l [fs1 d1]]|]; [|apply share_same]. generalize 0. clear d1. revert fs1 d.
  induction l as [|[id' e] l IH]; intros fs1 d n; cbn [purge_shares]; [apply share_same|]. destruct (delete_rows _ _ _) as [[m [fs2 d2]]|] eqn:Hd; [|apply share_same].
  apply delete_rows_inv in Hd as [_ ->]. eapply share_next_trans; [|apply IH]. apply share_filter.
Qed.
Lemma register_inv id now fs d d' : RegisterShareDownload id now fs d = (Ok (), d') →
  ∃ r, shares d !! id = Some r ∧ s_revoked r = None ∧ (0 < s_max r → s_count r < s_max r)
    ∧ (∀ text, s_expires r = Some text → ∃ e, Parse text = Some e ∧ now < e)
    ∧ shares d' = <[id := r <| s_count := s_count r + 1 |> <| s_access := Some (Format now) |>]> (shares d).
Proof.
  unfold RegisterShareDownload. intros [fs' H]%single_eq. db_run; simplify_eq. match goal with H : shares d !! id = Some ?r |- _ => exists r; rename H into Hr end.
  bool_to_prop. match goal with H : s_expires <$> shares d !! id = Some _ |- _ => rewrite Hr in H; cbn in H; injection H as <- end.
  split_and!; [done..| | |done].
  - intros Hm. match goal with H : _ || _ = true |- _ => apply orb_true_iff in H as [?|?] end; lia.
  - intros text Ht. rewrite Ht in *. case_match; [|done]. eexists. split; [done|]. unfold After in *. bool_to_prop. lia.
Qed.
Lemma run_next id c fs d : ¬ creates_share id c → share_next (downloads_share id c fs d) (shares d !! id) (shares (run c fs d) !! id).
Proof.
  intros Hc. destruct (share_call c) eqn:Hs; [|rewrite shares_kept by done; destruct c; try discriminate Hs; apply share_same].
  destruct c; try discriminate Hs; cbn [run downloads_share creates_share] in *.
  - unfold CreateShare. cbv zeta. case_match; [apply share_same|]. call_cases; [apply share_same|]. db_run; cbn; rewrite lookup_insert_ne by done; apply share_same.
  - unfold RevokeShare. call_cases; [apply share_same|]. db_run; simplify_eq. by eapply (share_row_next _ _ _ (λ r, r <| s_revoked := _ |>)).
  - unfold DeleteShare. call_cases; [apply share_same|]. db_run. apply share_filter.
  - rename id0 into id'. destruct (RegisterShareDownload id' now fs d) as [[[]|e] d'] eqn:Hr; cbn [fst snd is_ok].
    + apply register_inv in Hr as (r & Hr & _ & _ & _ & ->). rewrite andb_true_r. case_bool_decide as Hid.
      * subst id'. rewrite lookup_insert_eq, Hr. exists r. by split_and!.
      * rewrite lookup_insert_ne by done. apply share_same.
    + rewrite andb_false_r. unfold RegisterShareDownload, single in Hr. case_match; [repeat case_match; simplify_eq|]. injection Hr as _ <-. apply share_same.
  - unfold TouchShare. call_cases; [apply share_same|]. db_run; [|apply share_same]. by eapply (share_row_next _ _ _ (λ r, r <| s_access := _ |>)).
  - apply purge_next.
Qed.
Lemma download_allowed id c fs d : downloads_share id c fs d = true → ∃ now r, c = call_RegisterShareDownload id now ∧ shares d !! id = Some r ∧ s_revoked r = None
  ∧ (0 < s_max r → s_count r < s_max r) ∧ ∀ text, s_expires r = Some text → ∃ e, Parse text = Some e ∧ now < e.
Proof.
  destruct c; try done. cbn. intros [Hid Hok]%andb_true_iff. bool_to_prop. subst. destruct (RegisterShareDownload id now fs d) as [[[]|] d'] eqn:Hr; [|done].
  apply register_inv in Hr as (r & ? & ? & ? & ? & _). eauto 10.
Qed.
Lemma no_share_no_downloads id h d : shares d !! id = None → Forall (λ c, ¬ creates_share id c.1) h → downloads id h d = 0%nat.
Proof.
  revert d. induction h as [|[c fs] h IH]; intros d Hn Hh; [done|]. apply Forall_cons in Hh as [Hc Hh]. cbn [downloads].
  pose proof (run_next id c fs d Hc) as Hnext. rewrite Hn in Hnext. destruct (shares (run c fs d) !! id) as [r'|] eqn:Hr'; [by destruct Hnext as (r & ? & _)|]. cbn in Hnext.
  by rewrite Hnext, IH.
Qed.
(** When the calls of a history happen. *)
Definition after (e : time) (c : call) : Prop := match c with call_RegisterShareDownload _ now => e ≤ now | _ => True end.
(** C36. A share lets no download through once it is revoked or from the moment it has
    expired, and a limited one no more than it has left. *)
Theorem downloads_bounded id h d r :
  shares d !! id = Some r → Forall (λ c, ¬ creates_share id c.1) h →
  (s_revoked r ≠ None → downloads id h d = 0%nat) ∧
  (∀ text e, s_expires r = Some text → Parse text = Some e → Forall (λ c, after e c.1) h → downloads id h d = 0%nat) ∧
  (0 < s_max r → Z.of_nat (downloads id h d) ≤ Z.max 0 (s_max r - s_count r)).
Proof.
  revert d r. induction h as [|[c fs] h IH]; intros d r Hr Hh; [split_and!; [done..|cbn; lia]|]. apply Forall_cons in Hh as [Hc Hh]. cbn [downloads].
  pose proof (run_next id c fs d Hc) as Hnext. rewrite Hr in Hnext.
  assert (downloads_share id c fs d = true → s_revoked r = None ∧ (0 < s_max r → s_count r < s_max r)
    ∧ ∀ text e, s_expires r = Some text → Parse text = Some e → ¬ after e c) as Hallowed.
  { intros (now & r0 & -> & Hr0 & Hrev & Hmax & Hexp)%download_allowed. assert (r0 = r) as -> by congruence. split_and!; [done..|].
    intros text e Ht He. cbn. destruct (Hexp _ Ht) as (e' & He' & Hlt). assert (e' = e) as -> by congruence. lia. }
  destruct (shares (run c fs d) !! id) as [r'|] eqn:Hr'; cbn in Hnext.
  - destruct Hnext as (r0 & [= <-] & Hm & He & Hcount & Hrev). destruct (IH _ _ Hr' Hh) as (H1 & H2 & H3). destruct (downloads_share id c fs d) eqn:Hd.
    + destruct (Hallowed eq_refl) as (Ha1 & Ha2 & Ha3). split_and!; [done| |intros Hpos; specialize (Ha2 Hpos); rewrite Hm in H3; specialize (H3 Hpos); lia].
      intros text e Ht Hp Hall. apply Forall_cons in Hall as [Hnow _]. by destruct (Ha3 _ _ Ht Hp).
    + split_and!; [by intros Hn; rewrite H1 by auto| |intros Hpos; rewrite Hm in H3; specialize (H3 Hpos); lia].
      intros text e Ht Hp Hall. apply Forall_cons in Hall as [_ Hall]. rewrite He in H2. by rewrite (H2 _ _ Ht Hp Hall).
  - rewrite Hnext, no_share_no_downloads by done. split_and!; [done..|lia].
Qed.
End Shares.
