(* ===== verification/VersionFacts.v ===== *)
(** The version a database asks of the program that opens it: it never falls, and it
    is at least that of every kind of row an older program would misread. *)
From S2P Require Import Prelude GoLib Base64 Json FileTypes Rbac Entities SignedAuth GoTime ControlStore.
From S2P Require Import Sql AuditChain ControlDb ControlPending ControlUsers ControlPolicies ControlAccounts ControlNodes ControlLinks ControlEnroll ControlIntents ControlCalls ControlSteps PoliciesFacts AssignmentsFacts.
From stdpp Require Import options.
Import store cdb audit policies accounts nodes links enroll intents control.
Local Open Scope Z_scope.
Local Open Scope go_scope.
#[local] Set Default Proof Using "Type*".

Section Versions.
Context {U : Unicode} {C : Crypto} {Q_ : Sqlite}.

(** * It never falls *)

Definition asks (n : Z) (d : database) : Prop := ∃ v, metadata d !! version_key = Some v ∧ n ≤ cast_integer v.
Definition grows (d d' : database) : Prop := ∀ n, asks n d → asks n d'.
#[local] Instance grows_preorder : PreOrder grows.
Proof. split; [by intros d n|]. intros d1 d2 d3 H12 H23 n Hn. auto. Qed.
Lemma raise_asks v d : let d' := d <| metadata := <[version_key := match metadata d !! version_key with
    | None => v | Some value => if cast_integer value <? cast_integer v then v else value end]> (metadata d) |> in
  grows d d' ∧ asks (cast_integer v) d'.
Proof.
  cbv zeta. split.
  - intros n (w & Hw & Hn). eexists. cbn. rewrite lookup_insert_eq. split; [done|]. rewrite Hw. case_match; lia.
  - eexists. cbn. rewrite lookup_insert_eq. split; [done|]. case_match; [case_match; lia|lia].
Qed.
Lemma asks_raised n v d d' : cast_integer v = n → metadata d' = <[version_key := match metadata d !! version_key with
    | None => v | Some value => if cast_integer value <? cast_integer v then v else value end]> (metadata d) → asks n d'.
Proof. intros <- Hm. destruct (raise_asks v d) as [_ (w & Hw & Hn)]. exists w. split; [by rewrite Hm|done]. Qed.
Lemma steps_raise v : steps grows (raise_version v).
Proof. intros fs d a fs' d' ->%exec_inv. apply raise_asks. Qed.
Definition sets_version (c : call) : Prop := match c with call_SetMetadata key _ => key = version_key | _ => False end.
Lemma version_grows c fs d : ¬ sets_version c → grows d (run c fs d).
Proof.
  intros Hc. pose proof steps_raise as Hraise. destruct c.
  all: try (respects ltac:(try apply Hraise; try (intros ? ? ? (?w & ?Hw & ?Hn); by exists w); try (intros ? ? (?w & ?Hw & ?Hn); by exists w);
    try (intros Ha; repeat (case_match; simplify_eq); intros ? (?w & ?Hw & ?Hn); by exists w)); fail).
  cbn [run sets_version] in *. unfold SetMetadata. call_cases; [done|]. db_run. intros n (w & Hw & Hn). exists w. cbn. by rewrite lookup_insert_ne.
Qed.

(** * Features *)

Definition marked {K V} `{Countable K} (P : V → Prop) (m : gmap K V) : Prop := ∃ k v, m !! k = Some v ∧ P v.
Lemma marked_insert {K V} `{Countable K} (P : V → Prop) (m : gmap K V) k v : marked P (<[k := v]> m) → P v ∨ marked P m.
Proof.
  intros (k' & v' & Hk & HP). destruct (decide (k = k')) as [<-|Hne]; [rewrite lookup_insert_eq in Hk; left; congruence|]. rewrite lookup_insert_ne in Hk by done. right. by exists k', v'.
Qed.
Lemma marked_update {K V} `{Countable K} (P : V → Prop) (m : gmap K V) k v v' : m !! k = Some v → (P v' → P v) → marked P (<[k := v']> m) → marked P m.
Proof. intros Hk HP [Hv|]%marked_insert; [|done]. exists k, v. auto. Qed.
Lemma marked_sub {K V} `{Countable K} (P : V → Prop) (m m' : gmap K V) : m' ⊆ m → marked P m' → marked P m.
Proof. intros Hsub (k & v & Hk & HP). exists k, v. split; [by eapply lookup_weaken|done]. Qed.
Lemma marked_imap {K V} `{Countable K} (P : V → Prop) (m : gmap K V) f : (∀ k v, P (f k v) → P v) → marked P (map_imap (λ k v, Some (f k v)) m) → marked P m.
Proof. intros Hf (k & v & Hk & HP). rewrite map_lookup_imap in Hk. destruct (m !! k) as [w|] eqn:Hw; [|done]. injection Hk as <-. exists k, w. eauto. Qed.

(** The kinds of rows an older program would misread, with the version that knows them. *)
Definition agents (d : database) : Prop := marked (λ r, a_kind r = "agent") (service_accounts d).
Definition typed_rules (d : database) : Prop := Exists (λ r, r_file_types r ≠ "null") (policy_rules d).
Definition approval_rules (d : database) : Prop := Exists (λ r, r_approval r ≠ "[]") (policy_rules d).
Definition account_shares (d : database) : Prop := marked (λ r, s_by_type r = "service_account") (shares d).
Definition workloads (d : database) : Prop := marked (λ _, True) (workload_identities d).
Definition leases (d : database) : Prop := marked (λ _, True) (job_links d).
Definition copies (d : database) : Prop := marked (λ _, True) (copy_intents d).
Definition certificates (d : database) : Prop := marked (λ _, True) (pki_objects d).
Definition joins (d : database) : Prop := marked (λ _, True) (join_tokens d) ∨ marked (λ _, True) (enrollments d).
Definition features : list (Z * (database → Prop)) :=
  [(1, agents); (2, typed_rules); (3, account_shares); (4, workloads); (5, leases); (7, copies); (8, approval_rules); (9, certificates); (10, joins)].
Definition versions_cover (d : database) : Prop := Forall (λ f, f.2 d → asks f.1 d) features.

(** What a call may do to a feature. *)
Definition respected (n : Z) (feature : database → Prop) (c : call) (d d' : database) : Prop := feature d' → feature d ∨ asks n d'.
Lemma respected_same {T} (get : database → T) n feature c d d' : (∀ d d', get d = get d' → feature d → feature d') → get d' = get d → respected n feature c d d'.
Proof. intros Hf Hg Hd'. left. by eapply Hf. Qed.
Lemma asks_le n m d : m ≤ n → asks n d → asks m d.
Proof. intros Hle (v & Hv & Hn). exists v. split; [done|lia]. Qed.
Ltac unwritten get := apply (respected_same get); [by intros ? ? ->|]; match goal with |- get (run ?c ?fs ?d) = _ => change (same get d (run c fs d)); keeps_table end; fail.

Lemma agents_respected c fs d : respected 1 agents c d (run c fs d).
Proof.
  unfold agents. destruct c; try (unwritten service_accounts).
  all: cbn [run].
  - unfold CreateServiceAccount. cbv zeta. case_match; [by left|]. call_cases; [by left|]. db_run.
    + intros _. right. apply raise_asks.
    + intros [Hk|]%marked_insert; [|by left]. cbn in Hk. match goal with H : bool_decide (_ = "agent") = false |- _ => by apply bool_decide_eq_false in H end.
  - unfold UpdateServiceAccount. call_cases; [by left|]. db_run. repeat case_match; simplify_eq. intros Hm. left. revert Hm. by eapply marked_update.
  - unfold DeleteServiceAccount. call_cases; [by left|]. db_run; simplify_eq. intros Hm. left. revert Hm. apply marked_sub, delete_subseteq.
  - unfold DisableAgents. call_cases; [by left|]. db_run. intros Hm. left. revert Hm. apply marked_imap. intros k v. by destruct (_ && _).
Qed.
Lemma rules_asks id n rules fs d a fs' d' : insertPolicyRules id n rules (fs, d) = Ok (a, (fs', d')) →
  (Exists (λ r, r_file_types r ≠ "null") (rule_rows id n rules) → asks 2 d') ∧ (Exists (λ r, r_approval r ≠ "[]") (rule_rows id n rules) → asks 8 d').
Proof.
  revert n fs d. induction rules as [|rule rules IH]; intros n fs d H; cbn [rule_rows]; [split; by intros ?%Exists_nil|]. cbn [insertPolicyRules] in H.
  apply tx_bind_inv in H as ([] & fs1 & d1 & [_ ->]%lift_inv & H). apply tx_bind_inv in H as ([] & fs2 & d2 & H2 & H). apply tx_bind_inv in H as ([] & fs3 & d3 & H3 & H).
  apply tx_bind_inv in H as ([] & fs4 & d4 & ->%exec_inv & H). assert (grows d3 d') as Hg.
  { transitivity (d3 <| policy_rules := policy_rules d3 ++ [write_rule id n rule] |>); [intros m (v & Hv & Hm); by exists v|].
    eapply steps_insertPolicyRules; [apply _|apply steps_raise| |exact H]. intros ? ? ? (v & Hv & Hm). by exists v. }
  destruct (IH _ _ _ H) as [IH2 IH8]. assert (grows d2 d3) as Hg23 by (destruct (rbac.rule_NeedsApproval rule =s []); [by apply ret_inv in H3 as [_ ->]|by eapply steps_raise]). split.
  - intros [Ht|]%Exists_cons; [|by apply IH2]. apply Hg, Hg23. destruct (rbac.FileTypes rule) eqn:Hf; [|by destruct Ht; cbn; rewrite Hf]. cbn in H2. apply exec_inv in H2 as ->. apply raise_asks.
  - intros [Ha|]%Exists_cons; [|by apply IH8]. apply Hg. case_bool_decide as Hn; [by destruct Ha; cbn; rewrite Hn|]. apply exec_inv in H3 as ->. apply raise_asks.
Qed.
Lemma rules_respected c fs d : respected 2 typed_rules c d (run c fs d) ∧ respected 8 approval_rules c d (run c fs d).
Proof.
  unfold typed_rules, approval_rules. destruct c; try (split; unwritten policy_rules). all: cbn [run].
  - unfold CreatePolicy. cbv zeta. call_cases; [split; by left|]. db_run. match goal with H : insertPolicyRules _ _ _ _ = _ |- _ => pose proof (rules_asks _ _ _ _ _ _ _ _ H) as [Hasks2 Hasks8]; apply insertPolicyRules_inv in H as [[m ->] _] end.
    cbn. split; (intros [?|?]%Exists_app; [by left|right; auto]).
  - unfold UpdatePolicy. cbv zeta. call_cases; [split; by left|]. sql_inv. match goal with H : insertPolicyRules _ _ _ _ = _ |- _ => pose proof (rules_asks _ _ _ _ _ _ _ _ H) as [Hasks2 Hasks8]; apply insertPolicyRules_inv in H as [[m ->] _] end.
    match goal with H : rename_row _ _ _ _ _ _ = _ |- _ => apply rename_row_inv in H as (r & _ & ->) end. cbn.
    split; (intros [Ho|?]%Exists_app; [left|right; auto]); apply Exists_exists in Ho as (row & [_ Hrow]%list_elem_of_filter & ?); apply Exists_exists; eauto.
  - unfold DeletePolicy. call_cases; [split; by left|]. db_run; simplify_eq. cbn.
    split; intros Ho; left; apply Exists_exists in Ho as (row & [_ Hrow]%list_elem_of_filter & ?); apply Exists_exists; eauto.
Qed.
Lemma purge_shrinks before fs d : shares (PurgeExpiredShares before fs d).2 ⊆ shares d.
Proof.
  unfold PurgeExpiredShares. destruct (query _ (fs, d)) as [[l [fs1 d1]]|]; [|done]. generalize 0. clear d1. revert fs1 d.
  induction l as [|[id e] l IH]; intros fs1 d n; cbn [purge_shares]; [done|]. destruct (delete_rows _ _ _) as [[m [fs2 d2]]|] eqn:Hd; [|done].
  etrans; [apply IH|]. apply delete_rows_inv in Hd as [_ ->]. apply map_filter_subseteq.
Qed.
Lemma shares_respected c fs d : respected 3 account_shares c d (run c fs d).
Proof.
  unfold account_shares. destruct c; try (unwritten shares). all: cbn [run].
  - unfold CreateShare. cbv zeta. match goal with |- context [if ?b then λ _ _, _ else _] => destruct b end; [by left|]. call_cases; [by left|]. db_run.
    + intros _. right. apply raise_asks.
    + intros [Hk|]%marked_insert; [|by left]. cbn in Hk. match goal with H : bool_decide (_ = "service_account") = false |- _ => by apply bool_decide_eq_false in H end.
  - unfold RevokeShare. call_cases; [by left|]. db_run; simplify_eq. intros Hm. left. revert Hm. by eapply marked_update.
  - unfold DeleteShare. call_cases; [by left|]. db_run. intros Hm. left. revert Hm. apply marked_sub, map_filter_subseteq.
  - unfold RegisterShareDownload. call_cases; [by left|]. db_run; simplify_eq. intros Hm. left. revert Hm. by eapply marked_update.
  - unfold TouchShare. call_cases; [by left|]. db_run; [|by left]. intros Hm. left. revert Hm. by eapply marked_update.
  - intros Hm. left. revert Hm. apply marked_sub. apply purge_shrinks.
Qed.
Lemma workloads_respected c fs d : respected 4 workloads c d (run c fs d).
Proof.
  unfold workloads. destruct c; try (unwritten workload_identities). all: cbn [run].
  - unfold DeleteServiceAccount. call_cases; [by left|]. db_run; simplify_eq. intros Hm. left. revert Hm. apply marked_sub, map_filter_subseteq.
  - unfold CreateWorkloadIdentity. case_match; [by left|]. cbv zeta. call_cases; [by left|]. db_run. intros _. right. by eapply (asks_raised _ "4" d).
  - unfold SetWorkloadIdentityEnabled. call_cases; [by left|]. db_run; simplify_eq. intros Hm. left. revert Hm. by eapply marked_update.
Qed.
Lemma marked_any {K V} `{Countable K} (m : gmap K V) k v : m !! k = Some v → marked (λ _, True) m.
Proof. intros Hk. by exists k, v. Qed.
Lemma leases_respected c fs d : (copies d → asks 7 d) → respected 5 leases c d (run c fs d).
Proof.
  intros Hcopies. unfold leases. destruct c; try (unwritten job_links). all: cbn [run].
  - unfold DeleteNode. call_cases; [by left|]. db_run; simplify_eq. intros Hm. left. revert Hm. apply marked_sub, map_filter_subseteq.
  - unfold CreateJobAuthorizationLink. cbv zeta. repeat match goal with |- context [if ?b then λ _ _, _ else _] => destruct b end; [by left..|]. call_cases; [by left|]. db_run.
    intros _. right. eapply asks_le; [|eapply (asks_raised _ (if signedauth.JobOptionsDigest (Link_Binding link) ≠s "" then "6" else "5") d); [reflexivity|reflexivity]].
    by destruct (_ ≠s "").
  - unfold StageJobAuthorization. case_match; [by left|]. call_cases; [by left|]. db_run; simplify_eq. intros Hm. left. revert Hm. by eapply marked_update.
  - unfold ConfirmJobAuthorization. case_match; [by left|]. cbv zeta. call_cases; [by left|]. db_run; simplify_eq. intros Hm. left. revert Hm. by eapply marked_update.
  - unfold ResolveExpiredJobAuthorization. case_match; [by left|]. cbv zeta. call_cases; [by left|]. db_run; simplify_eq. intros Hm. left. revert Hm. by eapply marked_update.
  - unfold CompleteSignedCopyIntent, after_reading. destruct (LoadSignedCopyIntent _ _ _ _ _ _ _ _ _) as [[intent [fs1 d1]]|]; [|by left]. cbv zeta. case_match; [by left|].
    call_cases; [by left|]. db_run; simplify_eq. all: simplify_option_eq.
    all: try (intros Hm; left; exact Hm).
    all: intros _; right; apply (asks_le 7); [lia|]; destruct Hcopies as (v & Hv & Hn); [by eapply marked_any|]; by exists v.
Qed.
Lemma copies_respected c fs d : respected 7 copies c d (run c fs d).
Proof.
  unfold copies. destruct c; try (unwritten copy_intents). all: cbn [run].
  - unfold DeleteNode. call_cases; [by left|]. db_run; simplify_eq. intros Hm. left. revert Hm. apply marked_sub, map_filter_subseteq.
  - unfold CreateSignedCopyIntent. cbv zeta. repeat (match goal with |- context [(match ?x with _ => _ end) fs d] => destruct x end; try by left). call_cases; [by left|]. db_run.
    all: intros _; right; by eapply (asks_raised _ "7" d).
  - unfold RefreshSignedCopyIntent, after_reading. destruct (LoadSignedCopyIntent _ _ _ _ _ _ _ _ _) as [[intent [fs1 d1]]|]; [|by left]. cbv zeta. repeat (case_match; try by left).
    call_cases; [by left|]. db_run; simplify_eq. intros Hm. left. revert Hm. by eapply marked_update.
  - unfold CompleteSignedCopyIntent, after_reading. destruct (LoadSignedCopyIntent _ _ _ _ _ _ _ _ _) as [[intent [fs1 d1]]|]; [|by left]. cbv zeta. case_match; [by left|].
    call_cases; [by left|]. db_run; simplify_eq. all: intros Hm; left; revert Hm; by eapply marked_update.
Qed.
Lemma certificates_respected c fs d : respected 9 certificates c d (run c fs d).
Proof.
  unfold certificates. destruct c; try (unwritten pki_objects). cbn [run]. unfold SavePKIObjects. call_cases; [by left|]. sql_inv. db_run. intros _. right.
  assert (ignores grows pki_objects) as Hi by (intros ? ? ? (v & Hv & Hn); by exists v).
  match goal with H : remove_objects _ _ = _ |- _ => apply (steps_remove_objects grows) in H as Hr; [|done] end.
  match goal with H : put_objects _ _ = _ |- _ => apply (steps_put_objects grows) in H as Hp; [|done] end. apply Hp, Hr. by eapply (asks_raised _ "9" d).
Qed.
Definition join_tables (d : database) := (join_tokens d, enrollments d).
Lemma joins_respected c fs d : respected 10 joins c d (run c fs d).
Proof.
  unfold joins. destruct c; try (apply (respected_same join_tables); [by intros ? ? [= -> ->]|]; match goal with |- _ (run ?c ?fs ?d) = _ => change (same join_tables d (run c fs d)); keeps_table end; fail).
  all: cbn [run].
  - unfold CreateJoinToken. cbv zeta. call_cases; [by left|]. db_run. intros _. right. by eapply (asks_raised _ "10" d).
  - unfold RevokeJoinToken. call_cases; [by left|]. db_run; simplify_eq. intros [Hm|Hm]; left; [left|by right]. revert Hm. apply marked_sub, map_filter_subseteq.
  - unfold StartEnrollment. cbv zeta. call_cases; [by left|]. db_run; simplify_eq. all: intros _; right; by eapply (asks_raised _ "10" d).
  - unfold DecideEnrollment. call_cases; [by left|]. db_run; simplify_eq. intros [Hm|Hm]; left; [by left|right]. revert Hm. by eapply marked_update.
  - unfold ReplacePollSecret. call_cases; [by left|]. db_run; simplify_eq; [|by left]. intros [Hm|Hm]; left; [by left|right]. revert Hm. by eapply marked_update.
  - unfold ExpireEnrollments. call_cases; [by left|]. db_run. intros [Hm|Hm]; left; [by left|right]. revert Hm. by apply marked_imap.
Qed.
Lemma covered n f c d d' : respected n f c d d' → grows d d' → (f d → asks n d) → f d' → asks n d'.
Proof. intros Hr Hg Hd [Hf|]%Hr; [|done]. auto. Qed.
Lemma digits_prefix s acc v : digits_val acc s = Some v → int_prefix acc s = v.
Proof. revert acc. induction s as [|c s IH]; intros acc; cbn; [congruence|]. destruct (digit_val c); [apply IH|done]. Qed.
Lemma Atoi_cast s v : Atoi s = Some v → cast_integer s = v.
Proof.
  assert (∀ t v, ParseUint t = Some v → int_prefix 0 t = v) as Hp.
  { intros t w. unfold ParseUint. case_bool_decide; [done|]. destruct (digits_val 0 t) eqn:Hd; [|done]. cbn. case_match; [|done]. intros [= <-]. by apply digits_prefix. }
  destruct s as [|c s]; [done|]. unfold Atoi, cast_integer. fold cast_integer.
  destruct (bool_decide_reflect (c = "-"%char)) as [->|]; [cbn; destruct (ParseUint s) eqn:Hs; [|done]; intros [= <-]; by rewrite (Hp _ _ Hs)|].
  destruct (bool_decide_reflect (c = "+"%char)) as [->|]; [cbn; apply Hp|]. intros Hs. pose proof (Hp _ _ Hs) as Hv.
  match goal with |- (if ?b then _ else _) = _ => destruct b eqn:Hb end; [|exact Hv]. exfalso. unfold ParseUint in Hs. cbn in Hs.
  assert (digit_val c = None) as Hd; [|by rewrite Hd in Hs]. unfold digit_val, in_range. apply orb_true_iff in Hb as [Hb|Hb]; bool_to_prop; [by subst c|]. destruct ((48 <=? byte_val c) && (byte_val c <=? 57)) eqn:He; [|done]. apply andb_true_iff in He as [? ?]. lia.
Qed.
Lemma covers_history h : Forall (λ c, ¬ sets_version c.1) h → versions_cover (run_all h empty_database).
Proof.
  intros Hh. apply (run_all_invariant versions_cover (λ c, ¬ sets_version c)); [|done|].
  - intros c fs d Hc Hd. pose proof (version_grows c fs d Hc) as Hg. destruct (rules_respected c fs d) as [Htyped Happroval]. unfold versions_cover, features in *.
    assert (copies d → asks 7 d) as Hcopies by (rewrite Forall_forall in Hd; apply (Hd (7, copies)); set_solver).
    repeat match goal with H : Forall _ (_ :: _) |- _ => apply Forall_cons in H as [? H] end.
    repeat apply Forall_cons_2; try apply Forall_nil_2; cbn [fst snd] in *; eapply covered; try done.
    all: eauto using agents_respected, shares_respected, workloads_respected, leases_respected, copies_respected, certificates_respected, joins_respected.
  - unfold versions_cover, features. repeat apply Forall_cons_2; try apply Forall_nil_2; cbn [fst snd]; try by intros (k & v & Hk & _).
    1,2: by intros ?%Exists_nil. by intros [(k & v & Hk & _)|(k & v & Hk & _)].
Qed.
(** A database never asks for less than the features its rows use: a program of a
    version that does not know agents (1), file types (2), shares of service accounts
    (3), workloads (4), leases (5), signed copies (7), approvals (8), certificates (9)
    or enrollments (10) does not open one with rows of them, whatever calls led there. *)
Theorem old_programs_refuse h supported :
  Forall (λ c, ¬ sets_version c.1) h → opens_with supported (run_all h empty_database) = true →
  Forall (λ f, f.2 (run_all h empty_database) → f.1 ≤ supported) features.
Proof.
  intros Hh%covers_history Ho. eapply Forall_impl; [exact Hh|]. intros f Hf Hd. destruct (Hf Hd) as (v & Hv & Hn). unfold opens_with in Ho. rewrite Hv in Ho.
  destruct (Atoi v) as [n|] eqn:Ha; [|done]. apply Atoi_cast in Ha. bool_to_prop. lia.
Qed.
End Versions.
