(* ===== verification/LinksFacts.v ===== *)
(** The leases of jobs the Control Tower keeps: the life of their rows under any
    calls, and what a confirmed revision rests on. *)
From S2P Require Import Prelude GoLib Base64 Json FileTypes Rbac Entities SignedAuth GoTime ControlStore.
From S2P Require Import Sql AuditChain ControlDb ControlPending ControlUsers ControlPolicies ControlAccounts ControlNodes ControlLinks ControlEnroll ControlIntents ControlCalls ControlSteps.
From stdpp Require Import options.
Import signedauth store cdb audit policies accounts nodes links enroll intents control.
Local Open Scope Z_scope.
Local Open Scope go_scope.
#[local] Set Default Proof Using "Type*".

Section Links.
Context {U : Unicode} {C : Crypto} {Q_ : Sqlite}.

(** * The life of a row *)

Definition row_binding (r : link_row) : result Binding := json_parse (k_binding r) ≫= decode_binding Binding_zero.
Definition fresh (r : link_row) : Prop :=
  k_confirmed r = 0 ∧ k_confirmed_digest r = "" ∧ k_confirmed_expiry r = 0 ∧ k_pending r = 0 ∧ k_envelope r = "" ∧ k_pending_expiry r = 0.
(** What a call [c] may make of the row of a job on a node. *)
Inductive advances (c : call) (k : string * string) : option link_row → option link_row → Prop :=
| advances_not o : advances c k o o
| advances_gone o : c = call_DeleteNode k.1 → advances c k o None
| advances_bound r : match c with call_CreateJobAuthorizationLink link _ => (Link_NodeID link, Link_JobID link) = k | call_CompleteSignedCopyIntent node _ _ _ _ _ _ _ _ => node = k.1 | _ => False end →
    fresh r → advances c k None (Some r)
| advances_staged r revision envelope keys now binding claims f : c = call_StageJobAuthorization k.1 k.2 revision envelope keys now →
    k_pending r = 0 → 0 ≤ k_confirmed r → revision = u64 (k_confirmed r + 1) → revision ≠ 0 → revision ≤ MaxInt64 → row_binding r = Ok binding → VerifyJobLease envelope keys binding k.1 revision now = Ok (claims, f) →
    advances c k (Some r) (Some (r <| k_pending := revision |> <| k_envelope := envelope |> <| k_pending_expiry := of_Unix (ExpiresAt claims) |> <| k_updated := Format now |>))
| advances_confirmed r revision expiry now : c = call_ConfirmJobAuthorization k.1 k.2 revision (Digest (k_envelope r)) expiry now →
    k_pending r = revision → 0 < revision ≤ MaxInt64 → k_pending_expiry r = expiry → now < expiry →
    advances c k (Some r) (Some (confirm_row revision (Digest (k_envelope r)) expiry (Format now) r))
| advances_settled r revision expiry now : c = call_ResolveExpiredJobAuthorization k.1 k.2 revision (Digest (k_envelope r)) expiry now →
    k_pending r = revision → 0 < revision ≤ MaxInt64 → k_pending_expiry r = expiry → expiry ≤ now →
    advances c k (Some r) (Some (confirm_row revision (Digest (k_envelope r)) expiry (Format now) r))
| advances_dropped r revision digest expiry now : c = call_ResolveExpiredJobAuthorization k.1 k.2 revision digest expiry now →
    0 < k_pending r → k_pending_expiry r ≤ now →
    advances c k (Some r) (Some (confirm_row (k_confirmed r) (k_confirmed_digest r) (k_confirmed_expiry r) (Format now) r)).

Definition link_call (c : call) : bool :=
  match c with
  | call_DeleteNode _ | call_CreateJobAuthorizationLink _ _ | call_StageJobAuthorization _ _ _ _ _ _ | call_ConfirmJobAuthorization _ _ _ _ _ _
  | call_ResolveExpiredJobAuthorization _ _ _ _ _ _ | call_CompleteSignedCopyIntent _ _ _ _ _ _ _ _ _ => true
  | _ => false
  end.
Lemma links_kept c fs d : link_call c = false → job_links (run c fs d) = job_links d.
Proof. intros Hc. change (same job_links d (run c fs d)). destruct c; try discriminate Hc; clear Hc; keeps_table. Qed.
(** A link that is read is its row, which is consistent. *)
Lemma link_of_row k r link : readJobAuthorizationLink (k, r) = Ok link →
  row_binding r = Ok (Link_Binding link) ∧ ConfirmedRevision link = k_confirmed r ∧ ConfirmedDigest link = k_confirmed_digest r
    ∧ ConfirmedExpiry link = expiry_of (k_confirmed_expiry r) ∧ PendingRevision link = k_pending r ∧ PendingEnvelope link = k_envelope r
    ∧ PendingExpiry link = expiry_of (k_pending_expiry r) ∧ consistent_row r = true.
Proof.
  unfold readJobAuthorizationLink. destruct k as [node job]. case_match; [done|]. unfold row_binding. destruct (json_parse (k_binding r) ≫= _) as [binding|] eqn:Hb; [|done].
  match goal with |- (if ?b then _ else _) = _ → _ => destruct b eqn:Hc end; [done|]. destruct (Parse (k_created r)), (Parse (k_updated r)); try done. intros [= <-].
  split_and!; try done. repeat match goal with H : _ || _ = false |- _ => apply orb_false_iff in H as [? ?] end. by apply negb_false_iff.
Qed.
Lemma consistent_inv r : consistent_row r = true → 0 ≤ k_confirmed r ∧ 0 ≤ k_pending r ∧ (k_confirmed r = 0 → k_confirmed_expiry r = 0) ∧ (0 < k_confirmed r → 0 < k_confirmed_expiry r)
  ∧ (0 < k_pending r → k_pending r = i64 (k_confirmed r + 1) ∧ 0 < k_pending_expiry r).
Proof.
  unfold consistent_row. intros H. repeat match goal with H : _ && _ = true |- _ => apply andb_true_iff in H as [? ?] end.
  repeat match goal with H : _ || _ = true |- _ => apply orb_true_iff in H end. split_and!; [lia..| | |].
  all: intros ?; repeat match goal with H : _ ∨ _ |- _ => destruct H as [H|H]; bool_to_prop; try lia end; try lia.
Qed.
Lemma expiry_back n : 0 ≤ n → (if IsZero (expiry_of n) then 0 else expiry_of n) = n.
Proof. intros Hn. unfold IsZero, expiry_of. destruct (Z.eqb_spec n 0) as [->|]; [done|]. destruct (Z.eqb_spec n zero_time) as [->|]; [|done]. by vm_compute in Hn. Qed.
Lemma expiry_of_pos n : 0 < n → expiry_of n = n.
Proof. intros Hn. unfold expiry_of. destruct (Z.eqb_spec n 0); lia. Qed.
Lemma u64_next n : 0 ≤ n → (u64 (n + 1) =? 0) = false → u64 (n + 1) ≤ MaxInt64 → n < 2 ^ 63 → u64 (n + 1) = n + 1.
Proof. unfold u64, MaxInt64. intros Hn H0 Hm Hlt. apply Z.mod_small. lia. Qed.
(** The row of one job is replaced. *)
Lemma advances_at (c : call) (k k0 : string * string) (m : gmap (string * string) link_row) (r r' : link_row) : m !! k0 = Some r → (k0 = k → advances c k (Some r) (Some r')) → advances c k (m !! k) (<[k0 := r']> m !! k).
Proof. intros Hr Ha. destruct (decide (k0 = k)) as [->|Hne]; [rewrite lookup_insert_eq, Hr; auto|rewrite lookup_insert_ne by done; constructor]. Qed.
Lemma delete_advances id fs d k : advances (call_DeleteNode id) k (job_links d !! k) (job_links (run (call_DeleteNode id) fs d) !! k).
Proof.
  cbn [run]. unfold DeleteNode. call_cases; [constructor|]. db_run; simplify_eq. cbn. unfold without_key. rewrite map_lookup_filter. destruct (job_links d !! k) as [r|]; [|constructor]. cbn.
  case_guard as Hg; [constructor|]. constructor. by rewrite Hg.
Qed.
Lemma bind_advances link now fs d k : advances (call_CreateJobAuthorizationLink link now) k (job_links d !! k) (job_links (run (call_CreateJobAuthorizationLink link now) fs d) !! k).
Proof.
  cbn [run]. unfold CreateJobAuthorizationLink. cbv zeta. repeat match goal with |- context [if ?b then λ _ _, _ else _] => destruct b end; [constructor..|]. call_cases; [constructor|]. db_run.
  cbn. match goal with |- context [<[?k0 := _]> _ !! k] => destruct (decide (k0 = k)) as [<-|Hne] end; [|rewrite lookup_insert_ne by done; constructor].
  rewrite lookup_insert_eq. match goal with H : job_links d !! _ = None |- _ => rewrite H end. by constructor.
Qed.
Lemma stage_advances node job revision envelope keys now fs d k : let c := call_StageJobAuthorization node job revision envelope keys now in
  advances c k (job_links d !! k) (job_links (run c fs d) !! k).
Proof.
  cbn [run]. unfold StageJobAuthorization. match goal with |- context [if ?b then λ _ _, _ else _] => destruct b eqn:Hg end; [constructor|]. call_cases; [constructor|]. db_run; simplify_eq.
  match goal with H : readJobAuthorizationLink _ = Ok _ |- _ => apply link_of_row in H as (Hb & Hcr & _ & _ & Hp & _ & _ & [Hc0 _]%consistent_inv) end.
  cbn. eapply advances_at; [done|]. intros <-. repeat match goal with H : _ || _ = false |- _ => apply orb_false_iff in H as [? ?] end. bool_to_prop.
  eapply advances_staged; [reflexivity|lia|lia|congruence|lia|lia|done|done].
Qed.
Lemma confirm_advances node job revision digest expiry now fs d k : let c := call_ConfirmJobAuthorization node job revision digest expiry now in
  advances c k (job_links d !! k) (job_links (run c fs d) !! k).
Proof.
  cbn [run]. unfold ConfirmJobAuthorization. match goal with |- context [if ?b then λ _ _, _ else _] => destruct b eqn:Hg end; [constructor|]. cbv zeta. call_cases; [constructor|]. db_run; simplify_eq.
  match goal with H : readJobAuthorizationLink _ = Ok _ |- _ => apply link_of_row in H as (_ & _ & _ & _ & Hp & He & Hx & (_ & Hp0 & _ & _ & Hpos)%consistent_inv) end.
  cbn. eapply advances_at; [done|]. intros <-. repeat match goal with H : _ || _ = false |- _ => apply orb_false_iff in H as [? ?] end. bool_to_prop. unfold After in *.
  match goal with H : job_links d !! (node, job) = Some ?row |- _ => rename row into r end.
  assert (0 < k_pending r) as Hpp by lia. destruct (Hpos Hpp) as [_ Hpe]. rewrite (expiry_of_pos _ Hpe) in Hx.
  assert (digest = Digest (k_envelope r)) as -> by congruence. apply advances_confirmed; [done|done|lia|congruence|lia].
Qed.
Lemma resolve_advances node job revision digest expiry now fs d k : let c := call_ResolveExpiredJobAuthorization node job revision digest expiry now in
  advances c k (job_links d !! k) (job_links (run c fs d) !! k).
Proof.
  cbn [run]. unfold ResolveExpiredJobAuthorization. match goal with |- context [if ?b then λ _ _, _ else _] => destruct b eqn:Hg end; [constructor|]. cbv zeta. call_cases; [constructor|].
  db_run; simplify_eq.
  match goal with H : readJobAuthorizationLink _ = Ok _ |- _ => apply link_of_row in H as (_ & Hcr & Hcd & Hce & Hp & He & Hx & (Hc0 & Hp0 & Hcz & Hcpos & Hpos)%consistent_inv) end.
  cbn. eapply advances_at; [done|]. intros <-. repeat match goal with H : _ || _ = false |- _ => apply orb_false_iff in H as [? ?] end.
  match goal with H : job_links d !! (node, job) = Some ?row |- _ => rename row into r end.
  assert (0 < k_pending r) as Hpp by lia. destruct (Hpos Hpp) as [_ Hpe]. rewrite (expiry_of_pos _ Hpe) in Hx. unfold After in *.
  match goal with H : (if ?a then Ok _ else _) = Ok _ |- _ => destruct a eqn:Ha; [|case_match; [|done]]; injection H as <- <- <- end.
  - repeat match goal with H : _ && _ = true |- _ => apply andb_true_iff in H as [? ?] end. bool_to_prop.
    assert (digest = Digest (k_envelope r)) as -> by congruence. apply advances_settled; [done|lia|lia|lia|lia].
  - rewrite Hcr, Hcd, Hce, expiry_back; [eapply advances_dropped; [done|lia|lia]|].
    destruct (decide (k_confirmed r = 0)) as [Hz|]; [by rewrite Hcz by done|]. assert (0 < k_confirmed r) as Hc1 by lia. specialize (Hcpos Hc1). lia.
Qed.
Lemma complete_advances node actorType actorID credentialID digest key receipt keys now fs d k :
  let c := call_CompleteSignedCopyIntent node actorType actorID credentialID digest key receipt keys now in advances c k (job_links d !! k) (job_links (run c fs d) !! k).
Proof.
  cbn [run]. unfold CompleteSignedCopyIntent, after_reading. destruct (LoadSignedCopyIntent _ _ _ _ _ _ _ _ _) as [[intent [fs1 d1]]|]; [|constructor]. cbv zeta. case_match; [constructor|].
  call_cases; [constructor|]. db_run; simplify_eq; cbn; try constructor.
  all: match goal with |- context [<[?k0 := _]> _ !! ?i] => destruct (decide (k0 = i)) as [<-|Hne] end; [|rewrite lookup_insert_ne by done; constructor].
  all: rewrite lookup_insert_eq; match goal with H : ?m !! _ = None |- _ => rewrite H end; by constructor.
Qed.
Lemma run_advances c fs d k : advances c k (job_links d !! k) (job_links (run c fs d) !! k).
Proof.
  destruct (link_call c) eqn:Hc; [|rewrite links_kept by done; constructor]. destruct c; try discriminate Hc.
  - apply delete_advances.
  - apply bind_advances.
  - apply stage_advances.
  - apply confirm_advances.
  - apply resolve_advances.
  - apply complete_advances.
Qed.

(** * What a revision rests on *)

(** A call of the history staged the revision of the job on the node, with an envelope
    that verified for the binding of the job and ends at [expiry]. *)
Definition staged_in (h : list (call * list bool)) (k : string * string) (r : link_row) (revision : Z) (digest : string) (expiry : time) : Prop :=
  ∃ envelope keys now faults binding claims f, (call_StageJobAuthorization k.1 k.2 revision envelope keys now, faults) ∈ h ∧ digest = Digest envelope
    ∧ row_binding r = Ok binding ∧ VerifyJobLease envelope keys binding k.1 revision now = Ok (claims, f) ∧ expiry = of_Unix (ExpiresAt claims).
Definition lease_ok (h : list (call * list bool)) (k : string * string) (r : link_row) : Prop :=
  0 ≤ k_confirmed r ≤ MaxInt64 ∧ 0 ≤ k_pending r ≤ MaxInt64
  ∧ (0 < k_confirmed r → staged_in h k r (k_confirmed r) (k_confirmed_digest r) (k_confirmed_expiry r))
  ∧ (0 < k_pending r → k_pending r = k_confirmed r + 1 ∧ staged_in h k r (k_pending r) (Digest (k_envelope r)) (k_pending_expiry r)).
Lemma staged_later h h' k r r' revision digest expiry : k_binding r' = k_binding r → staged_in h k r revision digest expiry → staged_in (h ++ h') k r' revision digest expiry.
Proof.
  intros Hb (envelope & keys & now & faults & binding & claims & f & Hin & Hd & Hr & Hv & He). exists envelope, keys, now, faults, binding, claims, f.
  unfold row_binding in *. rewrite Hb. split_and!; try done. apply elem_of_app. by left.
Qed.
Lemma lease_step h c fs k r r' : lease_ok h k r → advances c k (Some r) (Some r') → lease_ok (h ++ [(c, fs)]) k r'.
Proof.
  intros (Hc & Hp & Hcs & Hps). inversion 1 as [|? |?|? revision envelope keys now binding claims f|? revision expiry now|? revision expiry now|? revision digest expiry now]; subst.
  - split; [done|]. split; [done|]. split; [intros Hpos; eapply staged_later; [done|by apply Hcs]|]. intros Hpos. destruct (Hps Hpos) as [? ?]. split; [done|]. by eapply staged_later.
  - assert (u64 (k_confirmed r + 1) = k_confirmed r + 1) as Hu by (unfold u64, MaxInt64 in *; apply Z.mod_small; lia). unfold lease_ok. cbn. rewrite Hu in *. split; [lia|]. split; [lia|]. split.
    + intros Hpos. eapply staged_later; [|exact (Hcs Hpos)]. done.
    + intros _. split; [done|]. exists envelope, keys, now, fs, binding, claims, f. split_and!; try done. apply elem_of_app. right. by apply list_elem_of_singleton.
  - unfold lease_ok, confirm_row. cbn. split; [lia|]. split; [by unfold MaxInt64|]. split; [|lia]. intros _. destruct Hps as [_ Hs]; [lia|]. eapply staged_later; [|exact Hs]. done.
  - unfold lease_ok, confirm_row. cbn. split; [lia|]. split; [by unfold MaxInt64|]. split; [|lia]. intros _. destruct Hps as [_ Hs]; [lia|]. eapply staged_later; [|exact Hs]. done.
  - unfold lease_ok, confirm_row. cbn. split; [lia|]. split; [by unfold MaxInt64|]. split; [|lia]. intros Hpos. eapply staged_later; [|exact (Hcs Hpos)]. done.
Qed.
(** C37. Every revision the Control Tower counts as confirmed by a node was staged by a call
    with an envelope that verified for the job, its node and that revision; the digest
    and the end it keeps are that envelope's. What is staged is always the next one. *)
Theorem confirmed_leases_verified h k r : job_links (run_all h empty_database) !! k = Some r → lease_ok h k r.
Proof.
  revert r. induction h as [|[c fs] h IH] using rev_ind; intros r; [done|]. rewrite run_all_snoc. cbn [fst snd]. intros Hr. pose proof (run_advances c fs (run_all h empty_database) k) as Ha.
  rewrite Hr in Ha. destruct (job_links (run_all h empty_database) !! k) as [r0|] eqn:H0; [by eapply lease_step; [apply IH|]|].
  inversion Ha as [| |? _ (Hf & _ & _ & Hp & _)| | | |]; subst. unfold lease_ok. rewrite Hf, Hp. by unfold MaxInt64.
Qed.
End Links.
