(* ===== verification/EnrollFacts.v ===== *)
(** Joining over histories of calls: a token starts one enrollment, and an enrollment
    is decided once. *)
From S2P Require Import Prelude GoLib Base64 Json FileTypes Rbac Entities SignedAuth GoTime ControlStore.
From S2P Require Import Sql AuditChain ControlDb ControlPending ControlUsers ControlPolicies ControlAccounts ControlNodes ControlLinks ControlEnroll ControlIntents ControlCalls ControlSteps PoliciesFacts.
From stdpp Require Import options.
Import store cdb audit policies accounts nodes links enroll intents control.
Local Open Scope Z_scope.
Local Open Scope go_scope.
#[local] Set Default Proof Using "Type*".

Section Enroll.
Context {U : Unicode} {C : Crypto} {Q_ : Sqlite}.

(** * Tokens *)

Definition join_call (c : call) : bool := match c with call_CreateJoinToken _ | call_RevokeJoinToken _ | call_StartEnrollment _ _ _ => true | _ => false end.
Lemma joins_kept c fs d : join_call c = false → join_tokens (run c fs d) = join_tokens d.
Proof. intros Hc. change (same join_tokens d (run c fs d)). destruct c; try discriminate Hc; clear Hc; keeps_table. Qed.
(** No two tokens have a hash in common. *)
Definition hashes_unique (d : database) : Prop := ∀ id id' r r', join_tokens d !! id = Some r → join_tokens d !! id' = Some r' → j_hash r = j_hash r' → id = id'.
Lemma start_inv hash e now fs d s d' : StartEnrollment hash e now fs d = (Ok s, d') → ∃ id r, join_tokens d !! id = Some r ∧ j_hash r = hash ∧ j_name r = Enroll_NodeName e ∧
  match s with
  | Used token => j_used r ≠ "" ∧ token = scan_join (id, r) ∧ d' = d
  | Started t => j_used r = "" ∧ now < Parse_or_zero (j_expires r) ∧ Join_ID t = id ∧ enrollments d !! Enroll_ID e = None
      ∧ join_tokens d' = <[id := r <| j_used := Format now |> <| j_enrollment := Enroll_ID e |>]> (join_tokens d)
      ∧ enrollments d' = <[Enroll_ID e := enrollment_row_of e id]> (enrollments d)
  end.
Proof.
  unfold StartEnrollment. cbv zeta. intros (x & fs1 & d1 & Hrun & Hx)%transact_eq. db_run; simplify_eq; destruct Hx as [[? ?]|[? ?]]; simplify_eq.
  all: match goal with H : head _ = Some ?row |- _ => destruct row as [id r]; apply head_where in H as [Hr Hh] end.
  all: match goal with H : ∀ v, _ → true = false |- _ => specialize (H r Hr); done | _ => idtac end; bool_to_prop.
  1: exists id, r; by split_and!.
  all: exists id, r; cbn in *; same_row; unfold Before in *; split_and!; try done; lia.
Qed.
Lemma start_err hash e now fs d er d' : StartEnrollment hash e now fs d = (Err er, d') → d' = d.
Proof. unfold StartEnrollment. cbv zeta. intros H. apply transact_err in H; [done|]. clear H. intros [fs1 d1] er1 [fs2 d2] H. db_run; simplify_eq. Qed.
Lemma create_join_inv token fs d d' : CreateJoinToken token fs d = (Ok (), d') → ∃ r, join_tokens d !! Join_ID token = None ∧ j_used r = ""
  ∧ join_tokens d' = <[Join_ID token := r]> (join_tokens d) ∧ ∀ id r', join_tokens d !! id = Some r' → j_hash r' ≠ j_hash r.
Proof.
  unfold CreateJoinToken. cbv zeta. intros [fs1 H]%transaction_eq. db_run. eexists. split_and!; [done| |reflexivity|]; [done|]. intros id r' Hr'. unfold unique_value in *. bool_to_prop.
  match goal with H : map_Forall _ _ |- _ => destruct (H id r' Hr') as [->|Hne] end; [|done]. cbn in *. congruence.
Qed.
Lemma unique_stays c fs d : hashes_unique d → hashes_unique (run c fs d).
Proof.
  intros Hu. destruct (join_call c) eqn:Hc; [|unfold hashes_unique; by rewrite joins_kept]. destruct c; try discriminate Hc; cbn [run].
  - outcome (CreateJoinToken token fs d); [done|]. apply create_join_inv in Hrun as (r & Hn & _ & Hd & Hfree). intros a b ra rb. cbn. rewrite Hd.
    destruct (decide (Join_ID token = a)) as [<-|Ha], (decide (Join_ID token = b)) as [<-|Hb]; rewrite ?lookup_insert_eq, ?lookup_insert_ne by done; [done| | |apply Hu].
    + intros [= <-] Hrb Heq. by apply Hfree in Hrb.
    + intros Hra [= <-] Heq. by apply Hfree in Hra.
  - unfold RevokeJoinToken. call_cases; [done|]. db_run; simplify_eq. intros a b ra rb. cbn. intros [? _]%map_lookup_filter_Some [? _]%map_lookup_filter_Some. by eapply Hu.
  - destruct (StartEnrollment secretHash enrollment now fs d) as [[s|er] d'] eqn:Hs; cbn.
    + apply start_inv in Hs as (id & r & Hr & _ & _ & Hs). destruct s as [t|t]; [|by destruct Hs as (_ & _ & ->)]. destruct Hs as (_ & _ & _ & _ & Hd & _).
      intros a b ra rb. rewrite Hd. destruct (decide (id = a)) as [<-|Ha], (decide (id = b)) as [<-|Hb]; rewrite ?lookup_insert_eq, ?lookup_insert_ne by done; [done| | |apply Hu].
      * intros [= <-] Hrb Heq. by eapply Hu.
      * intros Hra [= <-] Heq. by eapply Hu.
    + by apply start_err in Hs as ->.
Qed.
Definition spent (id : string) (r : join_row) (d : database) : Prop := join_tokens d !! id = Some r ∧ j_used r ≠ "".
Lemma spent_stays id r c fs d : spent id r d → spent id r (run c fs d).
Proof.
  intros [Hr Hu]. split; [|done]. destruct (join_call c) eqn:Hc; [|by rewrite joins_kept]. destruct c; try discriminate Hc; cbn [run].
  - outcome (CreateJoinToken token fs d); [done|]. apply create_join_inv in Hrun as (r' & Hn & _ & Hd & _). cbn. rewrite Hd, lookup_insert_ne; [done|]. congruence.
  - unfold RevokeJoinToken. call_cases; [done|]. db_run; simplify_eq. cbn. apply map_lookup_filter_Some. split; [done|]. cbn. rewrite (bool_decide_false (j_used r = "")) by done. apply andb_false_r.
  - destruct (StartEnrollment secretHash enrollment now fs d) as [[s|er] d'] eqn:Hs; cbn.
    + apply start_inv in Hs as (id' & r' & Hr' & _ & _ & Hs). destruct s as [t|t]; [|by destruct Hs as (_ & _ & ->)]. destruct Hs as (Hun & _ & _ & _ & Hd & _).
      rewrite Hd, lookup_insert_ne; [done|]. intros ->. congruence.
    + by apply start_err in Hs as ->.
Qed.
(** What a retry with the secret of a spent token is answered with. *)
Lemma start_spent id r d e now fs : hashes_unique d → spent id r d →
  StartEnrollment (j_hash r) e now fs d =
    (match fs with
     | true :: _ => Err err_sql
     | _ => if j_name r =s Enroll_NodeName e then Ok (Used (scan_join (id, r))) else Err ErrNotFound
     end, d).
Proof.
  intros Hu [Hr Hused]. assert (head (rows_where (λ _ r', j_hash r' =s j_hash r) (join_tokens d)) = Some (id, r)) as Hrow.
  { destruct (head _) as [[id' r']|] eqn:Hh.
    - apply head_where in Hh as [Hr' Heq]. bool_to_prop. assert (id' = id) as -> by (by eapply Hu). congruence.
    - exfalso. apply head_None in Hh. assert ((id, r) ∈ rows_where (λ _ r', j_hash r' =s j_hash r) (join_tokens d)) as Hin; [|rewrite Hh in Hin; by apply not_elem_of_nil in Hin].
      apply elem_of_rows_where. split; [done|by rewrite bool_decide_true]. }
  unfold StartEnrollment, transact, query_row, query. unfold mbind, tx_mbind. cbn.
  destruct fs as [|[] fs]; [|done|]; cbn; rewrite Hrow; cbn; destruct (j_name r =s Enroll_NodeName e); cbn; try done; by rewrite (bool_decide_false (j_used r = "")).
Qed.

(** C38. A join token starts one enrollment: after it did, whatever calls follow
    and whichever statements fail, every later enrollment with its secret changes
    nothing; under the name of the node it is answered with the token as it was
    spent, which names the first enrollment (ErrTokenUsed), under another name with
    ErrNotFound, and only a failing database answers otherwise. *)
Theorem join_token_once h hash e now fs t d' :
  StartEnrollment hash e now fs (run_all h empty_database) = (Ok (Started t), d') →
  ∃ token, EnrollmentID token = Enroll_ID e ∧ Join_ID token = Join_ID t ∧ ∀ h' e' now' fs',
    StartEnrollment hash e' now' fs' (run_all h' d') =
      (match fs' with
       | true :: _ => Err err_sql
       | _ => if Enroll_NodeName e =s Enroll_NodeName e' then Ok (Used token) else Err ErrNotFound
       end, run_all h' d').
Proof.
  set (d := run_all h empty_database). intros Hs. assert (hashes_unique d) as Hu.
  { apply (run_all_invariant _ (λ _, True)); [by intros; apply unique_stays|by apply Forall_true|]. by intros ? ? ? ?. }
  assert (d' = run (call_StartEnrollment hash e now) fs d) as Hd' by (cbn [run]; by rewrite Hs).
  apply start_inv in Hs as (id & r & Hr & Hh & Hname & Hun & _ & Hid & _ & Hd & _).
  assert (hashes_unique d') as Hu' by (rewrite Hd'; by apply unique_stays).
  set (r1 := r <| j_used := Format now |> <| j_enrollment := Enroll_ID e |>) in Hd.
  assert (spent id r1 d') as Hsp by (split; [by rewrite Hd, lookup_insert_eq|apply Format_nonempty]).
  exists (scan_join (id, r1)). split_and!; [done|done|]. intros h' e' now' fs'. rewrite <-Hh, <-Hname.
  apply (start_spent id r1); (eapply (run_all_invariant _ (λ _, True)); [intros|by apply Forall_true|]).
  - by apply unique_stays.
  - done.
  - by apply spent_stays.
  - done.
Qed.

(** * Decisions *)

Definition enrollment_call (c : call) : bool :=
  match c with call_StartEnrollment _ _ _ | call_DecideEnrollment _ _ _ _ _ _ | call_ReplacePollSecret _ _ | call_ExpireEnrollments _ => true | _ => false end.
Lemma enrollments_kept c fs d : enrollment_call c = false → enrollments (run c fs d) = enrollments d.
Proof. intros Hc. change (same enrollments d (run c fs d)). destruct c; try discriminate Hc; clear Hc; keeps_table. Qed.
Definition settled (id : string) (r : enrollment_row) (d : database) : Prop := enrollments d !! id = Some r ∧ e_state r ≠ EnrollmentPending.
Lemma waits_pending now r : waits now r = true → e_state r = EnrollmentPending.
Proof. unfold waits. intros H. by bool_to_prop. Qed.
Lemma settled_stays id r c fs d : settled id r d → settled id r (run c fs d).
Proof.
  intros [Hr Hs]. split; [|done]. destruct (enrollment_call c) eqn:Hc; [|by rewrite enrollments_kept]. destruct c; try discriminate Hc; cbn [run].
  - destruct (StartEnrollment secretHash enrollment now fs d) as [[s|er] d'] eqn:Hst; cbn; [|by apply start_err in Hst as ->].
    apply start_inv in Hst as (i & r' & _ & _ & _ & Hst). destruct s as [t|t]; [|by destruct Hst as (_ & _ & ->)].
    destruct Hst as (_ & _ & _ & Hn & _ & ->). rewrite lookup_insert_ne; [done|congruence].
  - unfold DecideEnrollment. call_cases; [done|]. db_run; simplify_eq; cbn. at_row; [|done]. same_row. by match goal with H : waits _ _ = true |- _ => apply waits_pending in H end.
  - unfold ReplacePollSecret. call_cases; [done|]. db_run; simplify_eq; cbn; [|done]. at_row; [|done]. same_row. by bool_to_prop.
  - unfold ExpireEnrollments. call_cases; [done|]. db_run; simplify_eq. cbn. rewrite map_lookup_imap, Hr. cbn. by rewrite (bool_decide_false (e_state r = _)).
Qed.
Definition decided_row (state by_ note response : string) (now : time) (r : enrollment_row) : enrollment_row :=
  r <| e_state := state |> <| e_by := by_ |> <| e_note := note |> <| e_response := response |> <| e_decided := Format now |>
    <| e_csr := if state =s EnrollmentIssued then "" else e_csr r |>.
Lemma decide_inv id state by_ note response now fs d d' : DecideEnrollment id state by_ note response now fs d = (Ok (), d') →
  ∃ r, enrollments d !! id = Some r ∧ waits now r = true ∧ enrollments d' !! id = Some (decided_row state by_ note response now r).
Proof.
  unfold DecideEnrollment. intros [fs1 H]%single_eq. db_run; simplify_eq. eexists. split_and!; [done..|]. cbn. by rewrite lookup_insert_eq.
Qed.
(** C27. An enrollment is decided once: after a decision that closes it, whatever
    calls of the store follow and whichever of their statements fail, its record
    stays as that decision left it, and every other decision on it is refused. *)
Theorem decisions_are_final id state by_ note response now fs d d' h : DecideEnrollment id state by_ note response now fs d = (Ok (), d') → state ≠ EnrollmentPending →
  enrollments (run_all h d') !! id = enrollments d' !! id
  ∧ ∀ state' by' note' response' now' fs', (DecideEnrollment id state' by' note' response' now' fs' (run_all h d')).1 ≠ Ok ().
Proof.
  intros (r & _ & _ & Hd)%decide_inv Hs. assert (settled id (decided_row state by_ note response now r) d') as Hset by done.
  apply (run_all_invariant (settled id _) (λ _, True) h) in Hset as [Hr Hn]; [|by intros; apply settled_stays|by apply Forall_true]. split; [by rewrite Hd|].
  intros s2 b2 n2 p2 t2 fs2 Hok. destruct (DecideEnrollment id s2 b2 n2 p2 t2 fs2 (run_all h d')) as [res d2] eqn:Hdec. cbn in Hok. subst res.
  apply decide_inv in Hdec as (r2 & Hr2 & Hw & _). rewrite Hr in Hr2. injection Hr2 as <-. apply Hn. by eapply waits_pending.
Qed.
End Enroll.
