(* ===== verification/ControlDbExamples.v ===== *)
(** A concrete life of the Control Tower's database: the theorems on histories of
    calls applied where their hypotheses hold, and two decisions that come late. *)
From S2P Require Import Prelude GoLib Base64 Json FileTypes Rbac Entities SignedAuth SignedRoundtrip SignedAuthExamples ControlStore ControlAccess.
From S2P Require Import GoTime Sql AuditChain AuditChainFacts ControlDb ControlPending ControlUsers ControlPolicies ControlAccounts ControlNodes.
From S2P Require Import ControlLinks ControlEnroll ControlIntents ControlCalls ControlSteps PendingFacts UsersFacts PoliciesFacts AssignmentsFacts.
From S2P Require Import CredentialsFacts VersionFacts LinksFacts EnrollFacts.
From stdpp Require Import options.
From Stdlib Require Import QArith.
Import store cdb audit pending users policies accounts nodes links enroll intents control.
Local Open Scope Z_scope.
Local Open Scope go_scope.
#[local] Existing Instance latin1_unicode.
#[local] Existing Instance demo_crypto.
#[local] Instance demo_dates : Sqlite := {| julianday s := if s =s "" then None else Some (inject_Z (len s)) |}.

Definition day_1 : time := 1700000000 * nanoseconds.
Definition later (s : Z) : time := day_1 + s * nanoseconds.
Definition good (c : call) : call * list bool := (c, []).

(** ** Requests that wait for a person *)

Definition delete_request : PendingOperation :=
  mkPendingOperation PendingKindReplay "token-t1" "" "service_account" "bot" "DELETE" "n1" "files" "path=a" "" "" "delete a"
    [mkPendingRequirement "nodes/n1/files/mounts/m1/a" "delete"] "" 0 0 "" "" None "" 0 "".
Definition asked : list (call * list bool) := [
  (call_CreatePendingOperation delete_request 5 day_1 (Ok "0123456789abcdef"), [false; true]);
  good (call_CreatePendingOperation delete_request 5 (later 1) (Ok "0123456789abcdef"));
  good (call_CreatePendingOperation delete_request 5 (later 2) (Ok "fedcba9876543210"))].
Definition asked_id : string := "pop_" +++ hex_EncodeToString "0123456789abcdef".
Definition claimed : PendingOperation :=
  match (ClaimPendingOperation asked_id "user" "root" (later 60) [] (run_all asked empty_database)).1 with Ok op => op | Err _ => delete_request end.

Lemma asked_writable : Forall (λ c : call * list bool, writable c.1) asked.
Proof. repeat (constructor; [split; [repeat constructor|split; [vm_compute; intuition discriminate|repeat split]]|]). constructor. Defined.
Lemma claim_replays_what_was_asked_witness : ∃ ask max created random faults, (call_CreatePendingOperation ask max created (Ok random), faults) ∈ asked
  ∧ later 60 < created + PendingLifetime ∧ Body claimed = Body ask ∧ Method claimed = Method ask.
Proof.
  destruct (claim_replays_what_was_asked asked asked_id "user" "root" (later 60) [] claimed
    (ClaimPendingOperation asked_id "user" "root" (later 60) [] (run_all asked empty_database)).2)
    as (ask & max & created & random & faults & Hin & _ & Hlt & Hop & _); [exact asked_writable|vm_compute; reflexivity|].
  exists ask, max, created, random, faults. rewrite Hop. split; [exact Hin|split; [exact Hlt|]]. unfold with_digest, stamped. destruct ask, (Kind _ =s ""), (Summary _ =s ""); split; reflexivity.
Defined.
Lemma decided_once_witness :
  ¬ decides asked_id (call_RejectPendingOperation asked_id "user" "eve" "no" (later 90)) []
      (run_all [good (call_FinishPendingOperation asked_id 204 "")] (run (call_ClaimPendingOperation asked_id "user" "root" (later 60)) [] (run_all asked empty_database))).
Proof.
  apply (decided_once asked_id (call_ClaimPendingOperation asked_id "user" "root" (later 60)) []);
    [split; [reflexivity|vm_compute; reflexivity]|repeat constructor; exact id].
Defined.
Lemma open_requests_bounded_witness :
  Z.of_nat (size (open_of "service_account" "bot" (run_all asked empty_database))) ≤ 5 ∧ no_open_twice (run_all asked empty_database).
Proof. apply (open_requests_bounded asked 5); [discriminate|repeat (constructor; [discriminate|]); constructor]. Defined.
Example one_is_open : size (open_of "service_account" "bot" (run_all asked empty_database)) = 1%nat.
Proof. vm_compute. reflexivity. Qed.

(** ** Users *)

Definition root_user (enabled : bool) : User := mkUser "u1" "root" "hash" "admin" enabled day_1 day_1.
Definition bob (enabled : bool) : User := mkUser "u2" "bob" "hash" "operator" enabled day_1 day_1.
Definition session_digest : string := RawURL_EncodeToString (sha256_Sum "secret").
Definition people : list (call * list bool) := [
  good (call_EnsureAdmin "u1" "root" "hash" day_1); good (call_CreateUser (bob true)); good (call_CreateSession session_digest "u2" (later 3600) day_1);
  good (call_CreateSession "other" "u1" (later 3600) day_1)].
Definition people_db : database := run_all people empty_database.
Lemma people_have_admin : has_admin people_db.
Proof. exists "u1", (user_row_of (root_user true)). split; [vm_compute; reflexivity|split; reflexivity]. Defined.
Lemma admin_remains_witness : has_admin (run_all [good (call_UpdateUser (root_user false) ""); good (call_DeleteUser "u1")] people_db).
Proof. apply (admin_remains _ people_db). exact people_have_admin. Defined.
Definition signed_in : result ((User * time) * (list bool * database)) :=
  SessionUserAndExpiry "other" (later 5) ([], run_all [] (run (call_UpdateUser (bob false) "") [] people_db)).
Lemma sessions_end_witness : ∃ user expiry s, signed_in = Ok ((user, expiry), s) ∧ User_ID user ≠ "u2".
Proof.
  destruct signed_in as [[[user expiry] s]|e] eqn:Hs; [|vm_compute in Hs; discriminate Hs]. exists user, expiry, s. split; [reflexivity|].
  apply (sessions_end "u2" (call_UpdateUser (bob false) "") [] people_db [] "other" (later 5) [] user expiry s);
    [split; [reflexivity|split; [right; reflexivity|vm_compute; reflexivity]]|constructor|exact Hs].
Defined.
Definition guess (n : Z) : call * list bool := good (call_RegisterLoginFailure "root|10.0.0.1" (later n)).
Definition guesses : list (call * list bool) := [guess 0; guess 1; guess 2; guess 3; guess 4; guess 5].
Lemma lockouts_writable at_ : Forall (λ n, four_digit_year (at_ + lockout n)) [5; 6; 7; 8; 9; 10] → ∀ n, 5 ≤ n → four_digit_year (at_ + lockout n).
Proof.
  intros Hall n Hn. assert (lockout n = lockout (Z.min n 10)) as -> by (unfold lockout; do 3 f_equal; lia).
  rewrite Forall_forall in Hall. apply Hall. assert (Z.min n 10 = 5 ∨ Z.min n 10 = 6 ∨ Z.min n 10 = 7 ∨ Z.min n 10 = 8 ∨ Z.min n 10 = 9 ∨ Z.min n 10 = 10) as Hm by lia.
  rewrite !elem_of_cons. tauto.
Defined.
Lemma locked_after_failures_witness : ∃ t, (5 ≤ failures_of "root|10.0.0.1" guesses)%nat ∧ later 6 < t.
Proof.
  destruct (LoginLockedUntil "root|10.0.0.1" (later 6) ([], run_all guesses empty_database)) as [[[t|] s]|e] eqn:Hs;
    [|vm_compute in Hs; discriminate Hs|vm_compute in Hs; discriminate Hs].
  exists t. destruct (locked_after_failures guesses "root|10.0.0.1" (later 6) [] t s) as (Hf & Ht & _); [|exact Hs|split; [exact Hf|exact Ht]].
  repeat (constructor; [hnf; apply lockouts_writable; repeat (constructor; [vm_compute; intuition discriminate|]); constructor|]). constructor.
Defined.
Lemma login_lock_exact_witness : ∃ s, LoginLockedUntil "root|10.0.0.1" (later 6) ([], run (guess 5).1 [] (run_all (take 5 guesses) empty_database)) = Ok (Some (later 65), s).
Proof.
  destruct (login_lock_exact (take 5 guesses) "root|10.0.0.1" (later 5) (later 6)) as [s Hs];
    [repeat (constructor; [split; [reflexivity|exact id]|]); constructor|vm_compute; intuition discriminate|]. exists s. etransitivity; [exact Hs|]. vm_compute. reflexivity.
Defined.

(** ** Policies *)

Definition files_rule : rbac.Rule := {| rbac.Path := "nodes/n1/files/mounts/m1/**"; rbac.Capabilities := ["read"; "delete"]; rbac.FileTypes := None;
  rbac.Visibility := ""; rbac.rule_NeedsApproval := ["delete"] |}.
Definition files_policy : Policy := mkPolicy "p1" "files" "" [files_rule] day_1 day_1.
Definition policy_db : database := run_all (people ++ [good (call_CreatePolicy files_policy); good (call_SetSubjectPolicies "user" "u2" ["p1"] day_1)]) empty_database.
Definition bobs_policies : list rbac.Policy := [{| rbac.ID := "p1"; rbac.Name := "files"; rbac.Rules := [files_rule] |}].
Lemma subject_policies_exact_witness : NoDup (rbac.ID <$> bobs_policies) ∧ ∀ p, p ∈ bobs_policies → applies policy_db "u2" (later 1) "user" (rbac.ID p).
Proof.
  destruct (subject_policies_exact "user" "u2" (later 1) [] policy_db bobs_policies ([], policy_db)) as [Hnd Hp]; [vm_compute; reflexivity|].
  split; [exact Hnd|]. intros p Hin. apply Hp in Hin as (r & _ & _ & Ha & _). exact Ha.
Defined.
Lemma saved_policy_reads_back_witness : read_policy "p1" (run (call_CreatePolicy files_policy) [] (run_all people empty_database)) = Some files_policy.
Proof.
  destruct (saved_policy_reads_back people files_policy [] (run (call_CreatePolicy files_policy) [] (run_all people empty_database))) as [Hc _].
  - split; [|split; vm_compute; intuition discriminate]. constructor; [|constructor]. repeat constructor; intros ? [=].
  - apply Hc. vm_compute. reflexivity.
Defined.

(** ** Credentials *)

Definition bot_account : ServiceAccount := mkServiceAccount "agent" "bot" "bot" "" true day_1 day_1.
Definition bot_token (id hash : string) : ServiceAccountToken := mkServiceAccountToken (Some DefaultAgentLimits) id "bot" "" hash (Some (later 7200)) None None day_1.
Definition accounts_db : database := run_all [good (call_CreateServiceAccount bot_account); good (call_CreateServiceAccountToken (bot_token "t1" "h1") false);
  good (call_CreateServiceAccountToken (bot_token "t2" "h2") false)] empty_database.
Definition revoked_db : database := run_all [good (call_AuthenticateServiceAccount "h2" (later 2))] (run (call_RevokeServiceAccountToken "bot" "t1" (later 1)) [] accounts_db).
Lemma revoked_tokens_stay_revoked_witness :
  ∃ a t s, accounts.AuthenticateServiceAccount "h2" (later 5) ([], revoked_db) = Ok ((a, t), s) ∧ Token_ID t ≠ "t1".
Proof.
  destruct (accounts.AuthenticateServiceAccount "h2" (later 5) ([], revoked_db)) as [[[a t] s]|e] eqn:Hs; [|vm_compute in Hs; discriminate Hs].
  exists a, t, s. split; [reflexivity|].
  destruct (revoked_tokens_stay_revoked "bot" "t1" (later 1) [] accounts_db (run (call_RevokeServiceAccountToken "bot" "t1" (later 1)) [] accounts_db)
    [good (call_AuthenticateServiceAccount "h2" (later 2))]) as [Ha _]; [vm_compute; reflexivity|constructor; [exact id|constructor]|]. exact (Ha _ _ _ _ _ _ Hs).
Defined.
Definition downloads_of_t1 : list (call * list bool) := [
  good (call_ReserveAgentBytes "t1" "2023-11-14" 700 1000); good (call_ReserveAgentBytes "t1" "2023-11-14" 700 1000);
  good (call_RefundAgentBytes "t1" "2023-11-14" 50); good (call_ReserveAgentBytes "t1" "2023-11-14" 700 1000)].
Lemma quota_bounded_witness : granted "t1" "2023-11-14" downloads_of_t1 accounts_db + usage "t1" "2023-11-14" accounts_db ≤ 1000.
Proof.
  apply (quota_bounded "t1" "2023-11-14" 1000 downloads_of_t1 accounts_db); [discriminate|vm_compute; discriminate|].
  repeat (constructor; [split; [first [exact I|intros _; discriminate]|exact id]|]). constructor.
Defined.

(** ** Shares *)

Definition share_1 : Share := mkShare "s1" "h" "n1" "m1" "docs" "file" "docs" "" false false 1 0 "u1" "user" "" day_1 (Some (later 600)) None None.
Definition node_1 : Node := mkNode "n1" "one" "https://n1" "sealed" "online" None day_1 day_1.
Definition shares_db : database := run_all (people ++ [good (call_SaveNode node_1); good (call_CreateShare share_1)]) empty_database.
Definition share_row_1 : option share_row := shares shares_db !! "s1".
Definition two_downloads : list (call * list bool) := [good (call_RegisterShareDownload "s1" (later 10)); good (call_RegisterShareDownload "s1" (later 11))].
Lemma downloads_bounded_witness : Z.of_nat (downloads "s1" two_downloads shares_db) ≤ 1.
Proof.
  destruct share_row_1 as [r|] eqn:Hr; [|vm_compute in Hr; discriminate Hr].
  destruct (downloads_bounded "s1" two_downloads shares_db r) as (_ & _ & Hmax); [exact Hr|repeat (constructor; [exact id|]); constructor|].
  vm_compute in Hr. injection Hr as <-. apply Hmax. reflexivity.
Defined.
Example first_download_passes : downloads "s1" two_downloads shares_db = 1%nat.
Proof. vm_compute. reflexivity. Qed.

(** ** Versions *)

Definition feature_calls : list (call * list bool) :=
  people ++ [good (call_CreatePolicy files_policy); good (call_CreateServiceAccount bot_account)].
Lemma old_programs_refuse_witness : Forall (λ f : Z * (database → Prop), f.2 (run_all feature_calls empty_database) → f.1 ≤ 8) features.
Proof.
  apply (old_programs_refuse feature_calls 8); [|vm_compute; reflexivity]. repeat (constructor; [exact id|]). constructor.
Defined.
Example version_7_refuses : opens_with 7 (run_all feature_calls empty_database) = false.
Proof. vm_compute. reflexivity. Qed.

(** ** Leases *)

Definition copy_scope : signedauth.Binding :=
  signedauth.mkBinding "u2" ("session-" +++ session_digest) "delete" "" "n1" "" "m1" "docs/a" "" "" "" "" "job-1" "".
Definition copy_link : JobAuthorizationLink :=
  mkLink "n1" "job-1" "user" "u2" ("session-" +++ session_digest) session_digest copy_scope 0 "" zero_time 0 "" zero_time zero_time zero_time.
Definition lease_envelope (revision : Z) : string :=
  token_of (signedauth.mkClaims 1 "k1" (copy_scope <| signedauth.RequestID := signedauth.JobLeaseRequestID "job-1" revision |>) 1700000010 1700000030 demo_context).
Definition lease_calls : list (call * list bool) := people ++ [
  good (call_SaveNode node_1); good (call_CreateJobAuthorizationLink copy_link (later 5));
  good (call_StageJobAuthorization "n1" "job-1" 1 (lease_envelope 1) demo_keys (later 10));
  good (call_ConfirmJobAuthorization "n1" "job-1" 1 (Digest (lease_envelope 1)) (later 30) (later 12));
  good (call_StageJobAuthorization "n1" "job-1" 2 (lease_envelope 2) demo_keys (later 15))].
Definition lease_row_1 : option link_row := job_links (run_all lease_calls empty_database) !! ("n1", "job-1").
Lemma confirmed_leases_verified_witness : ∃ r, lease_row_1 = Some r ∧ k_confirmed r = 1 ∧ k_pending r = 2 ∧ lease_ok lease_calls ("n1", "job-1") r.
Proof.
  unfold lease_row_1. destruct (job_links (run_all lease_calls empty_database) !! ("n1", "job-1")) as [r|] eqn:Hr; [|vm_compute in Hr; discriminate Hr]. exists r. split; [reflexivity|].
  pose proof (confirmed_leases_verified lease_calls ("n1", "job-1") r Hr) as Hok. vm_compute in Hr. injection Hr as <-. split; [reflexivity|split; [reflexivity|exact Hok]].
Defined.

(** ** Joining *)

Definition join_1 : JoinToken := mkJoinToken "j1" "hash-1" "one" "manual" "u1" day_1 (later 3600) None "".
Definition enrollment_1 (id : string) : Enrollment :=
  mkEnrollment id "" EnrollmentPending "one" "n1" "fp" "https://n1" "10.0.0.2" "csr" "csr-hash" "sealed" "poll" "" "" "" (later 60) (later 960) None.
Definition join_calls : list (call * list bool) := [good (call_CreateJoinToken join_1)].
Definition enrolled_db : database := run (call_StartEnrollment "hash-1" (enrollment_1 "e1") (later 60)) [] (run_all join_calls empty_database).
Lemma join_token_once_witness : ∃ token, EnrollmentID token = "e1" ∧
  (StartEnrollment "hash-1" (enrollment_1 "e2") (later 70) [] (run_all [good (call_RevokeJoinToken "j1")] enrolled_db)).1 = Ok (Used token) ∧
  (StartEnrollment "hash-1" ((enrollment_1 "e2") <| Enroll_NodeName := "two" |>) (later 70) [] enrolled_db).1 = Err ErrNotFound.
Proof.
  destruct (join_token_once join_calls "hash-1" (enrollment_1 "e1") (later 60) []
    (mkJoinToken "j1" "hash-1" "one" "manual" "u1" day_1 (later 3600) (Some (later 60)) "e1") enrolled_db) as (token & He & _ & Hs); [vm_compute; reflexivity|].
  exists token. split; [exact He|]. split; [rewrite Hs; reflexivity|].
  exact (f_equal fst (Hs [] ((enrollment_1 "e2") <| Enroll_NodeName := "two" |>) (later 70) [])).
Defined.
Definition decided_db : database := run (call_DecideEnrollment "e1" EnrollmentIssued "u1" "" "bundle" (later 90)) [] enrolled_db.
Lemma decisions_are_final_witness :
  (DecideEnrollment "e1" EnrollmentRejected "u1" "" "" (later 95) [] (run_all [good (call_ExpireEnrollments (later 5000))] decided_db)).1 ≠ Ok ().
Proof.
  destruct (decisions_are_final "e1" EnrollmentIssued "u1" "" "bundle" (later 90) [] enrolled_db decided_db [good (call_ExpireEnrollments (later 5000))]) as [_ Hd];
    [vm_compute; reflexivity|discriminate|]. apply Hd.
Defined.

(** Dates are compared as texts, and a text without a fraction comes after one with:
    half a second after an enrollment ran out, when it reads as expired, the
    database still takes a decision on it. *)
Definition half_after : time := later 960 + 500000000.
Theorem late_decision_accepted :
  (DecideEnrollment "e1" EnrollmentIssued "u1" "" "bundle" half_after [] enrolled_db).1 = Ok ()
  ∧ Enroll_State <$> (enrollments enrolled_db !! "e1" ≫= λ r, Some (read_enrollment half_after ("e1", r))) = Some EnrollmentExpired
  ∧ Enroll_ExpiresAt (enrollment_1 "e1") < half_after.
Proof. split_and!; vm_compute; reflexivity. Qed.

(** The limits of a credential can be changed to let it ask for deletions without
    the mark that keeps programs away that do not know that field, which the
    creation of such a credential sets. *)
Definition asking_limits : AgentLimits := mkAgentLimits 60 10 2 1000 1000 [] [] None true.
Theorem changed_limits_leave_no_mark :
  (UpdateAgentTokenLimits "bot" "t1" asking_limits [] accounts_db).1 = Ok ()
  ∧ opens_with 1 (run (call_UpdateAgentTokenLimits "bot" "t1" asking_limits) [] accounts_db) = true
  ∧ opens_with 7 (run (call_CreateServiceAccountToken (mkServiceAccountToken (Some asking_limits) "t3" "bot" "" "h3" None None None day_1) false) [] accounts_db) = false.
Proof. split_and!; vm_compute; reflexivity. Qed.

(** ** The audit trail *)

Import audit.
#[local] Existing Instance demo_crypto.
#[local] Existing Instance demo_crypto_ok.

(** Dates are texts whose length is the day. *)
#[local] Instance demo_sqlite : Sqlite := {| julianday s := if s =s "" then None else Some (inject_Z (len s)) |}.

Definition record_at (day action : string) : auditRecord := mkAuditRecord "alice" "user" action "nodes/n1" "allowed" "c1" day "" "" "" "" "".
Definition before_chain : list event := [mkEvent 1 (record_at "d" "login") "" ""; mkEvent 3 (record_at "dd" "login") "" ""].
Definition trail_calls : list (call * list bool) := [
  (Enable "ddd", []); (Append (record_at "ddd" "read") "ddd", []); (Append (record_at "dddd" "lost") "dddd", [false; false; true]);
  (Append (record_at "dddd" "delete") "dddd", []); (Append (record_at "" "grant") "ddddd", []); (Purge "dddd" "ddddd", [])].
Definition demo_trail : tables := foldl (λ t (c : call * list bool), run c.1 c.2 t) (mkTables before_chain 3 None []) trail_calls.
Definition demo_state : Z * string := default (0, "") (chain_state demo_trail).

Lemma audit_trail_chains_witness : ∃ cp, latest_checkpoint demo_trail = Some cp ∧ chained_from demo_trail cp demo_state.
Proof.
  apply (audit_trail_chains before_chain 3 trail_calls demo_state);
    [lia|repeat (constructor; [split; [cbn; lia|reflexivity]|]); constructor|vm_compute; reflexivity].
Defined.

Example what_is_left : event_id <$> audit_events demo_trail = [5; 6] ∧ EventID <$> checkpoints demo_trail = [3; 4].
Proof. split; vm_compute; reflexivity. Qed.

(** The digest of the demonstration sees the end of a payload only: two trails that
    differ in an action lead to the same hash, and their payloads collide. *)
Definition one_event (action : string) : tables :=
  foldl (λ t (c : call * list bool), run c.1 c.2 t) (mkTables [] 0 None []) [(Enable "d", []); (Append (record_at "d" action) "d", [])].
#[local] Abbreviation reads := (audit_events (one_event "read")).
#[local] Abbreviation grants_ := (audit_events (one_event "grant")).
Lemma audit_chain_tamper_evident_witness :
  ∃ e e', e ∈ reads ∧ e' ∈ grants_ ∧ chain_data e ≠ chain_data e' ∧ sha256_Sum (chain_data e) = sha256_Sum (chain_data e').
Proof.
  assert (texts_of reads ∧ texts_of grants_) as [H1 H2].
  { split; (constructor; [|constructor]); repeat (constructor; [vm_compute; reflexivity|]); constructor. }
  destruct (audit_chain_tamper_evident 0 0 zero_hash zero_hash reads grants_ 1 1 (chain_digest (default "" (chain_data <$> head reads)))) as [[Hl _]|Hc];
    [exact H1|exact H2|vm_compute; reflexivity|vm_compute; reflexivity|reflexivity|vm_compute; reflexivity|vm_compute; reflexivity| |exact Hc].
  exfalso. vm_compute in Hl. discriminate Hl.
Defined.
