(* ===== verification/StateProg.v ===== *)
(** Transactions of the node's state (node/backend/internal/infra/state).

    Every operation of the store runs a function under the store's lock, inside
    [Store.update] or [Store.view]. That function reads committed records and
    the indexes, and appends records to the transaction. [prog] is its type: a
    tree of the calls it makes to the store. The tree is run by the store of
    StateStore.v on files and indexes, and here by a specification, [db], a map
    from buckets and keys to records. *)
From S2P Require Import Prelude GoLib Entities.
From stdpp Require Import options.
Local Open Scope Z_scope.

(** * contracts/errors.go *)

Definition ErrNotFound := errors_New "not found".
Definition ErrInUse := errors_New "resource is in use".
Definition ErrIdempotencyConflict := errors_New "idempotency key was reused with a different request".
Definition ErrUploadSessionExists := errors_New "an upload session already targets this destination".
Definition ErrManagedConfiguration := errors_New "configuration is managed by file".
Definition ErrStateUnavailable := errors_New "persistent state unavailable; restart required".
Definition ErrJobAuthorizationUnavailable := errors_New "job authorization is unavailable or expired".
Definition ErrJobAuthorizationChanged := errors_New "job authorization context changed".

(** * go.yaml.in/yaml/v3

    The codec of a type of values. Fields tagged yaml:"-" are not written: what
    is read back is [stored] of what was written. *)
Class Yaml (A : Type) := {
  Marshal : A → result string;
  Unmarshal : string → result A;
}.
Class YamlOk (A : Type) `{Yaml A} (stored : A → A) : Prop := {
  yaml_round_trip : ∀ a, ∃ s, Marshal a = Ok s ∧ Unmarshal s = Ok (stored a);
}.

(** * Records *)

Record record := mkrecord {
  record_Bucket : string;
  record_Key : string;
  record_Group : string;
  record_Order : string;
  record_State : string;
  record_Delete : bool;
  record_Data : string;
}.
#[global] Instance record_eta : Eta record := λ r,
  mkrecord (record_Bucket r) (record_Key r) (record_Group r) (record_Order r) (record_State r) (record_Delete r) (record_Data r).

(** What the index says of a committed record. *)
Record info := mkinfo { Group : string; Order : string; State : string }.
#[global] Instance info_eq_dec : EqDecision info.
Proof. solve_decision. Defined.

Definition record_info (r : record) : info := mkinfo (record_Group r) (record_Order r) (record_State r).

Definition historyBucket (bucket : string) : bool := (bucket =s "events") || (bucket =s "audit").

(** * Programs *)

Inductive prog (A : Type) : Type :=
| Ret (a : A)
| Throw (e : error)
| Lookup (bucket key : string) (k : result string → prog A)
| Poison (p : prog A)
| Index (bucket : string) (k : gmap string info → prog A)
| Ordered (bucket kind value : string) (k : list string → prog A)
| Sequence (k : Z → prog A)
| Managed (k : bool → prog A)
| Emit (r : record) (p : prog A)
| Pending (k : Z → prog A)
| Ensure (required : Z) (k : result () → prog A).
Arguments Ret {_} _.
Arguments Throw {_} _.
Arguments Lookup {_} _ _ _.
Arguments Poison {_} _.
Arguments Index {_} _ _.
Arguments Ordered {_} _ _ _ _.
Arguments Sequence {_} _.
Arguments Managed {_} _.
Arguments Emit {_} _ _.
Arguments Pending {_} _.
Arguments Ensure {_} _ _.

#[global] Instance prog_ret : MRet prog := λ A a, Ret a.
#[global] Instance prog_bind : MBind prog := fix bind A B f p :=
  match p with
  | Ret a => f a
  | Throw e => Throw e
  | Lookup b k c => Lookup b k (λ r, bind A B f (c r))
  | Poison p => Poison (bind A B f p)
  | Index b c => Index b (λ m, bind A B f (c m))
  | Ordered b k v c => Ordered b k v (λ l, bind A B f (c l))
  | Sequence c => Sequence (λ n, bind A B f (c n))
  | Managed c => Managed (λ m, bind A B f (c m))
  | Emit r p => Emit r (bind A B f p)
  | Pending c => Pending (λ n, bind A B f (c n))
  | Ensure n c => Ensure n (λ r, bind A B f (c r))
  end.

Definition lift {A} (r : result A) : prog A := match r with Ok a => Ret a | Err e => Throw e end.
(** [if cond { return err }]. *)
Definition refuse_if (cond : bool) (e : error) : prog () := if cond then Throw e else Ret ().

(** A [for] loop. *)
Fixpoint forM {A B} (f : B → A → prog B) (b : B) (l : list A) : prog B :=
  match l with [] => Ret b | x :: l' => b' ← f b x; forM f b' l' end.

(** [get], its error as a value; a record that does not decode poisons the
    store. *)
Definition try_get (A : Type) `{Yaml A} (bucket key : string) : prog (result A) :=
  Lookup bucket key (λ r,
    match r with
    | Err e => Ret (Err e)
    | Ok data => match Unmarshal data with Ok v => Ret (Ok v) | Err e => Poison (Ret (Err e)) end
    end).
Definition get (A : Type) `{Yaml A} (bucket key : string) : prog A := r ← try_get A bucket key; lift r.

(** [s.index[bucket][key]], and whether it is there. *)
Definition index (bucket key : string) : prog (option info) := Index bucket (λ m, Ret (m !! key)).
Definition exists_ (bucket key : string) : prog bool := r ← index bucket key; Ret (bool_decide (is_Some r)).

(** [keys]. *)
Definition keys (bucket group : string) : prog (list string) :=
  Ordered bucket (if group =s "" then "all" else "group") group Ret.

(** [tx.put]; [state] is the state of a job, empty for any other value. *)
Definition put {A : Type} `{Yaml A} (bucket key group order state : string) (value : A) : prog () :=
  data ← lift (Marshal value);
  Emit (mkrecord bucket key group order state false data) (Ret ()).
Definition remove (bucket key : string) : prog () := Emit (mkrecord bucket key "" "" "" true "") (Ret ()).

(** [ensureSecurityVersion]. *)
Definition ensureSecurityVersion (required : Z) : prog () := Ensure required lift.

Definition sequence : prog Z := Sequence Ret.
Definition managed : prog bool := Managed Ret.

(** * The specification of the store *)

Record stored := mkstored { stored_info : info; stored_Data : string }.

Record db := mkdb {
  recs : gmap string (gmap string stored);
  db_sequence : Z;
  db_version : Z;
  db_managed : bool;
  db_readOnly : bool;
  unavailable : bool;
}.
#[global] Instance db_eta : Eta db := λ d,
  mkdb (recs d) (db_sequence d) (db_version d) (db_managed d) (db_readOnly d) (unavailable d).

(** The records of a bucket. *)
Definition bucket_of (d : db) (bucket : string) : gmap string stored := default ∅ (recs d !! bucket).

(** The sort order of the indexes: by the order text, then by key. *)
Definition before (m : gmap string info) (k1 k2 : string) : Prop :=
  let o k := from_option Order "" (m !! k) in
  (String.le (o k1) (o k2) ∧ o k1 ≠ o k2) ∨ (o k1 = o k2 ∧ String.le k1 k2).
#[global] Instance before_dec m k1 k2 : Decision (before m k1 k2).
Proof. unfold before. apply _. Defined.

(** Whether a selection of the ordered index contains a record. *)
Definition selected (kind value : string) (i : info) : bool :=
  if kind =s "all" then value =s ""
  else if kind =s "group" then Group i =s value
  else if kind =s "state" then State i =s value else false.

Definition sorted_keys (m : gmap string info) (kind value : string) : list string :=
  merge_sort (before m) (fst <$> filter (λ ki : string * info, selected kind value ki.2 = true) (map_to_list m)).

(** What happens at the commit points of an update: whether raising the security
    version to a given one succeeds, and how the commit ends. *)
Inductive outcome := Committed | NotCommitted | CommittedThenFailed.
Record oracle := mkoracle { ensure_ok : Z → bool; commit : outcome }.
Definition no_faults : oracle := mkoracle (λ _, true) Committed.

Fixpoint run {A} (o : oracle) (p : prog A) (d : db) (tx : list record) : db * list record * result A :=
  match p with
  | Ret a => (d, tx, Ok a)
  | Throw e => (d, tx, Err e)
  | Lookup b k c =>
      run o (c (match bucket_of d b !! k with None => Err ErrNotFound | Some s => Ok (stored_Data s) end)) d tx
  | Poison p => run o p (d <| unavailable := true |>) tx
  | Index b c => run o (c (stored_info <$> bucket_of d b)) d tx
  | Ordered b kind v c => run o (c (sorted_keys (stored_info <$> bucket_of d b) kind v)) d tx
  | Sequence c => run o (c (db_sequence d)) d tx
  | Managed c => run o (c (db_managed d)) d tx
  | Emit r p => run o p d (tx ++ [r])
  | Pending c => run o (c (Z.of_nat (length tx))) d tx
  | Ensure n c =>
      if n <=? db_version d then run o (c (Ok ())) d tx
      else if ensure_ok o n then run o (c (Ok ())) (d <| db_version := n |>) tx
      else run o (c (Err ErrStateUnavailable)) (d <| db_version := n |> <| unavailable := true |>) tx
  end.

(** Committed records replace, add or delete one record each. *)
Definition commit_record (m : gmap string (gmap string stored)) (r : record) : gmap string (gmap string stored) :=
  let b := default ∅ (m !! record_Bucket r) in
  <[record_Bucket r := if record_Delete r then delete (record_Key r) b
                       else <[record_Key r := mkstored (record_info r) (record_Data r)]> b]> m.
Definition commit_records (d : db) (tx : list record) : db :=
  d <| recs := foldl commit_record (recs d) tx |> <| db_sequence := u64 (db_sequence d + 1) |>.

(** The checks of [update] on the records of a transaction: none without an
    identity, and history only ever grows. *)
Definition record_refused (m : gmap string (gmap string stored)) (seen : gset (string * string)) (r : record) : option error :=
  if (record_Bucket r =s "") || (record_Key r =s "") then Some (errors_New "empty state record identity")
  else if historyBucket (record_Bucket r) then
    if bool_decide (is_Some (default ∅ (m !! record_Bucket r) !! record_Key r)) || record_Delete r
       || ((record_Bucket r, record_Key r) ∈b seen)
    then Some (errors_New "history records are append-only") else None
  else None.
Definition records_ok (d : db) (tx : list record) : result (gset (string * string)) :=
  foldM (λ seen r,
    match record_refused (recs d) seen r with
    | Some e => Err e
    | None => Ok (if historyBucket (record_Bucket r) then {[(record_Bucket r, record_Key r)]} ∪ seen else seen)
    end) ∅ tx.

(** A context is alive ([None]) or done with an error. *)
Definition Context := option error.

Definition db_available (ctx : Context) (d : db) : result () :=
  match ctx with
  | Some e => Err e
  | None => fail_if (unavailable d) ErrStateUnavailable
  end.

Definition db_view {A} (o : oracle) (ctx : Context) (p : prog A) (d : db) : db * result A :=
  match db_available ctx d with
  | Err e => (d, Err e)
  | Ok _ => let '(d', _, r) := run o p d [] in (d', r)
  end.

Definition db_update {A} (o : oracle) (ctx : Context) (p : prog A) (d : db) : db * result A :=
  match db_available ctx d with
  | Err e => (d, Err e)
  | Ok _ =>
    if db_readOnly d then (d, Err (errors_New "state is open read-only")) else
    let '(d', tx, r) := run o p d [] in
    match r with
    | Err e => (d', Err e)
    | Ok a =>
      if bool_decide (length tx = 0%nat) then (d', Ok a) else
      match records_ok d' tx with
      | Err e => (d', Err e)
      | Ok _ =>
        match commit o with
        | Committed => (commit_records d' tx, Ok a)
        | NotCommitted => (d' <| unavailable := true |>, Err ErrStateUnavailable)
        | CommittedThenFailed => ((commit_records d' tx) <| unavailable := true |>, Err ErrStateUnavailable)
        end
      end
    end
  end.
