(* ===== verification/StateRecords.v ===== *)
(** The records of the node's state and the predicates its operations share
    (node/backend/internal/infra/state): the operation type, jobs.go's rules on
    secured jobs, destructive_plans.go's formats, job_authorizations.go's record
    and its match with a job. *)
From S2P Require Import Prelude GoLib Entities GoTime FileTypes SignedAuth StateProg.
From stdpp Require Import options.
Local Open Scope Z_scope.

(** * Operations

    An operation answers at once, or runs one transaction and then computes its
    answer outside the lock. [Configure] is an update after which the store is
    managed by its configuration file. *)
Inductive op (A : Type) : Type :=
| Reply (r : result A)
| Update {B : Type} (p : prog B) (post : B → result A)
| View {B : Type} (p : prog B) (post : B → result A)
| Configure (p : prog A).
Arguments Reply {_} _.
Arguments Update {_ _} _ _.
Arguments View {_ _} _ _.
Arguments Configure {_} _.

Definition db_call {A} (o : oracle) (ctx : Context) (c : op A) (d : db) : db * result A :=
  match c with
  | Reply r => (d, r)
  | Update p post => let '(d', r) := db_update o ctx p d in (d', r ≫= post)
  | View p post => let '(d', r) := db_view o ctx p d in (d', r ≫= post)
  | Configure p =>
      let '(d', r) := db_update o ctx p d in
      (match r with Ok _ => d' <| db_managed := true |> | Err _ => d' end, r)
  end.

(** An early refusal before the transaction. *)
Definition guarded {A} (refused : bool) (e : error) (c : op A) : op A := if refused then Reply (Err e) else c.

(** * jobs.go: records and rules *)

Record idempotencyRecord := { JobID : string; RequestHash : string }.

Definition itemKey (item : JobItem) : string := JobItem_JobID item +++ String NUL (JobItem_RelativePath item).

(** The kinds of job the node runs under a signed authorization. *)
Definition securedJobKind (job : Job) : bool :=
  if Job_Type job ∈b ["copy_local"; "transfer_pull_batch"] then Job_DestructivePlanID job =s ""
  else if Job_Type job ∈b ["delete"; "move_local"; "transfer_move_batch"] then Job_DestructivePlanID job ≠s ""
  else false.

Definition executableSecuredJob (job : Job) : bool := Job_SignedAuthBound job && securedJobKind job.

Definition validSecuredJobUpdate (old next : Job) : bool :=
  if (Job_DestructivePlanID old ≠s Job_DestructivePlanID next) || (Job_SignedAuthBound old ≠s Job_SignedAuthBound next)
     || (Job_RequiresSignedAuth old ≠s Job_RequiresSignedAuth next) || (Job_SignedAuthActorID old ≠s Job_SignedAuthActorID next)
     || (Job_SignedAuthCredentialID old ≠s Job_SignedAuthCredentialID next) then false
  else if (Job_DestructivePlanID old =s "") && negb (Job_SignedAuthBound old) && negb (Job_RequiresSignedAuth old) then true
  else if (Job_Type old ≠s Job_Type next) || (Job_MountID old ≠s Job_MountID next) || (Job_SourcePath old ≠s Job_SourcePath next)
     || (Job_Destination old ≠s Job_Destination next) || (Job_Overwrite old ≠s Job_Overwrite next)
     || (Job_Recursive old ≠s Job_Recursive next) || (Job_ConflictPolicy old ≠s Job_ConflictPolicy next)
     || (Job_SourceChangePolicy old ≠s Job_SourceChangePolicy next) || (Job_VerifyChecksum old ≠s Job_VerifyChecksum next)
     || (Job_BandwidthLimit old ≠s Job_BandwidthLimit next) || (Job_MaxParallelFiles old ≠s Job_MaxParallelFiles next)
     || (Job_MaxParallelChunks old ≠s Job_MaxParallelChunks next) || (Job_MaxAttempts old ≠s Job_MaxAttempts next)
     || (Job_PeerNodeID old ≠s Job_PeerNodeID next) || (Job_SourceGrantID old ≠s Job_SourceGrantID next)
     || (Job_DestinationGrantID old ≠s Job_DestinationGrantID next) then false
  else if (Job_State old =s "canceled") && (Job_State next ≠s "canceled") then false
  else if executableSecuredJob old then
    if Job_State old ∈b ["running"; "pause_requested"; "cancel_requested"] then true
    else if Job_State old ∈b ["completed"; "completed_with_warnings"] then Job_State next =s Job_State old
    else Job_State next ∈b ["waiting_validation"; "paused"; "canceled"; "queued"]
  else Job_State next ∈b ["waiting_validation"; "paused"; "canceled"].

Definition jobItemsWritable (job : Job) : bool :=
  if negb (Job_RequiresSignedAuth job) && negb (Job_SignedAuthBound job) && (Job_DestructivePlanID job =s "") then true
  else if negb (executableSecuredJob job) then false
  else Job_State job ∈b ["running"; "pause_requested"; "cancel_requested"].

(** * destructive_plans.go: formats *)

Section Formats.
Context {U : Unicode} {C : Crypto}.

Definition planDigest (value : string) : bool :=
  if (len value ≠s 64) || (ToLower value ≠s value) then false else hex_valid value.

Definition planPath (value : string) : bool :=
  (value ≠s "") && (len value <=? 2048) && ValidString value && (TrimSpace value =s value)
  && negb (ContainsAny value (String backslash (String NUL ""))) && negb (HasPrefix value "/") && (value ≠s ".") && (value ≠s "..")
  && negb (HasPrefix value "../") && (path_Clean value =s value).

Definition destructiveIdempotencyKey (subjectType subjectID key : string) : string :=
  hex_EncodeToString (sha256_Sum (subjectType +++ String NUL (subjectID +++ String NUL key))).

(** * job_authorizations.go: the record and its match with a job *)

Record JobAuthorization := mkJobAuthorization {
  auth_JobID : string;
  auth_Binding : signedauth.Binding;
  Revision : Z;
  Envelope : string;
  auth_ExpiresAt : time;
}.

Definition job_options (job : Job) : signedauth.JobOptions := {|
  signedauth.Overwrite := Job_Overwrite job; signedauth.Recursive := Job_Recursive job;
  signedauth.ConflictPolicy := Job_ConflictPolicy job; signedauth.SourceChangePolicy := Job_SourceChangePolicy job;
  signedauth.VerifyChecksum := Job_VerifyChecksum job; signedauth.BandwidthLimit := Job_BandwidthLimit job;
  signedauth.MaxParallelFiles := Job_MaxParallelFiles job; signedauth.MaxParallelChunks := Job_MaxParallelChunks job;
  signedauth.MaxAttempts := Job_MaxAttempts job |}.

Definition jobAuthorizationMatches (job : Job) (expected : signedauth.Binding) (nodeID : string) : bool :=
  let digest := signedauth.JobOptionsDigest expected in
  if Job_RequiresSignedAuth job
     && ((Job_SignedAuthActorID job ≠s signedauth.ActorID expected) || (Job_SignedAuthCredentialID job ≠s signedauth.CredentialID expected))
  then false
  else if Job_RequiresSignedAuth job && (digest =s "") || (digest ≠s "") && (digest ≠s signedauth.options_digest (job_options job))
  then false
  else if (signedauth.PlanID expected ≠s Job_ID job) || (signedauth.Operation expected ≠s Job_Type job)
          || (signedauth.RequestID expected ≠s "") || (signedauth.SourceRoot expected ≠s Job_SourcePath job) then false
  else if Job_Type job =s "delete" then
    (signedauth.SourceNodeID expected =s nodeID) && (signedauth.SourceMountID expected =s Job_MountID job)
    && (signedauth.DestinationNodeID expected =s "")
  else if Job_Type job ∈b ["copy_local"; "move_local"] then
    (signedauth.SourceNodeID expected =s nodeID) && (signedauth.DestinationNodeID expected =s nodeID)
    && (signedauth.SourceMountID expected =s Job_MountID job) && (signedauth.DestinationMountID expected =s Job_MountID job)
    && (signedauth.DestinationRoot expected =s Job_Destination job)
  else if Job_Type job ∈b ["transfer_pull"; "transfer_pull_directory"; "transfer_pull_batch"; "transfer_move_batch"] then
    (signedauth.SourceNodeID expected =s Job_PeerNodeID job) && (signedauth.DestinationNodeID expected =s nodeID)
    && (signedauth.SourceGrantID expected =s Job_SourceGrantID job)
    && (signedauth.DestinationGrantID expected =s Job_DestinationGrantID job)
    && (signedauth.DestinationMountID expected =s Job_MountID job) && (signedauth.DestinationRoot expected =s Job_Destination job)
  else false.
End Formats.

(** * Shared steps of the transactions *)

Section Steps.
Context {YJob : Yaml Job} {YItem : Yaml JobItem}.

(** [tx.put] of a job, which also records its state for the index. *)
Definition put_job (key : string) (j : Job) : prog () :=
  put "jobs" key (Job_PeerNodeID j) (order (Job_CreatedAt j)) (Job_State j) j.

(** The loop that records the items of a job. *)
Definition put_items (jobID : string) (items : list JobItem) : prog () :=
  _ ← forM (λ (seen : gset string) item,
        let item := item <| JobItem_JobID := jobID |> in
        let k := itemKey item in
        if k ∈b seen then Throw (errors_New "duplicate job item") else
        _ ← put "items" k jobID (pad_dec 12 (JobItem_Ordinal item)) "" item;
        Ret ({[k]} ∪ seen)) ∅ items;
  Ret ().

(** The loop that reads the values of a list of keys. *)
Definition get_all (A : Type) `{Yaml A} (bucket : string) (ids : list string) : prog (list A) :=
  forM (λ out id, v ← get A bucket id; Ret (out ++ [v])) [] ids.
End Steps.
