(* ===== verification/StateAuthorizations.v ===== *)
(** job_authorizations.go and job_authorization_guard.go of the node's state:
    the leases of secured jobs. *)
From S2P Require Import Prelude GoLib Base64 Entities GoTime FileTypes SignedAuth StateProg StateRecords.
From stdpp Require Import options.
Local Open Scope Z_scope.

Section Authorizations.
Context {U : Unicode} {C : Crypto}.
Context {YJob : Yaml Job} {YPlan : Yaml DestructivePlan} {YAuth : Yaml JobAuthorization}.
Implicit Types (keys : gmap string string) (now : time).

(** [verifiedJobLease]: the error is a value, since the claim of a job goes on
    without the lease. *)
Definition verifiedJobLease (job : Job) (nodeID : string) keys now : prog (result (JobAuthorization * filetypes.Filter)) :=
  current ← try_get JobAuthorization "job_authorizations" (Job_ID job);
  match current with
  | Err _ => Ret (Err ErrInUse)
  | Ok current =>
    if negb (Job_SignedAuthBound job) || (auth_JobID current ≠s Job_ID job)
       || negb (jobAuthorizationMatches job (auth_Binding current) nodeID) then Ret (Err ErrInUse) else
    let lease :=
      match signedauth.VerifyJobLease (Envelope current) keys (auth_Binding current) nodeID (Revision current) now with
      | Err _ => Err ErrInUse
      | Ok (claims, checked) =>
        if signedauth.ExpiresAt claims ≠s signedauth.Unix (auth_ExpiresAt current) then Err ErrInUse else Ok (current, checked)
      end in
    if Job_DestructivePlanID job ≠s "" then
      plan ← try_get DestructivePlan "destructive_plans" (Job_DestructivePlanID job);
      match plan with
      | Err _ => Ret (Err ErrInUse)
      | Ok plan =>
        if (DestructivePlan_ConsumedJobID plan ≠s Job_ID job)
           || (DestructivePlan_SubjectID plan ≠s signedauth.ActorID (auth_Binding current)) then Ret (Err ErrInUse)
        else Ret lease
      end
    else Ret lease
  end.

Definition JobAuthorizationStatus (jobID : string) : op (Z * time * string) :=
  View (job ← get Job "jobs" jobID;
        current ← try_get JobAuthorization "job_authorizations" jobID;
        match current with
        | Err e =>
            if bool_decide (e = ErrNotFound) && negb (Job_SignedAuthBound job) then Ret (0, zero_time, "") else Throw ErrInUse
        | Ok current =>
            if negb (Job_SignedAuthBound job) || (auth_JobID current ≠s Job_ID job) || (Revision current =? 0)
               || IsZero (auth_ExpiresAt current) || (Envelope current =s "") then Throw ErrInUse
            else Ret (Revision current, auth_ExpiresAt current, RawURL_EncodeToString (sha256_Sum (Envelope current)))
        end) Ok.

(** The transaction of [RenewJobAuthorization]. *)
Definition renew (jobID nodeID envelope : string) (expected : signedauth.Binding) keys now : prog JobAuthorization :=
  job ← get Job "jobs" jobID;
  _ ← refuse_if (negb (if Job_State job ∈b ["queued"; "waiting_validation"; "paused"; "interrupted"] then true
                       else if Job_State job =s "running" then executableSecuredJob job else false)) ErrInUse;
  _ ← refuse_if (negb (jobAuthorizationMatches job expected nodeID)) ErrInUse;
  _ ← (if Job_DestructivePlanID job ≠s "" then
         plan ← try_get DestructivePlan "destructive_plans" (Job_DestructivePlanID job);
         match plan with
         | Err _ => Throw ErrInUse
         | Ok plan => refuse_if ((DestructivePlan_ConsumedJobID plan ≠s Job_ID job)
                                 || (DestructivePlan_SubjectID plan ≠s signedauth.ActorID expected)) ErrInUse
         end
       else Ret ());
  old ← try_get JobAuthorization "job_authorizations" (Job_ID job);
  (* either the envelope already recorded, or the revision the new one must have *)
  next ← match old with
         | Ok old =>
           if negb (Job_SignedAuthBound job) || (auth_JobID old ≠s Job_ID job) || (Revision old =? MaxUint64)
              || (auth_Binding old ≠s expected) then Throw ErrInUse
           else if Envelope old =s envelope then
             match signedauth.VerifyJobLease envelope keys expected nodeID (Revision old) now with
             | Err _ => Throw ErrInUse
             | Ok (claims, _) =>
               if signedauth.ExpiresAt claims ≠s signedauth.Unix (auth_ExpiresAt old) then Throw ErrInUse else Ret (inl old)
             end
           else Ret (inr (Revision old + 1))
         | Err e => if bool_decide (e ≠ ErrNotFound) || Job_SignedAuthBound job then Throw ErrInUse else Ret (inr 1)
         end;
  match next with
  | inl old => Ret old
  | inr revision =>
    match signedauth.VerifyJobLease envelope keys expected nodeID revision now with
    | Err _ => Throw ErrInUse
    | Ok (claims, _) =>
      _ ← ensureSecurityVersion 5;
      let authorization := mkJobAuthorization (Job_ID job) expected revision envelope (of_Unix (signedauth.ExpiresAt claims)) in
      if Job_State job =s "running" then
        _ ← put "job_authorizations" (Job_ID job) "" (order now) "" authorization;
        Ret authorization
      else
        let job := job <| Job_SignedAuthBound := true |> in
        let autoResume := securedJobKind job && ((Job_State job =s "queued")
                            || (Job_State job =s "waiting_validation") && (Job_Phase job =s "waiting_authorization")) in
        let job :=
          if Job_State job =s "paused" then job
          else if autoResume then job <| Job_State := "queued" |> <| Job_Phase := "validation" |> <| Job_Error := "" |>
          else job <| Job_State := "waiting_validation" |> <| Job_Phase := "waiting_validation" |>
                   <| Job_Error := "job execution requires authorization renewal and validation" |> <| Job_NextAttemptAt := None |> in
        let job := job <| Job_UpdatedAt := now |> in
        _ ← put "job_authorizations" (Job_ID job) "" (order now) "" authorization;
        _ ← put_job (Job_ID job) job;
        Ret authorization
    end
  end.

Definition RenewJobAuthorization (jobID nodeID envelope : string) (expected : signedauth.Binding) keys now : op JobAuthorization :=
  guarded (negb (signedauth.ValidKeyID jobID) || negb (signedauth.ValidKeyID nodeID) || IsZero now || (envelope =s "")) ErrInUse
    (Update (renew jobID nodeID envelope expected keys now) Ok).

Definition RegisterSignedJobAuthorization (jobID nodeID envelope : string) keys now : op (Z * time) :=
  match signedauth.VerifiedJobLeaseBinding envelope keys nodeID now with
  | Err _ => Reply (Err ErrInUse)
  | Ok binding =>
    guarded (signedauth.PlanID binding ≠s jobID) ErrInUse
      (guarded (negb (signedauth.ValidKeyID jobID) || negb (signedauth.ValidKeyID nodeID) || IsZero now || (envelope =s "")) ErrInUse
        (Update (renew jobID nodeID envelope binding keys now)
          (λ authorization, Ok (Revision authorization, auth_ExpiresAt authorization))))
  end.

Definition GetJobAuthorization (jobID : string) : op JobAuthorization :=
  View (get JobAuthorization "job_authorizations" jobID) Ok.

Definition ValidateJobAuthorization (jobID nodeID : string) keys now : op (JobAuthorization * filetypes.Filter) :=
  guarded (negb (signedauth.ValidKeyID jobID) || negb (signedauth.ValidKeyID nodeID) || IsZero now) ErrInUse
    (View (job ← get Job "jobs" jobID;
           _ ← refuse_if (negb (Job_State job ∈b ["queued"; "running"; "waiting_validation"])) ErrInUse;
           lease ← verifiedJobLease job nodeID keys now;
           lift lease) Ok).

Definition DestructivePlanForJob (jobID : string) : op DestructivePlan :=
  guarded (negb (signedauth.ValidKeyID jobID)) ErrInUse
    (View (job ← get Job "jobs" jobID;
           _ ← refuse_if (Job_DestructivePlanID job =s "") ErrInUse;
           current ← get DestructivePlan "destructive_plans" (Job_DestructivePlanID job);
           _ ← refuse_if ((DestructivePlan_ConsumedJobID current ≠s Job_ID job) || (DestructivePlan_MountID current ≠s Job_MountID job)
                          || (DestructivePlan_Source current ≠s Job_SourcePath job)
                          || (DestructivePlan_Destination current ≠s Job_Destination job)
                          || (DestructivePlan_Overwrite current ≠s Job_Overwrite job)) ErrInUse;
           Ret current) Ok).

Definition JobAuthorizationBinding (jobID : string) : op signedauth.Binding :=
  View (get JobAuthorization "job_authorizations" jobID) (λ authorization, Ok (auth_Binding authorization)).

End Authorizations.
