(* ===== verification/StateJobs.v ===== *)
(** jobs.go of the node's state: creating, claiming, updating and listing jobs,
    their items and their events. *)
From S2P Require Import Prelude GoLib Entities GoTime FileTypes SignedAuth StateProg StateRecords.
From S2P Require Import StateAuthorizations.
From stdpp Require Import options.
Local Open Scope Z_scope.

Section Jobs.
Context {U : Unicode} {C : Crypto}.
Context {YJob : Yaml Job} {YItem : Yaml JobItem} {YEvent : Yaml JobEvent} {YIdem : Yaml idempotencyRecord}.
Context {YPlan : Yaml DestructivePlan} {YAuth : Yaml JobAuthorization}.
Implicit Types (keys : gmap string string) (now : time) (j : Job).

(** The fields that mark a job as secured. *)
Definition secured_fields j : bool :=
  (Job_DestructivePlanID j ≠s "") || Job_SignedAuthBound j || Job_RequiresSignedAuth j
  || (Job_SignedAuthActorID j ≠s "") || (Job_SignedAuthCredentialID j ≠s "").

(** * Creation *)

Definition CreateJobWithItemsHashed j (items : list JobItem) (key hash : string) : op (Job * bool) :=
  guarded (secured_fields j) ErrInUse
    (Update (
      let create :=
        _ ← (present ← exists_ "jobs" (Job_ID j); refuse_if present (errors_New "job already exists"));
        _ ← put_job (Job_ID j) j;
        _ ← put_items (Job_ID j) items;
        _ ← (if key ≠s "" then put "idempotency" key "" "" "" {| JobID := Job_ID j; RequestHash := hash |} else Ret ());
        Ret (j, false) in
      if key ≠s "" then
        v ← try_get idempotencyRecord "idempotency" key;
        match v with
        | Ok v =>
          _ ← refuse_if ((hash ≠s "") && (hash ≠s RequestHash v)) ErrIdempotencyConflict;
          stored ← get Job "jobs" (JobID v);
          _ ← refuse_if (Job_RequiresSignedAuth stored || Job_SignedAuthBound stored || (Job_DestructivePlanID stored ≠s ""))
                ErrIdempotencyConflict;
          Ret (stored, true)
        | Err e => if bool_decide (e ≠ ErrNotFound) then Throw e else create
        end
      else create) Ok).

Definition CreateJob j (key : string) : op (Job * bool) := CreateJobWithItemsHashed j [] key "".
Definition CreateJobWithItems j (items : list JobItem) (key : string) : op (Job * bool) := CreateJobWithItemsHashed j items key "".

Definition consumeMovePlan (binding : MovePlanBinding) (actorID : string) j (key hash : string) : prog Job :=
  plan ← try_get DestructivePlan "destructive_plans" (MovePlanBinding_PlanID binding);
  match plan with
  | Err _ => Throw ErrInUse
  | Ok plan =>
    _ ← refuse_if ((DestructivePlan_Operation plan ≠s "transfer_move")
          || (DestructivePlan_SubjectType plan ≠s MovePlanBinding_SubjectType binding)
          || (DestructivePlan_SubjectID plan ≠s actorID) || (DestructivePlan_MountID plan ≠s Job_MountID j)
          || (DestructivePlan_ConsumedJobID plan ≠s "")
          || (DestructivePlan_TokenHash plan ≠s MovePlanBinding_TokenHash binding)
          || (DestructivePlan_TreeDigest plan ≠s MovePlanBinding_Digest binding)
          || negb (Before (MovePlanBinding_Now binding) (DestructivePlan_ExpiresAt plan))
          || Before (MovePlanBinding_Now binding) (DestructivePlan_CreatedAt plan)) ErrInUse;
    let plan := plan <| DestructivePlan_ConsumedJobID := Job_ID j |> <| DestructivePlan_IdempotencyKey := key |>
                     <| DestructivePlan_RequestHash := hash |> in
    _ ← put "destructive_plans" (DestructivePlan_ID plan) (DestructivePlan_SubjectID plan)
          (order (DestructivePlan_CreatedAt plan)) "" plan;
    Ret (j <| Job_DestructivePlanID := DestructivePlan_ID plan |>)
  end.

Definition createJobAwaitingAuthorization j (items : list JobItem) (actorID credentialID key hash : string)
    (plan : option MovePlanBinding) : op (Job * bool) :=
  guarded (negb (signedauth.ValidKeyID (Job_ID j)) || negb (signedauth.ValidKeyID (Job_MountID j))
           || negb (signedauth.ValidKeyID actorID) || negb (signedauth.ValidKeyID credentialID) || (key =s "") || (hash =s "")
           || (Job_State j ≠s "queued") || secured_fields j) ErrInUse
    (Update (
      previous ← try_get idempotencyRecord "idempotency" key;
      match previous with
      | Ok previous =>
        _ ← refuse_if (RequestHash previous ≠s hash) ErrIdempotencyConflict;
        stored ← get Job "jobs" (JobID previous);
        _ ← refuse_if (negb (Job_RequiresSignedAuth stored) || (Job_SignedAuthActorID stored ≠s actorID)
                       || (Job_SignedAuthCredentialID stored ≠s credentialID)
                       || match plan with
                          | Some plan => Job_DestructivePlanID stored ≠s MovePlanBinding_PlanID plan
                          | None => false
                          end) ErrIdempotencyConflict;
        Ret (stored, true)
      | Err e =>
        _ ← refuse_if (bool_decide (e ≠ ErrNotFound)) e;
        _ ← (present ← exists_ "jobs" (Job_ID j); refuse_if present ErrInUse);
        _ ← ensureSecurityVersion 6;
        j ← match plan with Some plan => consumeMovePlan plan actorID j key hash | None => Ret j end;
        let j := j <| Job_RequiresSignedAuth := true |> <| Job_SignedAuthActorID := actorID |>
                   <| Job_SignedAuthCredentialID := credentialID |>
                   <| Job_State := "waiting_validation" |> <| Job_Phase := "waiting_authorization" |>
                   <| Job_Error := "job execution requires authorization and validation" |> <| Job_NextAttemptAt := None |> in
        _ ← put_job (Job_ID j) j;
        _ ← put_items (Job_ID j) items;
        _ ← put "idempotency" key "" "" "" {| JobID := Job_ID j; RequestHash := hash |};
        Ret (j, false)
      end) Ok).

Definition CreateJobAwaitingAuthorization j (actorID credentialID key hash : string) : op (Job * bool) :=
  guarded (negb (Job_Type j ∈b ["delete"; "copy_local"; "move_local"])) ErrInUse
    (createJobAwaitingAuthorization j [] actorID credentialID key hash None).
Definition CreatePlannedJobAwaitingAuthorization j (items : list JobItem) (actorID credentialID key hash : string) : op (Job * bool) :=
  guarded ((Job_Type j ≠s "transfer_pull_batch") || bool_decide (length items = 0%nat)) ErrInUse
    (createJobAwaitingAuthorization j items actorID credentialID key hash None).
Definition CreatePlannedMoveAwaitingAuthorization j (items : list JobItem) (actorID credentialID key hash : string)
    (plan : MovePlanBinding) : op (Job * bool) :=
  guarded ((Job_Type j ≠s "transfer_move_batch") || bool_decide (length items = 0%nat)
           || negb (signedauth.ValidKeyID (MovePlanBinding_PlanID plan)) || negb (planDigest (MovePlanBinding_TokenHash plan))
           || negb (planDigest (MovePlanBinding_Digest plan)) || IsZero (MovePlanBinding_Now plan)) ErrInUse
    (createJobAwaitingAuthorization j items actorID credentialID key hash (Some plan)).

Definition FindJobByIdempotency (key : string) : op (option (Job * string)) :=
  View (v ← try_get idempotencyRecord "idempotency" key;
        match v with
        | Err e => if bool_decide (e = ErrNotFound) then Ret None else Throw e
        | Ok v => j ← get Job "jobs" (JobID v); Ret (Some (j, RequestHash v))
        end) Ok.

(** * Updates *)

Definition UpdateJob j : op () :=
  Update (old ← get Job "jobs" (Job_ID j);
          _ ← refuse_if (negb (validSecuredJobUpdate old j)) ErrInUse;
          let j := j <| Job_CreatedAt := Job_CreatedAt old |> in
          put_job (Job_ID j) j) Ok.

(** The event of the transaction under way: numbered by its sequence. *)
Definition put_event (event : JobEvent) : prog JobEvent :=
  n ← sequence;
  let event := event <| JobEvent_ID := i64 (n + 1) |> in
  let key := pad_dec 20 (JobEvent_ID event) in
  _ ← put "events" key (JobEvent_JobID event) key "" event;
  Ret event.

Definition UpdateJobWithEvent j (event : JobEvent) : op () :=
  Update (_ ← refuse_if (JobEvent_JobID event ≠s Job_ID j) (errors_New "job event does not belong to job");
          old ← get Job "jobs" (Job_ID j);
          _ ← refuse_if (negb (validSecuredJobUpdate old j)) ErrInUse;
          let j := j <| Job_CreatedAt := Job_CreatedAt old |> in
          _ ← put_job (Job_ID j) j;
          _ ← put_event event;
          Ret ()) Ok.

(** * Claims *)

(** A job that starts at [now]. *)
Definition started j now : Job :=
  let j := j <| Job_State := "running" |> <| Job_Phase := "validation" |> <| Job_UpdatedAt := now |> <| Job_NextAttemptAt := None |>
             <| Job_Attempt := i64 (Job_Attempt j + 1) |> in
  match Job_StartedAt j with None => j <| Job_StartedAt := Some now |> | Some _ => j end.

(** The loop of [ClaimNextSecuredJob] over the queued jobs. *)
Fixpoint claim_secured (ids : list string) (nodeID : string) keys now : prog Job :=
  match ids with
  | [] => Ret Job_zero
  | id :: ids =>
    j ← get Job "jobs" id;
    if (Job_State j ≠s "queued") || negb (executableSecuredJob j)
       || match Job_NextAttemptAt j with Some t => After t now | None => false end
    then claim_secured ids nodeID keys now else
    lease ← verifiedJobLease j nodeID keys now;
    match lease with
    | Err _ =>
      let j := j <| Job_State := "waiting_validation" |> <| Job_Phase := "waiting_authorization" |> <| Job_UpdatedAt := now |>
                 <| Job_Error := "job authorization expired; waiting for renewal" |> in
      _ ← put_job id j;
      claim_secured ids nodeID keys now
    | Ok _ =>
      let j := started j now in
      _ ← put_job id j;
      Ret j
    end
  end.

Definition ClaimNextSecuredJob (nodeID : string) keys now : op Job :=
  guarded (negb (signedauth.ValidKeyID nodeID) || IsZero now) ErrInUse
    (Update (Ordered "jobs" "state" "queued" (λ ids, claim_secured ids nodeID keys now))
      (λ job, if Job_ID job =s "" then Err ErrNotFound else Ok job)).

Fixpoint claim (ids : list string) now : prog Job :=
  match ids with
  | [] => Throw ErrNotFound
  | id :: ids =>
    j ← get Job "jobs" id;
    if (Job_State j ≠s "queued") || (Job_DestructivePlanID j ≠s "") || Job_SignedAuthBound j || Job_RequiresSignedAuth j
       || match Job_NextAttemptAt j with Some t => After t now | None => false end
    then claim ids now else
    let j := started j now in
    _ ← put_job id j;
    Ret j
  end.

Definition ClaimNextJob now : op Job := Update (Ordered "jobs" "state" "queued" (λ ids, claim ids now)) Ok.

Definition changeJobs now (states : list string) (matches : Job → bool) (recovery : bool) : op (list Job) :=
  Update (
    ids ← StateProg.keys "jobs" "";
    forM (λ out id,
      state ← (i ← index "jobs" id; Ret (from_option State "" i));
      if negb (state ∈b states) then Ret out else
      j ← get Job "jobs" id;
      if negb (matches j) then Ret out else
      if negb recovery && ((Job_DestructivePlanID j ≠s "")
           || (Job_SignedAuthBound j || Job_RequiresSignedAuth j) && negb (executableSecuredJob j)) then Ret out else
      let j := j <| Job_State := "queued" |> <| Job_Phase := "validation" |> <| Job_Error := "" |> <| Job_UpdatedAt := now |>
                 <| Job_NextAttemptAt := None |> in
      let j := if recovery then
          j <| Job_State := "waiting_validation" |> <| Job_Phase := "waiting_validation" |>
            <| Job_Error := "node restarted before the operation completed; explicit validation is required" |>
            <| Job_ETASeconds := None |> <| Job_ETAConfidence := "" |>
        else j in
      _ ← put_job id j;
      Ret (out ++ [j])) [] ids) Ok.

Definition RecoverRunningJobs now : op (list Job) :=
  changeJobs now ["running"; "pause_requested"; "cancel_requested"; "queued"; "waiting_peer"; "waiting_mount"] (λ _, true) true.
Definition WakeWaitingPeerJobs (id : string) now : op (list Job) :=
  changeJobs now ["waiting_peer"] (λ j, Job_PeerNodeID j =s id) false.
Definition WakeWaitingMountJobs (id : string) now : op (list Job) :=
  changeJobs now ["waiting_mount"] (λ j, Job_MountID j =s id) false.

(** * Items and events *)

Definition ReplaceJobItems (id : string) (items : list JobItem) : op () :=
  Update (job ← get Job "jobs" id;
          _ ← refuse_if (negb (jobItemsWritable job)) ErrInUse;
          old ← StateProg.keys "items" id;
          _ ← forM (λ _ key, remove "items" key) () old;
          put_items id items) Ok.

Definition UpdateJobItem (item : JobItem) : op () :=
  Update (job ← get Job "jobs" (JobItem_JobID item);
          _ ← refuse_if (negb (jobItemsWritable job)) ErrInUse;
          let k := itemKey item in
          _ ← (present ← exists_ "items" k; refuse_if (negb present) ErrNotFound);
          put "items" k (JobItem_JobID item) (pad_dec 12 (JobItem_Ordinal item)) "" item) Ok.

Definition RecordJobEvent (event : JobEvent) : op JobEvent :=
  Update (_ ← (present ← exists_ "jobs" (JobEvent_JobID event); refuse_if (negb present) ErrNotFound);
          put_event event) Ok.

(** * Reads *)

Definition GetJob (id : string) : op Job := View (get Job "jobs" id) Ok.

Definition ListJobs (limit : Z) : op (list Job) :=
  View (ids ← StateProg.keys "jobs" "";
        get_all Job "jobs" (if limit <? 0 then rev ids else take (Z.to_nat limit) (rev ids))) Ok.
Definition ListJobsByPeer (peer : string) : op (list Job) :=
  View (ids ← StateProg.keys "jobs" peer; get_all Job "jobs" (rev ids)) Ok.
Definition ListJobItems (id : string) : op (list JobItem) :=
  View (ids ← StateProg.keys "items" id; get_all JobItem "items" ids) Ok.

(** [ids[start:]] for the position [sort.Search] finds. *)
Definition search_from (p : string → bool) (ids : list string) : list string :=
  drop (Search (length ids) (λ i, from_option p false (ids !! i))) ids.

(** [fmt.Sscanf] with the verb [%d]. *)
Definition scan_int (s : string) : option Z :=
  match s with
  | String "-" r => if r =s "" then None else Z.opp <$> digits_val 0 r
  | _ => if s =s "" then None else digits_val 0 s
  end.

Definition ListJobEvents (after : Z) (id : string) (limit : Z) : op (list JobEvent) :=
  let limit := if (limit <=? 0) || (500 <? limit) then 100 else limit in
  View (ids ← StateProg.keys "events" id;
        let afterKey := pad_dec 20 after in
        get_all JobEvent "events" (take (Z.to_nat limit) (search_from (λ key, negb (bool_decide (String.le key afterKey))) ids))) Ok.

Definition ListJobItemsPage (id : string) (after limit : Z) : op (list JobItem * Z) :=
  let limit := if (limit <=? 0) || (500 <? limit) then 200 else limit in
  View (_ ← (present ← exists_ "jobs" id; refuse_if (negb present) ErrNotFound);
        ids ← StateProg.keys "items" id;
        Index "items" (λ m,
          let ord k := from_option Order "" (m !! k) in
          let ids := search_from (λ k, bool_decide (String.le (pad_dec 12 (Z.max after 0)) (ord k))) ids in
          items ← get_all JobItem "items" (take (Z.to_nat limit) ids);
          match drop (Z.to_nat limit) ids with
          | [] => Ret (items, 0)
          | k :: _ => match scan_int (ord k) with Some n => Ret (items, n) | None => Throw (errors_New "expected integer") end
          end)) Ok.

Definition JobSummary : op (gmap string Z) :=
  View (Index "jobs" (λ m, Ret (map_fold (λ _ i counts, <[State i := default 0 (counts !! State i) + 1]> counts) ∅ m))) Ok.

End Jobs.
