(* ===== verification/StatePlans.v ===== *)
(** destructive_plans.go of the node's state: the one-use confirmations of
    destructive operations. *)
From S2P Require Import Prelude GoLib Entities GoTime FileTypes SignedAuth StateProg StateRecords.
From stdpp Require Import options.
Local Open Scope Z_scope.

Section Plans.
Context {U : Unicode} {C : Crypto}.
Context {YJob : Yaml Job} {YIdem : Yaml idempotencyRecord} {YPlan : Yaml DestructivePlan}.
Implicit Types (plan : DestructivePlan) (now : time).

(** What every new plan must have. *)
Definition plan_refused plan now : bool :=
  negb (signedauth.ValidKeyID (DestructivePlan_ID plan)) || negb (signedauth.ValidKeyID (DestructivePlan_SubjectID plan))
  || negb (signedauth.ValidKeyID (DestructivePlan_MountID plan))
  || (DestructivePlan_SubjectType plan ≠s "user") && (DestructivePlan_SubjectType plan ≠s "service_account")
  || negb (planDigest (DestructivePlan_TokenHash plan)) || negb (planDigest (DestructivePlan_TreeDigest plan)) || IsZero now
  || (DestructivePlan_ConsumedJobID plan ≠s "") || (DestructivePlan_IdempotencyKey plan ≠s "")
  || (DestructivePlan_RequestHash plan ≠s "").

(** Records a plan for five minutes. *)
Definition put_new_plan plan now : op () :=
  let plan := plan <| DestructivePlan_CreatedAt := now |> <| DestructivePlan_ExpiresAt := now + 5 * minute |> in
  Update (_ ← (present ← exists_ "destructive_plans" (DestructivePlan_ID plan); refuse_if present ErrInUse);
          _ ← ensureSecurityVersion 4;
          put "destructive_plans" (DestructivePlan_ID plan) (DestructivePlan_SubjectID plan)
            (order (DestructivePlan_CreatedAt plan)) "" plan) Ok.

Definition CreateDestructivePlan plan now : op () :=
  guarded (plan_refused plan now || negb (planPath (DestructivePlan_Source plan))) (errors_New "invalid destructive plan")
    (let source := DestructivePlan_Source plan in let destination := DestructivePlan_Destination plan in
     if DestructivePlan_Operation plan =s "delete" then
       guarded ((destination ≠s "") || DestructivePlan_Overwrite plan || DestructivePlan_DestinationExists plan
                || (DestructivePlan_DestinationDigest plan ≠s "")) (errors_New "invalid delete plan") (put_new_plan plan now)
     else if DestructivePlan_Operation plan =s "move" then
       guarded (negb (planPath destination) || (destination =s source) || HasPrefix destination (source +++ "/")
                || DestructivePlan_DestinationExists plan
                   && (negb (DestructivePlan_Overwrite plan) || negb (planDigest (DestructivePlan_DestinationDigest plan)))
                || negb (DestructivePlan_DestinationExists plan) && (DestructivePlan_DestinationDigest plan ≠s ""))
         (errors_New "invalid move plan") (put_new_plan plan now)
     else Reply (Err (errors_New "invalid destructive operation"))).

Definition CreateTransferMovePlan plan now : op () :=
  guarded (plan_refused plan now || (DestructivePlan_Operation plan ≠s "transfer_move") || (DestructivePlan_Source plan ≠s "")
           || (DestructivePlan_Destination plan ≠s "") || DestructivePlan_Overwrite plan || DestructivePlan_DestinationExists plan
           || (DestructivePlan_DestinationDigest plan ≠s "")) (errors_New "invalid transfer move plan")
    (put_new_plan plan now).

Definition GetDestructivePlan (id subjectType subjectID tokenHash : string) now : op DestructivePlan :=
  guarded (negb (signedauth.ValidKeyID id) || negb (signedauth.ValidKeyID subjectID) || negb (planDigest tokenHash) || IsZero now) ErrInUse
    (View (current ← get DestructivePlan "destructive_plans" id;
           _ ← refuse_if ((DestructivePlan_SubjectType current ≠s subjectType) || (DestructivePlan_SubjectID current ≠s subjectID)
                 || (DestructivePlan_TokenHash current ≠s tokenHash)
                 || (DestructivePlan_ConsumedJobID current =s "")
                    && (negb (Before now (DestructivePlan_ExpiresAt current)) || Before now (DestructivePlan_CreatedAt current))) ErrInUse;
           Ret current) Ok).

(** The loop of [PurgeExpiredDestructivePlans]; [ctx] is asked at every plan. *)
Fixpoint purge_plans (ctx : Context) (ids : list string) (removed : Z) now : prog Z :=
  match ids with
  | [] => Ret removed
  | id :: ids =>
    match ctx with
    | Some e => Throw e
    | None =>
      if removed =? 1000 then Ret removed else
      plan ← get DestructivePlan "destructive_plans" id;
      if (DestructivePlan_ConsumedJobID plan =s "") && negb (Before now (DestructivePlan_ExpiresAt plan)) then
        _ ← remove "destructive_plans" id;
        purge_plans ctx ids (removed + 1) now
      else purge_plans ctx ids removed now
    end
  end.
Definition PurgeExpiredDestructivePlans (ctx : Context) now : op Z :=
  guarded (IsZero now) ErrInUse
    (Update (ids ← StateProg.keys "destructive_plans" ""; purge_plans ctx ids 0 now) Ok).

Definition AcceptDestructivePlan (id subjectType subjectID tokenHash treeDigest : string) (destinationExists : bool)
    (destinationDigest : string) (job : Job) (idempotencyKey requestHash : string) now : op (Job * bool) :=
  guarded (negb (signedauth.ValidKeyID id) || negb (signedauth.ValidKeyID subjectID) || negb (planDigest tokenHash)
           || negb (planDigest treeDigest) || (idempotencyKey =s "") || (256 <? len idempotencyKey) || negb (planDigest requestHash)
           || IsZero now) ErrInUse
    (Update (
      plan ← get DestructivePlan "destructive_plans" id;
      _ ← refuse_if ((DestructivePlan_SubjectType plan ≠s subjectType) || (DestructivePlan_SubjectID plan ≠s subjectID)
            || (DestructivePlan_TokenHash plan ≠s tokenHash) || (Job_MountID job ≠s DestructivePlan_MountID plan)
            || (Job_SourcePath job ≠s DestructivePlan_Source plan) || (Job_Destination job ≠s DestructivePlan_Destination plan)
            || (Job_Overwrite job ≠s DestructivePlan_Overwrite plan)
            || (DestructivePlan_Operation plan =s "delete") && ((Job_Type job ≠s "delete") || negb (Job_Recursive job))
            || (DestructivePlan_Operation plan =s "move") && (Job_Type job ≠s "move_local")) ErrInUse;
      if DestructivePlan_ConsumedJobID plan ≠s "" then
        _ ← refuse_if ((DestructivePlan_IdempotencyKey plan ≠s idempotencyKey) || (DestructivePlan_RequestHash plan ≠s requestHash)) ErrInUse;
        accepted ← get Job "jobs" (DestructivePlan_ConsumedJobID plan);
        Ret (accepted, true)
      else
      _ ← refuse_if (negb (Before now (DestructivePlan_ExpiresAt plan)) || Before now (DestructivePlan_CreatedAt plan)
            || (DestructivePlan_TreeDigest plan ≠s treeDigest) || (DestructivePlan_DestinationExists plan ≠s destinationExists)
            || (DestructivePlan_DestinationDigest plan ≠s destinationDigest) || negb (signedauth.ValidKeyID (Job_ID job))
            || (Job_State job ≠s "queued") || (Job_DestructivePlanID job ≠s "") || Job_SignedAuthBound job || Job_RequiresSignedAuth job
            || (Job_SignedAuthActorID job ≠s "") || (Job_SignedAuthCredentialID job ≠s "")) ErrInUse;
      _ ← (present ← exists_ "jobs" (Job_ID job); refuse_if present ErrInUse);
      let key := destructiveIdempotencyKey subjectType subjectID idempotencyKey in
      previous ← try_get idempotencyRecord "destructive_idempotency" key;
      _ ← match previous with
          | Ok _ => Throw ErrIdempotencyConflict
          | Err e => refuse_if (bool_decide (e ≠ ErrNotFound)) e
          end;
      let plan := plan <| DestructivePlan_ConsumedJobID := Job_ID job |> <| DestructivePlan_IdempotencyKey := idempotencyKey |>
                       <| DestructivePlan_RequestHash := requestHash |> in
      let job := job <| Job_DestructivePlanID := DestructivePlan_ID plan |>
                     <| Job_State := "waiting_validation" |> <| Job_Phase := "waiting_authorization" |>
                     <| Job_Error := "destructive plan execution requires authorization" |> in
      _ ← put "destructive_plans" (DestructivePlan_ID plan) (DestructivePlan_SubjectID plan)
            (order (DestructivePlan_CreatedAt plan)) "" plan;
      _ ← put_job (Job_ID job) job;
      _ ← put "destructive_idempotency" key "" "" "" {| JobID := Job_ID job; RequestHash := requestHash |};
      Ret (job, false)) Ok).
End Plans.
