(* ===== verification/StateUploads.v ===== *)
(** uploads.go, trash.go, tokens.go and managed_trust.go of the node's state. *)
From S2P Require Import Prelude GoLib Entities GoTime FileTypes SignedAuth StateProg StateRecords.
From stdpp Require Import options.
Local Open Scope Z_scope.

Section Uploads.
Context {U : Unicode} {C : Crypto} {YUpload : Yaml UploadSession}.
Implicit Types (v : UploadSession) (now : time).

Definition put_upload (id : string) v : prog () :=
  put "uploads" id (UploadSession_MountID v) (order (UploadSession_CreatedAt v)) "" v.

Definition CreateUploadSession v : op () :=
  guarded (UploadSession_AuthorizationRevision v ≠s 0) (errors_New "invalid initial upload authorization revision")
    (guarded (((UploadSession_AuthorizationActorID v ≠s "") || (UploadSession_AuthorizationCredentialID v ≠s ""))
              && (negb (signedauth.ValidKeyID (UploadSession_AuthorizationActorID v))
                  || negb (signedauth.ValidKeyID (UploadSession_AuthorizationCredentialID v))))
       (errors_New "invalid upload authorization identity")
       (Update (
          _ ← (present ← exists_ "uploads" (UploadSession_ID v); refuse_if present ErrUploadSessionExists);
          ids ← StateProg.keys "uploads" (UploadSession_MountID v);
          _ ← forM (λ _ key,
                other ← get UploadSession "uploads" key;
                refuse_if ((UploadSession_Destination other =s UploadSession_Destination v)
                           && (UploadSession_State other ≠s "completed")) ErrUploadSessionExists) () ids;
          _ ← (if UploadSession_AuthorizationActorID v ≠s "" then ensureSecurityVersion 2 else Ret ());
          put_upload (UploadSession_ID v) v) Ok)).

Definition ReauthorizeUploadSession (id actorID credentialID expectedRequestID : string) : op () :=
  guarded (negb (signedauth.ValidKeyID actorID) || negb (signedauth.ValidKeyID credentialID))
    (errors_New "invalid upload authorization identity")
    (Update (
       session ← get UploadSession "uploads" id;
       _ ← refuse_if (xorb (UploadSession_AuthorizationActorID session =s "") (UploadSession_AuthorizationCredentialID session =s "")
             || (UploadSession_AuthorizationActorID session ≠s "") && (UploadSession_AuthorizationActorID session ≠s actorID)
             || (UploadSession_AuthorizationRevision session =? MaxUint64)
             || (signedauth.UploadReauthorizationRequestID id (UploadSession_AuthorizationCredentialID session)
                   (UploadSession_AuthorizationRevision session) ≠s expectedRequestID)) ErrInUse;
       _ ← ensureSecurityVersion 3;
       let session := session <| UploadSession_AuthorizationActorID := actorID |> <| UploadSession_AuthorizationCredentialID := credentialID |>
                              <| UploadSession_AuthorizationRevision := UploadSession_AuthorizationRevision session + 1 |> in
       put_upload id session) Ok).

Definition GetUploadSession (id : string) : op UploadSession := View (get UploadSession "uploads" id) Ok.

Definition ListUploadSessions (mount : string) : op (list UploadSession) :=
  View (ids ← StateProg.keys "uploads" mount;
        all ← get_all UploadSession "uploads" (rev ids);
        Ret (filter (λ v, UploadSession_State v ≠ "completed") all)) Ok.

Definition TouchUploadSession (id : string) now (expires : time) : op () :=
  Update (v ← get UploadSession "uploads" id;
          put_upload id (v <| UploadSession_UpdatedAt := now |> <| UploadSession_ExpiresAt := expires |>)) Ok.

Definition DeleteUploadSession (id : string) : op () := Update (remove "uploads" id) Ok.

Definition ExpiredUploadSessions (before : time) : op (list UploadSession) :=
  View (ids ← StateProg.keys "uploads" "";
        all ← get_all UploadSession "uploads" ids;
        Ret (filter (λ v, Before (UploadSession_ExpiresAt v) before = true) all)) Ok.

Definition UpdateUploadSession v : op () :=
  Update (old ← get UploadSession "uploads" (UploadSession_ID v);
          _ ← refuse_if ((UploadSession_MountID old ≠s UploadSession_MountID v) || (UploadSession_Destination old ≠s UploadSession_Destination v)
                || (UploadSession_Size old ≠s UploadSession_Size v) || (UploadSession_Overwrite old ≠s UploadSession_Overwrite v)
                || (UploadSession_AuthorizationActorID old ≠s UploadSession_AuthorizationActorID v)
                || (UploadSession_AuthorizationCredentialID old ≠s UploadSession_AuthorizationCredentialID v)
                || (UploadSession_AuthorizationRevision old ≠s UploadSession_AuthorizationRevision v)) ErrInUse;
          put_upload (UploadSession_ID v) v) Ok.
End Uploads.

Section Trash.
Context {U : Unicode} {YTrash : Yaml TrashItem}.
Implicit Types (item : TrashItem).

Definition validTrashItem item : bool :=
  signedauth.ValidKeyID (TrashItem_ID item) && signedauth.ValidKeyID (TrashItem_MountID item) && planPath (TrashItem_Path item)
  && ValidString (TrashItem_Path item) && ((TrashItem_Type item =s "file") || (TrashItem_Type item =s "directory"))
  && (0 <=? TrashItem_Size item) && negb (IsZero (TrashItem_DeletedAt item)) && After (TrashItem_ExpiresAt item) (TrashItem_DeletedAt item)
  && ((TrashItem_State item =s "moving") || (TrashItem_State item =s "stored") || (TrashItem_State item =s "purging"))
  && (TrashItem_Path item ≠s ".jolt-trash") && negb (HasPrefix (TrashItem_Path item) ".jolt-trash/").

Definition PutTrashItem item : op () :=
  guarded (negb (validTrashItem item)) (errors_New "invalid trash item")
    (Update (_ ← ensureSecurityVersion 7;
             put "trash" (TrashItem_ID item) (TrashItem_MountID item) (order (TrashItem_DeletedAt item)) "" item) Ok).

Definition GetTrashItem (id : string) : op TrashItem :=
  guarded (negb (signedauth.ValidKeyID id)) ErrNotFound (View (get TrashItem "trash" id) Ok).

(** [sort.SliceStable], newest first. *)
Fixpoint insert_newest item (l : list TrashItem) : list TrashItem :=
  match l with
  | [] => [item]
  | y :: l' => if After (TrashItem_DeletedAt y) (TrashItem_DeletedAt item) then y :: insert_newest item l' else item :: l
  end.
Definition newest_first (l : list TrashItem) : list TrashItem := foldr insert_newest [] l.

Definition ListTrashItems (mountID : string) : op (list TrashItem) :=
  View (ids ← StateProg.keys "trash" mountID; get_all TrashItem "trash" ids) (λ items, Ok (newest_first items)).
Definition AllTrashItems : op (list TrashItem) :=
  View (ids ← StateProg.keys "trash" ""; get_all TrashItem "trash" ids) Ok.

Definition DeleteTrashItem (id : string) : op () :=
  guarded (negb (signedauth.ValidKeyID id)) ErrNotFound
    (Update (_ ← (present ← exists_ "trash" id; refuse_if (negb present) ErrNotFound); remove "trash" id) Ok).
End Trash.

Section Tokens.
Context {YToken : Yaml OperationalTokenState}.
Implicit Types (v : OperationalTokenState) (now : time).

Definition put_token v : prog () := put "tokens" "operational" "" "" "" v.

Definition GetOperationalTokenState : op OperationalTokenState := View (get OperationalTokenState "tokens" "operational") Ok.

Definition StageOperationalToken (hash correlation : string) now : op () :=
  Update (r ← try_get OperationalTokenState "tokens" "operational";
          v ← match r with
              | Ok v => Ret v
              | Err e => if bool_decide (e ≠ ErrNotFound) then Throw e else Ret OperationalTokenState_zero
              end;
          _ ← refuse_if ((OperationalTokenState_StagedHash v ≠s "") && (OperationalTokenState_StagedHash v ≠s hash)) ErrInUse;
          if OperationalTokenState_StagedHash v =s hash then Ret ()
          else put_token (v <| OperationalTokenState_StagedHash := hash |> <| OperationalTokenState_UpdatedAt := now |>
                            <| OperationalTokenState_CorrelationID := correlation |>)) Ok.

Definition CommitOperationalToken (hash correlation : string) now : op () :=
  Update (v ← get OperationalTokenState "tokens" "operational";
          if (hash ≠s "") && (OperationalTokenState_ActiveHash v =s hash) && (OperationalTokenState_StagedHash v =s "") then Ret () else
          _ ← refuse_if ((hash =s "") || (OperationalTokenState_StagedHash v ≠s hash)) ErrNotFound;
          put_token (v <| OperationalTokenState_ActiveHash := hash |> <| OperationalTokenState_StagedHash := "" |>
                       <| OperationalTokenState_EnvTokenDisabled := true |> <| OperationalTokenState_UpdatedAt := now |>
                       <| OperationalTokenState_CorrelationID := correlation |>)) Ok.

Definition RecoverOperationalToken (hash correlation : string) now : op () :=
  guarded ((hash =s "") || (correlation =s "")) (errors_New "token hash and correlation ID are required")
    (Update (put_token (OperationalTokenState_zero <| OperationalTokenState_ActiveHash := hash |>
                          <| OperationalTokenState_EnvTokenDisabled := true |> <| OperationalTokenState_UpdatedAt := now |>
                          <| OperationalTokenState_CorrelationID := correlation |>)) Ok).
End Tokens.

Section Trust.
Context {YTrust : Yaml ManagedTrust}.

Definition GetManagedTrust : op ManagedTrust := View (get ManagedTrust "managed_trust" "current") Ok.
Definition PutManagedTrust (value : ManagedTrust) : op () :=
  guarded ((ManagedTrust_RootPin value =s "") || (ManagedTrust_Bundle value =s ""))
    (errors_New "managed trust needs a pinned root and a bundle")
    (Update (_ ← ensureSecurityVersion 8; put "managed_trust" "current" "" "" "" value) Ok).
End Trust.
