(* ===== verification/StatePeers.v ===== *)
(** peers.go and configuration.go of the node's state: pairing, the trust in
    peers, mounts, grants and the configuration that declares them. *)
From S2P Require Import Prelude GoLib Entities GoTime StateProg StateRecords.
From stdpp Require Import options.
Local Open Scope Z_scope.

Record inviteRecord := mkinvite { Invite : PairingInvite; invite_SecretHash : string }.
#[global] Instance invite_eta : Eta inviteRecord := λ r, mkinvite (Invite r) (invite_SecretHash r).
Record requestRecord := mkrequest { Request : PairingRequest; request_SecretHash : string }.
#[global] Instance request_eta : Eta requestRecord := λ r, mkrequest (Request r) (request_SecretHash r).
Record configurationRecord := mkconfiguration { conf_Revision : string; AppliedAt : time; Settings : string }.
Definition configurationRecord_zero : configurationRecord := mkconfiguration "" zero_time "".

(** The snapshots the audit keeps. *)
Inductive snapshot :=
| SnapPeer (peer : Peer)
| SnapGrant (grant : TransferPathGrant)
| SnapConfiguration (previous_revision configuration_before configuration_after : string)
    (mounts_before mounts_after : list Mount) (grants_before grants_after : list TransferPathGrant).
Record auditRecord := mkaudit { Action : string; ResourceID : string; At : time; Snapshot : snapshot }.

Section Peers.
Context {YInvite : Yaml inviteRecord} {YRequest : Yaml requestRecord} {YPeer : Yaml Peer} {YGrant : Yaml TransferPathGrant}.
Context {YMount : Yaml Mount} {YConf : Yaml configurationRecord} {YAudit : Yaml auditRecord} {YString : Yaml string} {YBool : Yaml bool}.
Implicit Types (now clock : time) (peer : Peer) (g : TransferPathGrant).

(** [tx.audit]; [clock] is the time it reads. *)
Definition audit (action id : string) (value : snapshot) clock : prog () :=
  n ← sequence;
  Pending (λ pending,
    let key := pad_dec 20 (u64 (n + 1)) +++ "-" +++ pad_dec 6 pending in
    put "audit" key id key "" (mkaudit action id clock value)).

(** * Pairing *)

Definition put_invite (id : string) (r : inviteRecord) : prog () :=
  put "invites" id "" (order (PairingInvite_CreatedAt (Invite r))) "" r.
Definition put_request (id : string) (r : requestRecord) : prog () :=
  put "requests" id (PairingRequest_InviteID (Request r)) (order (PairingRequest_CreatedAt (Request r))) "" r.

Definition CreatePairingInvite (v : PairingInvite) (hash : string) : op () :=
  Update (_ ← (present ← exists_ "invites" (PairingInvite_ID v); refuse_if present (errors_New "invite already exists"));
          put_invite (PairingInvite_ID v) (mkinvite v hash)) Ok.
Definition GetPairingInvite (id : string) : op PairingInvite := View (get inviteRecord "invites" id) (λ r, Ok (Invite r)).
Definition ListPairingInvites : op (list PairingInvite) :=
  View (ids ← StateProg.keys "invites" ""; get_all inviteRecord "invites" (rev ids)) (λ l, Ok (Invite <$> l)).
Definition RevokePairingInvite (id : string) now : op () :=
  Update (v ← get inviteRecord "invites" id;
          put_invite id (v <| Invite := (Invite v) <| PairingInvite_Status := "revoked" |> <| PairingInvite_RevokedAt := Some now |> |>)) Ok.

Definition CreatePairingRequest (v : PairingRequest) (hash : string) : op () :=
  Update (_ ← (present ← exists_ "requests" (PairingRequest_ID v); refuse_if present (errors_New "request already exists"));
          ids ← StateProg.keys "requests" (PairingRequest_InviteID v);
          _ ← refuse_if (existsb (λ id, id ≠s "") ids) (errors_New "invite already requested");
          put_request (PairingRequest_ID v) (mkrequest v hash)) Ok.
Definition GetPairingRequest (id : string) : op PairingRequest := View (get requestRecord "requests" id) (λ r, Ok (Request r)).
Definition ListPairingRequests : op (list PairingRequest) :=
  View (ids ← StateProg.keys "requests" ""; get_all requestRecord "requests" (rev ids)) (λ l, Ok (Request <$> l)).

Definition put_peer (id : string) peer : prog () := put "peers" id "" (Peer_Name peer) "" peer.

(** [tx.trust]. *)
Definition trust peer : prog () :=
  let peer := peer <| Peer_IdentityEpoch := Z.max (Peer_IdentityEpoch peer) 1 |> <| Peer_PreviousFingerprint := "" |>
                   <| Peer_ConsecutiveFailures := 0 |> <| Peer_LastSeenAt := None |> in
  put_peer (Peer_NodeID peer) peer.

Definition ApprovePairingInvite (id hash : string) peer now : op () :=
  Update (r ← get inviteRecord "invites" id;
          let v := Invite r in
          _ ← refuse_if ((PairingInvite_Status v ≠s "pending") || (invite_SecretHash r ≠s hash) || After now (PairingInvite_ExpiresAt v)
                || (PairingInvite_TargetNodeID v ≠s "") && (PairingInvite_TargetNodeID v ≠s Peer_NodeID peer))
                (errors_New "invite cannot be approved");
          _ ← trust peer;
          put_invite id (r <| Invite := v <| PairingInvite_Status := "consumed" |> |>)) Ok.

Definition ResolvePairingRequest (id status : string) (peer : option Peer) now : op () :=
  Update (r ← get requestRecord "requests" id;
          _ ← refuse_if ((PairingRequest_Status (Request r) ≠s "pending_review") || After now (PairingRequest_ExpiresAt (Request r)))
                (errors_New "pairing request cannot be resolved");
          _ ← match peer with Some peer => trust peer | None => Ret () end;
          put_request id (r <| Request := (Request r) <| PairingRequest_Status := status |> |>)) Ok.

(** * Peers *)

Definition GetPeer (id : string) : op Peer := View (get Peer "peers" id) Ok.
Definition ListPeers : op (list Peer) := View (ids ← StateProg.keys "peers" ""; get_all Peer "peers" ids) Ok.

Definition changePeer (id : string) (fn : Peer → result Peer) : op () :=
  Update (v ← get Peer "peers" id; v ← lift (fn v); put_peer id v) Ok.

Definition UpdatePeerHealth (id state : string) (seen : option time) (failures : Z) : op () :=
  changePeer id (λ v,
    if Peer_State v =s "revoked" then Err ErrNotFound
    else Ok (v <| Peer_State := state |> <| Peer_LastSeenAt := seen |> <| Peer_ConsecutiveFailures := failures |>)).
Definition unseen peer : Peer := peer <| Peer_State := "unknown" |> <| Peer_LastSeenAt := None |> <| Peer_ConsecutiveFailures := 0 |>.
Definition UpdatePeerEndpoints (id endpoint mtls correlation : string) : op () :=
  changePeer id (λ v,
    if Peer_State v =s "revoked" then Err ErrNotFound
    else Ok (unseen (v <| Peer_Endpoint := endpoint |> <| Peer_MTLSEndpoint := mtls |> <| Peer_CorrelationID := correlation |>))).
Definition RecoverPeerIdentity (id fingerprint correlation : string) : op () :=
  changePeer id (λ v,
    if Peer_State v ≠s "identity_changed" then Err ErrNotFound
    else Ok (unseen (v <| Peer_Fingerprint := fingerprint |> <| Peer_PreviousFingerprint := "" |> <| Peer_CorrelationID := correlation |>
                       <| Peer_IdentityEpoch := i64 (Peer_IdentityEpoch v + 1) |>))).
Definition ApplyPeerIdentityHandover (id : string) (previousEpoch : Z) (previousFingerprint : string) (nextEpoch : Z)
    (nextFingerprint correlation : string) : op () :=
  changePeer id (λ v,
    if (Peer_State v =s "revoked") || (Peer_IdentityEpoch v ≠s previousEpoch) || (Peer_Fingerprint v ≠s previousFingerprint)
    then Err ErrNotFound
    else Ok (unseen (v <| Peer_PreviousFingerprint := Peer_Fingerprint v |> <| Peer_Fingerprint := nextFingerprint |>
                       <| Peer_IdentityEpoch := nextEpoch |> <| Peer_CorrelationID := correlation |>))).
Definition ConfirmPeerIdentityHandover (id : string) (epoch : Z) (fingerprint : string) : op () :=
  changePeer id (λ v,
    if (Peer_State v =s "revoked") || (Peer_IdentityEpoch v ≠s epoch) || (Peer_Fingerprint v ≠s fingerprint)
       || (Peer_PreviousFingerprint v =s "") then Err ErrNotFound
    else Ok (v <| Peer_PreviousFingerprint := "" |>)).

Definition put_grant (id : string) g : prog () :=
  put "grants" id (TransferPathGrant_PeerNodeID g) (order (TransferPathGrant_CreatedAt g)) "" g.
Definition put_revoked (key peerID : string) : prog () := put "revoked_grants" key peerID "" "" true.

Definition RevokePeer (id correlation : string) now clock : op () :=
  Update (peer ← get Peer "peers" id;
          let peer := peer <| Peer_State := "revoked" |> <| Peer_ConsecutiveFailures := 0 |> <| Peer_CorrelationID := correlation |> in
          _ ← put_peer id peer;
          _ ← audit "peer_revoked" id (SnapPeer peer) clock;
          bindings ← StateProg.keys "grant_bindings" "";
          _ ← forM (λ _ key,
                binding ← get string "grant_bindings" key;
                if HasPrefix binding (id +++ String NUL "") then put_revoked key id else Ret ()) () bindings;
          grants ← StateProg.keys "grants" id;
          forM (λ _ key,
            grant ← get TransferPathGrant "grants" key;
            _ ← put_revoked key id;
            let grant := grant <| TransferPathGrant_Enabled := false |> <| TransferPathGrant_UpdatedAt := now |>
                               <| TransferPathGrant_CorrelationID := correlation |> in
            m ← managed;
            _ ← (if negb m then put "grants" key id (order (TransferPathGrant_CreatedAt grant)) "" grant else Ret ());
            audit "peer_revoked" key (SnapGrant grant) clock) () grants) Ok.

(** * configuration.go *)

Definition grant_binding g : string :=
  TransferPathGrant_PeerNodeID g +++ String NUL (TransferPathGrant_MountID g +++ String NUL
    (TransferPathGrant_Path g +++ String NUL (TransferPathGrant_Direction g))).

Definition apply_mount now (m : Mount) : prog () :=
  binding ← try_get string "mount_bindings" (Mount_ID m);
  _ ← match binding with
      | Ok binding => refuse_if (binding ≠s Mount_LocalPath m) (errors_New ("mount " +++ Mount_ID m +++ " changed root: use a new ID"))
      | Err e => refuse_if (bool_decide (e ≠ ErrNotFound)) e
      end;
  existing ← try_get Mount "mounts" (Mount_ID m);
  let m := match existing with Ok existing => m <| Mount_CreatedAt := Mount_CreatedAt existing |> | Err _ => m end in
  let m := if IsZero (Mount_CreatedAt m) then m <| Mount_CreatedAt := now |> else m in
  let m := m <| Mount_UpdatedAt := now |> in
  _ ← put "mount_bindings" (Mount_ID m) "" "" "" (Mount_LocalPath m);
  put "mounts" (Mount_ID m) "" (Mount_Name m) "" m.

Definition apply_grant now g : prog () :=
  let binding := grant_binding g in
  previous ← try_get string "grant_bindings" (TransferPathGrant_ID g);
  _ ← match previous with
      | Ok previous => refuse_if (binding ≠s previous) (errors_New ("grant " +++ TransferPathGrant_ID g +++ " changed resource: use a new ID"))
      | Err e => refuse_if (bool_decide (e ≠ ErrNotFound)) e
      end;
  _ ← match previous with
      | Ok _ => Ret ()
      | Err _ =>
        peer ← try_get Peer "peers" (TransferPathGrant_PeerNodeID g);
        match peer with
        | Ok peer => if Peer_State peer =s "revoked" then put_revoked (TransferPathGrant_ID g) (TransferPathGrant_PeerNodeID g) else Ret ()
        | Err e => refuse_if (bool_decide (e ≠ ErrNotFound)) e
        end
      end;
  existing ← try_get TransferPathGrant "grants" (TransferPathGrant_ID g);
  let g := match existing with Ok existing => g <| TransferPathGrant_CreatedAt := TransferPathGrant_CreatedAt existing |> | Err _ => g end in
  let g := if IsZero (TransferPathGrant_CreatedAt g) then g <| TransferPathGrant_CreatedAt := now |> else g in
  let g := g <| TransferPathGrant_UpdatedAt := now |> in
  _ ← put "grant_bindings" (TransferPathGrant_ID g) "" "" "" binding;
  put_grant (TransferPathGrant_ID g) g.

(** [clock] stands for the two readings of the clock, in the transaction and in
    its audit record. *)
Definition ApplyConfiguration (revision : string) (mounts : list Mount) (grants : list TransferPathGrant) (settings : list string)
    now clock : op () :=
  let publicSettings := default "" (head settings) in
  Configure (
    r ← try_get configurationRecord "configuration" "applied";
    old ← match r with
          | Ok old => Ret old
          | Err e => if bool_decide (e ≠ ErrNotFound) then Throw e else Ret configurationRecord_zero
          end;
    if conf_Revision old =s revision then Ret () else
    mount_ids ← StateProg.keys "mounts" "";
    _ ← forM (λ _ id, remove "mounts" id) () mount_ids;
    grant_ids ← StateProg.keys "grants" "";
    _ ← forM (λ _ id, remove "grants" id) () grant_ids;
    _ ← forM (λ _ m, apply_mount now m) () mounts;
    _ ← forM (λ _ g, apply_grant now g) () grants;
    beforeMounts ← get_all Mount "mounts" mount_ids;
    beforeGrants ← get_all TransferPathGrant "grants" grant_ids;
    _ ← audit "configuration_applied" revision
          (SnapConfiguration (conf_Revision old) (Settings old) publicSettings beforeMounts mounts beforeGrants grants) clock;
    put "configuration" "applied" "" "" "" (mkconfiguration revision now publicSettings)).

Definition GetMount (id : string) : op Mount := View (get Mount "mounts" id) Ok.
Definition ListMounts : op (list Mount) := View (ids ← StateProg.keys "mounts" ""; get_all Mount "mounts" ids) Ok.

Definition UpsertMount (v : Mount) : op () :=
  Update (m ← managed;
          _ ← refuse_if m ErrManagedConfiguration;
          ids ← StateProg.keys "mounts" "";
          _ ← forM (λ _ id,
                m ← get Mount "mounts" id;
                refuse_if ((id ≠s Mount_ID v) && (Mount_LocalPath m =s Mount_LocalPath v)) (errors_New "mount path already exists")) () ids;
          put "mounts" (Mount_ID v) "" (Mount_Name v) "" v) Ok.
Definition DeleteMount (id : string) : op () :=
  Update (m ← managed;
          _ ← refuse_if m ErrManagedConfiguration;
          _ ← (present ← exists_ "mounts" id; refuse_if (negb present) ErrNotFound);
          ids ← StateProg.keys "grants" "";
          _ ← forM (λ _ key,
                g ← get TransferPathGrant "grants" key;
                refuse_if (TransferPathGrant_MountID g =s id) ErrInUse) () ids;
          remove "mounts" id) Ok.

(** ** Grants *)

Record grantCheck := mkcheck { check_grant : TransferPathGrant; check_mount : Mount; checkPath : bool }.
Definition inactive g (reason : string) : grantCheck :=
  mkcheck (g <| TransferPathGrant_Enabled := false |> <| TransferPathGrant_InactiveReason := reason |>) Mount_zero false.

Definition prepareGrant g : prog grantCheck :=
  let g := g <| TransferPathGrant_ConfiguredEnabled := TransferPathGrant_Enabled g |> in
  if negb (TransferPathGrant_Enabled g) then Ret (mkcheck (g <| TransferPathGrant_InactiveReason := "disabled" |>) Mount_zero false) else
  blocked ← exists_ "revoked_grants" (TransferPathGrant_ID g);
  if (blocked : bool) then Ret (inactive g "revoked") else
  m ← managed;
  if negb m then Ret (mkcheck g Mount_zero false) else
  peer ← try_get Peer "peers" (TransferPathGrant_PeerNodeID g);
  match peer with
  | Err e => if bool_decide (e ≠ ErrNotFound) then Throw e else Ret (inactive g "peer_untrusted")
  | Ok peer =>
    if negb (TrustedPeerState (Peer_State peer)) then Ret (inactive g "peer_untrusted") else
    found ← try_get Mount "mounts" (TransferPathGrant_MountID g);
    match found with
    | Err e => if bool_decide (e ≠ ErrNotFound) then Throw e else Ret (inactive g "mount_unavailable")
    | Ok m =>
      if negb (Mount_Enabled m) then Ret (inactive g "mount_unavailable") else
      let p := TransferPathGrant_Permissions g in
      if (GrantPermissions_Write p || GrantPermissions_Delete p || GrantPermissions_Rename p || (TransferPathGrant_Direction g ≠s "send"))
         && (Mount_Mode m ≠s "read_write") then Ret (inactive g "mount_read_only") else
      if (Peer_TransferMode peer =s "one_sided")
         && ((Peer_LocalRole peer =s "sender") && (TransferPathGrant_Direction g ≠s "send")
             || (Peer_LocalRole peer =s "receiver") && (TransferPathGrant_Direction g ≠s "receive"))
      then Ret (inactive g "peer_role_incompatible") else
      Ret (mkcheck g m true)
    end
  end.

Definition saveGrant g (create : bool) clock : op () :=
  Update (m ← managed;
          _ ← refuse_if m ErrManagedConfiguration;
          present ← exists_ "grants" (TransferPathGrant_ID g);
          _ ← refuse_if (negb create && negb present) ErrNotFound;
          _ ← refuse_if (create && present) (errors_New "grant already exists");
          _ ← (has ← exists_ "mounts" (TransferPathGrant_MountID g); refuse_if (negb has) ErrNotFound);
          _ ← (has ← exists_ "peers" (TransferPathGrant_PeerNodeID g); refuse_if (negb has) ErrNotFound);
          ids ← StateProg.keys "grants" (TransferPathGrant_PeerNodeID g);
          _ ← forM (λ _ id,
                other ← get TransferPathGrant "grants" id;
                refuse_if ((id ≠s TransferPathGrant_ID g) && (TransferPathGrant_MountID other =s TransferPathGrant_MountID g)
                           && (TransferPathGrant_Path other =s TransferPathGrant_Path g)
                           && (TransferPathGrant_Direction other =s TransferPathGrant_Direction g)) (errors_New "grant already exists")) () ids;
          _ ← put_grant (TransferPathGrant_ID g) g;
          audit "grant_saved" (TransferPathGrant_ID g) (SnapGrant g) clock) Ok.
Definition CreateTransferGrant g clock : op () := saveGrant g true clock.
Definition UpdateTransferGrant g clock : op () := saveGrant g false clock.
Definition DeleteTransferGrant (id correlation : string) now clock : op () :=
  Update (m ← managed;
          _ ← refuse_if m ErrManagedConfiguration;
          g ← get TransferPathGrant "grants" id;
          let g := g <| TransferPathGrant_CorrelationID := correlation |> <| TransferPathGrant_UpdatedAt := now |> in
          _ ← remove "grants" id;
          audit "grant_deleted" id (SnapGrant g) clock) Ok.

(** Reading a grant ends with the checks on the file system, [effective], made
    outside the lock. *)
Definition GetTransferGrant (effective : grantCheck → TransferPathGrant) (id : string) : op TransferPathGrant :=
  View (g ← get TransferPathGrant "grants" id; prepareGrant g) (λ check, Ok (effective check)).
Definition ListTransferGrants (effective : grantCheck → TransferPathGrant) : op (list TransferPathGrant) :=
  View (ids ← StateProg.keys "grants" "";
        forM (λ checks id, g ← get TransferPathGrant "grants" id; check ← prepareGrant g; Ret (checks ++ [check])) [] (rev ids))
    (λ checks, Ok (effective <$> checks)).
End Peers.
