(* ===== verification/StateProgFacts.v ===== *)
(** What every transaction of the node's state guarantees, whatever program it
    runs: all or nothing, history that only grows, no effect once the store is
    unavailable; and the rules by which a program is run step by step. *)
From S2P Require Import Prelude GoLib Entities GoTime FileTypes SignedAuth StateProg StateRecords.
From stdpp Require Import options.
#[local] Set Default Proof Using "Type*".
Local Open Scope Z_scope.

(** * Running a program *)

Section Run.
Context {A B : Type}.
Implicit Types (o : oracle) (d : db) (tx : list record).

Lemma run_bind o (p : prog A) (f : A → prog B) d tx :
  run o (p ≫= f) d tx =
  match run o p d tx with
  | (d', tx', Ok a) => run o (f a) d' tx'
  | (d', tx', Err e) => (d', tx', Err e)
  end.
Proof.
  revert d tx. induction p as [| | | | | | | | | |n c IH]; intros d tx; simpl; auto.
  destruct (n <=? db_version d); [apply IH|]. destruct (ensure_ok o n); apply IH.
Qed.

(** A program does not touch what is committed: it can only raise the security
    version or make the store unavailable. *)
Definition same_data (d d' : db) : Prop :=
  recs d' = recs d ∧ db_sequence d' = db_sequence d ∧ db_managed d' = db_managed d ∧ db_readOnly d' = db_readOnly d ∧
  db_version d ≤ db_version d' ∧ (unavailable d = true → unavailable d' = true).

#[export] Instance same_data_pre : PreOrder same_data.
Proof. unfold same_data. split; [intros d; split_and!; done || lia|intros ???]. naive_solver (try congruence; try lia). Qed.

Lemma run_same_data o (p : prog A) d tx d' tx' r : run o p d tx = (d', tx', r) → same_data d d'.
Proof.
  revert d tx. induction p as [| | | | | | | | | |n c IH]; intros d tx; simpl; eauto.
  - intros [= <- _ _]. done.
  - intros [= <- _ _]. done.
  - intros H%IHp. etrans; [|exact H]. by split_and!.
  - destruct (n <=? db_version d) eqn:E; [apply IH|]. apply Z.leb_gt in E.
    destruct (ensure_ok o n); intros H%IH; (etrans; [|exact H]); split_and!; simpl; done || lia.
Qed.

(** Records are only ever appended to a transaction. *)
Lemma run_appends o (p : prog A) d tx d' tx' r : run o p d tx = (d', tx', r) → ∃ l, tx' = tx ++ l.
Proof.
  revert d tx. induction p as [| | | | | | | |r0 p IH| |n c IH]; intros d tx; simpl; eauto.
  - intros [= _ <- _]. exists []. by rewrite app_nil_r.
  - intros [= _ <- _]. exists []. by rewrite app_nil_r.
  - intros (l & ->)%IH. exists (r0 :: l). by rewrite <-app_assoc.
  - destruct (n <=? db_version d); [apply IH|]. destruct (ensure_ok o n); apply IH.
Qed.
End Run.

Lemma bucket_of_same d d' b : same_data d d' → bucket_of d' b = bucket_of d b.
Proof. intros [H _]. unfold bucket_of. by rewrite H. Qed.

(** * Committing *)

(** A transaction [update] accepts. *)
Record tx_ok (d : db) (tx : list record) : Prop := {
  tx_identity : ∀ r, r ∈ tx → record_Bucket r ≠ "" ∧ record_Key r ≠ "";
  tx_history : ∀ r, r ∈ tx → historyBucket (record_Bucket r) = true →
                 record_Delete r = false ∧ bucket_of d (record_Bucket r) !! record_Key r = None;
  tx_distinct : ∀ i j r r', tx !! i = Some r → tx !! j = Some r' → historyBucket (record_Bucket r) = true →
                  record_Bucket r' = record_Bucket r → record_Key r' = record_Key r → i = j;
}.

Lemma records_ok_spec d tx seen : records_ok d tx = Ok seen → tx_ok d tx.
Proof.
  unfold records_ok. intros H.
  enough (tx_ok d tx ∧
    (∀ r, r ∈ tx → historyBucket (record_Bucket r) = true → (record_Bucket r, record_Key r) ∈ seen)) by tauto.
  revert H. apply (foldM_inv (λ tx seen, tx_ok d tx ∧
    (∀ r, r ∈ tx → historyBucket (record_Bucket r) = true → (record_Bucket r, record_Key r) ∈ seen))).
  - split; [split|]; try (by intros ? ?%elem_of_nil). by intros ????.
  - intros pre x s1 s2 ([H1 H2 H3] & H4). unfold record_refused.
    destruct (_ || _) eqn:G1; [done|]. apply orb_false_iff in G1 as [Gb Gk]. bool_to_prop.
    destruct (historyBucket (record_Bucket x)) eqn:Hh.
    + destruct (_ || _) eqn:G2; [done|]. intros [= <-]. apply orb_false_iff in G2 as [[G2 G3]%orb_false_iff G4].
      bool_to_prop. apply eq_None_not_Some in G2. split; [split|].
      * intros r [?| ->%list_elem_of_singleton]%elem_of_app; auto.
      * intros r [?| ->%list_elem_of_singleton]%elem_of_app; auto.
      * intros i j r r' Hi Hj Hr Hb Hk.
        apply lookup_snoc_Some in Hi as [[? Hi]|[-> <-]], Hj as [[? Hj]|[-> <-]]; eauto.
        -- exfalso. apply G4. rewrite Hb, Hk. apply H4; [by eapply list_elem_of_lookup_2|done].
        -- exfalso. apply G4. rewrite <-Hb, <-Hk. apply H4; [by eapply list_elem_of_lookup_2|by rewrite Hb].
      * intros r [?| ->%list_elem_of_singleton]%elem_of_app ?; set_solver.
    + intros [= <-]. split; [split|].
      * intros r [?| ->%list_elem_of_singleton]%elem_of_app; auto.
      * intros r [?| ->%list_elem_of_singleton]%elem_of_app; auto. congruence.
      * intros i j r r' Hi Hj Hr Hb Hk.
        apply lookup_snoc_Some in Hi as [[? Hi]|[-> <-]], Hj as [[? Hj]|[-> <-]]; eauto; congruence.
      * intros r [?| ->%list_elem_of_singleton]%elem_of_app ?; [auto|congruence].
Qed.

(** The committed record of an identity. *)
Definition at_ (d : db) (b k : string) : option stored := bucket_of d b !! k.

(** What a transaction leaves at an identity: the last record it has for it. *)
Definition writes (b k : string) (r : record) : Prop := record_Bucket r = b ∧ record_Key r = k.
#[export] Instance writes_dec b k r : Decision (writes b k r).
Proof. unfold writes. apply _. Defined.
Definition written (r : record) : option stored :=
  if record_Delete r then None else Some (mkstored (record_info r) (record_Data r)).
Definition after_tx (tx : list record) (b k : string) (old : option stored) : option stored :=
  foldl (λ acc r, if decide (writes b k r) then written r else acc) old tx.

Lemma commit_record_at m r b k :
  (default ∅ (commit_record m r !! b) : gmap string stored) !! k =
  if decide (writes b k r) then written r else (default ∅ (m !! b) : gmap string stored) !! k.
Proof.
  unfold commit_record, written, writes. destruct (decide (record_Bucket r = b)) as [<-|Hb].
  - rewrite lookup_insert_eq. simpl. destruct (decide (record_Key r = k)) as [<-|Hk].
    + rewrite decide_True by done. destruct (record_Delete r); [apply lookup_delete_eq|apply lookup_insert_eq].
    + rewrite decide_False by naive_solver. destruct (record_Delete r); [by apply lookup_delete_ne|by apply lookup_insert_ne].
  - rewrite lookup_insert_ne by done. by rewrite decide_False by naive_solver.
Qed.

Lemma commit_records_at d tx b k : at_ (commit_records d tx) b k = after_tx tx b k (at_ d b k).
Proof.
  unfold at_, bucket_of, commit_records, after_tx. simpl. generalize (recs d). induction tx as [|r tx IH]; intros m; simpl; [done|].
  by rewrite IH, commit_record_at.
Qed.

Lemma after_tx_other tx b k old : (∀ r, r ∈ tx → ¬ writes b k r) → after_tx tx b k old = old.
Proof.
  unfold after_tx. revert old. induction tx as [|r tx IH]; intros old Hn; simpl; [done|].
  rewrite decide_False by (apply Hn; left). apply IH. intros r' Hr'. apply Hn. by right.
Qed.

(** Either nothing was written to an identity, or it holds what the last record
    for it says. *)
Lemma after_tx_cases tx b k old :
  after_tx tx b k old = old ∨ ∃ r, r ∈ tx ∧ writes b k r ∧ after_tx tx b k old = written r.
Proof.
  induction tx as [|r tx IH] using rev_ind; [by left|]. unfold after_tx. rewrite foldl_app. simpl.
  destruct (decide (writes b k r)) as [Hw|Hw].
  - right. exists r. split_and!; [|done..]. apply elem_of_app. right. by apply list_elem_of_singleton.
  - destruct IH as [?|(r' & ? & ? & ?)]; [by left|]. right. exists r'. split_and!; [|done..]. apply elem_of_app. by left.
Qed.

(** * Updates *)

Section Update.
Context {A : Type}.
Implicit Types (o : oracle) (ctx : Context) (p : prog A) (d : db).

(** The ways an update can end. *)
Inductive update_ends o p d : db → result A → Prop :=
| UpdateRefused d' e : same_data d d' → update_ends o p d d' (Err e)
| UpdateEmpty d' a : run o p d [] = (d', [], Ok a) → update_ends o p d d' (Ok a)
| UpdateCommitted d1 tx a : run o p d [] = (d1, tx, Ok a) → tx ≠ [] → tx_ok d tx → commit o = Committed →
    update_ends o p d (commit_records d1 tx) (Ok a)
| UpdateCommittedFailed d1 tx a : run o p d [] = (d1, tx, Ok a) → tx ≠ [] → tx_ok d tx → commit o = CommittedThenFailed →
    update_ends o p d ((commit_records d1 tx) <| unavailable := true |>) (Err ErrStateUnavailable).

Lemma tx_ok_same d d' tx : same_data d d' → tx_ok d' tx → tx_ok d tx.
Proof. intros Hs [H1 H2 H3]. split; [done| |done]. intros r Hr Hh.
  rewrite <-(bucket_of_same _ _ _ Hs). auto.
Qed.

Lemma db_update_ends o ctx p d d' r : db_update o ctx p d = (d', r) → update_ends o p d d' r.
Proof.
  unfold db_update. destruct (db_available ctx d) as [u|e]; [|intros [= <- <-]; by apply UpdateRefused].
  destruct (db_readOnly d); [intros [= <- <-]; by apply UpdateRefused|].
  destruct (run o p d []) as [[d1 tx] [a|e]] eqn:E; pose proof (run_same_data _ _ _ _ _ _ _ E) as Hs;
    [|intros [= <- <-]; by apply UpdateRefused].
  case_bool_decide as Htx; [intros [= <- <-]; apply UpdateEmpty; destruct tx; done|].
  destruct (records_ok d1 tx) as [seen|e] eqn:Ero; [|intros [= <- <-]; by apply UpdateRefused].
  apply records_ok_spec, (tx_ok_same _ _ _ Hs) in Ero. assert (tx ≠ []) by (by destruct tx).
  destruct (commit o) eqn:Ec; intros [= <- <-].
  - by eapply UpdateCommitted.
  - apply UpdateRefused. etrans; [exact Hs|]. by split_and!.
  - by eapply UpdateCommittedFailed.
Qed.

(** History only grows: no transaction, whatever its program, changes or
    removes a committed event or audit record. *)
Theorem history_append_only o ctx p d d' r b k s :
  db_update o ctx p d = (d', r) → historyBucket b = true → at_ d b k = Some s → at_ d' b k = Some s.
Proof.
  intros Hu Hb Hat.
  assert (∀ d1 tx a, run o p d [] = (d1, tx, Ok a) → tx_ok d tx → after_tx tx b k (at_ d1 b k) = Some s) as Hkeep.
  { intros d1 tx a Hrun Hok. rewrite after_tx_other.
    - unfold at_. rewrite (bucket_of_same d d1) by (by eapply run_same_data). done.
    - intros r0 Hr [<- <-]. destruct (tx_history _ _ Hok r0 Hr Hb) as [_ Hn]. unfold at_ in Hat. congruence. }
  apply db_update_ends in Hu as [d'' e Hs|d'' a Hrun|d1 tx a Hrun Hne Hok _|d1 tx a Hrun Hne Hok _].
  - unfold at_. by rewrite (bucket_of_same _ _ _ Hs).
  - unfold at_. by rewrite (bucket_of_same d d'') by (by eapply run_same_data).
  - rewrite commit_records_at. eauto.
  - change (at_ (commit_records d1 tx) b k = Some s). rewrite commit_records_at. eauto.
Qed.

(** An unavailable or read-only store commits nothing: updates fail and the
    records stay as they are. *)
Theorem unavailable_refuses o ctx p d d' r :
  unavailable d = true ∨ db_readOnly d = true → db_update o ctx p d = (d', r) → d' = d ∧ ∃ e, r = Err e.
Proof.
  intros Hd. unfold db_update, db_available. destruct ctx as [e|]; [intros [= <- <-]; eauto|].
  destruct (unavailable d); [intros [= <- <-]; eauto|]. simpl.
  destruct (db_readOnly d); [intros [= <- <-]; eauto|]. by destruct Hd.
Qed.
End Update.

(** * Reasoning about programs

    [triple d P p Q]: run on the committed data of [d], the program [p] appends
    only records that satisfy [P], and a result it returns satisfies [Q]. *)
Definition triple {A} (d : db) (P : record → Prop) (p : prog A) (Q : A → Prop) : Prop :=
  ∀ o d0 tx d' tx' r, same_data d d0 → run o p d0 tx = (d', tx', r) →
    (∃ l, tx' = tx ++ l ∧ Forall P l) ∧ (∀ a, r = Ok a → Q a).

(** The committed value of an identity, if there is one and it decodes. *)
Definition value_at (A : Type) `{Yaml A} (d : db) (b k : string) : option A :=
  s ← at_ d b k; match Unmarshal (stored_Data s) with Ok v => Some v | Err _ => None end.

Section Triples.
Context {A : Type}.
Implicit Types (d : db) (P : record → Prop).

Lemma triple_ret d P (a : A) (Q : A → Prop) : Q a → triple d P (Ret a) Q.
Proof.
  intros HQ o d0 tx d' tx' r _ [= <- <- <-]. split; [exists []; split; [by rewrite app_nil_r|constructor]|].
  by intros a' [= <-].
Qed.

Lemma triple_throw d P e (Q : A → Prop) : triple d P (Throw e) Q.
Proof.
  intros o d0 tx d' tx' r _ [= <- <- <-]. split; [exists []; split; [by rewrite app_nil_r|constructor]|done].
Qed.

Lemma triple_bind {B} d P (p : prog B) (f : B → prog A) (Q : B → Prop) (R : A → Prop) :
  triple d P p Q → (∀ b, Q b → triple d P (f b) R) → triple d P (p ≫= f) R.
Proof.
  intros Hp Hf o d0 tx d' tx' r Hs. rewrite run_bind.
  destruct (run o p d0 tx) as [[d1 tx1] [b|e]] eqn:E; pose proof (Hp _ _ _ _ _ _ Hs E) as [(l & -> & Hl) HQ].
  - intros H. apply Hf in H as [(l' & -> & Hl') HR]; [|by apply HQ|etrans; [exact Hs|by eapply run_same_data]].
    split; [|done]. exists (l ++ l'). by rewrite <-app_assoc, Forall_app.
  - intros [= <- <- <-]. split; [eauto|done].
Qed.

Lemma triple_conseq d P (p : prog A) (Q Q' : A → Prop) : triple d P p Q → (∀ a, Q a → Q' a) → triple d P p Q'.
Proof. intros Hp HQ o d0 tx d' tx' r Hs Hr. destruct (Hp _ _ _ _ _ _ Hs Hr) as [? H]. split; [done|]. intros a Ha. apply HQ, H, Ha. Qed.

Lemma triple_lift d P (r : result A) : triple d P (lift r) (λ a, r = Ok a).
Proof. destruct r; [by apply triple_ret|apply triple_throw]. Qed.

Lemma triple_lookup d P b k (c : result string → prog A) (Q : A → Prop) :
  triple d P (c (match at_ d b k with None => Err ErrNotFound | Some s => Ok (stored_Data s) end)) Q →
  triple d P (Lookup b k c) Q.
Proof.
  intros H o d0 tx d' tx' r Hs Hr. simpl in Hr. unfold at_ in H. rewrite (bucket_of_same _ _ _ Hs) in Hr. by eapply H.
Qed.

Lemma triple_poison d P (p : prog A) (Q : A → Prop) : triple d P p Q → triple d P (Poison p) Q.
Proof. intros H o d0 tx d' tx' r Hs Hr. eapply H; [|exact Hr]. etrans; [exact Hs|]. by split_and!. Qed.

Lemma triple_index d P b (c : gmap string info → prog A) (Q : A → Prop) :
  triple d P (c (stored_info <$> bucket_of d b)) Q → triple d P (Index b c) Q.
Proof. intros H o d0 tx d' tx' r Hs Hr. simpl in Hr. rewrite (bucket_of_same _ _ _ Hs) in Hr. by eapply H. Qed.

Lemma triple_ordered d P b kind v (c : list string → prog A) (Q : A → Prop) :
  triple d P (c (sorted_keys (stored_info <$> bucket_of d b) kind v)) Q → triple d P (Ordered b kind v c) Q.
Proof. intros H o d0 tx d' tx' r Hs Hr. simpl in Hr. rewrite (bucket_of_same _ _ _ Hs) in Hr. by eapply H. Qed.

Lemma triple_sequence d P (c : Z → prog A) (Q : A → Prop) : triple d P (c (db_sequence d)) Q → triple d P (Sequence c) Q.
Proof. intros H o d0 tx d' tx' r Hs Hr. simpl in Hr. pose proof Hs as (_ & E & _). rewrite E in Hr. by eapply H. Qed.

Lemma triple_managed d P (c : bool → prog A) (Q : A → Prop) : triple d P (c (db_managed d)) Q → triple d P (Managed c) Q.
Proof. intros H o d0 tx d' tx' r Hs Hr. simpl in Hr. pose proof Hs as (_ & _ & E & _). rewrite E in Hr. by eapply H. Qed.

Lemma triple_pending d P (c : Z → prog A) (Q : A → Prop) : (∀ n, triple d P (c n) Q) → triple d P (Pending c) Q.
Proof. intros H o d0 tx d' tx' r Hs Hr. simpl in Hr. by eapply H. Qed.

Lemma triple_ensure d P n (c : result () → prog A) (Q : A → Prop) : (∀ r, triple d P (c r) Q) → triple d P (Ensure n c) Q.
Proof.
  intros H o d0 tx d' tx' r Hs Hr. simpl in Hr. destruct (n <=? db_version d0) eqn:E; [by eapply H|]. apply Z.leb_gt in E.
  destruct (ensure_ok o n); (eapply H; [|exact Hr]; etrans; [exact Hs|]; split_and!; simpl; done || lia).
Qed.

Lemma triple_emit d P r (p : prog A) (Q : A → Prop) : P r → triple d P p Q → triple d P (Emit r p) Q.
Proof.
  intros HP H o d0 tx d' tx' r' Hs Hr. simpl in Hr. destruct (H _ _ _ _ _ _ Hs Hr) as [(l & -> & Hl) HQ].
  split; [|done]. exists (r :: l). rewrite <-app_assoc. split; [done|by constructor].
Qed.

Lemma triple_forM {B} d P (f : A → B → prog A) (l : list B) (I : A → Prop) (a : A) :
  I a → (∀ a x, x ∈ l → I a → triple d P (f a x) I) → triple d P (forM f a l) I.
Proof.
  revert a. induction l as [|x l IH]; intros a Ha Hf; simpl; [by apply triple_ret|].
  eapply triple_bind; [apply Hf; [left|done]|]. intros a' Ha'. apply IH; [done|]. intros ???. apply Hf. by right.
Qed.
End Triples.

Lemma triple_refuse_if d P (c : bool) e : triple d P (refuse_if c e) (λ _, c = false).
Proof. unfold refuse_if. destruct c; [apply triple_throw|by apply triple_ret]. Qed.

Section Values.
Context {A : Type} `{Yaml A}.
Implicit Types (d : db) (P : record → Prop).

Lemma triple_try_get d P b k :
  triple d P (try_get A b k)
    (λ r, match r with Ok v => value_at A d b k = Some v | Err e => value_at A d b k = None ∧ (e = ErrNotFound ∨ is_Some (at_ d b k)) end).
Proof.
  apply triple_lookup. unfold value_at. destruct (at_ d b k) as [s|]; simpl; [|apply triple_ret; auto].
  destruct (Unmarshal (stored_Data s)); [by apply triple_ret|]. apply triple_poison, triple_ret. eauto.
Qed.

Lemma triple_get d P b k : triple d P (get A b k) (λ v, value_at A d b k = Some v).
Proof.
  eapply triple_bind; [apply triple_try_get|]. intros [v|e] Hr; [by apply triple_ret|apply triple_throw].
Qed.

Lemma triple_put d P b k group ord state (v : A) :
  (∀ data, Marshal v = Ok data → P (mkrecord b k group ord state false data)) →
  triple d P (put b k group ord state v) (λ _, True).
Proof.
  intros HP. eapply triple_bind; [apply triple_lift|]. intros data Hd. apply triple_emit; [auto|by apply triple_ret].
Qed.

Lemma triple_get_all d P b ids : triple d P (get_all A b ids) (λ _, True).
Proof.
  apply triple_forM; [done|]. intros out id _ _. eapply triple_bind; [apply triple_get|]. intros v _. by apply triple_ret.
Qed.
End Values.

Lemma triple_remove d P b k : P (mkrecord b k "" "" "" true "") → triple d P (remove b k) (λ _, True).
Proof. intros HP. apply triple_emit; [done|by apply triple_ret]. Qed.

Lemma triple_exists d P b k : triple d P (exists_ b k) (λ x, x = bool_decide (is_Some (at_ d b k))).
Proof.
  eapply (triple_bind d P _ _ (λ i, i = (stored_info <$> bucket_of d b) !! k)); [by apply triple_index, triple_ret|].
  intros i ->. apply triple_ret, bool_decide_ext. by rewrite lookup_fmap, fmap_is_Some.
Qed.

Lemma triple_ensureSecurityVersion d P n : triple d P (ensureSecurityVersion n) (λ _, True).
Proof. apply triple_ensure. intros r. eapply triple_conseq; [apply triple_lift|done]. Qed.

(** What a transaction whose records all satisfy [P] does at an identity. *)
Lemma update_records {A} o ctx (p : prog A) d d' r P Q :
  triple d P p Q → db_update o ctx p d = (d', r) →
  ∀ b k, at_ d' b k = at_ d b k ∨ ∃ rec, P rec ∧ writes b k rec ∧ at_ d' b k = written rec.
Proof.
  intros Ht Hu b k.
  assert (∀ d1 tx a, run o p d [] = (d1, tx, Ok a) →
    after_tx tx b k (at_ d1 b k) = at_ d b k ∨ ∃ rec, P rec ∧ writes b k rec ∧ after_tx tx b k (at_ d1 b k) = written rec) as Hall.
  { intros d1 tx a Hrun. destruct (Ht o d [] d1 tx (Ok a)) as [(l & -> & Hl) _]; [done..|]. simpl in *.
    unfold at_ at 1. rewrite (bucket_of_same d d1) by (by eapply run_same_data).
    destruct (after_tx_cases l b k (bucket_of d b !! k)) as [E|(rec & Hin & Hw & E)]; [by left|].
    right. exists rec. split_and!; [|done|].
    - rewrite Forall_forall in Hl. by apply Hl.
    - unfold at_. by rewrite (bucket_of_same d d1) by (by eapply run_same_data). }
  apply db_update_ends in Hu as [d'' e Hs|d'' a Hrun|d1 tx a Hrun Hne Hok _|d1 tx a Hrun Hne Hok _].
  - left. unfold at_. by rewrite (bucket_of_same _ _ _ Hs).
  - left. unfold at_. by rewrite (bucket_of_same d d'') by (by eapply run_same_data).
  - rewrite commit_records_at. eauto.
  - change (at_ ((commit_records d1 tx) <| unavailable := true |>) b k) with (at_ (commit_records d1 tx) b k).
    rewrite commit_records_at. eauto.
Qed.

(** The same for the answer of a successful update. *)
Lemma update_result {A} o ctx (p : prog A) d d' a P Q :
  triple d P p Q → db_update o ctx p d = (d', Ok a) → Q a.
Proof.
  intros Ht Hu. apply db_update_ends in Hu. inversion Hu as [|? ? Hrun|? ? ? Hrun|]; subst;
    (eapply Ht; [|exact Hrun|]; done).
Qed.

#[export] Hint Resolve triple_ret triple_throw triple_get triple_try_get triple_refuse_if triple_exists triple_lift
  triple_ensureSecurityVersion triple_get_all : jolt.

(** ** Stepping through a program

    One rule per call followed by the rest of the program; [tstep] applies the
    one that fits. *)

Section Stepping.
Context {A B : Type}.
Implicit Types (d : db) (P : record → Prop) (R : B → Prop).

Lemma triple_bind_bind {A'} d P (p : prog A') (g : A' → prog A) (f : A → prog B) R :
  triple d P (p ≫= λ x, g x ≫= f) R → triple d P ((p ≫= g) ≫= f) R.
Proof.
  intros H o d0 tx d' tx' r Hs. rewrite !run_bind. intros Hr. apply (H o d0 tx d' tx' r); [done|]. rewrite <-Hr, run_bind.
  destruct (run o p d0 tx) as [[d1 tx1] [x|e]]; [apply run_bind|done].
Qed.

Lemma triple_get_bind `{Yaml A} d P b k (f : A → prog B) R :
  (∀ v, value_at A d b k = Some v → triple d P (f v) R) → triple d P (get A b k ≫= f) R.
Proof. intros Hf. eapply triple_bind; [apply triple_get|done]. Qed.

Lemma triple_put_bind `{Yaml A} d P b k group ord state (v : A) (f : () → prog B) R :
  (∀ data, Marshal v = Ok data → P (mkrecord b k group ord state false data)) → triple d P (f ()) R →
  triple d P (put b k group ord state v ≫= f) R.
Proof. intros HP Hf. eapply triple_bind; [by apply triple_put|]. by intros [] _. Qed.

Lemma triple_get_all_bind `{Yaml A} d P b ids (f : list A → prog B) R :
  (∀ l, triple d P (f l) R) → triple d P (get_all A b ids ≫= f) R.
Proof. intros Hf. eapply triple_bind; [apply triple_get_all|auto]. Qed.

Lemma triple_forM_bind d P (f : () → A → prog ()) l (g : () → prog B) R :
  (∀ x, x ∈ l → triple d P (f () x) (λ _, True)) → triple d P (g ()) R → triple d P (forM f () l ≫= g) R.
Proof. intros Hf Hg. eapply (triple_bind d P _ _ (λ _, True)); [apply triple_forM; [done|]|by intros [] _]. intros [] x Hx _. auto. Qed.
End Stepping.

Section SteppingB.
Context {B : Type}.
Implicit Types (d : db) (P : record → Prop) (R : B → Prop).

Lemma triple_refuse_if_bind d P (c : bool) e (f : () → prog B) R :
  (c = false → triple d P (f ()) R) → triple d P (refuse_if c e ≫= f) R.
Proof. intros Hf. eapply triple_bind; [apply triple_refuse_if|]. by intros [] ?; apply Hf. Qed.

Lemma triple_exists_bind d P b k (f : bool → prog B) R :
  (at_ d b k = None → triple d P (f false) R) → (is_Some (at_ d b k) → triple d P (f true) R) → triple d P (exists_ b k ≫= f) R.
Proof.
  intros Hn Hs. eapply triple_bind; [apply triple_exists|]. intros x ->. case_bool_decide as Hx; [auto|].
  by apply Hn, eq_None_not_Some.
Qed.

Lemma triple_ensure_bind d P n (f : () → prog B) R :
  triple d P (f ()) R → triple d P (ensureSecurityVersion n ≫= f) R.
Proof. intros Hf. eapply triple_bind; [apply triple_ensureSecurityVersion|]. by intros [] _. Qed.

Lemma triple_remove_bind d P b k (f : () → prog B) R :
  P (mkrecord b k "" "" "" true "") → triple d P (f ()) R → triple d P (remove b k ≫= f) R.
Proof. intros HP Hf. eapply triple_bind; [by apply triple_remove|]. by intros [] _. Qed.

Lemma triple_keys_bind d P b g (f : list string → prog B) R :
  triple d P (f (sorted_keys (stored_info <$> bucket_of d b) (if g =s "" then "all" else "group")%go g)) R → triple d P (keys b g ≫= f) R.
Proof. intros Hf. by apply triple_ordered. Qed.

Lemma triple_managed_bind d P (f : bool → prog B) R : triple d P (f (db_managed d)) R → triple d P (managed ≫= f) R.
Proof. intros Hf. by apply triple_managed. Qed.

Lemma triple_sequence_bind d P (f : Z → prog B) R : triple d P (f (db_sequence d)) R → triple d P (sequence ≫= f) R.
Proof. intros Hf. by apply triple_sequence. Qed.

Lemma triple_index_bind d P b k (f : option info → prog B) R :
  triple d P (f (stored_info <$> at_ d b k)) R → triple d P (index b k ≫= f) R.
Proof. intros Hf. apply triple_index. simpl. rewrite lookup_fmap. exact Hf. Qed.

Lemma triple_ret_bind {A} d P (a : A) (f : A → prog B) R : triple d P (f a) R → triple d P (Ret a ≫= f) R.
Proof. done. Qed.
Lemma triple_throw_bind {A} d P e (f : A → prog B) R : triple d P (Throw e ≫= f) R.
Proof. apply (triple_throw d P e). Qed.
End SteppingB.

Ltac tstep :=
  repeat match goal with |- triple _ _ ((_ ≫= _) ≫= _) _ => apply triple_bind_bind; cbv beta end;
  lazymatch goal with
  | |- triple _ _ (get _ _ _ ≫= _) _ => apply triple_get_bind; intros ? ?
  | |- triple _ _ (try_get _ _ _ ≫= _) _ => eapply triple_bind; [apply triple_try_get|intros [?|?] ?]; cbv beta iota in *
  | |- triple _ _ (get_all _ _ _ ≫= _) _ => apply triple_get_all_bind; intros ?
  | |- triple _ _ (refuse_if _ _ ≫= _) _ => apply triple_refuse_if_bind; intros ?
  | |- triple _ _ (refuse_if _ _) _ => eapply triple_conseq; [apply triple_refuse_if|done]
  | |- triple _ _ (exists_ _ _ ≫= _) _ => apply triple_exists_bind; intros ?
  | |- triple _ _ (ensureSecurityVersion _ ≫= _) _ => apply triple_ensure_bind
  | |- triple _ _ (remove _ _ ≫= _) _ => apply triple_remove_bind
  | |- triple _ _ (remove _ _) _ => apply triple_remove
  | |- triple _ _ (StateProg.keys _ _ ≫= _) _ => apply triple_keys_bind
  | |- triple _ _ (managed ≫= _) _ => apply triple_managed_bind
  | |- triple _ _ (sequence ≫= _) _ => apply triple_sequence_bind
  | |- triple _ _ (index _ _ ≫= _) _ => apply triple_index_bind
  | |- triple _ _ (put _ _ _ _ _ _ ≫= _) _ => apply triple_put_bind; [intros ? ?|]
  | |- triple _ _ (put _ _ _ _ _ _) _ => apply triple_put; intros ? ?
  | |- triple _ _ (forM _ () _ ≫= _) _ => apply triple_forM_bind; [intros ? ?|]
  | |- triple _ _ (Ret _ ≫= _) _ => apply triple_ret_bind
  | |- triple _ _ (Throw _ ≫= _) _ => apply triple_throw_bind
  | |- triple _ _ (Ret _) _ => apply triple_ret
  | |- triple _ _ (Throw _) _ => apply triple_throw
  | |- triple _ _ (Ordered _ _ _ _) _ => apply triple_ordered
  | |- triple _ _ (Pending _) _ => apply triple_pending; intros ?
  | |- triple _ _ ((if ?c then _ else _) ≫= _) _ => destruct c eqn:?
  | |- triple _ _ (match ?x with Some _ => _ | None => _ end ≫= _) _ => destruct x eqn:?
  | |- triple _ _ (if ?c then _ else _) _ => destruct c eqn:?
  | |- triple _ _ (match ?x with Some _ => _ | None => _ end) _ => destruct x eqn:?
  end; cbv beta zeta iota.

(** ** What a successful program did *)

Lemma run_bind_Ok {A B} o (p : prog A) (f : A → prog B) d tx d' tx' b :
  run o (p ≫= f) d tx = (d', tx', Ok b) → ∃ d1 tx1 a, run o p d tx = (d1, tx1, Ok a) ∧ run o (f a) d1 tx1 = (d', tx', Ok b).
Proof. rewrite run_bind. destruct (run o p d tx) as [[d1 tx1] [a|e]]; [eauto 6|done]. Qed.

Lemma run_put_Ok {A} `{Yaml A} o b k g ord st (v : A) d tx d' tx' u :
  run o (put b k g ord st v) d tx = (d', tx', Ok u) →
  d' = d ∧ ∃ data, Marshal v = Ok data ∧ tx' = tx ++ [mkrecord b k g ord st false data].
Proof. unfold put. destruct (Marshal v) as [data|e]; simpl; [|done]. intros [= <- <- _]. eauto. Qed.

(** The last record of a transaction for an identity is what it leaves there. *)
Lemma after_tx_last tx r b k old : writes b k r → after_tx (tx ++ [r]) b k old = written r.
Proof. intros Hw. unfold after_tx. rewrite foldl_app. simpl. by rewrite decide_True. Qed.
Lemma after_tx_snoc_other tx r b k old : ¬ writes b k r → after_tx (tx ++ [r]) b k old = after_tx tx b k old.
Proof. intros Hw. unfold after_tx. rewrite foldl_app. simpl. by rewrite decide_False. Qed.

(** A successful update: its program, run on the committed data, and what its
    transaction leaves at each identity. *)
Lemma update_Ok {A} o ctx (p : prog A) d d' a : db_update o ctx p d = (d', Ok a) →
  ∃ d1 tx, run o p d [] = (d1, tx, Ok a) ∧ ∀ b k, at_ d' b k = after_tx tx b k (at_ d b k).
Proof.
  intros Hu%db_update_ends. inversion Hu as [|? ? Hrun|d1 tx ? Hrun|]; subst; (eexists _, _; split; [done|]); intros b k.
  - unfold at_. by rewrite (bucket_of_same d d') by (by eapply run_same_data).
  - rewrite commit_records_at. unfold at_. by rewrite (bucket_of_same d d1) by (by eapply run_same_data).
Qed.
