(* ===== verification/StateLaws.v ===== *)
(** The laws of the node's state: for each bucket, how a record written by an
    operation may differ from the committed one it replaces. The laws of jobs
    are the steps of their life cycle. [wf] is the invariant the laws keep. *)
From S2P Require Import Prelude GoLib Entities GoTime FileTypes SignedAuth StateProg StateRecords.
From S2P Require Import StateAuthorizations StateJobs StatePeers StateProgFacts.
From stdpp Require Import options.
#[local] Set Default Proof Using "Type*".
Local Open Scope Z_scope.

(** A codec that loses nothing. *)
Abbreviation Faithful A := (YamlOk A (λ a : A, a)).

(** A call of the node: its identity, the keys it trusts and the time. *)
Record env := mkenv { env_node : string; env_keys : gmap string string; env_now : time }.

Section Laws.
Context {U : Unicode} {C : Crypto}.
Context {YJob : Yaml Job} {YPlan : Yaml DestructivePlan} {YAuth : Yaml JobAuthorization} {YIdem : Yaml idempotencyRecord}.
Context {YString : Yaml string} {YInvite : Yaml inviteRecord}.
Implicit Types (e : env) (d : db) (rec : record) (old j job : Job).

(** * The life cycle of jobs *)

(** Secured jobs run under a signed authorization or a confirmed plan. *)
Definition secured j : bool := (Job_DestructivePlanID j ≠s "") || Job_SignedAuthBound j || Job_RequiresSignedAuth j.
(** Jobs that are being carried out. *)
Definition executing j : bool := Job_State j ∈b ["running"; "pause_requested"; "cancel_requested"].
(** What a job is about; for a secured job, what its authorization covers. *)
Definition scope j :=
  (Job_Type j, Job_MountID j, Job_SourcePath j, Job_Destination j, Job_PeerNodeID j, Job_SourceGrantID j, Job_DestinationGrantID j,
   job_options j, (Job_DestructivePlanID j, Job_RequiresSignedAuth j, Job_SignedAuthActorID j, Job_SignedAuthCredentialID j)).

Definition due e j : bool := match Job_NextAttemptAt j with Some t => negb (After t (env_now e)) | None => true end.

(** What [verifiedJobLease] establishes of a job. *)
Record leased e d job (lease : JobAuthorization * filetypes.Filter) : Prop := {
  leased_record : value_at JobAuthorization d "job_authorizations" (Job_ID job) = Some lease.1;
  leased_bound : Job_SignedAuthBound job = true;
  leased_job : auth_JobID lease.1 = Job_ID job;
  leased_matches : jobAuthorizationMatches job (auth_Binding lease.1) (env_node e) = true;
  leased_verified : ∃ claims,
    signedauth.VerifyJobLease (Envelope lease.1) (env_keys e) (auth_Binding lease.1) (env_node e) (Revision lease.1) (env_now e)
      = Ok (claims, lease.2) ∧ signedauth.ExpiresAt claims = signedauth.Unix (auth_ExpiresAt lease.1);
  leased_plan : Job_DestructivePlanID job ≠ "" → ∃ plan,
    value_at DestructivePlan d "destructive_plans" (Job_DestructivePlanID job) = Some plan ∧
    DestructivePlan_ConsumedJobID plan = Job_ID job ∧ DestructivePlan_SubjectID plan = signedauth.ActorID (auth_Binding lease.1);
}.

(** A plan nobody has used. *)
Definition unused_plan d (id : string) : Prop :=
  ∃ plan, value_at DestructivePlan d "destructive_plans" id = Some plan ∧ DestructivePlan_ConsumedJobID plan = "".

(** The steps of a job: from the job stored, if there is one, to the job that
    replaces it. *)
Inductive job_step e d : option Job → Job → Prop :=
| step_create j : secured_fields j = false → job_step e d None j
| step_await j : Job_RequiresSignedAuth j = true → Job_SignedAuthBound j = false → Job_State j = "waiting_validation" →
    (Job_DestructivePlanID j ≠ "" → unused_plan d (Job_DestructivePlanID j)) → job_step e d None j
| step_accept j : Job_SignedAuthBound j = false → Job_State j = "waiting_validation" →
    Job_DestructivePlanID j ≠ "" → unused_plan d (Job_DestructivePlanID j) → job_step e d None j
| step_update old j : validSecuredJobUpdate old j = true → job_step e d (Some old) (j <| Job_CreatedAt := Job_CreatedAt old |>)
| step_claim old now : Job_State old = "queued" → secured old = false → job_step e d (Some old) (started old now)
| step_claim_secured old lease : Job_State old = "queued" → executableSecuredJob old = true → due e old = true →
    leased e d old lease → job_step e d (Some old) (started old (env_now e))
| step_park old j : Job_State old = "queued" → executableSecuredJob old = true → due e old = true →
    (∀ lease, ¬ leased e d old lease) → scope j = scope old → Job_SignedAuthBound j = Job_SignedAuthBound old →
    Job_State j = "waiting_validation" → job_step e d (Some old) j
| step_recover old j :
    Job_State old ∈ ["running"; "pause_requested"; "cancel_requested"; "queued"; "waiting_peer"; "waiting_mount"] →
    scope j = scope old → Job_SignedAuthBound j = Job_SignedAuthBound old → Job_State j = "waiting_validation" →
    job_step e d (Some old) j
| step_wake old j : Job_State old ∈ ["waiting_peer"; "waiting_mount"] → Job_DestructivePlanID old = "" →
    (secured old = true → executableSecuredJob old = true) →
    scope j = scope old → Job_SignedAuthBound j = Job_SignedAuthBound old → Job_State j = "queued" → job_step e d (Some old) j
| step_renew old j binding envelope revision claims filter :
    Job_State old ∈ ["queued"; "waiting_validation"; "paused"; "interrupted"] →
    jobAuthorizationMatches old binding (env_node e) = true →
    signedauth.VerifyJobLease envelope (env_keys e) binding (env_node e) revision (env_now e) = Ok (claims, filter) →
    scope j = scope old → Job_SignedAuthBound j = true →
    (Job_State j = "paused" ∧ Job_State old = "paused" ∨ Job_State j = "waiting_validation" ∨
     Job_State j = "queued" ∧ executableSecuredJob j = true) → job_step e d (Some old) j.

(** * Records and what they hold *)

(** A record that writes the value [v]. *)
Definition puts {A} `{Yaml A} rec (v : A) : Prop := record_Delete rec = false ∧ Marshal v = Ok (record_Data rec).

Definition job_info j : info := mkinfo (Job_PeerNodeID j) (order (Job_CreatedAt j)) (Job_State j).

Definition job_law e d rec : Prop :=
  ∃ j, puts rec j ∧ Job_ID j = record_Key rec ∧ record_info rec = job_info j ∧
       job_step e d (value_at Job d "jobs" (record_Key rec)) j.

(** A plan is created unused, is used once, for good, and is removed only
    unused. *)
Inductive plan_law d rec : Prop :=
| plan_purge : record_Delete rec = true → unused_plan d (record_Key rec) → plan_law d rec
| plan_create plan : puts rec plan → DestructivePlan_ID plan = record_Key rec →
    at_ d "destructive_plans" (record_Key rec) = None → DestructivePlan_ConsumedJobID plan = "" → plan_law d rec
| plan_consume plan id key hash : puts rec (plan <| DestructivePlan_ConsumedJobID := id |> <| DestructivePlan_IdempotencyKey := key |>
      <| DestructivePlan_RequestHash := hash |>) →
    DestructivePlan_ID plan = record_Key rec → value_at DestructivePlan d "destructive_plans" (record_Key rec) = Some plan →
    DestructivePlan_ConsumedJobID plan = "" → id ≠ "" → plan_law d rec.

(** The lease of a job is the first one, or the successor of the lease before
    it with the same binding, and was verified at exactly its revision. *)
Definition auth_law e d rec : Prop :=
  ∃ a claims filter, puts rec a ∧ auth_JobID a = record_Key rec ∧
    match value_at JobAuthorization d "job_authorizations" (record_Key rec) with
    | None => Revision a = 1
    | Some old => Revision a = Revision old + 1 ∧ auth_Binding a = auth_Binding old ∧ Revision old ≠ MaxUint64
    end ∧
    signedauth.VerifyJobLease (Envelope a) (env_keys e) (auth_Binding a) (env_node e) (Revision a) (env_now e) = Ok (claims, filter) ∧
    auth_ExpiresAt a = of_Unix (signedauth.ExpiresAt claims).

(** A record of a bucket that is only ever added to. *)
Definition new_law (A : Type) `{Yaml A} d rec : Prop :=
  at_ d (record_Bucket rec) (record_Key rec) = None ∧ ∃ v : A, puts rec v.

(** A value that is fixed when it is first written. *)
Definition fixed_law (A : Type) `{Yaml A} d rec : Prop :=
  ∃ v : A, puts rec v ∧ (at_ d (record_Bucket rec) (record_Key rec) = None ∨ value_at A d (record_Bucket rec) (record_Key rec) = Some v).

(** An invite that is settled does not become pending again. *)
Definition invite_law d rec : Prop :=
  ∃ v, puts rec v ∧ (at_ d "invites" (record_Key rec) = None ∨ PairingInvite_Status (Invite v) ≠ "pending").

Record lawful e d rec : Prop := {
  lawful_job : record_Bucket rec = "jobs" → job_law e d rec;
  lawful_plan : record_Bucket rec = "destructive_plans" → plan_law d rec;
  lawful_auth : record_Bucket rec = "job_authorizations" → auth_law e d rec;
  lawful_idempotency : record_Bucket rec = "idempotency" → new_law idempotencyRecord d rec;
  lawful_plan_idempotency : record_Bucket rec = "destructive_idempotency" → new_law idempotencyRecord d rec;
  lawful_mount_binding : record_Bucket rec = "mount_bindings" → fixed_law string d rec;
  lawful_grant_binding : record_Bucket rec = "grant_bindings" → fixed_law string d rec;
  lawful_revoked : record_Bucket rec = "revoked_grants" → record_Delete rec = false;
  lawful_invite : record_Bucket rec = "invites" → invite_law d rec;
}.

(** An operation that writes only lawful records. *)
Definition op_lawful {A} e d (c : op A) : Prop :=
  match c with
  | Reply _ | View _ _ => True
  | Update p _ => triple d (lawful e d) p (λ _, True)
  | Configure p => triple d (lawful e d) p (λ _, True)
  end.

(** * The invariant *)

(** Every record of a bucket decodes, to a value [I] holds of. *)
Definition decodes (A : Type) `{Yaml A} d (b : string) (I : string → stored → A → Prop) : Prop :=
  ∀ k s, at_ d b k = Some s → ∃ v, Unmarshal (stored_Data s) = Ok v ∧ I k s v.

(** Jobs, plans and leases are stored under their own ID, and the index agrees
    with the job it points to. *)
Record wf d : Prop := {
  wf_jobs : decodes Job d "jobs" (λ k s j, Job_ID j = k ∧ stored_info s = job_info j);
  wf_plans : decodes DestructivePlan d "destructive_plans" (λ k _ p, DestructivePlan_ID p = k);
  wf_auths : decodes JobAuthorization d "job_authorizations" (λ k _ a, auth_JobID a = k);
  wf_idempotency : decodes idempotencyRecord d "idempotency" (λ _ _ _, True);
  wf_plan_idempotency : decodes idempotencyRecord d "destructive_idempotency" (λ _ _ _, True);
  wf_mount_bindings : decodes string d "mount_bindings" (λ _ _ _, True);
  wf_grant_bindings : decodes string d "grant_bindings" (λ _ _ _, True);
  wf_invites : decodes inviteRecord d "invites" (λ _ _ _, True);
}.

Section Decodes.
Context {A : Type} `{Yaml A}.

Lemma decodes_value d b I k v : decodes A d b I → value_at A d b k = Some v → ∃ s, at_ d b k = Some s ∧ I k s v.
Proof.
  intros Hd. unfold value_at. destruct (at_ d b k) as [s|] eqn:E; simpl; [|done]. destruct (Hd _ _ E) as (v' & Hv & HI).
  rewrite Hv. intros [= <-]. eauto.
Qed.

Lemma decodes_none d b I k : decodes A d b I → value_at A d b k = None → at_ d b k = None.
Proof.
  intros Hd. unfold value_at. destruct (at_ d b k) as [s|] eqn:E; simpl; [|done].
  destruct (Hd _ _ E) as (v' & -> & HI). done.
Qed.
End Decodes.
End Laws.
