(* ===== verification/StateJobsFacts.v ===== *)
(** The job operations of the node's state (jobs.go, job_authorizations.go,
    destructive_plans.go) write only lawful records. *)
From S2P Require Import Prelude GoLib Entities GoTime FileTypes SignedAuth StateProg StateRecords.
From S2P Require Import StateAuthorizations StateJobs StatePlans StatePeers StateProgFacts StateLaws.
From stdpp Require Import options.
#[local] Set Default Proof Using "Type*".
Local Open Scope Z_scope.

(** Opens [lawful] of a record whose bucket is known: what is left are the laws
    of that bucket. *)
Ltac open_lawful := split; cbn [record_Bucket]; (let H := fresh in intros H; try discriminate H; clear H).

Section Jobs.
Context {U : Unicode} {C : Crypto}.
Context {YJob : Yaml Job} {YItem : Yaml JobItem} {YEvent : Yaml JobEvent} {YIdem : Yaml idempotencyRecord}.
Context {YPlan : Yaml DestructivePlan} {YAuth : Yaml JobAuthorization} {YString : Yaml string} {YInvite : Yaml inviteRecord}.
Implicit Types (e : env) (d : db) (j old : Job).

(** * Reading with the invariant *)

Lemma triple_try_get_wf {A B} `{Yaml A} d P b k I (f : result A → prog B) R : decodes A d b I →
  (∀ v, value_at A d b k = Some v → triple d P (f (Ok v)) R) →
  (∀ err, at_ d b k = None → triple d P (f (Err err)) R) → triple d P (try_get A b k ≫= f) R.
Proof.
  intros Hd Hok Herr. eapply triple_bind; [apply triple_try_get|]. intros [v|e]; [auto|].
  intros [Hv _]. by eapply Herr, decodes_none.
Qed.

Lemma wf_job d k j : wf d → value_at Job d "jobs" k = Some j → Job_ID j = k.
Proof. intros Hwf Hv. by destruct (decodes_value _ _ _ _ _ (wf_jobs _ Hwf) Hv) as (s & _ & ? & _). Qed.
Lemma wf_job_state d k j : wf d → value_at Job d "jobs" k = Some j → stored_info <$> at_ d "jobs" k = Some (job_info j).
Proof. intros Hwf Hv. destruct (decodes_value _ _ _ _ _ (wf_jobs _ Hwf) Hv) as (s & -> & _ & Hs). simpl. by rewrite Hs. Qed.
Lemma wf_plan d k p : wf d → value_at DestructivePlan d "destructive_plans" k = Some p → DestructivePlan_ID p = k.
Proof. intros Hwf Hv. by destruct (decodes_value _ _ _ _ _ (wf_plans _ Hwf) Hv) as (s & _ & ?). Qed.

Lemma value_at_none {A} `{Yaml A} d b k : at_ d b k = None → value_at A d b k = None.
Proof. intros E. unfold value_at. by rewrite E. Qed.

(** * Writing *)

Lemma triple_put_job {B} e d k (old : option Job) j (f : () → prog B) R :
  Job_ID j = k → value_at Job d "jobs" k = old → job_step e d old j → triple d (lawful e d) (f ()) R →
  triple d (lawful e d) (put_job k j ≫= f) R.
Proof.
  intros <- Hold Hstep Hf. unfold put_job. apply triple_put_bind; [|done]. intros data Hd. open_lawful.
  exists j. split_and!; [by split|done..|]. cbn [record_Key]. by rewrite Hold.
Qed.
Lemma triple_put_job_last e d k (old : option Job) j :
  Job_ID j = k → value_at Job d "jobs" k = old → job_step e d old j → triple d (lawful e d) (put_job k j) (λ _, True).
Proof.
  intros <- Hold Hstep. unfold put_job. apply triple_put. intros data Hd. open_lawful.
  exists j. split_and!; [by split|done..|]. cbn [record_Key]. by rewrite Hold.
Qed.

Lemma triple_put_items e d jobID items : triple d (lawful e d) (put_items jobID items) (λ _, True).
Proof.
  unfold put_items. eapply triple_bind; [|intros ? _; by apply triple_ret].
  apply (triple_forM _ _ _ _ (λ _, True)); [done|]. intros seen x _ _. cbv zeta. tstep; [by tstep|].
  tstep; [|by tstep]. by open_lawful.
Qed.
Lemma triple_put_items_bind {B} e d jobID items (f : () → prog B) R :
  triple d (lawful e d) (f ()) R → triple d (lawful e d) (put_items jobID items ≫= f) R.
Proof. intros Hf. eapply triple_bind; [apply triple_put_items|]. by intros [] _. Qed.

Lemma triple_put_event e d event : triple d (lawful e d) (put_event event) (λ _, True).
Proof. unfold put_event. tstep. tstep; [|by tstep]. by open_lawful. Qed.

(** ** Opening an operation *)
Lemma op_lawful_guarded {A} e d c err (x : op A) : (c = false → op_lawful e d x) → op_lawful e d (guarded c err x).
Proof. unfold guarded. destruct c; [done|auto]. Qed.

(** * Leases *)

Lemma triple_verifiedJobLease e d P job :
  triple d P (verifiedJobLease job (env_node e) (env_keys e) (env_now e))
    (λ r, match r with Ok lease => leased e d job lease | Err _ => ∀ lease, ¬ leased e d job lease end).
Proof.
  unfold verifiedJobLease. tstep; [|tstep; intros lease [E _ _ _ _ _]; naive_solver].
  destruct (_ || _) eqn:Hguard.
  { tstep. intros lease [E Hb Hj Hm _ _]. assert (a = lease.1) as -> by congruence.
    rewrite Hb, Hm, Hj in Hguard. by rewrite bool_decide_true in Hguard. }
  bool_to_prop. set (lease := match signedauth.VerifyJobLease _ _ _ _ _ _ with Ok _ => _ | Err _ => _ end).
  assert (match lease with
          | Ok l => l.1 = a ∧ ∃ claims, signedauth.VerifyJobLease (Envelope a) (env_keys e) (auth_Binding a) (env_node e) (Revision a) (env_now e)
              = Ok (claims, l.2) ∧ signedauth.ExpiresAt claims = signedauth.Unix (auth_ExpiresAt a)
          | Err _ => ∀ l, ¬ leased e d job l
          end) as Hlease.
  { subst lease. destruct (signedauth.VerifyJobLease _ _ _ _ _ _) as [[claims filter]|err] eqn:E.
    - case_bool_decide as Hx; simpl; [eauto|]. intros l [? _ _ _ (claims' & Hc & ?) _].
      assert (a = l.1) as -> by congruence. rewrite E in Hc. by injection Hc as <- _.
    - intros l [? _ _ _ (claims' & Hc & ?) _]. assert (a = l.1) as -> by congruence. congruence. }
  clearbody lease.
  assert (∀ l, l.1 = a → (∃ claims, signedauth.VerifyJobLease (Envelope a) (env_keys e) (auth_Binding a) (env_node e) (Revision a) (env_now e)
              = Ok (claims, l.2) ∧ signedauth.ExpiresAt claims = signedauth.Unix (auth_ExpiresAt a)) →
    (Job_DestructivePlanID job ≠ "" → ∃ plan,
    value_at DestructivePlan d "destructive_plans" (Job_DestructivePlanID job) = Some plan ∧
    DestructivePlan_ConsumedJobID plan = Job_ID job ∧ DestructivePlan_SubjectID plan = signedauth.ActorID (auth_Binding a)) →
    leased e d job l) as Hmk by (intros l <- ??; by split).
  tstep.
  - tstep; [|tstep; intros l [_ _ _ _ _ Hp]; bool_to_prop; naive_solver].
    destruct (_ || _) eqn:Hplan.
    + tstep. intros l [? _ _ _ _ Hp]. bool_to_prop. destruct Hp as (plan & ? & Hc & Hs); [done|].
      assert (a = l.1) as -> by congruence. assert (a0 = plan) as -> by congruence.
      rewrite Hc, Hs in Hplan. by rewrite !bool_decide_true in Hplan.
    + tstep. destruct lease as [l|]; [|done]. bool_to_prop. destruct Hlease as [<- Hv]. eauto.
  - tstep. destruct lease as [l|]; [|done]. bool_to_prop. destruct Hlease as [<- Hv]. apply Hmk; naive_solver.
Qed.

(** * jobs.go *)

Section Ops.
Context (e : env) (d : db) (Hwf : wf d).

(** The answer of a request that was made before. *)
Ltac replay := intros; cbv beta iota zeta; repeat (tstep; try done).

Lemma CreateJobWithItemsHashed_lawful j items key hash : op_lawful e d (CreateJobWithItemsHashed j items key hash).
Proof.
  apply op_lawful_guarded. intros Hj. cbn [op_lawful].
  assert ((key ≠ "" → at_ d "idempotency" key = None) → triple d (lawful e d)
    (_ ← (present ← exists_ "jobs" (Job_ID j); refuse_if present (errors_New "job already exists"));
     _ ← put_job (Job_ID j) j; _ ← put_items (Job_ID j) items;
     _ ← (if key ≠s "" then put "idempotency" key "" "" "" {| JobID := Job_ID j; RequestHash := hash |} else Ret ());
     Ret (j, false)) (λ _, True)) as Hcreate.
  { intros Hkey. tstep; [|by tstep]. tstep.
    eapply triple_put_job; [done|by apply value_at_none|by apply step_create|].
    apply triple_put_items_bind. tstep; [|by replay]. bool_to_prop. tstep; [|by tstep]. open_lawful. split; [auto|eexists; by split]. }
  tstep; [|apply Hcreate; bool_to_prop; naive_solver].
  eapply triple_try_get_wf; [by apply wf_idempotency|by replay|]. intros err Hn. cbv beta iota. tstep; [by tstep|auto].
Qed.

Lemma ValidKeyID_nonempty s : signedauth.ValidKeyID s = true → s ≠ "".
Proof. by intros H ->. Qed.

(** Using a plan: what is left of the creation runs on the job with its plan. *)
Lemma triple_consumeMovePlan binding actorID j key hash (f : Job → prog (Job * bool)) R :
  Job_ID j ≠ "" →
  (∀ id, unused_plan d id → triple d (lawful e d) (f (j <| Job_DestructivePlanID := id |>)) R) →
  triple d (lawful e d) (consumeMovePlan binding actorID j key hash ≫= f) R.
Proof.
  intros Hj Hf. unfold consumeMovePlan. tstep; [|by tstep]. rename a into plan. tstep. bool_to_prop.
  pose proof (wf_plan _ _ _ Hwf H) as Hid.
  tstep; [open_lawful; apply (plan_consume _ _ plan (Job_ID j) key hash); [by split|done|by cbn; rewrite Hid|done..]|].
  tstep. apply Hf. change (unused_plan d (DestructivePlan_ID plan)). rewrite Hid. eexists; eauto.
Qed.

Lemma createJobAwaitingAuthorization_lawful j items actorID credentialID key hash plan :
  op_lawful e d (createJobAwaitingAuthorization j items actorID credentialID key hash plan).
Proof.
  apply op_lawful_guarded. intros Hg. bool_to_prop. cbn [op_lawful].
  eapply triple_try_get_wf; [by apply wf_idempotency|by replay|]. intros err Hn. cbv beta iota.
  tstep. tstep; [|by tstep]. tstep. tstep.
  assert (∀ j' , Job_ID j' = Job_ID j → Job_SignedAuthBound j' = false →
    (Job_DestructivePlanID j' ≠ "" → unused_plan d (Job_DestructivePlanID j')) →
    triple d (lawful e d)
    (let j := j' <| Job_RequiresSignedAuth := true |> <| Job_SignedAuthActorID := actorID |>
                   <| Job_SignedAuthCredentialID := credentialID |>
                   <| Job_State := "waiting_validation" |> <| Job_Phase := "waiting_authorization" |>
                   <| Job_Error := "job execution requires authorization and validation" |> <| Job_NextAttemptAt := None |> in
        _ ← put_job (Job_ID j) j;
        _ ← put_items (Job_ID j) items;
        _ ← put "idempotency" key "" "" "" {| JobID := Job_ID j; RequestHash := hash |};
        Ret (j, false)) (λ _, True)) as Hcreate.
  { intros j' Hid Hb Hp. cbv zeta. eapply triple_put_job; [done|apply value_at_none; change (at_ d "jobs" (Job_ID j') = None); by rewrite Hid|by apply step_await|].
    apply triple_put_items_bind. tstep; [|by tstep]. open_lawful. split; [auto|eexists; by split]. }
  unfold secured_fields in *. bool_to_prop. tstep.
  - apply triple_consumeMovePlan; [by apply ValidKeyID_nonempty|]. intros id Hid. by apply Hcreate.
  - tstep. apply Hcreate; congruence || done.
Qed.

Lemma UpdateJob_lawful j : op_lawful e d (UpdateJob j).
Proof. cbn [op_lawful UpdateJob]. tstep. tstep. bool_to_prop. eapply triple_put_job_last; [done|done|by apply step_update]. Qed.

Lemma UpdateJobWithEvent_lawful j event : op_lawful e d (UpdateJobWithEvent j event).
Proof.
  cbn [op_lawful UpdateJobWithEvent]. tstep. tstep. tstep. bool_to_prop. eapply triple_put_job; [done|done|by apply step_update|].
  eapply triple_bind; [apply triple_put_event|]. intros. by tstep.
Qed.

Lemma scope_started j now : scope (started j now) = scope j.
Proof. unfold started. by destruct (Job_StartedAt _). Qed.
Lemma Job_ID_started j now : Job_ID (started j now) = Job_ID j.
Proof. unfold started. by destruct (Job_StartedAt _). Qed.

(** The claim loops. *)
Lemma triple_claim_secured ids : triple d (lawful e d) (claim_secured ids (env_node e) (env_keys e) (env_now e)) (λ _, True).
Proof.
  induction ids as [|id ids IH]; [by apply triple_ret|]. cbn [claim_secured]. tstep. rename v into j.
  pose proof (wf_job _ _ _ Hwf H) as Hid. destruct (_ || _) eqn:Hskip; [done|]. bool_to_prop.
  assert (due e j = true) by (unfold due; by destruct (Job_NextAttemptAt j); bool_to_prop; [apply negb_true_iff|]).
  eapply triple_bind; [apply triple_verifiedJobLease|]. intros [lease|err] Hl; cbv beta iota zeta.
  - eapply triple_put_job; [by rewrite Job_ID_started|done|by eapply step_claim_secured|by tstep].
  - eapply triple_put_job; [done|done|by apply step_park|done].
Qed.
Lemma ClaimNextSecuredJob_lawful : op_lawful e d (ClaimNextSecuredJob (env_node e) (env_keys e) (env_now e)).
Proof. apply op_lawful_guarded. intros _. cbn [op_lawful]. tstep. apply triple_claim_secured. Qed.

Lemma triple_claim ids now : triple d (lawful e d) (claim ids now) (λ _, True).
Proof.
  induction ids as [|id ids IH]; [by apply triple_throw|]. cbn [claim]. tstep. rename v into j.
  pose proof (wf_job _ _ _ Hwf H) as Hid. destruct (_ || _) eqn:Hskip; [done|]. bool_to_prop.
  eapply triple_put_job; [by rewrite Job_ID_started|done|apply step_claim; [done|]|by tstep].
  unfold secured. apply orb_false_iff; split; [apply orb_false_iff; split|]; [|done..]. by apply negb_false_iff, bool_decide_eq_true.
Qed.
Lemma ClaimNextJob_lawful now : op_lawful e d (ClaimNextJob now).
Proof. cbn [op_lawful ClaimNextJob]. tstep. apply triple_claim. Qed.

(** What [changeJobs] makes of a job is a step of its life cycle. *)
Definition change_step (states : list string) (recovery : bool) : Prop :=
  if recovery then states = ["running"; "pause_requested"; "cancel_requested"; "queued"; "waiting_peer"; "waiting_mount"]
  else ∀ s, s ∈ states → s ∈ ["waiting_peer"; "waiting_mount"].

Lemma changeJobs_lawful now states matches recovery :
  change_step states recovery → op_lawful e d (changeJobs now states matches recovery).
Proof.
  intros Hstates. cbn [op_lawful changeJobs]. tstep. apply (triple_forM _ _ _ _ (λ _, True)); [done|]. intros out id _ _.
  tstep. tstep. tstep; [by tstep|]. tstep. rename v into j.
  rewrite (wf_job_state _ _ _ Hwf H) in Heqb. apply negb_false_iff, bool_decide_eq_true in Heqb.
  tstep; [by tstep|]. tstep; [by tstep|]. pose proof (wf_job _ _ _ Hwf H) as Hid.
  eapply triple_put_job; [by destruct recovery|done| |by tstep]. destruct recovery; simpl in *.
  - subst states. by apply step_recover.
  - bool_to_prop. apply step_wake; [by apply Hstates|done| |done..].
    unfold secured. rewrite (bool_decide_true (Job_DestructivePlanID j = "")) by done. simpl. intros Hs. rewrite Hs in *. by destruct (executableSecuredJob j).
Qed.
Lemma RecoverRunningJobs_lawful now : op_lawful e d (RecoverRunningJobs now).
Proof. by apply changeJobs_lawful. Qed.
Lemma WakeWaitingPeerJobs_lawful id now : op_lawful e d (WakeWaitingPeerJobs id now).
Proof. apply changeJobs_lawful. simpl. set_solver. Qed.
Lemma WakeWaitingMountJobs_lawful id now : op_lawful e d (WakeWaitingMountJobs id now).
Proof. apply changeJobs_lawful. simpl. set_solver. Qed.

Lemma ReplaceJobItems_lawful id items : op_lawful e d (ReplaceJobItems id items).
Proof.
  cbn [op_lawful ReplaceJobItems]. tstep. tstep. tstep. tstep; [tstep; by open_lawful|]. apply triple_put_items.
Qed.
Lemma UpdateJobItem_lawful item : op_lawful e d (UpdateJobItem item).
Proof. cbn [op_lawful UpdateJobItem]. tstep. tstep. tstep; [by tstep|]. tstep. tstep. by open_lawful. Qed.
Lemma RecordJobEvent_lawful event : op_lawful e d (RecordJobEvent event).
Proof. cbn [op_lawful RecordJobEvent]. tstep; [by tstep|]. tstep. apply triple_put_event. Qed.

(** * job_authorizations.go *)

Lemma triple_put_auth {B} job a claims filter now (f : () → prog B) R :
  auth_JobID a = Job_ID job →
  match value_at JobAuthorization d "job_authorizations" (Job_ID job) with
  | None => Revision a = 1
  | Some old => Revision a = Revision old + 1 ∧ auth_Binding a = auth_Binding old ∧ Revision old ≠ MaxUint64
  end →
  signedauth.VerifyJobLease (Envelope a) (env_keys e) (auth_Binding a) (env_node e) (Revision a) (env_now e) = Ok (claims, filter) →
  auth_ExpiresAt a = of_Unix (signedauth.ExpiresAt claims) →
  triple d (lawful e d) (f ()) R →
  triple d (lawful e d) (put "job_authorizations" (Job_ID job) "" (order now) "" a ≫= f) R.
Proof.
  intros. tstep; [|done]. open_lawful. exists a, claims, filter. by split_and!.
Qed.

(** What renewing an authorization makes of a job that is not running. *)
Lemma renewed_step job now binding envelope revision claims filter :
  Job_State job ∈ ["queued"; "waiting_validation"; "paused"; "interrupted"] →
  jobAuthorizationMatches job binding (env_node e) = true →
  signedauth.VerifyJobLease envelope (env_keys e) binding (env_node e) revision (env_now e) = Ok (claims, filter) →
  job_step e d (Some job) (
    let job := job <| Job_SignedAuthBound := true |> in
    let autoResume := securedJobKind job && ((Job_State job =s "queued")
                        || (Job_State job =s "waiting_validation") && (Job_Phase job =s "waiting_authorization")) in
    let job :=
      if Job_State job =s "paused" then job
      else if autoResume then job <| Job_State := "queued" |> <| Job_Phase := "validation" |> <| Job_Error := "" |>
      else job <| Job_State := "waiting_validation" |> <| Job_Phase := "waiting_validation" |>
               <| Job_Error := "job execution requires authorization renewal and validation" |> <| Job_NextAttemptAt := None |> in
    job <| Job_UpdatedAt := now |>).
Proof.
  intros Hs Hm Hv. cbv zeta. case_bool_decide as Hp; [|destruct (securedJobKind _ && _) eqn:Hk].
  - eapply step_renew; try done. left. by split.
  - eapply step_renew; try done. right. right. split; [done|]. apply andb_true_iff in Hk as [Hk _].
    unfold executableSecuredJob. cbn [Job_SignedAuthBound]. simpl. exact Hk.
  - eapply step_renew; try done. by right; left.
Qed.

(** The lease the renewed one must follow. *)
Definition follows (key : string) (expected : signedauth.Binding) (revision : Z) : Prop :=
  match value_at JobAuthorization d "job_authorizations" key with
  | None => revision = 1
  | Some old => revision = Revision old + 1 ∧ expected = auth_Binding old ∧ Revision old ≠ MaxUint64
  end.

(** Recording the new lease, and the job it was made for. *)
Lemma triple_renewed job envelope expected revision claims filter :
  value_at Job d "jobs" (Job_ID job) = Some job → follows (Job_ID job) expected revision →
  (Job_State job ≠ "running" → Job_State job ∈ ["queued"; "waiting_validation"; "paused"; "interrupted"]) →
  jobAuthorizationMatches job expected (env_node e) = true →
  signedauth.VerifyJobLease envelope (env_keys e) expected (env_node e) revision (env_now e) = Ok (claims, filter) →
  triple d (lawful e d) (
      let authorization := mkJobAuthorization (Job_ID job) expected revision envelope (of_Unix (signedauth.ExpiresAt claims)) in
      if Job_State job =s "running" then
        _ ← put "job_authorizations" (Job_ID job) "" (order (env_now e)) "" authorization;
        Ret authorization
      else
        let job := job <| Job_SignedAuthBound := true |> in
        let autoResume := securedJobKind job && ((Job_State job =s "queued")
                            || (Job_State job =s "waiting_validation") && (Job_Phase job =s "waiting_authorization")) in
        let job :=
          if Job_State job =s "paused" then job
          else if autoResume then job <| Job_State := "queued" |> <| Job_Phase := "validation" |> <| Job_Error := "" |>
          else job <| Job_State := "waiting_validation" |> <| Job_Phase := "waiting_validation" |>
                   <| Job_Error := "job execution requires authorization renewal and validation" |> <| Job_NextAttemptAt := None |> in
        let job := job <| Job_UpdatedAt := env_now e |> in
        _ ← put "job_authorizations" (Job_ID job) "" (order (env_now e)) "" authorization;
        _ ← put_job (Job_ID job) job;
        Ret authorization) (λ _, True).
Proof.
  intros Hjob Hf Hs Hm Hv. cbv zeta. case_bool_decide as Hrun; [eapply triple_put_auth; [done|exact Hf|exact Hv|done|by tstep]|].
  pose proof (renewed_step job (env_now e) _ _ _ _ _ (Hs Hrun) Hm Hv) as Hstep. cbv zeta in Hstep.
  match type of Hstep with job_step _ _ _ ?x => set (j' := x) in * end.
  assert (Job_ID j' = Job_ID job) as Hid by (subst j'; repeat case_match; done).
  rewrite Hid. eapply (triple_put_auth job); [done|exact Hf|exact Hv|done|].
  eapply triple_put_job; [done|exact Hjob|exact Hstep|by tstep].
Qed.

Lemma triple_renew jobID envelope expected :
  triple d (lawful e d) (renew jobID (env_node e) envelope expected (env_keys e) (env_now e)) (λ _, True).
Proof.
  unfold renew. tstep. rename v into job. pose proof (wf_job _ _ _ Hwf H) as <-. tstep. tstep. bool_to_prop.
  assert (Job_State job ≠ "running" → Job_State job ∈ ["queued"; "waiting_validation"; "paused"; "interrupted"]) as Hs.
  { intros Hne. case_bool_decide as Hin; [done|]. by rewrite bool_decide_false in H0. }
  assert (∀ f, triple d (lawful e d) (f ()) (λ _, True) → triple d (lawful e d)
    ((if Job_DestructivePlanID job ≠s "" then
         plan ← try_get DestructivePlan "destructive_plans" (Job_DestructivePlanID job);
         match plan with
         | Err _ => Throw ErrInUse
         | Ok plan => refuse_if ((DestructivePlan_ConsumedJobID plan ≠s Job_ID job)
                                 || (DestructivePlan_SubjectID plan ≠s signedauth.ActorID expected)) ErrInUse
         end
       else Ret ()) ≫= f) (λ _ : JobAuthorization, True)) as Hplan.
  { intros f Hf. tstep; [tstep; [by tstep|by tstep]|by tstep]. }
  apply Hplan. clear Hplan. cbv beta.
  eapply triple_try_get_wf; [by apply wf_auths| |]; [intros old Hold|intros err Hold]; cbv beta iota.
  - tstep; [by tstep|]. bool_to_prop. tstep; [destruct (signedauth.VerifyJobLease _ _ _ _ _ _) as [[claims ?]|]; by replay|].
    tstep. destruct (signedauth.VerifyJobLease _ _ _ _ _ _) as [[claims filter]|] eqn:Hv; [|by tstep]. tstep.
    eapply triple_renewed; try done. unfold follows. by rewrite Hold.
  - tstep; [by tstep|]. tstep. destruct (signedauth.VerifyJobLease _ _ _ _ _ _) as [[claims filter]|] eqn:Hv; [|by tstep]. tstep.
    eapply triple_renewed; try done. unfold follows. by rewrite value_at_none.
Qed.
Lemma RenewJobAuthorization_lawful jobID envelope expected :
  op_lawful e d (RenewJobAuthorization jobID (env_node e) envelope expected (env_keys e) (env_now e)).
Proof. apply op_lawful_guarded. intros _. apply triple_renew. Qed.
Lemma RegisterSignedJobAuthorization_lawful jobID envelope :
  op_lawful e d (RegisterSignedJobAuthorization jobID (env_node e) envelope (env_keys e) (env_now e)).
Proof.
  unfold RegisterSignedJobAuthorization. destruct (signedauth.VerifiedJobLeaseBinding _ _ _ _); [|done].
  apply op_lawful_guarded. intros _. apply op_lawful_guarded. intros _. apply triple_renew.
Qed.

(** * destructive_plans.go *)

Lemma put_new_plan_lawful plan now : DestructivePlan_ConsumedJobID plan = "" → op_lawful e d (put_new_plan plan now).
Proof.
  intros Hc. cbn [op_lawful put_new_plan]. tstep; [|by tstep]. tstep. tstep. tstep.
  open_lawful. by eapply plan_create; [split|..].
Qed.
Lemma CreateDestructivePlan_lawful plan now : op_lawful e d (CreateDestructivePlan plan now).
Proof.
  apply op_lawful_guarded. intros Hg. unfold plan_refused in Hg. bool_to_prop. cbv zeta.
  repeat guard_split; try apply op_lawful_guarded; intros; try by apply put_new_plan_lawful. done.
Qed.
Lemma CreateTransferMovePlan_lawful plan now : op_lawful e d (CreateTransferMovePlan plan now).
Proof. apply op_lawful_guarded. intros Hg. unfold plan_refused in Hg. bool_to_prop. by apply put_new_plan_lawful. Qed.

Lemma triple_purge_plans ctx ids removed now : triple d (lawful e d) (purge_plans ctx ids removed now) (λ _, True).
Proof.
  revert removed. induction ids as [|id ids IH]; intros removed; [by apply triple_ret|]. cbn [purge_plans].
  tstep; [by tstep|]. tstep; [by tstep|]. tstep. tstep; [|done]. tstep; [|done].
  bool_to_prop. open_lawful. apply plan_purge; [done|]. eexists; eauto.
Qed.
Lemma PurgeExpiredDestructivePlans_lawful ctx now : op_lawful e d (PurgeExpiredDestructivePlans ctx now).
Proof. apply op_lawful_guarded. intros _. cbn [op_lawful]. tstep. apply triple_purge_plans. Qed.

Lemma AcceptDestructivePlan_lawful id subjectType subjectID tokenHash treeDigest destinationExists destinationDigest job key hash now :
  op_lawful e d (AcceptDestructivePlan id subjectType subjectID tokenHash treeDigest destinationExists destinationDigest job key hash now).
Proof.
  apply op_lawful_guarded. intros Hg. bool_to_prop. cbn [op_lawful]. tstep. rename v into plan. rename select (value_at _ _ _ _ = _) into Hplan. tstep. tstep; [by replay|].
  tstep. bool_to_prop. tstep; [|by tstep]. tstep. pose proof (wf_plan _ _ _ Hwf Hplan) as <-.
  eapply triple_try_get_wf; [by apply wf_plan_idempotency|by replay|]. intros err Hn. tstep. tstep.
  { open_lawful. eapply (plan_consume _ _ plan (Job_ID job)); [by split|done..|by apply ValidKeyID_nonempty]. }
  eapply triple_put_job; [done|by apply value_at_none|apply step_accept; try done|].
  { by apply ValidKeyID_nonempty. }
  { by exists plan. }
  tstep; [|by tstep]. open_lawful. split; [done|eexists; by split].
Qed.
End Ops.
End Jobs.
