(* ===== verification/StatePeersFacts.v ===== *)
(** The other operations of the node's state (uploads.go, trash.go, tokens.go,
    managed_trust.go, peers.go, configuration.go) write only lawful records. *)
From S2P Require Import Prelude GoLib Entities GoTime FileTypes SignedAuth StateProg StateRecords.
From S2P Require Import StateAuthorizations StateJobs StatePlans StateUploads StatePeers StateProgFacts.
From S2P Require Import StateLaws StateJobsFacts.
From stdpp Require Import options.
#[local] Set Default Proof Using "Type*".
Local Open Scope Z_scope.

(** Steps to the end of a program whose writes no law constrains. *)
Ltac free_run := repeat (tstep; try done); try (by open_lawful).

Section Others.
Context {U : Unicode} {C : Crypto}.
Context {YJob : Yaml Job} {YIdem : Yaml idempotencyRecord} {YPlan : Yaml DestructivePlan} {YAuth : Yaml JobAuthorization}.
Context {YString : Yaml string} {YInvite : Yaml inviteRecord} {YUpload : Yaml UploadSession} {YTrash : Yaml TrashItem}.
Context {YToken : Yaml OperationalTokenState} {YTrust : Yaml ManagedTrust} {YRequest : Yaml requestRecord} {YPeer : Yaml Peer}.
Context {YGrant : Yaml TransferPathGrant} {YMount : Yaml Mount} {YConf : Yaml configurationRecord} {YAudit : Yaml auditRecord}.
Context {YBool : Yaml bool}.
Context (e : env) (d : db) (Hwf : wf d).

(** * uploads.go, trash.go, tokens.go, managed_trust.go *)

Lemma CreateUploadSession_lawful v : op_lawful e d (CreateUploadSession v).
Proof. do 2 (apply op_lawful_guarded; intros _). cbn [op_lawful]. unfold put_upload. free_run. Qed.
Lemma ReauthorizeUploadSession_lawful id actor credential request : op_lawful e d (ReauthorizeUploadSession id actor credential request).
Proof. apply op_lawful_guarded; intros _. cbn [op_lawful]. unfold put_upload. free_run. Qed.
Lemma TouchUploadSession_lawful id now expires : op_lawful e d (TouchUploadSession id now expires).
Proof. cbn [op_lawful TouchUploadSession]. unfold put_upload. free_run. Qed.
Lemma DeleteUploadSession_lawful id : op_lawful e d (DeleteUploadSession id).
Proof. cbn [op_lawful DeleteUploadSession]. free_run. Qed.
Lemma UpdateUploadSession_lawful v : op_lawful e d (UpdateUploadSession v).
Proof. cbn [op_lawful UpdateUploadSession]. unfold put_upload. free_run. Qed.

Lemma PutTrashItem_lawful item : op_lawful e d (PutTrashItem item).
Proof. apply op_lawful_guarded; intros _. cbn [op_lawful]. free_run. Qed.
Lemma DeleteTrashItem_lawful id : op_lawful e d (DeleteTrashItem id).
Proof. apply op_lawful_guarded; intros _. cbn [op_lawful]. free_run. Qed.

Lemma StageOperationalToken_lawful hash correlation now : op_lawful e d (StageOperationalToken hash correlation now).
Proof. cbn [op_lawful StageOperationalToken]. unfold put_token. free_run. Qed.
Lemma CommitOperationalToken_lawful hash correlation now : op_lawful e d (CommitOperationalToken hash correlation now).
Proof. cbn [op_lawful CommitOperationalToken]. unfold put_token. free_run. Qed.
Lemma RecoverOperationalToken_lawful hash correlation now : op_lawful e d (RecoverOperationalToken hash correlation now).
Proof. apply op_lawful_guarded; intros _. cbn [op_lawful]. unfold put_token. free_run. Qed.

Lemma PutManagedTrust_lawful v : op_lawful e d (PutManagedTrust v).
Proof. apply op_lawful_guarded; intros _. cbn [op_lawful]. free_run. Qed.

(** * peers.go *)

Lemma triple_audit action id value clock : triple d (lawful e d) (audit action id value clock) (λ _, True).
Proof. unfold audit. free_run. Qed.
Lemma triple_trust_bind {B} peer (f : () → prog B) R :
  triple d (lawful e d) (f ()) R → triple d (lawful e d) (trust peer ≫= f) R.
Proof. intros Hf. unfold trust, put_peer. tstep; [by open_lawful|done]. Qed.

(** An invite is written new, or settled. *)
Lemma triple_put_invite id r :
  at_ d "invites" id = None ∨ PairingInvite_Status (Invite r) ≠ "pending" →
  triple d (lawful e d) (put_invite id r) (λ _, True).
Proof. intros Hr. unfold put_invite. tstep. open_lawful. exists r. split; [by split|done]. Qed.

Lemma CreatePairingInvite_lawful v hash : op_lawful e d (CreatePairingInvite v hash).
Proof. cbn [op_lawful CreatePairingInvite]. tstep; [|by tstep]. tstep. apply triple_put_invite. by left. Qed.
Lemma RevokePairingInvite_lawful id now : op_lawful e d (RevokePairingInvite id now).
Proof. cbn [op_lawful RevokePairingInvite]. tstep. apply triple_put_invite. by right. Qed.
Lemma ApprovePairingInvite_lawful id hash peer now : op_lawful e d (ApprovePairingInvite id hash peer now).
Proof. cbn [op_lawful ApprovePairingInvite]. tstep. tstep. apply triple_trust_bind, triple_put_invite. by right. Qed.

Lemma CreatePairingRequest_lawful v hash : op_lawful e d (CreatePairingRequest v hash).
Proof. cbn [op_lawful CreatePairingRequest]. unfold put_request. free_run. Qed.
Lemma ResolvePairingRequest_lawful id status peer now : op_lawful e d (ResolvePairingRequest id status peer now).
Proof.
  cbn [op_lawful ResolvePairingRequest]. unfold put_request. tstep. tstep. destruct peer.
  - apply triple_trust_bind. free_run.
  - free_run.
Qed.

Lemma changePeer_lawful id fn : op_lawful e d (changePeer id fn).
Proof.
  cbn [op_lawful changePeer]. unfold put_peer. tstep. destruct (fn v); [|by apply triple_throw].
  apply (triple_ret_bind _ _ a). free_run.
Qed.

Lemma RevokePeer_lawful id correlation now clock : op_lawful e d (RevokePeer id correlation now clock).
Proof.
  cbn [op_lawful RevokePeer]. unfold put_peer, put_revoked. tstep. tstep; [by open_lawful|].
  eapply triple_bind; [apply triple_audit|]. intros [] _. tstep. tstep; [free_run|]. tstep.
  apply (triple_forM _ _ _ _ (λ _, True)); [done|]. intros [] key _ _.
  tstep. tstep; [by open_lawful|]. tstep. tstep; (tstep; [try by open_lawful..|]); try apply triple_audit.
Qed.

(** * configuration.go *)

(** What a bound resource names does not change. *)
Lemma triple_put_binding {B} b id v (f : () → prog B) R :
  b = "mount_bindings" ∨ b = "grant_bindings" → at_ d b id = None ∨ value_at string d b id = Some v →
  triple d (lawful e d) (f ()) R → triple d (lawful e d) (put b id "" "" "" v ≫= f) R.
Proof.
  intros Hb Hv Hf. tstep; [|done]. destruct Hb as [-> | ->]; open_lawful; (exists v; split; [by split|done]).
Qed.

Lemma triple_apply_mount now m : triple d (lawful e d) (apply_mount now m) (λ _, True).
Proof.
  unfold apply_mount. eapply triple_try_get_wf; [by apply wf_mount_bindings| |];
    [intros v Hv|intros err Hn]; cbv beta iota; tstep; bool_to_prop; tstep; cbv beta iota zeta;
    (apply triple_put_binding; [by left| |tstep; by open_lawful]); repeat case_match; try (by left); right; simpl; by rewrite Hv; f_equal.
Qed.

Lemma triple_apply_grant now g : triple d (lawful e d) (apply_grant now g) (λ _, True).
Proof.
  unfold apply_grant. cbv zeta. unfold put_grant, put_revoked.
  assert ((at_ d "grant_bindings" (TransferPathGrant_ID g) = None ∨
      value_at string d "grant_bindings" (TransferPathGrant_ID g) = Some (grant_binding g)) →
    triple d (lawful e d)
     (existing ← try_get TransferPathGrant "grants" (TransferPathGrant_ID g);
      let g' := match existing with Ok existing => g <| TransferPathGrant_CreatedAt := TransferPathGrant_CreatedAt existing |> | Err _ => g end in
      let g' := if IsZero (TransferPathGrant_CreatedAt g') then g' <| TransferPathGrant_CreatedAt := now |> else g' in
      let g' := g' <| TransferPathGrant_UpdatedAt := now |> in
      _ ← put "grant_bindings" (TransferPathGrant_ID g') "" "" "" (grant_binding g);
      put "grants" (TransferPathGrant_ID g') (TransferPathGrant_PeerNodeID g') (order (TransferPathGrant_CreatedAt g')) "" g') (λ _, True)) as Hput.
  { intros Hb. tstep; cbv beta iota zeta;
      (apply triple_put_binding; [by right|by repeat case_match|tstep; by open_lawful]). }
  eapply triple_try_get_wf; [by apply wf_grant_bindings| |]; [intros v Hv|intros err Hn]; cbv beta iota; tstep; bool_to_prop.
  - tstep. apply Hput. right. by rewrite Hv; f_equal.
  - tstep; cbv beta iota; [tstep; [tstep; [by open_lawful|]|tstep]|tstep]; apply Hput; by left.
Qed.

Lemma ApplyConfiguration_lawful revision mounts grants settings now clock :
  op_lawful e d (ApplyConfiguration revision mounts grants settings now clock).
Proof.
  cbn [op_lawful ApplyConfiguration]. 
  assert (∀ old, triple d (lawful e d)
    (if conf_Revision old =s revision then Ret () else
    mount_ids ← StateProg.keys "mounts" "";
    _ ← forM (λ _ id, remove "mounts" id) () mount_ids;
    grant_ids ← StateProg.keys "grants" "";
    _ ← forM (λ _ id, remove "grants" id) () grant_ids;
    _ ← forM (λ _ m, apply_mount now m) () mounts;
    _ ← forM (λ _ g, apply_grant now g) () grants;
    beforeMounts ← get_all Mount "mounts" mount_ids;
    beforeGrants ← get_all TransferPathGrant "grants" grant_ids;
    _ ← audit "configuration_applied" revision
          (SnapConfiguration (conf_Revision old) (Settings old) (default "" (head settings)) beforeMounts mounts beforeGrants grants) clock;
    put "configuration" "applied" "" "" "" (mkconfiguration revision now (default "" (head settings)))) (λ _, True)) as Happly.
  { intros old. tstep; [by tstep|]. tstep. tstep; [tstep; by open_lawful|]. tstep. tstep; [tstep; by open_lawful|].
    tstep; [apply triple_apply_mount|]. tstep; [apply triple_apply_grant|]. tstep. tstep.
    eapply triple_bind; [apply triple_audit|]. intros [] _. tstep. by open_lawful. }
  tstep; [|tstep; [by tstep|]]; tstep; apply Happly.
Qed.

Lemma UpsertMount_lawful v : op_lawful e d (UpsertMount v).
Proof. cbn [op_lawful UpsertMount]. free_run. Qed.
Lemma DeleteMount_lawful id : op_lawful e d (DeleteMount id).
Proof. cbn [op_lawful DeleteMount]. free_run. Qed.
Lemma saveGrant_lawful g create clock : op_lawful e d (saveGrant g create clock).
Proof. cbn [op_lawful saveGrant]. unfold put_grant. free_run; try apply triple_audit. Qed.
Lemma DeleteTransferGrant_lawful id correlation now clock : op_lawful e d (DeleteTransferGrant id correlation now clock).
Proof. cbn [op_lawful DeleteTransferGrant]. free_run; try apply triple_audit. Qed.
End Others.
