(* ===== verification/StateLife.v ===== *)
(** The life of the node's state: every operation of the store as a step, what
    a step does to each record, and what therefore holds after any sequence of
    operations. *)
From S2P Require Import Prelude GoLib Entities GoTime FileTypes SignedAuth StateProg StateRecords.
From S2P Require Import StateAuthorizations StateJobs StatePlans StateUploads StatePeers StateProgFacts.
From S2P Require Import StateLaws StateJobsFacts StatePeersFacts.
From stdpp Require Import options.
#[local] Set Default Proof Using "Type*".
Local Open Scope Z_scope.

Section Life.
Context {U : Unicode} {C : Crypto}.
Context {YJob : Yaml Job} {YItem : Yaml JobItem} {YEvent : Yaml JobEvent} {YIdem : Yaml idempotencyRecord}.
Context {YPlan : Yaml DestructivePlan} {YAuth : Yaml JobAuthorization} {YString : Yaml string} {YInvite : Yaml inviteRecord}.
Context {YUpload : Yaml UploadSession} {YTrash : Yaml TrashItem} {YToken : Yaml OperationalTokenState} {YTrust : Yaml ManagedTrust}.
Context {YRequest : Yaml requestRecord} {YPeer : Yaml Peer} {YGrant : Yaml TransferPathGrant} {YMount : Yaml Mount}.
Context {YConf : Yaml configurationRecord} {YAudit : Yaml auditRecord} {YBool : Yaml bool}.

(** * The operations of the store *)

(** The exported operations that write, by file; the ones that only read are
    [View]s. The calls that verify a lease do so with the node's identity, the
    keys it trusts and the time of the call. *)
Inductive StoreOp (e : env) : ∀ {A : Type}, op A → Prop :=
| OpReply {A} (r : result A) : StoreOp e (Reply r)
| OpView {A B} (p : prog B) (post : B → result A) : StoreOp e (View p post)
| OpCreateJob j items key hash : StoreOp e (CreateJobWithItemsHashed j items key hash)
| OpCreateAwaiting j items actor credential key hash plan :
    StoreOp e (createJobAwaitingAuthorization j items actor credential key hash plan)
| OpUpdateJob j : StoreOp e (UpdateJob j)
| OpUpdateJobWithEvent j event : StoreOp e (UpdateJobWithEvent j event)
| OpClaimNextSecuredJob : StoreOp e (ClaimNextSecuredJob (env_node e) (env_keys e) (env_now e))
| OpClaimNextJob now : StoreOp e (ClaimNextJob now)
| OpRecoverRunningJobs now : StoreOp e (RecoverRunningJobs now)
| OpWakeWaitingPeerJobs id now : StoreOp e (WakeWaitingPeerJobs id now)
| OpWakeWaitingMountJobs id now : StoreOp e (WakeWaitingMountJobs id now)
| OpReplaceJobItems id items : StoreOp e (ReplaceJobItems id items)
| OpUpdateJobItem item : StoreOp e (UpdateJobItem item)
| OpRecordJobEvent event : StoreOp e (RecordJobEvent event)
| OpRenew job envelope expected : StoreOp e (RenewJobAuthorization job (env_node e) envelope expected (env_keys e) (env_now e))
| OpRegister job envelope : StoreOp e (RegisterSignedJobAuthorization job (env_node e) envelope (env_keys e) (env_now e))
| OpCreatePlan plan now : StoreOp e (CreateDestructivePlan plan now)
| OpCreateMovePlan plan now : StoreOp e (CreateTransferMovePlan plan now)
| OpPurgePlans ctx now : StoreOp e (PurgeExpiredDestructivePlans ctx now)
| OpAcceptPlan id st si token tree dex dd job key hash now :
    StoreOp e (AcceptDestructivePlan id st si token tree dex dd job key hash now)
| OpCreateUpload v : StoreOp e (CreateUploadSession v)
| OpReauthorizeUpload id actor credential request : StoreOp e (ReauthorizeUploadSession id actor credential request)
| OpTouchUpload id now expires : StoreOp e (TouchUploadSession id now expires)
| OpDeleteUpload id : StoreOp e (DeleteUploadSession id)
| OpUpdateUpload v : StoreOp e (UpdateUploadSession v)
| OpPutTrash item : StoreOp e (PutTrashItem item)
| OpDeleteTrash id : StoreOp e (DeleteTrashItem id)
| OpStageToken hash correlation now : StoreOp e (StageOperationalToken hash correlation now)
| OpCommitToken hash correlation now : StoreOp e (CommitOperationalToken hash correlation now)
| OpRecoverToken hash correlation now : StoreOp e (RecoverOperationalToken hash correlation now)
| OpPutManagedTrust v : StoreOp e (PutManagedTrust v)
| OpCreateInvite v hash : StoreOp e (CreatePairingInvite v hash)
| OpRevokeInvite id now : StoreOp e (RevokePairingInvite id now)
| OpCreateRequest v hash : StoreOp e (CreatePairingRequest v hash)
| OpApproveInvite id hash peer now : StoreOp e (ApprovePairingInvite id hash peer now)
| OpResolveRequest id status peer now : StoreOp e (ResolvePairingRequest id status peer now)
| OpChangePeer id fn : StoreOp e (changePeer id fn)
| OpRevokePeer id correlation now clock : StoreOp e (RevokePeer id correlation now clock)
| OpApplyConfiguration revision mounts grants settings now clock :
    StoreOp e (ApplyConfiguration revision mounts grants settings now clock)
| OpUpsertMount v : StoreOp e (UpsertMount v)
| OpDeleteMount id : StoreOp e (DeleteMount id)
| OpSaveGrant g create clock : StoreOp e (saveGrant g create clock)
| OpDeleteGrant id correlation now clock : StoreOp e (DeleteTransferGrant id correlation now clock).

(** A step of the store: one operation, whatever its context and the faults it
    meets. *)
Inductive call_step (e : env) (d d' : db) : Prop :=
| Call {A} (c : op A) o ctx r : StoreOp e c → db_call o ctx c d = (d', r) → call_step e d d'.
Definition step (d d' : db) : Prop := ∃ e, call_step e d d'.

#[local] Hint Resolve CreateJobWithItemsHashed_lawful createJobAwaitingAuthorization_lawful UpdateJob_lawful
  UpdateJobWithEvent_lawful ClaimNextSecuredJob_lawful ClaimNextJob_lawful RecoverRunningJobs_lawful WakeWaitingPeerJobs_lawful
  WakeWaitingMountJobs_lawful ReplaceJobItems_lawful UpdateJobItem_lawful RecordJobEvent_lawful RenewJobAuthorization_lawful
  RegisterSignedJobAuthorization_lawful CreateDestructivePlan_lawful CreateTransferMovePlan_lawful
  PurgeExpiredDestructivePlans_lawful AcceptDestructivePlan_lawful CreateUploadSession_lawful ReauthorizeUploadSession_lawful
  TouchUploadSession_lawful DeleteUploadSession_lawful UpdateUploadSession_lawful PutTrashItem_lawful DeleteTrashItem_lawful
  StageOperationalToken_lawful CommitOperationalToken_lawful RecoverOperationalToken_lawful PutManagedTrust_lawful
  CreatePairingInvite_lawful RevokePairingInvite_lawful CreatePairingRequest_lawful ApprovePairingInvite_lawful
  ResolvePairingRequest_lawful changePeer_lawful RevokePeer_lawful ApplyConfiguration_lawful UpsertMount_lawful
  DeleteMount_lawful saveGrant_lawful DeleteTransferGrant_lawful : jolt.

Lemma store_op_lawful {A} e d (c : op A) : wf d → StoreOp e c → op_lawful e d c.
Proof. intros Hwf Hc. destruct Hc; try (eauto with jolt); done. Qed.

(** * What a step does to a record *)

Lemma view_same {A} o ctx (p : prog A) d d' r : db_view o ctx p d = (d', r) → ∀ b k, at_ d' b k = at_ d b k.
Proof.
  unfold db_view. destruct (db_available ctx d); [|by intros [= <- <-]].
  destruct (run o p d []) as [[d1 tx] r1] eqn:E. intros [= <- <-] b k.
  unfold at_. by rewrite (bucket_of_same d d1) by (by eapply run_same_data).
Qed.

Lemma call_at {A} e (c : op A) o ctx d d' r : op_lawful e d c → db_call o ctx c d = (d', r) →
  ∀ b k, at_ d' b k = at_ d b k ∨ ∃ rec, lawful e d rec ∧ writes b k rec ∧ at_ d' b k = written rec.
Proof.
  intros Hc. destruct c as [r0|B p post|B p post|p]; simpl in *.
  - intros [= <- _]. by left.
  - destruct (db_update o ctx p d) as [d1 r1] eqn:E. intros [= <- _]. by eapply update_records.
  - destruct (db_view o ctx p d) as [d1 r1] eqn:E. intros [= <- _]. left. by eapply view_same.
  - destruct (db_update o ctx p d) as [d1 r1] eqn:E. intros [= <- _] b k.
    replace (at_ _ b k) with (at_ d1 b k) by (by destruct r1). by eapply update_records.
Qed.

Lemma step_at e d d' : wf d → call_step e d d' →
  ∀ b k, at_ d' b k = at_ d b k ∨ ∃ rec, lawful e d rec ∧ writes b k rec ∧ at_ d' b k = written rec.
Proof. intros Hwf [A c o ctx r Hc Hcall]. eapply call_at; [by eapply store_op_lawful|done]. Qed.

(** What was put can be read back. *)
Lemma puts_at {A} `{Yaml A} `{!Faithful A} (rec : record) (v : A) :
  puts rec v → ∃ s, written rec = Some s ∧ Unmarshal (stored_Data s) = Ok v ∧ stored_info s = record_info rec.
Proof.
  intros [Hdel Hm]. unfold written. rewrite Hdel. eexists. split_and!; [done| |done]. simpl.
  destruct (yaml_round_trip v) as (s & Hs & Hu). congruence.
Qed.
Lemma puts_value {A} `{Yaml A} `{!Faithful A} (rec : record) (v : A) d b k :
  puts rec v → at_ d b k = written rec → value_at A d b k = Some v.
Proof. intros (s & Hw & Hv & _)%puts_at Hat. unfold value_at. by rewrite Hat, Hw; simpl; rewrite Hv. Qed.
Lemma value_same {A} `{Yaml A} d d' b k : at_ d' b k = at_ d b k → value_at A d' b k = value_at A d b k.
Proof. intros Hat. unfold value_at. by rewrite Hat. Qed.

(** * The invariant *)

Context `{!Faithful Job} `{!Faithful DestructivePlan} `{!Faithful JobAuthorization} `{!Faithful idempotencyRecord}.
Context `{!Faithful string} `{!Faithful inviteRecord}.

Lemma decodes_step {A} `{Yaml A} `{!Faithful A} e d d' b (I : string → stored → A → Prop) : wf d → call_step e d d' →
  decodes A d b I →
  (∀ k rec, lawful e d rec → writes b k rec →
     record_Delete rec = true ∨ ∃ v, puts rec v ∧ ∀ s, stored_info s = record_info rec → I k s v) →
  decodes A d' b I.
Proof.
  intros Hwf Hstep Hd Hlaw k s Hs. destruct (step_at _ _ _ Hwf Hstep b k) as [E|(rec & Hl & Hw & E)]; rewrite E in Hs; [by apply Hd|].
  destruct (Hlaw _ _ Hl Hw) as [Hdel|(v & Hv & HI)]; [unfold written in Hs; by rewrite Hdel in Hs|].
  destruct (puts_at _ _ Hv) as (s' & Hs' & Hu & Hi). simplify_eq. eauto.
Qed.

Lemma new_law_puts {A} `{Yaml A} d rec :
  new_law A d rec → record_Delete rec = true ∨ ∃ v : A, puts rec v ∧ ∀ s, stored_info s = record_info rec → True.
Proof. intros (_ & v & Hv). right. eauto. Qed.
Lemma fixed_law_puts {A} `{Yaml A} d rec :
  fixed_law A d rec → record_Delete rec = true ∨ ∃ v : A, puts rec v ∧ ∀ s, stored_info s = record_info rec → True.
Proof. intros (v & Hv & _). right. eauto. Qed.

Lemma wf_step e d d' : wf d → call_step e d d' → wf d'.
Proof.
  intros Hwf Hstep. pose proof Hwf as [H1 H2 H3 H4 H5 H6 H7 H8]. split; (eapply decodes_step; [done..|]); intros k rec Hl [Hb Hk].
  - destruct (lawful_job _ _ _ Hl Hb) as (j & Hj & Hid & Hi & _). right. exists j. split; [done|]. intros s ->. split; congruence.
  - destruct (lawful_plan _ _ _ Hl Hb) as [? _|p Hp Hid _ _|p id key hash Hp Hid _ _ _]; [by left|right..]; eexists; (split; [done|]); simpl; congruence.
  - destruct (lawful_auth _ _ _ Hl Hb) as (a & claims & f & Ha & Hid & _). right. exists a. split; [done|]. congruence.
  - by eapply new_law_puts, lawful_idempotency.
  - by eapply new_law_puts, lawful_plan_idempotency.
  - by eapply fixed_law_puts, lawful_mount_binding.
  - by eapply fixed_law_puts, lawful_grant_binding.
  - destruct (lawful_invite _ _ _ Hl Hb) as (v & Hv & _). right. eauto.
Qed.
Lemma wf_steps d d' : wf d → rtc step d d' → wf d'.
Proof. intros Hwf. induction 1 as [|d1 d2 d3 [e Hs] _ IH]; [done|]. by eapply IH, wf_step. Qed.

(** What holds of the records at an identity, once, holds for good if no lawful
    record ends it. *)
Lemma steps_inv (Q : db → Prop) d d' : wf d → (∀ e d d', wf d → call_step e d d' → Q d → Q d') → rtc step d d' → Q d → Q d'.
Proof.
  intros Hwf Hstep Hr. induction Hr as [|d1 d2 d3 [e Hs] _ IH]; [done|]. intros HQ. apply IH; [by eapply wf_step|by eapply Hstep].
Qed.

(** What a step does to a job. *)
Lemma job_stepped e d d' k : wf d → call_step e d d' →
  value_at Job d' "jobs" k = value_at Job d "jobs" k ∨
  ∃ j, value_at Job d' "jobs" k = Some j ∧ job_step e d (value_at Job d "jobs" k) j.
Proof.
  intros Hwf Hs. destruct (step_at _ _ _ Hwf Hs "jobs" k) as [E|(rec & Hl & [Hb Hk] & E)]; [left; by apply value_same|].
  destruct (lawful_job _ _ _ Hl Hb) as (j & Hj & _ & _ & Hstep). right. exists j. rewrite Hk in Hstep. split; [by eapply puts_value|done].
Qed.
End Life.
