(* ===== verification/StateSafety.v ===== *)
(** What holds of the node's state after any sequence of its operations. *)
From S2P Require Import Prelude GoLib Entities GoTime FileTypes SignedAuth StateProg StateRecords.
From S2P Require Import StateAuthorizations StateJobs StatePlans StateUploads StatePeers StateProgFacts.
From S2P Require Import StateLaws StateJobsFacts StatePeersFacts StateLife.
From stdpp Require Import options.
#[local] Set Default Proof Using "Type*".
Local Open Scope Z_scope.

(** Two lists of job states that have no state in common. *)
Ltac states_differ := exfalso; rewrite !list_elem_of_In in *; simpl in *; intuition congruence.

Section Safety.
Context {U : Unicode} {C : Crypto}.
Context {YJob : Yaml Job} {YItem : Yaml JobItem} {YEvent : Yaml JobEvent} {YIdem : Yaml idempotencyRecord}.
Context {YPlan : Yaml DestructivePlan} {YAuth : Yaml JobAuthorization} {YString : Yaml string} {YInvite : Yaml inviteRecord}.
Context {YUpload : Yaml UploadSession} {YTrash : Yaml TrashItem} {YToken : Yaml OperationalTokenState} {YTrust : Yaml ManagedTrust}.
Context {YRequest : Yaml requestRecord} {YPeer : Yaml Peer} {YGrant : Yaml TransferPathGrant} {YMount : Yaml Mount}.
Context {YConf : Yaml configurationRecord} {YAudit : Yaml auditRecord} {YBool : Yaml bool}.
Context `{!Faithful Job} `{!Faithful DestructivePlan} `{!Faithful JobAuthorization} `{!Faithful idempotencyRecord}.
Context `{!Faithful string} `{!Faithful inviteRecord}.
Implicit Types (e : env) (d : db) (j old : Job) (k : string).

(** * Facts of single steps of a job *)

(** What an accepted update of a job may change. *)
Record updated old j : Prop := {
  updated_plan : Job_DestructivePlanID j = Job_DestructivePlanID old;
  updated_bound : Job_SignedAuthBound j = Job_SignedAuthBound old;
  updated_requires : Job_RequiresSignedAuth j = Job_RequiresSignedAuth old;
  updated_scope : secured old = true → scope j = scope old;
  updated_canceled : secured old = true → Job_State old = "canceled" → Job_State j = "canceled";
  updated_state : secured old = true →
    executableSecuredJob old = true ∧ executing old = true ∨
    executableSecuredJob old = true ∧ Job_State old ∈ ["completed"; "completed_with_warnings"] ∧ Job_State j = Job_State old ∨
    executableSecuredJob old = true ∧ (Job_State old ∉ ["completed"; "completed_with_warnings"]) ∧
      Job_State j ∈ ["waiting_validation"; "paused"; "canceled"; "queued"] ∨
    executableSecuredJob old = false ∧ Job_State j ∈ ["waiting_validation"; "paused"; "canceled"];
}.

Lemma validSecuredJobUpdate_inv old j : validSecuredJobUpdate old j = true → updated old j.
Proof.
  unfold validSecuredJobUpdate. destruct (_ || _) eqn:E1; [done|]. bool_to_prop.
  destruct (_ && _ && _) eqn:E2 in |- *.
  { bool_to_prop. assert (secured old = false) as Hs.
    { unfold secured. rewrite bool_decide_true by done. simpl. by apply orb_false_iff. }
    intros _. split; congruence. }
  destruct (_ || _) eqn:E3 in |- *; [done|]. bool_to_prop.
  destruct (_ && _) eqn:E4 in |- *; [done|]. intros Hst. split; try congruence.
  - intros _. unfold scope, job_options. congruence.
  - intros _ Hc. rewrite Hc, bool_decide_true in E4 by done. simpl in E4. by apply negb_false_iff, bool_decide_eq_true in E4.
  - intros _. destruct (executableSecuredJob old); [|right; right; right; by bool_to_prop]. unfold executing.
    destruct (Job_State old ∈b ["running"; _; _]); [by left|].
    destruct (Job_State old ∈b ["completed"; _]) eqn:Hc; right; [left|right; left]; bool_to_prop; done.
Qed.

(** A secured job goes on being about the same thing, whatever step it takes. *)
Lemma job_step_secured e d old j : job_step e d (Some old) j → secured old = true →
  secured j = true ∧ scope j = scope old ∧ (Job_SignedAuthBound old = true → Job_SignedAuthBound j = true).
Proof.
  intros Hstep Hs. enough (scope j = scope old ∧ (Job_SignedAuthBound old = true → Job_SignedAuthBound j = true)) as [Hsc Hb].
  { split_and!; [|done..]. pose proof (f_equal (λ x, x.2.1.1.1) Hsc) as Hp. pose proof (f_equal (λ x, x.2.1.1.2) Hsc) as Hr. simpl in Hp, Hr. unfold secured in *. rewrite Hp, Hr.
    destruct (_ ≠s _); [done|]. simpl in *. destruct (Job_SignedAuthBound old); [by rewrite Hb|]. simpl in Hs. rewrite Hs. apply orb_true_r. }
  inversion Hstep; subst; try (split; congruence).
  - rename select (validSecuredJobUpdate _ _ = true) into Hv. destruct (validSecuredJobUpdate_inv _ _ Hv) as [? Hb ? Hsc _ _].
    specialize (Hsc Hs). split; [exact Hsc|]. simpl. congruence.
  - rewrite scope_started. split; [done|]. intros Hb. unfold started. by destruct (Job_StartedAt _).
Qed.

Lemma secured_started j now : secured (started j now) = secured j.
Proof. unfold started. by destruct (Job_StartedAt _). Qed.

(** A step into execution is a claim under a verified lease. *)
Lemma job_step_executing e d (old : option Job) j : job_step e d old j → secured j = true → executing j = true →
  ∃ j0, old = Some j0 ∧ (executing j0 = true ∨
    Job_State j0 = "queued" ∧ executableSecuredJob j0 = true ∧ due e j0 = true ∧ ∃ lease, leased e d j0 lease).
Proof.
  intros Hstep Hs Hx. assert (∀ j, Job_State j = "waiting_validation" → executing j = false) as Hw by (intros j0 E; unfold executing; by rewrite E).
  inversion Hstep as [j0 Hf|j0 ?? Hst|j0 ? Hst|j0 j1 Hv|j0 now Hq Hn|j0 lease Hq Hex Hdue Hl|j0 j1 ????? Hst|j0 j1 ??? Hst|j0 j1 ????? Hst
    |j0 j1 ???????? Hsc Hb Hst]; subst; try (by rewrite Hw in Hx).
  - unfold secured_fields in Hf. unfold secured in Hs. by apply orb_false_iff in Hf as [[Hf _]%orb_false_iff _]; rewrite Hf in Hs.
  - exists j0. split; [done|]. left. destruct (validSecuredJobUpdate_inv _ _ Hv) as [Hp Hb Hr _ _ Hst].
    assert (secured j0 = true) as Hs0 by (change (secured j1 = true) in Hs; unfold secured in *; by rewrite <-Hp, <-Hb, <-Hr).
    change (executing j1 = true) in Hx. unfold executing in Hx. bool_to_prop. change (Job_State (_ <| Job_CreatedAt := _ |>)) with (Job_State j1) in *.
    destruct (Hst Hs0) as [[_ ?]|[(_ & Hc & E)|[(_ & _ & Hn)|(_ & Hn)]]]; [done|rewrite E in Hx|..]; states_differ.
  - rewrite secured_started in Hs. congruence.
  - exists j0. split; [done|]. right. eauto.
  - unfold executing in Hx. by rewrite Hst in Hx.
  - unfold executing in Hx. by destruct Hst as [[Hst _]|[Hst|[Hst _]]]; rewrite Hst in Hx.
Qed.

(** * The invariant and the life cycle of jobs *)

(** C13. Every operation of the store, in any context and with any fault, keeps
    the state well formed: records decode, jobs, plans and leases are stored
    under their own ID, and the index entry of a job has its peer, creation time
    and state. *)
Theorem operations_preserve_wf e d d' : wf d → call_step e d d' → wf d'.
Proof. apply wf_step. Qed.

(** C14. Every operation of the store moves each job by at most one step of the
    life cycle; no operation removes a job. *)
Theorem job_lifecycle e d d' k : wf d → call_step e d d' →
  value_at Job d' "jobs" k = value_at Job d "jobs" k ∨
  ∃ j, value_at Job d' "jobs" k = Some j ∧ job_step e d (value_at Job d "jobs" k) j.
Proof. apply job_stepped. Qed.

(** C15. A secured job is carried out only under a verified lease: when an
    operation leaves a secured job executing that was not, the job was queued
    and due, and the lease recorded for it, whose binding matches the job, was
    verified by that operation with the node's identity, trusted keys and time;
    for a destructive job its plan was consumed by this very job and belongs to
    the actor of the lease. *)
Theorem secured_jobs_need_a_lease e d d' k j : wf d → call_step e d d' →
  value_at Job d' "jobs" k = Some j → secured j = true → executing j = true →
  ∃ old, value_at Job d "jobs" k = Some old ∧
    (executing old = true ∨
     Job_State old = "queued" ∧ executableSecuredJob old = true ∧ due e old = true ∧ ∃ lease, leased e d old lease).
Proof.
  intros Hwf Hs Hj Hsec Hx. destruct (job_stepped _ _ _ k Hwf Hs) as [E|(j' & Hj' & Hstep)].
  - exists j. rewrite <-E. auto.
  - rewrite Hj in Hj'. injection Hj' as <-. by eapply job_step_executing.
Qed.

(** What a secured job is about never changes: after any sequence of
    operations the job is still there, with the same type, paths, mounts, peer,
    grants, options, plan and actor, and stays bound once it is. *)
Theorem secured_scope_is_fixed d d' k j : wf d → rtc step d d' →
  value_at Job d "jobs" k = Some j → secured j = true →
  ∃ j', value_at Job d' "jobs" k = Some j' ∧ secured j' = true ∧ scope j' = scope j ∧
        (Job_SignedAuthBound j = true → Job_SignedAuthBound j' = true).
Proof.
  intros Hwf Hr Hj Hs. refine (steps_inv (λ d', ∃ j', value_at Job d' "jobs" k = Some j' ∧ secured j' = true ∧ scope j' = scope j ∧
        (Job_SignedAuthBound j = true → Job_SignedAuthBound j' = true)) _ _ Hwf _ Hr _); [|by eauto].
  intros e d1 d2 Hwf1 Hstep (j1 & Hj1 & Hs1 & Hsc & Hb). destruct (job_stepped _ _ _ k Hwf1 Hstep) as [E|(j2 & Hj2 & Hst)].
  - exists j1. by rewrite E.
  - rewrite Hj1 in Hst. destruct (job_step_secured _ _ _ _ Hst Hs1) as (Hs2 & Hsc2 & Hb2). exists j2.
    split_and!; [done..|congruence|auto].
Qed.

(** The end of a secured job. *)
Definition ended j : bool :=
  secured j && ((Job_State j =s "canceled") ||
                executableSecuredJob j && (Job_State j ∈b ["completed"; "completed_with_warnings"])).

Lemma executable_scope j j' : scope j' = scope j → (Job_SignedAuthBound j = true → Job_SignedAuthBound j' = true) →
  executableSecuredJob j = true → executableSecuredJob j' = true.
Proof.
  intros Hsc Hb. pose proof (f_equal (λ x, x.2.1.1.1) Hsc) as Hp. pose proof (f_equal (λ x, x.1.1.1.1.1.1.1.1) Hsc) as Ht. simpl in Hp, Ht.
  unfold executableSecuredJob, securedJobKind. rewrite Hp, Ht. intros [H1 H2]%andb_true_iff. by rewrite Hb.
Qed.

Lemma job_step_ended e d old j : job_step e d (Some old) j → ended old = true → ended j = true ∧ Job_State j = Job_State old.
Proof.
  intros Hstep [Hs Hend]%andb_true_iff. destruct (job_step_secured _ _ _ _ Hstep Hs) as (Hsj & Hsc & Hb).
  enough (Job_State j = Job_State old) as E.
  { split; [|done]. unfold ended. rewrite Hsj, E. simpl. apply orb_true_iff in Hend as [->|[Hx ->]%andb_true_iff]; [done|].
    rewrite (executable_scope _ _ Hsc Hb Hx). simpl. apply orb_true_r. }
  assert (Job_State old ∈ ["canceled"; "completed"; "completed_with_warnings"]) as Hst.
  { apply orb_true_iff in Hend as [E|[_ E]%andb_true_iff]; bool_to_prop; [rewrite E; left|by right]. }
  clear Hsj Hsc Hb. inversion Hstep; subst; try states_differ.
  rename select (validSecuredJobUpdate _ _ = true) into Hv. destruct (validSecuredJobUpdate_inv _ _ Hv) as [_ _ _ _ Hcan Hup].
  change (Job_State j0 = Job_State old). apply orb_true_iff in Hend as [Hc|[Hx Hc]%andb_true_iff]; bool_to_prop; [rewrite Hc; by apply Hcan|].
  destruct (Hup Hs) as [[_ Hr]|[(_ & _ & E)|[(_ & Hn & _)|(Hn & _)]]]; [|done|done|congruence].
  unfold executing in Hr. bool_to_prop. states_differ.
Qed.

(** A secured job that has ended stays ended: canceled jobs stay canceled,
    completed jobs stay completed, after any sequence of operations. *)
Theorem ended_jobs_stay_ended d d' k j : wf d → rtc step d d' → value_at Job d "jobs" k = Some j → ended j = true →
  ∃ j', value_at Job d' "jobs" k = Some j' ∧ Job_State j' = Job_State j.
Proof.
  intros Hwf Hr Hj He. enough (∃ j', value_at Job d' "jobs" k = Some j' ∧ ended j' = true ∧ Job_State j' = Job_State j) by naive_solver.
  refine (steps_inv (λ d', ∃ j', value_at Job d' "jobs" k = Some j' ∧ ended j' = true ∧ Job_State j' = Job_State j) _ _ Hwf _ Hr _); [|by eauto].
  intros e d1 d2 Hwf1 Hstep (j1 & Hj1 & He1 & E1). destruct (job_stepped _ _ _ k Hwf1 Hstep) as [E|(j2 & Hj2 & Hst)].
  - exists j1. by rewrite E.
  - rewrite Hj1 in Hst. destruct (job_step_ended _ _ _ _ Hst He1) as [He2 E2]. exists j2. split_and!; congruence.
Qed.

(** * Plans, leases, bindings, revocations and invites *)

(** Records no lawful record may replace. *)
Lemma kept b k d d' (s : stored) : wf d → rtc step d d' →
  (∀ e d rec, lawful e d rec → writes b k rec → at_ d b k ≠ Some s) → at_ d b k = Some s → at_ d' b k = Some s.
Proof.
  intros Hwf Hr Hno. apply (steps_inv (λ d, at_ d b k = Some s)); [done| |done].
  intros e d1 d2 Hwf1 Hstep E. destruct (step_at _ _ _ Hwf1 Hstep b k) as [E'|(rec & Hl & Hw & _)]; [congruence|].
  by destruct (Hno _ _ _ Hl Hw).
Qed.

Lemma plan_kept d d' k plan : wf d → rtc step d d' →
  value_at DestructivePlan d "destructive_plans" k = Some plan → DestructivePlan_ConsumedJobID plan ≠ "" →
  value_at DestructivePlan d' "destructive_plans" k = Some plan.
Proof.
  intros Hwf Hr Hp Hc. unfold value_at in Hp. destruct (at_ d "destructive_plans" k) as [s|] eqn:E; [|done]. simpl in Hp.
  enough (at_ d' "destructive_plans" k = Some s) as E' by (unfold value_at; by rewrite E').
  eapply kept; [done..| |exact E]. intros e d1 rec Hl [Hb Hk] E1.
  assert (value_at DestructivePlan d1 "destructive_plans" k = Some plan) as Hv by (unfold value_at; by rewrite E1).
  destruct (lawful_plan _ _ _ Hl Hb) as [_ (p & Hp1 & Hp2)|p _ _ Hn _|p id key hash _ _ Hp1 Hp2 _]; rewrite Hk in *; congruence.
Qed.

(** A plan is used once: after a job has consumed it, no sequence of
    operations changes or removes it, so it names that job for good. *)
Theorem consumed_plans_are_final d d' k plan : wf d → rtc step d d' →
  value_at DestructivePlan d "destructive_plans" k = Some plan → DestructivePlan_ConsumedJobID plan ≠ "" →
  value_at DestructivePlan d' "destructive_plans" k = Some plan.
Proof. apply plan_kept. Qed.

(** Leases only move forward: after any sequence of operations the lease of
    a job has the binding it was made with and a revision at least as high, and
    at the same revision it is the same lease. An envelope of an earlier
    revision can not come back. *)
Theorem leases_move_forward d d' k a : wf d → rtc step d d' →
  value_at JobAuthorization d "job_authorizations" k = Some a →
  ∃ a', value_at JobAuthorization d' "job_authorizations" k = Some a' ∧ auth_Binding a' = auth_Binding a ∧
        (Revision a < Revision a' ∨ a' = a).
Proof.
  intros Hwf Hr Ha. refine (steps_inv (λ d', ∃ a', value_at JobAuthorization d' "job_authorizations" k = Some a' ∧
    auth_Binding a' = auth_Binding a ∧ (Revision a < Revision a' ∨ a' = a)) _ _ Hwf _ Hr _); [|by eauto].
  intros e d1 d2 Hwf1 Hstep (a1 & Ha1 & Hb1 & Hrev). destruct (step_at _ _ _ Hwf1 Hstep "job_authorizations" k) as [E|(rec & Hl & [Hb Hk] & E)].
  - exists a1. by rewrite (value_same _ _ _ _ E).
  - destruct (lawful_auth _ _ _ Hl Hb) as (a2 & claims & f & Hp & _ & Hnext & _). rewrite Hk, Ha1 in Hnext.
    exists a2. split; [by eapply puts_value|]. destruct Hnext as (Hn1 & Hn2 & _). split; [congruence|]. left. destruct Hrev as [?| ->]; lia.
Qed.

(** What a mount or grant ID is bound to never changes, whatever
    configurations are applied. *)
Theorem bindings_are_permanent b d d' k v : b = "mount_bindings" ∨ b = "grant_bindings" → wf d → rtc step d d' →
  value_at string d b k = Some v → value_at string d' b k = Some v.
Proof.
  intros Hb Hwf Hr. apply (steps_inv (λ d, value_at string d b k = Some v)); [done| |done].
  intros e d1 d2 Hwf1 Hstep Hv. destruct (step_at _ _ _ Hwf1 Hstep b k) as [E|(rec & Hl & [Hb' Hk] & E)].
  - by rewrite (value_same _ _ _ _ E).
  - assert (fixed_law string d1 rec) as (v' & Hp & Hold).
    { destruct Hb as [-> | ->]; [by eapply lawful_mount_binding|by eapply lawful_grant_binding]. }
    rewrite Hb', Hk in Hold. assert (v' = v) as ->; [|by eapply puts_value].
    destruct Hold as [Hn|]; [|congruence]. by rewrite value_at_none in Hv.
Qed.

Lemma triple_prepareGrant_revoked d P g : is_Some (at_ d "revoked_grants" (TransferPathGrant_ID g)) →
  triple d P (prepareGrant g) (λ check, TransferPathGrant_Enabled (check_grant check) = false ∧ checkPath check = false).
Proof.
  intros Hr. unfold prepareGrant. cbv zeta. tstep.
  - tstep. split; [|done]. by apply negb_true_iff.
  - tstep; [|by tstep]. rename select (at_ _ _ _ = None) into Hn.
    change (at_ d "revoked_grants" (TransferPathGrant_ID g) = None) in Hn. rewrite Hn in Hr. by destruct Hr.
Qed.

Lemma view_result {A} o ctx (p : prog A) d d' a P Q : triple d P p Q → db_view o ctx p d = (d', Ok a) → Q a.
Proof.
  intros Ht. unfold db_view. destruct (db_available ctx d); [|done]. destruct (run o p d []) as [[d1 tx] r] eqn:E.
  intros [= _ ->]. eapply Ht; [|exact E|]; done.
Qed.

(** A revoked grant is never effective again: once a grant ID is revoked,
    after any sequence of operations, reading a grant with that ID yields one
    that is disabled, and its path is not even checked. *)
Theorem revoked_grants_stay_disabled d d' d'' o ctx g check : wf d → rtc step d d' →
  is_Some (at_ d "revoked_grants" (TransferPathGrant_ID g)) → db_view o ctx (prepareGrant g) d' = (d'', Ok check) →
  TransferPathGrant_Enabled (check_grant check) = false ∧ checkPath check = false.
Proof.
  intros Hwf Hr Hrev Hv. refine (view_result _ _ _ _ _ _ (λ _, True) _ (triple_prepareGrant_revoked _ _ _ _) Hv).
  refine (steps_inv (λ d, is_Some (at_ d "revoked_grants" (TransferPathGrant_ID g))) _ _ Hwf _ Hr Hrev).
  intros e d1 d2 Hwf1 Hstep H1. destruct (step_at _ _ _ Hwf1 Hstep "revoked_grants" (TransferPathGrant_ID g)) as [E|(rec & Hl & [Hb _] & E)];
    rewrite E; [done|]. unfold written. by rewrite (lawful_revoked _ _ _ Hl Hb).
Qed.

(** An invite that is settled. *)
Definition settled d k : Prop := ∃ v, value_at inviteRecord d "invites" k = Some v ∧ PairingInvite_Status (Invite v) ≠ "pending".

Lemma settled_step e d d' k : wf d → call_step e d d' → settled d k → settled d' k.
Proof.
  intros Hwf Hstep (v & Hv & Hs). destruct (step_at _ _ _ Hwf Hstep "invites" k) as [E|(rec & Hl & [Hb Hk] & E)].
  - exists v. by rewrite (value_same _ _ _ _ E).
  - destruct (lawful_invite _ _ _ Hl Hb) as (v' & Hp & [Hn|Hs']); rewrite ?Hk in *.
    + by rewrite value_at_none in Hv.
    + exists v'. split; [by eapply puts_value|done].
Qed.

(** A pairing invite trusts at most one peer: once it is consumed or
    revoked, no later approval of it succeeds or records anything, after any
    sequence of operations. *)
Theorem settled_invites_cannot_be_approved d d' d'' k hash peer now o ctx r : wf d → rtc step d d' → settled d k →
  db_call o ctx (ApprovePairingInvite k hash peer now) d' = (d'', r) → (∃ err, r = Err err) ∧ ∀ b i, at_ d'' b i = at_ d' b i.
Proof.
  intros Hwf Hr Hs. assert (settled d' k) as (v & Hv & Hp).
  { refine (steps_inv (λ d, settled d k) _ _ Hwf _ Hr Hs). intros e d1 d2. apply settled_step. }
  assert (triple d' (λ _, False) (r ← get inviteRecord "invites" k;
          let v := Invite r in
          _ ← refuse_if ((PairingInvite_Status v ≠s "pending") || (invite_SecretHash r ≠s hash) || After now (PairingInvite_ExpiresAt v)
                || (PairingInvite_TargetNodeID v ≠s "") && (PairingInvite_TargetNodeID v ≠s Peer_NodeID peer))
                (errors_New "invite cannot be approved");
          _ ← trust peer;
          put_invite k (r <| Invite := v <| PairingInvite_Status := "consumed" |> |>)) (λ _, False)) as Ht.
  { tstep. tstep. exfalso. bool_to_prop. congruence. }
  simpl. destruct (db_update _ _ _ _) as [d1 [u|err]] eqn:E; intros [= <- <-].
  - by destruct (update_result _ _ _ _ _ _ _ _ Ht E).
  - split; [simpl; eauto|]. intros b i. by destruct (update_records _ _ _ _ _ _ _ _ Ht E b i) as [?|(? & [] & _)].
Qed.

(** * Idempotent creation *)

(** The answer of a creation under a key somebody used. *)
Lemma triple_create_replayed d j items key hash v : wf d → key ≠ "" → value_at idempotencyRecord d "idempotency" key = Some v →
  match CreateJobWithItemsHashed j items key hash with
  | Update p post => triple d (λ _, False) p (λ a, ∀ j' b', post a = Ok (j', b') →
      b' = true ∧ Job_ID j' = JobID v ∧ (hash = "" ∨ hash = RequestHash v))
  | Reply (Err _) => True
  | _ => False
  end.
Proof.
  intros Hwf Hkey Hv. unfold CreateJobWithItemsHashed, guarded. destruct (secured_fields j); [done|].
  rewrite (bool_decide_false (key = "")) by done. cbn [negb]. eapply triple_try_get_wf; [by apply wf_idempotency| |].
  - intros v' Hv'. cbv beta iota. assert (v' = v) as -> by congruence. tstep. tstep. tstep. tstep. intros j' b' [= <- <-].
    split_and!; [done|by eapply wf_job|]. rename select (_ && _ = false) into Hh.
    apply andb_false_iff in Hh as [Hh|Hh]; bool_to_prop; auto.
  - intros err Hn. by rewrite value_at_none in Hv.
Qed.

(** What a creation leaves: the key names the job it answered with, and, when the
    job is new, the request. *)
Lemma created_under_key o ctx d d' j items key hash j0 replayed : wf d → key ≠ "" →
  db_call o ctx (CreateJobWithItemsHashed j items key hash) d = (d', Ok (j0, replayed)) →
  ∃ v, value_at idempotencyRecord d' "idempotency" key = Some v ∧ JobID v = Job_ID j0 ∧ (replayed = false → RequestHash v = hash).
Proof.
  intros Hwf Hkey Hcall. destruct (value_at idempotencyRecord d "idempotency" key) as [v|] eqn:Hv.
  - exists v. pose proof (triple_create_replayed d j items key hash v Hwf Hkey Hv) as Ht. unfold CreateJobWithItemsHashed, guarded in *.
    destruct (secured_fields j); [done|]. cbn [db_call] in Hcall.
    destruct (db_update _ _ _ _) as [d1 [x|]] eqn:E; cbn in Hcall; [|done]. injection Hcall as -> ->.
    destruct (update_result _ _ _ _ _ _ _ _ Ht E j0 replayed) as (-> & Hid & _); [done|]. split_and!; [|done..].
    rewrite <-Hv. apply value_same. by destruct (update_records _ _ _ _ _ _ _ _ Ht E "idempotency" key) as [?|(? & [] & _)].
  - assert (at_ d "idempotency" key = None) as Hn by exact (decodes_none _ _ _ _ (wf_idempotency _ Hwf) Hv).
    unfold CreateJobWithItemsHashed, guarded in *. destruct (secured_fields j); [done|].
    rewrite (bool_decide_false (key = "")) in Hcall by done. cbn [db_call negb] in Hcall.
    destruct (db_update _ _ _ _) as [d1 [x|]] eqn:E; cbn in Hcall; [|done]. injection Hcall as -> ->.
    apply update_Ok in E as (d1 & tx & Hrun & Hat). unfold at_ in Hn.
    unfold try_get in Hrun. cbn [mbind prog_bind run] in Hrun. rewrite Hn in Hrun. cbn [mbind prog_bind run] in Hrun.
    rewrite bool_decide_false in Hrun by (intros []; done).
    do 3 (apply run_bind_Ok in Hrun as (? & ? & [] & _ & Hrun)).
    apply run_bind_Ok in Hrun as (d4 & tx4 & [] & Hput & [= <- <- <- <-]).
    apply run_put_Ok in Hput as (_ & data & Hm & ->). exists {| JobID := Job_ID j; RequestHash := hash |}. split_and!; [|done..].
    eapply (puts_value (mkrecord "idempotency" key "" "" "" false data)); [by split|]. rewrite Hat. by apply after_tx_last.
Qed.

(** Creating a job is idempotent: after a creation under a key answered with
    a job, and any sequence of operations, a creation under the same key records
    nothing and answers, if at all, with that job as a replay; a different
    request under the key is refused. *)
Theorem creation_is_idempotent d d1 d2 d3 j items key hash j0 replayed j2 items2 hash2 o ctx o2 ctx2 r : wf d → key ≠ "" →
  db_call o ctx (CreateJobWithItemsHashed j items key hash) d = (d1, Ok (j0, replayed)) → rtc step d1 d2 →
  db_call o2 ctx2 (CreateJobWithItemsHashed j2 items2 key hash2) d2 = (d3, r) →
  (∀ b k, at_ d3 b k = at_ d2 b k) ∧
  (∀ j' b', r = Ok (j', b') → b' = true ∧ Job_ID j' = Job_ID j0 ∧ (replayed = false → hash2 = "" ∨ hash2 = hash)).
Proof.
  intros Hwf Hkey Hfirst Hr Hsecond. pose (e := mkenv "" ∅ 0). assert (wf d1) as Hwf1 by (eapply (wf_step e); [done|]; econstructor; [apply OpCreateJob|done]).
  destruct (created_under_key _ _ _ _ _ _ _ _ _ _ Hwf Hkey Hfirst) as (v & Hv & Hid & Hh).
  assert (value_at idempotencyRecord d2 "idempotency" key = Some v) as Hv2.
  { unfold value_at in Hv. destruct (at_ d1 "idempotency" key) as [s|] eqn:E; [|done]. simpl in Hv.
    enough (at_ d2 "idempotency" key = Some s) as E' by (unfold value_at; by rewrite E').
    eapply kept; [done..| |exact E]. intros e1 d4 rec Hl [Hb Hk]. destruct (lawful_idempotency _ _ _ Hl Hb) as [Hn _]. congruence. }
  pose proof (triple_create_replayed d2 j2 items2 key hash2 v (wf_steps _ _ Hwf1 Hr) Hkey Hv2) as Ht.
  destruct (CreateJobWithItemsHashed j2 items2 key hash2) as [[|err]|B p post| |]; try done; cbn [db_call] in Hsecond.
  { injection Hsecond as <- <-. done. }
  destruct (db_update _ _ _ _) as [d4 [x|err]] eqn:E; cbn in Hsecond; injection Hsecond as <- <-.
  - split; [intros b k; by destruct (update_records _ _ _ _ _ _ _ _ Ht E b k) as [?|(? & [] & _)]|].
    intros j' b' Hpost. destruct (update_result _ _ _ _ _ _ _ _ Ht E j' b' Hpost) as (-> & Hj & Hreq).
    split_and!; [done|congruence|]. intros Hf. rewrite <-(Hh Hf). done.
  - split; [intros b k; by destruct (update_records _ _ _ _ _ _ _ _ Ht E b k) as [?|(? & [] & _)]|done].
Qed.

(** * One job per confirmed plan *)

Lemma triple_accept_replayed d id st si token tree dex dd job key hash now plan : wf d →
  value_at DestructivePlan d "destructive_plans" id = Some plan → DestructivePlan_ConsumedJobID plan ≠ "" →
  match AcceptDestructivePlan id st si token tree dex dd job key hash now with
  | Update p post => triple d (λ _, False) p (λ a, ∀ j' b', post a = Ok (j', b') →
      b' = true ∧ Job_ID j' = DestructivePlan_ConsumedJobID plan ∧ key = DestructivePlan_IdempotencyKey plan ∧
      hash = DestructivePlan_RequestHash plan)
  | Reply (Err _) => True
  | _ => False
  end.
Proof.
  intros Hwf Hp Hc. unfold AcceptDestructivePlan, guarded. match goal with |- context [if ?c then Reply _ else _] => destruct c; [done|] end. tstep. assert (v = plan) as -> by congruence.
  tstep. rewrite (bool_decide_false (DestructivePlan_ConsumedJobID plan = "")) by done. cbn [negb]. tstep. tstep. tstep.
  intros j' b' [= <- <-]. bool_to_prop. split_and!; [done|by eapply wf_job|done..].
Qed.

(** A plan accepted for a new job names that job and its request. *)
Lemma accepted_plan d d' o ctx id st si token tree dex dd job key hash now j0 : wf d →
  db_call o ctx (AcceptDestructivePlan id st si token tree dex dd job key hash now) d = (d', Ok (j0, false)) →
  ∃ plan, value_at DestructivePlan d' "destructive_plans" id = Some plan ∧ DestructivePlan_ConsumedJobID plan = Job_ID j0 ∧
    Job_ID j0 ≠ "" ∧ DestructivePlan_IdempotencyKey plan = key ∧ DestructivePlan_RequestHash plan = hash.
Proof.
  intros Hwf. unfold AcceptDestructivePlan, guarded. match goal with |- context [if ?c then Reply _ else _] => destruct c; [done|] end. cbn [db_call].
  destruct (db_update _ _ _ _) as [d1 [x|]] eqn:E; cbn; [|done]. intros [= -> ->].
  apply update_Ok in E as (d1 & tx & Hrun & Hat).
  apply run_bind_Ok in Hrun as (d2 & tx2 & plan & Hget & Hrun).
  destruct (triple_get d (λ _, True) "destructive_plans" id _ _ _ _ _ _ (reflexivity _) Hget) as [_ Hplan]. specialize (Hplan _ eq_refl).
  apply run_bind_Ok in Hrun as (d3 & tx3 & [] & _ & Hrun). case_match.
  { apply run_bind_Ok in Hrun as (? & ? & [] & _ & Hrun). apply run_bind_Ok in Hrun as (? & ? & ? & _ & Hrun). done. }
  apply run_bind_Ok in Hrun as (d4 & tx4 & [] & Hguard & Hrun). unfold refuse_if in Hguard at 1. case_match; [done|]. bool_to_prop.
  do 3 (apply run_bind_Ok in Hrun as (? & ? & ? & _ & Hrun)). cbv zeta in Hrun.
  apply run_bind_Ok in Hrun as (d5 & tx5 & [] & Hput1 & Hrun). apply run_put_Ok in Hput1 as (_ & data1 & Hm1 & ->).
  apply run_bind_Ok in Hrun as (d6 & tx6 & [] & Hput2 & Hrun). unfold put_job in Hput2. apply run_put_Ok in Hput2 as (_ & data2 & Hm2 & ->).
  apply run_bind_Ok in Hrun as (d7 & tx7 & [] & Hput3 & [= <- <- <-]). apply run_put_Ok in Hput3 as (_ & data3 & Hm3 & ->).
  pose proof (wf_plan _ _ _ Hwf Hplan) as Hid. eexists. split.
  { eapply (puts_value (mkrecord "destructive_plans" _ _ _ _ false data1)); [by split|]. rewrite Hat.
    rewrite after_tx_snoc_other by (by intros [? _]). rewrite after_tx_snoc_other by (by intros [? _]).
    apply after_tx_last. split; [done|exact Hid]. }
  split_and!; [done|by apply ValidKeyID_nonempty|done..].
Qed.

(** C16. A confirmed plan yields one job: after a plan was accepted for a new job,
    and any sequence of operations, accepting it again, by whoever and for
    whatever job, records nothing; it answers, if at all, with the first job,
    and only to the same idempotency key and request. *)
Theorem plans_are_accepted_once d d1 d2 d3 id st si token tree dex dd job key hash now j0 o ctx st2 si2 token2 tree2 dex2 dd2 job2 key2 hash2 now2 o2 ctx2 r : wf d →
  db_call o ctx (AcceptDestructivePlan id st si token tree dex dd job key hash now) d = (d1, Ok (j0, false)) → rtc step d1 d2 →
  db_call o2 ctx2 (AcceptDestructivePlan id st2 si2 token2 tree2 dex2 dd2 job2 key2 hash2 now2) d2 = (d3, r) →
  (∀ b k, at_ d3 b k = at_ d2 b k) ∧
  (∀ j' b', r = Ok (j', b') → b' = true ∧ Job_ID j' = Job_ID j0 ∧ key2 = key ∧ hash2 = hash).
Proof.
  intros Hwf Hfirst Hr Hsecond. pose (e := mkenv "" ∅ 0).
  assert (wf d1) as Hwf1 by (eapply (wf_step e); [done|]; econstructor; [apply OpAcceptPlan|done]).
  destruct (accepted_plan _ _ _ _ _ _ _ _ _ _ _ _ _ _ _ _ Hwf Hfirst) as (plan & Hp & Hc & Hne & Hk & Hh).
  assert (value_at DestructivePlan d2 "destructive_plans" id = Some plan) as Hp2 by (eapply plan_kept; [done..|congruence]).
  pose proof (triple_accept_replayed d2 id st2 si2 token2 tree2 dex2 dd2 job2 key2 hash2 now2 plan (wf_steps _ _ Hwf1 Hr) Hp2) as Ht.
  rewrite Hc in Ht. specialize (Ht Hne).
  destruct (AcceptDestructivePlan id st2 _ _ _ _ _ _ _ _ _) as [[|err]|B p post| |]; try done; cbn [db_call] in Hsecond.
  { injection Hsecond as <- <-. done. }
  destruct (db_update _ _ _ _) as [d4 [x|err]] eqn:E; cbn in Hsecond; injection Hsecond as <- <-.
  - split; [intros b k; by destruct (update_records _ _ _ _ _ _ _ _ Ht E b k) as [?|(? & [] & _)]|].
    intros j' b' Hpost. destruct (update_result _ _ _ _ _ _ _ _ Ht E j' b' Hpost) as (-> & Hj & Hk2 & Hh2). split_and!; congruence.
  - split; [intros b k; by destruct (update_records _ _ _ _ _ _ _ _ Ht E b k) as [?|(? & [] & _)]|done].
Qed.
End Safety.
