(* ===== verification/JobGuard.v ===== *)
(** job_authorization_guard.go of the node's state: the guard of a running job,
    a goroutine that polls the recorded lease and cancels the job's context.

    The keys are copied when the guard starts, so the guard is the lease it saw
    last, the policy context it started with, the cause its context was canceled
    with, and its goroutine: where it is, the ticker and the timer it made and the
    channels these write to. A channel holds at most the time it was written at.
    [guard_go] is the start of the goroutine, [select_turn] a turn of its loop,
    [timer_fire] and [ticker_fire] what the Go runtime does when a timer is due.
    The step relation of the world lets time pass up to the next deadline that is
    armed, and up to [lag] after a goroutine became ready to run. *)
From S2P Require Import Prelude GoLib Entities GoTime FileTypes SignedAuth SignedAuthFacts StateProg StateRecords.
From S2P Require Import StateAuthorizations StateJobs StatePlans StateUploads StatePeers StateProgFacts StateLaws StateJobsFacts StateLife.
From stdpp Require Import options.
#[local] Set Default Proof Using "Type*".
Local Open Scope Z_scope.

(** Where the goroutine is: created and not run yet, in its loop, returned. *)
Inductive goroutine := Created (at_ : time) | Looping | Returned.
Record guard := mkguard {
  current : JobAuthorization; policy : string; cause : option error; routine : goroutine;
  ticker : option time; ticker_C : option time;
  timer : option time; timer_C : option time;
}.
#[global] Instance guard_eta : Eta guard := λ g,
  mkguard (current g) (policy g) (cause g) (routine g) (ticker g) (ticker_C g) (timer g) (timer_C g).
Definition context_Canceled : error := errors_New "context canceled".

(** time.Until, a 64-bit duration that saturates, and the deadline of a timer set
    to a duration: at once for one that is not positive. *)
Definition Until (t now : time) : Z := Z.max (- 2 ^ 63) (Z.min (2 ^ 63 - 1) (t - now)).
Definition deadline (duration : Z) (now : time) : time := now + Z.max 0 duration.
Definition NewTicker (interval : Z) (now : time) (g : guard) : guard := g <| ticker := Some (now + interval) |> <| ticker_C := None |>.
Definition NewTimer (duration : Z) (now : time) (g : guard) : guard := g <| timer := Some (deadline duration now) |> <| timer_C := None |>.
(** As of Go 1.23 nothing is received from a timer's channel after Stop or Reset
    that was sent before; Stop tells whether it prevented a receive. *)
Definition timer_Stop (g : guard) : guard * bool :=
  (g <| timer := None |> <| timer_C := None |>, bool_decide (is_Some (timer g)) || bool_decide (is_Some (timer_C g))).
Definition timer_Reset (duration : Z) (now : time) (g : guard) : guard := g <| timer := Some (deadline duration now) |> <| timer_C := None |>.
(** The runtime at a deadline: a write to a channel that is full is dropped. *)
Definition timer_fire (now : time) (g : guard) : guard :=
  match timer g with
  | Some t => if t <=? now then g <| timer := None |> <| timer_C := Some (from_option id now (timer_C g)) |> else g
  | None => g
  end.
Definition ticker_fire (interval : Z) (now : time) (g : guard) : guard :=
  match ticker g with
  | Some t => if t <=? now then g <| ticker := Some (t + interval) |> <| ticker_C := Some (from_option id now (ticker_C g)) |> else g
  | None => g
  end.

Section Guard.
Context {U : Unicode} {C : Crypto}.
Context {YJob : Yaml Job} {YPlan : Yaml DestructivePlan} {YAuth : Yaml JobAuthorization}.
Context (jobID nodeID : string) (keys : gmap string string).
Implicit Types (g : guard) (now : time) (o : oracle) (d : db).

Definition guardJobAuthorization (o : oracle) (parent : Context) (interval : Z) now d : db * result (guard * filetypes.Filter) :=
  if (interval <=? 0) || (nanoseconds <? interval) then (d, Err ErrJobAuthorizationUnavailable) else
  let '(d', r) := db_call o parent (ValidateJobAuthorization jobID nodeID keys now) d in
  match r with
  | Err _ => (d', Err ErrJobAuthorizationUnavailable)
  | Ok (lease, filter) =>
    match signedauth.VerifyJobLease (Envelope lease) keys (auth_Binding lease) nodeID (Revision lease) now with
    | Err _ => (d', Err ErrJobAuthorizationUnavailable)
    | Ok (claims, _) => (d', Ok (mkguard lease (signedauth.claims_Context claims) None (Created now) None None None None, filter))
    end
  end.
Definition GuardJobAuthorization (o : oracle) (parent : Context) now d : db * result (guard * filetypes.Filter) :=
  guardJobAuthorization o parent 250000000 now d.

(** [cancel]: the first cause stays. *)
Definition cancel (e : error) g : guard := match cause g with None => g <| cause := Some e |> | Some _ => g end.
(** [return] of the goroutine, with what it deferred. *)
Definition return_ g : guard := g <| routine := Returned |> <| ticker := None |> <| timer := None |>.

(** The goroutine starts: its ticker and its timer. *)
Definition guard_go (interval : Z) now g : guard :=
  NewTimer (Until (auth_ExpiresAt (current g)) now) now (NewTicker interval now g) <| routine := Looping |>.

(** A turn of the loop after its [select]. *)
Definition poll (o : oracle) now g d : db * guard :=
  let '(d', r) := db_call o (cause g) (ValidateJobAuthorization jobID nodeID keys now) d in
  match r with
  | Err _ => (d', return_ (cancel ErrJobAuthorizationUnavailable g))
  | Ok (next, _) =>
    if (Revision next <? Revision (current g)) || (auth_Binding next ≠s auth_Binding (current g))
       || (Revision next =? Revision (current g)) && (Envelope next ≠s Envelope (current g))
    then (d', return_ (cancel ErrJobAuthorizationUnavailable g))
    else if negb (Revision next =? Revision (current g)) then
      match signedauth.VerifyJobLease (Envelope next) keys (auth_Binding next) nodeID (Revision next) now with
      | Err _ => (d', return_ (cancel ErrJobAuthorizationUnavailable g))
      | Ok (claims, _) =>
        if policy g ≠s signedauth.claims_Context claims then (d', return_ (cancel ErrJobAuthorizationChanged g))
        else
          let g := g <| current := next |> in
          let '(g, stopped) := timer_Stop g in
          let g := if stopped then g else g <| timer_C := None |> in
          (d', timer_Reset (Until (auth_ExpiresAt (current g)) now) now g)
      end
    else if negb (Before now (auth_ExpiresAt (current g))) then (d', return_ (cancel ErrJobAuthorizationUnavailable g))
    else (d', g)
  end.

(** What the [select] of the loop may take: the end of the context, a tick, the
    timer. *)
Inductive ready := Done | Tick | Timer.
Definition select_turn (c : ready) (o : oracle) now g d : option (db * guard) :=
  match routine g, c with
  | Looping, Done => if cause g is Some _ then Some (d, return_ g) else None
  | Looping, Tick => _ ← ticker_C g; Some (poll o now (g <| ticker_C := None |>) d)
  | Looping, Timer => _ ← timer_C g; Some (poll o now (g <| timer_C := None |>) d)
  | _, _ => None
  end.

(** * What a check establishes *)

(** The job [jobID] of [d] may run at [now] under the lease of the guard, with
    the filter [f]: the lease is recorded and verifies, its signed policy context
    is the guard's, [f] is what that context decodes to, and it has not expired. *)
Record guarded_by d now g (f : filetypes.Filter) : Prop := {
  gb_job : ∃ job lease, value_at Job d "jobs" jobID = Some job ∧ Job_State job ∈ ["queued"; "running"; "waiting_validation"] ∧
    leased (mkenv nodeID keys now) d job (lease, f) ∧
    Revision lease = Revision (current g) ∧ Envelope lease = Envelope (current g) ∧ auth_Binding lease = auth_Binding (current g);
  gb_policy : filetypes.DecodeContext (policy g) = Ok f;
  gb_claims : ∃ claims, signedauth.VerifyJobLease (Envelope (current g)) keys (auth_Binding (current g)) nodeID (Revision (current g)) now
    = Ok (claims, f) ∧ signedauth.claims_Context claims = policy g ∧ signedauth.ExpiresAt claims = signedauth.Unix (auth_ExpiresAt (current g));
  gb_expiry : now < auth_ExpiresAt (current g);
}.

Lemma validate_sound_call o ctx now d d' lease f :
  db_call o ctx (ValidateJobAuthorization jobID nodeID keys now) d = (d', Ok (lease, f)) →
  ∃ job, value_at Job d "jobs" jobID = Some job ∧ Job_State job ∈ ["queued"; "running"; "waiting_validation"] ∧
    leased (mkenv nodeID keys now) d job (lease, f).
Proof.
  unfold ValidateJobAuthorization, guarded. destruct (_ || _); [by intros [= _]|]. cbn [db_call]. unfold db_view.
  destruct (db_available ctx d) as [u0|]; [|by intros [= _]]. destruct (run _ _ d []) as [[d1 tx] r] eqn:E. intros [= <- Hr].
  match type of E with run _ ?p _ _ = _ => assert (triple d (λ _, True) p (λ l, ∃ job, value_at Job d "jobs" jobID = Some job ∧
    Job_State job ∈ ["queued"; "running"; "waiting_validation"] ∧ leased (mkenv nodeID keys now) d job l)) as Ht end.
  { eapply triple_bind; [apply triple_get|]. intros a Hjob. cbv beta in *. eapply triple_bind; [apply triple_refuse_if|]. intros u Hstate. cbv beta in *.
    eapply triple_bind; [exact (triple_verifiedJobLease (mkenv nodeID keys now) d _ a)|]. intros l Hl.
    eapply triple_conseq; [apply triple_lift|]. intros x ->. exists a. apply negb_false_iff, bool_decide_eq_true in Hstate. done. }
  destruct (Ht o d [] d1 tx r ltac:(done) E) as [_ Hok]. destruct r as [x|e]; [|done]. simpl in Hr. simplify_eq. by apply Hok.
Qed.

Lemma lease_claims now lease claims f :
  signedauth.VerifyJobLease (Envelope lease) keys (auth_Binding lease) nodeID (Revision lease) now = Ok (claims, f) →
  filetypes.DecodeContext (signedauth.claims_Context claims) = Ok f ∧ signedauth.Unix now < signedauth.ExpiresAt claims.
Proof.
  intros Hv. destruct (present_sound (Envelope lease) keys nodeID (JobLease (auth_Binding lease) (Revision lease)) now claims f Hv) as (Hs & _).
  apply verifySigned_inv in Hs as (_ & _ & Ht & Hf). split; [done|lia].
Qed.
Lemma lease_claims_unique now now' lease lease' claims claims' f f' : Envelope lease = Envelope lease' →
  signedauth.VerifyJobLease (Envelope lease) keys (auth_Binding lease) nodeID (Revision lease) now = Ok (claims, f) →
  signedauth.VerifyJobLease (Envelope lease') keys (auth_Binding lease') nodeID (Revision lease') now' = Ok (claims', f') → claims = claims' ∧ f = f'.
Proof.
  intros He Hv Hv'. pose proof (lease_claims _ _ _ _ Hv) as [Hf _]. pose proof (lease_claims _ _ _ _ Hv') as [Hf' _].
  destruct (present_sound (Envelope lease) keys nodeID (JobLease (auth_Binding lease) (Revision lease)) now claims f Hv) as [(H1 & _)%verifySigned_inv _].
  destruct (present_sound (Envelope lease') keys nodeID (JobLease (auth_Binding lease') (Revision lease')) now' claims' f' Hv') as [(H2 & _)%verifySigned_inv _].
  rewrite He in H1. assert (claims = claims') as -> by (by eapply envelope_unique). split; [done|congruence].
Qed.
Lemma unix_before now lease claims : signedauth.ExpiresAt claims = signedauth.Unix (auth_ExpiresAt lease) →
  signedauth.Unix now < signedauth.ExpiresAt claims → now < auth_ExpiresAt lease.
Proof.
  intros ->. unfold signedauth.Unix. change signedauth.second with 1000000000. intros Hlt.
  destruct (Z.lt_ge_cases now (auth_ExpiresAt lease)) as [?|Hge]; [done|].
  apply (Z.div_le_mono _ _ 1000000000) in Hge; lia.
Qed.

Lemma leased_guards now d d' o ctx lease f claims f' :
  db_call o ctx (ValidateJobAuthorization jobID nodeID keys now) d = (d', Ok (lease, f)) →
  signedauth.VerifyJobLease (Envelope lease) keys (auth_Binding lease) nodeID (Revision lease) now = Ok (claims, f') →
  ∀ g, current g = lease → policy g = signedauth.claims_Context claims → guarded_by d now g f.
Proof.
  intros (job & Hjob & Hstate & Hl)%validate_sound_call Hv g <- Hp. destruct (leased_verified _ _ _ _ Hl) as (claims' & Hv' & He).
  cbn [fst snd env_keys env_node env_now] in *. rewrite Hv in Hv'. injection Hv' as <- ->. pose proof (lease_claims _ _ _ _ Hv) as [Hf Ht]. split; simpl.
  - by exists job, (current g).
  - by rewrite Hp.
  - by exists claims.
  - by eapply unix_before.
Qed.

(** What a turn of the loop leaves of the guard when it lets the job go on. *)
Definition kept now g g' : Prop := routine g' = routine g ∧ ticker g' = ticker g ∧ ticker_C g' = ticker_C g ∧
  (g' = g ∨ timer g' = Some (deadline (Until (auth_ExpiresAt (current g')) now) now) ∧ timer_C g' = None).

(** A poll that lets the job go on found its lease good, now and with the same
    filter, and set the timer to the expiry of a lease that is new. *)
Lemma poll_sound d0 t0 g f o now d d' g' : guarded_by d0 t0 g f → cause g = None → poll o now g d = (d', g') → cause g' = None →
  guarded_by d now g' f ∧ kept now g g'.
Proof.
  intros [Hjob0 Hpolicy (claims0 & Hv0 & Hctx0 & Hexp0) _] Hg. unfold poll, cancel. rewrite Hg.
  destruct (db_call _ _ _ d) as [d1 [[next f1]|e]] eqn:Hcall; [|by intros [= <- <-]].
  destruct (_ || _ || _) eqn:Hguard; [by intros [= <- <-]|]. apply orb_false_iff in Hguard as [[Hrev Hbind]%orb_false_iff Henv].
  destruct (Revision next =? Revision (current g)) eqn:Heq; cbn [negb].
  - bool_to_prop. simpl in Henv. bool_to_prop. destruct (negb (Before _ _)) eqn:Hbefore; [by intros [= <- <-]|]. intros [= <- <-] _.
    apply negb_false_iff in Hbefore. unfold Before in Hbefore. bool_to_prop.
    apply validate_sound_call in Hcall as (job & Hjob & Hstate & Hl). destruct (leased_verified _ _ _ _ Hl) as (claims & Hv & He).
    cbn [fst snd env_keys env_node env_now] in *. destruct (lease_claims_unique _ _ next (current g) _ _ _ _ Henv Hv Hv0) as [-> ->].
    split; [|by split_and!; try left]. split; [by exists job, next|done| |done]. exists claims0. rewrite <-Henv, <-Hbind, <-Heq. done.
  - destruct (signedauth.VerifyJobLease (Envelope next) _ _ _ _ _) as [[claims f2]|e] eqn:Hv; [|by intros [= <- <-]].
    destruct (policy g =s _) eqn:Hp; cbn [negb]; [|by intros [= <- <-]]. bool_to_prop. cbv zeta. cbn [timer_Stop]. intros [= <- <-] _.
    pose proof (leased_guards now d d1 o _ next f1 claims f2 Hcall Hv) as Hgb.
    assert (f1 = f) as ->. { destruct (Hgb (timer_Reset 0 now (g <| current := next |>)) ltac:(done) Hp) as [_ H2 _ _]. simpl in H2. congruence. }
    split; [apply Hgb; by destruct (_ || _)|]. by split_and!; [destruct (_ || _)..|right; destruct (_ || _)].
Qed.

Lemma guarded_lifetime d now g f : guarded_by d now g f → now < auth_ExpiresAt (current g) < now + 32 * nanoseconds.
Proof.
  intros [_ _ (claims & Hv & _ & He) Hexp]. split; [done|].
  destruct (present_sound (Envelope (current g)) keys nodeID (JobLease (auth_Binding (current g)) (Revision (current g))) now claims f Hv)
    as [(_ & Hval & Ht & _)%verifySigned_inv _].
  pose proof (vc_interval _ (validate_sound _ Hval)) as [_ Hlife]. unfold signedauth.Unix in *. change signedauth.second with 1000000000 in *.
  unfold nanoseconds. pose proof (Z.mod_pos_bound (auth_ExpiresAt (current g)) 1000000000 ltac:(done)).
  pose proof (Z.mod_pos_bound now 1000000000 ltac:(done)).
  pose proof (Z.div_mod (auth_ExpiresAt (current g)) 1000000000 ltac:(done)). pose proof (Z.div_mod now 1000000000 ltac:(done)). lia.
Qed.
Lemma deadline_Until t now : t < now + 32 * nanoseconds → deadline (Until t now) now = Z.max now t.
Proof. unfold deadline, Until, nanoseconds. lia. Qed.

(** * The guard among the other activity of the node *)

(** The store, the guard, the time, and the last check: when it was and what it
    saw. *)
Record world := mkworld { w_db : db; w_guard : guard; w_now : time; w_checked : time; w_seen : db }.

Section World.
(** [lag]: how long a goroutine that can run may have to wait for a processor. *)
Context (lag interval : Z).
Implicit Types (w : world).

(** Until when time passes with nothing else happening: up to the deadlines the
    runtime watches, and up to [lag] after the goroutine was created or one of
    its channels was written to. *)
Definition until_ (deadline : option time) (t : time) : Prop := ∀ s, deadline = Some s → t ≤ s.
Definition waiting g (t : time) : Prop :=
  until_ (ticker g) t ∧ until_ (timer g) t ∧
  match routine g with
  | Created s => t ≤ s + lag
  | Looping => until_ (Z.add lag <$> ticker_C g) t ∧ until_ (Z.add lag <$> timer_C g) t
  | Returned => True
  end.

Inductive w_step w : world → Prop :=
| w_store d' : w_step w (mkworld d' (w_guard w) (w_now w) (w_checked w) (w_seen w))
| w_cancel e : w_step w (mkworld (w_db w) (cancel e (w_guard w)) (w_now w) (w_checked w) (w_seen w))
| w_wait t : w_now w ≤ t → waiting (w_guard w) t → w_step w (mkworld (w_db w) (w_guard w) t (w_checked w) (w_seen w))
| w_go s : routine (w_guard w) = Created s →
    w_step w (mkworld (w_db w) (guard_go interval (w_now w) (w_guard w)) (w_now w) (w_checked w) (w_seen w))
| w_timer : w_step w (mkworld (w_db w) (timer_fire (w_now w) (w_guard w)) (w_now w) (w_checked w) (w_seen w))
| w_ticker : w_step w (mkworld (w_db w) (ticker_fire interval (w_now w) (w_guard w)) (w_now w) (w_checked w) (w_seen w))
| w_turn c o d' g' : select_turn c o (w_now w) (w_guard w) (w_db w) = Some (d', g') →
    w_step w (mkworld d' g' (w_now w) (w_now w) (w_db w)).

(** What holds as long as the context is not canceled. The ticker is armed, and
    the next turn comes from it or from the tick that waits in its channel; the
    timer is armed with the expiry of the lease, or its value waits. *)
Definition ticking g (now checked : time) : Prop := ∃ next, ticker g = Some next ∧ now ≤ next ≤ now + interval ∧
  match ticker_C g with
  | None => next ≤ checked + interval + lag
  | Some s => s ≤ now ≤ s + lag ∧ s ≤ checked + interval + lag
  end.
Definition timed g (now : time) : Prop :=
  match timer g, timer_C g with
  | Some t, None => now ≤ t ∧ auth_ExpiresAt (current g) ≤ t ≤ auth_ExpiresAt (current g) + lag
  | None, Some s => s ≤ now ≤ s + lag ∧ auth_ExpiresAt (current g) ≤ s ≤ auth_ExpiresAt (current g) + lag
  | _, _ => False
  end.
Definition watched (f : filetypes.Filter) w : Prop := cause (w_guard w) = None →
  guarded_by (w_seen w) (w_checked w) (w_guard w) f ∧ w_checked w ≤ w_now w ∧
  match routine (w_guard w) with
  | Created s => s = w_checked w ∧ w_now w ≤ s + lag ∧ ticker (w_guard w) = None ∧ timer (w_guard w) = None
  | Looping => ticking (w_guard w) (w_now w) (w_checked w) ∧ timed (w_guard w) (w_now w)
  | Returned => False
  end.

Context (Hlag : 0 ≤ lag) (Hinterval : 0 < interval).

Lemma guarded_by_ext d now g g' f : current g' = current g → policy g' = policy g → guarded_by d now g f → guarded_by d now g' f.
Proof. intros H1 H2 [? ? ? ?]. by split; rewrite ?H1, ?H2. Qed.

Lemma watched_wait f w t : w_now w ≤ t → waiting (w_guard w) t → watched f w →
  watched f (mkworld (w_db w) (w_guard w) t (w_checked w) (w_seen w)).
Proof.
  intros Ht (H1 & H2 & H3) IH Hc. destruct (IH Hc) as (Hg & Hle & Hr). simpl. split_and!; [done|lia|].
  destruct (routine (w_guard w)); [destruct_and!; split_and!; try lia; done| |done].
  destruct Hr as [(next & Hn & Hnext & Htick) Htimer], H3 as [H3 H4]. unfold ticking, timed in *. split.
  - exists next. split; [done|]. pose proof (H1 next Hn). destruct (ticker_C _) as [s|]; [pose proof (H3 _ eq_refl)|]; simpl in *; lia.
  - destruct (timer _) as [t1|] eqn:E1, (timer_C _) as [s|] eqn:E2; try done; [pose proof (H2 _ eq_refl)|pose proof (H4 _ eq_refl)]; simpl in *; lia.
Qed.

Lemma watched_go f w s : routine (w_guard w) = Created s → watched f w →
  watched f (mkworld (w_db w) (guard_go interval (w_now w) (w_guard w)) (w_now w) (w_checked w) (w_seen w)).
Proof.
  intros Hs IH Hc. destruct (IH Hc) as (Hg & Hle & Hr). rewrite Hs in Hr. simpl. split_and!; [by apply (guarded_by_ext _ _ (w_guard w))|done|..].
  - exists (w_now w + interval). simpl. split_and!; [done|lia..].
  - pose proof (guarded_lifetime _ _ _ _ Hg). unfold timed. simpl. rewrite deadline_Until by lia. lia.
Qed.

Lemma watched_timer f w : watched f w → watched f (mkworld (w_db w) (timer_fire (w_now w) (w_guard w)) (w_now w) (w_checked w) (w_seen w)).
Proof.
  intros IH. unfold timer_fire. destruct (timer (w_guard w)) as [t|] eqn:Et; [|exact IH].
  destruct (t <=? w_now w) eqn:Hdue; [|exact IH]. bool_to_prop. intros Hc. destruct (IH Hc) as (Hg & Hle & Hr). simpl.
  split_and!; [by apply (guarded_by_ext _ _ (w_guard w))|done|]. destruct (routine _); [by destruct_and!; congruence| |done].
  destruct Hr as [Hn Htimer]. split; [done|]. unfold timed in *. rewrite Et in Htimer. destruct (timer_C _); [done|]. simpl. lia.
Qed.

Lemma watched_ticker f w :
  watched f w → watched f (mkworld (w_db w) (ticker_fire interval (w_now w) (w_guard w)) (w_now w) (w_checked w) (w_seen w)).
Proof.
  intros IH. unfold ticker_fire. destruct (ticker (w_guard w)) as [t|] eqn:Et; [|exact IH].
  destruct (t <=? w_now w) eqn:Hdue; [|exact IH]. bool_to_prop. intros Hc. destruct (IH Hc) as (Hg & Hle & Hr). simpl.
  split_and!; [by apply (guarded_by_ext _ _ (w_guard w))|done|]. destruct (routine _); [by destruct_and!; congruence| |done].
  destruct Hr as [(next & Hn & Hnext & Htick) Htimer]. split; [|done]. rewrite Et in Hn. injection Hn as <-.
  exists (t + interval). simpl. destruct (ticker_C _); simpl; split_and!; try lia; done.
Qed.

Lemma poll_cause o now g d d' g' : poll o now g d = (d', g') → cause g' = None → cause g = None.
Proof.
  unfold poll, cancel. destruct (cause g) as [e|] eqn:Hg; [|done]. intros Hp.
  assert (cause g' = Some e) as ->; [|done]. revert Hp. destruct (db_call _ _ _ d) as [d1 [[next f1]|e1]]; cbv zeta; cbn [timer_Stop].
  - destruct (_ || _ || _); [by intros [= <- <-]|]. destruct (negb (_ =? _)).
    + destruct (signedauth.VerifyJobLease _ _ _ _ _ _) as [[claims f2]|e2]; [|by intros [= <- <-]].
      destruct (negb _); [by intros [= <- <-]|]. intros [= <- <-]. by destruct (_ || _).
    + destruct (negb _); by intros [= <- <-].
  - by intros [= <- <-].
Qed.

(** A poll of a guard that took a value from one of its channels. *)
Lemma watched_poll f w g o d' g' : poll o (w_now w) g (w_db w) = (d', g') → cause g' = None →
  guarded_by (w_seen w) (w_checked w) g f → routine g = Looping →
  (∃ next, ticker g = Some next ∧ w_now w ≤ next ≤ w_now w + interval ∧ (∀ s, ticker_C g = Some s → s ≤ w_now w ≤ s + lag)) →
  (timed g (w_now w) ∨ auth_ExpiresAt (current g) ≤ w_now w) → watched f (mkworld d' g' (w_now w) (w_now w) (w_db w)).
Proof.
  intros Hp Hc Hgb Hl (next & Hn & Hnext & Htick) Htimer _.
  destruct (poll_sound _ _ _ _ _ _ _ _ _ Hgb (poll_cause _ _ _ _ _ _ Hp Hc) Hp Hc) as [Hgb' (H1 & H2 & H3 & H4)]. simpl.
  split_and!; [done|lia|]. rewrite H1, Hl. pose proof (guarded_lifetime _ _ _ _ Hgb') as Hlife. split.
  - exists next. rewrite H2, H3. split_and!; [done|lia|lia|]. destruct (ticker_C g) as [s|]; [pose proof (Htick s eq_refl)|]; lia.
  - destruct H4 as [->|[H4 H5]]; [destruct Htimer; [done|lia]|]. unfold timed. rewrite H4, H5, deadline_Until by lia. lia.
Qed.

Lemma watched_turn f w c o d' g' : select_turn c o (w_now w) (w_guard w) (w_db w) = Some (d', g') → watched f w →
  watched f (mkworld d' g' (w_now w) (w_now w) (w_db w)).
Proof.
  unfold select_turn. intros Hturn IH Hc. simpl in Hc. destruct (routine (w_guard w)) eqn:Hl; try done.
  unfold watched in IH. rewrite Hl in IH. destruct c.
  - destruct (cause (w_guard w)) eqn:Hg; [|done]. injection Hturn as <- <-. simpl in Hc. congruence.
  - destruct (ticker_C (w_guard w)) eqn:Hs; [|done]. injection Hturn as Hp. pose proof (poll_cause _ _ _ _ _ _ Hp Hc) as Hg.
    destruct (IH Hg) as (Hgb & _ & (next & Hn & Hnext & _) & Htimer). refine (watched_poll _ _ _ _ _ _ Hp Hc _ _ _ _ Hc); [|done| |by left].
    + by apply (guarded_by_ext _ _ (w_guard w)).
    + exists next. by split_and!; [done|lia..|].
  - destruct (timer_C (w_guard w)) as [s|] eqn:Hs; [|done]. injection Hturn as Hp. pose proof (poll_cause _ _ _ _ _ _ Hp Hc) as Hg.
    destruct (IH Hg) as (Hgb & _ & (next & Hn & Hnext & Htick) & Htimer). refine (watched_poll _ _ _ _ _ _ Hp Hc _ _ _ _ Hc); [|done| |].
    + by apply (guarded_by_ext _ _ (w_guard w)).
    + exists next. split_and!; [done|lia..|]. simpl. intros s' Hs'. rewrite Hs' in Htick. lia.
    + right. unfold timed in Htimer. rewrite Hs in Htimer. simpl. destruct (timer _); [done|lia].
Qed.

Lemma watched_step f w w' : w_step w w' → watched f w → watched f w'.
Proof.
  intros [d2|e|t Ht Hwait|s Hs| | |c o d' g' Hturn] IH.
  - exact IH.
  - unfold watched, cancel in *. destruct (cause (w_guard w)) eqn:Hc; simpl; [congruence|done].
  - by apply watched_wait.
  - by eapply watched_go.
  - by apply watched_timer.
  - by apply watched_ticker.
  - by eapply watched_turn.
Qed.
Lemma watched_bound f w : watched f w → cause (w_guard w) = None →
  guarded_by (w_seen w) (w_checked w) (w_guard w) f ∧ w_checked w ≤ w_now w ≤ w_checked w + interval + 2 * lag ∧
  w_now w ≤ auth_ExpiresAt (current (w_guard w)) + 2 * lag.
Proof.
  intros Hw Hc. destruct (Hw Hc) as (Hgb & Hle & Hr). pose proof (gb_expiry _ _ _ _ Hgb). split; [done|].
  destruct (routine (w_guard w)); [lia| |done]. destruct Hr as [(next & _ & Hnext & Htick) Htimer]. unfold timed in *.
  destruct (ticker_C _), (timer _), (timer_C _); try done; lia.
Qed.
End World.

Lemma guard_starts o parent interval now d d' g f : guardJobAuthorization o parent interval now d = (d', Ok (g, f)) →
  (∀ lag, 0 ≤ lag → watched lag interval f (mkworld d' g now now d)) ∧ 0 < interval ≤ nanoseconds.
Proof.
  unfold guardJobAuthorization. destruct (_ || _) eqn:Hint; [done|]. apply orb_false_iff in Hint as [Hint1 Hint2]. bool_to_prop.
  destruct (db_call _ _ _ d) as [d1 [[lease f1]|e]] eqn:Hcall; [|done].
  destruct (signedauth.VerifyJobLease _ _ _ _ _ _) as [[claims f2]|e] eqn:Hv; [|done].
  intros [= <- <- <-]. split; [|lia]. intros lag Hlag _. simpl.
  split_and!; [by eapply leased_guards|lia..| |done|done]. lia.
Qed.

End Guard.
