(* ===== verification/StateCodec.v ===== *)
(** A codec to compute with: one string for every value the node's state stores.
    It stands for the YAML codec in the examples, whose laws it satisfies. *)
From S2P Require Import Prelude GoLib Entities FileTypes SignedAuth StateProg StateRecords StatePeers.
From S2P Require Import StateLaws.
From stdpp Require Import countable options.
Local Open Scope Z_scope.

(** Values as binary numbers. *)
Class Code (A : Type) := { enc : A → positive; dec : positive → option A }.
Class CodeOk (A : Type) `{Code A} : Prop := dec_enc : ∀ a, dec (enc a) = Some a.

#[global] Instance countable_code `{Countable A} : Code A := {| enc := encode; dec := decode |}.
#[global] Instance countable_code_ok `{Countable A} : CodeOk A.
Proof. intros a. apply decode_encode. Qed.
#[global] Instance option_code `{Code A} : Code (option A) := {|
  enc o := match o with None => 1 | Some a => (enc a)~1 end%positive;
  dec p := match p with 1 => Some None | p~1 => Some <$> dec p | _ => None end%positive;
|}.
#[global] Instance option_code_ok `{CodeOk A} : CodeOk (option A).
Proof. intros [a|]; simpl; [by rewrite dec_enc|done]. Qed.

(** The code of a record is the list of the codes of its fields. *)
Ltac code_ok :=
  rewrite positives_unflatten_flatten; cbn [mbind option_bind];
  repeat (rewrite dec_enc; cbn [mbind option_bind]).

#[global] Instance TrashConfig_code : Code TrashConfig := {|
  enc r := positives_flatten [
    enc (TrashConfig_Enabled r); enc (TrashConfig_RetentionDays r); enc (TrashConfig_MaxBytes r)];
  dec p := l ← positives_unflatten p;
    match l with
    | [x0; x1; x2] =>
        x0 ← dec x0; x1 ← dec x1; x2 ← dec x2;
        Some (mkTrashConfig x0 x1 x2)
    | _ => None
    end;
|}.
#[global] Instance TrashConfig_code_ok : CodeOk TrashConfig.
Proof. intros r. cbn [enc dec TrashConfig_code]. code_ok. by destruct r. Qed.

#[global] Instance Mount_code : Code Mount := {|
  enc r := positives_flatten [
    enc (Mount_CanaryPaths r); enc (Mount_HiddenPatterns r); enc (Mount_Trash r); enc (Mount_ID r);
    enc (Mount_Name r); enc (Mount_LocalPath r); enc (Mount_TargetType r); enc (Mount_Mode r);
    enc (Mount_Published r); enc (Mount_Enabled r); enc (Mount_State r); enc (Mount_Readable r);
    enc (Mount_Writable r); enc (Mount_ModeBits r); enc (Mount_CreatedAt r); enc (Mount_UpdatedAt r)];
  dec p := l ← positives_unflatten p;
    match l with
    | [x0; x1; x2; x3; x4; x5; x6; x7; x8; x9; x10; x11; x12; x13; x14; x15] =>
        x0 ← dec x0; x1 ← dec x1; x2 ← dec x2; x3 ← dec x3; x4 ← dec x4; x5 ← dec x5; x6 ← dec x6; x7 ← dec x7;
        x8 ← dec x8; x9 ← dec x9; x10 ← dec x10; x11 ← dec x11; x12 ← dec x12; x13 ← dec x13; x14 ← dec x14;
        x15 ← dec x15;
        Some (mkMount x0 x1 x2 x3 x4 x5 x6 x7 x8 x9 x10 x11 x12 x13 x14 x15)
    | _ => None
    end;
|}.
#[global] Instance Mount_code_ok : CodeOk Mount.
Proof. intros r. cbn [enc dec Mount_code]. code_ok. by destruct r. Qed.

#[global] Instance TrashItem_code : Code TrashItem := {|
  enc r := positives_flatten [
    enc (TrashItem_ID r); enc (TrashItem_MountID r); enc (TrashItem_Path r); enc (TrashItem_Type r);
    enc (TrashItem_Size r); enc (TrashItem_State r); enc (TrashItem_DeletedAt r); enc (TrashItem_ExpiresAt r)];
  dec p := l ← positives_unflatten p;
    match l with
    | [x0; x1; x2; x3; x4; x5; x6; x7] =>
        x0 ← dec x0; x1 ← dec x1; x2 ← dec x2; x3 ← dec x3; x4 ← dec x4; x5 ← dec x5; x6 ← dec x6; x7 ← dec x7;
        Some (mkTrashItem x0 x1 x2 x3 x4 x5 x6 x7)
    | _ => None
    end;
|}.
#[global] Instance TrashItem_code_ok : CodeOk TrashItem.
Proof. intros r. cbn [enc dec TrashItem_code]. code_ok. by destruct r. Qed.

#[global] Instance Job_code : Code Job := {|
  enc r := positives_flatten [
    enc (Job_ParentJobID r); enc (Job_DestructivePlanID r); enc (Job_SignedAuthBound r);
    enc (Job_RequiresSignedAuth r); enc (Job_SignedAuthActorID r); enc (Job_SignedAuthCredentialID r);
    enc (Job_SourcesOmitted r); enc (Job_ID r); enc (Job_Type r); enc (Job_State r); enc (Job_Phase r);
    enc (Job_MountID r); enc (Job_PeerNodeID r); enc (Job_SourceGrantID r); enc (Job_DestinationGrantID r);
    enc (Job_SourceETag r); enc (Job_SourcePath r); enc (Job_Destination r); enc (Job_BytesTotal r);
    enc (Job_BytesCompleted r); enc (Job_BytesPerSecond r); enc (Job_ETASeconds r); enc (Job_ETAConfidence r);
    enc (Job_FilesTotal r); enc (Job_FilesCompleted r); enc (Job_FilesFailed r); enc (Job_ConflictPolicy r);
    enc (Job_SourceChangePolicy r); enc (Job_VerifyChecksum r); enc (Job_BandwidthLimit r);
    enc (Job_MaxParallelFiles r); enc (Job_MaxParallelChunks r); enc (Job_Overwrite r); enc (Job_Recursive r);
    enc (Job_Attempt r); enc (Job_MaxAttempts r); enc (Job_Error r); enc (Job_CorrelationID r);
    enc (Job_CreatedAt r); enc (Job_UpdatedAt r); enc (Job_StartedAt r); enc (Job_NextAttemptAt r);
    enc (Job_CompletedAt r)];
  dec p := l ← positives_unflatten p;
    match l with
    | [x0; x1; x2; x3; x4; x5; x6; x7; x8; x9; x10; x11; x12; x13; x14; x15; x16; x17; x18; x19; x20; x21; x22;
       x23; x24; x25; x26; x27; x28; x29; x30; x31; x32; x33; x34; x35; x36; x37; x38; x39; x40; x41; x42] =>
        x0 ← dec x0; x1 ← dec x1; x2 ← dec x2; x3 ← dec x3; x4 ← dec x4; x5 ← dec x5; x6 ← dec x6; x7 ← dec x7;
        x8 ← dec x8; x9 ← dec x9; x10 ← dec x10; x11 ← dec x11; x12 ← dec x12; x13 ← dec x13; x14 ← dec x14;
        x15 ← dec x15; x16 ← dec x16; x17 ← dec x17; x18 ← dec x18; x19 ← dec x19; x20 ← dec x20; x21 ← dec x21;
        x22 ← dec x22; x23 ← dec x23; x24 ← dec x24; x25 ← dec x25; x26 ← dec x26; x27 ← dec x27; x28 ← dec x28;
        x29 ← dec x29; x30 ← dec x30; x31 ← dec x31; x32 ← dec x32; x33 ← dec x33; x34 ← dec x34; x35 ← dec x35;
        x36 ← dec x36; x37 ← dec x37; x38 ← dec x38; x39 ← dec x39; x40 ← dec x40; x41 ← dec x41; x42 ← dec x42;
        Some (mkJob x0 x1 x2 x3 x4 x5 x6 x7 x8 x9 x10 x11 x12 x13 x14 x15 x16 x17 x18 x19 x20 x21 x22 x23 x24 x25 x26 x27
          x28 x29 x30 x31 x32 x33 x34 x35 x36 x37 x38 x39 x40 x41 x42)
    | _ => None
    end;
|}.
#[global] Instance Job_code_ok : CodeOk Job.
Proof. intros r. cbn [enc dec Job_code]. code_ok. by destruct r. Qed.

#[global] Instance JobItem_code : Code JobItem := {|
  enc r := positives_flatten [
    enc (JobItem_JobID r); enc (JobItem_Ordinal r); enc (JobItem_RelativePath r); enc (JobItem_SourcePath r);
    enc (JobItem_DestinationPath r); enc (JobItem_Type r); enc (JobItem_Size r); enc (JobItem_ModifiedAt r);
    enc (JobItem_Checksum r); enc (JobItem_SourceRoot r); enc (JobItem_SourceCleanupState r);
    enc (JobItem_Action r); enc (JobItem_State r); enc (JobItem_BytesCompleted r); enc (JobItem_Attempt r);
    enc (JobItem_Error r); enc (JobItem_UpdatedAt r)];
  dec p := l ← positives_unflatten p;
    match l with
    | [x0; x1; x2; x3; x4; x5; x6; x7; x8; x9; x10; x11; x12; x13; x14; x15; x16] =>
        x0 ← dec x0; x1 ← dec x1; x2 ← dec x2; x3 ← dec x3; x4 ← dec x4; x5 ← dec x5; x6 ← dec x6; x7 ← dec x7;
        x8 ← dec x8; x9 ← dec x9; x10 ← dec x10; x11 ← dec x11; x12 ← dec x12; x13 ← dec x13; x14 ← dec x14;
        x15 ← dec x15; x16 ← dec x16;
        Some (mkJobItem x0 x1 x2 x3 x4 x5 x6 x7 x8 x9 x10 x11 x12 x13 x14 x15 x16)
    | _ => None
    end;
|}.
#[global] Instance JobItem_code_ok : CodeOk JobItem.
Proof. intros r. cbn [enc dec JobItem_code]. code_ok. by destruct r. Qed.

#[global] Instance JobEvent_code : Code JobEvent := {|
  enc r := positives_flatten [
    enc (JobEvent_ID r); enc (JobEvent_JobID r); enc (JobEvent_Type r); enc (JobEvent_State r);
    enc (JobEvent_Phase r); enc (JobEvent_BytesTotal r); enc (JobEvent_BytesCompleted r);
    enc (JobEvent_BytesPerSecond r); enc (JobEvent_ETASeconds r); enc (JobEvent_ETAConfidence r);
    enc (JobEvent_FilesTotal r); enc (JobEvent_FilesCompleted r); enc (JobEvent_FilesFailed r);
    enc (JobEvent_Message r); enc (JobEvent_CorrelationID r); enc (JobEvent_CreatedAt r)];
  dec p := l ← positives_unflatten p;
    match l with
    | [x0; x1; x2; x3; x4; x5; x6; x7; x8; x9; x10; x11; x12; x13; x14; x15] =>
        x0 ← dec x0; x1 ← dec x1; x2 ← dec x2; x3 ← dec x3; x4 ← dec x4; x5 ← dec x5; x6 ← dec x6; x7 ← dec x7;
        x8 ← dec x8; x9 ← dec x9; x10 ← dec x10; x11 ← dec x11; x12 ← dec x12; x13 ← dec x13; x14 ← dec x14;
        x15 ← dec x15;
        Some (mkJobEvent x0 x1 x2 x3 x4 x5 x6 x7 x8 x9 x10 x11 x12 x13 x14 x15)
    | _ => None
    end;
|}.
#[global] Instance JobEvent_code_ok : CodeOk JobEvent.
Proof. intros r. cbn [enc dec JobEvent_code]. code_ok. by destruct r. Qed.

#[global] Instance OperationalTokenState_code : Code OperationalTokenState := {|
  enc r := positives_flatten [
    enc (OperationalTokenState_StagedHash r); enc (OperationalTokenState_ActiveHash r);
    enc (OperationalTokenState_EnvTokenDisabled r); enc (OperationalTokenState_UpdatedAt r);
    enc (OperationalTokenState_CorrelationID r)];
  dec p := l ← positives_unflatten p;
    match l with
    | [x0; x1; x2; x3; x4] =>
        x0 ← dec x0; x1 ← dec x1; x2 ← dec x2; x3 ← dec x3; x4 ← dec x4;
        Some (mkOperationalTokenState x0 x1 x2 x3 x4)
    | _ => None
    end;
|}.
#[global] Instance OperationalTokenState_code_ok : CodeOk OperationalTokenState.
Proof. intros r. cbn [enc dec OperationalTokenState_code]. code_ok. by destruct r. Qed.

#[global] Instance PairingInvite_code : Code PairingInvite := {|
  enc r := positives_flatten [
    enc (PairingInvite_ID r); enc (PairingInvite_TargetNodeID r); enc (PairingInvite_TransferMode r);
    enc (PairingInvite_IssuerRole r); enc (PairingInvite_InviteeRole r); enc (PairingInvite_Purpose r);
    enc (PairingInvite_ClusterID r); enc (PairingInvite_OneTime r); enc (PairingInvite_Status r);
    enc (PairingInvite_ExpiresAt r); enc (PairingInvite_CreatedAt r); enc (PairingInvite_RevokedAt r);
    enc (PairingInvite_CorrelationID r)];
  dec p := l ← positives_unflatten p;
    match l with
    | [x0; x1; x2; x3; x4; x5; x6; x7; x8; x9; x10; x11; x12] =>
        x0 ← dec x0; x1 ← dec x1; x2 ← dec x2; x3 ← dec x3; x4 ← dec x4; x5 ← dec x5; x6 ← dec x6; x7 ← dec x7;
        x8 ← dec x8; x9 ← dec x9; x10 ← dec x10; x11 ← dec x11; x12 ← dec x12;
        Some (mkPairingInvite x0 x1 x2 x3 x4 x5 x6 x7 x8 x9 x10 x11 x12)
    | _ => None
    end;
|}.
#[global] Instance PairingInvite_code_ok : CodeOk PairingInvite.
Proof. intros r. cbn [enc dec PairingInvite_code]. code_ok. by destruct r. Qed.

#[global] Instance PairingRequest_code : Code PairingRequest := {|
  enc r := positives_flatten [
    enc (PairingRequest_ID r); enc (PairingRequest_InviteID r); enc (PairingRequest_IssuerNodeID r);
    enc (PairingRequest_IssuerName r); enc (PairingRequest_IssuerFingerprint r);
    enc (PairingRequest_IssuerIdentityEpoch r); enc (PairingRequest_IssuerEndpoint r);
    enc (PairingRequest_IssuerMTLSEndpoint r); enc (PairingRequest_TransferMode r);
    enc (PairingRequest_IssuerRole r); enc (PairingRequest_InviteeRole r); enc (PairingRequest_Purpose r);
    enc (PairingRequest_ClusterID r); enc (PairingRequest_Status r); enc (PairingRequest_ExpiresAt r);
    enc (PairingRequest_CreatedAt r); enc (PairingRequest_CorrelationID r)];
  dec p := l ← positives_unflatten p;
    match l with
    | [x0; x1; x2; x3; x4; x5; x6; x7; x8; x9; x10; x11; x12; x13; x14; x15; x16] =>
        x0 ← dec x0; x1 ← dec x1; x2 ← dec x2; x3 ← dec x3; x4 ← dec x4; x5 ← dec x5; x6 ← dec x6; x7 ← dec x7;
        x8 ← dec x8; x9 ← dec x9; x10 ← dec x10; x11 ← dec x11; x12 ← dec x12; x13 ← dec x13; x14 ← dec x14;
        x15 ← dec x15; x16 ← dec x16;
        Some (mkPairingRequest x0 x1 x2 x3 x4 x5 x6 x7 x8 x9 x10 x11 x12 x13 x14 x15 x16)
    | _ => None
    end;
|}.
#[global] Instance PairingRequest_code_ok : CodeOk PairingRequest.
Proof. intros r. cbn [enc dec PairingRequest_code]. code_ok. by destruct r. Qed.

#[global] Instance Peer_code : Code Peer := {|
  enc r := positives_flatten [
    enc (Peer_NodeID r); enc (Peer_Name r); enc (Peer_Fingerprint r); enc (Peer_PreviousFingerprint r);
    enc (Peer_IdentityEpoch r); enc (Peer_Endpoint r); enc (Peer_MTLSEndpoint r); enc (Peer_TransferMode r);
    enc (Peer_LocalRole r); enc (Peer_RemoteRole r); enc (Peer_ClusterID r); enc (Peer_State r);
    enc (Peer_LastSeenAt r); enc (Peer_ConsecutiveFailures r); enc (Peer_TrustedAt r); enc (Peer_CorrelationID r)];
  dec p := l ← positives_unflatten p;
    match l with
    | [x0; x1; x2; x3; x4; x5; x6; x7; x8; x9; x10; x11; x12; x13; x14; x15] =>
        x0 ← dec x0; x1 ← dec x1; x2 ← dec x2; x3 ← dec x3; x4 ← dec x4; x5 ← dec x5; x6 ← dec x6; x7 ← dec x7;
        x8 ← dec x8; x9 ← dec x9; x10 ← dec x10; x11 ← dec x11; x12 ← dec x12; x13 ← dec x13; x14 ← dec x14;
        x15 ← dec x15;
        Some (mkPeer x0 x1 x2 x3 x4 x5 x6 x7 x8 x9 x10 x11 x12 x13 x14 x15)
    | _ => None
    end;
|}.
#[global] Instance Peer_code_ok : CodeOk Peer.
Proof. intros r. cbn [enc dec Peer_code]. code_ok. by destruct r. Qed.

#[global] Instance GrantPermissions_code : Code GrantPermissions := {|
  enc r := positives_flatten [
    enc (GrantPermissions_Read r); enc (GrantPermissions_Write r); enc (GrantPermissions_Delete r);
    enc (GrantPermissions_Rename r)];
  dec p := l ← positives_unflatten p;
    match l with
    | [x0; x1; x2; x3] =>
        x0 ← dec x0; x1 ← dec x1; x2 ← dec x2; x3 ← dec x3;
        Some (mkGrantPermissions x0 x1 x2 x3)
    | _ => None
    end;
|}.
#[global] Instance GrantPermissions_code_ok : CodeOk GrantPermissions.
Proof. intros r. cbn [enc dec GrantPermissions_code]. code_ok. by destruct r. Qed.

#[global] Instance TransferPathGrant_code : Code TransferPathGrant := {|
  enc r := positives_flatten [
    enc (TransferPathGrant_ConfiguredEnabled r); enc (TransferPathGrant_InactiveReason r);
    enc (TransferPathGrant_ID r); enc (TransferPathGrant_PeerNodeID r); enc (TransferPathGrant_MountID r);
    enc (TransferPathGrant_Path r); enc (TransferPathGrant_Direction r); enc (TransferPathGrant_Permissions r);
    enc (TransferPathGrant_ConflictPolicies r); enc (TransferPathGrant_Exclude r);
    enc (TransferPathGrant_VisibleToPeer r); enc (TransferPathGrant_Enabled r);
    enc (TransferPathGrant_CorrelationID r); enc (TransferPathGrant_CreatedAt r);
    enc (TransferPathGrant_UpdatedAt r)];
  dec p := l ← positives_unflatten p;
    match l with
    | [x0; x1; x2; x3; x4; x5; x6; x7; x8; x9; x10; x11; x12; x13; x14] =>
        x0 ← dec x0; x1 ← dec x1; x2 ← dec x2; x3 ← dec x3; x4 ← dec x4; x5 ← dec x5; x6 ← dec x6; x7 ← dec x7;
        x8 ← dec x8; x9 ← dec x9; x10 ← dec x10; x11 ← dec x11; x12 ← dec x12; x13 ← dec x13; x14 ← dec x14;
        Some (mkTransferPathGrant x0 x1 x2 x3 x4 x5 x6 x7 x8 x9 x10 x11 x12 x13 x14)
    | _ => None
    end;
|}.
#[global] Instance TransferPathGrant_code_ok : CodeOk TransferPathGrant.
Proof. intros r. cbn [enc dec TransferPathGrant_code]. code_ok. by destruct r. Qed.

#[global] Instance UploadSession_code : Code UploadSession := {|
  enc r := positives_flatten [
    enc (UploadSession_AuthorizationActorID r); enc (UploadSession_AuthorizationCredentialID r);
    enc (UploadSession_AuthorizationRevision r); enc (UploadSession_State r); enc (UploadSession_CompletedAt r);
    enc (UploadSession_PublishChecksum r); enc (UploadSession_ID r); enc (UploadSession_MountID r);
    enc (UploadSession_Destination r); enc (UploadSession_Size r); enc (UploadSession_Offset r);
    enc (UploadSession_Overwrite r); enc (UploadSession_Checksum r); enc (UploadSession_ChunkSize r);
    enc (UploadSession_CorrelationID r); enc (UploadSession_CreatedAt r); enc (UploadSession_UpdatedAt r);
    enc (UploadSession_ExpiresAt r)];
  dec p := l ← positives_unflatten p;
    match l with
    | [x0; x1; x2; x3; x4; x5; x6; x7; x8; x9; x10; x11; x12; x13; x14; x15; x16; x17] =>
        x0 ← dec x0; x1 ← dec x1; x2 ← dec x2; x3 ← dec x3; x4 ← dec x4; x5 ← dec x5; x6 ← dec x6; x7 ← dec x7;
        x8 ← dec x8; x9 ← dec x9; x10 ← dec x10; x11 ← dec x11; x12 ← dec x12; x13 ← dec x13; x14 ← dec x14;
        x15 ← dec x15; x16 ← dec x16; x17 ← dec x17;
        Some (mkUploadSession x0 x1 x2 x3 x4 x5 x6 x7 x8 x9 x10 x11 x12 x13 x14 x15 x16 x17)
    | _ => None
    end;
|}.
#[global] Instance UploadSession_code_ok : CodeOk UploadSession.
Proof. intros r. cbn [enc dec UploadSession_code]. code_ok. by destruct r. Qed.

#[global] Instance DestructivePlan_code : Code DestructivePlan := {|
  enc r := positives_flatten [
    enc (DestructivePlan_ID r); enc (DestructivePlan_TokenHash r); enc (DestructivePlan_SubjectType r);
    enc (DestructivePlan_SubjectID r); enc (DestructivePlan_Operation r); enc (DestructivePlan_MountID r);
    enc (DestructivePlan_Source r); enc (DestructivePlan_Destination r); enc (DestructivePlan_Overwrite r);
    enc (DestructivePlan_DestinationExists r); enc (DestructivePlan_TreeDigest r);
    enc (DestructivePlan_DestinationDigest r); enc (DestructivePlan_CreatedAt r);
    enc (DestructivePlan_ExpiresAt r); enc (DestructivePlan_ConsumedJobID r);
    enc (DestructivePlan_IdempotencyKey r); enc (DestructivePlan_RequestHash r)];
  dec p := l ← positives_unflatten p;
    match l with
    | [x0; x1; x2; x3; x4; x5; x6; x7; x8; x9; x10; x11; x12; x13; x14; x15; x16] =>
        x0 ← dec x0; x1 ← dec x1; x2 ← dec x2; x3 ← dec x3; x4 ← dec x4; x5 ← dec x5; x6 ← dec x6; x7 ← dec x7;
        x8 ← dec x8; x9 ← dec x9; x10 ← dec x10; x11 ← dec x11; x12 ← dec x12; x13 ← dec x13; x14 ← dec x14;
        x15 ← dec x15; x16 ← dec x16;
        Some (mkDestructivePlan x0 x1 x2 x3 x4 x5 x6 x7 x8 x9 x10 x11 x12 x13 x14 x15 x16)
    | _ => None
    end;
|}.
#[global] Instance DestructivePlan_code_ok : CodeOk DestructivePlan.
Proof. intros r. cbn [enc dec DestructivePlan_code]. code_ok. by destruct r. Qed.

#[global] Instance ManagedTrust_code : Code ManagedTrust := {|
  enc r := positives_flatten [
    enc (ManagedTrust_RootPin r); enc (ManagedTrust_Bundle r); enc (ManagedTrust_APICertPEM r);
    enc (ManagedTrust_APIKey r); enc (ManagedTrust_OperationalHash r); enc (ManagedTrust_PendingKey r);
    enc (ManagedTrust_EnrolledAt r); enc (ManagedTrust_UpdatedAt r)];
  dec p := l ← positives_unflatten p;
    match l with
    | [x0; x1; x2; x3; x4; x5; x6; x7] =>
        x0 ← dec x0; x1 ← dec x1; x2 ← dec x2; x3 ← dec x3; x4 ← dec x4; x5 ← dec x5; x6 ← dec x6; x7 ← dec x7;
        Some (mkManagedTrust x0 x1 x2 x3 x4 x5 x6 x7)
    | _ => None
    end;
|}.
#[global] Instance ManagedTrust_code_ok : CodeOk ManagedTrust.
Proof. intros r. cbn [enc dec ManagedTrust_code]. code_ok. by destruct r. Qed.

#[global] Instance Binding_code : Code signedauth.Binding := {|
  enc r := positives_flatten [
    enc (signedauth.ActorID r); enc (signedauth.CredentialID r); enc (signedauth.Operation r);
    enc (signedauth.RequestID r); enc (signedauth.SourceNodeID r); enc (signedauth.SourceGrantID r);
    enc (signedauth.SourceMountID r); enc (signedauth.SourceRoot r); enc (signedauth.DestinationNodeID r);
    enc (signedauth.DestinationGrantID r); enc (signedauth.DestinationMountID r);
    enc (signedauth.DestinationRoot r); enc (signedauth.PlanID r); enc (signedauth.JobOptionsDigest r)];
  dec p := l ← positives_unflatten p;
    match l with
    | [x0; x1; x2; x3; x4; x5; x6; x7; x8; x9; x10; x11; x12; x13] =>
        x0 ← dec x0; x1 ← dec x1; x2 ← dec x2; x3 ← dec x3; x4 ← dec x4; x5 ← dec x5; x6 ← dec x6; x7 ← dec x7;
        x8 ← dec x8; x9 ← dec x9; x10 ← dec x10; x11 ← dec x11; x12 ← dec x12; x13 ← dec x13;
        Some (signedauth.mkBinding x0 x1 x2 x3 x4 x5 x6 x7 x8 x9 x10 x11 x12 x13)
    | _ => None
    end;
|}.
#[global] Instance Binding_code_ok : CodeOk signedauth.Binding.
Proof. intros r. cbn [enc dec Binding_code]. code_ok. by destruct r. Qed.

#[global] Instance JobAuthorization_code : Code JobAuthorization := {|
  enc r := positives_flatten [
    enc (auth_JobID r); enc (auth_Binding r); enc (Revision r); enc (Envelope r); enc (auth_ExpiresAt r)];
  dec p := l ← positives_unflatten p;
    match l with
    | [x0; x1; x2; x3; x4] =>
        x0 ← dec x0; x1 ← dec x1; x2 ← dec x2; x3 ← dec x3; x4 ← dec x4;
        Some (mkJobAuthorization x0 x1 x2 x3 x4)
    | _ => None
    end;
|}.
#[global] Instance JobAuthorization_code_ok : CodeOk JobAuthorization.
Proof. intros r. cbn [enc dec JobAuthorization_code]. code_ok. by destruct r. Qed.

#[global] Instance idempotencyRecord_code : Code idempotencyRecord := {|
  enc r := positives_flatten [
    enc (JobID r); enc (RequestHash r)];
  dec p := l ← positives_unflatten p;
    match l with
    | [x0; x1] =>
        x0 ← dec x0; x1 ← dec x1;
        Some (Build_idempotencyRecord x0 x1)
    | _ => None
    end;
|}.
#[global] Instance idempotencyRecord_code_ok : CodeOk idempotencyRecord.
Proof. intros r. cbn [enc dec idempotencyRecord_code]. code_ok. by destruct r. Qed.

#[global] Instance inviteRecord_code : Code inviteRecord := {|
  enc r := positives_flatten [
    enc (Invite r); enc (invite_SecretHash r)];
  dec p := l ← positives_unflatten p;
    match l with
    | [x0; x1] =>
        x0 ← dec x0; x1 ← dec x1;
        Some (mkinvite x0 x1)
    | _ => None
    end;
|}.
#[global] Instance inviteRecord_code_ok : CodeOk inviteRecord.
Proof. intros r. cbn [enc dec inviteRecord_code]. code_ok. by destruct r. Qed.

#[global] Instance requestRecord_code : Code requestRecord := {|
  enc r := positives_flatten [
    enc (Request r); enc (request_SecretHash r)];
  dec p := l ← positives_unflatten p;
    match l with
    | [x0; x1] =>
        x0 ← dec x0; x1 ← dec x1;
        Some (mkrequest x0 x1)
    | _ => None
    end;
|}.
#[global] Instance requestRecord_code_ok : CodeOk requestRecord.
Proof. intros r. cbn [enc dec requestRecord_code]. code_ok. by destruct r. Qed.

#[global] Instance configurationRecord_code : Code configurationRecord := {|
  enc r := positives_flatten [
    enc (conf_Revision r); enc (AppliedAt r); enc (Settings r)];
  dec p := l ← positives_unflatten p;
    match l with
    | [x0; x1; x2] =>
        x0 ← dec x0; x1 ← dec x1; x2 ← dec x2;
        Some (mkconfiguration x0 x1 x2)
    | _ => None
    end;
|}.
#[global] Instance configurationRecord_code_ok : CodeOk configurationRecord.
Proof. intros r. cbn [enc dec configurationRecord_code]. code_ok. by destruct r. Qed.
(** Numbers as text, and the codec. *)
Fixpoint bits (p : positive) : string :=
  match p with 1 => "" | p~0 => String "0" (bits p) | p~1 => String "1" (bits p) end%positive.
Fixpoint of_bits (s : string) : positive :=
  match s with "" => 1 | String c s => if Ascii.eqb c "0" then (of_bits s)~0 else (of_bits s)~1 end%positive.
Lemma of_bits_bits p : of_bits (bits p) = p.
Proof. induction p as [p IH|p IH|]; simpl; congruence. Qed.

#[global] Instance code_yaml `{Code A} : Yaml A := {|
  Marshal a := Ok (bits (enc a));
  Unmarshal s := match dec (of_bits s) with Some a => Ok a | None => Err (errors_New "unreadable") end;
|}.
#[global] Instance code_yaml_ok `{CodeOk A} : Faithful A.
Proof. split. intros a. eexists. split; [done|]. simpl. by rewrite of_bits_bits, dec_enc. Qed.

(** Audit records are written and never read. *)
#[global] Instance audit_yaml : Yaml auditRecord := {|
  Marshal a := Ok (Action a);
  Unmarshal _ := Err (errors_New "unreadable");
|}.
