(* ===== verification/StateExamples.v ===== *)
(** A concrete history of the node's state: the theorems of StateProgFacts.v and
    StateSafety.v applied where their hypotheses hold. *)
From S2P Require Import Prelude GoLib Base64 Json FileTypes Entities SignedAuth SignedAuthExamples GoTime.
From S2P Require Import StateProg StateRecords StateAuthorizations StateJobs StatePlans StateUploads.
From S2P Require Import StatePeers StateProgFacts StateLaws StateJobsFacts StatePeersFacts StateLife.
From S2P Require Import StateSafety JobGuard StateCodec.
From stdpp Require Import options.
Local Open Scope Z_scope.
#[local] Existing Instance latin1_unicode.
#[local] Existing Instance demo_crypto.

(** ** The history *)

Definition hex64 : string := "00112233445566778899aabbccddeeff00112233445566778899aabbccddeeff".
Definition the_env : env := mkenv "node-1" demo_keys at_110.
Definition empty_db : db := mkdb ∅ 0 1 false false false.
Definition ask {A} (c : op A) (d : db) : db := (db_call no_faults None c d).1.
Definition answer {A} (c : op A) (d : db) : result A := (db_call no_faults None c d).2.

Definition the_plan : DestructivePlan :=
  mkDestructivePlan "plan-1" hex64 "user" "alice" "delete" "m1" "docs/a" "" false false hex64 "" zero_time zero_time "" "" "".
Definition the_job : Job :=
  Job_zero <| Job_ID := "job-1" |> <| Job_Type := "delete" |> <| Job_State := "queued" |> <| Job_MountID := "m1" |>
           <| Job_SourcePath := "docs/a" |> <| Job_Recursive := true |> <| Job_CreatedAt := at_110 |>.
Definition open_job : Job := the_job <| Job_ID := "job-2" |> <| Job_Type := "copy_local" |>.
Definition lease_token (revision : Z) : string :=
  token_of (signedauth.mkClaims 1 "k1" (lease_scope <| signedauth.RequestID := signedauth.JobLeaseRequestID "job-1" revision |>) 100 120 demo_context).
#[local] Abbreviation accept := (AcceptDestructivePlan "plan-1" "user" "alice" hex64 hex64 false "" the_job "key-1" hex64 at_110).
#[local] Abbreviation renew_at revision :=
  (RenewJobAuthorization "job-1" (env_node the_env) (lease_token revision) lease_scope (env_keys the_env) (env_now the_env)).
#[local] Abbreviation claim_secured_job := (ClaimNextSecuredJob (env_node the_env) (env_keys the_env) (env_now the_env)).

Definition planned : db := ask (CreateDestructivePlan the_plan at_110) empty_db.
Definition accepted : db := ask accept planned.
Definition authorized : db := ask (renew_at 1) accepted.
Definition running : db := ask claim_secured_job authorized.
Definition renewed : db := ask (renew_at 2) authorized.

Lemma wf_empty : wf empty_db.
Proof. split; intros k s; unfold at_, bucket_of; simpl; rewrite lookup_empty; simpl; by rewrite lookup_empty. Qed.

Lemma asked {A} (c : op A) d : StoreOp the_env c → call_step the_env d (ask c d).
Proof. intros Hc. unfold ask. destruct (db_call no_faults None c d) as [d' r] eqn:E. by apply (Call _ _ _ c no_faults None r). Qed.
Lemma asked_step {A} (c : op A) d : StoreOp the_env c → step d (ask c d).
Proof. intros Hc. exists the_env. by apply asked. Qed.
Lemma asked_wf {A} (c : op A) d : StoreOp the_env c → wf d → wf (ask c d).
Proof. intros Hc Hwf. eapply wf_step; [exact Hwf|by apply asked]. Qed.

Lemma wf_planned : wf planned.
Proof. exact (asked_wf _ _ (OpCreatePlan _ _ _) wf_empty). Qed.
Lemma wf_accepted : wf accepted.
Proof. exact (asked_wf _ _ (OpAcceptPlan _ _ _ _ _ _ _ _ _ _ _ _) wf_planned). Qed.
Lemma wf_authorized : wf authorized.
Proof. exact (asked_wf _ _ (OpRenew _ _ _ _) wf_accepted). Qed.
Lemma wf_running : wf running.
Proof. exact (asked_wf _ _ (OpClaimNextSecuredJob _) wf_authorized). Qed.

Definition job_of (d : db) : Job := default Job_zero (value_at Job d "jobs" "job-1").
Definition plan_of (d : db) : DestructivePlan := default DestructivePlan_zero (value_at DestructivePlan d "destructive_plans" "plan-1").
Definition auth_of (d : db) : JobAuthorization :=
  default (mkJobAuthorization "" signedauth.Binding_zero 0 "" 0) (value_at JobAuthorization d "job_authorizations" "job-1").

(** The job, the plan and the lease of the history, as they are stored. *)
Example history :
  Job_State (job_of accepted) = "waiting_validation" ∧ Job_State (job_of authorized) = "queued" ∧
  Job_State (job_of running) = "running" ∧ DestructivePlan_ConsumedJobID (plan_of accepted) = "job-1" ∧
  Revision (auth_of authorized) = 1 ∧ Revision (auth_of renewed) = 2.
Proof. vm_compute. by split_and!. Qed.

(** ** Transactions *)

(** The transaction that records one job, as [tx.put] builds it. *)
Definition put_one : prog () := put_job "job-2" open_job.

Definition the_event : JobEvent := JobEvent_zero <| JobEvent_JobID := "job-1" |>.
Definition logged : db := ask (RecordJobEvent the_event) running.
Definition event_key : string := pad_dec 20 5.

Lemma history_append_only_witness :
  at_ (db_update no_faults None put_one logged).1 "events" event_key = at_ logged "events" event_key.
Proof.
  destruct (at_ logged "events" event_key) as [s|] eqn:E; [|vm_compute in E; discriminate E].
  apply (history_append_only no_faults None put_one logged _ (Ok ()) "events" event_key s);
    [vm_compute; reflexivity|reflexivity|exact E].
Defined.

Lemma unavailable_refuses_witness :
  (db_update no_faults None put_one (empty_db <| unavailable := true |>)).1 = empty_db <| unavailable := true |> ∧
  ∃ e, (db_update no_faults None put_one (empty_db <| unavailable := true |>)).2 = Err e.
Proof.
  apply (unavailable_refuses no_faults None put_one (empty_db <| unavailable := true |>)); [left; reflexivity|].
  vm_compute. reflexivity.
Defined.

(** ** Jobs, plans and leases *)

Lemma operations_preserve_wf_witness : wf (ask accept planned).
Proof. apply (operations_preserve_wf the_env planned); [apply wf_planned|]. apply asked. apply OpAcceptPlan. Defined.

Lemma job_lifecycle_witness :
  value_at Job running "jobs" "job-1" = value_at Job authorized "jobs" "job-1" ∨
  ∃ j, value_at Job running "jobs" "job-1" = Some j ∧ job_step the_env authorized (value_at Job authorized "jobs" "job-1") j.
Proof. apply job_lifecycle; [apply wf_authorized|]. apply asked. apply OpClaimNextSecuredJob. Defined.

Lemma secured_jobs_need_a_lease_witness : ∃ old, value_at Job authorized "jobs" "job-1" = Some old ∧
  (executing old = true ∨
   Job_State old = "queued" ∧ executableSecuredJob old = true ∧ due the_env old = true ∧ ∃ lease, leased the_env authorized old lease).
Proof.
  apply (secured_jobs_need_a_lease the_env authorized running "job-1" (job_of running)).
  - apply wf_authorized.
  - apply asked. apply OpClaimNextSecuredJob.
  - vm_compute. reflexivity.
  - vm_compute. reflexivity.
  - vm_compute. reflexivity.
Defined.

Lemma claimed : rtc step accepted running.
Proof.
  apply (rtc_l _ _ authorized); [exact (asked_step _ _ (OpRenew _ _ _ _))|].
  apply (rtc_l _ _ running); [exact (asked_step _ _ (OpClaimNextSecuredJob _))|]. apply rtc_refl.
Qed.

Lemma secured_scope_is_fixed_witness : ∃ j', value_at Job running "jobs" "job-1" = Some j' ∧ secured j' = true ∧
  scope j' = scope (job_of accepted) ∧ (Job_SignedAuthBound (job_of accepted) = true → Job_SignedAuthBound j' = true).
Proof.
  apply (secured_scope_is_fixed accepted running "job-1" (job_of accepted)).
  - apply wf_accepted.
  - apply claimed.
  - vm_compute. reflexivity.
  - vm_compute. reflexivity.
Defined.

(** The job is canceled while it waits; afterwards somebody tries to queue it. *)
Definition canceled : db := ask (UpdateJob ((job_of accepted) <| Job_State := "canceled" |>)) accepted.
Definition retried : db := ask (UpdateJob ((job_of accepted) <| Job_State := "queued" |>)) canceled.

Lemma ended_jobs_stay_ended_witness : ∃ j', value_at Job retried "jobs" "job-1" = Some j' ∧ Job_State j' = Job_State (job_of canceled).
Proof.
  apply (ended_jobs_stay_ended canceled retried "job-1").
  - exact (asked_wf _ _ (OpUpdateJob _ _) wf_accepted).
  - apply rtc_once. exact (asked_step _ _ (OpUpdateJob _ _)).
  - vm_compute. reflexivity.
  - vm_compute. reflexivity.
Defined.

Lemma consumed_plans_are_final_witness : value_at DestructivePlan running "destructive_plans" "plan-1" = Some (plan_of accepted).
Proof.
  apply (consumed_plans_are_final accepted running).
  - apply wf_accepted.
  - apply claimed.
  - vm_compute. reflexivity.
  - vm_compute. discriminate.
Defined.

Lemma leases_move_forward_witness : ∃ a', value_at JobAuthorization renewed "job_authorizations" "job-1" = Some a' ∧
  signedauth.ActorID (auth_Binding a') = "alice" ∧ (1 < Revision a' ∨ a' = auth_of authorized).
Proof.
  assert (Revision (auth_of authorized) = 1) as E1 by (vm_compute; reflexivity).
  assert (signedauth.ActorID (auth_Binding (auth_of authorized)) = "alice") as E2 by (vm_compute; reflexivity).
  assert (∃ a', value_at JobAuthorization renewed "job_authorizations" "job-1" = Some a' ∧
    auth_Binding a' = auth_Binding (auth_of authorized) ∧ (Revision (auth_of authorized) < Revision a' ∨ a' = auth_of authorized))
    as (a' & H1 & H2 & H3).
  { apply (leases_move_forward authorized renewed "job-1" (auth_of authorized)).
    - apply wf_authorized.
    - apply rtc_once. exact (asked_step _ _ (OpRenew _ _ _ _)).
    - vm_compute. reflexivity. }
  exists a'. rewrite E1 in H3. rewrite H2, E2. split; [exact H1|]. split; [reflexivity|exact H3].
Defined.

(** ** Bindings, revocations, invites *)

Definition the_mount : Mount := Mount_zero <| Mount_ID := "m1" |> <| Mount_LocalPath := "/srv/a" |> <| Mount_Enabled := true |>
                                       <| Mount_Mode := "read_write" |>.
Definition the_grant : TransferPathGrant :=
  TransferPathGrant_zero <| TransferPathGrant_ID := "g1" |> <| TransferPathGrant_PeerNodeID := "node-2" |>
    <| TransferPathGrant_MountID := "m1" |> <| TransferPathGrant_Path := "docs" |> <| TransferPathGrant_Enabled := true |>.
Definition the_peer : Peer := Peer_zero <| Peer_NodeID := "node-2" |> <| Peer_State := "trusted" |>.
Definition the_invite : PairingInvite :=
  PairingInvite_zero <| PairingInvite_ID := "inv-1" |> <| PairingInvite_Status := "pending" |> <| PairingInvite_ExpiresAt := at_110 |>.

Definition configured : db := ask (ApplyConfiguration "r1" [the_mount] [the_grant] [] at_110 at_110) empty_db.
Definition reconfigured : db :=
  ask (ApplyConfiguration "r2" [the_mount <| Mount_LocalPath := "/srv/b" |>] [] [] at_110 at_110) configured.
Definition invited : db := ask (CreatePairingInvite the_invite "secret") configured.
Definition paired : db := ask (ApprovePairingInvite "inv-1" "secret" the_peer at_110) invited.
Definition revoked : db := ask (RevokePeer "node-2" "" at_110 at_110) paired.
Definition regranted : db := ask (ApplyConfiguration "r2" [the_mount] [the_grant] [] at_110 at_110) revoked.

Lemma wf_configured : wf configured.
Proof. exact (asked_wf _ _ (OpApplyConfiguration _ _ _ _ _ _ _) wf_empty). Qed.
Lemma wf_invited : wf invited.
Proof. exact (asked_wf _ _ (OpCreateInvite _ _ _) wf_configured). Qed.
Lemma wf_paired : wf paired.
Proof. exact (asked_wf _ _ (OpApproveInvite _ _ _ _ _) wf_invited). Qed.
Lemma wf_revoked : wf revoked.
Proof. exact (asked_wf _ _ (OpRevokePeer _ _ _ _ _) wf_paired). Qed.

(** The grant is effective before its peer is revoked. *)
Definition checked (d : db) : result grantCheck := (db_view no_faults None (prepareGrant the_grant) d).2.
Definition the_check (d : db) : grantCheck := match checked d with Ok c => c | Err _ => mkcheck TransferPathGrant_zero Mount_zero true end.
Example grant_before_and_after :
  TransferPathGrant_Enabled (check_grant (the_check paired)) = true ∧ checkPath (the_check paired) = true ∧
  TransferPathGrant_InactiveReason (check_grant (the_check revoked)) = "revoked".
Proof. vm_compute. by split_and!. Qed.

Lemma bindings_are_permanent_witness : value_at string reconfigured "mount_bindings" "m1" = Some "/srv/a".
Proof.
  apply (bindings_are_permanent "mount_bindings" configured reconfigured).
  - left. reflexivity.
  - apply wf_configured.
  - apply rtc_once. exact (asked_step _ _ (OpApplyConfiguration _ _ _ _ _ _ _)).
  - vm_compute. reflexivity.
Defined.

Lemma revoked_grants_stay_disabled_witness :
  TransferPathGrant_Enabled (check_grant (the_check regranted)) = false ∧ checkPath (the_check regranted) = false.
Proof.
  apply (revoked_grants_stay_disabled revoked regranted regranted no_faults None the_grant).
  - apply wf_revoked.
  - apply rtc_once. exact (asked_step _ _ (OpApplyConfiguration _ _ _ _ _ _ _)).
  - vm_compute. eexists. reflexivity.
  - vm_compute. reflexivity.
Defined.

Lemma settled_invites_cannot_be_approved_witness :
  (∃ err, answer (ApprovePairingInvite "inv-1" "secret" the_peer at_110) revoked = Err err) ∧
  ∀ b i, at_ (ask (ApprovePairingInvite "inv-1" "secret" the_peer at_110) revoked) b i = at_ revoked b i.
Proof.
  apply (settled_invites_cannot_be_approved paired revoked _ "inv-1" "secret" the_peer at_110 no_faults None).
  - apply wf_paired.
  - apply rtc_once. exact (asked_step _ _ (OpRevokePeer _ _ _ _ _)).
  - vm_compute. eexists. split; [reflexivity|discriminate].
  - unfold ask, answer. destruct (db_call _ _ _ _). reflexivity.
Defined.

(** ** Replays *)

Definition created : db := ask (CreateJobWithItemsHashed open_job [] "key-2" "hash-2") empty_db.
Definition claimed_open : db := ask (ClaimNextJob at_110) created.
Definition other_job : Job := open_job <| Job_ID := "job-3" |>.
#[local] Abbreviation create_again hash := (CreateJobWithItemsHashed other_job [] "key-2" hash).

Lemma creation_is_idempotent_witness :
  (∀ b k, at_ (ask (create_again "hash-2") claimed_open) b k = at_ claimed_open b k) ∧
  (∀ j' b', answer (create_again "hash-2") claimed_open = Ok (j', b') →
     b' = true ∧ Job_ID j' = Job_ID open_job ∧ (false = false → "hash-2" = "" ∨ "hash-2" = "hash-2")).
Proof.
  apply (creation_is_idempotent empty_db created claimed_open _ open_job [] "key-2" "hash-2" open_job false other_job [] "hash-2"
           no_faults None no_faults None).
  - apply wf_empty.
  - discriminate.
  - vm_compute. reflexivity.
  - apply rtc_once. exact (asked_step _ _ (OpClaimNextJob _ _)).
  - unfold ask, answer. destruct (db_call _ _ _ _). reflexivity.
Defined.
Example replayed_or_refused :
  match answer (create_again "hash-2") claimed_open with Ok (j, b) => Job_ID j = "job-2" ∧ b = true | Err _ => False end ∧
  answer (create_again "hash-3") claimed_open = Err ErrIdempotencyConflict.
Proof. vm_compute. by split_and!. Qed.

#[local] Abbreviation accept_again key :=
  (AcceptDestructivePlan "plan-1" "user" "alice" hex64 hex64 false "" (the_job <| Job_ID := "job-9" |>) key hex64 at_110).
Definition accepted_job : Job := match answer accept planned with Ok (j, _) => j | Err _ => Job_zero end.

Lemma plans_are_accepted_once_witness :
  (∀ b k, at_ (ask (accept_again "key-1") running) b k = at_ running b k) ∧
  (∀ j' b', answer (accept_again "key-1") running = Ok (j', b') →
     b' = true ∧ Job_ID j' = Job_ID accepted_job ∧ "key-1" = "key-1" ∧ hex64 = hex64).
Proof.
  apply (plans_are_accepted_once planned accepted running _ "plan-1" "user" "alice" hex64 hex64 false "" the_job "key-1" hex64 at_110
           accepted_job no_faults None "user" "alice" hex64 hex64 false "" (the_job <| Job_ID := "job-9" |>) "key-1" hex64 at_110
           no_faults None).
  - apply wf_planned.
  - vm_compute. reflexivity.
  - apply claimed.
  - unfold ask, answer. destruct (db_call _ _ _ _). reflexivity.
Defined.
Example accepted_again_or_refused :
  match answer (accept_again "key-1") running with Ok (j, b) => Job_ID j = "job-1" ∧ b = true | Err _ => False end ∧
  answer (accept_again "key-9") running = Err ErrInUse.
Proof. vm_compute. by split_and!. Qed.

(** A guard started on the authorized job: its goroutine runs, a quarter of a
    second passes in which the lease is renewed, the ticker fires and a turn of
    the loop takes the new lease over. *)
Definition guard_of (r : db * result (guard * filetypes.Filter)) : guard :=
  match r.2 with
  | Ok (g, _) => g
  | Err _ => mkguard (mkJobAuthorization "" signedauth.Binding_zero 0 "" 0) "" (Some ErrInUse) Returned None None None None
  end.
Definition filter_of (r : db * result (guard * filetypes.Filter)) : filetypes.Filter :=
  match r.2 with Ok (_, f) => f | Err _ => {| filetypes.rules := [] |} end.
#[local] Abbreviation ms_250 := 250000000.
#[local] Abbreviation tick_at := (at_110 + ms_250).
#[local] Abbreviation started_guard := (guardJobAuthorization "job-1" "node-1" demo_keys no_faults None ms_250 at_110 authorized).
#[local] Abbreviation looping_guard := (guard_go ms_250 at_110 (guard_of started_guard)).
#[local] Abbreviation ticked_guard := (ticker_fire ms_250 tick_at looping_guard).
#[local] Abbreviation turned := (select_turn "job-1" "node-1" demo_keys Tick no_faults tick_at ticked_guard renewed).
Definition guard_after (r : option (db * guard)) : guard := from_option snd (guard_of (authorized, Err ErrInUse)) r.
Definition store_after (r : option (db * guard)) : db := from_option fst authorized r.

Example turn_goes_on :
  cause (guard_after turned) = None ∧ Revision (current looping_guard) = 1 ∧ timer looping_guard = Some (auth_ExpiresAt (current looping_guard)) ∧
  Revision (current (guard_after turned)) = 2 ∧ timer (guard_after turned) = Some (auth_ExpiresAt (current (guard_after turned))).
Proof. vm_compute. by split_and!. Qed.

(** The run of such a guard, for any store the renewal leaves. *)
Lemma guard_run jobID nodeID keys lag interval now t d d2 d' o g g' : routine g = Created now → now ≤ t → waiting lag (guard_go interval now g) t →
  select_turn jobID nodeID keys Tick o t (ticker_fire interval t (guard_go interval now g)) d2 = Some (d', g') →
  rtc (w_step jobID nodeID keys lag interval) (mkworld d g now now d) (mkworld d' g' t t d2).
Proof.
  intros Hr Hle Hw Ht. eapply rtc_l; [by eapply w_go|]. eapply rtc_l; [by apply (w_store _ _ _ _ _ _ d2)|].
  eapply rtc_l; [by apply (w_wait _ _ _ _ _ _ t)|]. eapply rtc_l; [apply w_ticker|]. apply rtc_once. by eapply (w_turn _ _ _ _ _ (mkworld _ _ _ _ _)).
Qed.
Definition renewed_world : world := mkworld (store_after turned) (guard_after turned) tick_at tick_at renewed.

