(* ===== verification/Trust.v ===== *)
(** What a node trusts (node/backend/internal/trust): the bundle of roots, issuers,
    signing keys and revoked serials the Control Tower sends (bundle.go, of which
    control/internal/pki/bundle.go is a copy), certificates (certs.go), and the
    manager that enrolls the node, adopts newer bundles and renews its certificate
    (manager.go), over the node's state. *)
From S2P Require Import Prelude GoLib Base64 Json Entities FileTypes SignedAuth GoTime StateProg StateRecords StateUploads.
From stdpp Require Import options.
Local Open Scope Z_scope.
Local Open Scope go_scope.

(** * Packages crypto/x509 and encoding/pem

    A certificate and what the code reads of it; [pem_Decode] gives the type and the
    content of the first block and the rest of the text. *)
Class X509 := {
  Certificate : Type;
  Raw : Certificate → string;
  SerialNumber : Certificate → string;
  IsCA : Certificate → bool;
  BasicConstraintsValid : Certificate → bool;
  NotBefore : Certificate → time;
  NotAfter : Certificate → time;
  CommonName : Certificate → string;
  ClientAuth : Certificate → bool;
  CheckSignatureFrom : Certificate → Certificate → bool;
  x509_ParseCertificate : string → option Certificate;
  VerifyServer : Certificate → list Certificate → list Certificate → time → option (list (list Certificate));
  PrivateKey : Type;
  ParsePKCS8PrivateKey : string → option PrivateKey;
  key_matches : Certificate → PrivateKey → bool;
  pem_Decode : string → option (string * string * string);
}.
(** The rest is what follows the block. *)
Class X509Ok (X : X509) : Prop := pem_shrinks : ∀ data type content rest, pem_Decode data = Some (type, content, rest) → (String.length rest < String.length data)%nat.

Module trust.

(** * Dates in JSON

    A date keeps the distance of its zone to UTC, in seconds, and is written with it. *)
Record ztime := mkZtime { instant : time; zone : Z }.
Definition UTC (t : time) : ztime := mkZtime t 0.
Definition zone_text (offset : Z) : string :=
  (if offset <? 0 then "-" else "+") +++ pad_dec 2 (Z.abs offset / 3600) +++ ":" +++ pad_dec 2 (Z.abs offset mod 3600 / 60).
Definition format_zone (t : ztime) : string :=
  if zone t =? 0 then Format (instant t)
  else TrimSuffix (Format (instant t + zone t * nanoseconds)) "Z" +++ zone_text (zone t).
Definition marshal_time (t : ztime) : result string :=
  let '(y, _, _) := civil ((instant t + zone t * nanoseconds) / nanoseconds / 86400) in
  if (0 <=? y) && (y <=? 9999) then Ok (quote +++ format_zone t +++ quote) else Err (errors_New "Time.MarshalJSON: year outside of range [0,9999]").
(** The distance to UTC a date was written with; [Parse] has read it before. *)
Definition zone_of (text : string) : Z :=
  if HasSuffix text "Z" then 0 else default 0 (read_zone (of_bytes (drop (String.length text - 6) (bytes text)))).
(** The text between the quotes, escapes and all, is the date. *)
Definition decode_time (old : ztime) (raw : string) (v : json) : result ztime :=
  match v with
  | JNull => Ok old
  | JString _ =>
    let text := TrimSuffix (TrimPrefix raw quote) quote in
    match Parse text with Some t => Ok (mkZtime t (zone_of text)) | None => Err err_decode end
  | _ => Err err_decode
  end.

(** * bundle.go: data *)

Definition bundleDomain : string := "jolt-trust-bundle-v1" +++ String (byte_of 10) "".
Definition MaxBundleRoots : Z := 2.
Definition MaxBundleIssuers : Z := 2.
Definition MaxBundleKeys : Z := 16.
Definition MaxRevokedSerials : Z := 1024.
Definition maxBundleBytes : Z := 262144.

Record BundleKey := mkBundleKey { Key_ID : string; Key_Key : string; Key_NotAfter : ztime }.
#[global] Instance BundleKey_eta : Eta BundleKey := λ k, mkBundleKey (Key_ID k) (Key_Key k) (Key_NotAfter k).
Record BundleSignature := mkBundleSignature { Sig_KeyID : string; Sig_Value : string }.
#[global] Instance BundleSignature_eta : Eta BundleSignature := λ s, mkBundleSignature (Sig_KeyID s) (Sig_Value s).
(** A slice that is nil is written as null. *)
Record Bundle := mkBundle {
  Bundle_Version : Z;
  IssuedAt : ztime;
  Roots : option (list string);
  Intermediates : option (list string);
  SigningKeys : option (list BundleKey);
  RevokedSerials : option (list string);
  Signature : BundleSignature;
}.
#[global] Instance Bundle_eta : Eta Bundle := λ b,
  mkBundle (Bundle_Version b) (IssuedAt b) (Roots b) (Intermediates b) (SigningKeys b) (RevokedSerials b) (Signature b).
Definition no_signature : BundleSignature := mkBundleSignature "" "".
Definition zero_key : BundleKey := mkBundleKey "" "" (UTC zero_time).
Definition zero_bundle : Bundle := mkBundle 0 (UTC zero_time) None None None None no_signature.
Definition slice {A} (l : option (list A)) : list A := default [] l.

(** * JSON *)

Definition json_slice {A} (f : A → string) (l : option (list A)) : string := match l with None => "null" | Some l => json_list f l end.
Definition marshal_key (k : BundleKey) : result string :=
  t ← marshal_time (Key_NotAfter k);
  Ok (json_object [Some (json_field "id" (json_string (Key_ID k))); Some (json_field "key" (json_string (Key_Key k))); Some (json_field "not_after" t)]).
Definition marshal_keys (l : option (list BundleKey)) : result string :=
  match l with None => Ok "null" | Some l => texts ← mapM marshal_key l; Ok (json_list (λ s, s) texts) end.
Definition signature_json (s : BundleSignature) : string :=
  json_object [Some (json_field "key_id" (json_string (Sig_KeyID s))); Some (json_field "value" (json_string (Sig_Value s)))].
Definition Bundle_Marshal (b : Bundle) : result string :=
  issued ← marshal_time (IssuedAt b);
  keys ← marshal_keys (SigningKeys b);
  Ok (json_object [Some (json_field "version" (json_int (Bundle_Version b))); Some (json_field "issued_at" issued);
    Some (json_field "roots" (json_slice json_string (Roots b))); Some (json_field "intermediates" (json_slice json_string (Intermediates b)));
    Some (json_field "signing_keys" keys); Some (json_field "revoked_serials" (json_slice json_string (RevokedSerials b)));
    Some (json_field "signature" (signature_json (Signature b)))]).

Definition decode_slice {A} (elem : A → json → result A) (zero : A) (old : option (list A)) (v : json) : result (option (list A)) :=
  match v with JNull => Ok None | _ => l ← decode_list elem zero (slice old) v; Ok (Some l) end.
Definition decode_key (old : BundleKey) (v : json) : result BundleKey :=
  decode_struct ["id"; "key"; "not_after"] (λ k name raw v,
    if name =s "id" then x ← decode_string (Key_ID k) v; Ok (k <| Key_ID := x |>)
    else if name =s "key" then x ← decode_string (Key_Key k) v; Ok (k <| Key_Key := x |>)
    else x ← decode_time (Key_NotAfter k) raw v; Ok (k <| Key_NotAfter := x |>)) old v.
Definition decode_signature (old : BundleSignature) (v : json) : result BundleSignature :=
  decode_struct ["key_id"; "value"] (λ s name _ v,
    if name =s "key_id" then x ← decode_string (Sig_KeyID s) v; Ok (s <| Sig_KeyID := x |>)
    else x ← decode_string (Sig_Value s) v; Ok (s <| Sig_Value := x |>)) old v.
Definition bundle_fields : list string := ["version"; "issued_at"; "roots"; "intermediates"; "signing_keys"; "revoked_serials"; "signature"].
Definition decode_bundle (old : Bundle) (v : json) : result Bundle :=
  decode_struct bundle_fields (λ b name raw v,
    if name =s "version" then x ← decode_int (Bundle_Version b) v; Ok (b <| Bundle_Version := x |>)
    else if name =s "issued_at" then x ← decode_time (IssuedAt b) raw v; Ok (b <| IssuedAt := x |>)
    else if name =s "roots" then x ← decode_slice decode_string "" (Roots b) v; Ok (b <| Roots := x |>)
    else if name =s "intermediates" then x ← decode_slice decode_string "" (Intermediates b) v; Ok (b <| Intermediates := x |>)
    else if name =s "signing_keys" then x ← decode_slice decode_key zero_key (SigningKeys b) v; Ok (b <| SigningKeys := x |>)
    else if name =s "revoked_serials" then x ← decode_slice decode_string "" (RevokedSerials b) v; Ok (b <| RevokedSerials := x |>)
    else x ← decode_signature (Signature b) v; Ok (b <| Signature := x |>)) old v.
(** The decoder reads one value and then the end of the text. *)
Definition ParseBundle (data : string) : result Bundle :=
  if maxBundleBytes <? len data then Err (errors_New "trust bundle is too large") else json_parse data ≫= decode_bundle zero_bundle.

Section Trust.
Context {U : Unicode} {C : Crypto} {X : X509}.

(** * certs.go *)

Definition ControlTowerName : string := "Jolt Control Tower".
Definition Fingerprint (cert : Certificate) : string := hex_EncodeToString (sha256_Sum (Raw cert)).
Definition ParseCertificate (data : string) : result Certificate :=
  match pem_Decode data with
  | None => Err (errors_New "expected exactly one PEM certificate")
  | Some (type, content, rest) =>
    if (type ≠s "CERTIFICATE") || negb (len (TrimSpace rest) =? 0) then Err (errors_New "expected exactly one PEM certificate")
    else match x509_ParseCertificate content with Some c => Ok c | None => Err (errors_New "x509: malformed certificate") end
  end.
Definition VerifiedChains (leaf : Certificate) (roots intermediates : list Certificate) (now : time) : result (list (list Certificate)) :=
  match VerifyServer leaf roots intermediates now with Some chains => Ok chains | None => Err (errors_New "x509: certificate is not valid") end.

(** * bundle.go: operations *)

Definition payload (b : Bundle) : result string :=
  encoded ← Bundle_Marshal (b <| Signature := no_signature |>); Ok (bundleDomain +++ encoded).
Definition Sign (b : Bundle) (keyID key : string) : result Bundle :=
  if negb (signedauth.ValidKeyID keyID) || negb (len key =? PrivateKeySize) then Err (errors_New "invalid bundle signing key") else
  text ← payload b;
  Ok (b <| Signature := mkBundleSignature keyID (StdEncoding_EncodeToString (ed25519_Sign key text)) |>).
Definition Certificates (b : Bundle) : result (list Certificate * list Certificate) :=
  roots ← mapM ParseCertificate (slice (Roots b));
  intermediates ← mapM ParseCertificate (slice (Intermediates b));
  Ok (roots, intermediates).
Definition public_key (entry : BundleKey) : option string :=
  raw ← StdEncoding_DecodeString (Key_Key entry); if len raw =? PublicKeySize then Some raw else None.
Definition PublicKeys (b : Bundle) (now : time) : gmap string string :=
  foldl (λ keys entry, match public_key entry with
    | Some raw => if Before now (instant (Key_NotAfter entry)) then <[Key_ID entry := raw]> keys else keys
    | None => keys
    end) ∅ (slice (SigningKeys b)).
Definition Revoked (b : Bundle) (serial : string) : bool := serial ∈b slice (RevokedSerials b).
Definition ChainRevoked (b : Bundle) (chain : list Certificate) : bool := existsb (λ cert, Revoked b (SerialNumber cert)) chain.
Definition lowercaseHex (value : string) : bool :=
  negb ((value =s "") || (64 <? len value)) && forallb (λ c, in_range 48 57 c || in_range 97 102 c) (bytes value).

(** The loop over the signing keys; [seen] has the identifiers before. *)
Fixpoint keys_ok (seen : gset string) (l : list BundleKey) : bool :=
  match l with
  | [] => true
  | entry :: l => signedauth.ValidKeyID (Key_ID entry) && bool_decide (is_Some (public_key entry)) && negb (Key_ID entry ∈b seen)
                  && negb (IsZero (instant (Key_NotAfter entry))) && keys_ok ({[Key_ID entry]} ∪ seen) l
  end.
Definition usable_root (now : time) (root : Certificate) : bool := IsCA root && BasicConstraintsValid root && negb (After now (NotAfter root)).
Definition usable_issuer (now : time) (roots : list Certificate) (issuer : Certificate) : bool :=
  let signedByRoot := existsb (λ root, (Fingerprint root ≠s Fingerprint issuer) && CheckSignatureFrom issuer root) roots
                      && negb (CheckSignatureFrom issuer issuer) in
  IsCA issuer && negb (After now (NotAfter issuer)) && signedByRoot.
Definition entries_ok (b : Bundle) : bool :=
  let count {A} (l : option (list A)) := Z.of_nat (length (slice l)) in
  (1 <=? count (Roots b)) && (count (Roots b) <=? MaxBundleRoots) && (1 <=? count (Intermediates b)) && (count (Intermediates b) <=? MaxBundleIssuers)
  && (1 <=? count (SigningKeys b)) && (count (SigningKeys b) <=? MaxBundleKeys) && (count (RevokedSerials b) <=? MaxRevokedSerials).
Definition validate (b : Bundle) (now : time) : result () :=
  if Bundle_Version b <? 1 then Err (errors_New "trust bundle version must be positive") else
  if negb (entries_ok b) then Err (errors_New "trust bundle has an unexpected number of entries") else
  if negb (keys_ok ∅ (slice (SigningKeys b))) then Err (errors_New "trust bundle has an invalid signing key") else
  if negb (forallb lowercaseHex (slice (RevokedSerials b))) then Err (errors_New "trust bundle has an invalid revoked serial") else
  '(roots, intermediates) ← Certificates b;
  if negb (forallb (usable_root now) roots) then Err (errors_New "trust bundle has an unusable root") else
  if negb (forallb (usable_issuer now roots) intermediates) then Err (errors_New "trust bundle has an intermediate no listed root signed") else
  Ok ().
Definition rootSet (b : Bundle) : gset string :=
  list_to_set (omap (λ value, match ParseCertificate value with Ok cert => Some (Fingerprint cert) | Err _ => None end) (slice (Roots b))).
Definition VerifyBundle (candidate : Bundle) (previous : option Bundle) (rootPin : string) (now : time) : result () :=
  validate candidate now ≫= λ _,
  trusted ← match previous with
    | Some previous =>
      if Bundle_Version candidate <=? Bundle_Version previous then Err (errors_New "trust bundle is not newer than the one in use") else
      if bool_decide (rootSet candidate ∩ rootSet previous = ∅) then Err (errors_New "trust bundle drops every root of the one in use")
      else Ok (PublicKeys previous now)
    | None =>
      if (rootPin =s "") || negb (rootPin ∈b rootSet candidate) then Err (errors_New "trust bundle has no root with the pinned fingerprint")
      else Ok (PublicKeys candidate now)
    end;
  match trusted !! Sig_KeyID (Signature candidate) with
  | None => Err (errors_New "trust bundle is signed by a key that is not trusted")
  | Some key =>
    match StdEncoding_DecodeString (Sig_Value (Signature candidate)) with
    | None => Err (errors_New "trust bundle signature is malformed")
    | Some signature =>
      if negb (len signature =? SignatureSize) then Err (errors_New "trust bundle signature is malformed") else
      text ← payload candidate;
      if ed25519_Verify key text signature then Ok () else Err (errors_New "trust bundle signature is invalid")
    end
  end.

(** * manager.go *)

(** The blocks of a text of PEM blocks; none when the fuel ran out. *)
Fixpoint pem_blocks (fuel : nat) (data : string) : option (list (string * string)) :=
  match fuel with
  | O => None
  | S fuel =>
    match pem_Decode data with
    | None => Some []
    | Some (type, content, rest) => blocks ← pem_blocks fuel rest; Some ((type, content) :: blocks)
    end
  end.
Definition err_fuel : error := errors_New "out of fuel".
Definition blocks_of (data : string) : result (list (string * string)) :=
  match pem_blocks (S (String.length data)) data with Some l => Ok l | None => Err err_fuel end.

Record pair := mkPair { pair_chain : list string; pair_leaf : Certificate }.
Definition malformed : error := errors_New "stored API certificate is malformed".
Definition loadPair (certPEM keyB64 : string) : result pair :=
  match StdEncoding_DecodeString keyB64 ≫= ParsePKCS8PrivateKey with
  | None => Err (errors_New "stored API key is malformed")
  | Some key =>
    blocks ← blocks_of certPEM;
    if negb (forallb (λ block, block.1 =s "CERTIFICATE") blocks) then Err malformed else
    match blocks.*2 with
    | [] => Err malformed
    | first :: _ =>
      match x509_ParseCertificate first with
      | None => Err malformed
      | Some leaf => if key_matches leaf key then Ok (mkPair blocks.*2 leaf) else Err (errors_New "stored API certificate does not match its key")
      end
    end
  end.

(** The fields under the lock; [m_state] and [m_bundle] mean nothing while the node is
    not managed. *)
Record Manager := mkManager {
  m_yamlKeys : gmap string string;
  m_state : ManagedTrust;
  m_bundle : Bundle;
  m_managed : bool;
  m_cert : option pair;
}.
#[global] Instance Manager_eta : Eta Manager := λ m, mkManager (m_yamlKeys m) (m_state m) (m_bundle m) (m_managed m) (m_cert m).
Definition no_trust : ManagedTrust := mkManagedTrust "" "" "" "" "" "" zero_time zero_time.
Definition new_Manager (yamlKeys : gmap string string) : Manager := mkManager yamlKeys no_trust zero_bundle false None.

Definition apply (state : ManagedTrust) (m : Manager) : Manager * result () :=
  match (bundle ← ParseBundle (ManagedTrust_Bundle state); cert ← loadPair (ManagedTrust_APICertPEM state) (ManagedTrust_APIKey state); Ok (bundle, cert)) with
  | Err e => (m, Err e)
  | Ok (bundle, cert) => (m <| m_state := state |> <| m_bundle := bundle |> <| m_managed := true |> <| m_cert := Some cert |>, Ok ())
  end.
Definition checkServerChain (bundle : Bundle) (certPEM : string) (now : time) : result () :=
  '(roots, intermediates) ← Certificates bundle;
  blocks ← blocks_of certPEM;
  chain ← mapM (λ block, match x509_ParseCertificate block.2 with Some c => Ok c | None => Err (errors_New "x509: malformed certificate") end) blocks;
  match chain with
  | [] => Err (errors_New "no certificate")
  | leaf :: others =>
    chains ← VerifiedChains leaf roots (intermediates ++ others) now;
    if existsb (λ verified, negb (ChainRevoked bundle verified)) chains then Ok () else Err (errors_New "the certificate was revoked")
  end.

Context {YTrust : Yaml ManagedTrust} {YToken : Yaml OperationalTokenState}.

(** The calls that change what the manager holds. Each reads the fields under the lock,
    decides without it, writes the node's state, and takes the lock again to put the
    new fields in place. What is read of crypto/rand is an argument, and [t1], [t2],
    [t3] are what m.now() answers, in order. *)
Inductive request :=
| EnrollWith (pin : string) (bundle : Bundle) (certPEM keyDER operationalHash : string)
| AdoptBundle (candidate : Bundle)
| PrepareKey (key : result string)
| InstallWith (certPEM : string).

Definition decide_enroll (pin : string) (bundle : Bundle) (certPEM keyDER operationalHash : string) (m : Manager) (t1 t2 t3 : time) : result (option ManagedTrust) :=
  if m_managed m then Err (errors_New "this node is already enrolled") else
  if negb (lowercaseHex operationalHash) || negb (len operationalHash =? 64) then Err (errors_New "the operational token hash must be a SHA-256") else
  VerifyBundle bundle None pin t1 ≫= λ _,
  let keyB64 := StdEncoding_EncodeToString keyDER in
  loadPair certPEM keyB64 ≫= λ _,
  checkServerChain bundle certPEM t2 ≫= λ _,
  encoded ← Bundle_Marshal bundle;
  Ok (Some (mkManagedTrust pin encoded certPEM keyB64 operationalHash "" t3 t3)).
Definition err_not_enrolled : error := errors_New "this node is not enrolled".
Definition decide_adopt (candidate : Bundle) (m : Manager) (t1 t2 : time) : result (option ManagedTrust) :=
  if negb (m_managed m) then Err err_not_enrolled else
  if (Bundle_Version candidate =? Bundle_Version (m_bundle m))
     && match Bundle_Marshal candidate, Bundle_Marshal (m_bundle m) with Ok a, Ok b => a =s b | _, _ => false end
  then Ok None else
  VerifyBundle candidate (Some (m_bundle m)) "" t1 ≫= λ _,
  encoded ← Bundle_Marshal candidate;
  Ok (Some ((m_state m) <| ManagedTrust_Bundle := encoded |> <| ManagedTrust_UpdatedAt := t2 |>)).
(** The signing request that is made for the key is left out. *)
Definition decide_prepare (key : result string) (m : Manager) (t1 : time) : result (option ManagedTrust) :=
  if negb (m_managed m) then Err err_not_enrolled else
  der ← key;
  Ok (Some ((m_state m) <| ManagedTrust_PendingKey := StdEncoding_EncodeToString der |> <| ManagedTrust_UpdatedAt := t1 |>)).
Definition decide_install (certPEM : string) (m : Manager) (t1 t2 : time) : result (option ManagedTrust) :=
  if negb (m_managed m) then Err err_not_enrolled else
  let pending := ManagedTrust_PendingKey (m_state m) in
  if pending =s "" then Err (errors_New "no certificate request is pending") else
  loadPair certPEM pending ≫= λ _,
  checkServerChain (m_bundle m) certPEM t1 ≫= λ _,
  Ok (Some ((m_state m) <| ManagedTrust_APICertPEM := certPEM |> <| ManagedTrust_APIKey := pending |> <| ManagedTrust_PendingKey := "" |>
              <| ManagedTrust_UpdatedAt := t2 |>)).
Definition decide_request (r : request) (m : Manager) (t1 t2 t3 : time) : result (option ManagedTrust) :=
  match r with
  | EnrollWith pin bundle certPEM keyDER operationalHash => decide_enroll pin bundle certPEM keyDER operationalHash m t1 t2 t3
  | AdoptBundle candidate => decide_adopt candidate m t1 t2
  | PrepareKey key => decide_prepare key m t1
  | InstallWith certPEM => decide_install certPEM m t1 t2
  end.
Definition put_in_place (r : request) (state : ManagedTrust) (m : Manager) : Manager * result () :=
  match r with PrepareKey _ => (m <| m_state := state |>, Ok ()) | _ => apply state m end.

(** A call that nothing else runs beside. *)
Definition perform (r : request) (t1 t2 t3 : time) (o : oracle) (ctx : StateProg.Context) (m : Manager) (d : db) : Manager * db * result () :=
  match decide_request r m t1 t2 t3 with
  | Err e => (m, d, Err e)
  | Ok None => (m, d, Ok ())
  | Ok (Some state) =>
    match db_call o ctx (PutManagedTrust state) d with
    | (d', Err e) => (m, d', Err e)
    | (d', Ok _) => let '(m', r) := put_in_place r state m in (m', d', r)
    end
  end.
Definition Enroll (pin : string) (bundle : Bundle) (certPEM keyDER operationalHash : string) := perform (EnrollWith pin bundle certPEM keyDER operationalHash).
Definition Adopt (candidate : Bundle) := perform (AdoptBundle candidate).
Definition PrepareCSR (key : result string) := perform (PrepareKey key).
Definition InstallCertificate (certPEM : string) := perform (InstallWith certPEM).

Definition Load (yamlKeys : gmap string string) (o : oracle) (ctx : StateProg.Context) (d : db) : db * result Manager :=
  let m := new_Manager yamlKeys in
  match db_call o ctx GetManagedTrust d with
  | (d', Err e) => if bool_decide (e = ErrNotFound) then (d', Ok m) else (d', Err e)
  | (d', Ok state) => match apply state m with (m', Ok _) => (d', Ok m') | (_, Err e) => (d', Err e) end
  end.
Definition EnsureOperationalToken (m : Manager) (now : time) (o1 o2 : oracle) (ctx : StateProg.Context) (d : db) : db * result () :=
  let hash := ManagedTrust_OperationalHash (m_state m) in
  if negb (m_managed m) || (hash =s "") then (d, Ok ()) else
  match db_call o1 ctx GetOperationalTokenState d with
  | (d', Ok _) => (d', Ok ())
  | (d', Err e) => if bool_decide (e = ErrNotFound) then db_call o2 ctx (RecoverOperationalToken hash "managed-enrollment" now) d' else (d', Err e)
  end.

Definition Managed (m : Manager) : bool := m_managed m.
Definition BundleVersion (m : Manager) : Z := Bundle_Version (m_bundle m).
Definition AuthorizationKeys (m : Manager) (now : time) : gmap string string :=
  m_yamlKeys m ∪ (if m_managed m then PublicKeys (m_bundle m) now else ∅).
Definition CertificateEnd (m : Manager) : time * string :=
  match m_cert m with Some p => (NotAfter (pair_leaf p), SerialNumber (pair_leaf p)) | None => (zero_time, "") end.
Record CertificateInfo := mkCertificateInfo { Info_NotAfter : time; Info_Serial : string; Info_Issuer : string; Info_Fingerprint : string }.
Definition Manager_Certificate (m : Manager) : CertificateInfo :=
  match m_cert m with
  | None => mkCertificateInfo zero_time "" "" ""
  | Some p =>
    let issuer := match pair_chain p with _ :: second :: _ => match x509_ParseCertificate second with Some c => SerialNumber c | None => "" end | _ => "" end in
    mkCertificateInfo (NotAfter (pair_leaf p)) (SerialNumber (pair_leaf p)) issuer (Fingerprint (pair_leaf p))
  end.
(** A chain that was verified has a leaf. *)
Definition client_ok (bundle : Bundle) (now : time) (chain : list Certificate) : bool :=
  match chain with
  | [] => false
  | leaf :: _ => negb ((CommonName leaf ≠s ControlTowerName) || ChainRevoked bundle chain || After now (NotAfter leaf) || Before now (NotBefore leaf)) && ClientAuth leaf
  end.
Definition verifyClient (bundle : Bundle) (chains : list (list Certificate)) (now : time) : bool := existsb (client_ok bundle now) chains.
Definition ControlTowerPresented (m : Manager) (chains : option (list (list Certificate))) (now : time) : bool :=
  match chains with None => false | Some chains => m_managed m && verifyClient (m_bundle m) chains now end.

(** * Calls beside each other

    The calls that are under way, each with the state it decided on and whether it has
    written it. *)
Record world := mkWorld { w_manager : Manager; w_db : db; w_calls : gmap nat (request * ManagedTrust * bool) }.
Inductive event :=
| Begins (i : nat) (r : request) (t1 t2 t3 : time)
| Writes (i : nat) (o : oracle) (ctx : StateProg.Context)
| Ends (i : nat).
Definition happens (w : world) (e : event) : world :=
  match e with
  | Begins i r t1 t2 t3 =>
    match decide_request r (w_manager w) t1 t2 t3 with
    | Ok (Some state) => mkWorld (w_manager w) (w_db w) (<[i := (r, state, false)]> (w_calls w))
    | _ => w
    end
  | Writes i o ctx =>
    match w_calls w !! i with
    | Some (r, state, false) =>
      match db_call o ctx (PutManagedTrust state) (w_db w) with
      | (d', Ok _) => mkWorld (w_manager w) d' (<[i := (r, state, true)]> (w_calls w))
      | (d', Err _) => mkWorld (w_manager w) d' (delete i (w_calls w))
      end
    | _ => w
    end
  | Ends i =>
    match w_calls w !! i with
    | Some (r, state, true) => mkWorld (put_in_place r state (w_manager w)).1 (w_db w) (delete i (w_calls w))
    | _ => w
    end
  end.
Definition happen (w : world) (l : list event) : world := foldl happens w l.

End Trust.
End trust.
