(* ===== verification/StateStore.v ===== *)
(** storage.go of the node's state: the store itself. A directory of encrypted
    files, the indexes of their records in memory, a cache of documents, and the
    operations on them: reading and publishing a file, the ordered indexes,
    transactions, compaction and opening.

    The Go methods share one mutex, so a call is a function on the [Store]. *)
From S2P Require Import Prelude GoLib Base64 Entities StateProg StateRecords.
From stdpp Require Import options.
Local Open Scope Z_scope.

Definition compactTransactions : Z := 1024.
Definition compactBytes : Z := Z.shiftl 64 20.
Definition cacheLimit : Z := Z.shiftl 16 20.
Definition currentEnvelopeVersion : Z := 8.

(** * What the package calls *)

(** AES-256-GCM under the key of the store. *)
Class Aead := {
  Seal : string → string → string → string;
  Open : string → string → string → option string;
}.
Definition NonceSize : Z := 12.
Class AeadOk (E : Aead) : Prop := {
  open_seal : ∀ nonce plain aad, Open nonce (Seal nonce plain aad) aad = Some plain;
  open_only_seal : ∀ nonce data aad plain, Open nonce data aad = Some plain → data = Seal nonce plain aad;
}.
(** crypto/rand: the bytes of each draw. *)
Class Random := rand_Read : nat → Z → string.
Class RandomOk (R : Random) : Prop := rand_length : ∀ n size, 0 ≤ size → len (rand_Read n size) = size.

(** * Data *)

Record envelope := {
  env_Version : Z;
  StorageID : string;
  Kind : string;
  env_Sequence : Z;
  Nonce : string;
  Ciphertext : string;
}.
Record document := mkdocument { Records : list record }.
Record manifest := { Pages : list string; HistoryPages : list string }.
(** The header is its format; the head has no content. *)
Record header := mkheader { Format : string }.
Record reference := mkreference { File : string; Slot : nat; ref_info : info }.
Record cacheEntry := mkentry { Doc : document; Bytes : Z }.
Definition indexSelection : Type := string * string * string.

(** A file of the directory: whether it is a regular file only its owner can
    access, and its content. *)
Record file := mkfile { private : bool; content : string }.

(** How the next system calls that change the directory end: the file was
    published and synced, or the call failed before or after it was published. *)
Inductive write_outcome := Published | FailedBefore | FailedAfter.

Record Store := mkStore {
  disk : gmap string file;
  faults : list write_outcome;
  draws : nat;
  id : string;
  readOnly : bool;
  ordered : gmap indexSelection (list string);
  historyPages : list string;
  pendingHistory : gmap string (gset string);
  s_sequence : Z;
  envelopeVersion : Z;
  snapshotSequence : Z;
  journalCount : Z;
  journalBytes : Z;
  s_index : gmap string (gmap string reference);
  cache : gmap string cacheEntry;
  cacheOrder : list string;
  cacheBytes : Z;
  closed : bool;
  poisoned : bool;
  s_managed : bool;
}.
#[global] Instance Store_eta : Eta Store := λ s, mkStore
  (disk s) (faults s) (draws s) (id s) (readOnly s) (ordered s) (historyPages s) (pendingHistory s) (s_sequence s)
  (envelopeVersion s) (snapshotSequence s) (journalCount s) (journalBytes s) (s_index s) (cache s) (cacheOrder s) (cacheBytes s)
  (closed s) (poisoned s) (s_managed s).

(** The store [open] starts from. *)
Definition new_Store (files : gmap string file) (faults : list write_outcome) (draws : nat) (readOnly : bool) : Store :=
  mkStore files faults draws "" readOnly ∅ [] ∅ 0 1 0 0 0 ∅ ∅ [] 0 false false false.

(** ** Computations on the store *)

Definition ST (A : Type) : Type := Store → Store * result A.
#[global] Instance ST_ret : MRet ST := λ A a s, (s, Ok a).
#[global] Instance ST_bind : MBind ST := λ A B f m s,
  match m s with (s', Ok a) => f a s' | (s', Err e) => (s', Err e) end.
Definition throw {A} (e : error) : ST A := λ s, (s, Err e).
Definition gets {A} (f : Store → A) : ST A := λ s, (s, Ok (f s)).
Definition modify (f : Store → Store) : ST () := λ s, (f s, Ok ()).
(** The error of a call as a value. *)
Definition attempt {A} (m : ST A) : ST (result A) := λ s, let '(s', r) := m s in (s', Ok r).
Definition from {A} (r : result A) : ST A := λ s, (s, r).
Definition stop_if (cond : bool) (e : error) : ST () := if cond then throw e else mret ().
(** A [for] loop. *)
Fixpoint each {A B} (f : B → A → ST B) (b : B) (l : list A) : ST B :=
  match l with [] => mret b | x :: l' => b' ← f b x; each f b' l' end.

Definition poison : ST () := modify (λ s, s <| poisoned := true |>).

(** [s.index[bucket]]. *)
Definition index_of (s : Store) (bucket : string) : gmap string reference := default ∅ (s_index s !! bucket).
Definition find (s : Store) (bucket key : string) : option reference := index_of s bucket !! key.
Definition infos (s : Store) (bucket : string) : gmap string info := ref_info <$> index_of s bucket.

Section Files.
Context {E : Aead} {R : Random}.
Context {YEnv : Yaml envelope}.

(** ** Reading and publishing a file *)

Definition aad_of (version : Z) (storageID kind : string) (seq : Z) (name : string) : string :=
  "jolt-state:" +++ pad_dec 0 version +++ ":" +++ storageID +++ ":" +++ kind +++ ":" +++ pad_dec 0 seq +++ ":" +++ name.

(** [^uint64(0)]: any sequence. *)
Definition any_sequence : Z := MaxUint64.

(** A file that is there can be read: of the errors of os.Lstat and os.ReadFile only
    the one for a file that is not there is modelled. *)
Definition read (A : Type) `{Yaml A} (name kind : string) (seq : Z) : ST (Z * A) := λ s,
  match disk s !! name with
  | None => (s, Err (errors_New "file does not exist"))
  | Some f =>
    if negb (private f) then (s, Err (errors_New ("unsafe state file " +++ name +++ ": expected regular file with mode 0600"))) else
    match Unmarshal (content f) with
    | Err e => (s, Err e)
    | Ok e =>
      if (env_Version e <? 1) || (currentEnvelopeVersion <? env_Version e)
         || (kind ≠s "header") && (envelopeVersion s <? env_Version e) || (Kind e ≠s kind)
         || (seq ≠s any_sequence) && (env_Sequence e ≠s seq) || (StorageID e =s "")
         || (id s ≠s "") && (id s ≠s StorageID e)
      then (s, Err (errors_New "state envelope identity mismatch")) else
      match StdEncoding_DecodeString (Nonce e), StdEncoding_DecodeString (Ciphertext e) with
      | None, _ => (s, Err (errors_New "invalid state nonce"))
      | Some nonce, data =>
        if len nonce ≠s NonceSize then (s, Err (errors_New "invalid state nonce")) else
        match data with
        | None => (s, Err (errors_New "illegal base64 data"))
        | Some data =>
          match Open nonce data (aad_of (env_Version e) (StorageID e) (Kind e) (env_Sequence e) name) with
          | None => (s, Err (errors_New "cannot authenticate state: wrong key or corrupted file"))
          | Some plain =>
            match Unmarshal plain with
            | Err e => (s, Err e)
            | Ok value =>
              let s := if kind =s "header" then s <| envelopeVersion := env_Version e |> else s in
              (s <| id := StorageID e |>, Ok (env_Sequence e, value))
            end
          end
        end
      end
    end
  end.

(** The next outcome of the system calls. *)
Definition next_fault : ST write_outcome := λ s,
  match faults s with
  | [] => (s, Ok Published)
  | f :: rest => (s <| faults := rest |>, Ok f)
  end.
Definition write_error : error := errors_New "input/output error".

(** [write]: the bytes of the published file are counted. *)
Definition write {A} `{Yaml A} (name kind : string) (seq : Z) (value : A) : ST Z :=
  plain ← from (Marshal value);
  nonce ← gets (λ s, rand_Read (draws s) NonceSize);
  _ ← modify (λ s, s <| draws := S (draws s) |>);
  s ← gets (λ s, s);
  let aad := aad_of (envelopeVersion s) (id s) kind seq name in
  let e := {| env_Version := envelopeVersion s; StorageID := id s; Kind := kind; env_Sequence := seq;
              Nonce := StdEncoding_EncodeToString nonce; Ciphertext := StdEncoding_EncodeToString (Seal nonce plain aad) |} in
  raw ← from (Marshal e);
  outcome ← next_fault;
  let publish := modify (λ s, s <| disk := <[name := mkfile true raw]> (disk s) |>) in
  match outcome with
  | Published => _ ← publish; mret (len raw)
  | FailedBefore => throw write_error
  | FailedAfter => _ ← publish; throw write_error
  end.

(** ** The cache *)

(** The loop of [remember] that makes room for [n] bytes. *)
Fixpoint evict (order : list string) (n : Z) (s : Store) : Store :=
  match order with
  | [] => s <| cacheOrder := [] |>
  | old :: rest =>
    if cacheLimit <? cacheBytes s + n then
      evict rest n (s <| cacheOrder := rest |>
                      <| cacheBytes := cacheBytes s - from_option Bytes 0 (cache s !! old) |>
                      <| cache := delete old (cache s) |>)
    else s <| cacheOrder := old :: rest |>
  end.
Definition remember (name : string) (doc : document) (n : Z) : ST () := modify (λ s,
  if cacheLimit / 2 <? n then s
  else match cache s !! name with
       | Some _ => s
       | None =>
         let s := evict (cacheOrder s) n s in
         s <| cache := <[name := mkentry doc n]> (cache s) |> <| cacheOrder := cacheOrder s ++ [name] |>
           <| cacheBytes := cacheBytes s + n |>
       end).

Context {YDoc : Yaml document}.

Definition record_size (r : record) : Z := len (record_Data r) + len (record_Key r) + len (record_Group r) + 128.

(** The sequence in the name of a file. *)
Definition name_sequence (name : string) : option Z :=
  ParseUint (default "" (head (Split "-"%char (TrimSuffix (path_Base name) ".yaml")))).

Definition load (name : string) : ST document :=
  s ← gets (λ s, s);
  match cache s !! name with
  | Some e => mret (Doc e)
  | None =>
    match name_sequence name with
    | None => throw (errors_New "invalid syntax")
    | Some seq =>
      r ← attempt (read document name (if HasPrefix name "snapshots/" then "snapshot" else "transaction") seq);
      match r with
      | Err e => _ ← poison; throw e
      | Ok (_, doc) =>
        _ ← remember name doc (foldr Z.add 0 (record_size <$> Records doc));
        mret doc
      end
    end
  end.

(** ** The ordered indexes *)

Definition selections (bucket : string) (i : info) : list indexSelection :=
  [(bucket, "all", ""); (bucket, "group", Group i); (bucket, "state", State i)].

Definition indexPosition (s : Store) (ids : list string) (bucket key order : string) : nat :=
  Search (length ids) (λ i,
    let k := default "" (ids !! i) in
    let other := from_option Order "" (infos s bucket !! k) in
    negb (bool_decide (String.le other order)) || (other =s order) && bool_decide (String.le key k)).

Definition removeOrdered (bucket key : string) (r : info) (s : Store) : Store :=
  foldl (λ s selection,
    let ids := default [] (ordered s !! selection) in
    let i := indexPosition s ids bucket key (Order r) in
    let ids := if bool_decide (ids !! i = Some key) then take i ids ++ drop (S i) ids else ids in
    s <| ordered := match ids with [] => delete selection (ordered s) | _ => <[selection := ids]> (ordered s) end |>)
    s (selections bucket r).

Definition insertOrdered (bucket key : string) (r : info) (s : Store) : Store :=
  foldl (λ s selection,
    let ids := default [] (ordered s !! selection) in
    let i := indexPosition s ids bucket key (Order r) in
    s <| ordered := <[selection := take i ids ++ key :: drop i ids]> (ordered s) |>)
    s (selections bucket r).

(** ** Applying a document *)

(** The body of the loop of [apply]. *)
Definition apply_record (name : string) (snapshot : bool) (i : nat) (r : record) (s : Store) : Store * result () :=
  let b := record_Bucket r in let k := record_Key r in
  if (b =s "") || (k =s "") then (s, Err (errors_New "empty state record identity")) else
  let s := if bool_decide (is_Some (s_index s !! b)) then s else s <| s_index := <[b := ∅]> (s_index s) |> in
  let old := find s b k in
  if snapshot && bool_decide (is_Some old) then (s, Err (errors_New "duplicate snapshot record")) else
  let next := mkreference name i (record_info r) in
  let changed := match old with None => true | Some old => ref_info old ≠s ref_info next end in
  let s := match old with
           | Some old => if record_Delete r || changed then removeOrdered b k (ref_info old) s else s
           | None => s
           end in
  let s :=
    if record_Delete r then s <| s_index := <[b := delete k (index_of s b)]> (s_index s) |>
    else
      let s := s <| s_index := <[b := <[k := next]> (index_of s b)]> (s_index s) |> in
      if changed then insertOrdered b k (ref_info next) s else s in
  let s :=
    if historyBucket b then
      let pending := default ∅ (pendingHistory s !! b) in
      s <| pendingHistory := <[b := if record_Delete r || Contains name "-history-" then pending ∖ {[k]} else {[k]} ∪ pending]>
                               (pendingHistory s) |>
    else s in
  (s, Ok ()).
Fixpoint apply_records (name : string) (snapshot : bool) (i : nat) (rs : list record) : ST () :=
  match rs with
  | [] => mret ()
  | r :: rs => _ ← apply_record name snapshot i r; apply_records name snapshot (S i) rs
  end.
Definition apply (doc : document) (name : string) (snapshot : bool) : ST () := apply_records name snapshot 0 (Records doc).

(** ** Transactions *)

(** [get], as far as the store is asked: the data of a record. *)
Definition lookup_data (bucket key : string) : ST string :=
  s ← gets (λ s, s);
  match find s bucket key with
  | None => throw ErrNotFound
  | Some r =>
    doc ← load (File r);
    match Records doc !! Slot r with
    | None => _ ← poison; throw (errors_New "invalid state record location")
    | Some rec => mret (record_Data rec)
    end
  end.

(** [ensureSecurityVersion]. *)
Context {YHeader : Yaml header} {YUnit : Yaml ()}.
Definition the_header : header := mkheader "jolt-yaml-state".
Definition raise_version (required : Z) : ST () :=
  s ← gets (λ s, s);
  if required <=? envelopeVersion s then mret () else
  _ ← modify (λ s, s <| envelopeVersion := required |>);
  r ← attempt (write "store.yaml" "header" 0 the_header);
  match r with
  | Err _ => _ ← poison; throw ErrStateUnavailable
  | Ok _ => mret ()
  end.

(** What the function given to [update] or [view] does: its calls, on the store. *)
Fixpoint exec {A} (p : prog A) (tx : list record) : ST (list record * A) :=
  match p with
  | Ret a => mret (tx, a)
  | Throw e => throw e
  | Lookup b k c => r ← attempt (lookup_data b k); exec (c r) tx
  | Poison p => _ ← poison; exec p tx
  | Index b c => s ← gets (λ s, s); exec (c (infos s b)) tx
  | Ordered b kind v c => s ← gets (λ s, s); exec (c (default [] (ordered s !! (b, kind, v)))) tx
  | Sequence c => s ← gets (λ s, s); exec (c (s_sequence s)) tx
  | Managed c => s ← gets (λ s, s); exec (c (s_managed s)) tx
  | Emit r p => exec p (tx ++ [r])
  | Pending c => exec (c (Z.of_nat (length tx))) tx
  | Ensure n c => r ← attempt (raise_version n); exec (c r) tx
  end.

Definition available (ctx : Context) : ST () :=
  s ← gets (λ s, s);
  match ctx with
  | Some e => throw e
  | None => stop_if (closed s || poisoned s) ErrStateUnavailable
  end.

Definition view {A} (ctx : Context) (p : prog A) : ST A := _ ← available ctx; r ← exec p []; mret r.2.

(** The check of [update] on its records. *)
Definition check_records (tx : list record) : ST () :=
  s ← gets (λ s, s);
  _ ← each (λ (seenHistory : gset string) r,
    let b := record_Bucket r in let k := record_Key r in
    if (b =s "") || (k =s "") then throw (errors_New "empty state record identity") else
    if historyBucket b then
      let identity := b +++ String NUL k in
      if bool_decide (is_Some (find s b k)) || record_Delete r || (identity ∈b seenHistory)
      then throw (errors_New "history records are append-only") else mret ({[identity]} ∪ seenHistory)
    else mret seenHistory) ∅ tx;
  mret ().

Definition journal_name (seq : Z) : string := "journal/" +++ pad_dec 20 seq +++ ".yaml".

(** ** Compaction *)

Context {YManifest : Yaml manifest}.

(** The local variables of [compact]. *)
Record pager := mkpager {
  pages : list string;
  p_historyPages : list string;
  newPages : list string;
  history : bool;
  doc : list record;
  size : Z;
}.
#[global] Instance pager_eta : Eta pager := λ p, mkpager (pages p) (p_historyPages p) (newPages p) (history p) (doc p) (size p).

Definition page_name (seq : Z) (n : nat) : string := "snapshots/" +++ pad_dec 20 seq +++ "-" +++ pad_dec 6 (Z.of_nat n) +++ ".yaml".
Definition history_name (seq : Z) (n : nat) : string :=
  "snapshots/" +++ pad_dec 20 seq +++ "-history-" +++ pad_dec 6 (Z.of_nat n) +++ ".yaml".

Definition flush (p : pager) : ST pager :=
  match doc p with
  | [] => mret p
  | _ =>
    s ← gets (λ s, s);
    let name := if history p then history_name (s_sequence s) (length (newPages p)) else page_name (s_sequence s) (length (pages p)) in
    _ ← write name "snapshot" (s_sequence s) (mkdocument (doc p));
    mret ((if history p then p <| p_historyPages := p_historyPages p ++ [name] |> else p <| pages := pages p ++ [name] |>)
            <| newPages := newPages p ++ [name] |> <| doc := [] |> <| size := 0 |>)
  end.

(** The loop over the records of a bucket. *)
Definition page_record (bucket : string) (p : pager) (key : string) : ST pager :=
  s ← gets (λ s, s);
  let ref := default (mkreference "" 0 (mkinfo "" "" "")) (find s bucket key) in
  source ← load (File ref);
  match Records source !! Slot ref with
  | None => throw (errors_New "index out of range") (* a panic *)
  | Some r =>
    let p := p <| doc := doc p ++ [r] |> <| size := size p + len (record_Data r) |> in
    if (256 <=? Z.of_nat (length (doc p))) || (Z.shiftl 1 20 <=? size p) then flush p else mret p
  end.
Definition page_bucket (p : pager) (bucket : string) : ST pager :=
  p ← flush p;
  let p := p <| history := historyBucket bucket |> in
  s ← gets (λ s, s);
  let ids := if history p then merge_sort String.le (elements (default ∅ (pendingHistory s !! bucket)))
             else default [] (ordered s !! (bucket, "all", "")) in
  each (page_record bucket) p ids.

(** The files of a directory, sorted by name. *)
Definition read_dir (s : Store) (dir : string) : list string :=
  merge_sort String.le (omap (λ nf : string * file, StripPrefix (dir +++ "/") nf.1) (map_to_list (disk s))).

Definition remove_file (name : string) : ST () :=
  outcome ← next_fault;
  match outcome with
  | Published => modify (λ s, s <| disk := delete name (disk s) |>)
  | FailedBefore => throw write_error
  | FailedAfter => _ ← modify (λ s, s <| disk := delete name (disk s) |>); throw write_error
  end.

(** [syncDir], which can only report a failure. *)
Definition syncDir : ST () :=
  outcome ← next_fault;
  match outcome with Published => mret () | _ => throw write_error end.

(** The loop of [compact] over the entries of a directory. *)
Definition remove_superseded (live : list string) (subdir : string) : ST () :=
  s ← gets (λ s, s);
  _ ← each (λ _ entry,
        if (subdir =s "snapshots") && (entry ∈b (path_Base <$> live)) then mret ()
        else remove_file (subdir +++ "/" +++ entry)) () (read_dir s subdir);
  syncDir.

Definition compact : ST () :=
  s ← gets (λ s, s);
  _ ← stop_if (readOnly s) (errors_New "state is open read-only");
  if s_sequence s =s snapshotSequence s then mret () else
  let names := merge_sort String.le (map_to_list (s_index s)).*1 in
  p ← each page_bucket (mkpager [] (historyPages s) [] false [] 0) names;
  p ← flush p;
  _ ← write "manifest.yaml" "manifest" (s_sequence s) {| Pages := pages p; HistoryPages := p_historyPages p |};
  _ ← modify (λ s, s <| cache := ∅ |> <| cacheOrder := [] |> <| cacheBytes := 0 |> <| historyPages := p_historyPages p |>);
  _ ← each (λ _ name,
        d ← read document name "snapshot" (s_sequence s);
        apply d.2 name false) () (newPages p);
  _ ← each (λ _ subdir, remove_superseded (pages p ++ p_historyPages p) subdir) () ["journal"; "snapshots"];
  modify (λ s, s <| snapshotSequence := s_sequence s |> <| journalCount := 0 |> <| journalBytes := 0 |>).

(** ** [update] *)

(** A failure that makes the store unavailable; [wrap] is the error returned. *)
Definition or_poison {A} (wrap : error → error) (m : ST A) : ST A :=
  r ← attempt m;
  match r with
  | Ok a => mret a
  | Err e => _ ← poison; throw (wrap e)
  end.
Definition as_unavailable (e : error) : error := ErrStateUnavailable.

Definition update {A} (ctx : Context) (p : prog A) : ST A :=
  _ ← available ctx;
  s ← gets (λ s, s);
  _ ← stop_if (readOnly s) (errors_New "state is open read-only");
  r ← exec p [];
  let '(tx, a) := r in
  if bool_decide (length tx = 0%nat) then mret a else
  _ ← check_records tx;
  s ← gets (λ s, s);
  let seq := u64 (s_sequence s + 1) in
  let name := journal_name seq in
  let d := mkdocument tx in
  n ← or_poison as_unavailable (write name "transaction" seq d);
  _ ← or_poison as_unavailable (write "head.yaml" "head" seq ());
  _ ← or_poison (λ e, e) (apply d name false);
  _ ← remember name d n;
  _ ← modify (λ s, s <| s_sequence := seq |> <| journalCount := journalCount s + 1 |> <| journalBytes := journalBytes s + n |>);
  s ← gets (λ s, s);
  _ ← (if (compactTransactions <=? journalCount s) || (compactBytes <=? journalBytes s) then or_poison as_unavailable compact else mret ());
  mret a.

(** ** Opening *)

(** What [open] finds besides the files: the length of its key, whether the
    directory is one, whether another process holds its locks, the directories
    in it, and those of them that others can access. *)
Record Directory := {
  key_length : Z;
  is_directory : bool;
  locked : bool;
  subdirs : gset string;
  unsafe : gset string;
}.

Definition legacy_files : list string := ["jolt.db"; "jolt.db-wal"; "jolt.db-shm"; "jolt.db-journal"].
Definition RejectLegacy (files : gmap string file) : result () :=
  fail_if (existsb (λ name, bool_decide (is_Some (files !! name))) legacy_files)
    (errors_New "legacy SQLite data found; use a new installation and a new data directory").

(** The entries of the directory that [open] tolerates when it creates a store. *)
Definition may_initialize (entry : string) : bool :=
  (entry =s ".state.lock") || (entry =s ".jolt-node.lock") || HasPrefix entry ".tmp-".
Definition entries (d : Directory) (files : gmap string file) : list string :=
  elements (subdirs d) ++ omap (λ nf : string * file, if Contains nf.1 "/" then None else Some nf.1) (map_to_list files).

(** Up to [n] digits at the front of a text, as [fmt.Sscanf] takes for a verb of
    that width. *)
Fixpoint scan_digits (n : nat) (s : string) : string * string :=
  match n, s with
  | S n, String c r => if in_range 48 57 c then let '(d, rest) := scan_digits n r in (String c d, rest) else ("", s)
  | _, _ => ("", s)
  end.
(** The page is an int, so [fmt.Sscanf] takes a sign; the width counts it. *)
Definition historyPageIdentity (name : string) : option (Z * Z) :=
  rest ← StripPrefix "snapshots/" name;
  let '(d1, rest) := scan_digits 20 rest in
  seq ← ParseUint d1;
  rest ← StripPrefix "-history-" rest;
  match StripPrefix "-" rest with
  | Some rest =>
    page ← ParseUint (scan_digits 5 rest).1;
    if (0 <? page) && (name =s "snapshots/" +++ pad_dec 20 seq +++ "-history--" +++ pad_dec 5 page +++ ".yaml")
    then Some (seq, - page) else None
  | None =>
    page ← ParseUint (scan_digits 6 rest).1;
    if name =s history_name seq (Z.to_nat page) then Some (seq, page) else None
  end.

(** A page of immutable history. *)
Definition open_history (seq : Z) (seen : gset string) (name : string) : ST (gset string) :=
  match historyPageIdentity name with
  | None => throw (errors_New "invalid history page reference")
  | Some (pageSeq, _) =>
    if (seq <? pageSeq) || (name ∈b seen) then throw (errors_New "invalid history page reference") else
    d ← read document name "snapshot" pageSeq;
    if existsb (λ r, negb (historyBucket (record_Bucket r)) || record_Delete r) (Records d.2)
    then throw (errors_New "invalid immutable history record") else
    _ ← apply d.2 name true;
    mret ({[name]} ∪ seen)
  end.
Definition open_page (seq : Z) (i : nat) (name : string) : ST nat :=
  if name ≠s page_name seq i then throw (errors_New "invalid snapshot page reference") else
  d ← read document name "snapshot" seq;
  _ ← apply d.2 name true;
  mret (S i).
Definition open_manifest : ST () :=
  s ← gets (λ s, s);
  match disk s !! "manifest.yaml" with
  | None => mret ()
  | Some _ =>
    m ← read manifest "manifest.yaml" "manifest" any_sequence;
    let '(seq, m) := m in
    _ ← modify (λ s, s <| s_sequence := seq |> <| snapshotSequence := seq |>);
    _ ← each (open_history seq) ∅ (HistoryPages m);
    _ ← modify (λ s, s <| historyPages := HistoryPages m |>);
    _ ← each (open_page seq) 0%nat (Pages m);
    mret ()
  end.

Definition open_entry (entry : string) : ST () :=
  if HasPrefix entry ".tmp-" then mret () else
  match ParseUint (TrimSuffix entry ".yaml") with
  | None => throw (errors_New "unexpected journal entry")
  | Some seq =>
    if entry ≠s (pad_dec 20 seq +++ ".yaml") then throw (errors_New "unexpected journal entry") else
    s ← gets (λ s, s);
    if seq <=? snapshotSequence s then mret () else
    if seq ≠s u64 (s_sequence s + 1) then throw (errors_New "journal sequence gap") else
    let name := "journal/" +++ entry in
    d ← read document name "transaction" seq;
    _ ← apply d.2 name false;
    modify (λ s, s <| s_sequence := seq |> <| journalCount := journalCount s + 1 |>
                   <| journalBytes := journalBytes s + len (from_option content "" (disk s !! name)) |>)
  end.

(** [open], on a new [Store] of the directory's files. *)
Definition open (d : Directory) (existing : bool) : ST () :=
  s ← gets (λ s, s);
  _ ← stop_if (key_length d ≠s 32) (errors_New "state encryption key must contain exactly 32 bytes");
  _ ← from (RejectLegacy (disk s));
  _ ← stop_if (existing && bool_decide (disk s !! "store.yaml" = None)) (errors_New "file does not exist");
  _ ← stop_if (negb (is_directory d)) (errors_New "state directory must not be a symlink");
  _ ← stop_if (locked d) (errors_New "node state is already open");
  _ ← (match disk s !! "store.yaml" with
       | None =>
         _ ← stop_if (negb (forallb may_initialize (entries d (disk s)))) (errors_New "refusing to initialize nonempty state directory");
         _ ← modify (λ s, s <| id := hex_EncodeToString (rand_Read (draws s) 16) |> <| draws := S (draws s) |>);
         _ ← write "store.yaml" "header" 0 the_header;
         _ ← write "head.yaml" "head" 0 ();
         mret ()
       | Some _ =>
         h ← read header "store.yaml" "header" 0;
         stop_if (Format h.2 ≠s Format the_header) (errors_New "unsupported state format")
       end);
  head ← read () "head.yaml" "head" any_sequence;
  let committed := head.1 in
  _ ← stop_if (bool_decide ("journal" ∈ unsafe d ∨ "snapshots" ∈ unsafe d)) (errors_New "unsafe state subdirectory");
  _ ← open_manifest;
  _ ← stop_if (existing && negb ("journal" ∈b subdirs d)) (errors_New "file does not exist");
  s ← gets (λ s, s);
  _ ← each (λ _ entry, open_entry entry) () (read_dir s "journal");
  s ← gets (λ s, s);
  _ ← stop_if (s_sequence s <? committed) (errors_New "committed journal tail is missing");
  _ ← (if (committed <? s_sequence s) && negb (readOnly s)
       then _ ← write "head.yaml" "head" (s_sequence s) (); mret () else mret ());
  _ ← modify (λ s, s <| s_managed := negb (bool_decide (index_of s "configuration" = ∅)) |>);
  if existing then mret () else syncDir.

Definition Close : ST () := modify (λ s, s <| closed := true |>).
(** [Ready], once it has the lock. *)
Definition Ready (ctx : Context) : ST () := available ctx.
End Files.
