(* ===== verification/StateIndex.v ===== *)
(** The ordered indexes of the store: [insertOrdered], [removeOrdered] and
    [apply] keep, for every selection of a bucket, exactly the keys selected,
    sorted by order and key. *)
From S2P Require Import Prelude GoLib Entities StateProg StateRecords StateStore.
From stdpp Require Import options.
#[local] Set Default Proof Using "Type*".
Local Open Scope Z_scope.

(** * The sort order *)

Definition le2 (p q : string * string) : Prop :=
  (String.le p.1 q.1 ∧ p.1 ≠ q.1) ∨ (p.1 = q.1 ∧ String.le p.2 q.2).
#[export] Instance le2_trans : Transitive le2.
Proof.
  intros [o1 k1] [o2 k2] [o3 k3]. unfold le2. simpl. intros [[H1 N1]|[-> H1]] [[H2 N2]|[-> H2]].
  - left. split; [by etrans|]. intros ->. apply N1. by apply (anti_symm String.le).
  - by left.
  - by left.
  - right. split; [done|by etrans].
Qed.
#[export] Instance le2_antisymm : AntiSymm (=) le2.
Proof.
  intros [o1 k1] [o2 k2]. unfold le2. simpl. intros [[H1 N1]|[-> H1]] [[H2 N2]|[E H2]]; try done.
  - by destruct N1; apply (anti_symm String.le).
  - f_equal. by apply (anti_symm String.le).
Qed.
Lemma le2_refl p : le2 p p.
Proof. right. done. Qed.
Lemma le2_total p q : le2 p q ∨ le2 q p.
Proof.
  unfold le2. destruct (decide (p.1 = q.1)) as [E|N].
  - destruct (total String.le p.2 q.2); [left|right]; right; auto.
  - destruct (total String.le p.1 q.1); [left|right]; left; auto.
Qed.

Definition order_in (m : gmap string info) (k : string) : string := from_option Order "" (m !! k).
Lemma before_le2 m k1 k2 : before m k1 k2 ↔ le2 (order_in m k1, k1) (order_in m k2, k2).
Proof. done. Qed.
#[export] Instance before_trans m : Transitive (before m).
Proof. intros x y z. rewrite !before_le2. apply le2_trans. Qed.
#[export] Instance before_antisymm m : AntiSymm (=) (before m).
Proof. intros x y. rewrite !before_le2. intros H1 H2. pose proof (anti_symm le2 _ _ H1 H2). by simplify_eq. Qed.
#[export] Instance before_total m : Total (before m).
Proof. intros x y. rewrite !before_le2. apply le2_total. Qed.

(** * Sorted keys *)

(** What makes a list the sorted keys of a selection. *)
Record keys_of (m : gmap string info) (kind v : string) (l : list string) : Prop := {
  keys_sorted : StronglySorted (before m) l;
  keys_nodup : NoDup l;
  keys_exact : ∀ k, k ∈ l ↔ ∃ i, m !! k = Some i ∧ selected kind v i = true;
}.

Lemma sorted_keys_of m kind v : keys_of m kind v (sorted_keys m kind v).
Proof.
  unfold sorted_keys. set (l := fst <$> filter _ _). pose proof (merge_sort_Permutation (before m) l) as Hp. split.
  - apply Sorted_StronglySorted; [apply _|]. apply Sorted_merge_sort, _.
  - rewrite Hp. subst l. apply NoDup_fmap_fst.
    + intros k i1 i2 [_ H1%elem_of_map_to_list]%list_elem_of_filter [_ H2%elem_of_map_to_list]%list_elem_of_filter. congruence.
    + apply NoDup_filter, NoDup_map_to_list.
  - intros k. rewrite Hp. subst l. rewrite list_elem_of_fmap. split.
    + intros ([k' i] & -> & [Hs Hk%elem_of_map_to_list]%list_elem_of_filter). eauto.
    + intros (i & Hk & Hs). exists (k, i). split; [done|]. apply list_elem_of_filter. split; [done|by apply elem_of_map_to_list].
Qed.

Lemma keys_of_unique m kind v l : keys_of m kind v l → l = sorted_keys m kind v.
Proof.
  intros [Hs Hn He]. destruct (sorted_keys_of m kind v) as [Hs' Hn' He'].
  apply (Sorted_unique (before m)); [by apply StronglySorted_Sorted..|].
  apply NoDup_Permutation; [done..|]. intros k. by rewrite He, He'.
Qed.

(** * Positions *)

(** [indexPosition], with what it reads of the index. *)
Definition at_or_after (m : gmap string info) (ids : list string) (key ord : string) (i : nat) : bool :=
  let k := default "" (ids !! i) in
  negb (bool_decide (String.le (order_in m k) ord)) || (order_in m k =s ord) && bool_decide (String.le key k).
Definition position (m : gmap string info) (ids : list string) (key ord : string) : nat :=
  Search (length ids) (at_or_after m ids key ord).

(** The position splits the list at [key]: what is left of it is not at or after
    [key], what is right of it is. *)
Lemma position_split m ids key ord : StronglySorted (before m) ids → let i := position m ids key ord in
  (i ≤ length ids)%nat ∧
  (∀ x, x ∈ take i ids → ¬ le2 (ord, key) (order_in m x, x)) ∧ (∀ x, x ∈ drop i ids → le2 (ord, key) (order_in m x, x)).
Proof.
  intros Hs i. set (f := at_or_after m ids key ord).
  assert (∀ a x, ids !! a = Some x → f a = true ↔ le2 (ord, key) (order_in m x, x)) as Hf.
  { intros a x Ha. subst f. unfold at_or_after. rewrite Ha. simpl. rewrite orb_true_iff, andb_true_iff, negb_true_iff. bool_to_prop. unfold le2. simpl.
    split.
    - intros [Hn|[-> Hk]]; [|by right]. left. destruct (total String.le ord (order_in m x)); [|done].
      split; [done|]. intros ->. by apply Hn.
    - intros [[H1 H2]|[-> H2]]; [|by right]. left. intros H3. apply H2. by apply (anti_symm String.le). }
  destruct (Search_spec (length ids) f) as (Hle & Hl & Hr).
  { intros a b [Hab Hb] Ha. destruct (lookup_lt_is_Some_2 ids b Hb) as [y Hy]. destruct (lookup_lt_is_Some_2 ids a) as [x Hx]; [lia|].
    rewrite (Hf _ _ Hx) in Ha. rewrite (Hf _ _ Hy). destruct (decide (a = b)) as [->|]; [congruence|].
    etrans; [exact Ha|]. change (before m x y). eapply (StronglySorted_app_1_elem_of _ (take (S a) ids) (drop (S a) ids));
      [|eapply (list_elem_of_lookup_2 _ a)|eapply (list_elem_of_lookup_2 _ (b - S a))].
    + rewrite (take_drop (S a) ids). exact Hs.
    + rewrite lookup_take_lt by lia. done.
    + rewrite lookup_drop. replace (S a + (b - S a))%nat with b by lia. done. }
  change (Search (length ids) f) with i in *. split_and!; [done| |].
  - intros x [a Ha]%list_elem_of_lookup. apply lookup_take_Some in Ha as [Ha Hi]. rewrite <-(Hf _ _ Ha), Hl by done. done.
  - intros x [a Ha]%list_elem_of_lookup. rewrite lookup_drop in Ha. rewrite <-(Hf _ _ Ha). apply Hr. apply lookup_lt_Some in Ha. lia.
Qed.

Lemma order_in_other m m' k x : (∀ y, y ≠ k → m' !! y = m !! y) → x ≠ k → order_in m' x = order_in m x.
Proof. intros Hm Hx. unfold order_in. by rewrite Hm. Qed.

(** Sorting does not look at keys that are not there. *)
Lemma sorted_other m m' k l : (∀ y, y ≠ k → m' !! y = m !! y) → k ∉ l → StronglySorted (before m) l → StronglySorted (before m') l.
Proof.
  intros Hm Hk. induction 1 as [|x l Hs IH Hx]; [constructor|]. apply not_elem_of_cons in Hk as [Hxk Hk]. constructor; [auto|].
  rewrite Forall_forall in *. intros y Hy. specialize (Hx y Hy). rewrite before_le2 in *.
  rewrite !(order_in_other m m' k) by (done || set_solver). done.
Qed.

(** Taking out a key that is selected. *)
Lemma keys_removed m kind v k i : m !! k = Some i → selected kind v i = true →
  let ids := sorted_keys m kind v in let p := position m ids k (Order i) in
  ids !! p = Some k ∧ take p ids ++ drop (S p) ids = sorted_keys (delete k m) kind v.
Proof.
  intros Hk Hsel ids p. destruct (sorted_keys_of m kind v) as [Hs Hn He]. fold ids in Hs, Hn, He.
  assert (order_in m k = Order i) as Ho by (unfold order_in; by rewrite Hk).
  destruct (position_split m ids k (Order i) Hs) as (Hle & Hl & Hr). fold p in Hle, Hl, Hr.
  assert (k ∈ drop p ids) as Hkd.
  { assert (k ∈ ids) as Hin by (apply He; eauto). rewrite <-(take_drop p ids) in Hin. apply elem_of_app in Hin as [Hin|?]; [|done].
    destruct (Hl k Hin). rewrite Ho. apply le2_refl. }
  assert (∃ x rest, drop p ids = x :: rest) as (x & rest & Ed) by (destruct (drop p ids); [by apply elem_of_nil in Hkd|eauto]).
  assert (x = k) as ->.
  { apply (anti_symm (before m)).
    - rewrite Ed in Hkd. apply elem_of_cons in Hkd as [->|Hkr]; [rewrite before_le2; apply le2_refl|].
      rewrite <-(take_drop p ids), Ed in Hs. apply StronglySorted_app_1_r in Hs.
      inversion Hs as [|? ? _ Hx]; subst. rewrite Forall_forall in Hx. by apply Hx.
    - rewrite before_le2, Ho. apply Hr. rewrite Ed. left. }
  assert (ids !! p = Some k) as Hp by (rewrite <-(Nat.add_0_r p), <-lookup_drop, Ed; done).
  split; [done|]. assert (ids = take p ids ++ k :: drop (S p) ids) as Eids by (by rewrite take_drop_middle).
  apply keys_of_unique. rewrite Eids in Hs, Hn. apply NoDup_app in Hn as (Hn1 & Hd & [Hk2 Hn2]%NoDup_cons).
  assert (k ∉ take p ids) as Hk1 by (intros H; apply (Hd k H); left). split.
  - apply (sorted_other m _ k); [intros y Hy; by rewrite lookup_delete_ne|set_solver|].
    apply StronglySorted_app in Hs as (H1 & H2 & H3). inversion H3 as [|? ? H4 _]; subst. apply StronglySorted_app_2; [|done..].
    intros x y Hx Hy. apply H1; [done|by right].
  - apply NoDup_app. split_and!; [done| |done]. intros x Hx. specialize (Hd x Hx). set_solver.
  - intros y. destruct (decide (y = k)) as [->|Hy].
    + rewrite lookup_delete_eq. split; [set_solver|naive_solver].
    + rewrite lookup_delete_ne, <-He by done. transitivity (y ∈ take p ids ++ k :: drop (S p) ids); [|by rewrite <-Eids].
      rewrite !elem_of_app, elem_of_cons. tauto.
Qed.

(** Putting in a key that is selected and not there yet. *)
Lemma keys_inserted m kind v k i : m !! k = None → selected kind v i = true →
  let ids := sorted_keys m kind v in let p := position (<[k:=i]> m) ids k (Order i) in
  take p ids ++ k :: drop p ids = sorted_keys (<[k:=i]> m) kind v.
Proof.
  intros Hk Hsel ids p. destruct (sorted_keys_of m kind v) as [Hs Hn He]. fold ids in Hs, Hn, He.
  assert (k ∉ ids) as Hnew by (rewrite He; naive_solver).
  assert (∀ y, y ≠ k → <[k:=i]> m !! y = m !! y) as Hother by (intros y Hy; by rewrite lookup_insert_ne).
  assert (StronglySorted (before (<[k:=i]> m)) ids) as Hs' by (by apply (sorted_other m _ k)).
  assert (order_in (<[k:=i]> m) k = Order i) as Ho by (unfold order_in; by rewrite lookup_insert_eq).
  destruct (position_split (<[k:=i]> m) ids k (Order i) Hs') as (Hle & Hl & Hr). fold p in Hle, Hl, Hr.
  apply keys_of_unique. rewrite <-(take_drop p ids) in Hs', Hn, Hnew. apply StronglySorted_app in Hs' as (H1 & H2 & H3).
  apply NoDup_app in Hn as (Hn1 & Hd & Hn2). rewrite not_elem_of_app in Hnew. destruct Hnew as [Hk1 Hk2]. split.
  - apply StronglySorted_app_2; [|done|].
    + intros x y Hx [->|Hy]%elem_of_cons; [|by apply H1]. rewrite before_le2, Ho.
      destruct (le2_total (order_in (<[k:=i]> m) x, x) (Order i, k)) as [?|Hge]; [done|]. by destruct (Hl x Hx).
    + constructor; [done|]. rewrite Forall_forall. intros x Hx. rewrite before_le2, Ho. auto.
  - apply NoDup_app. split_and!; [done| |by constructor]. intros x Hx [->|Hy]%elem_of_cons; [done|by apply (Hd x)].
  - intros y. rewrite elem_of_app, elem_of_cons. destruct (decide (y = k)) as [->|Hy].
    + rewrite lookup_insert_eq. split; [eauto|by auto].
    + rewrite Hother, <-He by done. transitivity (y ∈ take p ids ++ drop p ids); [rewrite elem_of_app; tauto|by rewrite take_drop].
Qed.

(** Selections that do not concern a key. *)
Lemma keys_unconcerned m m' kind v k : (∀ y, y ≠ k → m' !! y = m !! y) →
  (∀ i, m !! k = Some i → selected kind v i = false) → (∀ i, m' !! k = Some i → selected kind v i = false) →
  sorted_keys m' kind v = sorted_keys m kind v.
Proof.
  intros Hm H1 H2. symmetry. apply keys_of_unique. destruct (sorted_keys_of m kind v) as [Hs Hn He].
  assert (k ∉ sorted_keys m kind v) as Hk by (rewrite He; intros (i & Hi & Hi'); rewrite H1 in Hi' by done; done).
  split; [by apply (sorted_other m _ k)|done|]. intros y. rewrite He. destruct (decide (y = k)) as [->|Hy]; [|by rewrite Hm].
  split; intros (i & Hi & Hi'); [rewrite H1 in Hi' by done|rewrite H2 in Hi' by done]; done.
Qed.

(** * The ordered indexes of a store *)

(** The lists kept for a bucket are the sorted keys of [m]. *)
Definition ordered_is (o : gmap indexSelection (list string)) (b : string) (m : gmap string info) : Prop :=
  ∀ kind v, default [] (o !! (b, kind, v)) = sorted_keys m kind v.

(** The steps of [removeOrdered] and [insertOrdered] on the lists. *)
Definition removing (m : gmap string info) (k ord : string) (o : gmap indexSelection (list string)) (sel : indexSelection) :=
  let ids := default [] (o !! sel) in
  let p := position m ids k ord in
  let ids := if bool_decide (ids !! p = Some k) then take p ids ++ drop (S p) ids else ids in
  match ids with [] => delete sel o | _ => <[sel := ids]> o end.
Definition inserting (m : gmap string info) (k ord : string) (o : gmap indexSelection (list string)) (sel : indexSelection) :=
  let ids := default [] (o !! sel) in
  let p := position m ids k ord in
  <[sel := take p ids ++ k :: drop p ids]> o.

Lemma fold_ordered b m step g : (∀ s sel, infos s b = m → step s sel = s <| ordered := g (ordered s) sel |>) →
  ∀ (l : list indexSelection) s, infos s b = m → foldl step s l = s <| ordered := foldl g (ordered s) l |>.
Proof.
  intros Hstep l. induction l as [|sel l IH]; intros s Hs; simpl; [by destruct s|]. rewrite Hstep by done. by rewrite IH.
Qed.
Lemma removeOrdered_eq b k i s :
  removeOrdered b k i s = s <| ordered := foldl (removing (infos s b) k (Order i)) (ordered s) (selections b i) |>.
Proof. unfold removeOrdered. apply (fold_ordered b (infos s b)); [|done]. intros s' sel <-. reflexivity. Qed.
Lemma insertOrdered_eq b k i s :
  insertOrdered b k i s = s <| ordered := foldl (inserting (infos s b) k (Order i)) (ordered s) (selections b i) |>.
Proof. unfold insertOrdered. apply (fold_ordered b (infos s b)); [|done]. intros s' sel <-. reflexivity. Qed.

Lemma removing_at m k ord o sel sel' :
  default [] (removing m k ord o sel !! sel') =
  if decide (sel' = sel) then
    let ids := default [] (o !! sel) in let p := position m ids k ord in
    if bool_decide (ids !! p = Some k) then take p ids ++ drop (S p) ids else ids
  else default [] (o !! sel').
Proof.
  unfold removing. cbv zeta. destruct (decide (sel' = sel)) as [->|Hne].
  - destruct (if bool_decide _ then _ else _) as [|x l] eqn:E; [by rewrite lookup_delete_eq|by rewrite lookup_insert_eq].
  - destruct (if bool_decide _ then _ else _); [by rewrite lookup_delete_ne|by rewrite lookup_insert_ne].
Qed.
Lemma inserting_at m k ord o sel sel' :
  default [] (inserting m k ord o sel !! sel') =
  if decide (sel' = sel) then
    let ids := default [] (o !! sel) in let p := position m ids k ord in take p ids ++ k :: drop p ids
  else default [] (o !! sel').
Proof.
  unfold inserting. cbv zeta. destruct (decide (sel' = sel)) as [->|Hne]; [by rewrite lookup_insert_eq|by rewrite lookup_insert_ne].
Qed.

(** The selections of a record are the ones that select it. *)
Lemma elem_of_selections b i b' kind v : (b', kind, v) ∈ selections b i ↔ b' = b ∧ selected kind v i = true.
Proof.
  unfold selections, selected. rewrite !elem_of_cons, elem_of_nil. split.
  - by intros [[= -> -> ->]|[[= -> -> ->]|[[= -> -> ->]|[]]]]; (split; [done|]); repeat case_bool_decide.
  - intros [-> Hs]. repeat case_bool_decide; simplify_eq; auto.
Qed.
Lemma selections_nodup b i : NoDup (selections b i).
Proof. unfold selections. repeat constructor; set_solver. Qed.

(** Editing each selection of a record once. *)
Lemma edit_selections (f : gmap indexSelection (list string) → indexSelection → gmap indexSelection (list string))
    (g : list string → list string) :
  (∀ o sel sel', default [] (f o sel !! sel') = if decide (sel' = sel) then g (default [] (o !! sel)) else default [] (o !! sel')) →
  ∀ sels o sel', NoDup sels →
    default [] (foldl f o sels !! sel') = if decide (sel' ∈ sels) then g (default [] (o !! sel')) else default [] (o !! sel').
Proof.
  intros Hf sels. induction sels as [|sel sels IH]; intros o sel' Hn; [by rewrite decide_False by apply not_elem_of_nil|].
  apply NoDup_cons in Hn as [Hnew Hn]. simpl. rewrite IH by done. rewrite Hf.
  destruct (decide (sel' = sel)) as [->|Hne].
  - rewrite (decide_False (P := sel ∈ sels)), decide_True by (done || left). done.
  - destruct (decide (sel' ∈ sels)); [rewrite decide_True by (by right)|rewrite decide_False by set_solver]; done.
Qed.

(** Removing a record leaves its bucket's lists without its key, and the lists of
    other buckets alone. *)
Lemma removeOrdered_spec s b k i : infos s b !! k = Some i → ordered_is (ordered s) b (infos s b) →
  ∃ o, removeOrdered b k i s = s <| ordered := o |> ∧ ordered_is o b (delete k (infos s b)) ∧
    ∀ b' kind v, b' ≠ b → default [] (o !! (b', kind, v)) = default [] (ordered s !! (b', kind, v)).
Proof.
  intros Hk Ho. eexists. split; [apply removeOrdered_eq|].
  pose proof (λ o sel, removing_at (infos s b) k (Order i) o sel) as Hf.
  pose proof (edit_selections _ (λ ids, let p := position (infos s b) ids k (Order i) in
    if bool_decide (ids !! p = Some k) then take p ids ++ drop (S p) ids else ids) Hf (selections b i) (ordered s)) as He.
  split.
  - intros kind v. rewrite He by apply selections_nodup. cbv beta zeta. rewrite Ho.
    case_decide as Hsel.
    + apply elem_of_selections in Hsel as [_ Hsel]. destruct (keys_removed (infos s b) kind v k i Hk Hsel) as [H1 H2]. rewrite bool_decide_true by exact H1. exact H2.
    + symmetry. apply (keys_unconcerned _ _ _ _ k); [intros y Hy; by rewrite lookup_delete_ne| |by rewrite lookup_delete_eq].
      intros i' Hi'. rewrite Hk in Hi'. simplify_eq. destruct (selected kind v i') eqn:E; [|done]. destruct Hsel. by apply elem_of_selections.
  - intros b' kind v Hb. rewrite He by apply selections_nodup. rewrite decide_False; [done|]. by intros [? _]%elem_of_selections.
Qed.

Lemma insertOrdered_spec s b k i m : infos s b = <[k:=i]> m → m !! k = None → ordered_is (ordered s) b m →
  ∃ o, insertOrdered b k i s = s <| ordered := o |> ∧ ordered_is o b (<[k:=i]> m) ∧
    ∀ b' kind v, b' ≠ b → default [] (o !! (b', kind, v)) = default [] (ordered s !! (b', kind, v)).
Proof.
  intros Hm Hk Ho. eexists. split; [apply insertOrdered_eq|].
  pose proof (λ o sel, inserting_at (infos s b) k (Order i) o sel) as Hf.
  pose proof (edit_selections _ (λ ids, let p := position (infos s b) ids k (Order i) in take p ids ++ k :: drop p ids)
    Hf (selections b i) (ordered s)) as He.
  split.
  - intros kind v. rewrite He by apply selections_nodup. cbv beta zeta. rewrite Ho.
    case_decide as Hsel.
    + apply elem_of_selections in Hsel as [_ Hsel]. rewrite Hm. by apply keys_inserted.
    + symmetry. apply (keys_unconcerned _ _ _ _ k); [intros y Hy; by rewrite lookup_insert_ne|by rewrite Hk|].
      intros i' Hi'. rewrite lookup_insert_eq in Hi'. simplify_eq. destruct (selected kind v i') eqn:E; [|done]. destruct Hsel. by apply elem_of_selections.
  - intros b' kind v Hb. rewrite He by apply selections_nodup. rewrite decide_False; [done|]. by intros [? _]%elem_of_selections.
Qed.

(** * Applying records *)

(** Every ordered list of the store is exact. *)
Definition ordered_ok (s : Store) : Prop := ∀ b, ordered_is (ordered s) b (infos s b).

Definition pending (s : Store) (b : string) : gset string := default ∅ (pendingHistory s !! b).

(** [s'] is [s] with other indexes. *)
Definition reindexed (s s' : Store) : Prop :=
  ∃ ix o ph, s' = s <| s_index := ix |> <| ordered := o |> <| pendingHistory := ph |>.
#[export] Instance reindexed_pre : PreOrder reindexed.
Proof.
  split.
  - intros s. exists (s_index s), (ordered s), (pendingHistory s). by destruct s.
  - intros s1 s2 s3 (ix & o & ph & ->) (ix' & o' & ph' & ->). by exists ix', o', ph'.
Qed.

(** What the record [r] at a slot of a file leaves in the index and in the
    pending history. *)
Definition indexed (name : string) (i : nat) (r : record) : option reference :=
  if record_Delete r then None else Some (mkreference name i (record_info r)).
Definition pends (name : string) (r : record) (p : gset string) : gset string :=
  if record_Delete r || Contains name "-history-" then p ∖ {[record_Key r]} else {[record_Key r]} ∪ p.

Record record_applied (name : string) (i : nat) (r : record) (s s' : Store) : Prop := {
  applied_reindexed : reindexed s s';
  applied_ordered : ordered_ok s';
  applied_find : ∀ b k, find s' b k =
    if decide (record_Bucket r = b ∧ record_Key r = k) then indexed name i r else find s b k;
  applied_pending : ∀ b, pending s' b =
    if decide (record_Bucket r = b ∧ historyBucket b = true) then pends name r (pending s b) else pending s b;
  applied_identity : record_Bucket r ≠ "" ∧ record_Key r ≠ "";
}.

Lemma infos_insert s b ref k : infos (s <| s_index := <[b := <[k := ref]> (index_of s b)]> (s_index s) |>) b = <[k := ref_info ref]> (infos s b).
Proof. unfold infos, index_of. simpl. rewrite lookup_insert_eq. simpl. by rewrite fmap_insert. Qed.
Lemma infos_delete s b k : infos (s <| s_index := <[b := delete k (index_of s b)]> (s_index s) |>) b = delete k (infos s b).
Proof. unfold infos, index_of. simpl. rewrite lookup_insert_eq. simpl. by rewrite fmap_delete. Qed.
Lemma index_of_insert_ne s b b' m : b' ≠ b → index_of (s <| s_index := <[b := m]> (s_index s) |>) b' = index_of s b'.
Proof. intros Hb. unfold index_of. simpl. by rewrite lookup_insert_ne. Qed.
Lemma index_of_insert s b m : index_of (s <| s_index := <[b := m]> (s_index s) |>) b = m.
Proof. unfold index_of. simpl. by rewrite lookup_insert_eq. Qed.
Lemma infos_lookup s b k : infos s b !! k = ref_info <$> find s b k.
Proof. apply lookup_fmap. Qed.

(** Replacing what a bucket's index has for a key, with the lists to match. *)
Lemma reorder s b k (next : option reference) (s1 : Store) o : ordered_ok s →
  s1 = s <| s_index := <[b := partial_alter (λ _, next) k (index_of s b)]> (s_index s) |> <| ordered := o |> →
  ordered_is o b (partial_alter (λ _, ref_info <$> next) k (infos s b)) →
  (∀ b' kind v, b' ≠ b → default [] (o !! (b', kind, v)) = default [] (ordered s !! (b', kind, v))) →
  reindexed s s1 ∧ ordered_ok s1 ∧ (∀ b' k', find s1 b' k' = if decide (b = b' ∧ k = k') then next else find s b' k') ∧
  pendingHistory s1 = pendingHistory s.
Proof.
  intros Hok Hs1 Ho Hother.
  assert (index_of s1 b = partial_alter (λ _, next) k (index_of s b)) as E1 by (rewrite Hs1; exact (index_of_insert s b _)).
  assert (∀ b', b' ≠ b → index_of s1 b' = index_of s b') as E2 by (intros b' Hb; rewrite Hs1; exact (index_of_insert_ne s b b' _ Hb)).
  assert (ordered s1 = o) as E3 by (by rewrite Hs1). split_and!.
  - eexists _, o, (pendingHistory s). rewrite Hs1. by destruct s.
  - intros b'. rewrite E3. destruct (decide (b' = b)) as [->|Hb].
    + replace (infos s1 b) with (partial_alter (λ _, ref_info <$> next) k (infos s b)); [exact Ho|].
      unfold infos. rewrite E1. apply map_eq. intros x. rewrite lookup_fmap.
      destruct (decide (x = k)) as [->|]; [by rewrite !lookup_partial_alter_eq|by rewrite !lookup_partial_alter_ne, lookup_fmap by done].
    + intros kind v. rewrite Hother by done. etrans; [apply Hok|]. f_equal. unfold infos. by rewrite E2.
  - intros b' k'. unfold find. destruct (decide (b = b')) as [<-|Hb].
    + rewrite E1. destruct (decide (k = k')) as [<-|Hk].
      * rewrite lookup_partial_alter_eq, decide_True; done.
      * rewrite lookup_partial_alter_ne, decide_False by naive_solver. done.
    + rewrite decide_False by naive_solver. by rewrite E2.
  - by rewrite Hs1.
Qed.

(** The index and the lists after a record, without the pending history. *)
Definition reindex (name : string) (i : nat) (r : record) (s : Store) : Store :=
  let b := record_Bucket r in let k := record_Key r in
  let next := mkreference name i (record_info r) in
  let changed := match find s b k with None => true | Some old => ref_info old ≠s ref_info next end in
  let s := match find s b k with
           | Some old => if record_Delete r || changed then removeOrdered b k (ref_info old) s else s
           | None => s
           end in
  if record_Delete r then s <| s_index := <[b := delete k (index_of s b)]> (s_index s) |>
  else
    let s := s <| s_index := <[b := <[k := next]> (index_of s b)]> (s_index s) |> in
    if changed then insertOrdered b k (ref_info next) s else s.

Lemma reindex_spec name i r s : ordered_ok s → let b := record_Bucket r in let k := record_Key r in
  ∃ o, reindex name i r s = s <| s_index := <[b := partial_alter (λ _, indexed name i r) k (index_of s b)]> (s_index s) |> <| ordered := o |> ∧
    ordered_is o b (partial_alter (λ _, ref_info <$> indexed name i r) k (infos s b)) ∧
    (∀ b' kind v, b' ≠ b → default [] (o !! (b', kind, v)) = default [] (ordered s !! (b', kind, v))).
Proof.
  intros Hok b k. unfold reindex, indexed. fold b k. cbv zeta. pose proof (infos_lookup s b k) as Hi.
  destruct (find s b k) as [old|] eqn:Hf; simpl in Hi.
  - destruct (removeOrdered_spec s b k (ref_info old) Hi (Hok b)) as (o & Hr & Ho & Hother).
    destruct (record_Delete r); simpl.
    + exists o. rewrite Hr. split_and!; [by destruct s|exact Ho|done].
    + case_bool_decide as Hc; simpl.
      * exists (ordered s). split_and!; [by destruct s| |done].
        change (partial_alter _ k (infos s b)) with (<[k := record_info r]> (infos s b)). rewrite insert_id; [apply Hok|congruence].
      * rewrite Hr. destruct (insertOrdered_spec (s <| ordered := o |> <| s_index := <[b := <[k := mkreference name i (record_info r)]> (index_of s b)]> (s_index s) |>)
          b k (record_info r) (delete k (infos s b))) as (o' & Hins & Ho' & Hother').
        { rewrite insert_delete_eq. exact (infos_insert s b (mkreference name i (record_info r)) k). }
        { apply lookup_delete_eq. }
        { exact Ho. }
        exists o'. split_and!; [etrans; [exact Hins|by destruct s]|by rewrite insert_delete_eq in Ho'|].
        intros b' kind v Hb. rewrite Hother' by done. by apply Hother.
  - destruct (record_Delete r); simpl.
    + exists (ordered s). split_and!; [by destruct s| |done]. change (partial_alter _ k (infos s b)) with (delete k (infos s b)).
      rewrite delete_id by done. apply Hok.
    + destruct (insertOrdered_spec (s <| s_index := <[b := <[k := mkreference name i (record_info r)]> (index_of s b)]> (s_index s) |>)
          b k (record_info r) (infos s b)) as (o' & Hins & Ho' & Hother').
      { exact (infos_insert s b (mkreference name i (record_info r)) k). }
      { done. }
      { exact (Hok b). }
      exists o'. split_and!; [etrans; [exact Hins|by destruct s]|exact Ho'|exact Hother'].
Qed.

(** A bucket without an index gets an empty one. *)
Definition open_bucket (b : string) (s : Store) : Store :=
  if bool_decide (is_Some (s_index s !! b)) then s else s <| s_index := <[b := ∅]> (s_index s) |>.
Lemma open_bucket_index b s b' : index_of (open_bucket b s) b' = index_of s b'.
Proof.
  unfold open_bucket. case_bool_decide as Hb; [done|]. destruct (decide (b' = b)) as [->|Hne].
  - etrans; [apply index_of_insert|]. apply eq_None_not_Some in Hb. unfold index_of. by rewrite Hb.
  - by apply index_of_insert_ne.
Qed.
Lemma open_bucket_ok b s : ordered_ok s → ordered_ok (open_bucket b s).
Proof.
  intros Hok b'. unfold infos. rewrite open_bucket_index. replace (ordered (open_bucket b s)) with (ordered s); [apply Hok|].
  unfold open_bucket. by case_bool_decide.
Qed.
Lemma open_bucket_reindexed b s : reindexed s (open_bucket b s).
Proof.
  unfold open_bucket. case_bool_decide; [reflexivity|]. exists (<[b:=∅]> (s_index s)), (ordered s), (pendingHistory s). by destruct s.
Qed.

Lemma open_bucket_pending b s : pendingHistory (open_bucket b s) = pendingHistory s.
Proof. unfold open_bucket. by case_bool_decide. Qed.

Lemma apply_record_eq name snapshot i r s :
  apply_record name snapshot i r s =
  let b := record_Bucket r in let k := record_Key r in
  if (b =s "") || (k =s "") then (s, Err (errors_New "empty state record identity")) else
  let s := open_bucket b s in
  if snapshot && bool_decide (is_Some (find s b k)) then (s, Err (errors_New "duplicate snapshot record")) else
  let s := reindex name i r s in
  (if historyBucket b then s <| pendingHistory := <[b := pends name r (pending s b)]> (pendingHistory s) |> else s, Ok ()).
Proof. reflexivity. Qed.

Lemma apply_record_spec name snapshot i r s s' : ordered_ok s → apply_record name snapshot i r s = (s', Ok ()) →
  record_applied name i r s s' ∧ (snapshot = true → find s (record_Bucket r) (record_Key r) = None).
Proof.
  intros Hok. rewrite apply_record_eq. cbv zeta. set (b := record_Bucket r). set (k := record_Key r).
  destruct (_ || _) eqn:Hid; [done|]. bool_to_prop. set (s0 := open_bucket b s).
  assert (∀ b' k', find s0 b' k' = find s b' k') as Hf0 by (intros b' k'; unfold find, s0; by rewrite open_bucket_index).
  destruct (snapshot && _) eqn:Hsnap; [done|]. rewrite Hf0 in Hsnap.
  pose proof (open_bucket_ok b s Hok) as Hok0. destruct (reindex_spec name i r s0 Hok0) as (o & Hre & Ho & Hother).
  destruct (reorder s0 b k (indexed name i r) (reindex name i r s0) o Hok0 Hre Ho Hother) as (Hr & Hok1 & Hfind & Hpend).
  set (s1 := reindex name i r s0) in *. intros [= <-]. split.
  2: { intros ->. simpl in Hsnap. bool_to_prop. by apply eq_None_not_Some. }
  assert (∀ b', pending s1 b' = pending s b') as Hp1.
  { intros b'. unfold pending. rewrite Hpend. unfold s0. by rewrite open_bucket_pending. }
  assert (reindexed s s1) as Hrs by (etrans; [apply open_bucket_reindexed|exact Hr]).
  split; [| | | |done].
  - etrans; [exact Hrs|]. case_match; [|reflexivity]. exists (s_index s1), (ordered s1), (<[b:=pends name r (pending s1 b)]> (pendingHistory s1)).
    done.
  - case_match; exact Hok1.
  - intros b' k'. transitivity (find s1 b' k'); [by case_match|]. rewrite Hfind. by rewrite Hf0.
  - intros b'. fold b. destruct (historyBucket b) eqn:Hb.
    + unfold pending at 1. simpl. destruct (decide (b' = b)) as [->|Hne].
      * rewrite lookup_insert_eq, decide_True by done. simpl. by rewrite Hp1.
      * rewrite lookup_insert_ne by done. rewrite decide_False by (intros [??]; congruence). apply Hp1.
    + rewrite decide_False by (intros [??]; congruence). apply Hp1.
Qed.

(** Applying a document: every record in turn. *)
Lemma apply_records_inv (P : list record → Store → Prop) name snapshot rs n s s' : ordered_ok s → P [] s →
  (∀ pre r post s1 s2, rs = pre ++ r :: post → ordered_ok s1 → P pre s1 → record_applied name (n + length pre) r s1 s2 →
     (snapshot = true → find s1 (record_Bucket r) (record_Key r) = None) → P (pre ++ [r]) s2) →
  apply_records name snapshot n rs s = (s', Ok ()) → P rs s' ∧ ordered_ok s' ∧ reindexed s s'.
Proof.
  intros Hok H0 Hstep. cut (∀ post pre s1, rs = pre ++ post → ordered_ok s1 → P pre s1 → reindexed s s1 →
    apply_records name snapshot (n + length pre) post s1 = (s', Ok ()) → P (pre ++ post) s' ∧ ordered_ok s' ∧ reindexed s s').
  { intros Hcut. specialize (Hcut rs [] s eq_refl Hok H0 ltac:(reflexivity)). simpl in Hcut. rewrite Nat.add_0_r in Hcut. exact Hcut. }
  induction post as [|r post IH]; intros pre s1 Hrs Hok1 HP Hr.
  - intros [= <-]. rewrite app_nil_r. done.
  - cbn [apply_records]. unfold mbind, ST_bind. destruct (apply_record _ _ _ r s1) as [s2 [[]|e]] eqn:E; [|done].
    destruct (apply_record_spec _ _ _ _ _ _ Hok1 E) as [Ha Hs]. intros Hrest.
    rewrite cons_middle, app_assoc. apply (IH (pre ++ [r]) s2).
    + by rewrite <-app_assoc.
    + apply (applied_ordered _ _ _ _ _ Ha).
    + by eapply Hstep.
    + etrans; [exact Hr|]. apply (applied_reindexed _ _ _ _ _ Ha).
    + rewrite length_app. simpl. by rewrite Nat.add_1_r, <-plus_n_Sm.
Qed.

(** Records with an identity are applied. *)
Lemma apply_records_ok name rs n s : (∀ r, r ∈ rs → record_Bucket r ≠ "" ∧ record_Key r ≠ "") →
  ∃ s', apply_records name false n rs s = (s', Ok ()).
Proof.
  revert n s. induction rs as [|r rs IH]; intros n s Hid; [by exists s|]. cbn [apply_records]. unfold mbind, ST_bind.
  rewrite apply_record_eq. cbv zeta. destruct (Hid r) as [Hb Hk]; [left|]. rewrite !bool_decide_false by done. simpl.
  apply IH. intros r' Hr'. apply Hid. by right.
Qed.
