(* ===== verification/StateReach.v ===== *)
(** What holds of the store at every moment, whatever the files it is opened on,
    however system calls end and whatever the callers ask: the ordered indexes
    are exact, and the cache of documents accounts for its size and stays within
    its limit. *)
From S2P Require Import Prelude GoLib Base64 Entities StateProg StateRecords StateStore StateIndex.
From stdpp Require Import options.
#[local] Set Default Proof Using "Type*".
Local Open Scope Z_scope.

(** * Computations that preserve a property of the store *)

Definition preserves (I : Store → Prop) {A} (m : ST A) : Prop := ∀ s, I s → I (m s).1.

Section Preserves.
Context {I : Store → Prop}.
Implicit Types (s : Store).

Lemma preserves_ret {A} (a : A) : preserves I (mret a).
Proof. by intros s Hs. Qed.
Lemma preserves_throw {A} e : preserves I (throw (A := A) e).
Proof. by intros s Hs. Qed.
Lemma preserves_from {A} (r : result A) : preserves I (from r).
Proof. by intros s Hs. Qed.
Lemma preserves_gets {A} (f : Store → A) : preserves I (gets f).
Proof. by intros s Hs. Qed.
Lemma preserves_stop_if c e : preserves I (stop_if c e).
Proof. by destruct c; intros s Hs. Qed.
Lemma preserves_modify f : (∀ s, I s → I (f s)) → preserves I (modify f).
Proof. intros Hf s Hs. by apply Hf. Qed.
Lemma preserves_bind {A B} (m : ST A) (f : A → ST B) : preserves I m → (∀ a, preserves I (f a)) → preserves I (m ≫= f).
Proof.
  intros Hm Hf s Hs. unfold mbind, ST_bind. specialize (Hm s Hs). destruct (m s) as [s' [a|e]]; [by apply Hf|done].
Qed.
Lemma preserves_attempt {A} (m : ST A) : preserves I m → preserves I (attempt m).
Proof. intros Hm s Hs. unfold attempt. specialize (Hm s Hs). by destruct (m s). Qed.
Lemma preserves_each {A B} (f : B → A → ST B) b l : (∀ b a, preserves I (f b a)) → preserves I (each f b l).
Proof.
  intros Hf. revert b. induction l as [|x l IH]; intros b; [apply preserves_ret|]. apply preserves_bind; [apply Hf|apply IH].
Qed.
End Preserves.

Create HintDb preserves.
#[export] Hint Resolve preserves_ret preserves_throw preserves_from preserves_gets preserves_stop_if
  preserves_attempt : preserves.

(** One step through a computation. *)
Ltac preserve := repeat first
  [ progress intros
  | solve [auto with preserves]
  | apply preserves_bind
  | apply preserves_each
  | apply preserves_attempt
  | match goal with
    | |- preserves _ (match ?x with _ => _ end) => destruct x
    | |- preserves _ (let '(_, _) := ?x in _) => destruct x
    end ].

(** A property that looks only at the cache and the indexes. *)
Class Framed (I : Store → Prop) : Prop :=
  framed : ∀ s s', ordered s = ordered s' → s_index s = s_index s' → cache s = cache s' → cacheOrder s = cacheOrder s' →
    cacheBytes s = cacheBytes s' → I s → I s'.

Section Store.
Context {E : Aead} {R : Random}.
Context {YEnv : Yaml envelope} {YDoc : Yaml document} {YHeader : Yaml header} {YUnit : Yaml ()} {YManifest : Yaml manifest}.
Context {I : Store → Prop} `{!Framed I}.

Lemma preserves_frame f : (∀ s, ordered s = ordered (f s) ∧ s_index s = s_index (f s) ∧ cache s = cache (f s) ∧
  cacheOrder s = cacheOrder (f s) ∧ cacheBytes s = cacheBytes (f s)) → preserves I (modify f).
Proof. intros Hf. apply preserves_modify. intros s Hs. destruct (Hf s) as (H1 & H2 & H3 & H4 & H5). by eapply framed. Qed.
Hint Extern 5 (preserves _ (modify _)) => (apply preserves_frame; intros ?; split_and!; reflexivity) : preserves.
Hint Extern 5 (preserves _ poison) => (apply preserves_frame; intros ?; split_and!; reflexivity) : preserves.

Lemma preserves_read A `{Yaml A} name kind seq : preserves I (read A name kind seq).
Proof.
  intros s Hs. unfold read. repeat case_match; try done; simpl; (eapply framed; [..|exact Hs]); reflexivity.
Qed.
Lemma preserves_next_fault : preserves I next_fault.
Proof. intros s Hs. unfold next_fault. destruct (faults s); [done|]. by eapply framed; [..|exact Hs]. Qed.
Hint Resolve preserves_read preserves_next_fault : preserves.
Lemma preserves_write {A} `{Yaml A} name kind seq (v : A) : preserves I (write name kind seq v).
Proof. unfold write. preserve. Qed.
Hint Resolve preserves_write : preserves.

(** The operations, given that a document is remembered, a record indexed and
    the cache cleared safely. *)
Context (Hremember : ∀ name doc n, preserves I (remember name doc n)).
Context (Happly : ∀ name snapshot i r, preserves I (apply_record name snapshot i r)).
Context (Hclear : ∀ s, I s → I (s <| cache := ∅ |> <| cacheOrder := [] |> <| cacheBytes := 0 |>)).

Lemma preserves_load name : preserves I (load name).
Proof. unfold load. preserve. Qed.
Hint Resolve preserves_load : preserves.
Lemma preserves_apply doc name snapshot : preserves I (apply doc name snapshot).
Proof.
  unfold apply. generalize 0%nat as i. induction (Records doc) as [|r rs IH]; intros i; [apply preserves_ret|].
  cbn [apply_records]. preserve.
Qed.
Hint Resolve preserves_apply : preserves.

Lemma preserves_exec {A} (p : prog A) tx : preserves I (exec p tx).
Proof.
  revert tx. induction p; intros tx; cbn [exec]; try unfold lookup_data; try unfold raise_version; preserve.
Qed.
Hint Resolve preserves_exec : preserves.
Lemma preserves_available ctx : preserves I (available ctx).
Proof. unfold available. preserve. Qed.
Hint Resolve preserves_available : preserves.
Lemma preserves_view {A} ctx (p : prog A) : preserves I (view ctx p).
Proof. unfold view. preserve. Qed.

Lemma preserves_flush p : preserves I (flush p).
Proof. unfold flush. preserve. Qed.
Hint Resolve preserves_flush : preserves.
Lemma preserves_page_bucket p b : preserves I (page_bucket p b).
Proof. unfold page_bucket, page_record. preserve. Qed.
Hint Resolve preserves_page_bucket : preserves.
Lemma preserves_remove_file name : preserves I (remove_file name).
Proof. unfold remove_file. preserve. Qed.
Lemma preserves_syncDir : preserves I syncDir.
Proof. unfold syncDir. preserve. Qed.
Hint Resolve preserves_remove_file preserves_syncDir : preserves.
Lemma preserves_remove_superseded live subdir : preserves I (remove_superseded live subdir).
Proof. unfold remove_superseded. preserve. Qed.
Hint Resolve preserves_remove_superseded : preserves.
Lemma preserves_compact : preserves I compact.
Proof.
  unfold compact. preserve. apply preserves_modify. intros s Hs. by eapply framed; [..|apply Hclear, Hs].
Qed.
Hint Resolve preserves_compact : preserves.

Lemma preserves_or_poison {A} wrap (m : ST A) : preserves I m → preserves I (or_poison wrap m).
Proof. intros Hm. unfold or_poison. preserve. Qed.
Hint Resolve preserves_or_poison : preserves.
Lemma preserves_update {A} ctx (p : prog A) : preserves I (update ctx p).
Proof. unfold update, check_records. preserve. Qed.

Lemma preserves_open_manifest : preserves I open_manifest.
Proof. unfold open_manifest, open_history, open_page. preserve. Qed.
Lemma preserves_open_entry entry : preserves I (open_entry entry).
Proof. unfold open_entry. preserve. Qed.
Hint Resolve preserves_open_manifest preserves_open_entry : preserves.
Lemma preserves_open d existing : preserves I (open d existing).
Proof. unfold open. preserve. Qed.
Lemma preserves_Close : preserves I Close.
Proof. unfold Close. preserve. Qed.
End Store.

(** * Stores in use

    A store is what [open] leaves on the files of a directory, and what any
    calls make of it. Between calls, other processes and the operating system
    may change the files, and system calls may fail. *)
Section Reach.
Context {E : Aead} {R : Random}.
Context {YEnv : Yaml envelope} {YDoc : Yaml document} {YHeader : Yaml header} {YUnit : Yaml ()} {YManifest : Yaml manifest}.

Inductive in_use : Store → Prop :=
| use_open files fl dr ro d existing s : open d existing (new_Store files fl dr ro) = (s, Ok ()) → in_use s
| use_update {A} ctx (p : prog A) s : in_use s → in_use (update ctx p s).1
| use_view {A} ctx (p : prog A) s : in_use s → in_use (view ctx p s).1
| use_configure s : in_use s → in_use (s <| s_managed := true |>)
| use_close s : in_use s → in_use (Close s).1
| use_outside s files fl : in_use s → in_use (s <| disk := files |> <| faults := fl |>).

(** A property of the cache and the indexes that the three operations on them
    preserve holds of every store in use. *)
Lemma in_use_inv (I : Store → Prop) `{!Framed I} :
  (∀ name doc n, preserves I (remember name doc n)) → (∀ name snapshot i r, preserves I (apply_record name snapshot i r)) →
  (∀ s, I s → I (s <| cache := ∅ |> <| cacheOrder := [] |> <| cacheBytes := 0 |>)) →
  (∀ files fl dr ro, I (new_Store files fl dr ro)) → ∀ s, in_use s → I s.
Proof.
  intros Hr Ha Hc Hn s. induction 1 as [files fl dr ro d existing s Ho|A ctx p s _ IH|A ctx p s _ IH|s _ IH|s _ IH|s files fl _ IH].
  - pose proof (preserves_open Hr Ha Hc d existing _ (Hn files fl dr ro)) as H. by rewrite Ho in H.
  - by apply preserves_update.
  - by apply preserves_view.
  - by eapply framed; [..|exact IH].
  - by apply preserves_Close.
  - by eapply framed; [..|exact IH].
Qed.

(** * The ordered indexes *)

#[local] Instance ordered_ok_framed : Framed ordered_ok.
Proof. intros s s' Ho Hi _ _ _ Hok b kind v. unfold infos, index_of. rewrite <-Ho, <-Hi. apply Hok. Qed.

Lemma apply_record_ordered name snapshot i r : preserves ordered_ok (apply_record name snapshot i r).
Proof.
  intros s Hok. destruct (apply_record name snapshot i r s) as [s' [[]|e]] eqn:H; simpl.
  - destruct (apply_record_spec _ _ _ _ _ _ Hok H) as [Ha _]. apply (applied_ordered _ _ _ _ _ Ha).
  - rewrite apply_record_eq in H. cbv zeta in H. destruct (_ || _); [by simplify_eq|].
    destruct (snapshot && _); [|done]. simplify_eq. by apply open_bucket_ok.
Qed.

Lemma remember_ordered name doc n : preserves ordered_ok (remember name doc n).
Proof.
  assert (∀ order m s, ordered_ok s → ordered_ok (evict order m s)) as Hevict.
  { induction order as [|old rest IH]; intros m s Hs; simpl; [exact Hs|].
    case_match; [apply IH|]; exact Hs. }
  apply preserves_modify. intros s Hs. case_match; [done|]. case_match; [done|]. exact (Hevict (cacheOrder s) n s Hs).
Qed.

(** C18. The ordered indexes are exact: in every store in use, the list kept for
    any bucket, kind and value of selection is the sorted list of the keys the
    selection has in the index, which is what the specification answers a query
    with, whatever the order in which records were applied, changed and deleted,
    and whatever failed. *)
Theorem ordered_exact s b kind v : in_use s → default [] (ordered s !! (b, kind, v)) = sorted_keys (infos s b) kind v.
Proof.
  intros Hs. revert b kind v. change (ordered_ok s). revert s Hs. apply in_use_inv.
  - apply ordered_ok_framed.
  - apply remember_ordered.
  - apply apply_record_ordered.
  - intros s Hs. exact Hs.
  - by intros files fl dr ro b kind v.
Qed.

(** * The cache *)

Definition entry_bytes (s : Store) (name : string) : Z := from_option Bytes 0 (cache s !! name).
Definition total (s : Store) (names : list string) : Z := foldr Z.add 0 (entry_bytes s <$> names).

(** The order has every cached document once, and the bytes are those of the
    documents. *)
Record accounted (s : Store) : Prop := {
  account_nodup : NoDup (cacheOrder s);
  account_names : ∀ name, name ∈ cacheOrder s ↔ is_Some (cache s !! name);
  account_bytes : cacheBytes s = total s (cacheOrder s);
}.
Definition cache_sized (s : Store) : Prop := accounted s ∧ cacheBytes s ≤ cacheLimit.

Lemma total_other (s s' : Store) names : (∀ name, name ∈ names → cache s' !! name = cache s !! name) → total s' names = total s names.
Proof.
  unfold total. intros Hn. f_equal. apply list_fmap_ext. intros i name Hi. unfold entry_bytes. rewrite Hn; [done|].
  by eapply list_elem_of_lookup_2.
Qed.
Lemma total_snoc s names name : total s (names ++ [name]) = total s names + entry_bytes s name.
Proof.
  unfold total. rewrite fmap_app, foldr_app. cbn [fmap list_fmap foldr]. induction names as [|x names IH]; cbn [fmap list_fmap foldr]; [lia|].
  rewrite IH. lia.
Qed.

(** Making room: the oldest documents go, until [n] more bytes fit or none is
    left. *)
Lemma evict_spec n order s : order = cacheOrder s → accounted s → let s' := evict order n s in
  accounted s' ∧ (cacheOrder s' = [] ∨ cacheBytes s' + n ≤ cacheLimit) ∧
  (∀ name, cache s !! name = None → cache s' !! name = None).
Proof.
  revert s. induction order as [|old rest IH]; intros s Ho [Hd Hn Hb]; cbn [evict]; cbv zeta.
  - split_and!; [|by left|done]. split; simpl; rewrite <-Ho in Hn, Hb; [constructor|exact Hn|exact Hb].
  - rewrite <-Ho in Hd, Hn, Hb. destruct (Z.ltb_spec cacheLimit (cacheBytes s + n)) as [Hlt|Hge].
    + apply NoDup_cons in Hd as [Hold Hd]. edestruct IH as (H1 & H2 & H3); [| |split_and!; [exact H1|exact H2|]]; simpl.
      * reflexivity.
      * split; simpl; [done| |].
        -- intros name. rewrite lookup_delete_is_Some, <-Hn, elem_of_cons. split; [|naive_solver]. intros Hr. split; [|by right]. by intros ->.
        -- rewrite Hb. change (total s (old :: rest)) with (entry_bytes s old + total s rest). unfold entry_bytes.
           rewrite Z.add_simpl_l. symmetry. apply total_other. intros name Hr. simpl. apply lookup_delete_ne. by intros ->.
      * intros name Hname. apply H3. simpl. by apply lookup_delete_None; right.
    + split_and!; simpl; [|right; lia|done]. split; simpl; done.
Qed.

Lemma remember_sized name doc n : preserves cache_sized (remember name doc n).
Proof.
  apply preserves_modify. intros s [Ha Hl]. destruct (Z.ltb_spec (cacheLimit / 2) n) as [|Hn]; [done|].
  destruct (cache s !! name) as [e|] eqn:Hname; [done|].
  destruct (evict_spec n (cacheOrder s) s eq_refl Ha) as ([Hd Hn' Hb] & Hroom & Hkeep). cbv zeta.
  set (s1 := evict (cacheOrder s) n s) in *. specialize (Hkeep name Hname).
  assert (name ∉ cacheOrder s1) as Hnew by (rewrite Hn', Hkeep; by intros []).
  split; [split|]; simpl.
  - apply NoDup_app. split_and!; [done| |apply NoDup_singleton]. intros x Hx ->%list_elem_of_singleton. done.
  - intros x. rewrite lookup_insert_is_Some, elem_of_app, list_elem_of_singleton, Hn'. destruct (decide (name = x)); naive_solver.
  - rewrite total_snoc, Hb. f_equal; [|unfold entry_bytes; simpl; by rewrite lookup_insert_eq].
    symmetry. apply total_other. intros x Hx. simpl. apply lookup_insert_ne. by intros ->.
  - destruct Hroom as [Hr|Hr]; [|lia]. rewrite Hb, Hr. unfold total. cbn [fmap list_fmap foldr].
    assert (cacheLimit / 2 ≤ cacheLimit) by (vm_compute; done). lia.
Qed.

(** Applying a record changes the indexes only. *)
Lemma reindexed_set s ix o ph : reindexed s (s <| s_index := ix |> <| ordered := o |> <| pendingHistory := ph |>).
Proof. by exists ix, o, ph. Qed.
Lemma reindexed_index s s' ix : reindexed s s' → reindexed s (s' <| s_index := ix |>).
Proof. intros (ix' & o & ph & ->). exact (reindexed_set s ix o ph). Qed.
Lemma reindexed_ordered s s' o : reindexed s s' → reindexed s (s' <| ordered := o |>).
Proof. intros (ix & o' & ph & ->). exact (reindexed_set s ix o ph). Qed.
Lemma reindexed_pending s s' ph : reindexed s s' → reindexed s (s' <| pendingHistory := ph |>).
Proof. intros (ix & o & ph' & ->). exact (reindexed_set s ix o ph). Qed.

Lemma reindex_reindexed name i r s s' : reindexed s s' → reindexed s (reindex name i r s').
Proof.
  intros Hs. unfold reindex. cbv zeta.
  assert (∀ b k j, reindexed s (removeOrdered b k j s')) as Hrem by (intros; rewrite removeOrdered_eq; by apply reindexed_ordered).
  assert (∀ b k j s'', reindexed s s'' → reindexed s (insertOrdered b k j s'')) as Hins by (intros; rewrite insertOrdered_eq; by apply reindexed_ordered).
  destruct (find s' _ _) as [old|], (record_Delete r); try case_bool_decide; simpl; auto using reindexed_index.
Qed.
Lemma apply_record_reindexed name snapshot i r s : reindexed s (apply_record name snapshot i r s).1.
Proof.
  rewrite apply_record_eq. cbv zeta. destruct (_ || _); [reflexivity|].
  pose proof (open_bucket_reindexed (record_Bucket r) s) as H0. set (s0 := open_bucket _ s) in *. destruct (snapshot && _); [exact H0|].
  apply (reindex_reindexed name i r) in H0. simpl. case_match; [by apply reindexed_pending|done].
Qed.

Lemma apply_reindexed doc name snapshot s : reindexed s (apply doc name snapshot s).1.
Proof.
  unfold apply. generalize 0%nat. revert s. induction (Records doc) as [|r rs IH]; intros s i; [reflexivity|].
  cbn [apply_records]. unfold mbind, ST_bind. pose proof (apply_record_reindexed name snapshot i r s) as Hr.
  destruct (apply_record name snapshot i r s) as [s1 [[]|e]]; [|done]. etrans; [exact Hr|apply IH].
Qed.

(** The cache stays within its limit: in every store in use, the eviction
    order lists every cached document exactly once, the byte count is the sum of
    what the documents were accounted with, and it does not exceed 16 MiB. *)
Theorem cache_bounded s : in_use s →
  cacheBytes s ≤ cacheLimit ∧ cacheBytes s = total s (cacheOrder s) ∧ NoDup (cacheOrder s) ∧
  ∀ name, name ∈ cacheOrder s ↔ is_Some (cache s !! name).
Proof.
  intros Hs. enough (cache_sized s) as [[H1 H2 H3] H4] by done. revert s Hs. apply in_use_inv.
  - intros s s' _ _ Hc Ho Hb [[H1 H2 H3] H4]. split; [|by rewrite <-Hb]. split; rewrite <-?Ho, <-?Hc, <-?Hb; [done..|].
    rewrite H3. symmetry. apply total_other. by rewrite Hc.
  - apply remember_sized.
  - intros name snapshot i r s [[H1 H2 H3] H4]. destruct (apply_record_reindexed name snapshot i r s) as (ix & o & ph & ->).
    split; [split|]; done.
  - intros s _. split; [split|]; simpl; [constructor| |done|done]. intros name. rewrite lookup_empty, elem_of_nil. split; [done|by intros []].
  - intros. split; [split|]; simpl; [constructor| |done|done]. intros name. rewrite lookup_empty, elem_of_nil. split; [done|by intros []].
Qed.
End Reach.
