(* ===== verification/StateFiles.v ===== *)
(** The files of the store: their names, that what is published is read back,
    and the cache of documents. *)
From S2P Require Import Prelude GoLib Base64 RbacTyped Entities StateProg StateRecords StateLaws StateStore.
From stdpp Require Import options.
#[local] Set Default Proof Using "Type*".
Local Open Scope Z_scope.

(** * Names *)

Lemma rev_app_rev s t : String.rev_app s t = String.rev s +++ t.
Proof.
  unfold String.rev. change t with ("" +++ t) at 1. generalize "". induction s as [|c s IH]; intros u; simpl; [done|].
  rewrite <-append_cons. apply IH.
Qed.
Lemma rev_append s t : String.rev (s +++ t) = String.rev t +++ String.rev s.
Proof.
  rewrite <-rev_app_rev. unfold String.rev. generalize "". induction s as [|c s IH]; intros u; [done|]. apply IH.
Qed.
Lemma rev_rev s : String.rev (String.rev s) = s.
Proof.
  induction s as [|c s IH]; [done|]. change (String.rev (String c s)) with (String.rev_app s (String c "")).
  rewrite rev_app_rev, rev_append, IH. reflexivity.
Qed.

Lemma StripPrefix_app p s : StripPrefix p (p +++ s) = Some s.
Proof. by apply StripPrefix_Some. Qed.
Lemma HasPrefix_app p s : HasPrefix (p +++ s) p = true.
Proof. unfold HasPrefix. rewrite StripPrefix_app. by apply bool_decide_eq_true. Qed.
Lemma TrimSuffix_app s p : TrimSuffix (s +++ p) p = s.
Proof. unfold TrimSuffix. rewrite rev_append, StripPrefix_app. apply rev_rev. Qed.

(** The base of a file directly inside a directory. *)
Lemma path_Base_in dir x : slash ∉ bytes x → x ≠ "" → path_Base (dir +++ "/" +++ x) = x.
Proof.
  intros Hx Hne. unfold path_Base. change (dir +++ "/" +++ x) with (dir +++ String slash x).
  assert (last_byte (dir +++ String slash x) ≠ Some slash) as Hl.
  { rewrite last_byte_app, last_byte_cons by done. intros H. apply Hx.
    clear -H. induction x as [|c x IH]; [done|]. unfold bytes. simpl. destruct x as [|c' x]; [simpl in H; simplify_eq; left|].
    rewrite last_byte_cons in H by done. right. by apply IH. }
  rewrite (TrimRightByte_id _ _ Hl).
  assert (dir +++ String slash x ≠ "") as Hn by (destruct dir; done).
  rewrite (bool_decide_false _ Hn). rewrite Split_app, (Split_no_sep_id _ x) by done. apply last_last.
Qed.

(** A byte that a given text does not have. *)
Ltac not_in := match goal with |- ?x ∉ ?l => apply (bool_decide_eq_false_1 (x ∈ l)); reflexivity end.

(** The parts of the name of a file of records. *)
Definition name_parts (name : string) : list string := Split "-"%char (TrimSuffix (path_Base name) ".yaml").

Lemma no_digit w z c : 0 ≤ z → in_range 48 57 c = false → c ∉ bytes (pad_dec w z).
Proof. intros Hz Hc Hin. by rewrite (pad_dec_digits w z c) in Hc. Qed.

Lemma name_parts_in dir body : slash ∉ bytes body → name_parts (dir +++ "/" +++ body +++ ".yaml") = Split "-"%char body.
Proof.
  intros Hs. unfold name_parts. rewrite path_Base_in, TrimSuffix_app; [done| |by destruct body].
  rewrite bytes_append. apply not_elem_of_app. split; [done|]. not_in.
Qed.

Lemma journal_parts q : 0 ≤ q → name_parts (journal_name q) = [pad_dec 20 q].
Proof.
  intros Hq. unfold journal_name. etrans; [apply (name_parts_in "journal")|]; [by apply no_digit|].
  apply Split_no_sep_id. by apply no_digit.
Qed.
Lemma snapshot_parts body : slash ∉ bytes body → name_parts ("snapshots/" +++ body +++ ".yaml") = Split "-"%char body.
Proof. exact (name_parts_in "snapshots" body). Qed.
Lemma page_parts q n : 0 ≤ q → name_parts (page_name q n) = [pad_dec 20 q; pad_dec 6 (Z.of_nat n)].
Proof.
  intros Hq. unfold page_name.
  replace (pad_dec 20 q +++ _) with ((pad_dec 20 q +++ String "-" (pad_dec 6 (Z.of_nat n))) +++ ".yaml") by (by rewrite append_assoc).
  rewrite snapshot_parts.
  - rewrite Split_app, !Split_no_sep_id; [done|apply no_digit; [lia|done]|by apply no_digit].
  - rewrite bytes_append, not_elem_of_app. split; [by apply no_digit|]. apply not_elem_of_cons. split; [done|]. apply no_digit; [lia|done].
Qed.
Lemma history_parts q n : 0 ≤ q → name_parts (history_name q n) = [pad_dec 20 q; "history"; pad_dec 6 (Z.of_nat n)].
Proof.
  intros Hq. unfold history_name.
  replace (pad_dec 20 q +++ _) with ((pad_dec 20 q +++ String "-" ("history" +++ String "-" (pad_dec 6 (Z.of_nat n)))) +++ ".yaml")
    by (by rewrite append_assoc).
  rewrite snapshot_parts.
  - rewrite !Split_app, !Split_no_sep_id; [done|apply no_digit; [lia|done]|not_in|by apply no_digit].
  - rewrite bytes_append, not_elem_of_app. split; [by apply no_digit|]. apply not_elem_of_cons. split; [done|].
    rewrite bytes_append, not_elem_of_app. split; [not_in|]. apply not_elem_of_cons. split; [done|]. apply no_digit; [lia|done].
Qed.

(** The files that hold records, by the sequence in their name. *)
Inductive doc_name (q : Z) : string → Prop :=
| JournalName : doc_name q (journal_name q)
| PageName n : doc_name q (page_name q n)
| HistoryName n : doc_name q (history_name q n).

Lemma ParseUint_pad_dec w q : 0 ≤ q ≤ MaxUint64 → ParseUint (pad_dec w q) = Some q.
Proof.
  intros [Hq1 Hq2]. unfold ParseUint. rewrite bool_decide_false.
  - rewrite digits_val_pad_dec by done. simpl. by rewrite (proj2 (Z.leb_le _ _)).
  - intros E. pose proof (digits_val_pad_dec w q Hq1) as Hd. unfold pad_dec in E. rewrite (proj2 (Z.ltb_ge q 0)) in E by lia.
    assert (String.length (dec (Z.to_N (Z.abs q))) = 0%nat) as Hl by (apply (f_equal String.length) in E; rewrite append_length in E; simpl in E; lia).
    unfold dec in Hl. destruct (dec_digits _ _ _) eqn:Ed; [|done].
    pose proof (digits_val_dec (Z.to_N (Z.abs q))) as H2. unfold dec in H2. rewrite Ed in H2. simpl in H2. simplify_eq.
    assert (q = 0) as -> by lia. vm_compute in Ed. done.
Qed.

Lemma doc_name_sequence q name : 0 ≤ q ≤ MaxUint64 → doc_name q name → name_sequence name = Some q.
Proof.
  intros Hq Hn. unfold name_sequence. fold (name_parts name).
  assert (head (name_parts name) = Some (pad_dec 20 q)) as ->.
  { destruct Hn; [rewrite journal_parts by lia|rewrite page_parts by lia|rewrite history_parts by lia]; done. }
  by apply ParseUint_pad_dec.
Qed.

Lemma page_name_inj q q' n n' : 0 ≤ q → 0 ≤ q' → page_name q n = page_name q' n' → q = q' ∧ n = n'.
Proof.
  intros Hq Hq' H. apply (f_equal name_parts) in H. rewrite !page_parts in H by done. injection H as H1 H2.
  split; [by eapply pad_dec_inj|]. apply pad_dec_inj in H2; lia.
Qed.
Lemma history_name_inj q q' n n' : 0 ≤ q → 0 ≤ q' → history_name q n = history_name q' n' → q = q' ∧ n = n'.
Proof.
  intros Hq Hq' H. apply (f_equal name_parts) in H. rewrite !history_parts in H by done. injection H as H1 H2.
  split; [by eapply pad_dec_inj|]. apply pad_dec_inj in H2; lia.
Qed.
Lemma journal_name_inj q q' : 0 ≤ q → 0 ≤ q' → journal_name q = journal_name q' → q = q'.
Proof.
  intros Hq Hq' H. apply (f_equal name_parts) in H. rewrite !journal_parts in H by done. injection H as H1. by eapply pad_dec_inj.
Qed.
Lemma page_not_history q q' n n' : 0 ≤ q → 0 ≤ q' → page_name q n ≠ history_name q' n'.
Proof. intros Hq Hq' H. apply (f_equal name_parts) in H. rewrite page_parts, history_parts in H by done. done. Qed.

Definition doc_kind (name : string) : string := if HasPrefix name "snapshots/" then "snapshot" else "transaction".

(** Runs the steps of a computation on the store. *)
Ltac st_run := unfold mbind, ST_bind, mret, ST_ret, from, gets, modify, throw, stop_if, attempt; cbv beta iota zeta.

(** * Publishing and reading back *)

(** [s'] is [s] after writes: other files, other draws and faults. *)
Definition rewritten (s s' : Store) : Prop :=
  ∃ dsk fl dr, s' = s <| disk := dsk |> <| faults := fl |> <| draws := dr |>.
#[export] Instance rewritten_pre : PreOrder rewritten.
Proof.
  split.
  - intros s. exists (disk s), (faults s), (draws s). by destruct s.
  - intros s1 s2 s3 (d1 & f1 & n1 & ->) (d2 & f2 & n2 & ->). by exists d2, f2, n2.
Qed.

Section Files.
Context {E : Aead} `{!AeadOk E} {R : Random} `{!RandomOk R}.
Context {YEnv : Yaml envelope} `{!Faithful envelope}.

Section Value.
Context {A : Type} `{Yaml A} `{!Faithful A}.
Implicit Types (s : Store) (v : A).

(** [raw] is an envelope of [v], sealed for its place. *)
Definition sealed (version : Z) (sid kind : string) (seq : Z) (name : string) (v : A) (raw : string) : Prop :=
  ∃ nonce plain, Marshal v = Ok plain ∧ len nonce = NonceSize ∧
    Marshal {| env_Version := version; StorageID := sid; Kind := kind; env_Sequence := seq;
               Nonce := StdEncoding_EncodeToString nonce;
               Ciphertext := StdEncoding_EncodeToString (Seal nonce plain (aad_of version sid kind seq name)) |} = Ok raw.

(** The file [name] of the store holds [v]. *)
Definition holds s (name kind : string) (seq : Z) v : Prop :=
  ∃ raw version, disk s !! name = Some (mkfile true raw) ∧ 1 ≤ version ≤ envelopeVersion s ∧
    sealed version (id s) kind seq name v raw.

Lemma read_sealed s version sid name kind seq want v raw : disk s !! name = Some (mkfile true raw) →
  sealed version sid kind seq name v raw → 1 ≤ version ≤ currentEnvelopeVersion → kind = "header" ∨ version ≤ envelopeVersion s →
  sid ≠ "" → id s = "" ∨ id s = sid → want = seq ∨ want = any_sequence →
  read A name kind want s = ((if kind =s "header" then s <| envelopeVersion := version |> else s) <| id := sid |>, Ok (seq, v)).
Proof.
  intros Hd (nonce & plain & Hplain & Hn & Hraw) [Hv1 Hv2] Hkind Hsid Hid Hwant. unfold read. rewrite Hd. simpl.
  destruct (yaml_round_trip (A := envelope) {| env_Version := version; StorageID := sid; Kind := kind; env_Sequence := seq;
    Nonce := StdEncoding_EncodeToString nonce; Ciphertext := StdEncoding_EncodeToString (Seal nonce plain (aad_of version sid kind seq name)) |})
    as (raw' & Hraw' & Hu). assert (raw' = raw) as -> by congruence. rewrite Hu. cbn [env_Version StorageID Kind env_Sequence Nonce Ciphertext].
  match goal with |- (if ?c then _ else _) = _ => replace c with false end.
  2: { symmetry. rewrite !orb_false_iff, !andb_false_iff, !negb_false_iff, !bool_decide_eq_true, bool_decide_eq_false, !Z.ltb_ge.
       destruct Hkind, Hid, Hwant; subst; split_and!; auto. }
  rewrite !StdEncoding_round_trip, Hn. simpl. rewrite open_seal.
  destruct (yaml_round_trip v) as (plain' & Hplain' & Hu'). assert (plain' = plain) as -> by congruence. by rewrite Hu'.
Qed.

Lemma read_holds s name kind seq want v : id s ≠ "" → envelopeVersion s ≤ currentEnvelopeVersion → kind ≠ "header" →
  holds s name kind seq v → want = seq ∨ want = any_sequence → read A name kind want s = (s, Ok (seq, v)).
Proof.
  intros Hid Hver Hkind (raw & version & Hd & [Hv1 Hv2] & Hs) Hwant.
  rewrite (read_sealed s version (id s) name kind seq want v raw); [|done|done|lia|auto..].
  rewrite bool_decide_false by done. f_equal. by destruct s.
Qed.

(** What a file holds is one value. *)
Lemma holds_unique s name kind seq seq' v v' : id s ≠ "" → envelopeVersion s ≤ currentEnvelopeVersion → kind ≠ "header" →
  holds s name kind seq v → holds s name kind seq' v' → v = v'.
Proof.
  intros Hid Hver Hk H1 H2. pose proof (read_holds s name kind seq any_sequence v Hid Hver Hk H1 (or_intror eq_refl)) as E1.
  pose proof (read_holds s name kind seq' any_sequence v' Hid Hver Hk H2 (or_intror eq_refl)) as E2. congruence.
Qed.

(** A write publishes an envelope of its value or changes nothing, and nothing
    else; it fails only when a system call does. *)
Lemma write_spec s name kind seq v s' r : write name kind seq v s = (s', r) →
  ∃ raw fl dr, sealed (envelopeVersion s) (id s) kind seq name v raw ∧ fl `suffix_of` faults s ∧
    ((r = Err write_error ∧ faults s ≠ [] ∧ s' = s <| disk := disk s |> <| faults := fl |> <| draws := dr |>) ∨
     ((r = Ok (len raw) ∨ r = Err write_error ∧ faults s ≠ []) ∧
      s' = s <| disk := <[name := mkfile true raw]> (disk s) |> <| faults := fl |> <| draws := dr |>)).
Proof.
  unfold write. destruct (yaml_round_trip v) as (plain & Hplain & _). rewrite Hplain. st_run.
  match goal with |- context [@Marshal envelope _ ?e] => destruct (yaml_round_trip e) as (raw & Hraw & _) end. rewrite Hraw. st_run.
  assert (sealed (envelopeVersion s) (id s) kind seq name v raw) as Hs.
  { exists (rand_Read (draws s) NonceSize), plain. split_and!; [done|by apply rand_length|exact Hraw]. }
  unfold next_fault. cbn [faults set_field].
  assert (∀ (o : write_outcome) fl, faults s = o :: fl → fl `suffix_of` faults s ∧ faults s ≠ []) as Hf.
  { intros o fl Ef. rewrite Ef. split; [by exists [o]|done]. }
  destruct (faults s) as [|[] fl] eqn:Ef; st_run; intros [= <- <-]; try destruct (Hf _ _ eq_refl) as [Hf1 Hf2].
  - exists raw, [], (S (draws s)). split_and!; [done..|]. right. split; [by left|]. rewrite <-Ef. by destruct s.
  - exists raw, fl, (S (draws s)). split_and!; [done..|]. right. split; [by left|]. by destruct s.
  - exists raw, fl, (S (draws s)). split_and!; [done..|]. left. split_and!; [done..|]. by destruct s.
  - exists raw, fl, (S (draws s)). split_and!; [done..|]. right. split; [by right|]. by destruct s.
Qed.

(** What is published is read back: after a write that reports success, a
    read of the same name, kind and sequence, or of any sequence, returns the
    value written and leaves the store as it is, and every other file is as it
    was. *)
Theorem write_read s name kind seq want v s' n : id s ≠ "" → 1 ≤ envelopeVersion s ≤ currentEnvelopeVersion →
  want = seq ∨ want = any_sequence → write name kind seq v s = (s', Ok n) →
  read A name kind want s' = (s', Ok (seq, v)) ∧ ∀ other, other ≠ name → disk s' !! other = disk s !! other.
Proof.
  intros Hid Hver Hwant (raw & fl & dr & Hs & _ & [[Hr _]|[_ ->]])%write_spec; [done|]. split.
  - rewrite (read_sealed _ (envelopeVersion s) (id s) name kind seq want v raw);
      [|apply lookup_insert_eq|done|done|by right|done|by right|done].
    f_equal. destruct s. by case_bool_decide.
  - intros other Hne. simpl. by apply lookup_insert_ne.
Qed.
End Value.
End Files.

(** * Pages of history *)

Lemma scan_digits_app n s u : String.length s = n → (∀ c, c ∈ bytes s → in_range 48 57 c = true) → scan_digits n (s +++ u) = (s, u).
Proof.
  revert n. induction s as [|c s IH]; intros n <- Hs; [by destruct u|]. rewrite append_cons. cbn [String.length scan_digits].
  rewrite Hs by left. rewrite IH; [done..|]. intros c' Hc'. apply Hs. by right.
Qed.

Lemma historyPageIdentity_name q n : 0 ≤ q ≤ MaxUint64 → Z.of_nat n < 10 ^ 6 → historyPageIdentity (history_name q n) = Some (q, Z.of_nat n).
Proof.
  intros Hq Hn. unfold historyPageIdentity.
  replace (StripPrefix "snapshots/" (history_name q n)) with (Some (pad_dec 20 q +++ ("-history-" +++ (pad_dec 6 (Z.of_nat n) +++ ".yaml"))))
    by (symmetry; apply StripPrefix_app).
  cbn [mbind option_bind]. rewrite scan_digits_app.
  - rewrite ParseUint_pad_dec by done. cbn [mbind option_bind]. rewrite StripPrefix_app. cbn [mbind option_bind].
    assert (StripPrefix "-" (pad_dec 6 (Z.of_nat n) +++ ".yaml") = None) as ->.
    { pose proof (pad_dec_length 6 (Z.of_nat n)) as Hl. pose proof (λ c, pad_dec_digits 6 (Z.of_nat n) c) as Hd.
      destruct (pad_dec 6 (Z.of_nat n)) as [|c w]; [by specialize (Hl ltac:(lia) ltac:(lia))|]. specialize (Hd c ltac:(lia) ltac:(left)).
      rewrite append_cons. cbn [StripPrefix]. case_match; simplify_eq; done. }
    rewrite scan_digits_app.
    + cbn [fst]. rewrite ParseUint_pad_dec by (unfold MaxUint64; lia). cbn [mbind option_bind]. rewrite Nat2Z.id. by rewrite bool_decide_true.
    + apply pad_dec_length; lia.
    + intros c Hc. eapply pad_dec_digits; [|done]. lia.
  - apply pad_dec_length; [lia|]. unfold MaxUint64 in Hq. lia.
  - intros c Hc. eapply pad_dec_digits; [|done]. lia.
Qed.
