(* ===== verification/StateSync.v ===== *)
(** The relation between the store of files and its specification: [synced s d]
    says that the indexes, the cache and the files of [s] represent the records
    of [d]. Reading, indexing and publishing are related to the specification
    here; StateRefine.v has the transactions. *)
From S2P Require Import Prelude GoLib Base64 Entities RbacTyped StateProg StateRecords StateProgFacts StateLaws.
From S2P Require Import StateStore StateIndex StateReach StateFiles.
From stdpp Require Import options.
#[local] Set Default Proof Using "Type*".
Local Open Scope Z_scope.

(** * More on names *)

Lemma Contains_bytes s sub c : Contains s sub = true → c ∈ bytes sub → c ∈ bytes s.
Proof.
  intros Hs Hc. induction s as [|a s IH]; simpl in Hs; apply orb_true_iff in Hs as [Hp|Hs]; try done.
  - unfold HasPrefix in Hp. bool_to_prop. destruct Hp as [t Ht]. apply StripPrefix_Some in Ht. rewrite Ht, bytes_append, elem_of_app. by left.
  - unfold HasPrefix in Hp. bool_to_prop. destruct Hp as [t Ht]. apply StripPrefix_Some in Ht. rewrite Ht, bytes_append, elem_of_app. by left.
  - right. by apply IH.
Qed.
Lemma Contains_app s t sub : Contains (s +++ sub +++ t) sub = true.
Proof.
  induction s as [|c s IH]; [|change (Contains (String c (s +++ sub +++ t)) sub = true); cbn [Contains]; by rewrite IH, orb_true_r].
  change ("" +++ sub +++ t) with (sub +++ t). destruct (sub +++ t) eqn:Es; cbn [Contains]; rewrite <-Es, HasPrefix_app; done.
Qed.

Lemma journal_no_history q : 0 ≤ q → Contains (journal_name q) "-history-" = false.
Proof.
  intros Hq. apply not_true_is_false. intros H. apply (Contains_bytes _ _ "-"%char) in H; [|by left]. revert H. fold (not ("-"%char ∈ bytes (journal_name q))).
  change (journal_name q) with ("journal/" +++ (pad_dec 20 q +++ ".yaml")).
  rewrite !bytes_append, !not_elem_of_app. split_and!; [not_in|by apply no_digit|not_in].
Qed.
Lemma history_is_history q n : Contains (history_name q n) "-history-" = true.
Proof.
  change (history_name q n) with ("snapshots/" +++ (pad_dec 20 q +++ ("-history-" +++ (pad_dec 6 (Z.of_nat n) +++ ".yaml")))).
  rewrite <-append_assoc. apply Contains_app.
Qed.

Lemma page_no_history q n : 0 ≤ q → Contains (page_name q n) "-history-" = false.
Proof.
  intros Hq. apply not_true_is_false. intros H. apply (Contains_bytes _ _ "i"%char) in H; [|by right; right; left]. revert H.
  fold (not ("i"%char ∈ bytes (page_name q n))).
  change (page_name q n) with ("snapshots/" +++ (pad_dec 20 q +++ ("-" +++ (pad_dec 6 (Z.of_nat n) +++ ".yaml")))).
  rewrite !bytes_append, !not_elem_of_app. split_and!; [not_in|by apply no_digit|not_in|apply no_digit; [lia|done]|not_in].
Qed.

Lemma doc_kind_journal q : doc_kind (journal_name q) = "transaction".
Proof. reflexivity. Qed.
Lemma doc_kind_page q n : doc_kind (page_name q n) = "snapshot".
Proof. unfold doc_kind, page_name. by rewrite HasPrefix_app. Qed.
Lemma doc_kind_history q n : doc_kind (history_name q n) = "snapshot".
Proof. unfold doc_kind, history_name. by rewrite HasPrefix_app. Qed.
Lemma doc_kind_not_header name : doc_kind name ≠ "header".
Proof. unfold doc_kind. by destruct (HasPrefix name "snapshots/"). Qed.

(** [s'] is [s] with another cache. *)
Definition recached (s s' : Store) : Prop :=
  ∃ c o n, s' = s <| cache := c |> <| cacheOrder := o |> <| cacheBytes := n |>.

(** The record of an identity. *)
Definition record_for (b k : string) (x : stored) : record :=
  let i := stored_info x in mkrecord b k (Group i) (Order i) (State i) false (stored_Data x).

Lemma option_Forall2_weaken {A B} (P Q : A → B → Prop) x y : (∀ a b, P a b → Q a b) → option_Forall2 P x y → option_Forall2 Q x y.
Proof. intros Hi []; constructor; auto. Qed.

(** * The index *)

Section Index.
Implicit Types (s : Store) (D : string → document → Prop).

(** A reference leads to the record [x] of an identity. *)
Definition ref_holds D (b k : string) (ref : reference) (x : stored) : Prop :=
  ∃ doc, D (File ref) doc ∧ Records doc !! Slot ref = Some (record_for b k x) ∧ ref_info ref = stored_info x.
(** The index of the store leads to the records [m]. *)
Definition indexes D s (m : string → string → option stored) : Prop :=
  ∀ b k, option_Forall2 (ref_holds D b k) (find s b k) (m b k).

(** Where the records of history are: pending since the last compaction, or in
    the pages of history. *)
Definition history_placed (pages : list string) s : Prop :=
  ∀ b k ref, historyBucket b = true → find s b k = Some ref → k ∈ pending s b ∨ File ref ∈ pages.
Definition pending_found s : Prop := ∀ b k, k ∈ pending s b → historyBucket b = true ∧ is_Some (find s b k).
Definition identified s : Prop := ∀ b k, is_Some (find s b k) → b ≠ "" ∧ k ≠ "".
Definition history_named s : Prop := ∀ name, name ∈ historyPages s → ∃ q n, 0 ≤ q ∧ name = history_name q n.

Lemma record_for_written r x : written r = Some x → record_for (record_Bucket r) (record_Key r) x = r ∧ record_info r = stored_info x.
Proof.
  unfold written. destruct r as [b k g o st del data]. simpl. destruct del; [done|]. intros [= <-]. done.
Qed.

Lemma record_applied_indexes D s m name doc i r s' : indexes D s m → D name doc → Records doc !! i = Some r →
  record_applied name i r s s' → indexes D s' (λ b k, if decide (writes b k r) then written r else m b k).
Proof.
  intros Hm Hd Hi Ha b k. rewrite (applied_find _ _ _ _ _ Ha). unfold writes. destruct (decide _) as [[<- <-]|Hn]; [|apply Hm].
  destruct (written r) as [x|] eqn:Hw.
  - destruct (record_for_written r x Hw) as [Hr Hx]. unfold indexed, written in *. destruct (record_Delete r); [done|].
    constructor. exists doc. simpl. by rewrite Hr.
  - unfold indexed, written in *. destruct (record_Delete r); [constructor|done].
Qed.

Lemma record_applied_history pages name i r s s' : history_placed pages s → pending_found s →
  (historyBucket (record_Bucket r) = true → Contains name "-history-" = true → name ∈ pages) →
  record_applied name i r s s' → history_placed pages s' ∧ pending_found s'.
Proof.
  intros Hh Hp Hname [_ _ Hfind Hpend _]. split.
  - intros b k ref Hb. rewrite Hfind, Hpend. destruct (decide (record_Bucket r = b ∧ record_Key r = k)) as [[<- <-]|Hne].
    + unfold indexed. destruct (record_Delete r) eqn:Hdel; [done|]. intros [= <-]. rewrite decide_True by done. unfold pends. rewrite Hdel.
      simpl. destruct (Contains name "-history-"); [right; auto|left; set_solver].
    + intros Hf. destruct (Hh b k ref Hb Hf) as [Hin|?]; [|by right]. left. case_decide as Hd; [|done]. destruct Hd as [<- _]. unfold pends.
      assert (k ≠ record_Key r) by (by intros ->; apply Hne). case_match; set_solver.
  - intros b k. rewrite Hfind, Hpend. case_decide as Hd.
    + destruct Hd as [<- Hb]. unfold pends. destruct (decide (record_Key r = k)) as [<-|Hk].
      * rewrite decide_True by done. unfold indexed. destruct (record_Delete r); simpl; [intros [_ []]%elem_of_difference; set_solver|].
        intros _. done.
      * rewrite decide_False by (by intros [_ ?]). intros Hin. apply Hp. case_match; set_solver.
    + intros Hin. destruct (Hp b k Hin) as [Hb Hf]. split; [done|]. rewrite decide_False; [done|]. intros [<- _]. by apply Hd.
Qed.

Lemma apply_spec D s m pages name doc snapshot s' : ordered_ok s → indexes D s m → D name doc → history_placed pages s → pending_found s →
  identified s → (Contains name "-history-" = true → name ∈ pages) → apply doc name snapshot s = (s', Ok ()) →
  indexes D s' (λ b k, after_tx (Records doc) b k (m b k)) ∧ history_placed pages s' ∧ pending_found s' ∧ identified s' ∧
  ordered_ok s' ∧ reindexed s s'.
Proof.
  intros Hok Hm Hd Hh Hp Hident Hname Ha. unfold apply in Ha.
  set (P := λ pre s1, indexes D s1 (λ b k, after_tx pre b k (m b k)) ∧ history_placed pages s1 ∧ pending_found s1 ∧ identified s1).
  enough (∀ pre r post s1 s2, Records doc = pre ++ r :: post → ordered_ok s1 → P pre s1 → record_applied name (0 + length pre) r s1 s2 →
    (snapshot = true → find s1 (record_Bucket r) (record_Key r) = None) → P (pre ++ [r]) s2) as Hstep.
  { destruct (apply_records_inv P _ _ _ _ _ _ Hok ltac:(done) Hstep Ha) as [(H1 & H2 & H3 & H4) H5]. done. }
  intros pre r post s1 s2 Hrs _ (Hi & Hh1 & Hp1 & Hid1) Happ _.
  destruct (record_applied_history pages name (0 + length pre) r s1 s2) as [Hh2 Hp2]; [done..|]. split_and!; [|done|done|].
  2: { intros b k. rewrite (applied_find _ _ _ _ _ Happ). case_decide as Hw; [destruct Hw as [<- <-]|by apply Hid1].
       intros _. apply (applied_identity _ _ _ _ _ Happ). }
  intros b k. unfold after_tx. rewrite foldl_app. refine (record_applied_indexes D s1 _ name doc _ r s2 Hi Hd _ Happ b k).
  rewrite Hrs. by apply list_lookup_middle.
Qed.

(** Where the index leads after a document is applied. *)
Lemma apply_files doc name snapshot s s' : ordered_ok s → apply doc name snapshot s = (s', Ok ()) → ∀ b k ref, find s' b k = Some ref →
  File ref = name ∨ find s b k = Some ref ∧ ∀ r, r ∈ Records doc → ¬ writes b k r.
Proof.
  intros Hok Ha. unfold apply in Ha. set (P := λ (pre : list record) s1, ∀ b k ref, find s1 b k = Some ref →
    File ref = name ∨ find s b k = Some ref ∧ ∀ r, r ∈ pre → ¬ writes b k r).
  apply (apply_records_inv P name snapshot (Records doc) 0 s s'); [done| | |done].
  - intros b k ref Hf. right. split; [done|]. by intros r ?%elem_of_nil.
  - intros pre r post s1 s2 _ _ HP Happ _ b k ref. rewrite (applied_find _ _ _ _ _ Happ). case_decide as Hw.
    + unfold indexed. destruct (record_Delete r); [done|]. intros [= <-]. by left.
    + intros [?|[Hf Hn]]%HP; [by left|]. right. split; [done|]. intros r' [Hr'| ->%list_elem_of_singleton]%elem_of_app; [by apply Hn|done].
Qed.

(** What an applied document makes pending. *)
Lemma apply_pending doc name snapshot s s' : ordered_ok s → apply doc name snapshot s = (s', Ok ()) → ∀ b k, k ∈ pending s' b →
  k ∈ pending s b ∨ Contains name "-history-" = false ∧ historyBucket b = true ∧ ∃ r, r ∈ Records doc ∧ writes b k r.
Proof.
  intros Hok Ha. unfold apply in Ha. set (P := λ (pre : list record) s1, ∀ b k, k ∈ pending s1 b →
    k ∈ pending s b ∨ Contains name "-history-" = false ∧ historyBucket b = true ∧ ∃ r, r ∈ pre ∧ writes b k r).
  apply (apply_records_inv P name snapshot (Records doc) 0 s s'); [done|by left| |done].
  intros pre r post s1 s2 _ _ HP Happ _ b k. rewrite (applied_pending _ _ _ _ _ Happ). case_decide as Hd.
  - destruct Hd as [<- Hb]. unfold pends. intros Hk. destruct (decide (k ∈ pending s1 (record_Bucket r))) as [Hk1|Hk1].
    + destruct (HP _ _ Hk1) as [?|(? & ? & r' & ? & ?)]; [by left|right]. split_and!; [done..|]. exists r'. set_solver.
    + right. destruct (record_Delete r || Contains name "-history-") eqn:Hc; [set_solver|]. apply orb_false_iff in Hc as [_ Hc].
      split_and!; [done..|]. exists r. unfold writes. set_solver.
  - intros [?|(? & ? & r' & ? & ?)]%HP; [by left|right]. split_and!; [done..|]. exists r'. set_solver.
Qed.

(** A page of history leaves nothing of it pending. *)
Lemma apply_unpends doc name snapshot s s' : ordered_ok s → Contains name "-history-" = true → apply doc name snapshot s = (s', Ok ()) →
  ∀ b k, historyBucket b = true → k ∈ pending s' b → k ∈ pending s b ∧ ∀ r, r ∈ Records doc → ¬ writes b k r.
Proof.
  intros Hok Hc Ha. unfold apply in Ha. set (P := λ (pre : list record) s1, ∀ b k, historyBucket b = true → k ∈ pending s1 b →
    k ∈ pending s b ∧ ∀ r, r ∈ pre → ¬ writes b k r).
  apply (apply_records_inv P name snapshot (Records doc) 0 s s'); [done| | |done].
  - intros b k _ Hk. split; [done|]. by intros r ?%elem_of_nil.
  - intros pre r post s1 s2 _ _ HP Happ _ b k Hb. rewrite (applied_pending _ _ _ _ _ Happ). intros Hk.
    assert (k ∈ pending s1 b ∧ ¬ writes b k r) as [Hk1 Hw].
    { case_decide as Hd.
      - destruct Hd as [<- _]. unfold pends in Hk. rewrite Hc, orb_true_r in Hk. unfold writes. set_solver.
      - split; [done|]. intros [Hw _]. by apply Hd. }
    destruct (HP b k Hb Hk1) as [H1 H2]. split; [done|]. intros r' [?| ->%list_elem_of_singleton]%elem_of_app; [by apply H2|done].
Qed.
End Index.

Section Sync.
Context {E : Aead} `{!AeadOk E} {R : Random} `{!RandomOk R}.
Context {YEnv : Yaml envelope} `{!Faithful envelope} {YDoc : Yaml document} `{!Faithful document}.
Implicit Types (s : Store) (d : db).

(** * The relation *)

(** The files of the store that may hold records in use: the journal up to the
    current transaction, and pages of the last compaction or earlier ones. *)
Definition placed s (q : Z) (name : string) : Prop :=
  0 ≤ q ∧ (name = journal_name q ∧ q ≤ s_sequence s ∨
           (∃ n, name = page_name q n ∨ name = history_name q n) ∧ q ≤ snapshotSequence s).
Definition stored_doc s (name : string) (doc : document) : Prop := ∃ q, placed s q name ∧ holds s name (doc_kind name) q doc.

Record synced s d : Prop := {
  sync_sequence : s_sequence s = db_sequence d;
  sync_version : envelopeVersion s = db_version d;
  sync_managed : s_managed s = db_managed d;
  sync_readOnly : readOnly s = db_readOnly d;
  sync_available : closed s || poisoned s = unavailable d;
  sync_id : id s ≠ "";
  sync_versions : 1 ≤ envelopeVersion s ≤ currentEnvelopeVersion;
  sync_range : 0 ≤ snapshotSequence s ≤ s_sequence s ∧ s_sequence s ≤ MaxUint64;
  sync_ordered : ordered_ok s;
  sync_cache : ∀ name e, cache s !! name = Some e → stored_doc s name (Doc e);
  sync_records : indexes (stored_doc s) s (at_ d);
  sync_history : history_placed (historyPages s) s;
  sync_pending : pending_found s;
  sync_identified : identified s;
  sync_named : history_named s;
}.

(** * Reading *)

Lemma placed_doc_name s q name : placed s q name → doc_name q name.
Proof. intros [_ [[-> _]|[[n [->| ->]] _]]]; constructor. Qed.
Lemma placed_range s q name : 0 ≤ snapshotSequence s ≤ s_sequence s ∧ s_sequence s ≤ MaxUint64 → placed s q name → 0 ≤ q ≤ MaxUint64.
Proof. intros Hr [Hq [[_ ?]|[_ ?]]]; lia. Qed.

Lemma stored_doc_read s d name doc : synced s d → stored_doc s name doc →
  ∃ q, name_sequence name = Some q ∧ read document name (doc_kind name) q s = (s, Ok (q, doc)).
Proof.
  intros Hs (q & Hp & Hh). exists q. split.
  - eapply doc_name_sequence; [by eapply placed_range; [apply (sync_range _ _ Hs)|]|by eapply placed_doc_name].
  - apply read_holds; [apply (sync_id _ _ Hs)|apply (sync_versions _ _ Hs)|apply doc_kind_not_header|done|by left].
Qed.
Lemma stored_doc_unique s d name doc doc' : synced s d → stored_doc s name doc → stored_doc s name doc' → doc = doc'.
Proof.
  intros Hs (q & _ & H1) (q' & _ & H2). eapply holds_unique; [apply (sync_id _ _ Hs)|apply (sync_versions _ _ Hs)| |exact H1|exact H2].
  apply doc_kind_not_header.
Qed.

Lemma evict_recached n order s : recached s (evict order n s) ∧ cache (evict order n s) ⊆ cache s.
Proof.
  revert s. induction order as [|old rest IH]; intros s; cbn [evict].
  - split; [|done]. exists (cache s), [], (cacheBytes s). by destruct s.
  - case_match.
    + match goal with |- recached s (evict rest n ?s1) ∧ _ => destruct (IH s1) as [(c & o & m & Hs) Hc] end.
      split; [exists c, o, m; exact Hs|]. etrans; [exact Hc|]. exact (delete_subseteq (cache s) old).
    + split; [|done]. exists (cache s), (old :: rest), (cacheBytes s). by destruct s.
Qed.

Lemma synced_recached s d s' : synced s d → recached s s' → (∀ name e, cache s' !! name = Some e → stored_doc s name (Doc e)) → synced s' d.
Proof. intros [] (c & o & n & ->) Hc. split; try done. Qed.

Lemma remember_recached s name doc n : recached s (remember name doc n s).1 ∧
  ∀ x e, cache (remember name doc n s).1 !! x = Some e → cache s !! x = Some e ∨ x = name ∧ Doc e = doc.
Proof.
  assert (recached s s) as Hrefl by (exists (cache s), (cacheOrder s), (cacheBytes s); by destruct s).
  unfold remember, modify. simpl. case_match; [by auto|]. destruct (cache s !! name); [by auto|].
  destruct (evict_recached n (cacheOrder s) s) as [(c & o & m & He) Hsub]. rewrite He in Hsub |- *. split; [by eexists _, _, _|].
  intros x e. simpl. intros [[<- <-]|[_ Hx]]%lookup_insert_Some; [by right|]. left. by eapply lookup_weaken.
Qed.

Lemma remember_synced s d name doc n : synced s d → stored_doc s name doc → synced (remember name doc n s).1 d.
Proof.
  intros Hs Hd. destruct (remember_recached s name doc n) as [Hr Hc]. apply (synced_recached s); [done..|].
  intros x e [Hx|[-> <-]]%Hc; [by eapply sync_cache|done].
Qed.

Lemma load_spec s d name doc : synced s d → stored_doc s name doc →
  ∃ s', load name s = (s', Ok doc) ∧ synced s' d ∧ recached s s'.
Proof.
  intros Hs Hd. unfold load. st_run. destruct (cache s !! name) as [e|] eqn:Hc.
  - exists s. split_and!; [|done|by exists (cache s), (cacheOrder s), (cacheBytes s); destruct s].
    by rewrite (stored_doc_unique s d name (Doc e) doc) by (try done; by eapply sync_cache).
  - destruct (stored_doc_read s d name doc Hs Hd) as (q & -> & Hread). unfold doc_kind in Hread. rewrite Hread.
    set (n := foldr _ _ _). exists (remember name doc n s).1.
    split_and!; [|by apply remember_synced|by apply remember_recached]. unfold remember, modify. reflexivity.
Qed.

Lemma lookup_data_spec s d b k : synced s d → ∃ s',
  lookup_data b k s = (s', match at_ d b k with None => Err ErrNotFound | Some x => Ok (stored_Data x) end) ∧
  synced s' d ∧ recached s s'.
Proof.
  intros Hs. unfold lookup_data. st_run. destruct (sync_records _ _ Hs b k) as [ref x (doc & Hd & Hr & Hi)|].
  - destruct (load_spec s d _ _ Hs Hd) as (s' & -> & Hs' & Hc). rewrite Hr. eauto.
  - exists s. split_and!; [done..|]. exists (cache s), (cacheOrder s), (cacheBytes s). by destruct s.
Qed.

Lemma infos_synced s d b : synced s d → infos s b = stored_info <$> bucket_of d b.
Proof.
  intros Hs. apply map_eq. intros k. rewrite infos_lookup, lookup_fmap. fold (at_ d b k). destruct (sync_records _ _ Hs b k) as [ref x (doc & _ & _ & Hi)|].
  - simpl. by f_equal.
  - done.
Qed.

(** * Publishing *)

(** Writes of files that hold no records in use. *)
Definition keeps s s' : Prop := ∀ name doc, stored_doc s name doc → stored_doc s' name doc.

Lemma keeps_rewritten s s' name : rewritten s s' → (∀ q, ¬ placed s q name) →
  (∀ other, other ≠ name → disk s' !! other = disk s !! other) → keeps s s'.
Proof.
  intros (dsk & fl & dr & ->) Hn Hd x doc (q & Hp & raw & version & Hf & Hv & Hs). exists q. split; [done|].
  exists raw, version. split; [|done]. rewrite Hd; [done|]. intros ->. by apply (Hn q).
Qed.

Lemma synced_keeps s d s' : synced s d → rewritten s s' → keeps s s' → synced s' d.
Proof.
  intros [] (dsk & fl & dr & ->) Hk. split; try done.
  - intros name e Hc. apply Hk. by apply sync_cache0.
  - intros b k. apply (option_Forall2_weaken (ref_holds (stored_doc s) b k)); [|apply sync_records0].
    intros ref x (doc & Hd & Hr). exists doc. by split; [apply Hk|].
Qed.

(** What a write of such a file does. *)
Record published {A} `{Yaml A} (name kind : string) (seq : Z) (v : A) s s' (r : result Z) : Prop := {
  pub_rewritten : rewritten s s';
  pub_keeps : keeps s s';
  pub_faults : faults s' `suffix_of` faults s;
  pub_other : ∀ other, other ≠ name → disk s' !! other = disk s !! other;
  pub_result : match r with Ok _ => holds s' name kind seq v | Err _ => faults s ≠ [] end;
}.

Lemma write_published {A} `{Yaml A, !Faithful A} s name kind seq (v : A) s' r : 1 ≤ envelopeVersion s → (∀ q, ¬ placed s q name) →
  write name kind seq v s = (s', r) → published name kind seq v s s' r.
Proof.
  intros Hv Hn (raw & fl & dr & Hs & Hf & Hr)%write_spec.
  assert (∃ dsk, s' = s <| disk := dsk |> <| faults := fl |> <| draws := dr |> ∧
    (∀ other, other ≠ name → dsk !! other = disk s !! other) ∧
    match r with Ok _ => dsk !! name = Some (mkfile true raw) | Err _ => faults s ≠ [] end) as (dsk & -> & Hd & Hr').
  { destruct Hr as [(-> & Hne & ->)|([->|[-> Hne]] & ->)]; [eauto|eexists..]; (split; [done|]);
      (split; [by intros; apply lookup_insert_ne|]); [apply lookup_insert_eq|done]. }
  assert (rewritten s (s <| disk := dsk |> <| faults := fl |> <| draws := dr |>)) as Hw by (by eexists _, _, _).
  split; [done|by eapply keeps_rewritten|done|done|]. destruct r; [|done]. exists raw, (envelopeVersion s). by split_and!.
Qed.

(** Names that never hold records. *)
Lemma not_placed s name : HasPrefix name "journal/" = false → HasPrefix name "snapshots/" = false → ∀ q, ¬ placed s q name.
Proof.
  intros Hj Hp q [_ [[-> _]|[[n [->| ->]] _]]].
  - unfold journal_name in Hj. by rewrite HasPrefix_app in Hj.
  - unfold page_name in Hp. by rewrite HasPrefix_app in Hp.
  - unfold history_name in Hp. by rewrite HasPrefix_app in Hp.
Qed.
Lemma journal_not_snapshot q : HasPrefix (journal_name q) "snapshots/" = false.
Proof. reflexivity. Qed.
Lemma next_journal_not_placed s q : 0 ≤ s_sequence s → ¬ placed s q (journal_name (s_sequence s + 1)).
Proof.
  intros H0 [Hq [[Hj ?]|[[n [Hn|Hn]] _]]].
  - apply journal_name_inj in Hj; lia.
  - pose proof (journal_not_snapshot (s_sequence s + 1)) as Hj. rewrite Hn in Hj. unfold page_name in Hj. by rewrite HasPrefix_app in Hj.
  - pose proof (journal_not_snapshot (s_sequence s + 1)) as Hj. rewrite Hn in Hj. unfold history_name in Hj. by rewrite HasPrefix_app in Hj.
Qed.
Lemma new_page_not_placed s q n name : name = page_name (s_sequence s) n ∨ name = history_name (s_sequence s) n →
  snapshotSequence s < s_sequence s → 0 ≤ s_sequence s → ¬ placed s q name.
Proof.
  intros Hname Hlt H0 [Hq [[Hj _]|[[m Hm] ?]]].
  - pose proof (journal_not_snapshot q) as Hp. rewrite <-Hj in Hp.
    destruct Hname as [->| ->]; [unfold page_name in Hp|unfold history_name in Hp]; by rewrite HasPrefix_app in Hp.
  - destruct Hname as [->| ->], Hm as [Hm|Hm].
    + apply page_name_inj in Hm; lia.
    + by apply page_not_history in Hm.
    + symmetry in Hm. by apply page_not_history in Hm.
    + apply history_name_inj in Hm; lia.
Qed.
End Sync.
