(* ===== verification/StateCompact.v ===== *)
(** Compaction: [compact] moves every record into fresh pages, replaces the
    manifest and removes the files it no longer needs, and the store still
    represents the same records. It fails only when a system call does. *)
From S2P Require Import Prelude GoLib Base64 Entities RbacTyped StateProg StateRecords StateProgFacts StateLaws.
From S2P Require Import StateStore StateIndex StateReach StateFiles StateSync.
From stdpp Require Import options.
#[local] Set Default Proof Using "All".
Local Open Scope Z_scope.

(** * Computations that fail only when a system call fails *)

Definition spec {A} (P : Store → Prop) (m : ST A) (Q : A → Store → Prop) : Prop :=
  ∀ s s' r, P s → m s = (s', r) → faults s' `suffix_of` faults s ∧ match r with Ok a => Q a s' | Err _ => faults s ≠ [] end.

Section Spec.
Implicit Types (s : Store) (P : Store → Prop).

Lemma suffix_not_nil {A} (l l' : list A) : l' `suffix_of` l → l' ≠ [] → l ≠ [].
Proof. intros [k ->] Hl' H. apply Hl'. by apply app_eq_nil in H as [_ ?]. Qed.

Lemma spec_ret {A} P (a : A) Q : (∀ s, P s → Q a s) → spec P (mret a) Q.
Proof. intros HQ s s' r Hs [= <- <-]. auto. Qed.
Lemma spec_bind {A B} P (m : ST A) (f : A → ST B) Q Q' :
  spec P m Q → (∀ a, spec (Q a) (f a) Q') → spec P (m ≫= f) Q'.
Proof.
  intros Hm Hf s s' r Hs. unfold mbind, ST_bind. destruct (m s) as [s1 [a|e]] eqn:Em; destruct (Hm _ _ _ Hs Em) as [H1 H2].
  - intros Hr. destruct (Hf a _ _ _ H2 Hr) as [H3 H4]. split; [by etrans|]. destruct r; [done|]. by eapply suffix_not_nil.
  - intros [= <- <-]. done.
Qed.
Lemma spec_get {B} P (f : Store → ST B) Q : (∀ s, P s → spec (λ s', s' = s ∧ P s') (f s) Q) → spec P (gets (λ s, s) ≫= f) Q.
Proof. intros Hf s s' r Hs. unfold mbind, ST_bind, gets. intros Hr. by eapply (Hf s Hs s s' r). Qed.
Lemma spec_modify P f Q : (∀ s, P s → Q () (f s) ∧ faults (f s) = faults s) → spec P (modify f) Q.
Proof. intros HQ s s' r Hs [= <- <-]. destruct (HQ s Hs) as [? ->]. done. Qed.
Lemma spec_weaken {A} P P' (m : ST A) Q Q' : spec P m Q → (∀ s, P' s → P s) → (∀ a s, Q a s → Q' a s) → spec P' m Q'.
Proof. intros Hm HP HQ s s' r Hs Hr. destruct (Hm _ _ _ (HP s Hs) Hr) as [? H]. split; [done|]. destruct r; auto. Qed.
Lemma spec_pure {A} (φ : Prop) P (m : ST A) Q : (φ → spec P m Q) → spec (λ s, φ ∧ P s) m Q.
Proof. intros Hm s s' r [Hφ Hs]. by apply Hm. Qed.
Lemma spec_ex {A X} (P : X → Store → Prop) (m : ST A) Q : (∀ x, spec (P x) m Q) → spec (λ s, ∃ x, P x s) m Q.
Proof. intros Hm s s' r [x Hs]. by apply (Hm x). Qed.
Lemma spec_fix {A} P (m : ST A) Q : (∀ s, P s → spec (λ s', s' = s) m Q) → spec P m Q.
Proof. intros Hm s s' r Hs. by apply (Hm s Hs). Qed.
Lemma ST_bind_assoc {A B C} (m : ST A) (f : A → ST B) (g : B → ST C) s : ((m ≫= f) ≫= g) s = (m ≫= λ a, f a ≫= g) s.
Proof. unfold mbind, ST_bind. by destruct (m s) as [s1 [a|e]]. Qed.
Lemma spec_assoc {A B C} P (m : ST A) (f : A → ST B) (g : B → ST C) Q : spec P ((m ≫= f) ≫= g) Q → spec P (m ≫= λ a, f a ≫= g) Q.
Proof. intros H s s' r Hs. rewrite <-ST_bind_assoc. by apply H. Qed.
(** A loop, with what holds after the elements it has been through. *)
Lemma spec_each {A B} (I : list A → B → Store → Prop) (f : B → A → ST B) l b :
  (∀ pre x post b, l = pre ++ x :: post → spec (I pre b) (f b x) (I (pre ++ [x]))) → spec (I [] b) (each f b l) (I l).
Proof.
  intros Hf. cut (∀ post pre b, l = pre ++ post → spec (I pre b) (each f b post) (I l)); [intros H; by apply (H l [])|].
  induction post as [|x post IH]; intros pre b' Hl; simpl.
  - rewrite app_nil_r in Hl. subst. by apply spec_ret.
  - eapply spec_bind; [by apply (Hf pre x post)|]. intros b2. apply IH. by rewrite <-app_assoc.
Qed.
End Spec.

(** [s'] is [s] after reads and writes of files: the indexes, the pages and the
    sequences are the same. *)
Definition same_memory (s s' : Store) : Prop :=
  ∃ dsk fl dr c o n, s' = s <| disk := dsk |> <| faults := fl |> <| draws := dr |> <| cache := c |> <| cacheOrder := o |> <| cacheBytes := n |>.
#[export] Instance same_memory_pre : PreOrder same_memory.
Proof.
  split.
  - intros s. exists (disk s), (faults s), (draws s), (cache s), (cacheOrder s), (cacheBytes s). by destruct s.
  - intros s1 s2 s3 (d1 & f1 & n1 & c1 & o1 & m1 & ->) (d2 & f2 & n2 & c2 & o2 & m2 & ->). by exists d2, f2, n2, c2, o2, m2.
Qed.
Lemma rewritten_memory s s' : rewritten s s' → same_memory s s'.
Proof. intros (dsk & fl & dr & ->). exists dsk, fl, dr, (cache s), (cacheOrder s), (cacheBytes s). by destruct s. Qed.
Lemma recached_memory s s' : recached s s' → same_memory s s'.
Proof. intros (c & o & n & ->). exists (disk s), (faults s), (draws s), c, o, n. by destruct s. Qed.

(** The identity of a record. *)
Definition identity (r : record) : string * string := (record_Bucket r, record_Key r).

(** A transaction that only repeats what is there. *)
Lemma after_tx_same rs m b k : (∀ r, r ∈ rs → written r = m (record_Bucket r) (record_Key r)) → after_tx rs b k (m b k) = m b k.
Proof.
  intros Hrs. destruct (after_tx_cases rs b k (m b k)) as [H|(r & Hr & [<- <-] & H)]; [done|]. by rewrite H, Hrs.
Qed.

Lemma written_record_for b k x : written (record_for b k x) = Some x.
Proof. by destruct x as [[g o st] data]. Qed.

Lemma elem_of_docs (r : record) (docs : list (string * list record)) : r ∈ concat docs.*2 ↔ ∃ page, page ∈ docs ∧ r ∈ page.2.
Proof.
  induction docs as [|page docs IH]; simpl; [split; [by intros ?%elem_of_nil|by intros (page & ?%elem_of_nil & _)]|].
  rewrite elem_of_app, IH. setoid_rewrite elem_of_cons. naive_solver.
Qed.

Section Compact.
Context {E : Aead} `{!AeadOk E} {R : Random} `{!RandomOk R}.
Context {YEnv : Yaml envelope} `{!Faithful envelope} {YDoc : Yaml document} `{!Faithful document}.
Context {YManifest : Yaml manifest} `{!Faithful manifest}.
Implicit Types (s : Store) (d : db) (p : pager).

(** * Paging *)

(** The new pages and what they hold. *)
Definition new_page p (q : Z) (page : string * list record) : Prop :=
  let '(name, rs) := page in
  (∃ n, name = history_name q n ∧ (n < length (newPages p))%nat ∧ name ∈ p_historyPages p ∧
        ∀ r, r ∈ rs → historyBucket (record_Bucket r) = true) ∨
  (∃ n, name = page_name q n ∧ (n < length (pages p))%nat ∧ name ∈ pages p ∧
        ∀ r, r ∈ rs → historyBucket (record_Bucket r) = false).

(** The new pages of history, and the others. *)
Definition hist_docs (docs : list (string * list record)) := filter (λ page : string * list record, Contains page.1 "-history-" = true) docs.
Definition page_docs (docs : list (string * list record)) := filter (λ page : string * list record, Contains page.1 "-history-" = false) docs.

(** The pager has gone through the records [out]. *)
Record paged (s0 : Store) d (docs : list (string * list record)) (out : list record) p s : Prop := {
  paged_synced : synced s d;
  paged_memory : same_memory s0 s;
  paged_newer : snapshotSequence s0 < s_sequence s0;
  paged_names : docs.*1 = newPages p;
  paged_nodup : NoDup docs.*1;
  paged_pages : pages p = (page_docs docs).*1 ∧ pages p = page_name (s_sequence s0) <$> seq 0 (length (pages p));
  paged_history : p_historyPages p = historyPages s0 ++ (hist_docs docs).*1;
  paged_docs : ∀ page, page ∈ docs → new_page p (s_sequence s0) page ∧ holds s page.1 "snapshot" (s_sequence s0) (mkdocument page.2);
  paged_doc : ∀ r, r ∈ doc p → historyBucket (record_Bucket r) = history p;
  paged_out : concat docs.*2 ++ doc p = out;
  paged_distinct : NoDup (identity <$> out);
  paged_records : ∀ r, r ∈ out → record_Delete r = false ∧ written r = at_ d (record_Bucket r) (record_Key r);
}.

Lemma same_memory_sequence s0 s : same_memory s0 s → s_sequence s = s_sequence s0 ∧ snapshotSequence s = snapshotSequence s0.
Proof. by intros (dsk & fl & dr & c & o & n & ->). Qed.

(** The name of the next page is new. *)
Definition next_name p (q : Z) : string :=
  if history p then history_name q (length (newPages p)) else page_name q (length (pages p)).
Lemma next_name_new p q page : 0 ≤ q → new_page p q page → page.1 ≠ next_name p q.
Proof.
  intros Hq. destruct page as [name rs]. unfold next_name. simpl. intros [(n & -> & Hn & _)|(n & -> & Hn & _)] Heq; destruct (history p).
  - apply history_name_inj in Heq; lia.
  - symmetry in Heq. by apply page_not_history in Heq.
  - by apply page_not_history in Heq.
  - apply page_name_inj in Heq; lia.
Qed.

(** The pager after a page is published. *)
Lemma new_page_grows p p' q page : (length (pages p) ≤ length (pages p'))%nat → (length (newPages p) ≤ length (newPages p'))%nat →
  pages p ⊆ pages p' → p_historyPages p ⊆ p_historyPages p' → new_page p q page → new_page p' q page.
Proof.
  intros H1 H2 H3 H4. destruct page as [name rs]. intros [(n & -> & Hn & Hin & Hr)|(n & -> & Hn & Hin & Hr)]; [left|right]; exists n;
    (split_and!; [done|lia|by auto|done]).
Qed.
Lemma paged_flushed s0 d docs out p p' s s' : let name := next_name p (s_sequence s0) in
  paged s0 d docs out p s → published name "snapshot" (s_sequence s0) (mkdocument (doc p)) s s' (Ok 0) →
  doc p' = [] → history p' = history p → newPages p' = newPages p ++ [name] →
  pages p' = (if history p then pages p else pages p ++ [name]) →
  p_historyPages p' = (if history p then p_historyPages p ++ [name] else p_historyPages p) →
  paged s0 d (docs ++ [(name, doc p)]) out p' s'.
Proof.
  intros name [Hsync Hmem Hnew Hnames Hnd [Hpages Hpages'] Hl Hdocs Hdoc Hout Hdist Hrecs] [Hrw Hkeep _ Hother Hholds] H1 H2 H3 H4 H5.
  assert (0 ≤ s_sequence s0) as Hq by (destruct (sync_range _ _ Hsync); destruct (same_memory_sequence _ _ Hmem); lia).
  assert (∀ page, page ∈ docs → new_page p' (s_sequence s0) page) as Hgrow.
  { intros page Hpage. apply (new_page_grows p); [| | | |by apply Hdocs].
    - rewrite H4. destruct (history p); rewrite ?length_app; lia.
    - rewrite H3, length_app. lia.
    - rewrite H4. destruct (history p); set_solver.
    - rewrite H5. destruct (history p); set_solver. }
  assert (Contains name "-history-" = history p) as Hkind.
  { subst name. unfold next_name. destruct (history p); [apply history_is_history|by apply page_no_history]. }
  assert (hist_docs (docs ++ [(name, doc p)]) = hist_docs docs ++ (if history p then [(name, doc p)] else []) ∧
    page_docs (docs ++ [(name, doc p)]) = page_docs docs ++ (if history p then [] else [(name, doc p)])) as [Hhd Hpd].
  { unfold hist_docs, page_docs. rewrite !filter_app, !filter_cons, !filter_nil. simpl. rewrite Hkind. by destruct (history p). }
  split.
  - by eapply synced_keeps.
  - etrans; [exact Hmem|by apply rewritten_memory].
  - done.
  - by rewrite fmap_app, Hnames, H3.
  - rewrite fmap_app. apply NoDup_app. split_and!; [done| |apply NoDup_singleton]. intros x (page & -> & Hpage)%list_elem_of_fmap Heq%list_elem_of_singleton.
    destruct (Hdocs page Hpage) as [Hnp _]. by eapply next_name_new in Hnp.
  - rewrite Hpd, H4. subst name. unfold next_name. destruct (history p); [by rewrite app_nil_r|].
    rewrite fmap_app, length_app. simpl. rewrite seq_app, fmap_app, <-Hpages'. simpl. by rewrite Hpages.
  - rewrite Hhd, H5, Hl. destruct (history p); [|by rewrite app_nil_r]. by rewrite fmap_app, app_assoc.
  - intros page [Hpage| ->%list_elem_of_singleton]%elem_of_app; simpl.
    + split; [by apply Hgrow|]. destruct (Hdocs page Hpage) as [Hnp (raw & v & Hd & Hv & Hs)]. destruct Hrw as (dsk & fl & dr & ->).
      exists raw, v. split; [|done]. rewrite Hother; [done|]. by apply next_name_new.
    + split; [|done]. subst name. unfold next_name in *. destruct (history p) eqn:Hh; [left|right]; eexists; (split_and!; [reflexivity| | |]).
      * rewrite H3, length_app. simpl. lia.
      * rewrite H5. set_solver.
      * done.
      * rewrite H4, length_app. simpl. lia.
      * rewrite H4. set_solver.
      * done.
  - rewrite H1. by intros r ?%elem_of_nil.
  - rewrite fmap_app, concat_app, H1. simpl. by rewrite !app_nil_r.
  - done.
  - done.
Qed.

(** Flushing moves the records of the pager into a page. *)
Lemma flush_spec s0 d out p :
  spec (λ s, ∃ docs, paged s0 d docs out p s) (flush p)
       (λ p' s, doc p' = [] ∧ history p' = history p ∧ ∃ docs, paged s0 d docs out p' s).
Proof.
  unfold flush. destruct (doc p) as [|r0 rs0] eqn:Hdoc; [apply spec_ret; by eauto|].
  apply spec_get. intros s (docs & Hp). pose proof (paged_synced _ _ _ _ _ _ Hp) as Hsync.
  destruct (same_memory_sequence s0 s (paged_memory _ _ _ _ _ _ Hp)) as [Hq Hsn]. rewrite Hq.
  set (q := s_sequence s0) in *. fold (next_name p q). set (name := next_name p q).
  assert (0 ≤ q) as Hq0 by (destruct (sync_range _ _ Hsync); lia).
  assert (∀ q', ¬ placed s q' name) as Hnp.
  { intros q'. apply (new_page_not_placed s q' (if history p then length (newPages p) else length (pages p))).
    - rewrite Hq. subst name. unfold next_name. destruct (history p); auto.
    - rewrite Hq, Hsn. apply (paged_newer _ _ _ _ _ _ Hp).
    - by rewrite Hq. }
  eapply (spec_bind _ _ _ (λ _ s', published name "snapshot" q (mkdocument (doc p)) s s' (Ok 0))).
  - intros s1 s2 r [-> _] Hw. rewrite <-Hdoc in Hw.
    pose proof (write_published s name "snapshot" q _ s2 r (proj1 (sync_versions _ _ Hsync)) Hnp Hw) as Hpub.
    split; [apply (pub_faults _ _ _ _ _ _ _ Hpub)|]. destruct r; [|exact (pub_result _ _ _ _ _ _ _ Hpub)].
    destruct Hpub. by split.
  - intros _. apply spec_ret. intros s' Hpub. set (p' := (if history p then _ else _) <| newPages := _ |> <| doc := _ |> <| size := _ |>).
    assert (doc p' = [] ∧ history p' = history p ∧ newPages p' = newPages p ++ [name] ∧
      pages p' = (if history p then pages p else pages p ++ [name]) ∧
      p_historyPages p' = (if history p then p_historyPages p ++ [name] else p_historyPages p)) as (H1 & H2 & H3 & H4 & H5)
      by (subst p'; destruct (history p) eqn:Hh; simpl; by rewrite ?Hh).
    split_and!; [done|done|]. exists (docs ++ [(name, doc p)]). by eapply paged_flushed.
Qed.

Lemma same_memory_find s0 s b k : same_memory s0 s → find s b k = find s0 b k ∧ pending s b = pending s0 b ∧ ordered s = ordered s0 ∧ infos s b = infos s0 b.
Proof. by intros (dsk & fl & dr & c & o & n & ->). Qed.

(** The record of an index entry joins the page. *)
Lemma page_record_spec s0 d out b k p : is_Some (find s0 b k) → historyBucket b = history p → (b, k) ∉ identity <$> out →
  spec (λ s, ∃ docs, paged s0 d docs out p s) (page_record b p k)
       (λ p' s, history p' = history p ∧ ∃ x docs, paged s0 d docs (out ++ [record_for b k x]) p' s).
Proof.
  intros [ref Href] Hb Hnew. unfold page_record. apply spec_get. intros s (docs & Hp).
  pose proof (paged_synced _ _ _ _ _ _ Hp) as Hsync. pose proof (paged_memory _ _ _ _ _ _ Hp) as Hmem.
  rewrite (proj1 (same_memory_find s0 s b k Hmem)), Href.
  change (default (mkreference "" 0 (mkinfo "" "" "")) (Some ref)) with ref. cbv zeta.
  pose proof (sync_records _ _ Hsync b k) as Hrec. rewrite (proj1 (same_memory_find s0 s b k Hmem)), Href in Hrec.
  assert (∃ x, at_ d b k = Some x ∧ ref_holds (stored_doc s) b k ref x) as (x & Hx & source & Hd & Hr & Hi) by (inversion Hrec; eauto).
  eapply (spec_bind _ _ _ (λ source' s', source' = source ∧ paged s0 d docs out p s')).
  { intros s1 s2 r [-> _] Hl. destruct (load_spec s d _ _ Hsync Hd) as (s3 & Hl' & Hs3 & Hc). rewrite Hl' in Hl. simplify_eq. split; [destruct Hc as (c & o & n & ->); done|]. split; [done|].
    destruct Hp as [_ _ Hnewer Hnames Hnd Hpages Hl2 Hdocs Hdoc Hout Hdist Hrecs]. split; try done.
    - etrans; [exact Hmem|by apply recached_memory].
    - intros page Hpage. destruct (Hdocs page Hpage) as [Hnp Hh]. split; [done|]. by destruct Hc as (c & o & n & ->). }
  intros source'. apply spec_pure. intros ->. rewrite Hr.
  set (p1 := p <| doc := _ |> <| size := _ |>).
  assert (∀ s, paged s0 d docs out p s → paged s0 d docs (out ++ [record_for b k x]) p1 s) as Hp1.
  { clear -Hb Hx Hnew. intros s [Hsync Hmem Hnewer Hnames Hnd Hpages Hl Hdocs Hdoc Hout Hdist Hrecs]. split; try done.
    - intros r. simpl. intros [Hr| ->%list_elem_of_singleton]%elem_of_app; [by apply Hdoc|done].
    - simpl. by rewrite app_assoc, Hout.
    - rewrite fmap_app. apply NoDup_app. split_and!; [done| |apply NoDup_singleton]. by intros y Hy ->%list_elem_of_singleton.
    - intros r [Hr| ->%list_elem_of_singleton]%elem_of_app; [by apply Hrecs|]. simpl. rewrite written_record_for. done. }
  destruct (_ || _).
  - eapply spec_weaken; [apply (flush_spec s0 d (out ++ [record_for b k x]) p1)|intros s1 Hs1; exists docs; by apply Hp1|].
    intros p' s1 (_ & Hh & docs' & Hp'). eauto.
  - apply spec_ret. intros s1 Hs1. split; [done|]. exists x, docs. by apply Hp1.
Qed.

(** The keys of a bucket that compaction goes through. *)
Definition bucket_ids s (b : string) : list string :=
  if historyBucket b then merge_sort String.le (elements (pending s b)) else default [] (ordered s !! (b, "all", "")).

Lemma bucket_ids_found s d b k : synced s d → k ∈ bucket_ids s b → is_Some (find s b k).
Proof.
  intros Hs. unfold bucket_ids. destruct (historyBucket b).
  - rewrite merge_sort_Permutation, elem_of_elements. intros Hk. by apply (sync_pending _ _ Hs).
  - rewrite (sync_ordered _ _ Hs b "all" ""). intros (i & Hi & _)%(keys_exact _ _ _ _ (sorted_keys_of _ _ _)).
    rewrite infos_lookup in Hi. by destruct (find s b k).
Qed.
Lemma bucket_ids_all s d b k ref : synced s d → find s b k = Some ref →
  k ∈ bucket_ids s b ∨ historyBucket b = true ∧ File ref ∈ historyPages s.
Proof.
  intros Hs Hf. unfold bucket_ids. destruct (historyBucket b) eqn:Hb.
  - destruct (sync_history _ _ Hs b k ref Hb Hf) as [Hk|Hk]; [left|by right]. by rewrite merge_sort_Permutation, elem_of_elements.
  - left. rewrite (sync_ordered _ _ Hs b "all" ""). apply (keys_exact _ _ _ _ (sorted_keys_of _ _ _)).
    exists (ref_info ref). rewrite infos_lookup, Hf. done.
Qed.

(** The records of the buckets [bs] have been through the pager. *)
Definition covers s0 (bs : list string) (out : list record) : Prop :=
  (∀ b k, b ∈ bs → k ∈ bucket_ids s0 b → ∃ x, record_for b k x ∈ out) ∧
  (∀ r, r ∈ out → record_Bucket r ∈ bs ∧ record_Key r ∈ bucket_ids s0 (record_Bucket r)).

Lemma bucket_ids_nodup s d b : synced s d → NoDup (bucket_ids s b).
Proof.
  intros Hs. unfold bucket_ids. destruct (historyBucket b).
  - rewrite merge_sort_Permutation. apply NoDup_elements.
  - rewrite (sync_ordered _ _ Hs b "all" ""). apply (keys_nodup _ _ _ _ (sorted_keys_of _ _ _)).
Qed.

Lemma page_bucket_spec s0 d bs b p : synced s0 d → b ∉ bs →
  spec (λ s, ∃ docs out, paged s0 d docs out p s ∧ covers s0 bs out) (page_bucket p b)
       (λ p' s, ∃ docs out, paged s0 d docs out p' s ∧ covers s0 (bs ++ [b]) out).
Proof.
  intros Hs0 Hbs. apply spec_ex. intros docs0. apply spec_ex. intros out0.
  apply (spec_weaken (λ s, covers s0 bs out0 ∧ ∃ docs, paged s0 d docs out0 p s) _ _ (λ p' s, ∃ docs out, paged s0 d docs out p' s ∧ covers s0 (bs ++ [b]) out));
    [|by intros s [??]; eauto|done].
  apply spec_pure. intros [Hcov Hfrom]. unfold page_bucket. eapply spec_bind; [exact (flush_spec s0 d out0 p)|]. intros p1. cbv zeta.
  set (p2 := p1 <| history := historyBucket b |>). apply spec_get. intros s (Hdoc & _ & docs & Hp).
  assert (paged s0 d docs out0 p2 s) as Hp2.
  { destruct Hp as [Hsync Hmem Hnew Hnames Hnd Hpages Hl Hdocs Hd Hout Hdist Hrecs]. split; try done. subst p2. simpl. rewrite Hdoc. by intros r ?%elem_of_nil. }
  clear Hp. pose proof (paged_memory _ _ _ _ _ _ Hp2) as Hmem. destruct (same_memory_find s0 s b "" Hmem) as (_ & Hpend & Hord & _).
  match goal with |- spec _ (each _ _ ?ids) _ => replace ids with (bucket_ids s0 b) end.
  2: { unfold bucket_ids. subst p2. simpl. unfold pending in Hpend |- *. by rewrite Hord, Hpend. }
  set (I := λ (ks : list string) p' s, history p' = historyBucket b ∧
    ∃ out, (∃ docs, paged s0 d docs out p' s) ∧ out0 ⊆ out ∧ (∀ k, k ∈ ks → ∃ x, record_for b k x ∈ out) ∧
      (∀ r, r ∈ out → r ∈ out0 ∨ record_Bucket r = b ∧ record_Key r ∈ ks)).
  apply (spec_weaken (I [] p2) _ _ (I (bucket_ids s0 b))).
  - apply spec_each. intros pre k post p' Hids s1 s1' r1 (Hh & out & Hp' & Hsub & Hall & Hin) Hr1.
    assert (is_Some (find s0 b k)) as Hf by (eapply bucket_ids_found; [done|]; rewrite Hids; set_solver).
    assert ((b, k) ∉ identity <$> out) as Hnew.
    { intros (r & Hbk & Hr)%list_elem_of_fmap. injection Hbk as -> ->. destruct (Hin r Hr) as [Hr0|[_ Hk]]; [by destruct (Hfrom r Hr0)|].
      pose proof (bucket_ids_nodup s0 d (record_Bucket r) Hs0) as Hnd. rewrite Hids in Hnd. apply NoDup_app in Hnd as (_ & Hd & _). apply (Hd _ Hk). left. }
    destruct (page_record_spec s0 d out b k p' Hf (eq_sym Hh) Hnew s1 s1' r1 Hp' Hr1) as [H1 H2]. split; [done|]. destruct r1 as [p3|]; [|done].
    destruct H2 as (Hh3 & x & Hdocs). split; [by rewrite Hh3|]. exists (out ++ [record_for b k x]). split_and!; [done|set_solver| |].
    + intros k' [Hk'| ->%list_elem_of_singleton]%elem_of_app; [destruct (Hall k' Hk') as [x' Hx']; exists x'|exists x]; set_solver.
    + intros r [Hr| ->%list_elem_of_singleton]%elem_of_app; [destruct (Hin r Hr) as [?|[? ?]]; [by left|right]; set_solver|right]. simpl. set_solver.
  - intros s1 [-> _]. split; [done|]. exists out0. split_and!; [by eauto|done|by intros k ?%elem_of_nil|by left].
  - intros p' s1 (_ & out & (docs' & Hp') & Hsub & Hall & Hin). exists docs', out. split; [done|]. split.
    + intros b' k [Hb'| ->%list_elem_of_singleton]%elem_of_app Hk; [|by apply Hall]. destruct (Hcov b' k Hb' Hk) as [x Hx]. exists x. by apply Hsub.
    + intros r Hr. rewrite elem_of_app, list_elem_of_singleton. destruct (Hin r Hr) as [Hr0|[Heq Hk]].
      * destruct (Hfrom r Hr0). split; [by left|done].
      * rewrite Heq. split; [by right|done].
Qed.

(** * Moving the index to the new pages *)

(** The documents of the store and of the new pages. *)
Definition or_new s1 (q : Z) (names : list string) (name : string) (doc : document) : Prop :=
  stored_doc s1 name doc ∨ name ∈ names ∧ holds s1 name "snapshot" q doc.

(** The pages [pre] of [docs] have been applied to the indexes of [s1]. *)
Record moved s1 d (docs : list (string * list record)) (pre : list string) s : Prop := {
  moved_reindexed : reindexed s1 s;
  moved_ordered : ordered_ok s;
  moved_records : indexes (or_new s1 (s_sequence s1) docs.*1) s (at_ d);
  moved_history : history_placed (historyPages s1) s;
  moved_pending : pending_found s;
  moved_identified : identified s;
  moved_files : ∀ b k ref, find s b k = Some ref → File ref ∈ pre ∨
    find s1 b k = Some ref ∧ ∀ page r, page ∈ docs → page.1 ∈ pre → r ∈ page.2 → ¬ writes b k r;
  moved_unpends : ∀ b k, k ∈ pending s b → k ∈ pending s1 b ∧ ∀ page r, page ∈ docs → page.1 ∈ pre → r ∈ page.2 → ¬ writes b k r;
}.

(** What the pager leaves for the move. *)
Record movable s1 d (docs : list (string * list record)) : Prop := {
  movable_id : id s1 ≠ "";
  movable_version : envelopeVersion s1 ≤ currentEnvelopeVersion;
  movable_docs : ∀ page, page ∈ docs → holds s1 page.1 "snapshot" (s_sequence s1) (mkdocument page.2);
  movable_history : ∀ page, page ∈ docs → Contains page.1 "-history-" = true → page.1 ∈ historyPages s1;
  movable_kind : ∀ page r, page ∈ docs → r ∈ page.2 → historyBucket (record_Bucket r) = Contains page.1 "-history-";
  movable_records : ∀ page r, page ∈ docs → r ∈ page.2 → written r = at_ d (record_Bucket r) (record_Key r);
  movable_identity : ∀ page r, page ∈ docs → r ∈ page.2 → record_Bucket r ≠ "" ∧ record_Key r ≠ "";
}.

Lemma moved_step s1 d docs pre name : movable s1 d docs → name ∈ docs.*1 →
  spec (moved s1 d docs pre) (read document name "snapshot" (s_sequence s1) ≫= λ dd, apply dd.2 name false)
       (λ _, moved s1 d docs (pre ++ [name])).
Proof.
  intros [Hid Hver Hdocs Hhist Hkind Hrecs Hident] (page & -> & Hpage)%list_elem_of_fmap s s' r Hm. destruct page as [name rs]. simpl in *.
  assert (read document name "snapshot" (s_sequence s1) s = (s, Ok (s_sequence s1, mkdocument rs))) as Hread.
  { destruct (moved_reindexed _ _ _ _ _ Hm) as (ix & o & ph & ->). apply read_holds; [done..|exact (Hdocs _ Hpage)|by left]. }
  unfold mbind, ST_bind. rewrite Hread. cbn [snd].
  destruct (apply_records_ok name rs 0 s) as [s2 Happ]; [intros r0 Hr0; by eapply (Hident (name, rs))|].
  change (apply (mkdocument rs) name false s = (s2, Ok ())) in Happ. rewrite Happ. intros [= <- <-].
  destruct Hm as [(ix & o & ph & Hs) Hok Hidx Hh Hp Hids Hfiles Hunp].   assert (∀ page, page ∈ docs → page.1 = name → page = (name, rs)) as Hsame.
  { intros [name' rs'] Hpg Heq. simpl in *. subst name'.
    pose proof (holds_unique (A := document) s1 name "snapshot" (s_sequence s1) (s_sequence s1) (mkdocument rs') (mkdocument rs) Hid Hver ltac:(done) (Hdocs _ Hpg) (Hdocs _ Hpage))
      as [= ->]. done. }
  destruct (apply_spec _ s _ (historyPages s1) name (mkdocument rs) false s2 Hok Hidx) as (H1 & H2 & H3 & H3' & H4 & (ix' & o' & ph' & H5)); [|done|done|done| |done|].
  { right. split; [by apply (list_elem_of_fmap_2 fst _ (name, rs))|exact (Hdocs _ Hpage)]. }
  { exact (Hhist _ Hpage). }
  split; [by rewrite H5, Hs|]. split; [rewrite H5, Hs; by exists ix', o', ph'|done| |done|done|done| |].
  - intros b k. specialize (H1 b k). simpl in H1. rewrite after_tx_same in H1; [done|]. intros r0 Hr0. by eapply (Hrecs (name, rs)).
  - intros b k ref Hf. destruct (apply_files _ _ _ _ _ Hok Happ b k ref Hf) as [<-|[Hf1 Hn]]; [left; set_solver|].
    destruct (Hfiles b k ref Hf1) as [Hin|[Hf2 Hn2]]; [left; set_solver|]. right. split; [done|].
    intros page r0 Hpg [Hin|Heq%list_elem_of_singleton]%elem_of_app Hr0; [by eapply Hn2|]. apply Hn. simpl.
    by rewrite (Hsame page Hpg Heq) in Hr0.
  - intros b k Hk. assert (historyBucket b = true) as Hb by apply (H3 b k Hk).
    assert (k ∈ pending s b ∧ ∀ r0, r0 ∈ rs → ¬ writes b k r0) as [Hk1 Hn].
    { destruct (Contains name "-history-") eqn:Hc; [by eapply (apply_unpends (mkdocument rs))|].
      assert (∀ r0, r0 ∈ rs → ¬ writes b k r0) as Hn by (intros r0 Hr0 [Hb' _]; rewrite <-Hb', (Hkind _ r0 Hpage Hr0) in Hb; simpl in Hb; congruence).
      split; [|done]. destruct (apply_pending _ _ _ _ _ Hok Happ b k Hk) as [?|(_ & _ & r0 & Hr0 & Hw)]; [done|by destruct (Hn r0)]. }
    destruct (Hunp b k Hk1) as [Hk2 Hn2]. split; [done|]. intros page r0 Hpg [Hin|Heq%list_elem_of_singleton]%elem_of_app Hr0; [by eapply Hn2|].
    apply Hn. by rewrite (Hsame page Hpg Heq) in Hr0.
Qed.

(** * Removing files *)

(** The files named in [kept] stay, and those outside of the two directories. *)
Definition removable (name : string) : bool := HasPrefix name "journal/" || HasPrefix name "snapshots/".
Definition removes s2 (kept : list string) s : Prop :=
  ∃ dsk fl, s = s2 <| disk := dsk |> <| faults := fl |> ∧ dsk ⊆ disk s2 ∧
    ∀ name, name ∈ kept ∨ removable name = false → dsk !! name = disk s2 !! name.

Lemma removes_nothing s2 kept : removes s2 kept s2.
Proof. exists (disk s2), (faults s2). split; [by destruct s2|done]. Qed.
Lemma remove_file_removes s2 kept name : name ∉ kept → removable name = true → preserves (removes s2 kept) (remove_file name).
Proof.
  intros Hn Hr s (dsk & fl & -> & Hsub & Hk). unfold remove_file, next_fault. st_run.
  assert (∀ fl', removes s2 kept (s2 <| disk := delete name dsk |> <| faults := fl' |>)) as Hdel.
  { intros fl'. exists (delete name dsk), fl'. split_and!; [done|etrans; [apply delete_subseteq|done]|].
    intros x Hx. rewrite lookup_delete_ne; [by apply Hk|]. intros <-. destruct Hx as [?|Hx]; [done|]. by rewrite Hr in Hx. }
  change (faults (s2 <| disk := dsk |> <| faults := fl |>)) with fl.
  destruct fl as [|[] fl']; [apply Hdel|apply Hdel| |apply Hdel]. exists dsk, fl'. done.
Qed.
Lemma remove_file_spec s2 kept name : name ∉ kept → removable name = true → spec (removes s2 kept) (remove_file name) (λ _, removes s2 kept).
Proof.
  intros Hn Hr s s' r Hs Hm. pose proof (remove_file_removes s2 kept name Hn Hr s Hs) as Hrem. rewrite Hm in Hrem. simpl in Hrem. revert Hm.
  unfold remove_file, next_fault. st_run.
  assert (∀ o (l : list write_outcome), l `suffix_of` o :: l) as Hsuf by (intros o l; by exists [o]).
  destruct (faults s) as [|[] fl'] eqn:Hf; intros [= <- <-]; (split; [|done]); simpl; rewrite ?Hf; reflexivity || apply Hsuf.
Qed.

(** A file in one of the two directories. *)
Lemma removal_spares subdir entry (kept : list string) : (∀ name, name ∈ kept → ∃ x, name = "snapshots/" +++ x ∧ (slash ∉ bytes x) ∧ x ≠ "") →
  subdir ∈ ["journal"; "snapshots"] → (subdir =s "snapshots") && (entry ∈b (path_Base <$> kept)) = false →
  (subdir +++ "/" +++ entry) ∉ kept.
Proof.
  intros Hkept Hsub Hcond Hin. destruct (Hkept _ Hin) as (x & Hx & Hslash & Hne).
  apply elem_of_cons in Hsub as [->| ->%list_elem_of_singleton]; [done|]. injection Hx as Hx. change (entry = x) in Hx. subst x.
  rewrite bool_decide_true in Hcond by done. simpl in Hcond. bool_to_prop. apply Hcond. apply list_elem_of_fmap.
  exists ("snapshots" +++ "/" +++ entry). split; [|done]. symmetry. by apply path_Base_in.
Qed.

Lemma removal_removable subdir entry : subdir ∈ ["journal"; "snapshots"] → removable (subdir +++ "/" +++ entry) = true.
Proof.
  unfold removable. intros [->| ->%list_elem_of_singleton]%elem_of_cons.
  - rewrite <-append_assoc. by rewrite HasPrefix_app.
  - rewrite <-append_assoc. rewrite HasPrefix_app. apply orb_true_r.
Qed.
Lemma syncDir_removes s2 kept : preserves (removes s2 kept) syncDir.
Proof.
  intros s (dsk & fl & -> & Hk). unfold syncDir, next_fault. st_run. change (faults (s2 <| disk := dsk |> <| faults := fl |>)) with fl.
  destruct fl as [|[] fl']; [by exists dsk, []|..]; by exists dsk, fl'.
Qed.
Lemma syncDir_spec s2 kept : spec (removes s2 kept) syncDir (λ _, removes s2 kept).
Proof.
  intros s s' r Hs Hm. pose proof (syncDir_removes s2 kept s Hs) as Hrem. rewrite Hm in Hrem. simpl in Hrem. revert Hm.
  unfold syncDir, next_fault. st_run. assert (∀ o (l : list write_outcome), l `suffix_of` o :: l) as Hsuf by (intros o l; by exists [o]).
  destruct (faults s) as [|[] fl'] eqn:Hf; intros [= <- <-]; (split; [|done]); simpl; rewrite ?Hf; reflexivity || apply Hsuf.
Qed.
Lemma removal_spec s2 (kept : list string) : (∀ name, name ∈ kept → ∃ x, name = "snapshots/" +++ x ∧ (slash ∉ bytes x) ∧ x ≠ "") →
  spec (removes s2 kept)
    (each (λ _ subdir, remove_superseded kept subdir) () ["journal"; "snapshots"])
    (λ _, removes s2 kept).
Proof.
  intros Hkept. apply (spec_each (λ _ _, removes s2 kept)). intros pre subdir post _ Hsub. unfold remove_superseded. apply spec_get. intros s _.
  apply (spec_bind _ _ _ (λ _, removes s2 kept)); [|intros _; apply syncDir_spec].
  eapply spec_weaken; [|intros s' [_ Hs']; exact Hs'|]; [apply (spec_each (λ _ _, removes s2 kept))|done].
  intros pre' entry post' _ _. destruct (_ && _) eqn:Hc; [by apply spec_ret|].
  assert (subdir ∈ ["journal"; "snapshots"]) as Hin by (rewrite Hsub; set_solver). apply remove_file_spec; [by apply removal_spares|by apply removal_removable].
Qed.

(** The names compaction keeps. *)
Lemma snapshot_names q n : 0 ≤ q →
  (∃ x, page_name q n = "snapshots/" +++ x ∧ (slash ∉ bytes x) ∧ x ≠ "") ∧ (∃ x, history_name q n = "snapshots/" +++ x ∧ (slash ∉ bytes x) ∧ x ≠ "").
Proof.
  intros Hq. assert (∀ y, pad_dec 20 q +++ y +++ ".yaml" ≠ "") as Hne by (intros y; by destruct (pad_dec 20 q), y). split.
  - exists (pad_dec 20 q +++ ("-" +++ pad_dec 6 (Z.of_nat n)) +++ ".yaml"). split_and!; [|rewrite !bytes_append, !not_elem_of_app|done].
    + unfold page_name. by rewrite !append_assoc.
    + split_and!; [by apply no_digit|not_in|apply no_digit; [lia|done]|not_in].
  - exists (pad_dec 20 q +++ ("-history-" +++ pad_dec 6 (Z.of_nat n)) +++ ".yaml"). split_and!; [|rewrite !bytes_append, !not_elem_of_app|done].
    + unfold history_name. by rewrite !append_assoc.
    + split_and!; [by apply no_digit|not_in|apply no_digit; [lia|done]|not_in].
Qed.

(** * The whole of it *)

Definition bucket_names s : list string := merge_sort String.le (map_to_list (s_index s)).*1.
Lemma bucket_names_all s b k : is_Some (find s b k) → b ∈ bucket_names s.
Proof.
  unfold find, index_of, bucket_names. intros Hf. rewrite merge_sort_Permutation. destruct (s_index s !! b) as [m|] eqn:Hb; [|by destruct Hf].
  apply list_elem_of_fmap. exists (b, m). split; [done|by apply elem_of_map_to_list].
Qed.

Lemma bucket_names_nodup s : NoDup (bucket_names s).
Proof. unfold bucket_names. rewrite merge_sort_Permutation. apply NoDup_fst_map_to_list. Qed.

Lemma paging_spec s0 d : synced s0 d → snapshotSequence s0 < s_sequence s0 →
  spec (λ s, s = s0) (each page_bucket (mkpager [] (historyPages s0) [] false [] 0) (bucket_names s0) ≫= flush)
       (λ p s, doc p = [] ∧ ∃ docs out, paged s0 d docs out p s ∧ covers s0 (bucket_names s0) out).
Proof.
  intros Hs0 Hlt. eapply spec_bind.
  - eapply spec_weaken; [apply (spec_each (λ bs p s, ∃ docs out, paged s0 d docs out p s ∧ covers s0 bs out))| |].
    + intros pre b post p Hl. apply page_bucket_spec; [done|]. pose proof (bucket_names_nodup s0) as Hnd. rewrite Hl in Hnd.
      apply NoDup_app in Hnd as (_ & Hd & _). intros Hin. apply (Hd b Hin). left.
    + intros s ->. exists [], []. split; [|split; [by intros b k ?%elem_of_nil|by intros r ?%elem_of_nil]]. split; simpl; try done.
      * constructor.
      * by rewrite app_nil_r.
      * by intros page ?%elem_of_nil.
      * by intros r ?%elem_of_nil.
      * constructor.
      * by intros r ?%elem_of_nil.
    + intros p s Hp. exact Hp.
  - intros p. apply spec_ex. intros docs. apply spec_ex. intros out.
    apply (spec_weaken (λ s, covers s0 (bucket_names s0) out ∧ ∃ docs, paged s0 d docs out p s) _ _
      (λ p s, doc p = [] ∧ ∃ docs out, paged s0 d docs out p s ∧ covers s0 (bucket_names s0) out)); [|by intros s [??]; eauto|done].
    apply spec_pure. intros Hcov. eapply spec_weaken; [apply (flush_spec s0 d out p)|done|].
    intros p' s (Hdoc & _ & docs' & Hp'). split; [done|]. exists docs', out. done.
Qed.

Lemma paged_page_name s0 d docs out p s name : paged s0 d docs out p s → name ∈ pages p → ∃ n, name = page_name (s_sequence s0) n.
Proof. intros [_ _ _ _ _ [_ Hpages] _ _ _ _ _ _]. rewrite Hpages. intros (n & -> & _)%list_elem_of_fmap. eauto. Qed.
Lemma paged_history_name s0 d docs out p s page : 0 ≤ s_sequence s0 → paged s0 d docs out p s → page ∈ hist_docs docs →
  ∃ n, page.1 = history_name (s_sequence s0) n.
Proof.
  intros Hq Hp [Hc Hin]%list_elem_of_filter. destruct (paged_docs _ _ _ _ _ _ Hp page Hin) as [Hnp _]. destruct page as [name rs]. simpl in *.
  destruct Hnp as [(n & -> & _)|(n & -> & _)]; [by eauto|]. by rewrite page_no_history in Hc.
Qed.

Lemma paged_kept s0 d docs out p s name : synced s0 d → paged s0 d docs out p s → name ∈ pages p ∨ name ∈ p_historyPages p →
  ∃ x, name = "snapshots/" +++ x ∧ (slash ∉ bytes x) ∧ x ≠ "".
Proof.
  intros Hs0 Hp. assert (0 ≤ s_sequence s0) as Hq by (destruct (sync_range _ _ Hs0); lia).
  rewrite (paged_history _ _ _ _ _ _ Hp), elem_of_app. intros [Hn|[Hn|Hn]].
  - destruct (paged_page_name _ _ _ _ _ _ _ Hp Hn) as [n ->]. by apply snapshot_names.
  - destruct (sync_named _ _ Hs0 name Hn) as (q & n & Hq' & ->). by apply snapshot_names.
  - apply list_elem_of_fmap in Hn as (page & -> & Hpage). destruct (paged_history_name _ _ _ _ _ _ _ Hq Hp Hpage) as [n ->]. by apply snapshot_names.
Qed.

(** The store once the manifest names the new pages. *)
Definition manifested p s : Store := s <| cache := ∅ |> <| cacheOrder := [] |> <| cacheBytes := 0 |> <| historyPages := p_historyPages p |>.

Lemma manifested_movable s0 d docs out p s : paged s0 d docs out p s → doc p = [] → movable (manifested p s) d docs.
Proof.
  intros [Hsync Hmem Hnew Hnames Hnd Hpages Hl Hdocs Hdoc Hout Hdist Hrecs] Hempty. destruct (same_memory_sequence _ _ Hmem) as [Hq _].
  assert (∀ page r, page ∈ docs → r ∈ page.2 → r ∈ out) as Hin.
  { intros page r Hpage Hr. rewrite <-Hout, elem_of_app, elem_of_docs. eauto. }
  split.
  - apply (sync_id _ _ Hsync).
  - apply (sync_versions _ _ Hsync).
  - intros page Hpage. change (s_sequence (manifested p s)) with (s_sequence s). rewrite Hq. apply (Hdocs page Hpage).
  - intros page Hpage Hc. destruct (Hdocs page Hpage) as [Hnp _]. destruct page as [name rs]. simpl in *.
    destruct Hnp as [(n & -> & _ & ? & _)|(n & -> & _)]; [done|]. rewrite page_no_history in Hc; [done|]. destruct (sync_range _ _ Hsync). lia.
  - intros page r Hpage Hr. destruct (Hdocs page Hpage) as [Hnp _]. destruct page as [name rs]. simpl in *. pose proof (sync_range _ _ Hsync).
    destruct Hnp as [(n & -> & _ & _ & Hk)|(n & -> & _ & _ & Hk)]; [rewrite history_is_history|rewrite page_no_history by lia]; by apply Hk.
  - intros page r Hpage Hr. by apply Hrecs, (Hin page).
  - intros page r Hpage Hr. destruct (Hrecs r (Hin page r Hpage Hr)) as [Hdel Hw]. apply (sync_identified _ _ Hsync).
    pose proof (sync_records _ _ Hsync (record_Bucket r) (record_Key r)) as Hf. rewrite <-Hw in Hf. unfold written in Hf.
    rewrite Hdel in Hf. inversion Hf. eauto.
Qed.

Lemma manifested_moved s0 d docs out p s : paged s0 d docs out p s → moved (manifested p s) d docs [] (manifested p s).
Proof.
  intros [Hsync Hmem _ _ _ _ Hl _ _ _ _ _]. assert (historyPages s = historyPages s0) as Hp by (by destruct Hmem as (? & ? & ? & ? & ? & ? & ->)).
  split.
  - reflexivity.
  - exact (sync_ordered _ _ Hsync).
  - intros b k. eapply option_Forall2_weaken; [|exact (sync_records _ _ Hsync b k)]. intros ref x (dd & Hd & Hr). exists dd. by split; [left|].
  - intros b k ref Hb Hf. destruct (sync_history _ _ Hsync b k ref Hb Hf) as [Hk|Hk]; [by left|right]. simpl. rewrite Hl, <-Hp. set_solver.
  - exact (sync_pending _ _ Hsync).
  - exact (sync_identified _ _ Hsync).
  - intros b k ref Hf. right. split; [done|]. by intros page r _ ?%elem_of_nil.
  - intros b k Hk. split; [done|]. by intros page r _ ?%elem_of_nil.
Qed.

(** Every reference leads to a file that is kept. *)
Lemma moved_kept s0 d docs out p s s2 : paged s0 d docs out p s → doc p = [] → covers s0 (bucket_names s0) out →
  synced s0 d → moved (manifested p s) d docs (newPages p) s2 →
  ∀ b k ref, find s2 b k = Some ref → File ref ∈ pages p ++ p_historyPages p.
Proof.
  intros [Hsync Hmem _ Hnames _ _ Hl Hdocs _ Hout _ _] Hempty [Hcov _] Hs0 Hm b k ref Hf.
  assert (∀ name, name ∈ newPages p → name ∈ pages p ++ p_historyPages p) as Hkept.
  { intros name Hn. rewrite <-Hnames in Hn. apply list_elem_of_fmap in Hn as ([name' rs] & -> & Hpage). destruct (Hdocs _ Hpage) as [Hnp _].
    destruct Hnp as [(n & -> & _ & ? & _)|(n & -> & _ & ? & _)]; set_solver. }
  destruct (moved_files _ _ _ _ _ Hm b k ref Hf) as [?|[Hf1 Hn]]; [by apply Hkept|].
  assert (find s0 b k = Some ref) as Hf0 by (destruct (same_memory_find s0 s b k Hmem) as [<- _]; exact Hf1).
  destruct (bucket_ids_all s0 d b k ref Hs0 Hf0) as [Hk|[_ Hk]]; [|rewrite Hl; set_solver].
  destruct (Hcov b k) as [x Hx]; [by eapply bucket_names_all|done|]. rewrite <-Hout, Hempty, app_nil_r, elem_of_docs in Hx.
  destruct Hx as (page & Hpage & Hx).
  destruct (Hn page _ Hpage ltac:(rewrite <-Hnames; by apply list_elem_of_fmap_2) Hx). done.
Qed.

(** The store after the old files are removed. *)
Definition compacted s : Store := s <| snapshotSequence := s_sequence s |> <| journalCount := 0 |> <| journalBytes := 0 |>.

Lemma compacted_synced s0 d docs out p s s2 s3 : paged s0 d docs out p s → doc p = [] → covers s0 (bucket_names s0) out →
  synced s0 d → moved (manifested p s) d docs (newPages p) s2 → removes s2 (pages p ++ p_historyPages p) s3 → synced (compacted s3) d.
Proof.
  intros Hp Hempty Hcov Hs0 Hm (dsk & fl & -> & _ & Hdsk). pose proof (moved_kept _ _ _ _ _ _ _ Hp Hempty Hcov Hs0 Hm) as Hkept.
  assert (0 ≤ s_sequence s0) as Hs0q by (destruct (sync_range _ _ Hs0); lia).
  pose proof (λ page, paged_history_name s0 d docs out p s page Hs0q Hp) as Hl'.
  destruct Hp as [Hsync Hmem Hnew Hnames _ Hpages Hl Hdocs _ _ _ _]. destruct (same_memory_sequence _ _ Hmem) as [Hq Hsn].
  pose proof (sync_range _ _ Hsync) as Hr. destruct Hm as [(ix & o & ph & Hs2) Hok Hidx Hh Hpend Hident _ _].
  assert (∀ name dd, or_new (manifested p s) (s_sequence s) docs.*1 name dd → name ∈ pages p ++ p_historyPages p →
    stored_doc (compacted (s2 <| disk := dsk |> <| faults := fl |>)) name dd) as Hdoc.
  { intros name dd Hor Hk. assert (∃ q, placed (compacted (s2 <| disk := dsk |> <| faults := fl |>)) q name ∧ holds (manifested p s) name (doc_kind name) q dd)
      as (q & Hpl & raw & v & Hd & Hv & Hse).
    { destruct Hor as [(q & [Hq0 Hpl] & Hh')|[Hn Hh']].
      + exists q. split; [|done]. split; [done|]. rewrite Hs2. simpl. destruct Hpl as [[-> ?]|[Hn ?]]; [by left|right]. split; [done|].
        simpl in *. lia.
      + rewrite Hnames in Hn. rewrite <-Hnames in Hn. apply list_elem_of_fmap in Hn as ([name' rs] & -> & Hpage). simpl in *.
        destruct (Hdocs _ Hpage) as [Hnp _]. rewrite <-Hq in Hnp. exists (s_sequence s). split.
        * split; [lia|]. right. split; [|by rewrite Hs2]. destruct Hnp as [(n & -> & _)|(n & -> & _)]; eauto.
        * destruct Hnp as [(n & -> & _)|(n & -> & _)]; [by rewrite doc_kind_history|by rewrite doc_kind_page]. }
    exists q. split; [done|]. exists raw, v. rewrite Hs2. split; [|done]. simpl. rewrite Hdsk by (by left). by rewrite Hs2. }
  pose proof (sync_named _ _ Hs0) as Hnamed. destruct Hsync. split; try (rewrite Hs2; done).
  - rewrite Hs2. simpl. lia.
  - exact Hok.
  - intros b k. change (option_Forall2 (ref_holds (stored_doc (compacted (s2 <| disk := dsk |> <| faults := fl |>))) b k) (find s2 b k) (at_ d b k)).
    specialize (Hkept b k). specialize (Hidx b k). destruct (find s2 b k) as [ref|]; inversion Hidx as [? x (dd & Hd & Hrr)|]; constructor.
    exists dd. split; [|done]. apply Hdoc; [exact Hd|by apply Hkept].
  - assert (historyPages s2 = historyPages (manifested p s)) as Hpg by (by rewrite Hs2).
    intros b k ref Hb Hf. change (k ∈ pending s2 b ∨ File ref ∈ historyPages s2). rewrite Hpg. by apply Hh.
  - exact Hpend.
  - exact Hident.
  - intros name Hn. simpl in Hn. rewrite Hs2 in Hn. simpl in Hn. rewrite Hl in Hn. apply elem_of_app in Hn as [Hn|Hn].
    + by apply Hnamed.
    + apply list_elem_of_fmap in Hn as (page & -> & Hpage). destruct (Hl' page Hpage) as [n ->]. exists (s_sequence s0), n. done.
Qed.

(** The manifest is not a page. *)
Lemma manifest_written s0 d docs out p s (m : manifest) q s' r : paged s0 d docs out p s → write "manifest.yaml" "manifest" q m s = (s', r) →
  faults s' `suffix_of` faults s ∧ match r with Ok _ => paged s0 d docs out p s' | Err _ => faults s ≠ [] end.
Proof.
  intros [Hsync Hmem Hnew Hnames Hnd Hpages Hl Hdocs Hdoc Hout Hdist Hrecs] Hw.
  assert (∀ q, ¬ placed s q "manifest.yaml") as Hn by (by apply not_placed).
  destruct (write_published s _ _ _ _ _ _ (proj1 (sync_versions _ _ Hsync)) Hn Hw) as [Hrw Hk Hf Hother Hr]. split; [done|].
  destruct r; [|done]. split; try done.
  - by eapply synced_keeps.
  - etrans; [exact Hmem|by apply rewritten_memory].
  - intros page Hpage. destruct (Hdocs page Hpage) as [Hnp (raw & v & Hd & Hv)]. split; [done|]. destruct Hrw as (dsk & fl & dr & ->).
    exists raw, v. split; [|done]. rewrite Hother; [done|]. intros Heq. destruct page as [name rs]. simpl in *. subst name.
    destruct Hnp as [(n & Hx & _)|(n & Hx & _)]; discriminate Hx.
Qed.

Theorem compact_spec d : spec (λ s, synced s d ∧ readOnly s = false) compact (λ _ s, synced s d).
Proof.
  unfold compact. apply spec_get. intros s0 [Hs0 Hro]. rewrite Hro.
  eapply (spec_bind _ _ _ (λ _ s, s = s0)); [apply spec_ret; by intros s [-> _]|]. intros _.
  case_bool_decide as Hseq; [by apply spec_ret; intros s ->|].
  assert (snapshotSequence s0 < s_sequence s0) as Hlt by (destruct (sync_range _ _ Hs0); lia).
  pose proof (paging_spec s0 d Hs0 Hlt) as Hpaging. unfold bucket_names in Hpaging.
  apply spec_assoc. eapply spec_bind; [exact Hpaging|]. intros p. apply spec_pure. intros Hempty.
  apply spec_ex. intros docs. apply spec_ex. intros out.
  eapply (spec_bind _ _ _ (λ _ s, paged s0 d docs out p s ∧ covers s0 (bucket_names s0) out)).
  { intros s s' r [Hp Hcov] Hw. eapply manifest_written in Hw; [|exact Hp]. destruct Hw as [Hsuf Hr]. split; [done|]. by destruct r. }
  intros _. apply (spec_bind _ _ _ (λ _ s1, ∃ s, s1 = manifested p s ∧ paged s0 d docs out p s ∧ covers s0 (bucket_names s0) out)).
  { apply spec_modify. intros s [Hp Hcov]. split; [|done]. by exists s. }
  intros _. apply spec_ex. intros s.
  apply (spec_weaken (λ s1, (paged s0 d docs out p s ∧ covers s0 (bucket_names s0) out) ∧ s1 = manifested p s) _ _ (λ _ s, synced s d));
    [|by intros s1 (-> & ? & ?)|done].
  apply spec_pure. intros [Hp Hcov]. pose proof (manifested_movable _ _ _ _ _ _ Hp Hempty) as Hmov.
  pose proof (proj1 (same_memory_sequence _ _ (paged_memory _ _ _ _ _ _ Hp))) as Hq.
  apply (spec_bind _ _ _ (λ _, moved (manifested p s) d docs (newPages p))).
  { eapply spec_weaken; [apply (spec_each (λ pre _, moved (manifested p s) d docs pre))|intros s1 ->; by eapply manifested_moved|done].
    intros pre name post _ Hnames. rewrite <-Hq. change (s_sequence s) with (s_sequence (manifested p s)). apply moved_step; [done|].
    rewrite (paged_names _ _ _ _ _ _ Hp), Hnames. set_solver. }
  intros _. apply spec_fix. intros s2 Hm. apply (spec_bind _ _ _ (λ _, removes s2 (pages p ++ p_historyPages p))).
  - eapply spec_weaken; [apply removal_spec|intros s3 ->; by apply removes_nothing|done].
    intros name Hn%elem_of_app. by eapply paged_kept.
  - intros _. apply spec_modify. intros s3 Hrm. split; [|done]. by eapply compacted_synced.
Qed.
End Compact.
