(* ===== verification/StateRefine.v ===== *)
(** The store of files implements its specification: [view] and [update] of
    storage.go, run on the files, answer what [db_view] and [db_update] answer,
    and keep the store in step with the specification. *)
From S2P Require Import Prelude GoLib Base64 Entities RbacTyped StateProg StateRecords StateProgFacts StateLaws.
From S2P Require Import StateStore StateIndex StateReach StateFiles StateSync StateCompact.
From stdpp Require Import options.
#[local] Set Default Proof Using "All".
Local Open Scope Z_scope.

(** Programs that raise the security version to a known one at most, and end
    when that fails. *)
Fixpoint raises_to {A} (top : Z) (p : prog A) : Prop :=
  match p with
  | Ret _ | Throw _ => True
  | Lookup _ _ c => ∀ r, raises_to top (c r)
  | Poison p | Emit _ p => raises_to top p
  | Index _ c => ∀ m, raises_to top (c m)
  | Ordered _ _ _ c => ∀ l, raises_to top (c l)
  | Sequence c | Pending c => ∀ n, raises_to top (c n)
  | Managed c => ∀ m, raises_to top (c m)
  | Ensure n c => n ≤ top ∧ (∃ e, c (Err ErrStateUnavailable) = Throw e) ∧ ∀ r, raises_to top (c r)
  end.

(** Only the outcomes of raising the version above the current one matter. *)
Lemma run_oracle {A} (p : prog A) f g c d tx : (∀ n, db_version d < n → f n = g n) →
  run (mkoracle f c) p d tx = run (mkoracle g c) p d tx.
Proof.
  revert d tx. induction p as [| | | | | | | | | |n k IH]; intros d tx Hfg; simpl; auto.
  destruct (Z.leb_spec n (db_version d)); [by apply IH|]. rewrite Hfg by done.
  destruct (g n); apply IH; simpl; intros; apply Hfg; lia.
Qed.

Section Refine.
Context {E : Aead} `{!AeadOk E} {R : Random} `{!RandomOk R}.
Context {YEnv : Yaml envelope} `{!Faithful envelope} {YDoc : Yaml document} `{!Faithful document}.
Context {YManifest : Yaml manifest} `{!Faithful manifest} {YHeader : Yaml header} `{!Faithful header} {YUnit : Yaml ()} `{!Faithful ()}.
Implicit Types (s : Store) (d : db).

(** * Running a program *)

(** Other fields that the representation does not depend on. *)
Lemma stored_doc_version s v name dd : envelopeVersion s ≤ v → stored_doc s name dd → stored_doc (s <| envelopeVersion := v |>) name dd.
Proof.
  intros Hv (q & Hp & raw & v' & Hd & [Hv1 Hv2] & Hs). exists q. split; [done|]. exists raw, v'. split_and!; [done|lia|simpl; lia|done].
Qed.

Lemma synced_version s d v : synced s d → envelopeVersion s ≤ v ≤ currentEnvelopeVersion →
  synced (s <| envelopeVersion := v |>) (d <| db_version := v |>).
Proof.
  intros Hs Hv. pose proof (sync_records _ _ Hs) as Hrec. pose proof (sync_cache _ _ Hs) as Hcache. destruct Hs. split; try done.
  - simpl. lia.
  - intros name e Hc. apply stored_doc_version; [lia|by apply Hcache].
  - intros b k. eapply option_Forall2_weaken; [|exact (Hrec b k)]. intros ref x (dd & Hd & Hr). exists dd.
    split; [|done]. apply stored_doc_version; [lia|done].
Qed.
Lemma synced_poison s d : synced s d → synced (s <| poisoned := true |>) (d <| unavailable := true |>).
Proof. intros []. split; try done. simpl. apply orb_true_r. Qed.

Lemma raise_version_spec s d n : synced s d → n ≤ currentEnvelopeVersion → ∃ s' ok,
  faults s' `suffix_of` faults s ∧ (faults s = [] → ok = true) ∧ historyPages s' = historyPages s ∧
  raise_version n s = (s', if (n <=? db_version d) || ok then Ok () else Err ErrStateUnavailable) ∧
  synced s' (if n <=? db_version d then d else if ok then d <| db_version := n |> else d <| db_version := n |> <| unavailable := true |>).
Proof.
  intros Hs Hn. unfold raise_version. st_run. rewrite (sync_version _ _ Hs).
  destruct (Z.leb_spec n (db_version d)) as [Hle|Hlt]; [by exists s, true|].
  pose proof (sync_versions _ _ Hs) as Hv. pose proof (sync_version _ _ Hs) as Hv'.
  assert (synced (s <| envelopeVersion := n |>) (d <| db_version := n |>)) as Hs1 by (apply synced_version; [done|lia]).
  destruct (write _ _ _ _ _) as [s2 r] eqn:Hw.
  destruct (write_published (s <| envelopeVersion := n |>) "store.yaml" "header" 0 the_header s2 r) as [Hrw Hk Hf _ Hr];
    [simpl; lia|by apply not_placed|done|].
  pose proof (synced_keeps _ _ _ Hs1 Hrw Hk) as Hs2. assert (historyPages s2 = historyPages s) as Hp by (by destruct Hrw as (? & ? & ? & ->)).
  destruct r as [sz|e]; simpl in Hr.
  - exists s2, true. done.
  - exists (s2 <| poisoned := true |>), false. split_and!; [done| |done|done|by apply synced_poison]. intros Hno. by destruct Hr.
Qed.

(** A program answers on the store what it answers on the specification, with
    an oracle that tells which writes of the header failed. *)
Lemma exec_refines {A} (p : prog A) : raises_to currentEnvelopeVersion p → ∀ s d tx, synced s d → ∃ f s' d' tx' r,
  faults s' `suffix_of` faults s ∧ (faults s = [] → ∀ n, f n = true) ∧
  exec p tx s = (s', a ← r; Ok (tx', a)) ∧ (∀ cm, run (mkoracle f cm) p d tx = (d', tx', r)) ∧ synced s' d'.
Proof.
  induction p as [a|e|b k c IH|p IH|b c IH|b kind v c IH|c IH|c IH|rec p IH|c IH|n c IH]; intros Hp s d tx Hs; cbn [exec run].
  - exists (λ _, true), s, d, tx, (Ok a). done.
  - exists (λ _, true), s, d, tx, (Err e). done.
  - destruct (lookup_data_spec s d b k Hs) as (s1 & Hl & Hs1 & Hc). unfold mbind, ST_bind, attempt. rewrite Hl.
    set (got := match at_ d b k with None => _ | Some _ => _ end). destruct (IH got (Hp got) s1 d tx Hs1) as (f & s' & d' & tx' & r & H1 & H2 & H3 & H4 & H5).
    assert (faults s1 = faults s) as Hf by (by destruct Hc as (? & ? & ? & ->)). rewrite <-Hf. exists f, s', d', tx', r. done.
  - destruct (IH Hp _ _ tx (synced_poison s d Hs)) as (f & s' & d' & tx' & r & H1 & H2 & H3 & H4 & H5).
    exists f, s', d', tx', r. done.
  - st_run. rewrite (infos_synced s d b Hs). eauto.
  - st_run. rewrite (sync_ordered _ _ Hs b kind v), (infos_synced s d b Hs). eauto.
  - st_run. rewrite (sync_sequence _ _ Hs). eauto.
  - st_run. rewrite (sync_managed _ _ Hs). eauto.
  - by apply IH.
  - by apply IH.
  - destruct Hp as (Hn & _ & Hp). destruct (raise_version_spec s d n Hs Hn) as (s1 & ok & Hf & Hok & _ & Hr & Hs1).
    unfold mbind at 1, ST_bind at 1, attempt. rewrite Hr. destruct (Z.leb_spec n (db_version d)) as [Hle|Hlt]; simpl.
    + destruct (IH _ (Hp (Ok ())) s1 d tx Hs1) as (f & s' & d' & tx' & r & H1 & H2 & H3 & H4 & H5).
      exists f, s', d', tx', r. split_and!; [by etrans| |done..]. intros Hno. apply H2. destruct Hf as [l Hl]. rewrite Hno in Hl. by destruct l, (faults s1).
    + destruct (IH _ (Hp (if ok then Ok () else Err ErrStateUnavailable)) s1 _ tx Hs1) as (f & s' & d' & tx' & r & H1 & H2 & H3 & H4 & H5).
      exists (λ m, if m =? n then ok else f m), s', d', tx', r. split_and!; [by etrans| |by destruct ok| |done].
      * intros Hno m. destruct (m =? n); [by apply Hok|]. apply H2. destruct Hf as [l Hl]. rewrite Hno in Hl. by destruct l, (faults s1).
      * intros cm. cbn [ensure_ok]. rewrite Z.eqb_refl, <-(H4 cm). destruct ok; apply run_oracle; simpl; intros m Hm; by rewrite (proj2 (Z.eqb_neq m n)) by lia.
Qed.

(** * Checking a transaction *)

Lemma history_identity b b' k k' : historyBucket b = true → historyBucket b' = true →
  b +++ String NUL k = b' +++ String NUL k' ↔ b = b' ∧ k = k'.
Proof.
  assert (∀ b, historyBucket b = true → b = "events" ∨ b = "audit") as Hb.
  { intros c. unfold historyBucket. rewrite orb_true_iff, !bool_decide_eq_true. done. }
  intros [->| ->]%Hb [->| ->]%Hb; split; try (by intros [? ->]); intros Heq; by simplify_eq/=.
Qed.

Lemma check_records_refines s d tx : synced s d → check_records tx s = (s, _ ← records_ok d tx; Ok ()).
Proof.
  intros Hs. unfold check_records, records_ok. unfold mbind at 1, ST_bind at 1, gets.
  set (f := λ (seen : gset string) (r : record), _ : ST (gset string)). set (g := λ (seen : gset (string * string)) (r : record), _).
  assert (∀ (tx : list record) (seenS : gset string) (seenP : gset (string * string)),
    (∀ b k, historyBucket b = true → b +++ String NUL k ∈ seenS ↔ (b, k) ∈ seenP) →
    (_ ← each f seenS tx; mret ()) s = (s, _ ← foldM g seenP tx; Ok ())) as Hloop; [|by apply Hloop].
  assert (∀ r (seenS : gset string) (seenP : gset (string * string)),
    (∀ b k, historyBucket b = true → b +++ String NUL k ∈ seenS ↔ (b, k) ∈ seenP) →
    (∃ e, f seenS r s = (s, Err e) ∧ g seenP r = Err e) ∨
    (∃ S' P', f seenS r s = (s, Ok S') ∧ g seenP r = Ok P' ∧
       ∀ b k, historyBucket b = true → b +++ String NUL k ∈ S' ↔ (b, k) ∈ P')) as Hstep.
  { intros r seenS seenP Hseen. unfold f, g, record_refused. set (b := record_Bucket r). set (k := record_Key r).
    change (default ∅ (recs d !! b) !! k) with (at_ d b k).
    assert (bool_decide (is_Some (find s b k)) = bool_decide (is_Some (at_ d b k))) as Hfind by (by destruct (sync_records _ _ Hs b k)).
    destruct (_ || _); [by eauto|]. destruct (historyBucket b) eqn:Hb; [|by eauto 6].
    rewrite Hfind, (bool_decide_ext _ _ (Hseen b k Hb)). destruct (_ || _); [by eauto|]. right. eexists _, _. split_and!; [done..|].
    intros b' k' Hb'. rewrite !elem_of_union, !elem_of_singleton, history_identity, Hseen by done. naive_solver. }
  clear tx. clearbody f g. induction tx as [|r tx IH]; intros seenS seenP Hseen; [done|]. cbn [each foldM]. unfold mbind, ST_bind.
  destruct (Hstep r seenS seenP Hseen) as [(e & -> & ->)|(S' & P' & -> & -> & Hrel)]; [done|]. exact (IH S' P' Hrel).
Qed.

(** * Committing *)

(** A transaction that was published and applied. *)
Lemma commit_synced s d tx n s1 : synced s d → s_sequence s < MaxUint64 → tx_ok d tx →
  holds s (journal_name (s_sequence s + 1)) "transaction" (s_sequence s + 1) (mkdocument tx) →
  apply (mkdocument tx) (journal_name (s_sequence s + 1)) false s = (s1, Ok ()) →
  let s2 := (remember (journal_name (s_sequence s + 1)) (mkdocument tx) n s1).1 in
  synced (s2 <| s_sequence := s_sequence s + 1 |> <| journalCount := journalCount s2 + 1 |> <| journalBytes := journalBytes s2 + n |>)
         (commit_records d tx).
Proof.
  intros Hs Hmax Htx Hholds Happ s2. set (q := s_sequence s + 1) in *. set (name := journal_name q) in *.
  pose proof (sync_range _ _ Hs) as [[Hr1 Hr2] Hr3].
  destruct (apply_spec (λ x dd, stored_doc s x dd ∨ x = name ∧ dd = mkdocument tx) s (at_ d) (historyPages s) name (mkdocument tx) false s1)
    as (H1 & H2 & H3 & H4 & H5 & (ix & o & ph & H6)); [apply (sync_ordered _ _ Hs)| |by right|apply (sync_history _ _ Hs)|
    apply (sync_pending _ _ Hs)|apply (sync_identified _ _ Hs)| |done|].
  { intros b k. eapply option_Forall2_weaken; [|exact (sync_records _ _ Hs b k)]. intros ref x (dd & Hd & Hrr). exists dd. by split; [left|]. }
  { subst name. rewrite journal_no_history by lia. done. }
  destruct (remember_recached s1 name (mkdocument tx) n) as [(c & co & cb & Hc) Hcache]. fold s2 in Hc, Hcache.
  set (s3 := s2 <| s_sequence := q |> <| journalCount := _ |> <| journalBytes := _ |>).
  assert (∀ x dd, stored_doc s x dd ∨ x = name ∧ dd = mkdocument tx → stored_doc s3 x dd) as Hdoc.
  { intros x dd [(q' & [Hq0 Hp] & raw & v & Hd)|[-> ->]].
    - exists q'. split; [|exists raw, v; subst s3; rewrite Hc, H6; done]. split; [done|]. subst s3. rewrite Hc, H6. simpl.
      destruct Hp as [[-> ?]|?]; [left; split; [done|lia]|by right].
    - exists q. subst s3. rewrite Hc, H6. split; [|exact Hholds]. split; [lia|left; split; [done|simpl; lia]]. }
  assert (∀ b k, find s3 b k = find s1 b k) as Hfind by (intros b k; subst s3; by rewrite Hc).
  assert (∀ b, pending s3 b = pending s1 b) as Hpend by (intros b; subst s3; by rewrite Hc).
  assert (historyPages s3 = historyPages s1) as Hpages by (subst s3; by rewrite Hc).
  pose proof (sync_cache _ _ Hs) as Hcs. destruct Hs. split; try (subst s3; rewrite Hc, H6; done).
  - subst s3. simpl. unfold u64. rewrite <-sync_sequence, Z.mod_small; [done|]. unfold MaxUint64 in Hmax. lia.
  - subst s3. rewrite Hc, H6. simpl. lia.
  - intros b. unfold infos, index_of. subst s3. rewrite Hc. apply H5.
  - intros x e He. apply Hdoc. subst s3. simpl in He. destruct (Hcache x e He) as [He'|[-> <-]]; [left|by right].
    apply Hcs. rewrite H6 in He'. exact He'.
  - intros b k. rewrite Hfind, commit_records_at. eapply option_Forall2_weaken; [|exact (H1 b k)].
    intros ref x (dd & Hd & Hrr). exists dd. by split; [apply Hdoc|].
  - rewrite Hpages. replace (historyPages s1) with (historyPages s) by (by rewrite H6). intros b k ref Hb. rewrite Hfind, Hpend. by apply H2.
  - intros b k. rewrite Hfind, Hpend. apply H3.
  - intros b k. rewrite Hfind. apply H4.
Qed.

(** * Updates *)

(** The store represents the specification, or neither can be used. *)
Definition tracks s d : Prop := synced s d ∨ closed s || poisoned s = true ∧ unavailable d = true.

Lemma synced_after_write {A} `{Yaml A, !Faithful A} s d name kind seq (v : A) s' r : synced s d → (∀ q, ¬ placed s q name) →
  write name kind seq v s = (s', r) → synced s' d ∧ published name kind seq v s s' r.
Proof.
  intros Hs Hn Hw. pose proof (write_published s name kind seq v s' r (proj1 (sync_versions _ _ Hs)) Hn Hw) as Hp. split; [|done].
  eapply synced_keeps; [done|apply (pub_rewritten _ _ _ _ _ _ _ Hp)|apply (pub_keeps _ _ _ _ _ _ _ Hp)].
Qed.

(** Writing a transaction: its file, the head, the index, the cache. *)
Definition commit_tx (tx : list record) : ST () :=
  s ← gets (λ s, s);
  let seq := u64 (s_sequence s + 1) in
  let name := journal_name seq in
  let d := mkdocument tx in
  n ← or_poison as_unavailable (write name "transaction" seq d);
  _ ← or_poison as_unavailable (write "head.yaml" "head" seq ());
  _ ← or_poison (λ e, e) (apply d name false);
  _ ← remember name d n;
  _ ← modify (λ s, s <| s_sequence := seq |> <| journalCount := journalCount s + 1 |> <| journalBytes := journalBytes s + n |>);
  s ← gets (λ s, s);
  if (compactTransactions <=? journalCount s) || (compactBytes <=? journalBytes s) then or_poison as_unavailable compact else mret ().

Lemma commit_tx_spec s d tx s' r : synced s d → s_sequence s < MaxUint64 → readOnly s = false → tx_ok d tx →
  commit_tx tx s = (s', r) → ∃ c, (faults s = [] → c = Committed) ∧
  r = match c with Committed => Ok () | _ => Err ErrStateUnavailable end ∧
  match c with
  | Committed => synced s' (commit_records d tx)
  | NotCommitted => tracks s' (d <| unavailable := true |>)
  | CommittedThenFailed => tracks s' ((commit_records d tx) <| unavailable := true |>)
  end.
Proof.
  intros Hs Hmax Hro Htx. unfold commit_tx. st_run. pose proof (sync_range _ _ Hs) as Hr.
  assert (u64 (s_sequence s + 1) = s_sequence s + 1) as -> by (unfold u64; apply Z.mod_small; unfold MaxUint64 in *; lia).
  set (q := s_sequence s + 1). set (name := journal_name q).
  assert (∀ s e, tracks (s <| poisoned := true |>) (e <| unavailable := true |>)) as Hpoison by (intros; right; simpl; by rewrite orb_true_r).
  pose proof (next_journal_not_placed s) as Hnew. fold q name in Hnew.
  unfold or_poison at 1. st_run. destruct (write name "transaction" q (mkdocument tx) s) as [s1 r1] eqn:Hw1.
  destruct (synced_after_write (A := document) s d name _ _ _ _ _ Hs ltac:(intros; apply Hnew; lia) Hw1) as [Hs1 [Hrw1 Hk1 Hf1 Ho1 Hr1]].
  destruct r1 as [n|e]; [|intros [= <- <-]; exists NotCommitted; split_and!; [by intros Hno; destruct Hr1|done|apply Hpoison]].
  unfold or_poison at 1. st_run. destruct (write "head.yaml" "head" q () s1) as [s2 r2] eqn:Hw2.
  destruct (synced_after_write (A := ()) s1 d "head.yaml" _ _ _ _ _ Hs1 ltac:(by apply not_placed) Hw2) as [Hs2 [Hrw2 Hk2 Hf2 Ho2 Hr2]].
  assert (faults s = [] → faults s1 = []) as Hno1 by (intros Hno; destruct Hf1 as [l Hl]; rewrite Hno in Hl; by destruct l, (faults s1)).
  assert (faults s = [] → faults s2 = []) as Hno2 by (intros Hno; destruct Hf2 as [l Hl]; rewrite Hno1 in Hl by done; by destruct l, (faults s2)).
  destruct r2 as [m|e]; [|intros [= <- <-]; exists NotCommitted; split_and!; [by intros Hno; destruct Hr2; auto|done|apply Hpoison]].
  assert (s_sequence s2 = s_sequence s ∧ readOnly s2 = readOnly s) as [Hq2 Hro2]
    by (by destruct Hrw1 as (? & ? & ? & ->), Hrw2 as (? & ? & ? & ->)).
  assert (holds s2 name "transaction" q (mkdocument tx)) as Hh2.
  { destruct Hr1 as (raw & v & Hd & Hv). destruct Hrw2 as (? & ? & ? & ->). exists raw, v. rewrite Ho2; [done|]. by intros [=]. }
  unfold or_poison at 1. st_run. destruct (apply_records_ok name tx 0 s2) as [s3 Happ]; [apply (tx_identity _ _ Htx)|].
  change (apply (mkdocument tx) name false s2 = (s3, Ok ())) in Happ. rewrite Happ.
  pose proof (commit_synced s2 d tx n s3 Hs2 ltac:(lia) Htx) as Hs4. rewrite Hq2 in Hs4. fold q name in Hs4. specialize (Hs4 Hh2 Happ).
  change (remember name (mkdocument tx) n s3) with ((remember name (mkdocument tx) n s3).1, Ok ()). cbv beta iota zeta.
  cbv zeta in Hs4. set (s4 := (remember name (mkdocument tx) n s3).1) in *. set (s5 := s4 <| s_sequence := q |> <| journalCount := _ |> <| journalBytes := _ |>) in *.
  assert (faults s5 = faults s2 ∧ readOnly s5 = readOnly s) as [Hf5 Hro5].
  { destruct (remember_recached s3 name (mkdocument tx) n) as [(c & o & b & Hc) _]. fold s4 in Hc.
    pose proof (apply_reindexed (mkdocument tx) name false s2) as Hre. rewrite Happ in Hre. destruct Hre as (ix & od & ph & Hre). simpl in Hre.
    subst s5. rewrite Hc, Hre. simpl. by rewrite Hro2. }
  destruct (_ || _).
  - unfold or_poison. st_run. destruct (compact s5) as [s6 r6] eqn:Hcomp.
    destruct (compact_spec _ s5 s6 r6 (conj Hs4 (eq_trans Hro5 Hro)) Hcomp) as [_ Hr6].
    destruct r6 as [[]|e]; intros [= <- <-].
    + exists Committed. split_and!; done.
    + exists CommittedThenFailed. split_and!; [|done|apply Hpoison]. intros Hno. rewrite Hf5, Hno2 in Hr6 by done. done.
  - intros [= <- <-]. exists Committed. split_and!; done.
Qed.

Lemma update_eq {A} ctx (p : prog A) s : update ctx p s = (
  _ ← available ctx;
  s ← gets (λ s, s);
  _ ← stop_if (readOnly s) (errors_New "state is open read-only");
  r ← exec p [];
  let '(tx, a) := r in
  if bool_decide (length tx = 0%nat) then mret a else _ ← check_records tx; _ ← commit_tx tx; mret a) s.
Proof.
  unfold update, commit_tx, mbind, ST_bind, gets, stop_if, mret, ST_ret, modify.
  repeat (case_match; simplify_eq; try done).
Qed.

(** An oracle without faults. *)
Definition faultless (o : oracle) : Prop := commit o = Committed ∧ ∀ n, ensure_ok o n = true.

Lemma update_refines {A} ctx (p : prog A) s d s' r : tracks s d → raises_to currentEnvelopeVersion p → s_sequence s < MaxUint64 →
  update ctx p s = (s', r) → ∃ o d', (faults s = [] → faultless o) ∧ db_update o ctx p d = (d', r) ∧ tracks s' d'.
Proof.
  intros Ht Hp Hmax. rewrite update_eq. unfold available. st_run. unfold db_update, db_available.
  destruct ctx as [e|]; [intros [= <- <-]; by exists no_faults, d|].
  destruct Ht as [Hs|[Hc Hu]]; [|rewrite Hc, Hu; intros [= <- <-]; by exists no_faults, d; split_and!; [..|by right]].
  rewrite (sync_available _ _ Hs).
  destruct (unavailable d) eqn:Hu; [intros [= <- <-]; by exists no_faults, d; split_and!; [..|by left]|]. cbv beta iota. simpl fail_if.
  st_run. rewrite (sync_readOnly _ _ Hs). destruct (db_readOnly d) eqn:Hro; [intros [= <- <-]; by exists no_faults, d; split_and!; [..|by left]|].
  destruct (exec_refines p Hp s d [] Hs) as (f & s1 & d1 & tx & r1 & Hf & Hno & He & Hrun & Hs1). st_run. rewrite He.
  pose proof (run_same_data _ _ _ _ _ _ _ (Hrun Committed)) as (_ & Hseq & _ & Hro1 & _). cbv zeta.
  destruct r1 as [a|e]; cbn; [|intros [= <- <-]; exists (mkoracle f Committed), d1; rewrite Hrun; split_and!; [by split; [|auto]|done|by left]].
  case_bool_decide as Htx; [intros [= <- <-]; exists (mkoracle f Committed), d1; rewrite Hrun; split_and!; [by split; [|auto]| |by left];
    by rewrite bool_decide_true|].
  st_run. rewrite (check_records_refines s1 d1 tx Hs1). destruct (records_ok d1 tx) as [seen|e] eqn:Hok; cbn.
  2: { intros [= <- <-]. exists (mkoracle f Committed), d1. rewrite Hrun, Hok, bool_decide_false by done. split_and!; [by split; [|auto]|done|by left]. }
  destruct (commit_tx tx s1) as [s2 r2] eqn:Hcommit. destruct (commit_tx_spec s1 d1 tx s2 r2 Hs1) as (c & Hc & -> & Htr); [| | |done|].
  - rewrite (sync_sequence _ _ Hs1), Hseq, <-(sync_sequence _ _ Hs). done.
  - by rewrite (sync_readOnly _ _ Hs1), Hro1.
  - by eapply records_ok_spec.
  - assert (faults s = [] → c = Committed) as Hc' by (intros H0; apply Hc; destruct Hf as [l Hl]; rewrite H0 in Hl; by destruct l, (faults s1)).
    intros Hr. exists (mkoracle f c). rewrite Hrun, Hok, bool_decide_false by done. assert (s2 = s') as -> by (by destruct c; simplify_eq).
    destruct c; simplify_eq; (eexists; split_and!; [by split; [auto|auto]|done|]); [by left|exact Htr..].
Qed.

Lemma view_refines {A} ctx (p : prog A) s d s' r : tracks s d → raises_to currentEnvelopeVersion p →
  view ctx p s = (s', r) → ∃ o d', (faults s = [] → faultless o) ∧ db_view o ctx p d = (d', r) ∧ tracks s' d'.
Proof.
  intros Ht Hp. unfold view, available. st_run. unfold db_view, db_available.
  destruct ctx as [e|]; [intros [= <- <-]; by exists no_faults, d|].
  destruct Ht as [Hs|[Hc Hu]]; [|rewrite Hc, Hu; intros [= <- <-]; by exists no_faults, d; split_and!; [..|by right]].
  rewrite (sync_available _ _ Hs).
  destruct (unavailable d) eqn:Hu; [intros [= <- <-]; by exists no_faults, d; split_and!; [..|by left]|]. st_run. simpl fail_if.
  destruct (exec_refines p Hp s d [] Hs) as (f & s1 & d1 & tx & r1 & Hf & Hno & He & Hrun & Hs1). rewrite He.
  exists (mkoracle f Committed), d1. rewrite Hrun. split_and!; [by split; [|auto]| |left]; destruct r1; cbn in *; by simplify_eq.
Qed.

(** * Calls *)

(** An operation of the store, run on the files. *)
Definition call {A} (ctx : Context) (c : op A) : ST A :=
  match c with
  | Reply r => from r
  | Update p post => a ← update ctx p; from (post a)
  | View p post => a ← view ctx p; from (post a)
  | Configure p => a ← update ctx p; _ ← modify (λ s, s <| s_managed := true |>); mret a
  end.
Definition op_raises_to (top : Z) {A} (c : op A) : Prop :=
  match c with
  | Reply _ => True
  | Update p _ | View p _ => raises_to top p
  | Configure p => raises_to top p
  end.

Lemma call_refines {A} ctx (c : op A) s d s' r : tracks s d → op_raises_to currentEnvelopeVersion c → s_sequence s < MaxUint64 →
  call ctx c s = (s', r) → ∃ o d', (faults s = [] → faultless o) ∧ db_call o ctx c d = (d', r) ∧ tracks s' d'.
Proof.
  intros Ht Hp Hmax. destruct c as [r0|B p post|B p post|p]; simpl in *; st_run.
  - intros [= <- <-]. by exists no_faults, d.
  - destruct (update ctx p s) as [s1 r1] eqn:Hu. destruct (update_refines ctx p s d s1 r1 Ht Hp Hmax Hu) as (o & d' & Ho & Hd & Ht').
    intros Hr. exists o, d'. rewrite Hd. destruct r1; simplify_eq/=; done.
  - destruct (view ctx p s) as [s1 r1] eqn:Hu. destruct (view_refines ctx p s d s1 r1 Ht Hp Hu) as (o & d' & Ho & Hd & Ht').
    intros Hr. exists o, d'. rewrite Hd. destruct r1; simplify_eq/=; done.
  - destruct (update ctx p s) as [s1 r1] eqn:Hu. destruct (update_refines ctx p s d s1 r1 Ht Hp Hmax Hu) as (o & d' & Ho & Hd & Ht').
    intros Hr. exists o. rewrite Hd. destruct r1; simplify_eq/=; (eexists; split_and!; [done..|]); [|done].
    destruct Ht' as [Hs'|?]; [left|by right]. destruct Hs'. split; done.
Qed.
End Refine.
