(* ===== verification/StateImage.v ===== *)
(** What the files of a store mean: an [image] is the content of the header, the
    head, the manifest, the pages and the journal; [represents] says that the
    files of a directory have that content. [open] on such files gives a store
    that represents the records of the image. *)
From S2P Require Import Prelude GoLib Base64 Entities RbacTyped StateProg StateRecords StateProgFacts StateLaws.
From S2P Require Import StateStore StateIndex StateReach StateFiles StateSync StateCompact StateRefine.
From stdpp Require Import options.
#[local] Set Default Proof Using "All".
Local Open Scope Z_scope.

(** * Images *)

(** A page of history: the sequence and the number in its name, its records. *)
Record hpage := mkhpage { hp_seq : Z; hp_no : nat; hp_records : list record }.
Definition hp_name (p : hpage) : string := history_name (hp_seq p) (hp_no p).

Record image := mkimage {
  im_version : Z;
  im_head : Z;
  im_snapshot : Z;
  im_history : list hpage;
  im_pages : list (list record);
  im_journal : list (list record);
}.
#[global] Instance image_eta : Eta image := λ im,
  mkimage (im_version im) (im_head im) (im_snapshot im) (im_history im) (im_pages im) (im_journal im).

Definition im_sequence (im : image) : Z := im_snapshot im + Z.of_nat (length (im_journal im)).
(** The records of the snapshot, in the order they are read. *)
Definition snapshot_records (im : image) : list record := concat (hp_records <$> im_history im) ++ concat (im_pages im).
Definition image_records (im : image) : list record := snapshot_records im ++ concat (im_journal im).
Definition manifest_of (im : image) : manifest :=
  {| Pages := page_name (im_snapshot im) <$> seq 0 (length (im_pages im)); HistoryPages := hp_name <$> im_history im |}.

(** The specification of a store with the records of an image. *)
Definition image_db (im : image) (ro : bool) : db :=
  let d := mkdb (foldl commit_record ∅ (image_records im)) (im_sequence im) (im_version im) false ro false in
  d <| db_managed := negb (bool_decide (bucket_of d "configuration" = ∅)) |>.

Lemma foldl_commit_at m tx b k :
  (default ∅ (foldl commit_record m tx !! b) : gmap string stored) !! k = after_tx tx b k ((default ∅ (m !! b) : gmap string stored) !! k).
Proof.
  unfold after_tx. revert m. induction tx as [|r tx IH]; intros m; simpl; [done|]. by rewrite IH, commit_record_at.
Qed.
Lemma image_db_at im ro b k : at_ (image_db im ro) b k = after_tx (image_records im) b k None.
Proof. unfold at_, bucket_of, image_db. simpl. rewrite foldl_commit_at. by rewrite lookup_empty. Qed.

(** The names an image uses. *)
Inductive im_name (im : image) : string → Prop :=
| im_store : im_name im "store.yaml"
| im_headname : im_name im "head.yaml"
| im_manifest : im_name im "manifest.yaml"
| im_hist p : p ∈ im_history im → im_name im (hp_name p)
| im_page i : (i < length (im_pages im))%nat → im_name im (page_name (im_snapshot im) i)
| im_journalname i : (i < length (im_journal im))%nat → im_name im (journal_name (im_snapshot im + 1 + Z.of_nat i)).

Section Image.
Context {E : Aead} `{!AeadOk E} {R : Random} `{!RandomOk R}.
Context {YEnv : Yaml envelope} `{!Faithful envelope} {YDoc : Yaml document} `{!Faithful document}.
Context {YManifest : Yaml manifest} `{!Faithful manifest} {YHeader : Yaml header} `{!Faithful header} {YUnit : Yaml ()} `{!Faithful ()}.
Implicit Types (s : Store) (im : image) (files : gmap string file).

(** A file that holds a value, for a store at a version. *)
Definition in_file {A} `{Yaml A} files (version : Z) (sid name kind : string) (seq : Z) (v : A) : Prop :=
  ∃ raw version', files !! name = Some (mkfile true raw) ∧ 1 ≤ version' ≤ version ∧ sealed version' sid kind seq name v raw.
Lemma holds_in_file {A} `{Yaml A} s name kind seq (v : A) : holds s name kind seq v = in_file (disk s) (envelopeVersion s) (id s) name kind seq v.
Proof. reflexivity. Qed.

Record represents files (sid : string) im : Prop := {
  rep_id : sid ≠ "";
  rep_version : 1 ≤ im_version im ≤ currentEnvelopeVersion;
  rep_range : 0 ≤ im_snapshot im ∧ im_sequence im ≤ MaxUint64;
  rep_header : ∃ raw, files !! "store.yaml" = Some (mkfile true raw) ∧ sealed (im_version im) sid "header" 0 "store.yaml" the_header raw;
  rep_head : in_file files (im_version im) sid "head.yaml" "head" (im_head im) ();
  rep_head_range : 0 ≤ im_head im ≤ im_sequence im;
  rep_manifest : if decide (im_snapshot im = 0) then files !! "manifest.yaml" = None ∧ im_history im = [] ∧ im_pages im = []
                 else in_file files (im_version im) sid "manifest.yaml" "manifest" (im_snapshot im) (manifest_of im);
  rep_history : ∀ p, p ∈ im_history im → 0 ≤ hp_seq p ≤ im_snapshot im ∧
    in_file files (im_version im) sid (hp_name p) "snapshot" (hp_seq p) (mkdocument (hp_records p)) ∧
    ∀ r, r ∈ hp_records p → historyBucket (record_Bucket r) = true ∧ record_Delete r = false;
  rep_history_names : NoDup (hp_name <$> im_history im);
  rep_pages : ∀ i rs, im_pages im !! i = Some rs →
    in_file files (im_version im) sid (page_name (im_snapshot im) i) "snapshot" (im_snapshot im) (mkdocument rs) ∧
    ∀ r, r ∈ rs → historyBucket (record_Bucket r) = false;
  rep_journal : ∀ i rs, im_journal im !! i = Some rs →
    let q := im_snapshot im + 1 + Z.of_nat i in in_file files (im_version im) sid (journal_name q) "transaction" q (mkdocument rs);
  rep_entries : ∀ x, is_Some (files !! ("journal/" +++ x)) →
    HasPrefix x ".tmp-" = true ∨ ∃ q, 0 ≤ q ≤ im_sequence im ∧ x = pad_dec 20 q +++ ".yaml";
  rep_distinct : NoDup (identity <$> snapshot_records im);
  rep_identity : ∀ r, r ∈ image_records im → record_Bucket r ≠ "" ∧ record_Key r ≠ "";
  rep_appended : ∀ r, r ∈ concat (im_journal im) → historyBucket (record_Bucket r) = true →
    record_Delete r = false ∧ identity r ∉ identity <$> snapshot_records im;
  rep_legacy : ∀ name, name ∈ legacy_files → files !! name = None;
}.

(** Changes of files an image does not use keep it. *)
Lemma represents_frame files files' sid im : represents files sid im → (∀ name, im_name im name → files' !! name = files !! name) →
  (∀ x, is_Some (files' !! ("journal/" +++ x)) → is_Some (files !! ("journal/" +++ x))) →
  (∀ name, name ∈ legacy_files → files' !! name = files !! name) → represents files' sid im.
Proof.
  intros Hrep Hsame Hentries Hlegacy.
  assert (∀ A (Y : Yaml A) name kind seq (v : A), im_name im name → in_file files (im_version im) sid name kind seq v →
    in_file files' (im_version im) sid name kind seq v) as Hin.
  { intros A Y name kind seq v Hn (raw & v' & Hf & Hr). exists raw, v'. by rewrite Hsame. }
  pose proof Hrep as [H1 H2 H3 H4 H5 H6 H7 H8 H9 H10 H11 H12 H13 H14 H15 H16]. split; try done.
  - rewrite Hsame by constructor. done.
  - apply Hin; [constructor|done].
  - case_decide; [rewrite Hsame by constructor; done|]. apply Hin; [constructor|done].
  - intros p Hp. destruct (H8 p Hp) as (Ha & Hc & Hd). split_and!; [apply Ha|apply Ha| |done]. apply Hin; [by constructor|done].
  - intros i rs Hi. destruct (H10 i rs Hi) as [Ha Hb]. split; [|done]. apply Hin; [|done]. constructor. by eapply lookup_lt_Some.
  - intros i rs Hi q. apply Hin; [|by apply H11]. constructor. by eapply lookup_lt_Some.
  - auto.
  - intros name Hn. rewrite Hlegacy by done. auto.
Qed.

(** The memory of a store in use and the image of its files. *)
Record persists s im : Prop := {
  per_represents : represents (disk s) (id s) im;
  per_version : im_version im = envelopeVersion s;
  per_snapshot : im_snapshot im = snapshotSequence s;
  per_sequence : im_sequence im = s_sequence s;
  per_history : hp_name <$> im_history im = historyPages s;
  per_fresh : ∀ b k, k ∈ pending s b → (b, k) ∉ identity <$> snapshot_records im;
}.
(** The records of an image. *)
Definition image_at im (b k : string) : option stored := after_tx (image_records im) b k None.
(** The store represents the records [d], and so do its files. *)
Record durable s d im : Prop := {
  dur_synced : synced s d;
  dur_persists : persists s im;
  dur_records : ∀ b k, at_ d b k = image_at im b k;
}.
(** Pages of history have numbers of six digits. *)
Definition numbered im : Prop := ∀ p, p ∈ im_history im → Z.of_nat (hp_no p) < 10 ^ 6.

(** The head names another transaction. *)
Lemma represents_head files files' sid im h : represents files sid im → 0 ≤ h ≤ im_sequence im →
  in_file files' (im_version im) sid "head.yaml" "head" h () → (∀ name, name ≠ "head.yaml" → files' !! name = files !! name) →
  represents files' sid (im <| im_head := h |>).
Proof.
  intros Hrep Hh Hf Hsame.
  assert (∀ A (Y : Yaml A) name kind seq (v : A), name ≠ "head.yaml" → in_file files (im_version im) sid name kind seq v →
    in_file files' (im_version im) sid name kind seq v) as Hin.
  { intros A Y name kind seq v Hn (raw & v' & Hx & Hr). exists raw, v'. by rewrite Hsame. }
  pose proof Hrep as [H1 H2 H3 H4 H5 H6 H7 H8 H9 H10 H11 H12 H13 H14 H15 H16]. split; try done; simpl in *.
  - by rewrite Hsame.
  - case_decide; [by rewrite Hsame|]. by apply Hin.
  - intros p Hp. destruct (H8 p Hp) as (Ha & Hc & Hd). split_and!; [apply Ha|apply Ha| |done]. by apply Hin.
  - intros i rs Hi. destruct (H10 i rs Hi) as [Ha Hb]. split; [|done]. by apply Hin.
  - intros i rs Hi. apply Hin; [done|]. by apply H11.
  - intros x [f Hx]. apply H12. rewrite Hsame in Hx by done. eauto.
  - intros name Hn. rewrite Hsame; [by apply H16|]. intros ->. by repeat (apply elem_of_cons in Hn as [Hn|Hn]; [discriminate Hn|]); apply elem_of_nil in Hn.
Qed.
End Image.
