(* ===== verification/StateOpen.v ===== *)
(** Opening: [open] on files that represent an image reads the manifest, the
    pages and the journal, and gives a store that represents the records of the
    image. *)
From S2P Require Import Prelude GoLib Base64 RbacTyped Entities StateProg StateRecords StateProgFacts StateLaws StateStore StateIndex StateReach.
From S2P Require Import StateFiles StateSync StateCompact StateRefine StateImage.
From stdpp Require Import options.
#[local] Set Default Proof Using "All".
Local Open Scope Z_scope.

(** * Computations that succeed *)

Definition runs {A} (P : Store → Prop) (m : ST A) (Q : A → Store → Prop) : Prop :=
  ∀ s, P s → ∃ s' a, m s = (s', Ok a) ∧ Q a s'.

Section Runs.
Implicit Types (s : Store) (P : Store → Prop).
Lemma runs_ret {A} P (a : A) Q : (∀ s, P s → Q a s) → runs P (mret a) Q.
Proof. intros HQ s Hs. exists s, a. auto. Qed.
Lemma runs_bind {A B} P (m : ST A) (f : A → ST B) Q Q' : runs P m Q → (∀ a, runs (Q a) (f a) Q') → runs P (m ≫= f) Q'.
Proof. intros Hm Hf s Hs. unfold mbind, ST_bind. destruct (Hm s Hs) as (s1 & a & -> & Ha). by apply Hf. Qed.
Lemma runs_get {B} P (f : Store → ST B) Q : (∀ s, P s → runs (λ s', s' = s) (f s) Q) → runs P (gets (λ s, s) ≫= f) Q.
Proof. intros Hf s Hs. unfold mbind, ST_bind, gets. by apply (Hf s Hs). Qed.
Lemma runs_modify P f Q : (∀ s, P s → Q () (f s)) → runs P (modify f) Q.
Proof. intros HQ s Hs. exists (f s), (). auto. Qed.
Lemma runs_stop_if P c e : c = false → runs P (stop_if c e) (λ _, P).
Proof. intros ->. by apply runs_ret. Qed.
Lemma runs_weaken {A} P P' (m : ST A) Q Q' : runs P m Q → (∀ s, P' s → P s) → (∀ a s, Q a s → Q' a s) → runs P' m Q'.
Proof. intros Hm HP HQ s Hs. destruct (Hm s (HP s Hs)) as (s' & a & H1 & H2). eauto. Qed.
Lemma runs_pure {A} (φ : Prop) P (m : ST A) Q : (φ → runs P m Q) → runs (λ s, φ ∧ P s) m Q.
Proof. intros Hm s [Hφ Hs]. by apply Hm. Qed.
Lemma runs_assoc {A B C} P (m : ST A) (f : A → ST B) (g : B → ST C) Q : runs P ((m ≫= f) ≫= g) Q → runs P (m ≫= λ a, f a ≫= g) Q.
Proof. intros H s Hs. rewrite <-ST_bind_assoc. by apply H. Qed.
Lemma runs_each {A B} (I : list A → B → Store → Prop) (f : B → A → ST B) l b :
  (∀ pre x post b, l = pre ++ x :: post → runs (I pre b) (f b x) (I (pre ++ [x]))) → runs (I [] b) (each f b l) (I l).
Proof.
  intros Hf. cut (∀ post pre b, l = pre ++ post → runs (I pre b) (each f b post) (I l)); [intros H; by apply (H l [])|].
  induction post as [|x post IH]; intros pre b' Hl; simpl.
  - rewrite app_nil_r in Hl. subst. by apply runs_ret.
  - eapply runs_bind; [by apply (Hf pre x post)|]. intros b2. apply IH. by rewrite <-app_assoc.
Qed.
End Runs.

(** A page of a snapshot is applied when its records are new. *)
Lemma apply_snapshot_ok name rs n s : ordered_ok s → (∀ r, r ∈ rs → record_Bucket r ≠ "" ∧ record_Key r ≠ "") →
  NoDup (identity <$> rs) → (∀ r, r ∈ rs → find s (record_Bucket r) (record_Key r) = None) →
  ∃ s', apply_records name true n rs s = (s', Ok ()).
Proof.
  revert n s. induction rs as [|r rs IH]; intros n s Hok Hid Hnd Hnew; [by exists s|]. cbn [apply_records]. unfold mbind, ST_bind.
  destruct (apply_record name true n r s) as [s1 r1] eqn:Hr. destruct (Hid r) as [Hb Hk]; [left|].
  assert (r1 = Ok ()) as ->.
  { rewrite apply_record_eq in Hr. cbv zeta in Hr. rewrite !bool_decide_false in Hr by done.
    assert (find (open_bucket (record_Bucket r) s) (record_Bucket r) (record_Key r) = None) as Hf.
    { unfold find. rewrite open_bucket_index. apply Hnew. left. }
    rewrite Hf in Hr. by simplify_eq/=. }
  destruct (apply_record_spec _ _ _ _ _ _ Hok Hr) as [Ha _]. apply NoDup_cons in Hnd as [Hr1 Hnd]. apply IH; [apply (applied_ordered _ _ _ _ _ Ha)| |done|].
  - intros r' Hr'. apply Hid. by right.
  - intros r' Hr'. rewrite (applied_find _ _ _ _ _ Ha), decide_False; [apply Hnew; by right|]. intros [E1 E2].
    apply Hr1. apply list_elem_of_fmap. exists r'. unfold identity. by rewrite E1, E2.
Qed.

(** What is not written is not there. *)
Lemma after_tx_none out b k : (b, k) ∉ identity <$> out → after_tx out b k None = None.
Proof.
  intros Hn. apply after_tx_other. intros r Hr [<- <-]. apply Hn. by apply (list_elem_of_fmap_2 identity).
Qed.

(** * The entries of a directory *)

Lemma read_dir_spec s dir : NoDup (read_dir s dir) ∧ StronglySorted String.le (read_dir s dir) ∧
  ∀ x, x ∈ read_dir s dir ↔ is_Some (disk s !! (dir +++ "/" +++ x)).
Proof.
  unfold read_dir. set (l := omap _ _). assert (∀ x, x ∈ l ↔ is_Some (disk s !! (dir +++ "/" +++ x))) as Hin.
  { intros x. subst l. rewrite list_elem_of_omap. split.
    - intros ([name f] & Hf%elem_of_map_to_list & Hx). simpl in Hx. apply StripPrefix_Some in Hx. rewrite append_assoc in Hx. rewrite <-Hx. eauto.
    - intros [f Hf]. exists (dir +++ "/" +++ x, f). split; [by apply elem_of_map_to_list|]. simpl. apply StripPrefix_Some. by rewrite append_assoc. }
  split_and!.
  - rewrite merge_sort_Permutation. subst l. clear Hin. pose proof (NoDup_fst_map_to_list (disk s)) as Hnd. revert Hnd.
    induction (map_to_list (disk s)) as [|[name f] l IH]; simpl; [by intros; constructor|]. intros [Hn Hnd]%NoDup_cons.
    destruct (StripPrefix (dir +++ "/") name) as [x|] eqn:Hx; [|by apply IH]. constructor; [|by apply IH].
    intros ([name' f'] & Hf & Hx')%list_elem_of_omap. simpl in Hx'. apply StripPrefix_Some in Hx, Hx'. apply Hn. subst.
    by apply (list_elem_of_fmap_2 fst _ (_, f')).
  - apply Sorted_StronglySorted; [apply _|]. apply Sorted_merge_sort, _.
  - intros x. by rewrite merge_sort_Permutation.
Qed.

Section Open.
Context {E : Aead} `{!AeadOk E} {R : Random} `{!RandomOk R}.
Context {YEnv : Yaml envelope} `{!Faithful envelope} {YDoc : Yaml document} `{!Faithful document}.
Context {YManifest : Yaml manifest} `{!Faithful manifest} {YHeader : Yaml header} `{!Faithful header} {YUnit : Yaml ()} `{!Faithful ()}.
Context (files : gmap string file) (sid : string) (im : image) (ro : bool) (Hrep : represents files sid im) (Hnum : numbered im).
Implicit Types (s : Store).

(** * The invariant *)

(** The documents of the image. *)
Definition im_doc (name : string) (doc : document) : Prop :=
  ∃ q, (0 ≤ q ∧ (name = journal_name q ∧ q ≤ im_sequence im ∨ (∃ n, name = page_name q n ∨ name = history_name q n) ∧ q ≤ im_snapshot im)) ∧
    in_file files (im_version im) sid name (doc_kind name) q doc.

(** The store has the records [out], with the pages of history [pages]. *)
Record opening (out : list record) s : Prop := {
  op_disk : disk s = files;
  op_faults : faults s = [];
  op_id : id s = sid;
  op_version : envelopeVersion s = im_version im;
  op_cache : cache s = ∅;
  op_available : closed s || poisoned s = false;
  op_readOnly : readOnly s = ro;
  op_ordered : ordered_ok s;
  op_records : indexes im_doc s (λ b k, after_tx out b k None);
  op_history : history_placed (hp_name <$> im_history im) s;
  op_pending : pending_found s;
  op_identified : identified s;
  op_fresh : ∀ b k, k ∈ pending s b → (b, k) ∉ identity <$> snapshot_records im;
}.

Lemma opening_read {A} `{Yaml A, !Faithful A} out s name kind seq want (v : A) : opening out s → kind ≠ "header" →
  in_file files (im_version im) sid name kind seq v → want = seq ∨ want = any_sequence → read A name kind want s = (s, Ok (seq, v)).
Proof.
  intros Ho Hk Hf Hw. destruct (rep_version _ _ _ Hrep). apply read_holds; [rewrite (op_id _ _ Ho); apply (rep_id _ _ _ Hrep)| |done| |done].
  - rewrite (op_version _ _ Ho). done.
  - rewrite holds_in_file, (op_disk _ _ Ho), (op_version _ _ Ho), (op_id _ _ Ho). done.
Qed.

Lemma opening_apply out s name doc snapshot s' : opening out s → im_doc name doc →
  (Contains name "-history-" = true → name ∈ hp_name <$> im_history im) →
  (Contains name "-history-" = false → ∀ r, r ∈ Records doc → historyBucket (record_Bucket r) = true → identity r ∉ identity <$> snapshot_records im) →
  apply doc name snapshot s = (s', Ok ()) → opening (out ++ Records doc) s' ∧ reindexed s s'.
Proof.
  intros Ho Hd Hn Hnew Ha. destruct (apply_spec im_doc s _ (hp_name <$> im_history im) name doc snapshot s'
    (op_ordered _ _ Ho) (op_records _ _ Ho) Hd (op_history _ _ Ho) (op_pending _ _ Ho) (op_identified _ _ Ho) Hn Ha)
    as (H1 & H2 & H3 & H4 & H5 & H6). split; [|done]. destruct H6 as (ix & o & ph & Hs'). destruct Ho.
  split; try (rewrite Hs'; done); try done.
  - intros b k. unfold after_tx. rewrite foldl_app. apply H1.
  - intros b k Hk. destruct (apply_pending _ _ _ _ _ op_ordered0 Ha b k Hk) as [?|(Hc & Hb & r & Hr & [<- <-])]; [auto|]. by apply Hnew.
Qed.

(** The loops keep the sequences and the pages. *)
Definition at_sequence (q snap : Z) (pages : list string) s : Prop :=
  s_sequence s = q ∧ snapshotSequence s = snap ∧ historyPages s = pages.
Lemma at_sequence_reindexed q snap pages s s' : reindexed s s' → at_sequence q snap pages s → at_sequence q snap pages s'.
Proof. intros (ix & o & ph & ->). done. Qed.

(** Applying a page of the snapshot. *)
Lemma opening_page out s name rs rest : opening out s → im_doc name (mkdocument rs) →
  (Contains name "-history-" = true → name ∈ hp_name <$> im_history im) →
  (Contains name "-history-" = false → ∀ r, r ∈ rs → historyBucket (record_Bucket r) = false) → snapshot_records im = out ++ rs ++ rest →
  ∃ s', apply (mkdocument rs) name true s = (s', Ok ()) ∧ opening (out ++ rs) s' ∧ reindexed s s'.
Proof.
  intros Ho Hd Hn Hpage Hsnap. pose proof (rep_distinct _ _ _ Hrep) as Hnd. rewrite Hsnap, !fmap_app in Hnd.
  apply NoDup_app in Hnd as (_ & Hdisj & (Hnd & _ & _)%NoDup_app).
  assert (∀ r, r ∈ rs → r ∈ image_records im) as Hin by (intros r Hr; unfold image_records; rewrite Hsnap; set_solver).
  destruct (apply_snapshot_ok name rs 0 s (op_ordered _ _ Ho)) as [s' Ha]; [|done| |].
  - intros r Hr. by apply (rep_identity _ _ _ Hrep), Hin.
  - intros r Hr. pose proof (op_records _ _ Ho (record_Bucket r) (record_Key r)) as Hf. cbv beta in Hf. rewrite after_tx_none in Hf; [by inversion Hf|].
    intros Hx. apply (Hdisj _ Hx). rewrite elem_of_app. left. by apply (list_elem_of_fmap_2 identity).
  - exists s'. destruct (opening_apply out s name (mkdocument rs) true s' Ho Hd Hn) as [??]; [|done..].
    intros Hc r Hr Hb. by rewrite (Hpage Hc r Hr) in Hb.
Qed.

(** * The manifest *)

Definition hist_records (n : nat) : list record := concat (hp_records <$> take n (im_history im)).
Lemma hist_records_S n p : im_history im !! n = Some p → hist_records (S n) = hist_records n ++ hp_records p.
Proof. intros Hn. unfold hist_records. rewrite (take_S_r _ _ _ Hn), fmap_app, concat_app. simpl. by rewrite app_nil_r. Qed.
Lemma page_records_S n (rs : list record) : im_pages im !! n = Some rs → concat (take (S n) (im_pages im)) = concat (take n (im_pages im)) ++ rs.
Proof. intros Hn. rewrite (take_S_r _ _ _ Hn), concat_app. simpl. by rewrite app_nil_r. Qed.

Lemma hpage_doc p : p ∈ im_history im → im_doc (hp_name p) (mkdocument (hp_records p)).
Proof.
  intros Hp. destruct (rep_history _ _ _ Hrep p Hp) as (Hq & Hf & _). exists (hp_seq p). split.
  - split; [lia|]. right. split; [|lia]. exists (hp_no p). by right.
  - unfold hp_name. rewrite doc_kind_history. exact Hf.
Qed.
Lemma page_doc i rs : im_pages im !! i = Some rs → im_doc (page_name (im_snapshot im) i) (mkdocument rs).
Proof.
  intros Hi. destruct (rep_pages _ _ _ Hrep i rs Hi) as [Hf _]. destruct (rep_range _ _ _ Hrep). exists (im_snapshot im). split.
  - split; [done|]. right. split; [|lia]. exists i. by left.
  - rewrite doc_kind_page. exact Hf.
Qed.
Lemma journal_doc i rs : im_journal im !! i = Some rs → im_doc (journal_name (im_snapshot im + 1 + Z.of_nat i)) (mkdocument rs).
Proof.
  intros Hi. pose proof (rep_journal _ _ _ Hrep i rs Hi) as Hf. destruct (rep_range _ _ _ Hrep). eexists. split; [|exact Hf].
  split; [lia|]. left. split; [done|]. apply lookup_lt_Some in Hi. unfold im_sequence. lia.
Qed.

Lemma snapshot_split_history n p : im_history im !! n = Some p → ∃ rest, snapshot_records im = hist_records n ++ hp_records p ++ rest.
Proof.
  intros Hn. exists (concat (hp_records <$> drop (S n) (im_history im)) ++ concat (im_pages im)). unfold snapshot_records, hist_records.
  rewrite <-(take_drop_middle _ _ _ Hn) at 1. rewrite fmap_app, concat_app. simpl. by rewrite <-!app_assoc.
Qed.
Lemma snapshot_split_page n rs : im_pages im !! n = Some rs → ∃ rest, snapshot_records im =
  (hist_records (length (im_history im)) ++ concat (take n (im_pages im))) ++ rs ++ rest.
Proof.
  intros Hn. exists (concat (drop (S n) (im_pages im))). unfold snapshot_records, hist_records. rewrite firstn_all.
  rewrite <-(take_drop_middle _ _ _ Hn) at 1. rewrite concat_app. simpl. by rewrite <-!app_assoc.
Qed.

Lemma im_snapshot_range : 0 ≤ im_snapshot im ≤ im_sequence im ∧ im_sequence im ≤ MaxUint64.
Proof. destruct (rep_range _ _ _ Hrep). unfold im_sequence in *. lia. Qed.

Lemma open_history_runs : let snap := im_snapshot im in
  runs (λ s, opening [] s ∧ at_sequence snap snap [] s) (each (open_history snap) ∅ (hp_name <$> im_history im))
       (λ _ s, opening (hist_records (length (im_history im))) s ∧ at_sequence snap snap [] s).
Proof.
  intros snap. eapply runs_weaken; [apply (runs_each (λ pre (seen : gset string) s, (∀ name, name ∈ seen ↔ name ∈ pre) ∧
    opening (hist_records (length pre)) s ∧ at_sequence snap snap [] s))| |].
  - intros pre x post seen Hl s (Hseen & Ho & Hq).
    assert (∃ p, x = hp_name p ∧ im_history im !! length pre = Some p) as (p & -> & Hp).
    { apply list_lookup_fmap_Some. rewrite Hl. by apply list_lookup_middle. }
    pose proof (list_elem_of_lookup_2 _ _ _ Hp) as Hin. destruct (rep_history _ _ _ Hrep p Hin) as (Hpq & Hf & Hrecs). pose proof (Hnum p Hin) as Hno. pose proof im_snapshot_range as Hr.
    assert (hp_name p ∉ seen) as Hns.
    { rewrite Hseen. intros Hx. pose proof (rep_history_names _ _ _ Hrep) as Hnd. rewrite Hl in Hnd. apply NoDup_app in Hnd as (_ & Hd & _).
      apply (Hd _ Hx). left. }
    unfold open_history. unfold hp_name at 1. rewrite historyPageIdentity_name by lia.
    rewrite (proj2 (Z.ltb_ge snap (hp_seq p))) by lia. rewrite bool_decide_false by done. cbn [orb].
    destruct (snapshot_split_history _ _ Hp) as (rest & Hsplit).
    destruct (opening_page _ s (hp_name p) (hp_records p) rest Ho (hpage_doc p Hin) ltac:(intros _; by apply list_elem_of_fmap_2)
      ltac:(unfold hp_name; by rewrite history_is_history) Hsplit)
      as (s' & Ha & Ho' & Hre).
    exists s', ({[hp_name p]} ∪ seen). unfold mbind, ST_bind.
    rewrite (opening_read (A := document) _ s _ "snapshot" _ (hp_seq p) _ Ho ltac:(done) Hf (or_introl eq_refl)). cbn [snd Records].
    rewrite (proj2 (existsb_false_elem _ _)); [|intros r Hr'; by destruct (Hrecs r Hr') as [-> ->]]. rewrite Ha. split_and!; [done| | |].
    + intros name. rewrite elem_of_union, elem_of_singleton, Hseen, elem_of_app, list_elem_of_singleton. tauto.
    + rewrite length_app. simpl. rewrite Nat.add_1_r, (hist_records_S _ _ Hp). done.
    + by eapply at_sequence_reindexed.
  - intros s [Ho Hq]. split_and!; [|done..]. intros name. rewrite elem_of_nil. set_solver.
  - intros seen s (_ & Ho & Hq). rewrite length_fmap in Ho. done.
Qed.

Lemma open_pages_runs : let snap := im_snapshot im in let names := hp_name <$> im_history im in
  runs (λ s, opening (hist_records (length (im_history im))) s ∧ at_sequence snap snap names s)
       (each (open_page snap) 0%nat (page_name snap <$> seq 0 (length (im_pages im))))
       (λ _ s, opening (snapshot_records im) s ∧ at_sequence snap snap names s).
Proof.
  intros snap names. eapply runs_weaken; [apply (runs_each (λ pre i s, i = length pre ∧
    opening (hist_records (length (im_history im)) ++ concat (take (length pre) (im_pages im))) s ∧ at_sequence snap snap names s))| |].
  - intros pre x post i Hl s (-> & Ho & Hq).
    assert (x = page_name snap (length pre) ∧ (length pre < length (im_pages im))%nat) as [-> Hlt].
    { assert ((page_name snap <$> seq 0 (length (im_pages im))) !! length pre = Some x) as Hx by (rewrite Hl; by apply list_lookup_middle).
      apply list_lookup_fmap_Some in Hx as (j & -> & Hj). apply lookup_seq in Hj as [-> Hj]. done. }
    destruct (lookup_lt_is_Some_2 _ _ Hlt) as [rs Hrs]. destruct (rep_pages _ _ _ Hrep _ rs Hrs) as [Hf Hnon]. pose proof im_snapshot_range as Hr. fold snap in Hf.
    destruct (snapshot_split_page _ _ Hrs) as (rest & Hsplit).
    assert (Contains (page_name snap (length pre)) "-history-" = true → page_name snap (length pre) ∈ names) as Hnh.
    { rewrite page_no_history; [done|]. lia. }
    destruct (opening_page _ s (page_name snap (length pre)) rs rest Ho (page_doc _ _ Hrs) Hnh (λ _, Hnon) Hsplit) as (s' & Ha & Ho' & Hre).
    exists s', (S (length pre)). unfold open_page. rewrite bool_decide_true by done. cbn [negb]. unfold mbind, ST_bind.
    rewrite (opening_read (A := document) _ s _ "snapshot" _ snap _ Ho ltac:(done) Hf (or_introl eq_refl)). cbn [snd]. rewrite Ha.
    rewrite length_app, Nat.add_1_r, (page_records_S _ _ Hrs), app_assoc. split_and!; [done..|by eapply at_sequence_reindexed].
  - intros s [Ho Hq]. simpl. by rewrite app_nil_r.
  - intros i s (_ & Ho & Hq). rewrite length_fmap, length_seq, firstn_all in Ho. unfold hist_records in Ho. rewrite firstn_all in Ho. done.
Qed.

Lemma open_manifest_runs : runs (λ s, opening [] s ∧ at_sequence 0 0 [] s) open_manifest
  (λ _ s, opening (snapshot_records im) s ∧ at_sequence (im_snapshot im) (im_snapshot im) (hp_name <$> im_history im) s).
Proof.
  unfold open_manifest. apply runs_get. intros s [Ho Hq]. rewrite (op_disk _ _ Ho). pose proof (rep_manifest _ _ _ Hrep) as Hm. case_decide as Hsnap.
  - destruct Hm as (-> & Hh & Hp). unfold snapshot_records. rewrite Hh, Hp, Hsnap. apply runs_ret. by intros s' ->.
  - assert (∃ f, files !! "manifest.yaml" = Some f) as [f Hf] by (destruct Hm as (raw & v & Hf & _); eauto). rewrite Hf.
    apply (runs_bind _ _ _ (λ m s', m = (im_snapshot im, manifest_of im) ∧ s' = s)).
    { intros s' ->. exists s, (im_snapshot im, manifest_of im). split; [|done]. eapply opening_read; [exact Ho|done|exact Hm|by right]. }
    intros m. apply runs_pure. intros ->. cbv beta iota.
    eapply (runs_bind (λ s', s' = s) _ _ (λ _ s', opening [] s' ∧ at_sequence (im_snapshot im) (im_snapshot im) [] s')).
    { apply runs_modify. intros s' ->. destruct Hq as (_ & _ & Hq). split; [destruct Ho; split; done|done]. }
    intros _. eapply runs_bind; [exact open_history_runs|]. intros seen. cbv beta.
    eapply (runs_bind _ _ _ (λ _ s', opening (hist_records (length (im_history im))) s' ∧
      at_sequence (im_snapshot im) (im_snapshot im) (hp_name <$> im_history im) s')).
    { apply runs_modify. intros s' [Ho' (H1 & H2 & _)]. split; [destruct Ho'; split; done|done]. }
    intros _. eapply runs_bind; [exact open_pages_runs|]. intros i. by apply runs_ret.
Qed.

(** * The journal *)

Definition entry_of (q : Z) : string := pad_dec 20 q +++ ".yaml".
Lemma entry_of_inj q q' : 0 ≤ q → 0 ≤ q' → entry_of q = entry_of q' → q = q'.
Proof. intros Hq Hq' H. apply (f_equal (λ x, TrimSuffix x ".yaml")) in H. unfold entry_of in H. rewrite !TrimSuffix_app in H. by eapply pad_dec_inj. Qed.
Lemma entry_not_tmp q : 0 ≤ q → HasPrefix (entry_of q) ".tmp-" = false.
Proof.
  intros Hq. apply not_true_is_false. intros Hp. unfold HasPrefix in Hp. bool_to_prop. destruct Hp as [t Ht]. apply StripPrefix_Some in Ht.
  assert ("."%char ∈ bytes (pad_dec 20 q)) as Hin; [|revert Hin; by apply no_digit].
  unfold entry_of in Ht. destruct (pad_dec 20 q) as [|c x]; [by injection Ht|]. rewrite append_cons in Ht. injection Ht as -> _. left.
Qed.
Lemma entry_of_le q q' : 0 ≤ q ≤ MaxUint64 → 0 ≤ q' ≤ MaxUint64 → String.le (entry_of q) (entry_of q') → q ≤ q'.
Proof. intros Hq Hq'. apply pad_dec_le; unfold MaxUint64 in *; lia. Qed.

(** The sequence and the records after the first transactions of the journal. *)
Definition replayed (k : nat) s : Prop :=
  (k ≤ length (im_journal im))%nat ∧ opening (snapshot_records im ++ concat (take k (im_journal im))) s ∧
  at_sequence (im_snapshot im + Z.of_nat k) (im_snapshot im) (hp_name <$> im_history im) s.

(** An entry of the journal that was not read before. *)
Lemma open_entry_skips k q : 0 ≤ q ≤ im_snapshot im → runs (replayed k) (open_entry (entry_of q)) (λ _, replayed k).
Proof.
  intros Hq s Hs. exists s, (). split; [|done]. destruct Hs as (_ & _ & (_ & Hsnap & _)). pose proof im_snapshot_range as Hr. unfold open_entry.
  rewrite entry_not_tmp by lia. unfold entry_of at 1. rewrite TrimSuffix_app, ParseUint_pad_dec by lia. fold (entry_of q).
  rewrite bool_decide_true by done. cbn [negb]. st_run. rewrite Hsnap, (proj2 (Z.leb_le q _)) by lia. done.
Qed.
Lemma open_entry_next k : (k < length (im_journal im))%nat →
  runs (replayed k) (open_entry (entry_of (im_snapshot im + Z.of_nat (S k)))) (λ _, replayed (S k)).
Proof.
  intros Hk s (_ & Ho & Hq & Hsnap & Hpages). pose proof im_snapshot_range as Hr. set (q := im_snapshot im + Z.of_nat (S k)).
  assert (0 ≤ q ≤ im_sequence im) as Hqr by (subst q; unfold im_sequence; lia). unfold open_entry.
  rewrite entry_not_tmp by lia. unfold entry_of at 1. rewrite TrimSuffix_app, ParseUint_pad_dec by lia. fold (entry_of q).
  rewrite bool_decide_true by done. cbn [negb]. st_run. rewrite Hsnap, (proj2 (Z.leb_gt q _)) by (subst q; lia). cbn [negb].
  assert (u64 (s_sequence s + 1) = q) as ->.
  { rewrite Hq. unfold u64. rewrite Z.mod_small; [subst q; lia|]. unfold MaxUint64 in Hr. subst q. lia. }
  rewrite bool_decide_true by done. cbn [negb]. destruct (lookup_lt_is_Some_2 _ _ Hk) as [rs Hrs].
  replace q with (im_snapshot im + 1 + Z.of_nat k) by (subst q; lia). clear Hqr. clear q. set (q := im_snapshot im + 1 + Z.of_nat k).
  pose proof (rep_journal _ _ _ Hrep _ _ Hrs) as Hf. cbv zeta in Hf. fold q in Hf.
  change ("journal/" +++ entry_of q) with (journal_name q).
  rewrite (opening_read (A := document) _ s _ "transaction" _ q _ Ho ltac:(done) Hf (or_introl eq_refl)). cbn [snd].
  destruct (apply_records_ok (journal_name q) rs 0 s) as [s1 Ha].
  { intros r Hr'. apply (rep_identity _ _ _ Hrep). unfold image_records. rewrite elem_of_app. right.
    rewrite <-(take_drop_middle _ _ _ Hrs), concat_app. simpl. set_solver. }
  change (apply (mkdocument rs) (journal_name q) false s = (s1, Ok ())) in Ha. rewrite Ha.
  destruct (opening_apply _ s (journal_name q) (mkdocument rs) false s1 Ho (journal_doc _ _ Hrs)) as [Ho1 Hre]; [| |done|].
  { rewrite journal_no_history; [done|]. subst q. lia. }
  { intros _ r Hr' Hb. apply (rep_appended _ _ _ Hrep); [|done]. rewrite <-(take_drop_middle _ _ _ Hrs), concat_app. simpl in *. set_solver. }
  eexists _, (). split; [reflexivity|]. apply (at_sequence_reindexed (im_snapshot im + Z.of_nat k) (im_snapshot im) (hp_name <$> im_history im)) in Hre as (H1 & H2 & H3); [|done].
  split_and!; [lia| |].
  - rewrite (take_S_r _ _ _ Hrs), concat_app. simpl. rewrite app_nil_r, app_assoc. destruct Ho1; split; done.
  - split_and!; [subst q; simpl; lia|done|done].
Qed.

Lemma open_entries_runs : runs (replayed 0)
  (s ← gets (λ s, s); each (λ _ entry, open_entry entry) () (read_dir s "journal")) (λ _, replayed (length (im_journal im))).
Proof.
  apply runs_get. intros s0 Hs0. destruct (read_dir_spec s0 "journal") as (Hnd & Hsort & Hin). set (l := read_dir s0 "journal") in *.
  assert (disk s0 = files) as Hdisk by (destruct Hs0 as (_ & Ho & _); apply (op_disk _ _ Ho)). pose proof im_snapshot_range as Hr.
  assert (∀ q, im_snapshot im < q ≤ im_sequence im → entry_of q ∈ l) as Hall.
  { intros q Hq. apply Hin. rewrite Hdisk. change ("journal" +++ "/" +++ entry_of q) with (journal_name q).
    destruct (lookup_lt_is_Some_2 (im_journal im) (Z.to_nat (q - im_snapshot im - 1))) as [rs Hrs]; [unfold im_sequence in Hq; lia|].
    pose proof (rep_journal _ _ _ Hrep _ _ Hrs) as (raw & v & Hf & _). replace (im_snapshot im + 1 + _) with q in Hf by lia. eauto. }
  eapply runs_weaken; [apply (runs_each (λ pre _ s, ∃ k, replayed k s ∧
    ∀ q, im_snapshot im < q ≤ im_sequence im → entry_of q ∈ pre ↔ q ≤ im_snapshot im + Z.of_nat k))| |].
  - intros pre x post _ Hl s (k & Hk & Hpre). destruct (rep_entries _ _ _ Hrep x) as [Htmp|(q & Hq & ->)].
    + rewrite <-Hdisk. apply Hin. rewrite Hl. set_solver.
    + exists s, (). unfold open_entry. rewrite Htmp. split; [done|]. exists k. split; [done|]. intros q Hq. rewrite <-Hpre by done.
      rewrite elem_of_app, list_elem_of_singleton. split; [|by left]. intros [?|Hx]; [done|]. rewrite <-Hx, entry_not_tmp in Htmp by lia. done.
    + fold (entry_of q) in Hl |- *. destruct (Z.leb_spec q (im_snapshot im)) as [Hle|Hgt].
      * destruct (open_entry_skips k q ltac:(lia) s Hk) as (s' & u & He & Hs'). exists s', u. split; [done|]. exists k. split; [done|].
        intros q' Hq'. rewrite <-Hpre by done. rewrite elem_of_app, list_elem_of_singleton. split; [|by left]. intros [?|Hx]; [done|].
        apply entry_of_inj in Hx; lia.
      * assert (q = im_snapshot im + Z.of_nat (S k)) as ->.
        { assert (im_snapshot im + Z.of_nat k < q) as Hnew.
          { apply Z.nle_gt. intros Hle. apply Hpre in Hle; [|lia]. rewrite Hl in Hnd. apply NoDup_app in Hnd as (_ & Hd & _). apply (Hd _ Hle). left. }
          destruct (decide (q = im_snapshot im + Z.of_nat k + 1)) as [->|Hne]; [lia|]. exfalso.
          set (q' := im_snapshot im + Z.of_nat k + 1) in *. assert (im_snapshot im < q' ≤ im_sequence im) as Hq' by lia.
          assert (entry_of q' ∈ post) as Hpost.
          { pose proof (Hall q' Hq') as Hx. rewrite Hl, elem_of_app, elem_of_cons in Hx. destruct Hx as [Hx|[Hx|Hx]]; [|apply entry_of_inj in Hx; lia|done].
            apply Hpre in Hx; lia. }
          rewrite Hl in Hsort. apply StronglySorted_app_1_r in Hsort. inversion Hsort as [|? ? _ Hfa]; subst. rewrite Forall_forall in Hfa.
          specialize (Hfa _ Hpost). apply entry_of_le in Hfa; lia. }
        assert (k < length (im_journal im))%nat as Hlt by (unfold im_sequence in Hq; lia).
        destruct (open_entry_next k Hlt s Hk) as (s' & u & He & Hs'). exists s', u. split; [done|]. exists (S k). split; [done|].
        intros q' Hq'. rewrite elem_of_app, list_elem_of_singleton, Hpre by done. split.
        -- intros [?|Hx]; [lia|]. apply entry_of_inj in Hx; lia.
        -- intros Hle. destruct (decide (q' = im_snapshot im + Z.of_nat (S k))) as [->|]; [by right|left; lia].
  - intros s ->. exists 0%nat. split; [done|]. intros q Hq. rewrite elem_of_nil. lia.
  - intros _ s (k & Hk & Hl). destruct (decide (k = length (im_journal im))) as [->|Hne]; [done|]. exfalso.
    assert (k < length (im_journal im))%nat as Hlt by (destruct Hk as [? _]; lia).
    assert (entry_of (im_sequence im) ∈ l) as Hx by (apply Hall; unfold im_sequence; lia). apply Hl in Hx; unfold im_sequence in *; lia.
Qed.

(** * The store that was opened *)

Definition with_managed s : Store := s <| s_managed := negb (bool_decide (index_of s "configuration" = ∅)) |>.

Lemma indexes_empty D s m b : indexes D s m → index_of s b = ∅ ↔ ∀ k, m b k = None.
Proof.
  intros Hi. split.
  - intros Hb k. pose proof (Hi b k) as Hk. unfold find in Hk. rewrite Hb, lookup_empty in Hk. by inversion Hk.
  - intros Hm. apply map_empty. intros k. pose proof (Hi b k) as Hk. rewrite Hm in Hk. unfold find in Hk. by inversion Hk.
Qed.

Lemma replayed_synced s : replayed (length (im_journal im)) s → synced (with_managed s) (image_db im ro).
Proof.
  intros (_ & Ho & Hq & Hsnap & Hpages). rewrite firstn_all in Ho. fold (image_records im) in Ho. fold (im_sequence im) in Hq.
  pose proof im_snapshot_range as Hr. pose proof (rep_version _ _ _ Hrep) as Hv. pose proof (rep_id _ _ _ Hrep) as Hid.
  assert (∀ name doc, im_doc name doc → stored_doc (with_managed s) name doc) as Hdoc.
  { intros name doc (q & [Hq0 Hp] & Hf). exists q. split.
    - split; [done|]. simpl. rewrite Hq, Hsnap. exact Hp.
    - rewrite holds_in_file. simpl. by rewrite (op_disk _ _ Ho), (op_version _ _ Ho), (op_id _ _ Ho). }
  assert (bool_decide (index_of s "configuration" = ∅) = bool_decide (bucket_of (image_db im ro) "configuration" = ∅)) as Hm.
  { apply bool_decide_ext. rewrite (indexes_empty _ _ _ _ (op_records _ _ Ho)). split.
    - intros Hk. apply map_empty. intros k. change (at_ (image_db im ro) "configuration" k = None). rewrite image_db_at. apply Hk.
    - intros Hb k. rewrite <-(image_db_at im ro). unfold at_. by rewrite Hb, lookup_empty. }
  destruct Ho. split; try done.
  - simpl. by rewrite Hm.
  - simpl. rewrite op_id0. done.
  - simpl. rewrite op_version0. done.
  - simpl. rewrite Hq, Hsnap. done.
  - intros name e. simpl. by rewrite op_cache0, lookup_empty.
  - intros b k. rewrite image_db_at. eapply option_Forall2_weaken; [|exact (op_records0 b k)].
    intros ref x (dd & Hd & Hrr). exists dd. by split; [apply Hdoc|].
  - simpl. by rewrite Hpages.
  - intros name. simpl. rewrite Hpages. intros (p & -> & Hp)%list_elem_of_fmap. destruct (rep_history _ _ _ Hrep p Hp) as ([? _] & _).
    by exists (hp_seq p), (hp_no p).
Qed.

(** A directory that can be opened. *)
Record usable (d : Directory) (existing : bool) : Prop := {
  usable_key : key_length d = 32;
  usable_directory : is_directory d = true;
  usable_unlocked : locked d = false;
  usable_safe : ("journal" ∉ unsafe d) ∧ ("snapshots" ∉ unsafe d);
  usable_existing : existing = true → "journal" ∈ subdirs d;
}.

Lemma replayed_durable s : replayed (length (im_journal im)) s → durable (with_managed s) (image_db im ro) im.
Proof.
  intros Hs. pose proof (replayed_synced s Hs) as Hsync. destruct Hs as (_ & Ho & Hq & Hsnap & Hpages).
  split; [done| |intros b k; apply image_db_at]. split; simpl.
  - by rewrite (op_disk _ _ Ho), (op_id _ _ Ho).
  - by rewrite (op_version _ _ Ho).
  - by rewrite Hsnap.
  - by rewrite Hq.
  - by rewrite Hpages.
  - apply (op_fresh _ _ Ho).
Qed.

(** The head is written again when it is behind. *)
Lemma durable_head s d s' r : durable s d im → write "head.yaml" "head" (s_sequence s) () s = (s', r) → faults s = [] →
  ∃ n, r = Ok n ∧ durable s' d (im <| im_head := im_sequence im |>) ∧ faults s' = [].
Proof.
  intros Hd Hw Hno. pose proof (dur_synced _ _ _ Hd) as Hs.
  destruct (synced_after_write (A := ()) s d "head.yaml" "head" _ () s' r Hs ltac:(by apply not_placed) Hw) as [Hs' [Hrw Hk Hf Hother Hr]].
  destruct r as [n|e]; [|by destruct Hr]. exists n. split; [done|].
  assert (faults s' = []) as Hno' by (destruct Hf as [l Hl]; rewrite Hno in Hl; by destruct l, (faults s')). split; [|done].
  destruct Hrw as (dsk & fl & dr & Hs2). destruct Hd as [_ Hp Hrecs]. pose proof (per_represents _ _ Hp) as Hrd.
  pose proof (per_sequence _ _ Hp) as Hseq. pose proof (per_version _ _ Hp) as Hv. split; [done| |done]. destruct Hp. split; try (rewrite Hs2; done).
  assert (id s' = id s ∧ envelopeVersion s' = envelopeVersion s) as [Hid Hve] by (by rewrite Hs2).
  rewrite Hid. apply (represents_head (disk s)); [done| | |exact Hother].
  - pose proof im_snapshot_range. lia.
  - rewrite holds_in_file, Hid, Hve, <-Hv, <-Hseq in Hr. exact Hr.
Qed.

(** A write does not depend on whether the configuration is managed. *)
Lemma write_managed {A} `{Yaml A, !Faithful A} name kind seq (v : A) s m s1 r : write name kind seq v s = (s1, r) →
  write name kind seq v (s <| s_managed := m |>) = (s1 <| s_managed := m |>, r).
Proof.
  unfold write. st_run. destruct (Marshal v) as [plain|e]; [|by intros [= <- <-]].
  change (envelopeVersion (s <| s_managed := m |> <| draws := _ |>)) with (envelopeVersion s).
  change (id (s <| s_managed := m |> <| draws := _ |>)) with (id s). change (draws (s <| s_managed := m |>)) with (draws s).
  change (envelopeVersion (s <| draws := _ |>)) with (envelopeVersion s). change (id (s <| draws := _ |>)) with (id s).
  destruct (Marshal _) as [raw|e]; [|by intros [= <- <-]].
  unfold next_fault. change (faults (s <| s_managed := m |> <| draws := _ |>)) with (faults s). change (faults (s <| draws := _ |>)) with (faults s).
  destruct (faults s) as [|[] fl]; intros [= <- <-]; reflexivity.
Qed.
Lemma write_memory {A} `{Yaml A, !Faithful A} name kind seq (v : A) s s1 r : write name kind seq v s = (s1, r) → rewritten s s1.
Proof. intros (raw & fl & dr & _ & _ & [(_ & _ & ->)|(_ & ->)])%write_spec; by eexists _, _, _. Qed.

#[local] Ltac pass := intros ?; cbv beta.
Theorem open_runs dir existing dr : usable dir existing → ∃ s, open dir existing (new_Store files [] dr ro) = (s, Ok ()) ∧
  durable s (image_db im ro) (im <| im_head := if ro then im_head im else im_sequence im |>).
Proof.
  intros [Hkey Hdir Hlock [Hj Hsn] Hex]. set (s0 := new_Store files [] dr ro).
  destruct (rep_header _ _ _ Hrep) as (raw & Hstore & Hsealed). pose proof (rep_version _ _ _ Hrep) as Hv. pose proof (rep_id _ _ _ Hrep) as Hid.
  set (s1 := s0 <| envelopeVersion := im_version im |> <| id := sid |>).
  assert (opening [] s1 ∧ at_sequence 0 0 [] s1) as Hs1.
  { split; [|done]. split; try done; [intros b k; constructor|by intros b k [? ?]]. }
  assert (∀ name, name ∈ legacy_files → bool_decide (is_Some (files !! name)) = false) as Hleg.
  { intros name Hn. rewrite (rep_legacy _ _ _ Hrep name Hn). done. }
  cut (runs (λ s, s = s0) (open dir existing) (λ _ s, durable s (image_db im ro) (im <| im_head := if ro then im_head im else im_sequence im |>))).
  { intros Hr. destruct (Hr s0 eq_refl) as (s & [] & Ho & Hd). eauto. }
  unfold open. apply runs_get. intros s ->. change (disk s0) with files. rewrite Hstore.
  eapply runs_bind; [apply runs_stop_if; by rewrite Hkey|pass].
  eapply (runs_bind _ _ _ (λ _ s, s = s0)).
  { unfold RejectLegacy. rewrite (proj2 (existsb_false_elem _ _)) by done. simpl. intros s ->. by exists s0, (). }
  pass. eapply runs_bind; [apply runs_stop_if; by rewrite bool_decide_false, andb_false_r|pass].
  eapply runs_bind; [apply runs_stop_if; by rewrite Hdir|pass].
  eapply runs_bind; [apply runs_stop_if; by rewrite Hlock|pass].
  eapply (runs_bind _ _ _ (λ _ s, s = s1)).
  { intros s ->. exists s1, (). split; [|done]. unfold mbind, ST_bind.
    rewrite (read_sealed s0 (im_version im) sid "store.yaml" "header" 0 0 the_header raw); [|done|done|done|by left|done|by left|by left]. reflexivity. }
  pass. eapply (runs_bind _ _ _ (λ h s, h = (im_head im, ()) ∧ s = s1)).
  { intros s ->. exists s1, (im_head im, ()). split; [|done]. destruct Hs1 as [Ho _]. eapply opening_read; [exact Ho|done|apply (rep_head _ _ _ Hrep)|by right]. }
  intros h. apply runs_pure. intros ->. cbv beta iota zeta. cbn [fst].
  eapply runs_bind; [apply runs_stop_if; rewrite bool_decide_false; [done|tauto]|pass].
  eapply runs_bind; [eapply runs_weaken; [exact open_manifest_runs|by intros s ->|done]|pass].
  eapply runs_bind; [apply runs_stop_if; destruct existing; [|done]; by rewrite bool_decide_true by auto|pass].
  apply (runs_assoc _ (gets (λ s, s)) (λ s, each (λ _ entry, open_entry entry) () (read_dir s "journal"))).
  eapply runs_bind; [eapply runs_weaken; [exact open_entries_runs| |done]|pass].
  { intros s [Ho Hq]. split; [lia|]. simpl. rewrite app_nil_r, Z.add_0_r. done. }
  apply runs_get. intros s Hs. pose proof Hs as (_ & Ho & Hq & _). fold (im_sequence im) in Hq. rewrite Hq, (op_readOnly _ _ Ho).
  pose proof (rep_head_range _ _ _ Hrep) as Hh.
  eapply runs_bind; [apply runs_stop_if; apply Z.ltb_ge; lia|pass].
  pose proof (replayed_durable s Hs) as Hd. assert (faults s = []) as Hno by apply (op_faults _ _ Ho).
  apply (runs_bind _ _ _ (λ _ s', durable (with_managed s') (image_db im ro) (im <| im_head := if ro then im_head im else im_sequence im |>) ∧ faults s' = [])).
  { intros s' ->. destruct ((im_head im <? im_sequence im) && negb ro) eqn:Hc.
    - apply andb_true_iff in Hc as [_ Hro]. destruct ro; [done|]. unfold mbind, ST_bind.
      destruct (write "head.yaml" "head" (im_sequence im) () s) as [s2 r2] eqn:Hw. pose proof (write_managed _ _ _ _ _ (s_managed (with_managed s)) _ _ Hw) as Hw'.
      rewrite <-Hq in Hw'. destruct (durable_head _ _ _ _ Hd Hw' Hno) as (n & -> & Hd2 & Hno2). eexists _, (). split; [done|].
      apply write_memory in Hw as (dsk & fl & dr' & ->). done.
    - exists s, (). split; [done|]. split; [|done]. destruct ro; [by destruct im|]. rewrite andb_true_r in Hc. apply Z.ltb_ge in Hc.
      replace (im_sequence im) with (im_head im) by lia. by destruct im. }
  pass. apply (runs_bind _ _ _ (λ _ s', durable s' (image_db im ro) (im <| im_head := if ro then im_head im else im_sequence im |>) ∧ faults s' = [])).
  { apply runs_modify. intros s' [Hd' Hno']. done. }
  pass. destruct existing; [apply runs_ret; by intros s' [? _]|]. intros s' [Hd' Hno']. exists s', (). unfold syncDir, mbind, ST_bind, next_fault. by rewrite Hno'.
Qed.
End Open.

(** * New stores and stores opened again *)

(** The image of a new store. *)
Definition new_image : image := mkimage 1 0 0 [] [] [].

Lemma new_numbered : numbered new_image.
Proof. by intros p Hp%elem_of_nil. Qed.

Section Reopen.
Context {E : Aead} `{!AeadOk E} {R : Random} `{!RandomOk R}.
Context {YEnv : Yaml envelope} `{!Faithful envelope} {YDoc : Yaml document} `{!Faithful document}.
Context {YManifest : Yaml manifest} `{!Faithful manifest} {YHeader : Yaml header} `{!Faithful header} {YUnit : Yaml ()} `{!Faithful ()}.
Implicit Types (s : Store) (im : image) (files : gmap string file).

(** Writing a file when no system call fails. *)
Lemma write_published_file {A} `{Yaml A, !Faithful A} name kind seq (v : A) s : faults s = [] → ∃ raw,
  sealed (envelopeVersion s) (id s) kind seq name v raw ∧
  write name kind seq v s = (s <| disk := <[name := mkfile true raw]> (disk s) |> <| faults := [] |> <| draws := S (draws s) |>, Ok (len raw)).
Proof.
  intros Hf. destruct (yaml_round_trip v) as (plain & Hplain & _). unfold write. rewrite Hplain. st_run.
  match goal with |- context [@Marshal envelope _ ?e] => destruct (yaml_round_trip e) as (raw & Hraw & _) end. rewrite Hraw. st_run.
  exists raw. split; [|unfold next_fault; simpl; rewrite Hf; simpl; by rewrite <-Hf; destruct s].
  eexists _, plain. split_and!; [done| |exact Hraw]. apply rand_length. done.
Qed.

(** The files of a new store. *)
Lemma new_represents files sid raw1 raw2 : sid ≠ "" → files = <["head.yaml" := mkfile true raw2]> {["store.yaml" := mkfile true raw1]} →
  sealed 1 sid "header" 0 "store.yaml" the_header raw1 → sealed 1 sid "head" 0 "head.yaml" () raw2 → represents files sid new_image.
Proof.
  intros Hsid -> H1 H2.
  assert (∀ name, name ≠ "store.yaml" → name ≠ "head.yaml" → (<["head.yaml" := mkfile true raw2]> {["store.yaml" := mkfile true raw1]} : gmap string file) !! name = None)
    as Hnone by (intros name Hn1 Hn2; by rewrite lookup_insert_ne, lookup_singleton_ne by done).
  split; try done.
  - exists raw1. by rewrite lookup_insert_ne, lookup_singleton_eq.
  - exists raw2, 1. rewrite lookup_insert_eq. done.
  - by intros p Hp%elem_of_nil.
  - constructor.
  - intros x Hx. rewrite Hnone in Hx; [by destruct Hx|done..].
  - constructor.
  - by intros r Hr%elem_of_nil.
  - by intros r Hr%elem_of_nil.
  - intros name Hn. unfold legacy_files in Hn. apply Hnone; intros ->; set_solver.
Qed.

Lemma storage_id_not_empty n : hex_EncodeToString (rand_Read n 16) ≠ "".
Proof. pose proof (rand_length n 16) as Hl. destruct (rand_Read n 16); [by specialize (Hl ltac:(lia))|done]. Qed.

(** In an empty directory [open] creates a store, and goes on as on the files of
    a store that was there. *)
Lemma open_creates dir dr : usable dir false → subdirs dir = ∅ → ∃ files sid, represents files sid new_image ∧
  open dir false (new_Store ∅ [] dr false) = open dir false (new_Store files [] (3 + dr)%nat false).
Proof.
  intros [Hkey Hdir Hlock Hsafe _] Hsub. set (sid := hex_EncodeToString (rand_Read dr 16)).
  set (s1 := (new_Store ∅ [] dr false) <| id := sid |> <| draws := S dr |>).
  destruct (write_published_file "store.yaml" "header" 0 the_header s1 eq_refl) as (raw1 & Hs1 & Hw1).
  set (s2 := s1 <| disk := _ |> <| faults := _ |> <| draws := _ |>) in Hw1.
  destruct (write_published_file "head.yaml" "head" 0 () s2 eq_refl) as (raw2 & Hs2 & Hw2).
  set (s3 := s2 <| disk := _ |> <| faults := _ |> <| draws := _ |>) in Hw2. set (files := disk s3).
  assert (represents files sid new_image) as Hrep by (by eapply new_represents; [apply storage_id_not_empty|..]).
  exists files, sid. split; [done|]. set (s0' := new_Store files [] (3 + dr)%nat false).
  assert (read header "store.yaml" "header" 0 s0' = (s3, Ok (0, the_header))) as Hread.
  { assert (disk s0' !! "store.yaml" = Some (mkfile true raw1)) as Hst by done.
    rewrite (read_sealed s0' 1 sid "store.yaml" "header" 0 0 the_header raw1 Hst Hs1); [done|done|by left|apply storage_id_not_empty|by left|by left]. }
  assert (RejectLegacy files = Ok ()) as Hleg by reflexivity. assert (RejectLegacy ∅ = Ok ()) as Hleg0 by reflexivity.
  assert (files !! "store.yaml" = Some (mkfile true raw1)) as Hfile by reflexivity.
  assert (forallb may_initialize (entries dir ∅) = true) as Hentries by (unfold entries; by rewrite Hsub, elements_empty, map_to_list_empty).
  unfold open. st_run. rewrite Hkey, Hdir, Hlock, (bool_decide_true (32 = 32)) by done.
  change (disk (new_Store ∅ [] dr false)) with (∅ : gmap string file). change (disk s0') with files.
  rewrite Hleg, Hleg0, Hfile, Hentries, lookup_empty. cbn [negb andb]. st_run. rewrite Hread.
  match goal with |- context [write "store.yaml" _ _ _ ?x] => change x with s1 end. rewrite Hw1, Hw2. reflexivity.
Qed.

(** A new directory gives a store without records. *)
Lemma open_new dir dr : usable dir false → subdirs dir = ∅ → ∃ s,
  open dir false (new_Store ∅ [] dr false) = (s, Ok ()) ∧ durable s (image_db new_image false) new_image.
Proof.
  intros Hdir Hsub. destruct (open_creates dir dr Hdir Hsub) as (files & sid & Hrep & ->).
  by apply (open_runs files sid new_image false Hrep new_numbered).
Qed.

(** C20. Opening recovers what the files represent. On files that represent an
    image, those a store in use has and those a failed or interrupted update
    leaves, [open] succeeds, for reading and for writing, and the new store
    represents exactly the records of the image, in memory and on its files, with
    the image's sequence and version, even when the head was not written for the
    last transaction. *)
Theorem open_recovers files sid im ro dir existing dr : represents files sid im → numbered im → usable dir existing → ∃ s d im',
  open dir existing (new_Store files [] dr ro) = (s, Ok ()) ∧ durable s d im' ∧ (∀ b k, at_ d b k = image_at im b k) ∧
  s_sequence s = im_sequence im ∧ envelopeVersion s = im_version im ∧ unavailable d = false ∧ db_readOnly d = ro.
Proof.
  intros Hrep Hnum Hdir. destruct (open_runs files sid im ro Hrep Hnum dir existing dr Hdir) as (s & Ho & Hd). eexists _, _, _.
  split_and!; [exact Ho|exact Hd|apply image_db_at| | |done..].
  - by rewrite (sync_sequence _ _ (dur_synced _ _ _ Hd)).
  - by rewrite (sync_version _ _ (dur_synced _ _ _ Hd)).
Qed.
End Reopen.
