(* ===== verification/StateCrash.v ===== *)
(** Crashes: whatever system call of an update fails, the files left behind
    represent the records before the update or the records after it, so that
    opening them again gives one of the two. *)
From S2P Require Import Prelude GoLib Base64 Entities RbacTyped StateProg StateRecords StateProgFacts StateLaws.
From S2P Require Import StateStore StateIndex StateReach StateFiles StateSync StateCompact StateRefine StateImage StateOpen.
From stdpp Require Import options.
#[local] Set Default Proof Using "All".
Local Open Scope Z_scope.

Section Crash.
Context {E : Aead} `{!AeadOk E} {R : Random} `{!RandomOk R}.
Context {YEnv : Yaml envelope} `{!Faithful envelope} {YDoc : Yaml document} `{!Faithful document}.
Context {YManifest : Yaml manifest} `{!Faithful manifest} {YHeader : Yaml header} `{!Faithful header} {YUnit : Yaml ()} `{!Faithful ()}.
Implicit Types (s : Store) (d : db) (im : image) (files : gmap string file).

(** * Programs *)

Definition at_version im (v : Z) : image := im <| im_version := v |>.

Lemma not_legacy name : name ∈ legacy_files → name ≠ "store.yaml" ∧ name ≠ "head.yaml" ∧ name ≠ "manifest.yaml" ∧
  HasPrefix name "journal/" = false ∧ HasPrefix name "snapshots/" = false.
Proof. intros Hn. repeat (apply elem_of_cons in Hn as [->|Hn]; [done|]). by apply elem_of_nil in Hn. Qed.

(** A header at a newer version. *)
Lemma represents_header files sid im v raw : represents files sid im → im_version im ≤ v ≤ currentEnvelopeVersion →
  sealed v sid "header" 0 "store.yaml" the_header raw → represents (<["store.yaml" := mkfile true raw]> files) sid (at_version im v).
Proof.
  intros Hrep Hv Hs. assert (∀ A (Y : Yaml A) name kind seq (x : A), name ≠ "store.yaml" → in_file files (im_version im) sid name kind seq x →
    in_file (<["store.yaml" := mkfile true raw]> files) v sid name kind seq x) as Hin.
  { intros A Y name kind seq x Hn (raw' & v' & Hx & Hr & Hs'). exists raw', v'. rewrite lookup_insert_ne by done. split_and!; [done|lia|lia|done]. }
  pose proof Hrep as [H1 H2 H3 H4 H5 H6 H7 H8 H9 H10 H11 H12 H13 H14 H15 H16]. split; try done; simpl in *.
  - lia.
  - exists raw. by rewrite lookup_insert_eq.
  - by apply Hin.
  - case_decide; [by rewrite lookup_insert_ne|]. by apply Hin.
  - intros p Hp. destruct (H8 p Hp) as (Ha & Hc & Hd). split_and!; [apply Ha|apply Ha| |done]. by apply Hin.
  - intros i rs Hi. destruct (H10 i rs Hi) as [Ha Hb]. split; [|done]. by apply Hin.
  - intros i rs Hi. apply Hin; [done|]. by apply H11.
  - intros x Hx. apply H12. by rewrite lookup_insert_ne in Hx.
  - intros name Hn. rewrite lookup_insert_ne; [by apply H16|]. by destruct (not_legacy name Hn) as [? _].
Qed.

Lemma raise_version_persists s d im n s' r : synced s d → persists s im → n ≤ currentEnvelopeVersion → raise_version n s = (s', r) →
  (r = Ok () ∧ ∃ v, persists s' (at_version im v)) ∨ (r = Err ErrStateUnavailable ∧ ∃ v, represents (disk s') (id s') (at_version im v)).
Proof.
  intros Hs Hp Hn. unfold raise_version. st_run. pose proof (per_version _ _ Hp) as Hv. pose proof (per_represents _ _ Hp) as Hrep.
  destruct (Z.leb_spec n (envelopeVersion s)) as [Hle|Hlt].
  { intros [= <- <-]. left. split; [done|]. exists (im_version im). by destruct im. }
  destruct (write _ _ _ _ _) as [s2 r2] eqn:Hw. apply write_spec in Hw as (raw & fl & dr & Hsl & _ & Hr). simpl in Hsl.
  assert (represents (<["store.yaml" := mkfile true raw]> (disk s)) (id s) (at_version im n)) as Hnew by (apply represents_header; [done|lia|done]).
  destruct Hr as [(-> & _ & ->)|([->|[-> _]] & ->)]; intros [= <- <-].
  - right. split; [done|]. exists (im_version im). simpl. by destruct im.
  - left. split; [done|]. exists n. destruct Hp. split; done.
  - right. split; [done|]. exists n. exact Hnew.
Qed.

Lemma persists_recached s im s' : persists s im → recached s s' → persists s' im.
Proof. intros [] (c & o & n & ->). split; done. Qed.

Lemma at_version_twice im v v' : at_version (at_version im v) v' = at_version im v'.
Proof. reflexivity. Qed.
Lemma at_version_same im : at_version im (im_version im) = im.
Proof. by destruct im. Qed.

Lemma exec_persists {A} (p : prog A) : raises_to currentEnvelopeVersion p → ∀ s d tx im s' r, synced s d → persists s im →
  exec p tx s = (s', r) → (∃ v, persists s' (at_version im v)) ∨ (∃ e v, r = Err e ∧ represents (disk s') (id s') (at_version im v)).
Proof.
  induction p as [a|e|b k c IH|p IH|b c IH|b kind v c IH|c IH|c IH|rec p IH|c IH|n c IH]; intros Hp s d tx im s' r Hs Hper; cbn [exec]; st_run.
  - intros [= <- <-]. left. exists (im_version im). by rewrite at_version_same.
  - intros [= <- <-]. left. exists (im_version im). by rewrite at_version_same.
  - destruct (lookup_data_spec s d b k Hs) as (s1 & -> & Hs1 & Hc). apply IH with d; [apply Hp|done|by eapply persists_recached].
  - intros He. eapply (IH Hp _ _ _ im _ _ (synced_poison s d Hs)); [|exact He]. destruct Hper. split; done.
  - eapply IH; [apply Hp|done..].
  - eapply IH; [apply Hp|done..].
  - eapply IH; [apply Hp|done..].
  - eapply IH; [apply Hp|done..].
  - by eapply IH.
  - eapply IH; [apply Hp|done..].
  - destruct Hp as (Hn & (e & He) & Hp). destruct (raise_version n s) as [s1 r1] eqn:Hr.
    destruct (raise_version_spec s d n Hs Hn) as (s1' & ok & _ & _ & _ & Hr' & Hs1). rewrite Hr in Hr'. injection Hr' as <- Hr1.
    destruct (raise_version_persists s d im n s1 r1 Hs Hper Hn Hr) as [(-> & v & Hv)|(-> & v & Hv)].
    + intros Hx. destruct (IH (Ok ()) (Hp _) s1 _ tx (at_version im v) s' r Hs1 Hv Hx) as [(v' & ?)|(e' & v' & ?)]; [left; by exists v'|right; by exists e', v'].
    + rewrite He. cbn [exec]. st_run. intros [= <- <-]. right. eauto.
Qed.

(** * Transactions *)

Definition journaled im (tx : list record) : image := im <| im_journal := im_journal im ++ [tx] |>.
Lemma journaled_sequence im tx : im_sequence (journaled im tx) = im_sequence im + 1.
Proof. unfold im_sequence. simpl. rewrite length_app. simpl. lia. Qed.
Lemma journaled_records im tx : image_records (journaled im tx) = image_records im ++ tx.
Proof. unfold image_records. simpl. rewrite concat_app. simpl. by rewrite app_nil_r, app_assoc. Qed.
Lemma journaled_at im tx b k : image_at (journaled im tx) b k = after_tx tx b k (image_at im b k).
Proof. unfold image_at. rewrite journaled_records. unfold after_tx. by rewrite foldl_app. Qed.

Lemma after_tx_some rs b k : (∃ r, r ∈ rs ∧ writes b k r) → (∀ r, r ∈ rs → writes b k r → record_Delete r = false) → after_tx rs b k None ≠ None.
Proof.
  induction rs as [|r rs IH] using rev_ind; [by intros (r & ?%elem_of_nil & _)|]. intros Hex Hdel. destruct (decide (writes b k r)) as [Hw|Hw].
  - rewrite after_tx_last by done. unfold written. rewrite (Hdel r) by set_solver. done.
  - rewrite after_tx_snoc_other by done. apply IH; [|intros r' ?; apply Hdel; set_solver]. destruct Hex as (r' & Hr' & Hw').
    apply elem_of_app in Hr' as [?| ->%list_elem_of_singleton]; [eauto|done].
Qed.

(** A record of history that is not there is not in the snapshot. *)
Lemma history_new files sid im b k : represents files sid im → historyBucket b = true → image_at im b k = None →
  (b, k) ∉ identity <$> image_records im.
Proof.
  intros Hrep Hb Hnone (r & Hbk & Hr)%list_elem_of_fmap. injection Hbk as -> ->.
  eapply after_tx_some; [| |exact Hnone]; [by exists r|]. intros r' Hr' [Hbr _]. unfold image_records, snapshot_records in Hr'. rewrite !elem_of_app in Hr'.
  assert (∀ (ls : list (list record)), r' ∈ concat ls → ∃ l, l ∈ ls ∧ r' ∈ l) as Hconcat.
  { induction ls as [|l ls IHl]; simpl; [by intros ?%elem_of_nil|]. intros [?|(l' & ? & ?)%IHl]%elem_of_app; [exists l|exists l']; set_solver. }
  destruct Hr' as [[Hr'|Hr']|Hr'].
  - apply Hconcat in Hr' as (l & (p & -> & Hp)%list_elem_of_fmap & Hl). destruct (rep_history _ _ _ Hrep p Hp) as (_ & _ & Hh). by destruct (Hh r' Hl).
  - apply Hconcat in Hr' as (l & [i Hi]%list_elem_of_lookup & Hl). destruct (rep_pages _ _ _ Hrep i l Hi) as [_ Hh]. rewrite <-Hbr, (Hh r' Hl) in Hb. done.
  - apply (rep_appended _ _ _ Hrep); [done|]. by rewrite Hbr.
Qed.

Lemma im_name_journal im q name : 0 ≤ im_snapshot im → im_sequence im < q → (∀ p, p ∈ im_history im → 0 ≤ hp_seq p) → im_name im name → name ≠ journal_name q.
Proof.
  intros H0 Hq Hh [| | |p Hp|i Hi|i Hi] Heq; try discriminate Heq.
  apply journal_name_inj in Heq; unfold im_sequence in Hq; lia.
Qed.

Lemma represents_journal files sid im tx raw : let q := im_sequence im + 1 in represents files sid im → im_sequence im < MaxUint64 →
  sealed (im_version im) sid "transaction" q (journal_name q) (mkdocument tx) raw →
  (∀ r, r ∈ tx → record_Bucket r ≠ "" ∧ record_Key r ≠ "") →
  (∀ r, r ∈ tx → historyBucket (record_Bucket r) = true → record_Delete r = false ∧ identity r ∉ identity <$> snapshot_records im) →
  represents (<[journal_name q := mkfile true raw]> files) sid (journaled im tx).
Proof.
  intros q Hrep Hmax Hs Hid Hhist. pose proof (rep_range _ _ _ Hrep) as Hr. pose proof (rep_version _ _ _ Hrep) as Hv.
  assert (∀ A (Y : Yaml A) name kind seq (x : A), im_name im name → in_file files (im_version im) sid name kind seq x →
    in_file (<[journal_name q := mkfile true raw]> files) (im_version im) sid name kind seq x) as Hin.
  { intros A Y name kind seq x Hn (raw' & v' & Hx & Hr'). exists raw', v'. rewrite lookup_insert_ne; [done|].
    intros Heq. eapply (im_name_journal im q name); [lia|lia| |done|done]. intros p Hp. by destruct (rep_history _ _ _ Hrep p Hp) as [[? _] _]. }
  pose proof Hrep as [H1 H2 H3 H4 H5 H6 H7 H8 H9 H10 H11 H12 H13 H14 H15 H16].
  assert (im_sequence (journaled im tx) = q) as Hseq by apply journaled_sequence. split; try done; rewrite ?Hseq; simpl.
  - lia.
  - rewrite lookup_insert_ne by (intros [=]). done.
  - apply Hin; [constructor|done].
  - lia.
  - case_decide; [by rewrite lookup_insert_ne by (intros [=])|]. apply Hin; [constructor|done].
  - intros p Hp. destruct (H8 p Hp) as (Ha & Hc & Hd). split_and!; [apply Ha|apply Ha| |done]. apply Hin; [by constructor|done].
  - intros i rs Hi. destruct (H10 i rs Hi) as [Ha Hb]. split; [|done]. apply Hin; [constructor; by eapply lookup_lt_Some|done].
  - intros i rs [[Hi Hrs]|[Hi <-]]%lookup_snoc_Some.
    + apply Hin; [constructor; done|]. by apply H11.
    + assert (im_snapshot im + 1 + Z.of_nat i = q) as -> by (unfold q, im_sequence; lia). exists raw, (im_version im).
      rewrite lookup_insert_eq. split_and!; [done|lia|lia|done].
  - intros x Hx. destruct (decide ("journal/" +++ x = journal_name q)) as [Heq|Hne].
    + right. exists q. split; [lia|]. by apply (inj (String.app "journal/")) in Heq.
    + rewrite lookup_insert_ne in Hx by done. destruct (H12 x Hx) as [?|(q' & Hq' & ->)]; [by left|]. right. exists q'. split; [lia|done].
  - intros r. rewrite journaled_records, elem_of_app. intros [?|?]; auto.
  - intros r. rewrite concat_app. simpl. rewrite app_nil_r, elem_of_app. intros [?|?]; [by apply H15|by apply Hhist].
  - intros name Hn. destruct (not_legacy name Hn) as (_ & _ & _ & Hj & _). rewrite lookup_insert_ne; [by apply H16|]. intros <-. discriminate Hj.
Qed.

(** * Compaction *)

(** Both outcomes of a computation. *)
Definition ends {A} (P : Store → Prop) (m : ST A) (Q : A → Store → Prop) (X : Store → Prop) : Prop :=
  ∀ s s' r, P s → m s = (s', r) → match r with Ok a => Q a s' | Err _ => X s' end.
Lemma ends_bind {A B} P (m : ST A) (f : A → ST B) Q Q' X : ends P m Q X → (∀ a, ends (Q a) (f a) Q' X) → ends P (m ≫= f) Q' X.
Proof.
  intros Hm Hf s s' r Hs. unfold mbind, ST_bind. destruct (m s) as [s1 [a|e]] eqn:Em; pose proof (Hm _ _ _ Hs Em) as H1.
  - by apply Hf.
  - by intros [= <- <-].
Qed.
Lemma ends_keeping {A} P (m : ST A) Q (I X : Store → Prop) : spec P m Q → preserves I m → (∀ s, I s → X s) →
  ends (λ s, P s ∧ I s) m (λ a s, Q a s ∧ I s) X.
Proof.
  intros Hm Hi HX s s' r [Hs His] Hr. destruct (Hm _ _ _ Hs Hr) as [_ Hq]. pose proof (Hi s His) as Hi'. rewrite Hr in Hi'. destruct r; auto.
Qed.
Lemma ends_weaken {A} P P' (m : ST A) Q Q' X : ends P m Q X → (∀ s, P' s → P s) → (∀ a s, Q a s → Q' a s) → ends P' m Q' X.
Proof. intros Hm HP HQ s s' r Hs Hr. pose proof (Hm _ _ _ (HP s Hs) Hr). destruct r; auto. Qed.

(** The files represent the image, for a store at a sequence. *)
Definition imaged im (q : Z) s : Prop := represents (disk s) (id s) im ∧ s_sequence s = q.

Lemma imaged_read im q A `{Yaml A} name kind seq : kind ≠ "header" → preserves (imaged im q) (read A name kind seq).
Proof.
  intros Hk s [Hrep Hq]. pose proof (rep_id _ _ _ Hrep) as Hid. unfold read. destruct (disk s !! name) as [f|]; [|done]. destruct (negb (private f)); [done|].
  destruct (Unmarshal (content f)) as [e|]; [|done]. destruct (_ || _) eqn:Hc; [done|].
  assert (StorageID e = id s) as Hsid.
  { rewrite !orb_false_iff, !andb_false_iff, !negb_false_iff, !bool_decide_eq_true in Hc. destruct Hc as [_ [Hx|Hx]]; done. }
  repeat case_match; try done; simpl; rewrite Hsid; done.
Qed.

Lemma imaged_apply im q doc name snapshot : preserves (imaged im q) (apply doc name snapshot).
Proof.
  intros s Hs. pose proof (apply_reindexed doc name snapshot s) as (ix & o & ph & ->). exact Hs.
Qed.
Lemma imaged_remember im q name doc n : preserves (imaged im q) (remember name doc n).
Proof. intros s Hs. destruct (remember_recached s name doc n) as [(c & o & b & ->) _]. exact Hs. Qed.
Lemma imaged_load im q name : preserves (imaged im q) (load name).
Proof.
  assert (preserves (imaged im q) poison) as Hpoison by (by intros s Hs). pose proof (imaged_remember im q) as Hrem.
  assert (∀ seq, preserves (imaged im q) (read document name (doc_kind name) seq)) as Hread by (intros; apply imaged_read, doc_kind_not_header).
  unfold load. fold (doc_kind name). preserve.
Qed.

(** The names of new pages are not used. *)
Lemma new_page_unused files sid im q n name : represents files sid im → im_snapshot im < q → name = page_name q n ∨ name = history_name q n →
  ¬ im_name im name.
Proof.
  intros Hrep Hq Hname Hn. pose proof (rep_range _ _ _ Hrep) as Hr. inversion Hn as [Hx|Hx|Hx|p Hp Hx|i Hi Hx|i Hi Hx]; subst name.
  - destruct Hname as [Hx|Hx]; discriminate Hx.
  - destruct Hname as [Hx|Hx]; discriminate Hx.
  - destruct Hname as [Hx|Hx]; discriminate Hx.
  - destruct (rep_history _ _ _ Hrep p Hp) as [Hseq _]. destruct Hname as [Hx|Hx].
    + symmetry in Hx. apply page_not_history in Hx; [done|lia|lia].
    + apply history_name_inj in Hx; lia.
  - destruct Hname as [Hx|Hx]; [apply page_name_inj in Hx; lia|]. apply page_not_history in Hx; [done|lia|lia].
  - destruct Hname as [Hx|Hx]; discriminate Hx.
Qed.

Lemma imaged_write im q {A} `{Yaml A, !Faithful A} n name kind (v : A) : im_snapshot im < q → name = page_name q n ∨ name = history_name q n →
  preserves (imaged im q) (write name kind q v).
Proof.
  intros Hlt Hname s [Hrep Hq]. destruct (write name kind q v s) as [s' r] eqn:Hw. simpl. apply write_spec in Hw as (raw & fl & dr & _ & _ & Hr).
  assert (represents (<[name := mkfile true raw]> (disk s)) (id s) im) as Hnew.
  { pose proof (new_page_unused _ _ im q n name Hrep Hlt Hname) as Hun.
    assert (HasPrefix name "snapshots/" = true) as Hpre by (destruct Hname as [->| ->]; unfold page_name, history_name; apply HasPrefix_app).
    apply (represents_frame (disk s)); [done| | |].
    - intros x Hx. rewrite lookup_insert_ne; [done|]. by intros ->.
    - intros x. rewrite lookup_insert_ne; [done|]. intros ->. discriminate Hpre.
    - intros x Hx. rewrite lookup_insert_ne; [done|]. intros <-. destruct (not_legacy name Hx) as (_ & _ & _ & _ & Hp). by rewrite Hpre in Hp. }
  by destruct Hr as [(_ & _ & ->)|(_ & ->)].
Qed.

Lemma imaged_flush im q p : im_snapshot im < q → preserves (imaged im q) (flush p).
Proof.
  intros Hlt. unfold flush. destruct (doc p) as [|r0 rs]; [apply preserves_ret|]. intros s Hs. unfold mbind at 1, ST_bind at 1, gets.
  destruct Hs as [Hrep Hq]. rewrite Hq. refine (preserves_bind _ _ _ _ s (conj Hrep Hq)); [|intros; apply preserves_ret].
  destruct (history p); [apply (imaged_write im q (length (newPages p)))|apply (imaged_write im q (length (pages p)))]; auto.
Qed.
Lemma imaged_paging im q b names p : im_snapshot im < q → b = each page_bucket p names ≫= flush → preserves (imaged im q) b.
Proof.
  intros Hlt ->. assert (∀ p, preserves (imaged im q) (flush p)) as Hflush by (intros; by apply imaged_flush).
  pose proof (imaged_load im q) as Hload. apply preserves_bind; [|apply Hflush]. apply preserves_each. intros p' bucket. unfold page_bucket, page_record. preserve.
Qed.

(** ** The image after compaction *)

(** The new pages of history as an image has them. *)
Lemma hpages_of q (docs : list (string * list record)) : (∀ page, page ∈ docs → ∃ n, page.1 = history_name q n) →
  ∃ hps, hp_name <$> hps = docs.*1 ∧ hp_records <$> hps = docs.*2 ∧ ∀ p, p ∈ hps → hp_seq p = q.
Proof.
  induction docs as [|[name rs] docs IH]; intros Hd; [exists []; split_and!; [done..|by intros p ?%elem_of_nil]|].
  destruct IH as (hps & H1 & H2 & H3); [intros page Hp; apply Hd; by right|]. destruct (Hd (name, rs)) as [n Hn]; [left|]. simpl in Hn.
  exists (mkhpage q n rs :: hps). rewrite !fmap_cons, H1, H2. simpl. split_and!; [by rewrite Hn|done|]. intros p [->|?]%elem_of_cons; auto.
Qed.

Definition compact_image im (q : Z) (hps : list hpage) (docs : list (string * list record)) : image :=
  mkimage (im_version im) (im_head im) q (im_history im ++ hps) (page_docs docs).*2 [].

(** The records of the new pages are those of all of them. *)
Lemma docs_partition (docs : list (string * list record)) : concat docs.*2 ≡ₚ concat (hist_docs docs).*2 ++ concat (page_docs docs).*2.
Proof.
  unfold hist_docs, page_docs. induction docs as [|[name rs] docs IH]; [done|]. rewrite !filter_cons. simpl. rewrite IH.
  destruct (Contains name "-history-"); simpl; [by rewrite app_assoc|]. apply Permutation_app_swap_app.
Qed.

Lemma after_tx_agree rs (m : string → string → option stored) b k : (∀ r, r ∈ rs → written r = m (record_Bucket r) (record_Key r)) →
  (m b k ≠ None → ∃ r, r ∈ rs ∧ writes b k r) → after_tx rs b k None = m b k.
Proof.
  induction rs as [|r rs IH] using rev_ind; intros Hr Hex.
  - destruct (m b k) eqn:Hm; [|done]. destruct Hex as (r & ?%elem_of_nil & _); [done|done].
  - destruct (decide (writes b k r)) as [Hw|Hw].
    + rewrite after_tx_last by done. destruct Hw as [<- <-]. apply Hr. set_solver.
    + rewrite after_tx_snoc_other by done. apply IH; [intros r' ?; apply Hr; set_solver|]. intros Hm. destruct (Hex Hm) as (r' & Hr' & Hw').
      apply elem_of_app in Hr' as [?| ->%list_elem_of_singleton]; [eauto|done].
Qed.

(** What is left of a record written once. *)
Lemma after_tx_once rs b k r : r ∈ rs → writes b k r → (∀ r', r' ∈ rs → writes b k r' → r' = r) → after_tx rs b k None = written r.
Proof.
  intros Hr Hw Huniq. destruct (after_tx_cases rs b k None) as [Hn|(r' & Hr' & Hw' & ->)]; [|by rewrite (Huniq r')].
  rewrite Hn. destruct (written r) eqn:Hwr; [|done]. exfalso. eapply (after_tx_some rs b k); [by eauto| |done].
  intros r' Hr' Hw'. rewrite (Huniq r') by done. unfold written in Hwr. by destruct (record_Delete r).
Qed.

(** A record of the old pages of history is what the store has. *)
Lemma history_record files sid im p r : represents files sid im → p ∈ im_history im → r ∈ hp_records p →
  image_at im (record_Bucket r) (record_Key r) = written r.
Proof.
  intros Hrep Hp Hr. destruct (rep_history _ _ _ Hrep p Hp) as (_ & _ & Hh). destruct (Hh r Hr) as [Hb _].
  assert (r ∈ snapshot_records im) as Hin.
  { unfold snapshot_records. rewrite elem_of_app. left. apply (list_elem_of_fmap_2 hp_records) in Hp. induction Hp; simpl; set_solver. }
  apply after_tx_once; [unfold image_records; set_solver|done|]. intros r' Hr' [Hb' Hk']. unfold image_records in Hr'.
  apply elem_of_app in Hr' as [Hr'|Hr'].
  - pose proof (rep_distinct _ _ _ Hrep) as Hnd. apply list_elem_of_lookup in Hin as [i Hi], Hr' as [j Hj].
    assert ((identity <$> snapshot_records im) !! i = Some (identity r)) as Hi' by (by rewrite list_lookup_fmap, Hi).
    assert ((identity <$> snapshot_records im) !! j = Some (identity r)) as Hj' by (rewrite list_lookup_fmap, Hj; simpl; unfold identity; by rewrite Hb', Hk').
    pose proof (NoDup_lookup _ _ _ _ Hnd Hi' Hj'). congruence.
  - destruct (rep_appended _ _ _ Hrep r' Hr') as [_ Hn]; [by rewrite Hb'|]. destruct Hn. apply list_elem_of_fmap. exists r. unfold identity. by rewrite Hb', Hk'.
Qed.

Section Compacted.
Context (s0 : Store) (d : db) (im : image) (docs : list (string * list record)) (out : list record) (p : pager) (s : Store) (hps : list hpage).
Context (Hs0 : synced s0 d) (Hper : persists s0 im) (Hrecs : ∀ b k, at_ d b k = image_at im b k).
Context (Hp : paged s0 d docs out p s) (Hempty : doc p = []) (Hcov : covers s0 (bucket_names s0) out).
Context (Hrep : represents (disk s) (id s) im).
Context (Hnames : hp_name <$> hps = (hist_docs docs).*1) (Hdocs : hp_records <$> hps = (hist_docs docs).*2).
Context (Hseqs : ∀ hp, hp ∈ hps → hp_seq hp = s_sequence s0).
#[local] Abbreviation q := (s_sequence s0).
#[local] Abbreviation im' := (compact_image im q hps docs).

Lemma compact_snapshot : snapshot_records im' ≡ₚ concat (hp_records <$> im_history im) ++ out.
Proof.
  unfold snapshot_records, compact_image. simpl. rewrite fmap_app, concat_app, Hdocs, <-app_assoc, <-docs_partition.
  by rewrite <-(paged_out _ _ _ _ _ _ Hp), Hempty, app_nil_r.
Qed.
Lemma compact_records : image_records im' = snapshot_records im'.
Proof. unfold image_records. simpl. by rewrite app_nil_r. Qed.

(** What the pager goes through in a history bucket is pending. *)
Lemma out_pending r : r ∈ out → historyBucket (record_Bucket r) = true → record_Key r ∈ pending s0 (record_Bucket r).
Proof.
  intros Hr Hb. destruct Hcov as [_ Hfrom]. destruct (Hfrom r Hr) as [_ Hk]. unfold bucket_ids in Hk. rewrite Hb in Hk.
  by rewrite merge_sort_Permutation, elem_of_elements in Hk.
Qed.

Lemma in_history (r : record) : r ∈ concat (hp_records <$> im_history im) → ∃ hp, hp ∈ im_history im ∧ r ∈ hp_records hp.
Proof.
  induction (im_history im) as [|hp l IH]; simpl; [by intros ?%elem_of_nil|]. intros [?|(hp' & ? & ?)%IH]%elem_of_app; [exists hp|exists hp']; set_solver.
Qed.

Lemma compact_distinct : NoDup (identity <$> snapshot_records im').
Proof.
  rewrite compact_snapshot, fmap_app. apply NoDup_app. split_and!.
  - pose proof (rep_distinct _ _ _ Hrep) as Hnd. unfold snapshot_records in Hnd. rewrite fmap_app in Hnd. by apply NoDup_app in Hnd as [? _].
  - intros x (r & -> & Hr)%list_elem_of_fmap (r' & Heq & Hr')%list_elem_of_fmap. injection Heq as Hb Hk.
    destruct (in_history r Hr) as (hp & Hhp & Hr1). destruct (rep_history _ _ _ Hrep hp Hhp) as (_ & _ & Hh). destruct (Hh r Hr1) as [Hhist _].
    rewrite Hb in Hhist. pose proof (out_pending r' Hr' Hhist) as Hpend. apply (per_fresh _ _ Hper) in Hpend. apply Hpend.
    apply list_elem_of_fmap. exists r. unfold identity, snapshot_records. rewrite Hb, Hk. set_solver.
  - apply (paged_distinct _ _ _ _ _ _ Hp).
Qed.

Lemma compact_written r : r ∈ snapshot_records im' → written r = at_ d (record_Bucket r) (record_Key r).
Proof.
  rewrite compact_snapshot, elem_of_app. intros [Hr|Hr].
  - destruct (in_history r Hr) as (hp & Hhp & Hr1). rewrite Hrecs. symmetry. by eapply history_record.
  - by apply (paged_records _ _ _ _ _ _ Hp).
Qed.

(** Every record is in a page. *)
Lemma compact_complete b k : at_ d b k ≠ None → ∃ r, r ∈ snapshot_records im' ∧ writes b k r.
Proof.
  intros Hat. setoid_rewrite compact_snapshot. pose proof (sync_records _ _ Hs0 b k) as Href. destruct (find s0 b k) as [ref|] eqn:Hf; [|by inversion Href; congruence].
  destruct (bucket_ids_all s0 d b k ref Hs0 Hf) as [Hk|[Hb Hk]].
  - destruct Hcov as [Hall _]. destruct (Hall b k) as [x Hx]; [eapply bucket_names_all; by rewrite Hf|done|]. exists (record_for b k x). split; [set_solver|done].
  - rewrite <-(per_history _ _ Hper) in Hk. apply list_elem_of_fmap in Hk as (hp & Hfile & Hhp). inversion Href as [? x (dd & (q' & _ & Hh) & Hr & _)|]; subst.
    destruct (rep_history _ _ _ (per_represents _ _ Hper) hp Hhp) as (_ & Hin & _). rewrite Hfile in Hh. unfold hp_name at 2 in Hh. rewrite doc_kind_history in Hh.
    rewrite (per_version _ _ Hper), <-(holds_in_file s0) in Hin.
    pose proof (holds_unique (A := document) s0 (hp_name hp) "snapshot" q' (hp_seq hp) dd _ (sync_id _ _ Hs0) (proj2 (sync_versions _ _ Hs0)) ltac:(done) Hh Hin) as ->.
    exists (record_for b k x). split; [|done]. rewrite elem_of_app. left. apply list_elem_of_lookup_2 in Hr. simpl in Hr.
    apply (list_elem_of_fmap_2 hp_records) in Hhp. clear -Hr Hhp. induction Hhp; simpl; set_solver.
Qed.

Lemma compact_at b k : image_at im' b k = at_ d b k.
Proof.
  unfold image_at. rewrite compact_records. apply (after_tx_agree _ (at_ d)); [apply compact_written|apply compact_complete].
Qed.

Lemma compact_pages i rs : (page_docs docs).*2 !! i = Some rs → ∃ page, page ∈ docs ∧ page = (page_name q i, rs) ∧ Contains page.1 "-history-" = false.
Proof.
  intros Hi. apply list_lookup_fmap_Some in Hi as ([name rs'] & -> & Hi). destruct (paged_pages _ _ _ _ _ _ Hp) as [H1 H2].
  assert (name = page_name q i) as ->.
  { assert ((page_docs docs).*1 !! i = Some name) as Hn by (by rewrite list_lookup_fmap, Hi). rewrite <-H1, H2 in Hn.
    apply list_lookup_fmap_Some in Hn as (n & -> & Hn). apply lookup_seq in Hn as [-> _]. done. }
  apply list_elem_of_lookup_2, list_elem_of_filter in Hi as [Hc Hin]. exists (page_name q i, rs'). done.
Qed.

Lemma compact_manifest : manifest_of im' = {| Pages := pages p; HistoryPages := p_historyPages p |}.
Proof.
  unfold manifest_of, compact_image. simpl. destruct (paged_pages _ _ _ _ _ _ Hp) as [H1 H2]. f_equal.
  - rewrite length_fmap. assert (length (page_docs docs) = length (pages p)) as -> by (by rewrite H1, length_fmap). done.
  - by rewrite fmap_app, Hnames, (per_history _ _ Hper), (paged_history _ _ _ _ _ _ Hp).
Qed.

Lemma page_kind page r : page ∈ docs → r ∈ page.2 → historyBucket (record_Bucket r) = Contains page.1 "-history-".
Proof.
  intros Hpage Hr. destruct (paged_docs _ _ _ _ _ _ Hp page Hpage) as [Hnp _]. destruct page as [name rs]. simpl in *. pose proof (sync_range _ _ Hs0).
  destruct Hnp as [(n & -> & _ & _ & Hk)|(n & -> & _ & _ & Hk)]; [rewrite history_is_history|rewrite page_no_history by lia]; by apply Hk.
Qed.

Lemma compact_hpage hp : hp ∈ hps → (hp_name hp, hp_records hp) ∈ docs ∧ Contains (hp_name hp) "-history-" = true.
Proof.
  intros [i Hi]%list_elem_of_lookup. assert ((hist_docs docs) !! i = Some (hp_name hp, hp_records hp)) as Hd.
  { assert ((hist_docs docs).*1 !! i = Some (hp_name hp)) as H1 by (by rewrite <-Hnames, list_lookup_fmap, Hi).
    assert ((hist_docs docs).*2 !! i = Some (hp_records hp)) as H2 by (by rewrite <-Hdocs, list_lookup_fmap, Hi).
    rewrite list_lookup_fmap in H1. rewrite list_lookup_fmap in H2. destruct (hist_docs docs !! i) as [[name rs]|]; [|done]. by simplify_eq/=. }
  by apply list_elem_of_lookup_2, list_elem_of_filter in Hd as [Hc Hin].
Qed.

Lemma compact_represents raw :
  sealed (envelopeVersion s) (id s) "manifest" q "manifest.yaml" {| Pages := pages p; HistoryPages := p_historyPages p |} raw →
  represents (<["manifest.yaml" := mkfile true raw]> (disk s)) (id s) im'.
Proof.
  intros Hraw. pose proof Hrep as [H1 H2 H3 H4 H5 H6 H7 H8 H9 H10 H11 H12 H13 H14 H15 H16].
  destruct (same_memory_sequence _ _ (paged_memory _ _ _ _ _ _ Hp)) as [Hq _]. pose proof (paged_newer _ _ _ _ _ _ Hp) as Hlt.
  assert (envelopeVersion s = im_version im) as Hv.
  { rewrite (per_version _ _ Hper). by destruct (paged_memory _ _ _ _ _ _ Hp) as (? & ? & ? & ? & ? & ? & ->). }
  pose proof (per_sequence _ _ Hper) as Hseq. pose proof (per_snapshot _ _ Hper) as Hsnap. pose proof (sync_range _ _ Hs0) as Hr.
  assert (∀ A (Y : Yaml A) name kind seq (x : A), name ≠ "manifest.yaml" → in_file (disk s) (im_version im) (id s) name kind seq x →
    in_file (<["manifest.yaml" := mkfile true raw]> (disk s)) (im_version im) (id s) name kind seq x) as Hin.
  { intros A Y name kind seq x Hn (raw' & v' & Hx & Hr'). exists raw', v'. by rewrite lookup_insert_ne. }
  assert (∀ page, page ∈ docs → in_file (disk s) (im_version im) (id s) page.1 "snapshot" q (mkdocument page.2)) as Hpage.
  { intros page Hpg. destruct (paged_docs _ _ _ _ _ _ Hp page Hpg) as [_ Hh]. by rewrite holds_in_file, Hv in Hh. }
  assert (im_sequence im' = q) as Hq' by (unfold im_sequence; simpl; lia).
  split; try done; rewrite ?Hq'; simpl.
  - lia.
  - by rewrite lookup_insert_ne.
  - by apply Hin.
  - lia.
  - rewrite decide_False by lia. exists raw, (im_version im). rewrite lookup_insert_eq. split_and!; [done|lia|lia|].
    pose proof compact_manifest as Hm. simpl in Hm. rewrite Hm, <-Hv. exact Hraw.
  - intros hp [Hhp|Hhp]%elem_of_app.
    + destruct (H8 hp Hhp) as (Ha & Hc & Hd). split_and!; [lia|lia| |done]. by apply Hin.
    + destruct (compact_hpage hp Hhp) as [Hd Hc]. rewrite (Hseqs hp Hhp). split_and!; [lia|lia|apply Hin; [done|exact (Hpage _ Hd)]|].
      intros r Hr'. split; [by rewrite (page_kind _ r Hd Hr')|]. apply (paged_records _ _ _ _ _ _ Hp). rewrite <-(paged_out _ _ _ _ _ _ Hp), elem_of_app, elem_of_docs.
      left. eauto.
  - rewrite fmap_app. apply NoDup_app. split_and!; [done| |].
    + intros x (hp & -> & Hhp)%list_elem_of_fmap (hp' & Heq & Hhp')%list_elem_of_fmap. destruct (H8 hp Hhp) as (Ha & _).
      unfold hp_name in Heq. apply history_name_inj in Heq as [Heq _]; rewrite ?(Hseqs hp' Hhp') in *; lia.
    + rewrite Hnames. pose proof (paged_nodup _ _ _ _ _ _ Hp) as Hnd. unfold hist_docs. clear -Hnd.
      induction docs as [|[name rs] l IH]; [constructor|]. apply NoDup_cons in Hnd as [Hn Hnd]. rewrite filter_cons. simpl. case_decide; [|by apply IH].
      simpl. constructor; [|by apply IH]. intros (page & Hp1 & [_ Hp2]%list_elem_of_filter)%list_elem_of_fmap. apply Hn. simpl in *. rewrite Hp1. by apply (list_elem_of_fmap_2 fst).
  - intros i rs Hi. destruct (compact_pages i rs Hi) as (page & Hpg & -> & Hc). split; [apply Hin; [done|exact (Hpage _ Hpg)]|].
    intros r Hr'. by rewrite (page_kind _ r Hpg Hr').
  - intros x Hx. rewrite lookup_insert_ne in Hx by done. rewrite <-Hseq. by apply H12.
  - exact compact_distinct.
  - intros r. rewrite compact_records, compact_snapshot, elem_of_app. intros [Hr'|Hr'].
    + apply H14. unfold image_records, snapshot_records. set_solver.
    + destruct (paged_records _ _ _ _ _ _ Hp r Hr') as [Hdel Hw]. apply (sync_identified _ _ Hs0).
      pose proof (sync_records _ _ Hs0 (record_Bucket r) (record_Key r)) as Hf. rewrite <-Hw in Hf. unfold written in Hf. rewrite Hdel in Hf. inversion Hf. eauto.
  - by intros r ?%elem_of_nil.
  - intros name Hn. rewrite lookup_insert_ne; [by apply H16|]. by destruct (not_legacy name Hn) as (_ & _ & ? & _).
Qed.
End Compacted.

(** ** Compaction step by step *)

(** The files represent the records [d]. *)
Definition recoverable d s : Prop := ∃ im, represents (disk s) (id s) im ∧ ∀ b k, image_at im b k = at_ d b k.

Lemma ends_ret {A} P (a : A) Q X : (∀ s, P s → Q a s) → ends P (mret a) Q X.
Proof. intros HQ s s' r Hs [= <- <-]. auto. Qed.
Lemma ends_modify P f Q X : (∀ s, P s → Q () (f s)) → ends P (modify f) Q X.
Proof. intros HQ s s' r Hs [= <- <-]. auto. Qed.
Lemma ends_get {B} P (f : Store → ST B) Q X : (∀ s, P s → ends (λ s', s' = s) (f s) Q X) → ends P (gets (λ s, s) ≫= f) Q X.
Proof. intros Hf s s' r Hs. unfold mbind, ST_bind, gets. by apply (Hf s Hs). Qed.
Lemma ends_ex {A Y} (P : Y → Store → Prop) (m : ST A) Q X : (∀ y, ends (P y) m Q X) → ends (λ s, ∃ y, P y s) m Q X.
Proof. intros Hm s s' r [y Hs]. by apply (Hm y). Qed.
Lemma ends_fix {A} P (m : ST A) Q X : (∀ s, P s → ends (λ s', s' = s) m Q X) → ends P m Q X.
Proof. intros Hm s s' r Hs. by apply (Hm s Hs). Qed.
Lemma ends_assoc {A B C} P (m : ST A) (f : A → ST B) (g : B → ST C) Q X : ends P ((m ≫= f) ≫= g) Q X → ends P (m ≫= λ a, f a ≫= g) Q X.
Proof. intros H s s' r Hs. rewrite <-ST_bind_assoc. by apply H. Qed.

Lemma removal_removes s2 (kept : list string) : (∀ name, name ∈ kept → ∃ x, name = "snapshots/" +++ x ∧ (slash ∉ bytes x) ∧ x ≠ "") →
  preserves (removes s2 kept)
    (each (λ _ subdir, remove_superseded kept subdir) () ["journal"; "snapshots"]).
Proof.
  intros Hkept. assert (∀ subdir, subdir ∈ ["journal"; "snapshots"] → preserves (removes s2 kept) (remove_superseded kept subdir)) as Hdir.
  { intros subdir Hsub. unfold remove_superseded. apply preserves_bind; [apply preserves_gets|]. intros s.
    apply preserves_bind; [|intros u; apply syncDir_removes]. apply preserves_each. intros u entry. destruct (_ && _) eqn:Hc; [apply preserves_ret|].
    apply remove_file_removes; [by apply removal_spares|by apply removal_removable]. }
  cbn [each]. apply preserves_bind; [apply Hdir; set_solver|].
  intros u. apply preserves_bind; [apply Hdir; set_solver|]. intros u'. apply preserves_ret.
Qed.

(** Removing what an image does not use. *)
Lemma removes_represents s2 kept im s3 : represents (disk s2) (id s2) im → (∀ hp, hp ∈ im_history im → hp_name hp ∈ kept) →
  (∀ i, (i < length (im_pages im))%nat → page_name (im_snapshot im) i ∈ kept) → im_journal im = [] → removes s2 kept s3 →
  represents (disk s3) (id s3) im.
Proof.
  intros Hrep Hh Hp Hj (dsk & fl & -> & Hsub & Hk). apply (represents_frame (disk s2)); [done| | |]; simpl.
  - intros name Hn. apply Hk. destruct Hn as [| | |hp Hhp|i Hi|i Hi]; [right; done..|left; auto|left; auto|]. rewrite Hj in Hi. simpl in Hi. lia.
  - intros x [f Hx]. exists f. by eapply lookup_weaken.
  - intros name Hn. apply Hk. right. unfold removable. destruct (not_legacy name Hn) as (_ & _ & _ & -> & ->). done.
Qed.

(** Nothing is pending once the new pages are in use. *)
Lemma moved_nothing_pending s0 d docs out p s s2 b k : paged s0 d docs out p s → doc p = [] → covers s0 (bucket_names s0) out → synced s0 d →
  moved (manifested p s) d docs (newPages p) s2 → (k ∉ pending s2 b).
Proof.
  intros Hp Hempty [Hcov _] Hs0 Hm Hk. destruct (moved_pending _ _ _ _ _ Hm b k Hk) as [Hb _].
  destruct (moved_unpends _ _ _ _ _ Hm b k Hk) as [Hk1 Hn]. change (k ∈ pending s b) in Hk1.
  rewrite (proj1 (proj2 (same_memory_find s0 s b k (paged_memory _ _ _ _ _ _ Hp)))) in Hk1.
  destruct (sync_pending _ _ Hs0 b k Hk1) as [_ Hf].
  destruct (Hcov b k) as [x Hx]; [by eapply bucket_names_all|unfold bucket_ids; rewrite Hb; by rewrite merge_sort_Permutation, elem_of_elements|].
  rewrite <-(paged_out _ _ _ _ _ _ Hp), Hempty, app_nil_r, elem_of_docs in Hx. destruct Hx as (page & Hpage & Hx).
  apply (Hn page (record_for b k x) Hpage); [rewrite <-(paged_names _ _ _ _ _ _ Hp); by apply list_elem_of_fmap_2|exact Hx|done].
Qed.

Section CompactEnds.
Context (s0 : Store) (d : db) (im : image).
Context (Hs0 : synced s0 d) (Hper : persists s0 im) (Hrecs : ∀ b k, at_ d b k = image_at im b k) (Hlt : snapshotSequence s0 < s_sequence s0).

(** The manifest names the new pages. *)
Definition switched p docs out hps s : Prop := doc p = [] ∧ paged s0 d docs out p s ∧ covers s0 (bucket_names s0) out ∧
  hp_name <$> hps = (hist_docs docs).*1 ∧ represents (disk s) (id s) (compact_image im (s_sequence s0) hps docs) ∧
  ∀ b k, image_at (compact_image im (s_sequence s0) hps docs) b k = at_ d b k.

Lemma manifest_ends p :
  ends (λ s, (doc p = [] ∧ ∃ docs out, paged s0 d docs out p s ∧ covers s0 (bucket_names s0) out) ∧ imaged im (s_sequence s0) s)
       (write "manifest.yaml" "manifest" (s_sequence s0) {| Pages := pages p; HistoryPages := p_historyPages p |})
       (λ _ s, ∃ docs out hps, switched p docs out hps s) (recoverable d).
Proof.
  intros s s' r ((Hempty & docs & out & Hp & Hcov) & Hrep & Hq) Hw. assert (0 ≤ s_sequence s0) as Hq0 by (destruct (sync_range _ _ Hs0); lia).
  destruct (hpages_of (s_sequence s0) (hist_docs docs)) as (hps & Hn1 & Hn2 & Hn3); [intros page; by eapply paged_history_name|].
  destruct (manifest_written _ _ _ _ _ _ _ _ _ _ Hp Hw) as [_ Hr]. apply write_spec in Hw as (raw & fl & dr & Hsl & _ & Hres).
  pose proof (compact_represents s0 d im docs out p s hps Hs0 Hper Hrecs Hp Hempty Hcov Hrep Hn1 Hn2 Hn3 raw Hsl) as Hrep'.
  pose proof (compact_at s0 d im docs out p s hps Hs0 Hper Hrecs Hp Hempty Hcov Hrep Hn1 Hn2 Hn3) as Hat.
  destruct Hres as [(-> & _ & ->)|([->|[-> _]] & ->)].
  - exists im. split; [exact Hrep|]. intros b k. by rewrite Hrecs.
  - exists docs, out, hps. split_and!; [done..| |done]. exact Hrep'.
  - exists (compact_image im (s_sequence s0) hps docs). split; [exact Hrep'|done].
Qed.

(** The rest of the compaction works on files that represent the new image. *)
Lemma compact_tail_ends p docs out hps s : switched p docs out hps s → let im' := compact_image im (s_sequence s0) hps docs in
  ends (λ s1, s1 = manifested p s)
    (_ ← each (λ _ name, d ← read document name "snapshot" (s_sequence s0); apply d.2 name false) () (newPages p);
     _ ← each (λ _ subdir, remove_superseded (pages p ++ p_historyPages p) subdir) () ["journal"; "snapshots"];
     modify compacted)
    (λ _ s, ∃ im', persists s im' ∧ ∀ b k, image_at im' b k = at_ d b k) (recoverable d).
Proof.
  intros (Hempty & Hp & Hcov & Hnames & Hrep & Hat) im'. pose proof (proj1 (same_memory_sequence _ _ (paged_memory _ _ _ _ _ _ Hp))) as Hq.
  assert (∀ s, imaged im' (s_sequence s0) s → recoverable d s) as HX by (intros s1 [Hr _]; by exists im').
  pose proof (manifested_movable _ _ _ _ _ _ Hp Hempty) as Hmov.
  apply (ends_bind _ _ _ (λ _ s2, moved (manifested p s) d docs (newPages p) s2 ∧ imaged im' (s_sequence s0) s2)).
  { eapply ends_weaken; [apply (ends_keeping (λ s1, s1 = manifested p s) _ (λ _, moved (manifested p s) d docs (newPages p)) (imaged im' (s_sequence s0)))| |]; [| |exact HX| |done].
    - eapply spec_weaken; [apply (spec_each (λ pre _, moved (manifested p s) d docs pre))|intros s1 ->; by eapply manifested_moved|done].
      intros pre name post u Hn. rewrite <-Hq. change (s_sequence s) with (s_sequence (manifested p s)). apply moved_step; [done|].
      rewrite (paged_names _ _ _ _ _ _ Hp), Hn. set_solver.
    - apply preserves_each. intros u name. apply preserves_bind; [by apply imaged_read|]. intros [q doc]. apply imaged_apply.
    - intros s1 ->. done. }
  intros u. apply ends_fix. intros s2 [Hm [Hrep2 Hq2]].
  assert (∀ s3, removes s2 (pages p ++ p_historyPages p) s3 → represents (disk s3) (id s3) im') as Hrem.
  { intros s3. destruct (paged_pages _ _ _ _ _ _ Hp) as [Hpg1 Hpg2]. apply removes_represents; [done| | |done].
    - intros hp [Hhp|Hhp]%elem_of_app; rewrite elem_of_app; right; rewrite (paged_history _ _ _ _ _ _ Hp), elem_of_app.
      + left. rewrite <-(per_history _ _ Hper). by apply list_elem_of_fmap_2.
      + right. rewrite <-Hnames. by apply list_elem_of_fmap_2.
    - intros i Hi. rewrite elem_of_app. left. rewrite Hpg2. apply list_elem_of_fmap_2, elem_of_seq. simpl in Hi. rewrite length_fmap in Hi.
      rewrite Hpg1, length_fmap. lia. }
  apply (ends_bind _ _ _ (λ _, removes s2 (pages p ++ p_historyPages p))).
  { intros s3 s3' r3 -> Hr. pose proof (removal_removes s2 (pages p ++ p_historyPages p)) as Hpres.
    specialize (Hpres ltac:(intros name Hn%elem_of_app; by eapply paged_kept) s2 (removes_nothing s2 _)). rewrite Hr in Hpres. simpl in Hpres.
    destruct r3; [done|]. exists im'. split; [by apply Hrem|done]. }
  intros u'. apply ends_modify. intros s3 Hs3. exists im'. split; [|done]. pose proof (Hrem s3 Hs3) as Hrep3. destruct Hs3 as (dsk & fl & -> & _).
  pose proof (moved_reindexed _ _ _ _ _ Hm) as (ix & o & ph & Hs2). unfold im' in *. split; try done.
  - simpl. rewrite Hs2. simpl. rewrite (per_version _ _ Hper). by destruct (paged_memory _ _ _ _ _ _ Hp) as (? & ? & ? & ? & ? & ? & ->).
  - simpl. rewrite Hq2. unfold im_sequence. simpl. lia.
  - simpl. rewrite fmap_app, Hnames, (per_history _ _ Hper), <-(paged_history _ _ _ _ _ _ Hp). by rewrite Hs2.
  - intros b k Hk. by destruct (moved_nothing_pending _ _ _ _ _ _ _ _ _ Hp Hempty Hcov Hs0 Hm Hk).
Qed.

Lemma compact_ends s' r : readOnly s0 = false → compact s0 = (s', r) → match r with
  | Ok _ => ∃ im', persists s' im' ∧ ∀ b k, image_at im' b k = at_ d b k
  | Err _ => recoverable d s'
  end.
Proof.
  intros Hro. cut (ends (λ s, s = s0) compact (λ _ s, ∃ im', persists s im' ∧ ∀ b k, image_at im' b k = at_ d b k) (recoverable d)).
  { intros Hc Hr. exact (Hc s0 s' r eq_refl Hr). }
  unfold compact. apply ends_get. intros s ->. rewrite Hro.
  apply (ends_bind _ _ _ (λ _ s, s = s0)); [by apply ends_ret|]. intros u.
  rewrite bool_decide_false by lia. fold (bucket_names s0). apply ends_assoc.
  assert (im_snapshot im < s_sequence s0) as Hlt' by (rewrite (per_snapshot _ _ Hper); done).
  eapply ends_bind; [eapply ends_weaken; [apply (ends_keeping _ _ _ (imaged im (s_sequence s0)) _ (paging_spec s0 d Hs0 Hlt))| |]|].
  - by eapply imaged_paging.
  - intros s [Hr _]. exists im. split; [done|]. intros b k. by rewrite Hrecs.
  - intros s ->. split; [done|]. split; [apply (per_represents _ _ Hper)|done].
  - intros p s Hp. exact Hp.
  - intros p. cbv beta. eapply ends_bind; [apply manifest_ends|]. intros n. cbv beta.
    apply (ends_bind _ _ _ (λ _ s1, ∃ docs out hps s, switched p docs out hps s ∧ s1 = manifested p s)).
    { apply ends_modify. intros s (docs & out & hps & Hs). by exists docs, out, hps, s. }
    intros u'. apply ends_ex. intros docs. apply ends_ex. intros out. apply ends_ex. intros hps. apply ends_ex. intros s.
    intros s1 s2 r2 [Hs ->]. apply (compact_tail_ends p docs out hps s Hs (manifested p s) s2 r2 eq_refl).
Qed.
End CompactEnds.

(** * Committing *)

(** A transaction in the index and the journal. *)
Lemma commit_persists s0 s2 s3 d im tx (n : Z) : persists s0 im → (∀ b k, at_ d b k = image_at im b k) → tx_ok d tx → rewritten s0 s2 → ordered_ok s2 →
  let q := s_sequence s0 + 1 in represents (disk s2) (id s2) ((journaled im tx) <| im_head := q |>) →
  apply (mkdocument tx) (journal_name q) false s2 = (s3, Ok ()) →
  let s4 := (remember (journal_name q) (mkdocument tx) n s3).1 in
  persists (s4 <| s_sequence := q |> <| journalCount := journalCount s4 + 1 |> <| journalBytes := journalBytes s4 + n |>)
           ((journaled im tx) <| im_head := q |>).
Proof.
  intros Hper Hrecs Htx (dsk & fl & dr & Hs2) Hok q Hrep Happ s4. pose proof (apply_reindexed (mkdocument tx) (journal_name q) false s2) as Hre.
  rewrite Happ in Hre. destruct Hre as (ix & o & ph & Hs3). simpl in Hs3.
  destruct (remember_recached s3 (journal_name q) (mkdocument tx) n) as [(c & co & cb & Hs4) _]. fold s4 in Hs4.
  pose proof (per_represents _ _ Hper) as Hrep0. pose proof (per_sequence _ _ Hper) as Hseq. split; simpl.
  - rewrite Hs4, Hs3. exact Hrep.
  - rewrite Hs4, Hs3, Hs2. apply (per_version _ _ Hper).
  - rewrite Hs4, Hs3, Hs2. apply (per_snapshot _ _ Hper).
  - change (im_sequence (journaled im tx) = q). rewrite journaled_sequence. lia.
  - rewrite Hs4, Hs3, Hs2. apply (per_history _ _ Hper).
  - intros b k Hk. change (k ∈ pending s4 b) in Hk. change ((b, k) ∉ identity <$> snapshot_records im).
    assert (k ∈ pending s3 b) as Hk3 by (rewrite Hs4 in Hk; exact Hk).
    destruct (apply_pending _ _ _ _ _ Hok Happ b k Hk3) as [Hk2|(_ & Hb & r & Hr & [Hrb Hrk])].
    + apply (per_fresh _ _ Hper). rewrite Hs2 in Hk2. exact Hk2.
    + destruct (tx_history _ _ Htx r Hr) as [_ Hn]; [by rewrite Hrb|]. rewrite Hrb, Hrk in Hn. fold (at_ d b k) in Hn. rewrite Hrecs in Hn.
      pose proof (history_new _ _ im b k Hrep0 Hb Hn) as Hnew. unfold image_records in Hnew. rewrite fmap_app in Hnew. set_solver.
Qed.

Lemma commit_tx_ends s d im tx s' r : durable s d im → s_sequence s < MaxUint64 → readOnly s = false → tx_ok d tx → commit_tx tx s = (s', r) →
  match r with
  | Ok _ => ∃ im', persists s' im' ∧ ∀ b k, image_at im' b k = at_ (commit_records d tx) b k
  | Err _ => recoverable d s' ∨ recoverable (commit_records d tx) s'
  end.
Proof.
  intros [Hs Hper Hrecs] Hmax Hro Htx. unfold commit_tx. st_run. pose proof (sync_range _ _ Hs) as Hr.
  assert (u64 (s_sequence s + 1) = s_sequence s + 1) as -> by (unfold u64; apply Z.mod_small; unfold MaxUint64 in *; lia).
  set (q := s_sequence s + 1). set (name := journal_name q). pose proof (per_represents _ _ Hper) as Hrep. pose proof (per_sequence _ _ Hper) as Hseq.
  assert (recoverable d s) as Hrec0 by (exists im; split; [done|]; intros b k; by rewrite Hrecs).
  assert (∀ b k, image_at (journaled im tx) b k = at_ (commit_records d tx) b k) as Hat by (intros b k; by rewrite journaled_at, commit_records_at, Hrecs).
  unfold or_poison at 1. st_run. destruct (write name "transaction" q (mkdocument tx) s) as [s1 r1] eqn:Hw1.
  pose proof (next_journal_not_placed s) as Hnew. fold q name in Hnew.
  destruct (synced_after_write (A := document) s d name _ _ _ _ _ Hs ltac:(intros; apply Hnew; lia) Hw1) as [Hs1 [Hrw1 _ _ _ Hh1]].
  apply write_spec in Hw1 as (raw & fl & dr & Hsl & _ & Hres).
  assert (represents (<[name := mkfile true raw]> (disk s)) (id s) (journaled im tx)) as Hrep1.
  { subst name q. rewrite <-Hseq. apply represents_journal; [done|lia| |apply (tx_identity _ _ Htx)|].
    - rewrite (per_version _ _ Hper), Hseq. exact Hsl.
    - intros r0 Hr0 Hb. destruct (tx_history _ _ Htx r0 Hr0 Hb) as [Hdel Hn]. split; [done|]. fold (at_ d (record_Bucket r0) (record_Key r0)) in Hn.
      rewrite Hrecs in Hn. pose proof (history_new _ _ im _ _ Hrep Hb Hn) as Hx. unfold image_records in Hx. rewrite fmap_app in Hx. unfold identity at 1. set_solver. }
  destruct Hres as [(-> & _ & Hs1e)|(Hr1 & Hs1e)].
  { intros [= <- <-]. left. rewrite Hs1e. exact Hrec0. }
  assert (represents (disk s1) (id s1) (journaled im tx)) as Hrep1' by (by rewrite Hs1e).
  assert (recoverable (commit_records d tx) s1) as Hrec1 by (by exists (journaled im tx)).
  destruct Hr1 as [->|[-> _]]; [|intros [= <- <-]; right; exact Hrec1]. set (n := len raw) in *.
  unfold or_poison at 1. st_run. destruct (write "head.yaml" "head" q () s1) as [s2 r2] eqn:Hw2.
  destruct (synced_after_write (A := ()) s1 d "head.yaml" _ _ _ _ _ Hs1 ltac:(by apply not_placed) Hw2) as [Hs2 [Hrw2 _ _ Ho2 Hr2]].
  assert (match r2 with Ok _ => represents (disk s2) (id s2) ((journaled im tx) <| im_head := q |>) | Err _ => recoverable (commit_records d tx) s2 end) as Hhead.
  { assert (im_version (journaled im tx) = envelopeVersion s1) as Hv1 by (rewrite Hs1e; apply (per_version _ _ Hper)).
    assert (0 ≤ q ≤ im_sequence (journaled im tx)) as Hqr by (rewrite journaled_sequence; lia).
    apply write_spec in Hw2 as (raw2 & fl2 & dr2 & Hsl2 & _ & Hres2).
    assert (represents (<["head.yaml" := mkfile true raw2]> (disk s1)) (id s1) ((journaled im tx) <| im_head := q |>)) as Hrep2.
    { apply (represents_head (disk s1)); [done|done| |].
      - exists raw2, (envelopeVersion s1). rewrite lookup_insert_eq, Hv1. pose proof (sync_versions _ _ Hs1). split_and!; [done|lia|lia|done].
      - intros x Hx. by rewrite lookup_insert_ne. }
    destruct Hres2 as [(-> & _ & ->)|([->|[-> _]] & ->)]; [exact Hrec1|exact Hrep2|]. by exists ((journaled im tx) <| im_head := q |>). }
  destruct r2 as [m|e]; [|intros [= <- <-]; right; exact Hhead].
  assert (holds s2 name "transaction" q (mkdocument tx)) as Hh2.
  { destruct Hh1 as (raw1 & v1 & Hd1 & Hv1). destruct Hrw2 as (? & ? & ? & ->). exists raw1, v1. rewrite Ho2; [done|]. by intros [=]. }
  unfold or_poison at 1. st_run. destruct (apply_records_ok name tx 0 s2) as [s3 Happ]; [apply (tx_identity _ _ Htx)|].
  change (apply (mkdocument tx) name false s2 = (s3, Ok ())) in Happ. rewrite Happ.
  assert (rewritten s s2) as Hrw by (destruct Hrw1 as (? & ? & ? & ->), Hrw2 as (? & ? & ? & ->); by eexists _, _, _).
  assert (s_sequence s2 = s_sequence s ∧ readOnly s2 = readOnly s ∧ snapshotSequence s2 = snapshotSequence s) as (Hq2 & Hro2 & Hsn2)
    by (by destruct Hrw as (? & ? & ? & ->)).
  pose proof (commit_persists s s2 s3 d im tx n Hper Hrecs Htx Hrw (sync_ordered _ _ Hs2) Hhead Happ) as Hper5. cbv zeta in Hper5. fold q name in Hper5.
  pose proof (commit_synced s2 d tx n s3 Hs2 ltac:(lia) Htx) as Hs5. rewrite Hq2 in Hs5. fold q name in Hs5.
  specialize (Hs5 Hh2 Happ). cbv zeta in Hs5.
  change (remember name (mkdocument tx) n s3) with ((remember name (mkdocument tx) n s3).1, Ok ()). cbv beta iota zeta.
  set (s4 := (remember name (mkdocument tx) n s3).1) in *. set (s5 := s4 <| s_sequence := q |> <| journalCount := _ |> <| journalBytes := _ |>) in *.
  assert (readOnly s5 = false ∧ snapshotSequence s5 < s_sequence s5) as [Hro5 Hlt5].
  { destruct (remember_recached s3 name (mkdocument tx) n) as [(c & o & b & Hc) _]. fold s4 in Hc.
    pose proof (apply_reindexed (mkdocument tx) name false s2) as Hre. rewrite Happ in Hre. destruct Hre as (ix & od & ph & Hre). simpl in Hre.
    subst s5. rewrite Hc, Hre. simpl. rewrite Hro2, Hsn2. split; [done|lia]. }
  destruct (_ || _); [|intros [= <- <-]; by eexists].
  unfold or_poison. st_run. destruct (compact s5) as [s6 r6] eqn:Hcomp.
  pose proof (compact_ends s5 (commit_records d tx) _ Hs5 Hper5 ltac:(intros b k; by rewrite <-Hat) Hlt5 s6 r6 Hro5 Hcomp) as Hend.
  destruct r6 as [[]|e]; intros [= <- <-]; [exact Hend|]. right. exact Hend.
Qed.

(** * Updates *)

Lemma recoverable_same d d' s : (∀ b k, at_ d b k = at_ d' b k) → recoverable d s → recoverable d' s.
Proof. intros Hd (im & Hrep & Hat). exists im. split; [done|]. intros b k. by rewrite Hat. Qed.

(** What running a program leaves on the files. *)
Lemma exec_ends {A} (p : prog A) s d im s1 r : raises_to currentEnvelopeVersion p → durable s d im → exec p [] s = (s1, r) →
  ∃ f d1 tx r1, r = (a ← r1; Ok (tx, a)) ∧ (∀ cm, run (mkoracle f cm) p d [] = (d1, tx, r1)) ∧ synced s1 d1 ∧
    (∀ b k, at_ d1 b k = at_ d b k) ∧ s_sequence s1 = s_sequence s ∧ readOnly s1 = readOnly s ∧
    recoverable d s1 ∧ (∀ a, r1 = Ok a → ∃ im1, durable s1 d1 im1).
Proof.
  intros Hp [Hs Hper Hrecs] He. destruct (exec_refines p Hp s d [] Hs) as (f & s1' & d1 & tx & r1 & _ & _ & He' & Hrun & Hs1).
  rewrite He in He'. injection He' as <- ->. exists f, d1, tx, r1.
  pose proof (run_same_data _ _ _ _ _ _ _ (Hrun Committed)) as (Hdata & Hseq & _ & Hro & _).
  assert (∀ b k, at_ d1 b k = at_ d b k) as Hat by (intros b k; unfold at_, bucket_of; by rewrite Hdata).
  split_and!; [done..| | | |].
  - by rewrite (sync_sequence _ _ Hs1), Hseq, (sync_sequence _ _ Hs).
  - by rewrite (sync_readOnly _ _ Hs1), Hro, (sync_readOnly _ _ Hs).
  - destruct (exec_persists p Hp s d [] im s1 _ Hs Hper He) as [[v Hper1]|(e & v & _ & Hrep)];
      exists (at_version im v); (split; [by try apply (per_represents _ _ Hper1)|]); intros b k; by rewrite Hrecs.
  - intros a ->. destruct (exec_persists p Hp s d [] im s1 _ Hs Hper He) as [[v Hper1]|(e & v & He1 & _)]; [|done].
    exists (at_version im v). split; [done..|]. intros b k. by rewrite Hat, Hrecs.
Qed.

(** C21. An update is atomic on the files. Whatever the program of an update and
    whichever of its system calls fail, before or after publishing their file,
    in raising the version, writing the transaction, the head, or at any point of
    a compaction, the files it leaves represent either the records from before
    the update, or those records with the whole transaction the program made. A
    process that stops at a system call leaves the files of that call's failure,
    so no crash leaves a part of a transaction. When the update returns a value,
    the files represent the records the specification has after it. *)
Theorem crash_atomic {A} ctx (p : prog A) s d im s' r : durable s d im → raises_to currentEnvelopeVersion p → s_sequence s < MaxUint64 →
  update ctx p s = (s', r) →
  (recoverable d s' ∨ ∃ o d1 tx a, run o p d [] = (d1, tx, Ok a) ∧ tx_ok d1 tx ∧ recoverable (commit_records d1 tx) s') ∧
  ∀ a, r = Ok a → ∃ o d' im', db_update o ctx p d = (d', Ok a) ∧ durable s' d' im'.
Proof.
  intros Hd Hp Hmax. pose proof Hd as [Hs Hper Hrecs].
  assert (recoverable d s) as Hrec0 by (exists im; split; [apply (per_represents _ _ Hper)|]; intros b k; by rewrite Hrecs).
  rewrite update_eq. unfold available. st_run. unfold db_update, db_available.
  destruct ctx as [e|]; [intros [= <- <-]; by split; [left|]|]. rewrite (sync_available _ _ Hs).
  destruct (unavailable d) eqn:Hu; [intros [= <- <-]; by split; [left|]|]. cbv beta iota. simpl fail_if.
  st_run. rewrite (sync_readOnly _ _ Hs). destruct (db_readOnly d) eqn:Hro; [intros [= <- <-]; by split; [left|]|].
  destruct (exec p [] s) as [s1 r0] eqn:He. destruct (exec_ends p s d im s1 r0 Hp Hd He) as (f & d1 & tx & r1 & -> & Hrun & Hs1 & Hat & Hq1 & Hro1 & Hrec1 & Hdur1).
  destruct r1 as [a|e]; cbn; [|intros [= <- <-]; by split; [left|]]. destruct (Hdur1 a eq_refl) as [im1 Hd1].
  case_bool_decide as Htx.
  { intros [= <- <-]. split; [by left|]. intros a' [= <-]. exists (mkoracle f Committed), d1, im1. by rewrite Hrun, bool_decide_true. }
  st_run. rewrite (check_records_refines s1 d1 tx Hs1). destruct (records_ok d1 tx) as [seen|e] eqn:Hok; cbn; [|intros [= <- <-]; by split; [left|]].
  assert (tx_ok d1 tx) as Htxok by (by eapply records_ok_spec).
  assert (readOnly s1 = false) as Hro1' by (by rewrite Hro1, (sync_readOnly _ _ Hs)).
  destruct (commit_tx tx s1) as [s2 r2] eqn:Hcommit.
  pose proof (commit_tx_ends s1 d1 im1 tx s2 r2 Hd1 ltac:(lia) Hro1' Htxok Hcommit) as Hends.
  destruct (commit_tx_spec s1 d1 tx s2 r2 Hs1 ltac:(lia) Hro1' Htxok Hcommit) as (c & _ & Hr2 & Hsy).
  assert (recoverable (commit_records d1 tx) s2 → recoverable d s2 ∨ ∃ o d1 tx a, run o p d [] = (d1, tx, Ok a) ∧ tx_ok d1 tx ∧ recoverable (commit_records d1 tx) s2)
    as Hnew by (intros Hn; right; exists (mkoracle f Committed), d1, tx, a; by rewrite Hrun).
  destruct r2 as [[]|e]; intros [= <- <-].
  - destruct Hends as (im' & Hper' & Hat'). split; [apply Hnew; exists im'; split; [apply (per_represents _ _ Hper')|done]|].
    intros a' [= <-]. exists (mkoracle f Committed), (commit_records d1 tx), im'. rewrite Hrun, Hok, bool_decide_false by done. split; [done|].
    split; [by destruct c|done|intros b k; by rewrite Hat'].
  - split; [|done]. destruct Hends as [Hold|Hn]; [left; by eapply recoverable_same|by apply Hnew].
Qed.
End Crash.
