(* ===== verification/StateFollow.v ===== *)
(** The life of the store on its files: no operation raises the security version
    above the newest one, so every call of the node on the files is a step of the
    specification of StateLife.v, and what is proved of the steps there holds of
    the records the files represent. *)
From S2P Require Import Prelude GoLib Base64 Entities GoTime FileTypes SignedAuth RbacTyped StateProg StateRecords.
From S2P Require Import StateAuthorizations StateJobs StatePlans StateUploads StatePeers StateProgFacts StateLaws StateLife.
From S2P Require Import StateStore StateIndex StateReach StateFiles StateSync StateCompact StateRefine.
From stdpp Require Import options.
#[local] Set Default Proof Using "All".
Local Open Scope Z_scope.

(** * Security versions *)

Section Raises.
Context {top : Z}.

Lemma raises_bind {A B} (p : prog A) (f : A → prog B) : raises_to top p → (∀ a, raises_to top (f a)) → raises_to top (p ≫= f).
Proof.
  intros Hp Hf. induction p as [a|e|b k c IH|p IH|b c IH|b kind v c IH|c IH|c IH|rec p IH|c IH|n c IH]; simpl in *; auto.
  destruct Hp as (Hn & (e & He) & Hp). split_and!; [done|exists e; by rewrite He|]. intros r. by apply IH.
Qed.
Lemma raises_forM {A B} (f : B → A → prog B) b l : (∀ b a, raises_to top (f b a)) → raises_to top (forM f b l).
Proof. intros Hf. revert b. induction l as [|x l IH]; intros b; [done|]. apply raises_bind; auto. Qed.
Lemma raises_lift {A} (r : result A) : raises_to top (lift r).
Proof. by destruct r. Qed.
Lemma raises_refuse_if c e : raises_to top (refuse_if c e).
Proof. by destruct c. Qed.
Lemma raises_try_get A `{Yaml A} b k : raises_to top (try_get A b k).
Proof. intros [data|e]; [|done]. by destruct (Unmarshal data). Qed.
Lemma raises_get A `{Yaml A} b k : raises_to top (get A b k).
Proof. apply raises_bind; [apply raises_try_get|apply raises_lift]. Qed.
Lemma raises_put {A} `{Yaml A} b k g o st (v : A) : raises_to top (put b k g o st v).
Proof. apply raises_bind; [apply raises_lift|done]. Qed.
Lemma raises_ensure n : n ≤ top → raises_to top (ensureSecurityVersion n).
Proof. intros Hn. split_and!; [done|by eexists|]. intros r. apply raises_lift. Qed.
End Raises.

Create HintDb raises.
#[export] Hint Resolve raises_lift raises_refuse_if raises_try_get raises_get raises_put : raises.
#[export] Hint Extern 1 (raises_to _ (ensureSecurityVersion _)) => (apply raises_ensure; vm_compute; done) : raises.

Ltac head_of t := lazymatch t with ?f _ => head_of f | _ => t end.
(** One step through a program. *)
Ltac raise := repeat (cbv beta zeta; first
  [ progress intros
  | solve [auto with raises]
  | lazymatch goal with
    | |- raises_to _ (_ ≫= _) => apply raises_bind
    | |- raises_to _ (forM _ _ _) => apply raises_forM
    | |- raises_to _ (Ret _) => exact I
    | |- raises_to _ (Throw _) => exact I
    | |- raises_to _ (Index _ _) => intro
    | |- raises_to _ (Ordered _ _ _ _) => intro
    | |- raises_to _ (Sequence _) => intro
    | |- raises_to _ (Managed _) => intro
    | |- raises_to _ (Pending _) => intro
    | |- raises_to ?top (Emit _ ?p) => change (raises_to top p)
    | |- raises_to _ (match ?x with _ => _ end) => destruct x
    | |- op_raises_to ?top (Update ?p _) => change (raises_to top p)
    | |- op_raises_to ?top (Configure ?p) => change (raises_to top p)
    | |- op_raises_to _ (Reply _) => exact I
    | |- op_raises_to _ (match ?x with _ => _ end) => destruct x
    | |- raises_to _ ?p => let h := head_of p in unfold h
    | |- op_raises_to _ ?c => let h := head_of c in unfold h
    end ]).

Section Follow.
Context {U : Unicode} {C : Crypto}.
Context {YJob : Yaml Job} {YItem : Yaml JobItem} {YEvent : Yaml JobEvent} {YIdem : Yaml idempotencyRecord}.
Context {YPlan : Yaml DestructivePlan} {YAuth : Yaml JobAuthorization} {YString : Yaml string} {YInvite : Yaml inviteRecord}.
Context {YUpload : Yaml UploadSession} {YTrash : Yaml TrashItem} {YToken : Yaml OperationalTokenState} {YTrust : Yaml ManagedTrust}.
Context {YRequest : Yaml requestRecord} {YPeer : Yaml Peer} {YGrant : Yaml TransferPathGrant} {YMount : Yaml Mount}.
Context {YConf : Yaml configurationRecord} {YAudit : Yaml auditRecord} {YBool : Yaml bool}.

Lemma raises_claim_secured top ids node keys now : raises_to top (claim_secured ids node keys now).
Proof. induction ids as [|id ids IH]; [done|]. cbn [claim_secured]. raise. Qed.
Lemma raises_claim top ids now : raises_to top (claim ids now).
Proof. induction ids as [|id ids IH]; [done|]. cbn [claim]. raise. Qed.
Lemma raises_purge_plans top ctx ids n now : raises_to top (purge_plans ctx ids n now).
Proof. revert n. induction ids as [|id ids IH]; intros n; [done|]. cbn [purge_plans]. raise. Qed.
#[local] Hint Resolve raises_claim_secured raises_claim raises_purge_plans : raises.

(** Views do not raise the version. *)
Definition view_raises {A} (c : op A) : Prop := match c with View p _ => raises_to currentEnvelopeVersion p | _ => True end.

Lemma store_op_raises {A} e (c : op A) : StoreOp e c → view_raises c → op_raises_to currentEnvelopeVersion c.
Proof. intros Hc Hv. destruct Hc; try exact Hv; clear Hv; raise. Qed.

(** * Calls on the files *)

Context {E : Aead} `{!AeadOk E} {R : Random} `{!RandomOk R}.
Context {YEnv : Yaml envelope} `{!Faithful envelope} {YDoc : Yaml document} `{!Faithful document}.
Context {YManifest : Yaml manifest} `{!Faithful manifest} {YHeader : Yaml header} `{!Faithful header} {YUnit : Yaml ()} `{!Faithful ()}.
Implicit Types (s : Store) (d : db).

(** A step of the store of files: an operation of the node, or a change in how
    the next system calls will end. *)
Inductive file_step s s' : Prop :=
| FileCall {A} e (c : op A) ctx r : StoreOp e c → view_raises c → s_sequence s < MaxUint64 → call ctx c s = (s', r) → file_step s s'
| FileFaults fl : s' = s <| faults := fl |> → file_step s s'.

Lemma tracks_faults s d fl : tracks s d → tracks (s <| faults := fl |>) d.
Proof. intros [Hs|Hu]; [left|by right]. destruct Hs. split; done. Qed.

(** C19. The store of files implements the specification. A call of any
    operation of the node on a store that represents the records [d], whichever of
    the system calls that change the directory fail, before or after their effect,
    in the write of the journal, of the head and of the compaction, gives the
    answer the specification gives for some outcome of its commit points, and the
    store then represents the specification's records, or neither can be used any
    more. When none of them fails, the outcome is the one where everything commits.
    Files and directories that are there can be read. *)
Theorem store_refines {A} e (c : op A) ctx s d s' r : tracks s d → StoreOp e c → view_raises c → s_sequence s < MaxUint64 →
  call ctx c s = (s', r) → ∃ o d', db_call o ctx c d = (d', r) ∧ tracks s' d' ∧ (faults s = [] → faultless o).
Proof.
  intros Ht Hc Hv Hmax Hcall. destruct (call_refines ctx c s d s' r Ht (store_op_raises e c Hc Hv) Hmax Hcall) as (o & d' & H1 & H2 & H3).
  by exists o, d'.
Qed.

(** Any sequence of calls on the files, whichever changes fail, is a sequence of
    steps of the specification. *)
Theorem files_follow s s' d : rtc file_step s s' → tracks s d → ∃ d', rtc step d d' ∧ tracks s' d'.
Proof.
  intros Hsteps. revert d. induction Hsteps as [s|s s1 s2 Hstep _ IH]; intros d Ht; [by exists d|].
  destruct Hstep as [A e c ctx r Hc Hv Hmax Hcall|fl ->].
  - destruct (call_refines ctx c s d s1 r Ht (store_op_raises e c Hc Hv) Hmax Hcall) as (o & d1 & _ & Hd & Ht1).
    destruct (IH d1 Ht1) as (d' & Hd' & Ht'). exists d'. split; [|done]. eapply rtc_l; [|exact Hd']. exists e. by eapply Call.
  - apply IH. by apply tracks_faults.
Qed.
End Follow.
