(* ===== verification/StateStoreExamples.v ===== *)
(** A concrete store: the theorems on the files of the node's state applied where
    their hypotheses hold. *)
From S2P Require Import Prelude GoLib Base64 Json FileTypes Entities SignedAuth SignedAuthExamples GoTime RbacTyped.
From S2P Require Import StateProg StateRecords StateAuthorizations StateJobs StatePlans StateUploads.
From S2P Require Import StatePeers StateProgFacts StateLaws StateLife StateCodec StateExamples.
From S2P Require Import StateStore StateIndex StateReach StateFiles StateSync StateCompact StateRefine StateImage StateOpen StateCrash StateFollow.
From stdpp Require Import countable options.
Local Open Scope Z_scope.
#[local] Existing Instance latin1_unicode.
#[local] Existing Instance demo_crypto.

(** * A cipher, a source of randomness and a codec to compute with *)

(** The sealed text shows the plain text and the data it is bound to. *)
Definition demo_seal (plain aad : string) : string := bits (enc (plain, aad)).
#[global] Instance demo_aead : Aead := {|
  Seal _ plain aad := demo_seal plain aad;
  Open _ data aad :=
    match dec (of_bits data) with
    | Some (plain, aad') => if bool_decide (aad' = aad ∧ demo_seal plain aad = data) then Some plain else None
    | None => None
    end;
|}.
#[global] Instance demo_aead_ok : AeadOk demo_aead.
Proof.
  split.
  - intros nonce plain aad. cbn [Open Seal demo_aead]. unfold demo_seal at 1. rewrite of_bits_bits, dec_enc. by rewrite bool_decide_true.
  - intros nonce data aad plain. cbn [Open Seal demo_aead]. destruct (dec _) as [[plain' aad']|]; [|done].
    case_bool_decide as Hd; [|done]. intros [= <-]. by destruct Hd.
Qed.

#[global] Instance demo_random : Random := λ _ size, Nat.iter (Z.to_nat size) (String "7") "".
#[global] Instance demo_random_ok : RandomOk demo_random.
Proof.
  intros n0 size Hs. unfold rand_Read, demo_random. rewrite <-(Z2Nat.id size) at 2 by done. unfold len. f_equal.
  induction (Z.to_nat size) as [|n IH]; [done|]. simpl. by rewrite IH.
Qed.

#[global] Instance list_code `{Code A} : Code (list A) := {|
  enc l := positives_flatten (enc <$> l);
  dec p := l ← positives_unflatten p; mapM dec l;
|}.
#[global] Instance list_code_ok `{CodeOk A} : CodeOk (list A).
Proof.
  intros l. cbn [enc dec list_code]. rewrite positives_unflatten_flatten. cbn [mbind option_bind].
  apply mapM_fmap_Some. apply dec_enc.
Qed.
#[global] Instance record_code : Code record := {|
  enc r := enc (record_Bucket r, record_Key r, record_Group r, record_Order r, record_State r, record_Delete r, record_Data r);
  dec p := (λ '(b, k, g, o, s, d, v), mkrecord b k g o s d v) <$> dec p;
|}.
#[global] Instance record_code_ok : CodeOk record.
Proof. intros r. cbn [enc dec record_code]. rewrite dec_enc. by destruct r. Qed.
#[global] Instance document_code : Code document := {| enc d := enc (Records d); dec p := mkdocument <$> dec p |}.
#[global] Instance document_code_ok : CodeOk document.
Proof. intros d. cbn [enc dec document_code]. rewrite dec_enc. by destruct d. Qed.
#[global] Instance manifest_code : Code manifest := {|
  enc m := enc (Pages m, HistoryPages m);
  dec p := (λ '(a, b), {| Pages := a; HistoryPages := b |}) <$> dec p;
|}.
#[global] Instance manifest_code_ok : CodeOk manifest.
Proof. intros m. cbn [enc dec manifest_code]. rewrite dec_enc. by destruct m. Qed.
#[global] Instance header_code : Code header := {| enc h := enc (Format h); dec p := mkheader <$> dec p |}.
#[global] Instance header_code_ok : CodeOk header.
Proof. intros h. cbn [enc dec header_code]. rewrite dec_enc. by destruct h. Qed.
#[global] Instance envelope_code : Code envelope := {|
  enc e := enc (env_Version e, StorageID e, Kind e, env_Sequence e, Nonce e, Ciphertext e);
  dec p := (λ '(v, i, k, q, n, c), {| env_Version := v; StorageID := i; Kind := k; env_Sequence := q; Nonce := n; Ciphertext := c |}) <$> dec p;
|}.
#[global] Instance envelope_code_ok : CodeOk envelope.
Proof. intros e. cbn [enc dec envelope_code]. rewrite dec_enc. by destruct e. Qed.

(** * A store *)

Definition the_directory : Directory := {| key_length := 32; is_directory := true; locked := false; subdirs := ∅; unsafe := ∅ |}.
(** [s] is the store [open] creates in an empty directory. *)
Definition created (s : Store) : Prop := open the_directory false (new_Store ∅ [] 0%nat false) = (s, Ok ()).
Definition no_records : db := image_db new_image false.
#[local] Abbreviation create_plan := (CreateDestructivePlan the_plan at_110).
(** The program of an update that raises the version and stores a token. *)
Definition stage : prog () := _ ← ensureSecurityVersion 3; put "operational_tokens" "t1" "" "" "" "staged".
(** The system calls of the update: the header is published, the transaction is
    published and its sync fails. *)
Definition failing : list write_outcome := [Published; FailedAfter].

Lemma the_directory_usable : usable the_directory false.
Proof. split; simpl; [done..|set_solver|done]. Qed.
Lemma created_durable : ∃ s, created s ∧ durable s no_records new_image.
Proof. exact (open_new the_directory 0%nat the_directory_usable eq_refl). Qed.
Lemma durable_faults s d im fl : durable s d im → durable (s <| faults := fl |>) d im.
Proof. intros [Hs Hp Hr]. split; [|..|done]; [destruct Hs|destruct Hp]; by split. Qed.
Lemma in_use_faults s fl : in_use s → in_use (s <| faults := fl |>).
Proof. intros Hs. pose proof (use_outside s (disk s) fl Hs) as Hu. by destruct s. Qed.
Lemma durable_sequence s : durable s no_records new_image → s_sequence s < MaxUint64.
Proof. intros Hd. by rewrite (sync_sequence _ _ (dur_synced _ _ _ Hd)). Qed.
Lemma stage_raises : raises_to currentEnvelopeVersion stage.
Proof. apply raises_bind; [by apply raises_ensure|intros; apply raises_put]. Qed.

(** * The theorems *)

Lemma ordered_exact_witness : ∃ s, created s ∧ let s' := (update None stage (s <| faults := failing |>)).1 in
  in_use s' ∧ default [] (ordered s' !! ("operational_tokens", "all", "")) = sorted_keys (infos s' "operational_tokens") "all" "".
Proof.
  destruct created_durable as (s & Hc & _). exists s. split; [exact Hc|]. intros s'.
  assert (in_use s') as Hs by exact (use_update None stage _ (in_use_faults s failing (use_open _ _ _ _ _ _ _ Hc))).
  split; [exact Hs|exact (ordered_exact s' "operational_tokens" "all" "" Hs)].
Defined.

Lemma cache_bounded_witness : ∃ s, created s ∧ in_use (update None stage s).1 ∧ cacheBytes (update None stage s).1 ≤ cacheLimit.
Proof.
  destruct created_durable as (s & Hc & _). exists s. split; [exact Hc|].
  assert (in_use (update None stage s).1) as Hs by exact (use_update None stage _ (use_open _ _ _ _ _ _ _ Hc)).
  split; [exact Hs|exact (proj1 (cache_bounded _ Hs))].
Defined.

Lemma write_read_witness : ∃ s s' n, created s ∧ write "snapshots/x.yaml" "snapshot" 7 (mkdocument []) (s <| faults := [] |>) = (s', Ok n) ∧
  read document "snapshots/x.yaml" "snapshot" 7 s' = (s', Ok (7, mkdocument [])).
Proof.
  destruct created_durable as (s & Hc & Hd). apply (durable_faults _ _ _ []) in Hd.
  destruct (write_published_file "snapshots/x.yaml" "snapshot" 7 (mkdocument []) (s <| faults := [] |>) ltac:(by destruct s)) as (raw & _ & Hw).
  eexists s, _, _. split; [exact Hc|]. split; [exact Hw|].
  exact (proj1 (write_read _ "snapshots/x.yaml" "snapshot" 7 7 (mkdocument []) _ _
    (rep_id _ _ _ (per_represents _ _ (dur_persists _ _ _ Hd))) (sync_versions _ _ (dur_synced _ _ _ Hd)) (or_introl eq_refl) Hw)).
Defined.

Lemma store_refines_witness : ∃ s, created s ∧ ∃ o d', db_call o None create_plan no_records = (d', (call None create_plan s).2) ∧
  tracks (call None create_plan s).1 d' ∧ (faults s = [] → faultless o).
Proof.
  destruct created_durable as (s & Hc & Hd). exists s. split; [exact Hc|].
  exact (store_refines the_env create_plan None s no_records _ _ (or_introl (dur_synced _ _ _ Hd)) (OpCreatePlan _ _ _) I (durable_sequence _ Hd)
    (surjective_pairing _)).
Defined.

Lemma open_recovers_witness : ∃ s, created s ∧ ∃ s' d im', open the_directory false (new_Store (disk s) [] 9%nat true) = (s', Ok ()) ∧
  durable s' d im' ∧ (∀ b k, at_ d b k = image_at new_image b k) ∧ s_sequence s' = 0 ∧ envelopeVersion s' = 1 ∧ unavailable d = false ∧ db_readOnly d = true.
Proof.
  destruct created_durable as (s & Hc & Hd). exists s. split; [exact Hc|].
  destruct (open_recovers (disk s) (id s) new_image true the_directory false 9%nat
    (per_represents _ _ (dur_persists _ _ _ Hd)) new_numbered the_directory_usable) as (s' & d & im' & Ho & Hd' & Hrest).
  exists s', d, im'. split; [exact Ho|]. split; [exact Hd'|]. exact Hrest.
Defined.

Lemma crash_atomic_witness : ∃ s, created s ∧ let s' := (update None stage (s <| faults := failing |>)).1 in
  recoverable no_records s' ∨
  ∃ o d1 tx a, run o stage no_records [] = (d1, tx, Ok a) ∧ tx_ok d1 tx ∧ recoverable (commit_records d1 tx) s'.
Proof.
  destruct created_durable as (s & Hc & Hd). exists s. split; [exact Hc|]. intros s'.
  exact (proj1 (crash_atomic None stage (s <| faults := failing |>) no_records new_image _ _
    (durable_faults _ _ _ failing Hd) stage_raises (durable_sequence s Hd) (surjective_pairing _))).
Defined.
