(* ===== verification/TrustFacts.v ===== *)
(** The trust of a node: a bundle is read back as it was written, what the Control
    Tower signs the node accepts, and, however its calls end and whenever it restarts,
    the bundle a node uses descends from the one it was enrolled with. Calls beside
    each other break that. *)
From S2P Require Import Prelude GoLib Base64 Json JsonFacts JsonStrings JsonPrint Entities FileTypes SignedAuth SignedAuthFacts SignedRoundtrip GoTime.
From S2P Require Import StateProg StateRecords StateUploads StateProgFacts StateCodec StateFiles SignedAuthExamples Trust.
From stdpp Require Import options.
Import trust.
Local Open Scope Z_scope.
Local Open Scope go_scope.
#[local] Set Default Proof Using "Type*".

(** * Dates *)

Definition date_byte (c : ascii) : bool := in_range 48 57 c || (c ∈b ["-"; "T"; ":"; "."; "Z"]%char).
Lemma date_byte_plain c : date_byte c = true → byte_val c < 128 ∧ json_escape (byte_val c) = None ∧ (byte_val c =? RuneError) = false.
Proof. destruct c as [[] [] [] [] [] [] [] []]; vm_compute; done. Qed.
Lemma trim_zeros_bytes s c : c ∈ bytes (trim_zeros s) → c ∈ bytes s.
Proof. induction s as [|d s IH]; cbn; [done|]. destruct (_ && _); [by intros ?%elem_of_nil|]. cbn. intros [->|Hc]%elem_of_cons; [left|right; auto]. Qed.
Lemma Format_bytes t c : four_digit_year t → c ∈ bytes (Format t) → date_byte c = true.
Proof.
  unfold four_digit_year, Format. set (sec := t / nanoseconds). destruct (civil (sec / 86400)) as [[y m] d] eqn:Hc. intros Hy. apply days_civil in Hc as (_ & Hm & Hd).
  set (s := sec mod 86400). assert (0 ≤ s < 86400) as Hs by (apply Z.mod_pos_bound; lia).
  assert (0 ≤ t mod nanoseconds < nanoseconds) as Hns by (apply Z.mod_pos_bound; done).
  assert (0 ≤ s / 3600 ∧ 0 ≤ s mod 3600 / 60 ∧ 0 ≤ s mod 60) as (Hh & Hmi & Hse) by (clearbody s; clear -Hs; Z.to_euclidean_division_equations; lia).
  assert (∀ w z, 0 ≤ z → c ∈ bytes (pad_dec w z) → date_byte c = true) as Hpad by (intros w z Hz H; unfold date_byte; by rewrite (pad_dec_digits w z c)).
  rewrite !bytes_append. rewrite !elem_of_app. unfold fraction. intros Hin.
  repeat match goal with H : _ ∨ _ |- _ => destruct H as [H|H] end.
  all: try (eapply Hpad; [|exact Hin]; lia).
  all: try (apply list_elem_of_singleton in Hin as ->; reflexivity).
  destruct (_ =? 0); [by apply elem_of_nil in Hin|]. rewrite bytes_append in Hin. apply elem_of_app in Hin as [Hin|Hin%trim_zeros_bytes].
  - apply list_elem_of_singleton in Hin as ->. reflexivity.
  - eapply Hpad; [|exact Hin]. lia.
Qed.
Lemma plain_body s : (∀ c, c ∈ bytes s → date_byte c = true) → json_body false 0 s = s ∧ ∀ emit, json_body emit 0 s = s.
Proof.
  intros Hs. assert (∀ emit, json_body emit 0 s = s) as H; [|done]. induction s as [|c s IH]; intros emit; [done|].
  destruct (date_byte_plain c (Hs c ltac:(left))) as (Hc & He & Hr). cbn [json_body decode_rune]. rewrite (proj2 (Z.ltb_lt _ _) Hc). cbn [fst snd]. rewrite Hr, He. cbn [andb Nat.pred].
  f_equal. apply IH. intros d Hd. apply Hs. by right.
Qed.
Lemma marshal_utc t : four_digit_year t → marshal_time (UTC t) = Ok (json_string (Format t)).
Proof.
  intros Hy. unfold marshal_time, UTC, format_zone. cbn [instant zone]. rewrite Z.mul_0_l, Z.add_0_r. pose proof Hy as Hy'. unfold four_digit_year in Hy'.
  destruct (civil _) as [[y m] d]. rewrite (proj2 (Z.leb_le 0 y)), (proj2 (Z.leb_le y 9999)) by lia. cbn [andb]. rewrite Z.eqb_refl. unfold json_string.
  by rewrite (proj1 (plain_body (Format t) (λ c, Format_bytes t c Hy))).
Qed.
Lemma Format_utf8 t : four_digit_year t → utf8 (Format t).
Proof. intros Hy. apply ascii_valid. intros c Hc%Format_bytes; [|done]. by apply date_byte_plain. Qed.
Lemma Format_Z t : HasSuffix (Format t) "Z" = true.
Proof.
  assert (∃ a, Format t = a +++ "Z") as [a ->]; [|unfold HasSuffix; rewrite rev_append; apply HasPrefix_app].
  unfold Format. destruct (civil _) as [[y m] d]. eexists. rewrite <-!append_assoc. reflexivity.
Qed.
Lemma decode_utc old t : four_digit_year t → decode_time old (json_string (Format t)) (JString (Format t)) = Ok (UTC t).
Proof.
  intros Hy. unfold decode_time, json_string. rewrite (proj1 (plain_body (Format t) (λ c, Format_bytes t c Hy))).
  unfold TrimPrefix. rewrite StripPrefix_app. cbn [from_option id]. rewrite TrimSuffix_app, Parse_Format by done. unfold zone_of. by rewrite Format_Z.
Qed.

(** * A bundle is read back *)

Section Roundtrip.

Definition key_tree (k : BundleKey) : json :=
  obj [Some ("id", JString (Key_ID k)); Some ("key", JString (Key_Key k)); Some ("not_after", JString (Format (instant (Key_NotAfter k))))].
Definition signature_tree (s : BundleSignature) : json := obj [Some ("key_id", JString (Sig_KeyID s)); Some ("value", JString (Sig_Value s))].
Definition slice_tree {A} (f : A → json) (l : option (list A)) : json := match l with None => JNull | Some l => JArray (f <$> l) end.
Definition bundle_tree (b : Bundle) : json :=
  obj [Some ("version", JNumber (json_int (Bundle_Version b))); Some ("issued_at", JString (Format (instant (IssuedAt b))));
       Some ("roots", slice_tree JString (Roots b)); Some ("intermediates", slice_tree JString (Intermediates b));
       Some ("signing_keys", slice_tree key_tree (SigningKeys b)); Some ("revoked_serials", slice_tree JString (RevokedSerials b));
       Some ("signature", signature_tree (Signature b))].

(** A bundle with texts and dates that can be written: valid UTF-8, dates in UTC with a
    year of four digits. *)
Definition writable_date (t : ztime) : Prop := zone t = 0 ∧ four_digit_year (instant t).
Definition writable_key (k : BundleKey) : Prop := utf8 (Key_ID k) ∧ utf8 (Key_Key k) ∧ writable_date (Key_NotAfter k).
Definition writable (b : Bundle) : Prop :=
  int64 (Bundle_Version b) ∧ writable_date (IssuedAt b) ∧ Forall utf8 (slice (Roots b)) ∧ Forall utf8 (slice (Intermediates b))
  ∧ Forall writable_key (slice (SigningKeys b)) ∧ Forall utf8 (slice (RevokedSerials b)) ∧ utf8 (Sig_KeyID (Signature b)) ∧ utf8 (Sig_Value (Signature b)).

Lemma date_utc t : writable_date t → t = UTC (instant t) ∧ four_digit_year (instant t).
Proof. destruct t as [t z]. intros [Hz Hy]. cbn in *. by subst. Qed.
Lemma marshal_key_tree k : writable_key k → marshal_key k = Ok (jprint (key_tree k)).
Proof.
  intros (_ & _ & [Hd Hy]%date_utc). unfold marshal_key. rewrite Hd, marshal_utc by done. cbn [mbind result_bind]. unfold key_tree. by rewrite jprint_obj.
Qed.
Lemma marshal_keys_tree l : Forall writable_key (slice l) → marshal_keys l = Ok (jprint (slice_tree key_tree l)).
Proof.
  destruct l as [l|]; [|done]. cbn [slice from_option id]. intros Hl. unfold marshal_keys.
  assert (mapM marshal_key l = Ok ((λ k, jprint (key_tree k)) <$> l)) as ->.
  { induction Hl as [|k l Hk Hl IH]; [done|]. cbn [mapM]. by rewrite marshal_key_tree, IH. }
  cbn [mbind result_bind slice_tree jprint]. f_equal. unfold json_list. by rewrite <-!list_fmap_compose.
Qed.
Lemma slice_strings l : json_slice json_string l = jprint (slice_tree JString l).
Proof. destruct l as [l|]; [|done]. cbn. by rewrite (json_list_map JString json_string). Qed.
Lemma marshal_tree b : writable b → Bundle_Marshal b = Ok (jprint (bundle_tree b)).
Proof.
  intros (_ & [Hd Hy]%date_utc & _ & _ & Hk & _). unfold Bundle_Marshal. rewrite Hd, marshal_utc, marshal_keys_tree by done. cbn [mbind result_bind].
  unfold bundle_tree. rewrite jprint_obj. cbn [fmap list_fmap option_map option_fmap fst snd]. rewrite !slice_strings. unfold signature_json, signature_tree. by rewrite jprint_obj.
Qed.
Lemma printed_slice {A} (f : A → json) l : Forall (λ a, printed (f a)) (slice l) → printed (slice_tree f l).
Proof. destruct l as [l|]; [|constructor]. intros Hl. constructor. by apply Forall_fmap. Qed.
Lemma printed_key k : writable_key k → printed (key_tree k).
Proof. intros (H1 & H2 & [_ Hy]). apply printed_obj. repeat (constructor; [split; [done|constructor; first [assumption|by apply Format_utf8]]|]). constructor. Qed.
Lemma printed_texts l : Forall utf8 (slice l) → printed (slice_tree JString l).
Proof. intros Hl. apply printed_slice. eapply Forall_impl; [exact Hl|]. by constructor. Qed.
Lemma printed_bundle b : writable b → printed (bundle_tree b).
Proof.
  intros (H1 & [_ Hy] & H3 & H4 & H5 & H6 & H7 & H8). apply printed_obj. repeat apply Forall_cons_2; [..|apply Forall_nil_2]; (split; [done|]).
  - constructor.
  - constructor. by apply Format_utf8.
  - by apply printed_texts.
  - by apply printed_texts.
  - apply printed_slice. eapply Forall_impl; [exact H5|]. apply printed_key.
  - by apply printed_texts.
  - apply printed_obj. repeat (constructor; [split; [done|by constructor]|]). constructor.
Qed.

Lemma decode_key_tree k : writable_key k → decode_key zero_key (key_tree k) = Ok k.
Proof.
  intros (_ & _ & [Hd Hy]%date_utc). unfold decode_key, key_tree. rewrite decode_obj. destruct k as [i kk na]. cbn [Key_ID Key_Key Key_NotAfter] in *.
  do 2 (field_step; cbn [decode_string]; field_names; rewrite ?Ok_bind). field_step. cbn [jprint]. rewrite decode_utc by done. rewrite Ok_bind. cbn. by rewrite Hd.
Qed.
Lemma decode_slice_keys l : Forall writable_key (slice l) → decode_slice decode_key zero_key None (slice_tree key_tree l) = Ok l.
Proof.
  destruct l as [l|]; [|done]. cbn [slice from_option id slice_tree]. intros Hl. unfold decode_slice. cbn [decode_list]. change (slice None) with (@nil BundleKey).
  assert (decode_elements decode_key zero_key [] (key_tree <$> l) = Ok l) as ->; [|done].
  induction Hl as [|k l Hk Hl IH]; [done|]. cbn [fmap list_fmap decode_elements head tail from_option id]. rewrite decode_key_tree by done. cbn [mbind result_bind]. cbn [fmap] in IH. by rewrite IH.
Qed.
Lemma decode_slice_strings l : decode_slice decode_string "" None (slice_tree JString l) = Ok l.
Proof. destruct l as [l|]; [|done]. unfold decode_slice, slice_tree. cbn [decode_list]. change (slice None) with (@nil string). by rewrite decode_strings. Qed.
Lemma decode_signature_tree s : decode_signature no_signature (signature_tree s) = Ok s.
Proof. unfold decode_signature, signature_tree. rewrite decode_obj. destruct s as [k v]. do 2 (field_step; cbn [decode_string Sig_KeyID Sig_Value]; field_names; rewrite ?Ok_bind). done. Qed.
Lemma decode_bundle_tree b : writable b → decode_bundle zero_bundle (bundle_tree b) = Ok b.
Proof.
  intros (Hv & [Hd Hy]%date_utc & _ & _ & Hk & _). unfold decode_bundle, bundle_tree. rewrite decode_obj.
  destruct b as [v at_ roots ints keys revoked sig]. cbn [Bundle_Version IssuedAt Roots Intermediates SigningKeys RevokedSerials Signature] in *.
  field_step. cbn [decode_int]. rewrite ParseInt64_int by done. rewrite !Ok_bind. field_step. cbn [jprint]. rewrite decode_utc by done. rewrite !Ok_bind.
  do 2 (field_step; rewrite decode_slice_strings, !Ok_bind).
  field_step. rewrite decode_slice_keys by done. rewrite !Ok_bind. field_step. rewrite decode_slice_strings, !Ok_bind. field_step. rewrite decode_signature_tree, !Ok_bind.
  cbn. by rewrite Hd.
Qed.
(** What was written is read back, unless it is too long. *)
Lemma parse_marshal b text : writable b → Bundle_Marshal b = Ok text → len text ≤ maxBundleBytes → ParseBundle text = Ok b.
Proof.
  intros Hb. rewrite marshal_tree by done. intros Heq Hl. assert (text = jprint (bundle_tree b)) as -> by congruence. unfold ParseBundle. rewrite (proj2 (Z.ltb_ge _ _)) by done.
  rewrite json_parse_printed by by apply printed_bundle. cbn [mbind result_bind]. by apply decode_bundle_tree.
Qed.
End Roundtrip.

Section Bundles.
Context {U : Unicode} {C : Crypto} {CO : CryptoOk C} {X : X509}.

(** * What is signed is accepted *)

(** A signature covers every field of a bundle. *)
Lemma payload_injective b b' text : writable b → writable b' → len text ≤ maxBundleBytes → payload b = Ok text → payload b' = Ok text →
  b <| Signature := no_signature |> = b' <| Signature := no_signature |>.
Proof.
  assert (∀ b, writable b → writable (b <| Signature := no_signature |>)) as Hw by (intros a (? & ? & ? & ? & ? & ? & _); by split_and!).
  intros Hb%Hw Hb'%Hw Hl. unfold payload. destruct (Bundle_Marshal (b <| Signature := no_signature |>)) as [t|] eqn:Ht; [|done].
  destruct (Bundle_Marshal (b' <| Signature := no_signature |>)) as [t'|] eqn:Ht'; [|done]. intros [= <-] [= Heq]. apply append_inj_l in Heq. subst t'.
  assert (len t ≤ maxBundleBytes) by (unfold len in *; rewrite append_length in Hl; lia). apply parse_marshal in Ht; [|done..]. apply parse_marshal in Ht'; [|done..]. congruence.
Qed.
(** C26. A bundle the Control Tower signs with a key the node's bundle lists and has not let
    expire is accepted by the node when it arrives, if it is valid, newer, and keeps a
    root. *)
Theorem signed_bundle_accepted b previous keyID key signed text now :
  Sign b keyID key = Ok signed → writable signed → Bundle_Marshal signed = Ok text → len text ≤ maxBundleBytes →
  validate b now = Ok () → Bundle_Version previous < Bundle_Version b → rootSet b ∩ rootSet previous ≠ ∅ → PublicKeys previous now !! keyID = Some (ed25519_Public key) →
  ParseBundle text = Ok signed ∧ VerifyBundle signed (Some previous) "" now = Ok ().
Proof.
  intros Hs Hw Ht Hl Hv Hn Hr Hk. split; [by eapply parse_marshal|]. unfold Sign in Hs. destruct (signedauth.ValidKeyID keyID) eqn:Hid; [|done].
  destruct (Z.eqb_spec (len key) PrivateKeySize) as [Hlen|]; [|done]. cbn [negb orb] in Hs. destruct (payload b) as [p|] eqn:Hp; [|done]. set (sig := mkBundleSignature keyID (StdEncoding_EncodeToString (ed25519_Sign key p))) in *.
  assert (signed = b <| Signature := sig |>) as -> by (symmetry; by apply (f_equal (λ r, match r with Ok x => x | Err _ => zero_bundle end)) in Hs). clear Hs Hw Ht.
  unfold VerifyBundle. change (validate (b <| Signature := _ |>) now) with (validate b now). rewrite Hv. cbn [mbind result_bind].
  change (Bundle_Version (b <| Signature := _ |>)) with (Bundle_Version b). change (rootSet (b <| Signature := _ |>)) with (rootSet b).
  rewrite (proj2 (Z.leb_gt _ _)) by done. rewrite bool_decide_false by done. cbn [mbind result_bind]. change (Sig_KeyID (Signature (b <| Signature := sig |>))) with keyID.
  change (Sig_Value (Signature (b <| Signature := sig |>))) with (StdEncoding_EncodeToString (ed25519_Sign key p)).
  rewrite Hk, StdEncoding_round_trip, signature_size, Z.eqb_refl by done. cbn [negb]. change (payload (b <| Signature := _ |>)) with (payload b). rewrite Hp. cbn [mbind result_bind].
  by rewrite verify_sign.
Qed.

(** * The blocks of a certificate *)

Lemma pem_blocks_enough {XO : X509Ok X} fuel fuel' data : (String.length data < fuel)%nat → (fuel ≤ fuel')%nat → ∃ l, pem_blocks fuel data = Some l ∧ pem_blocks fuel' data = Some l.
Proof.
  revert fuel' data. induction fuel as [|fuel IH]; intros [|fuel'] data Hf Hle; [lia..|]. cbn [pem_blocks]. destruct (pem_Decode data) as [[[type content] rest]|] eqn:Hd; [|by exists []].
  apply pem_shrinks in Hd. destruct (IH fuel' rest) as (l & -> & ->); [lia..|]. by eexists.
Qed.
(** The fuel [blocks_of] gives the loop over the blocks of a certificate is enough,
    since a block that is decoded leaves less to decode ([pem_shrinks]). *)
Lemma blocks_of_enough {XO : X509Ok X} data : ∃ l, blocks_of data = Ok l ∧ ∀ fuel, (String.length data < fuel)%nat → pem_blocks fuel data = Some l.
Proof.
  destruct (pem_blocks_enough (S (String.length data)) (S (String.length data)) data) as (l & Hl & _); [lia..|]. exists l. unfold blocks_of. rewrite Hl. split; [done|].
  intros fuel Hf. destruct (pem_blocks_enough (S (String.length data)) fuel data) as (l' & Hl' & ->); [lia..|]. congruence.
Qed.
End Bundles.

(** * The life of a node's trust *)

Section Life.
Context {U : Unicode} {C : Crypto} {X : X509} {YTrust : Yaml ManagedTrust} {YO : YamlOk ManagedTrust id} {YToken : Yaml OperationalTokenState}.

(** A bundle follows another; it descends from one that had the pinned root. *)
Definition follows (b b' : Bundle) : Prop := ∃ now, VerifyBundle b' (Some b) "" now = Ok ().
Inductive descends (pin : string) : Bundle → Prop :=
| descends_first b now : VerifyBundle b None pin now = Ok () → descends pin b
| descends_next b b' : descends pin b → follows b b' → descends pin b'.
Lemma descends_rtc pin b b' : descends pin b → rtc follows b b' → descends pin b'.
Proof. intros Hb Hr. induction Hr; [done|]. apply IHHr. by eapply descends_next. Qed.
Lemma follows_newer b b' : follows b b' → Bundle_Version b < Bundle_Version b'.
Proof.
  intros [now H]. unfold VerifyBundle in H. destruct (validate b' now); [|done]. cbn [mbind result_bind] in H. destruct (Z.leb_spec (Bundle_Version b') (Bundle_Version b)); [done|lia].
Qed.
Lemma rtc_newer b b' : rtc follows b b' → Bundle_Version b ≤ Bundle_Version b'.
Proof. induction 1 as [|? ? ? ?%follows_newer]; lia. Qed.

(** What the manager keeps, and what the node's state has recorded. *)
Definition loads (st : ManagedTrust) (b : Bundle) : Prop :=
  ParseBundle (ManagedTrust_Bundle st) = Ok b ∧ ∃ p, loadPair (ManagedTrust_APICertPEM st) (ManagedTrust_APIKey st) = Ok p.
Definition trust_at (d : db) : option stored := at_ d "managed_trust" "current".
Definition holds (d : db) (st : ManagedTrust) : Prop := ∃ s, trust_at d = Some s ∧ Unmarshal (stored_Data s) = Ok st.

(** How the node moves: a call of the manager, with any outcome of its write; any other
    change of the state; the end of the process, after which the files are opened
    again; and the start of a new one. *)
Definition fits (b : Bundle) : Prop := writable b ∧ ∀ text, Bundle_Marshal b = Ok text → len text ≤ maxBundleBytes.
Definition writable_request (r : request) : Prop :=
  match r with
  | EnrollWith _ b _ _ _ | AdoptBundle b => fits b
  | _ => True
  end.
Inductive moves : option Manager * db → option Manager * db → Prop :=
| moves_call r t1 t2 t3 o ctx m d m' d' answer : writable_request r → perform r t1 t2 t3 o ctx m d = (m', d', answer) → moves (Some m, d) (Some m', d')
| moves_other m d d' : trust_at d' = trust_at d → (unavailable d = true → unavailable d' = true) → moves (m, d) (m, d')
| moves_stop m d d' : trust_at d' = trust_at d → moves (m, d) (None, d')
| moves_start yamlKeys o d d' m : Load yamlKeys o None d = (d', Ok m) → moves (None, d) (Some m, d').

Definition trust_record (text : string) : record := mkrecord "managed_trust" "current" "" "" "" false text.
Lemma run_put o (st : ManagedTrust) text d : Marshal st = Ok text → ∃ d1, recs d1 = recs d ∧
  (run o (_ ← ensureSecurityVersion 8; put "managed_trust" "current" "" "" "" st) d [] = (d1, [trust_record text], Ok ()) ∧ unavailable d1 = unavailable d
   ∨ (∃ e, run o (_ ← ensureSecurityVersion 8; put "managed_trust" "current" "" "" "" st) d [] = (d1, [], Err e)) ∧ unavailable d1 = true).
Proof.
  intros Hm. unfold ensureSecurityVersion, put. rewrite Hm. cbn [mbind prog_bind lift run app].
  destruct (8 <=? db_version d); [exists d; split; [done|left; split; reflexivity]|]. destruct (ensure_ok o 8).
  - eexists. split; [|left; split; reflexivity]. done.
  - eexists. split; [|right; split; [eexists; reflexivity|reflexivity]]. done.
Qed.
Lemma holds_record (st : ManagedTrust) text d : Unmarshal text = Ok st → holds (commit_records d [trust_record text]) st.
Proof. intros Hu. unfold holds, trust_at. rewrite commit_records_at. eexists. split; [reflexivity|done]. Qed.
Lemma trust_same d d' : recs d' = recs d → trust_at d' = trust_at d.
Proof. intros Hr. unfold trust_at, at_, bucket_of. by rewrite Hr. Qed.
Lemma put_ends o ctx st d d' answer : db_call o ctx (PutManagedTrust st) d = (d', answer) →
  (answer = Ok () ∧ unavailable d = false ∧ unavailable d' = false ∧ holds d' st)
  ∨ ((∃ e, answer = Err e) ∧ trust_at d' = trust_at d ∧ (unavailable d = true → unavailable d' = true))
  ∨ ((∃ e, answer = Err e) ∧ unavailable d = false ∧ unavailable d' = true ∧ holds d' st).
Proof.
  unfold PutManagedTrust, guarded. case_match; [intros [= <- <-]; right; left; eauto|]. cbn [db_call]. unfold db_update, db_available.
  destruct ctx as [e|]; [intros [= <- <-]; right; left; eauto|]. destruct (unavailable d) eqn:Hav; [intros [= <- <-]; right; left; eauto|]. cbn [fail_if].
  destruct (db_readOnly d); [intros [= <- <-]; right; left; split_and!; [by eexists|done|congruence]|].
  destruct (yaml_round_trip st) as (text & Hm & Hu). cbn [id] in Hu. destruct (run_put o st text d Hm) as (d1 & Hr & [[-> Hu1]|[[e ->] Hu1]]).
  - rewrite bool_decide_false by done. change (records_ok d1 [trust_record text]) with (Ok (A := gset (string * string)) ∅). cbv beta iota.
    destruct (commit o); intros [= <- <-]; cbn [mbind result_bind].
    + left. split_and!; [done..| |by apply holds_record]. cbn. congruence.
    + right. left. split_and!; [by eexists|by apply trust_same|done].
    + right. right. split_and!; [by eexists|done|done|]. by apply (holds_record st text d1).
  - intros [= <- <-]. right. left. split_and!; [by eexists|by apply trust_same|done].
Qed.
Lemma load_ends yamlKeys o d d' m : trust_at d = None ∨ (∃ st, holds d st) → Load yamlKeys o None d = (d', Ok m) → unavailable d = false ∧ d' = d ∧
  (trust_at d = None ∧ m_managed m = false ∨ holds d (m_state m) ∧ m_managed m = true ∧ loads (m_state m) (m_bundle m)).
Proof.
  intros Hd. unfold Load, GetManagedTrust. cbn [db_call]. unfold db_view, db_available. destruct (unavailable d) eqn:Hav; [done|]. cbn [fail_if]. unfold get, try_get.
  cbn [mbind prog_bind run]. change (bucket_of d "managed_trust" !! "current") with (trust_at d). destruct Hd as [Hn|(st & s & Hs & Hst)].
  - rewrite Hn. cbn. intros [= <- <-]. split_and!; [done..|]. by left.
  - rewrite Hs, Hst. cbn [mbind prog_bind run lift result_bind]. unfold apply. destruct (ParseBundle (ManagedTrust_Bundle st)) as [b|] eqn:Hb; cbn [mbind result_bind]; [|done].
    destruct (loadPair _ _) as [p|] eqn:Hp; cbn [mbind result_bind]; [|done]. intros [= <- <-]. split_and!; [done..|]. right.
    split_and!; [by exists s|done|]. split; [done|by exists p].
Qed.

(** What a call decided on loads, and is what it puts in place. *)
Definition keeps (m : Manager) (st : ManagedTrust) (b : Bundle) : Prop := m_managed m = true ∧ m_state m = st ∧ m_bundle m = b.
Lemma apply_loads st b m : loads st b → keeps (apply st m).1 st b.
Proof. intros [Hb [p Hp]]. unfold apply. by rewrite Hb, Hp. Qed.
Lemma written_loads b text st : fits b → Bundle_Marshal b = Ok text → ManagedTrust_Bundle st = text →
  (∃ p, loadPair (ManagedTrust_APICertPEM st) (ManagedTrust_APIKey st) = Ok p) → loads st b.
Proof. intros [Hw Hl] Ht Hst Hp. split; [|done]. rewrite Hst. by eapply parse_marshal; [| |apply Hl]. Qed.
Ltac results := repeat match goal with
  | H : (?r ≫= _) = Ok _ |- _ => let E := fresh "Hr" in destruct r eqn:E; cbn [mbind result_bind] in H; [|discriminate H]
  | H : (if ?b then _ else _) = Ok _ |- _ => let E := fresh "Hif" in destruct b eqn:E; try discriminate H
  end.
Lemma decide_good r m t1 t2 t3 st : writable_request r → (m_managed m = true → loads (m_state m) (m_bundle m)) → decide_request r m t1 t2 t3 = Ok (Some st) →
  ∃ b, loads st b ∧ keeps (put_in_place r st m).1 st b
    ∧ if m_managed m then ManagedTrust_RootPin st = ManagedTrust_RootPin (m_state m) ∧ rtc follows (m_bundle m) b else descends (ManagedTrust_RootPin st) b.
Proof.
  intros Hw Hm. destruct r as [pin b cert der hash|b|key|cert]; cbn [decide_request put_in_place writable_request] in *.
  - unfold decide_enroll. intros H. results. injection H as <-. exists b. match goal with |- loads ?st b ∧ _ => assert (loads st b) as Hl end.
    { eapply written_loads; [exact Hw|eassumption|reflexivity|by eexists]. }
    split_and!; [done|by apply apply_loads|]. cbn. repeat match goal with u : () |- _ => destruct u end. by eapply descends_first.
  - unfold decide_adopt. intros H. results. injection H as <-. apply negb_false_iff in Hif. rewrite Hif in *. destruct (Hm eq_refl) as [_ Hp]. exists b.
    match goal with |- loads ?st b ∧ _ => assert (loads st b) as Hl by (eapply written_loads; [exact Hw|eassumption|reflexivity|done]) end.
    split_and!; [done|by apply apply_loads|done|]. apply rtc_once. repeat match goal with u : () |- _ => destruct u end. by exists t1.
  - unfold decide_prepare. intros H. results. injection H as <-. apply negb_false_iff in Hif. rewrite Hif in *. exists (m_bundle m). split_and!; [by apply Hm|by split_and!|done|done].
  - unfold decide_install. intros H. results. injection H as <-. apply negb_false_iff in Hif. rewrite Hif in *. exists (m_bundle m).
    match goal with |- loads ?st _ ∧ _ => assert (loads st (m_bundle m)) as Hl end. { split; [by apply Hm|]. by eexists. }
    split_and!; [done|by apply apply_loads|done|done].
Qed.

(** What holds of a node that descends from a bundle, if there is one. *)
Definition reached (from : option (string * Bundle)) (pin : string) (b : Bundle) : Prop :=
  descends pin b ∧ match from with None => True | Some (pin0, b0) => pin = pin0 ∧ rtc follows b0 b end.
Definition sound (from : option (string * Bundle)) (s : option Manager * db) : Prop :=
  (trust_at s.2 = None ∧ from = None ∨ ∃ st b, holds s.2 st ∧ loads st b ∧ reached from (ManagedTrust_RootPin st) b)
  ∧ match s.1 with
    | None => True
    | Some m =>
      (unavailable s.2 = true ∨ if m_managed m then holds s.2 (m_state m) else trust_at s.2 = None)
      ∧ (m_managed m = true → loads (m_state m) (m_bundle m) ∧ reached from (ManagedTrust_RootPin (m_state m)) (m_bundle m)
          ∧ ∃ st b, holds s.2 st ∧ loads st b ∧ ManagedTrust_RootPin st = ManagedTrust_RootPin (m_state m) ∧ rtc follows (m_bundle m) b)
    end.
Lemma reached_rtc from pin b b' : reached from pin b → rtc follows b b' → reached from pin b'.
Proof. intros [Hd Hf] Hr. split; [by eapply descends_rtc|]. destruct from as [[pin0 b0]|]; [|done]. destruct Hf as [-> Hf]. split; [done|by etrans]. Qed.
Lemma holds_fun d st st' : holds d st → holds d st' → st = st'.
Proof. intros (s & Hs & Hu) (s' & Hs' & Hu'). congruence. Qed.
Lemma holds_same d d' st : trust_at d' = trust_at d → holds d st → holds d' st.
Proof. intros Ht (s & Hs & Hu). exists s. by rewrite Ht. Qed.
(** Other changes keep what holds. *)
Lemma sound_other from mo d d' : trust_at d' = trust_at d → (unavailable d = true → unavailable d' = true) → sound from (mo, d) → sound from (mo, d').
Proof.
  intros Ht Hu [Hd Hm]. cbn [fst snd] in *. split; cbn [fst snd].
  - destruct Hd as [[Hn Hf]|(st & b & Hh & Hl)]; [left; by rewrite Ht|right]. exists st, b. split; [by eapply holds_same|done].
  - destruct mo as [m|]; [|done]. destruct Hm as [Ha Hm]. split; [destruct Ha as [Ha|Ha]; [left; by apply Hu|right; destruct (m_managed m); [by eapply holds_same|by rewrite Ht]]|].
    intros Hmm. destruct (Hm Hmm) as (Hl & Hr & st & b & Hh & Hrest). split_and!; [done..|]. exists st, b. split; [by eapply holds_same|done].
Qed.
(** A state that was recorded extends what was there, and the manager that has it keeps
    what holds. *)
Lemma sound_written from m d d' st b : sound from (Some m, d) → unavailable d = false → holds d' st → loads st b →
  (if m_managed m then ManagedTrust_RootPin st = ManagedTrust_RootPin (m_state m) ∧ rtc follows (m_bundle m) b else descends (ManagedTrust_RootPin st) b) →
  reached from (ManagedTrust_RootPin st) b
  ∧ (unavailable d' = true → sound from (Some m, d')) ∧ ∀ m', keeps m' st b → sound from (Some m', d').
Proof.
  intros [Hd [[Ha|Ha] Hm]] Hav Hh Hl Hst; cbn [fst snd] in *; [congruence|].
  assert (reached from (ManagedTrust_RootPin st) b) as Hr.
  { destruct (m_managed m); [destruct Hst as [-> Hf], (Hm eq_refl) as (_ & Hr & _); by eapply reached_rtc|].
    destruct Hd as [[_ ->]|(st0 & b0 & (s0 & Hs0 & _) & _)]; [by split|congruence]. }
  assert (trust_at d' = None ∧ from = None ∨ ∃ st b, holds d' st ∧ loads st b ∧ reached from (ManagedTrust_RootPin st) b) as Hd' by (right; by exists st, b).
  split_and!; [done| |].
  - intros Hun. split; [exact Hd'|]. cbn [fst snd]. split; [by left|]. intros Hmm. rewrite Hmm in *. destruct Hst as [Hpin Hf]. destruct (Hm eq_refl) as (Hl0 & Hr0 & _).
    split_and!; [done..|]. exists st, b. by rewrite Hpin.
  - intros m' (Hmm & <- & <-). split; [exact Hd'|]. cbn [fst snd]. rewrite Hmm. split; [by right|]. intros _. split_and!; [done..|]. by exists (m_state m'), (m_bundle m').
Qed.
Lemma sound_moves from s s' : moves s s' → sound from s → sound from s'.
Proof.
  intros Hmv. destruct Hmv as [r t1 t2 t3 o ctx m d m' d' answer Hw Hp|mo d d' Ht Hu|mo d d' Ht|keys o d d' m Hl].
  - intros Hs. unfold perform in Hp. destruct (decide_request r m t1 t2 t3) as [[st|]|e] eqn:Hdec; [|by simplify_eq..].
    apply decide_good in Hdec as (b & Hlb & Hk & Hst); [|done|by intros Hmm; apply Hs in Hmm as [? _]].
    destruct (db_call o ctx (PutManagedTrust st) d) as [d1 ans] eqn:Hput. apply put_ends in Hput as [(-> & Hav & _ & Hh)|[([e ->] & Ht & Hu)|([e ->] & Hav & Hun & Hh)]].
    + destruct (put_in_place r st m) as [m1 res] eqn:Hpl. injection Hp as <- <- _. by eapply sound_written.
    + injection Hp as <- <- _. by eapply sound_other.
    + injection Hp as <- <- _. destruct (sound_written from m d d1 st b) as (_ & Hkeep & _); [done..|]. by apply Hkeep.
  - by apply sound_other.
  - intros [Hd _]. split; [|done]. cbn [fst snd] in *. destruct Hd as [[Hn Hf]|(st & b & Hh & Hl)]; [left; by rewrite Ht|right]. exists st, b. split; [by eapply holds_same|done].
  - intros [Hd _]. cbn [fst snd] in *. apply load_ends in Hl as (Hav & -> & Hl); [|destruct Hd as [[? _]|(st & b & Hh & _)]; [by left|right; by exists st]].
    split; [exact Hd|]. cbn [fst snd]. destruct Hl as [[Hn Hmm]|(Hh & Hmm & Hlo)]; rewrite Hmm; [split; [by right|done]|]. split; [by right|]. intros _.
    destruct Hd as [[Hn _]|(st & b & Hh' & Hl' & Hr)]; [destruct Hh as (? & ? & _); congruence|]. rewrite (holds_fun _ _ _ Hh Hh') in *.
    assert (m_bundle m = b) as -> by (destruct Hlo as [? _], Hl' as [? _]; congruence). split_and!; [done..|]. by exists st, b.
Qed.
Lemma sound_moves_all from s s' : rtc moves s s' → sound from s → sound from s'.
Proof. intros Hr. induction Hr as [|s1 s2 s3 Hmv _ IH]; [done|]. intros Hs. apply IH. by eapply sound_moves. Qed.

(** C25. The bundle a node uses descends from the one it was enrolled with, and trust only
    advances: whatever fails, and whenever the node restarts, a later bundle was
    reached from an earlier one by bundles each of which was newer than the one before
    it, kept one of its roots and was signed with a key it listed. *)
Theorem trust_only_advances d0 m d m' d' : trust_at d0 = None → rtc moves (None, d0) (Some m, d) → rtc moves (Some m, d) (Some m', d') →
  m_managed m = true → m_managed m' = true →
  descends (ManagedTrust_RootPin (m_state m)) (m_bundle m) ∧ ManagedTrust_RootPin (m_state m') = ManagedTrust_RootPin (m_state m)
  ∧ rtc follows (m_bundle m) (m_bundle m') ∧ BundleVersion m ≤ BundleVersion m'.
Proof.
  intros H0 Hs Hs' Hm Hm'. assert (sound None (Some m, d)) as [Hd [Ha Hk]]. { eapply sound_moves_all; [exact Hs|]. split; [by left|done]. }
  cbn [fst snd] in *. destruct (Hk Hm) as (Hl & [Hdes _] & st & b & Hh & Hlb & Hpin & Hf).
  assert (sound (Some (ManagedTrust_RootPin (m_state m), m_bundle m)) (Some m', d')) as [_ [_ Hk']].
  { eapply sound_moves_all; [exact Hs'|]. split; cbn [fst snd].
    - right. exists st, b. split_and!; [done..|]. split; [rewrite Hpin; by eapply descends_rtc|done].
    - split; [done|]. intros _. split_and!; [done|by split|by exists st, b]. }
  destruct (Hk' Hm') as (_ & [_ [Hp Hr]] & _). split_and!; [done..|]. by apply rtc_newer.
Qed.
End Life.

(** * A node to compute with

    A certificate is a name; R, I and S begin the names of roots, issuers and servers,
    and a block ends with a semicolon. *)

Section Example.
#[local] Existing Instance latin1_unicode.
#[local] Existing Instance demo_crypto.

Fixpoint first_block (data : string) : option (string * string) :=
  match data with
  | "" => None
  | String c rest => if bool_decide (c = ";"%char) then Some ("", rest) else '(name, rest) ← first_block rest; Some (String c name, rest)
  end.
Definition named (c : ascii) (name : string) : bool := match name with String d _ => bool_decide (c = d) | "" => false end.
Definition demo_end : time := 1000 * nanoseconds.
#[local] Instance demo_x509 : X509 := {|
  Certificate := string; Raw := id; SerialNumber _ := "5a"; IsCA c := negb (named "S" c); BasicConstraintsValid c := named "R" c;
  NotBefore _ := 0; NotAfter _ := demo_end; CommonName := id; ClientAuth _ := true;
  CheckSignatureFrom c by_ := named "I" c && named "R" by_ || named "S" c && named "I" by_;
  x509_ParseCertificate name := if name =s "" then None else Some name;
  VerifyServer leaf roots issuers _ := match roots, issuers with root :: _, issuer :: _ => if named "S" leaf then Some [[leaf; issuer; root]] else None | _, _ => None end;
  PrivateKey := string; ParsePKCS8PrivateKey := Some; key_matches leaf key := leaf =s key;
  pem_Decode data := '(name, rest) ← first_block data; Some ("CERTIFICATE", name, rest);
|}.
Lemma first_block_shorter data name rest : first_block data = Some (name, rest) → (String.length rest < String.length data)%nat.
Proof.
  revert name. induction data as [|c data IH]; intros name; [done|]. cbn. case_bool_decide; [intros [= _ ->]; lia|].
  destruct (first_block data) as [[name' rest']|]; [|done]. intros [= _ ->]. specialize (IH name' eq_refl). lia.
Qed.
#[local] Instance demo_x509_ok : X509Ok demo_x509.
Proof. intros data type content rest. cbn. destruct (first_block data) as [[name rest']|] eqn:Hb; [|done]. intros [= _ _ ->]. by eapply first_block_shorter. Qed.

(** Bundles of the same root, issuer and key, in order. *)
Definition demo_key : BundleKey := mkBundleKey "k1" (StdEncoding_EncodeToString (ed25519_Public SignedAuthExamples.demo_key)) (UTC demo_end).
Definition unsigned (version : Z) : Bundle := mkBundle version (UTC at_110) (Some ["R1;"]) (Some ["I1;"]) (Some [demo_key]) None no_signature.
Definition bundle (version : Z) : Bundle := match Sign (unsigned version) "k1" SignedAuthExamples.demo_key with Ok b => b | Err _ => zero_bundle end.
Definition bundle_text (version : Z) : string := match Bundle_Marshal (bundle version) with Ok text => text | Err _ => "" end.
Definition demo_pin : string := Fingerprint "R1".
Definition hex64 : string := "00112233445566778899aabbccddeeff00112233445566778899aabbccddeeff".
Definition new_db : db := mkdb ∅ 0 1 false false false.
Definition no_manager : Manager := new_Manager ∅.
Definition enrolled : Manager * db * result () := Enroll demo_pin (bundle 1) "S1;I1;" "S1" hex64 at_110 at_110 at_110 no_faults None no_manager new_db.

Lemma bundle_writable version : int64 version → bundle version = (unsigned version) <| Signature := Signature (bundle version) |> →
  utf8 (Sig_KeyID (Signature (bundle version))) → utf8 (Sig_Value (Signature (bundle version))) → writable (bundle version).
Proof.
  intros Hv -> Hk Hs. assert (writable_date (UTC at_110) ∧ writable_key demo_key) as [Hd Hkey] by (split_and!; vm_compute; split_and?; congruence).
  split_and!; [exact Hv|exact Hd|by apply Forall_singleton|by apply Forall_singleton|by apply Forall_singleton|by apply Forall_nil_2|exact Hk|exact Hs].
Qed.
Definition adopted : Manager * db * result () := Adopt (bundle 2) at_110 at_110 at_110 no_faults None enrolled.1.1 enrolled.1.2.
Lemma fits_bundle version : writable (bundle version) → len (bundle_text version) ≤ maxBundleBytes → fits (bundle version).
Proof. intros Hw Hl. split; [done|]. intros text Ht. unfold bundle_text in Hl. by rewrite Ht in Hl. Qed.
Lemma fits_one : fits (bundle 1).
Proof. apply fits_bundle; [apply bundle_writable; by vm_compute|by vm_compute]. Qed.
Lemma fits_two : fits (bundle 2).
Proof. apply fits_bundle; [apply bundle_writable; by vm_compute|by vm_compute]. Qed.

Lemma root_kept : rootSet (unsigned 2) ∩ rootSet (bundle 1) ≠ ∅.
Proof. apply (bool_decide_eq_false_1 (rootSet (unsigned 2) ∩ rootSet (bundle 1) = ∅)). vm_compute. reflexivity. Qed.
Lemma signed_bundle_accepted_witness : ParseBundle (bundle_text 2) = Ok (bundle 2) ∧ VerifyBundle (bundle 2) (Some (bundle 1)) "" at_110 = Ok ().
Proof.
  apply (signed_bundle_accepted (CO := demo_crypto_ok) (unsigned 2) (bundle 1) "k1" SignedAuthExamples.demo_key (bundle 2) (bundle_text 2) at_110).
  all: [> vm_compute; reflexivity|exact (proj1 fits_two)|vm_compute; reflexivity|by vm_compute|vm_compute; reflexivity|vm_compute; reflexivity|exact root_kept|vm_compute; reflexivity].
Defined.
Lemma moves_enrolled : rtc moves (None, new_db) (Some enrolled.1.1, enrolled.1.2).
Proof.
  apply (rtc_l _ _ (Some no_manager, new_db)); [apply (moves_start ∅ no_faults); by vm_compute|]. apply rtc_once.
  apply (moves_call (EnrollWith demo_pin (bundle 1) "S1;I1;" "S1" hex64) at_110 at_110 at_110 no_faults None no_manager new_db _ _ (Ok ())); [apply fits_one|by vm_compute].
Qed.
Lemma moves_adopted : rtc moves (Some enrolled.1.1, enrolled.1.2) (Some adopted.1.1, adopted.1.2).
Proof. apply rtc_once. apply (moves_call (AdoptBundle (bundle 2)) at_110 at_110 at_110 no_faults None enrolled.1.1 enrolled.1.2 _ _ (Ok ())); [apply fits_two|by vm_compute]. Qed.
Lemma trust_only_advances_witness : BundleVersion enrolled.1.1 = 1 ∧ BundleVersion adopted.1.1 = 2 ∧ rtc follows (m_bundle enrolled.1.1) (m_bundle adopted.1.1).
Proof.
  split; [by vm_compute|]. split; [by vm_compute|].
  apply (trust_only_advances new_db enrolled.1.1 enrolled.1.2 adopted.1.1 adopted.1.2); [by vm_compute|exact moves_enrolled|exact moves_adopted|by vm_compute..].
Defined.

(** Two calls of Adopt beside each other, on a node that uses version 1: both check
    their bundle against version 1; the second to write puts version 2 in place of
    version 3, in the manager and in the node's state, so that it is version 2 the
    node uses after it restarts as well. *)
Theorem concurrent_adoption_rolls_back : ∃ w first second,
  w_calls w = ∅ ∧ BundleVersion (w_manager w) = 1 ∧ BundleVersion (w_manager (happen w first)) = 3 ∧ w_calls (happen w (first ++ second)) = ∅
  ∧ BundleVersion (w_manager (happen w (first ++ second))) = 2
  ∧ match Load ∅ no_faults None (w_db (happen w (first ++ second))) with (_, Ok m) => BundleVersion m = 2 | (_, Err _) => False end.
Proof.
  exists (mkWorld enrolled.1.1 enrolled.1.2 ∅),
    [Begins 1 (AdoptBundle (bundle 3)) at_110 at_110 at_110; Begins 2 (AdoptBundle (bundle 2)) at_110 at_110 at_110; Writes 1 no_faults None; Ends 1],
    [Writes 2 no_faults None; Ends 2].
  split_and!; by vm_compute.
Qed.
End Example.
