(* ===== verification/FilePolicy.v ===== *)
(** Restrictions on file names (node/backend/internal/filepolicy): the patterns of
    hidden names, the canary paths and the names the node keeps for itself, with
    Go's path.Match, and what a pattern means: a name the patterns cover is hidden,
    and patterns that were checked when they were configured never fail later. *)
From S2P Require Import Prelude GoLib.
From stdpp Require Import options.
Local Open Scope Z_scope.
Local Open Scope go_scope.

(** * Package path: Match *)

Module path.
Definition ErrBadPattern : error := errors_New "syntax error in pattern".
Definition err_fuel : error := errors_New "out of fuel".
Fixpoint drop_bytes (n : nat) (s : string) : string :=
  match n, s with S n, String _ s => drop_bytes n s | _, _ => s end.

(** A character of a class, which may be escaped, and what follows it. *)
Definition getEsc (chunk : string) : result (Z * string) :=
  match chunk with
  | "" => Err ErrBadPattern
  | String c rest =>
    if bool_decide (c = "-"%char) || bool_decide (c = "]"%char) then Err ErrBadPattern else
    let chunk := if bool_decide (c = backslash) then rest else chunk in
    if chunk =s "" then Err ErrBadPattern else
    let '(r, n) := decode_rune chunk in
    if (r =? RuneError) && (n =? 1)%nat then Err ErrBadPattern else
    let nchunk := drop_bytes n chunk in
    if nchunk =s "" then Err ErrBadPattern else Ok (r, nchunk)
  end.

(** The ranges of a class up to its end: whether [r] is in one of them, and what
    follows the class. [first] is true before the first range. *)
Fixpoint ranges (fuel : nat) (r : Z) (chunk : string) (matched first : bool) : result (bool * string) :=
  match fuel with
  | O => Err err_fuel
  | S fuel =>
    if HasPrefix chunk "]" && negb first then Ok (matched, TrimPrefix chunk "]") else
    '(lo, chunk) ← getEsc chunk;
    '(hi, chunk) ← (if HasPrefix chunk "-" then getEsc (TrimPrefix chunk "-") else Ok (lo, chunk));
    ranges fuel r chunk (matched || (lo <=? r) && (r <=? hi)) false
  end.

(** The loop over a chunk. Of the text that is left to match there is nothing once the
    match failed: the rest of the chunk is then only checked. *)
Definition literal (c : ascii) (s : option string) : option string :=
  match s with Some (String d s) => if bool_decide (c = d) then Some s else None | _ => None end.
Fixpoint matchChunk_loop (fuel : nat) (chunk : string) (s : option string) : result (option string) :=
  match fuel with
  | O => Err err_fuel
  | S fuel =>
    match chunk with
    | "" => Ok s
    | String c chunk =>
      let s := if bool_decide (s = Some "") then None else s in
      if bool_decide (c = "["%char) then
        let '(r, n) := match s with Some s => decode_rune s | None => (0, 0%nat) end in
        let s := option_map (drop_bytes n) s in
        let negated := HasPrefix chunk "^" in
        '(matched, chunk) ← ranges fuel r (TrimPrefix chunk "^") false true;
        matchChunk_loop fuel chunk (if Bool.eqb matched negated then None else s)
      else if bool_decide (c = "?"%char) then
        matchChunk_loop fuel chunk (match s with Some s => if HasPrefix s "/" then None else Some (drop_bytes (decode_rune s).2 s) | None => None end)
      else if bool_decide (c = backslash) then
        match chunk with "" => Err ErrBadPattern | String c chunk => matchChunk_loop fuel chunk (literal c s) end
      else matchChunk_loop fuel chunk (literal c s)
    end
  end.
Definition matchChunk (chunk s : string) : result (option string) := matchChunk_loop (S (String.length chunk)) chunk (Some s).

(** The chunk at the start of a pattern, up to a star that is not in a class. *)
Fixpoint scan (inrange : bool) (pattern : string) : string * string :=
  match pattern with
  | "" => ("", "")
  | String c rest =>
    if bool_decide (c = backslash) then
      match rest with
      | "" => (pattern, "")
      | String d rest => let '(chunk, rest) := scan inrange rest in (String c (String d chunk), rest)
      end
    else if bool_decide (c = "*"%char) && negb inrange then ("", pattern)
    else let '(chunk, rest) := scan (if bool_decide (c = "["%char) then true else if bool_decide (c = "]"%char) then false else inrange) rest in
         (String c chunk, rest)
  end.
Definition scanChunk (pattern : string) : bool * string * string :=
  let '(chunk, rest) := scan false (TrimLeftByte "*" pattern) in (HasPrefix pattern "*", chunk, rest).

(** The chunk after a star, at a later byte of the name; [rest] is the pattern after
    it. *)
Fixpoint skip_match (chunk rest name : string) : result (option string) :=
  match name with
  | "" => Ok None
  | String c name =>
    if bool_decide (c = slash) then Ok None else
    m ← matchChunk chunk name;
    match m with
    | Some t => if (rest =s "") && (t ≠s "") then skip_match chunk rest name else Ok (Some t)
    | None => skip_match chunk rest name
    end
  end.
Fixpoint check_rest (fuel : nat) (pattern : string) : result () :=
  match fuel with
  | O => Err err_fuel
  | S fuel =>
    if pattern =s "" then Ok () else
    let '(_, chunk, rest) := scanChunk pattern in matchChunk chunk "" ≫= λ _, check_rest fuel rest
  end.
Fixpoint Match_loop (fuel : nat) (pattern name : string) : result bool :=
  match fuel with
  | O => Err err_fuel
  | S fuel =>
    if pattern =s "" then Ok (name =s "") else
    let '(star, chunk, rest) := scanChunk pattern in
    if star && (chunk =s "") then Ok (negb (bool_decide (slash ∈ bytes name))) else
    m ← matchChunk chunk name;
    match m with
    | Some t => if (t =s "") || (rest ≠s "") then Match_loop fuel rest t else
                later ← (if star then skip_match chunk rest name else Ok None);
                match later with Some t => Match_loop fuel rest t | None => check_rest fuel rest ≫= λ _, Ok false end
    | None => later ← (if star then skip_match chunk rest name else Ok None);
              match later with Some t => Match_loop fuel rest t | None => check_rest fuel rest ≫= λ _, Ok false end
    end
  end.
Definition Match (pattern name : string) : result bool := Match_loop (S (String.length pattern)) pattern name.
End path.

(** * patterns.go *)

Module filepolicy.
Section Patterns.
Context {U : Unicode}.

Definition max_patterns : nat := 64.
Definition ValidatePatterns (patterns : list string) : result () :=
  if bool_decide (max_patterns < length patterns)%nat then Err (errors_New "at most 64 hidden patterns are allowed") else
  foldM (λ _ pattern,
    if (pattern =s "") || ContainsAny pattern (String slash (String backslash (String NUL ""))) then Err (errors_New "hidden patterns must be non-empty basename globs") else
    match path.Match (ToLower pattern) "test" with Err _ => Err (errors_New "invalid hidden pattern") | Ok _ => Ok () end) () patterns.
Definition canary_ok (value : string) : bool :=
  negb ((value =s "") || (value =s ".") || (TrimSpace value ≠s value) || ContainsAny value (String backslash (String NUL "")) || HasPrefix value "/"
        || (path_Clean value ≠s value) || (value =s "..") || HasPrefix value "../").
Definition ValidateCanaries (paths : list string) : result () :=
  if bool_decide (max_patterns < length paths)%nat then Err (errors_New "at most 64 canary paths are allowed") else
  foldM (λ seen value,
    if negb (canary_ok value) then Err (errors_New "canary paths must be normalized relative file paths") else
    if value ∈b seen then Err (errors_New "duplicate canary path") else Ok ({[value]} ∪ seen)) (∅ : gset string) paths ≫= λ _, Ok ().
Definition IsCanary (paths : list string) (relative : string) : bool := existsb (λ value, value =s relative) paths.
Definition Hidden (patterns : list string) (name : string) : bool :=
  let name := ToLower name in
  existsb (λ pattern, match path.Match (ToLower pattern) name with Err _ => true | Ok matched => matched end) patterns.
Definition Internal (name : string) : bool :=
  HasPrefix name ".jolt-" && HasSuffix name ".partial" || HasPrefix name ".jolt-move-backup-" || (name =s ".jolt-trash").
End Patterns.
End filepolicy.

(** * What a pattern means *)

Section Meaning.
Import path.

Inductive item := Star | Any | Lit (c : ascii) | Class (negated : bool) (l : list (Z * Z)).

Fixpoint read_class (fuel : nat) (p : string) (first : bool) : option (list (Z * Z) * string) :=
  match fuel with
  | O => None
  | S fuel =>
    if HasPrefix p "]" && negb first then Some ([], TrimPrefix p "]") else
    match getEsc p with
    | Err _ => None
    | Ok (lo, p) =>
      match (if HasPrefix p "-" then getEsc (TrimPrefix p "-") else Ok (lo, p)) with
      | Err _ => None
      | Ok (hi, p) => '(l, p) ← read_class fuel p false; Some ((lo, hi) :: l, p)
      end
    end
  end.
(** [stars] says whether a star is a star, which it is not in a chunk. *)
Fixpoint read (fuel : nat) (stars : bool) (p : string) : option (list item) :=
  match fuel with
  | O => None
  | S fuel =>
    match p with
    | "" => Some []
    | String c p =>
      if bool_decide (c = "["%char) then
        '(l, p') ← read_class fuel (TrimPrefix p "^") true; rest ← read fuel stars p'; Some (Class (HasPrefix p "^") l :: rest)
      else if bool_decide (c = "?"%char) then rest ← read fuel stars p; Some (Any :: rest)
      else if bool_decide (c = backslash) then
        match p with "" => None | String c p => rest ← read fuel stars p; Some (Lit c :: rest) end
      else if bool_decide (c = "*"%char) && stars then rest ← read fuel stars p; Some (Star :: rest)
      else rest ← read fuel stars p; Some (Lit c :: rest)
    end
  end.
(** The items of a pattern, if it is well formed. *)
Definition items (pattern : string) : option (list item) := read (S (String.length pattern)) true pattern.

Definition in_ranges (r : Z) (l : list (Z * Z)) : bool := existsb (λ '(lo, hi), (lo <=? r) && (r <=? hi)) l.
(** The character at the start of a text, if one starts there. *)
Definition next_char (s : string) : option (Z * string) :=
  match s with
  | "" => None
  | String c _ => if in_range 128 191 c then None else let '(r, n) := decode_rune s in Some (r, drop_bytes n s)
  end.
(** A star is any sequence of characters but slashes, a question mark one such
    character, a class one that is in its ranges, or in none of them. *)
Inductive glob : list item → string → Prop :=
| glob_nil : glob [] ""
| glob_lit c l s : glob l s → glob (Lit c :: l) (String c s)
| glob_any l s r s' : next_char s = Some (r, s') → r ≠ 47 → glob l s' → glob (Any :: l) s
| glob_class negated rs l s r s' : next_char s = Some (r, s') → in_ranges r rs = negb negated → glob l s' → glob (Class negated rs :: l) s
| glob_star l s : glob l s → glob (Star :: l) s
| glob_skip l s r s' : next_char s = Some (r, s') → r ≠ 47 → glob (Star :: l) s' → glob (Star :: l) s.

(** ** Reading characters *)

Lemma drop_append x z : drop_bytes (String.length x) (x +++ z) = z.
Proof. induction x; [by destruct z|done]. Qed.
(** A character that is well encoded is read whatever follows it; only its first byte
    may be special. *)
Definition following (x : string) : Prop := Forall (λ c, in_range 128 191 c = true) (bytes x).
Lemma lead_range v n lo hi : lead_info v = Some (n, lo, hi) → 128 ≤ lo ∧ hi ≤ 191.
Proof. unfold lead_info. repeat case_match; intros [= <- <- <-]; lia. Qed.
Lemma lead_follows v n lo hi c : lead_info v = Some (n, lo, hi) → in_range lo hi c = true → in_range 128 191 c = true.
Proof. intros Hl%lead_range. unfold in_range. rewrite !andb_true_iff, !Z.leb_le. lia. Qed.
Lemma decode_whole c s r n : decode_rune (String c s) = (r, n) → ((r =? RuneError) && (n =? 1)%nat) = false →
  ∃ x z, s = x +++ z ∧ n = S (String.length x) ∧ following x ∧ ∀ z', decode_rune (String c (x +++ z')) = (r, n).
Proof.
  intros Hd Hn. assert ((RuneError, 1%nat) ≠ (r, n)) as Hbad by (intros [= <- <-]; done). clear Hn.
  assert (∀ x z, s = x +++ z → following x → (∀ z', decode_rune (String c (x +++ z')) = (r, n)) → n = S (String.length x) →
    ∃ x z, s = x +++ z ∧ n = S (String.length x) ∧ following x ∧ ∀ z', decode_rune (String c (x +++ z')) = (r, n)) as Hex by (intros x z -> ? ? ->; by exists x, z).
  cbn [decode_rune] in Hd. destruct (byte_val c <? 128) eqn:Hc.
  { injection Hd as <- <-. apply (Hex "" s); [done|constructor| |done]. intros z. cbn [decode_rune]. by rewrite Hc. }
  destruct (lead_info (byte_val c)) as [[[k lo] hi]|] eqn:Hl; [|done].
  destruct k as [|[|[|[|[|k]]]]]; try done; (destruct s as [|b1 s]; [done|]).
  - destruct (in_range lo hi b1) eqn:H1; [|done]. injection Hd as <- <-. apply (Hex (String b1 "") s); [done| | |done].
    + repeat constructor. by eapply lead_follows.
    + intros z. rewrite !append_cons, append_nil_l. cbn [decode_rune]. by rewrite Hc, Hl, H1.
  - destruct s as [|b2 s]; [done|]. destruct (in_range lo hi b1 && in_range 128 191 b2) eqn:H1; [|done]. injection Hd as <- <-. apply (Hex (String b1 (String b2 "")) s); [done| | |done].
    + apply andb_true_iff in H1 as [H1 H2]. repeat constructor; [by eapply lead_follows|done].
    + intros z. rewrite !append_cons, append_nil_l. cbn [decode_rune]. by rewrite Hc, Hl, H1.
  - destruct s as [|b2 [|b3 s]]; [done..|]. destruct (in_range lo hi b1 && in_range 128 191 b2 && in_range 128 191 b3) eqn:H1; [|done]. injection Hd as <- <-.
    apply (Hex (String b1 (String b2 (String b3 ""))) s); [done| | |done].
    + apply andb_true_iff in H1 as [[H1 H2]%andb_true_iff H3]. repeat constructor; [by eapply lead_follows|done|done].
    + intros z. rewrite !append_cons, append_nil_l. cbn [decode_rune]. by rewrite Hc, Hl, H1.
Qed.

Lemma HasPrefix_one c d s : HasPrefix (String c s) (String d "") = bool_decide (c = d).
Proof. unfold HasPrefix. cbn. case_decide as Hd; [subst; by rewrite !bool_decide_true by (done || by eexists)|]. rewrite !bool_decide_false; [done|naive_solver|by intros [? ?]]. Qed.
Lemma TrimPrefix_one c s : TrimPrefix (String c s) (String c "") = s.
Proof. unfold TrimPrefix. cbn. by rewrite decide_True. Qed.
Lemma HasPrefix_one_append c x d z : HasPrefix (String c x +++ z) (String d "") = bool_decide (c = d).
Proof. rewrite append_cons. apply HasPrefix_one. Qed.

Definition glue (x : string) (ab : string * string) : string * string := (x +++ ab.1, ab.2).
Lemma glue_cons c x ab : glue (String c x) ab = (String c (glue x ab).1, (glue x ab).2).
Proof. done. Qed.
Lemma scan_plain inrange c s : c ≠ backslash → (c = "*"%char → inrange = true) →
  scan inrange (String c s) = glue (String c "") (scan (if bool_decide (c = "["%char) then true else if bool_decide (c = "]"%char) then false else inrange) s).
Proof.
  intros Hb Hs. cbn [scan]. rewrite bool_decide_false by done. assert (bool_decide (c = "*"%char) && negb inrange = false) as ->.
  { case_bool_decide; [by rewrite Hs|done]. }
  by destruct (scan _ s).
Qed.
Lemma glue_glue x y ab : glue x (glue y ab) = glue (x +++ y) ab.
Proof. unfold glue. cbn. by rewrite append_assoc. Qed.
Lemma scan_following inrange x z : following x → scan inrange (x +++ z) = glue x (scan inrange z).
Proof.
  induction x as [|c x IH]; [unfold glue; rewrite !append_nil_l; by destruct (scan inrange z)|]. intros [Hc Hx]%Forall_cons. rewrite append_cons.
  assert (c ≠ backslash ∧ c ≠ "*"%char ∧ c ≠ "["%char ∧ c ≠ "]"%char) as (H1 & H2 & H3 & H4) by (split_and!; intros ->; discriminate Hc).
  rewrite scan_plain by done. rewrite !bool_decide_false by done. rewrite IH, glue_glue by done. done.
Qed.
(** A character of a class: what is read for it, and that the scan passes over it. *)
Lemma getEsc_whole p r q : getEsc p = Ok (r, q) → ∃ c x, p = String c x +++ q ∧ c ≠ "]"%char ∧ q ≠ "" ∧
  (∀ z, z ≠ "" → getEsc (String c x +++ z) = Ok (r, z)) ∧ ∀ z, scan true (String c x +++ z) = glue (String c x) (scan true z).
Proof.
  unfold getEsc at 1. destruct p as [|c p]; [done|]. destruct (bool_decide (c = "-"%char) || bool_decide (c = "]"%char)) eqn:Hc; [done|].
  set (body := if bool_decide (c = backslash) then p else String c p). destruct (body =s "") eqn:He; [done|]. destruct (decode_rune body) as [r' n] eqn:Hd.
  destruct ((r' =? RuneError) && (n =? 1)%nat) eqn:Hbad; [done|]. destruct (drop_bytes n body =s "") eqn:Hq; [done|]. intros [= <- <-].
  apply bool_decide_eq_false in Hq. apply orb_false_iff in Hc as [Hc1 Hc2]. pose proof Hc2 as Hc2'. apply bool_decide_eq_false in Hc2'.
  destruct (bool_decide (c = backslash)) eqn:Hb; subst body.
  - destruct p as [|d p]; [done|]. destruct (decode_whole _ _ _ _ Hd Hbad) as (x & z & -> & -> & Hx & Hdec). cbn [drop_bytes] in *. rewrite drop_append in *.
    exists c, (String d x). apply bool_decide_eq_true in Hb as ->. split_and!; [done|done|done| |].
    + intros z' Hz. rewrite !append_cons. unfold getEsc. change (bool_decide (backslash = "-"%char) || bool_decide (backslash = "]"%char)) with false. change (bool_decide (backslash = backslash)) with true.
      cbv beta iota. change (String d (x +++ z') =s "") with false. cbv iota. rewrite Hdec, Hbad. cbn [drop_bytes]. rewrite drop_append. by rewrite bool_decide_false.
    + intros z'. rewrite !append_cons. cbn [scan]. rewrite bool_decide_eq_true_2 by done. rewrite scan_following by done. by destruct (scan true z').
  - destruct (decode_whole _ _ _ _ Hd Hbad) as (x & z & -> & -> & Hx & Hdec). cbn [drop_bytes] in *. rewrite drop_append in *.
    exists c, x. split_and!; [done|done|done| |].
    + intros z' Hz. rewrite !append_cons. unfold getEsc. rewrite Hc1, Hc2, Hb. cbv beta iota. change (String c (x +++ z') =s "") with false. cbv iota. cbn [orb]. rewrite Hdec, Hbad. cbn [drop_bytes]. rewrite drop_append. by rewrite bool_decide_false.
    + intros z'. rewrite !append_cons. rewrite scan_plain; [|exact (bool_decide_eq_false_1 _ Hb)|done]. rewrite Hc2.
      assert (∀ b : bool, (if b then true else true) = true) as -> by by intros []. rewrite scan_following, glue_glue by done. by rewrite append_cons, append_nil_l.
Qed.

(** ** Classes and chunks *)

Lemma getEsc_shorter p r q : getEsc p = Ok (r, q) → (String.length q < String.length p)%nat.
Proof. intros (c & x & -> & _)%getEsc_whole. rewrite append_length. cbn. lia. Qed.
Lemma getEsc_error p e : getEsc p = Err e → e = ErrBadPattern.
Proof. unfold getEsc. repeat case_match; congruence. Qed.

(** A range of a class, and what follows it. *)
Definition range_at (p : string) : result (Z * Z * string) :=
  '(lo, p) ← getEsc p; '(hi, p) ← (if HasPrefix p "-" then getEsc (TrimPrefix p "-") else Ok (lo, p)); Ok (lo, hi, p).
Lemma ranges_step fuel r p matched first : ranges (S fuel) r p matched first =
  if HasPrefix p "]" && negb first then Ok (matched, TrimPrefix p "]") else
  '(lo, hi, p) ← range_at p; ranges fuel r p (matched || (lo <=? r) && (r <=? hi)) false.
Proof. cbn [ranges]. unfold range_at. destruct (_ && _); [done|]. destruct (getEsc p) as [[lo p1]|]; [|done]. cbn. by destruct (if HasPrefix p1 "-" then _ else _) as [[hi p2]|]. Qed.
Lemma read_class_step fuel p first : read_class (S fuel) p first =
  if HasPrefix p "]" && negb first then Some ([], TrimPrefix p "]") else
  match range_at p with Err _ => None | Ok (lo, hi, p) => '(l, p) ← read_class fuel p false; Some ((lo, hi) :: l, p) end.
Proof. cbn [read_class]. unfold range_at. destruct (_ && _); [done|]. destruct (getEsc p) as [[lo p1]|]; [|done]. cbn. by destruct (if HasPrefix p1 "-" then _ else _) as [[hi p2]|]. Qed.
Lemma range_at_error p e : range_at p = Err e → e = ErrBadPattern.
Proof.
  unfold range_at. destruct (getEsc p) as [[lo p1]|e'] eqn:H1; cbn [mbind result_bind]; [|intros [= <-]; by eapply getEsc_error].
  destruct (HasPrefix p1 "-"); [|by cbn]. destruct (getEsc (TrimPrefix p1 "-")) as [[hi p2]|e'] eqn:H2; [by cbn|]. cbn. intros [= <-]. by eapply getEsc_error.
Qed.
Lemma range_at_whole p lo hi q : range_at p = Ok (lo, hi, q) → ∃ c x, p = String c x +++ q ∧ c ≠ "]"%char ∧ q ≠ "" ∧
  (∀ z, z ≠ "" → HasPrefix z "-" = HasPrefix q "-" → range_at (String c x +++ z) = Ok (lo, hi, z)) ∧ ∀ z, scan true (String c x +++ z) = glue (String c x) (scan true z).
Proof.
  unfold range_at. destruct (getEsc p) as [[lo' p1]|] eqn:H1; cbn [mbind result_bind]; [|done]. apply getEsc_whole in H1 as (c & x & -> & Hc & Hne & Hg & Hs).
  destruct (HasPrefix p1 "-") eqn:Hm.
  - destruct p1 as [|d p1]; [done|]. rewrite HasPrefix_one in Hm. apply bool_decide_eq_true in Hm as ->. rewrite TrimPrefix_one.
    destruct (getEsc p1) as [[hi' p2]|] eqn:H2; cbn [mbind result_bind]; [|done]. intros [= <- <- <-]. apply getEsc_whole in H2 as (c2 & x2 & -> & Hc2 & Hne2 & Hg2 & Hs2).
    exists c, (x +++ String "-" (String c2 x2)). split_and!; [by rewrite !append_cons, append_assoc, !append_cons|done|done| |].
    + intros z Hz _. rewrite !append_cons, append_assoc, !append_cons, <-(append_cons c x). rewrite Hg by done. cbn [mbind result_bind]. rewrite HasPrefix_one, bool_decide_true by done.
      rewrite TrimPrefix_one, <-append_cons, Hg2 by done. done.
    + intros z. rewrite !append_cons, append_assoc, !append_cons, <-(append_cons c x), Hs. rewrite scan_plain by done. rewrite !bool_decide_false by done. rewrite <-append_cons, Hs2, !glue_glue. by rewrite !append_cons, append_assoc, append_cons, append_nil_l.
  - intros [= <- <- <-]. exists c, x. split_and!; [done|done|done| |done]. intros z Hz Hp. rewrite Hg by done. cbn [mbind result_bind]. by rewrite Hp, Hm.
Qed.

Lemma range_at_shorter p lo hi q : range_at p = Ok (lo, hi, q) → (String.length q < String.length p)%nat.
Proof. intros (c & x & -> & _)%range_at_whole. rewrite append_length. cbn. lia. Qed.
Lemma read_class_whole fuel p first l q : read_class fuel p first = Some (l, q) → ∃ x, p = x +++ q ∧ x ≠ "" ∧
  (∀ z fuel', (String.length (x +++ z) < fuel')%nat → read_class fuel' (x +++ z) first = Some (l, z)) ∧ ∀ z, scan true (x +++ z) = glue x (scan false z).
Proof.
  revert p first l. induction fuel as [|fuel IH]; intros p first l; [done|]. rewrite read_class_step. destruct (HasPrefix p "]" && negb first) eqn:Hend.
  - intros [= <- <-]. apply andb_true_iff in Hend as [Hp Hf]. destruct p as [|c p]; [done|]. rewrite HasPrefix_one in Hp. apply bool_decide_eq_true in Hp as ->. rewrite TrimPrefix_one.
    exists "]". split_and!; [by rewrite append_cons, append_nil_l|done| |].
    + intros z [|fuel'] Hz; [lia|]. rewrite read_class_step, append_cons, append_nil_l, HasPrefix_one, bool_decide_true, Hf by done. by rewrite TrimPrefix_one.
    + intros z. rewrite append_cons, append_nil_l, scan_plain by done. done.
  - destruct (range_at p) as [[[lo hi] p1]|] eqn:Hr; [|done]. destruct (read_class fuel p1 false) as [[l1 p2]|] eqn:Hc; [|done]. intros [= <- <-].
    apply range_at_whole in Hr as (c & x & -> & Hne & Hp1 & Hrg & Hs). apply IH in Hc as (x1 & -> & Hx1 & Hread & Hs1). exists (String c x +++ x1).
    assert (∀ z, HasPrefix (x1 +++ z) "-" = HasPrefix (x1 +++ p2) "-") as Hdash by (intros z; destruct x1 as [|d x1]; [done|]; by rewrite !HasPrefix_one_append).
    split_and!; [by rewrite append_assoc|done| |].
    + intros z [|fuel'] Hz; [lia|]. rewrite append_assoc in *. rewrite read_class_step, HasPrefix_one_append, bool_decide_false by done. cbn [andb].
      rewrite Hrg; [|by destruct x1|done]. cbv beta iota. rewrite Hread; [done|]. rewrite append_length in Hz. cbn in Hz. lia.
    + intros z. by rewrite append_assoc, Hs, Hs1, glue_glue.
Qed.
(** What the loop over the ranges finds. *)
Lemma ranges_read fuel r p matched first : (String.length p < fuel)%nat → ranges fuel r p matched first =
  match read_class fuel p first with None => Err ErrBadPattern | Some (l, q) => Ok (matched || in_ranges r l, q) end.
Proof.
  revert p matched first. induction fuel as [|fuel IH]; intros p matched first Hf; [lia|]. rewrite ranges_step, read_class_step. destruct (_ && _).
  - cbn. by rewrite orb_false_r.
  - destruct (range_at p) as [[[lo hi] p1]|] eqn:Hr; [|by apply range_at_error in Hr as ->]. apply range_at_shorter in Hr. cbn [mbind result_bind option_bind]. rewrite IH by lia.
    destruct (read_class fuel p1 false) as [[l q]|]; [|done]. cbn [in_ranges existsb option_bind mbind]. by rewrite orb_assoc.
Qed.
Lemma read_class_fuel fuel fuel' p first : (String.length p < fuel)%nat → (String.length p < fuel')%nat → read_class fuel p first = read_class fuel' p first.
Proof.
  intros H1 H2. destruct (read_class fuel p first) as [[l q]|] eqn:Hc.
  - apply read_class_whole in Hc as (x & -> & _ & Hr & _). by rewrite Hr.
  - destruct (read_class fuel' p first) as [[l q]|] eqn:Hc'; [|done]. apply read_class_whole in Hc' as (x & -> & _ & Hr & _). by rewrite Hr in Hc.
Qed.

(** What an item takes from a text. *)
Definition take_item (e : item) (s : string) : option string :=
  match e with
  | Star => None
  | Lit c => literal c (Some s)
  | Any => if (s =s "") || HasPrefix s "/" then None else Some (drop_bytes (decode_rune s).2 s)
  | Class negated l => if s =s "" then None else let '(r, n) := decode_rune s in if Bool.eqb (in_ranges r l) negated then None else Some (drop_bytes n s)
  end.
Definition take_items (l : list item) (o : option string) : option string := foldl (λ o e, o ≫= take_item e) o l.
Lemma take_none l : take_items l None = None.
Proof. by induction l. Qed.

Lemma class_read_shorter fuel c p l q : read_class fuel (TrimPrefix p c) true = Some (l, q) → (String.length (TrimPrefix p c) ≤ String.length p)%nat → (String.length q < String.length p)%nat.
Proof. intros (x & Hx & Hne & _)%read_class_whole Hl. rewrite Hx, append_length in Hl. destruct x; [done|]. cbn in Hl. lia. Qed.
Lemma TrimPrefix_shorter p c : (String.length (TrimPrefix p c) ≤ String.length p)%nat.
Proof.
  unfold TrimPrefix. revert p. induction c as [|d c IH]; intros p; [done|]. cbn. destruct p as [|a p]; [done|]. case_decide; [|done]. specialize (IH p). destruct (StripPrefix c p); cbn in *; lia.
Qed.
Lemma matchChunk_read fuel chunk o : (String.length chunk < fuel)%nat → matchChunk_loop fuel chunk o =
  match read fuel false chunk with None => Err ErrBadPattern | Some l => Ok (take_items l o) end.
Proof.
  revert chunk o. induction fuel as [|fuel IH]; intros chunk o Hf; [lia|]. destruct chunk as [|c chunk]; [done|]. cbn [matchChunk_loop read]. cbn in Hf.
  assert (∀ (o' : option string) (e : item) p, (String.length p < fuel)%nat → o' = o ≫= take_item e → matchChunk_loop fuel p o' =
    match (rest ← read fuel false p; Some (e :: rest)) with None => Err ErrBadPattern | Some l => Ok (take_items l o) end) as Hgo.
  { intros o' e p Hp ->. rewrite IH by done. by destruct (read fuel false p). }
  case_bool_decide as Hbr.
  - pose proof (TrimPrefix_shorter chunk "^") as Hl. set (o1 := if bool_decide (o = Some "") then None else o).
    destruct (match o1 with Some s => decode_rune s | None => _ end) as [r n] eqn:Hr. rewrite ranges_read by lia.
    destruct (read_class fuel (TrimPrefix chunk "^") true) as [[l q]|] eqn:Hc; [|done]. cbn [mbind result_bind option_bind orb]. apply Hgo; [apply class_read_shorter in Hc; lia|].
    destruct o as [s|]; subst o1; [|rewrite bool_decide_false by done; by destruct (Bool.eqb _ _)]. cbn [mbind option_bind take_item] in *. destruct (s =s "") eqn:Hs.
    + apply bool_decide_eq_true in Hs as ->. rewrite bool_decide_true by done. by destruct (Bool.eqb _ _).
    + apply bool_decide_eq_false in Hs. rewrite bool_decide_false in * by congruence. rewrite Hr. by destruct (Bool.eqb _ _).
  - case_bool_decide as Hq; [|case_bool_decide as Hb; [destruct chunk as [|d chunk]; [done|]|rewrite andb_false_r]].
    + apply Hgo; [lia|]. destruct o as [s|]; [|done]. cbn. case_bool_decide as Hs; [by simplify_eq|]. rewrite bool_decide_false by congruence. by destruct (HasPrefix s "/").
    + apply Hgo; [cbn in Hf; lia|]. destruct o as [s|]; [|done]. cbn. by case_bool_decide as Hs; simplify_eq.
    + apply Hgo; [lia|]. destruct o as [s|]; [|done]. cbn. by case_bool_decide as Hs; simplify_eq.
Qed.

(** ** Patterns *)

Lemma scan_splits inrange p : p = (scan inrange p).1 +++ (scan inrange p).2 ∧ ((scan inrange p).2 = "" ∨ HasPrefix (scan inrange p).2 "*" = true).
Proof.
  remember (String.length p) as n eqn:Hn. assert (String.length p ≤ n)%nat as Hl by lia. clear Hn. revert inrange p Hl.
  induction n as [|n IH]; intros inrange p Hl; (destruct p as [|c p]; [by split; [|left]|]); cbn in Hl; [lia|]. destruct (decide (c = backslash)) as [->|Hc].
  - cbn [scan]. rewrite bool_decide_true by done. destruct p as [|d p]; [by split; [|left]|]. destruct (IH inrange p) as [H1 H2]; [cbn in Hl; lia|].
    destruct (scan inrange p) as [a b]. cbn [fst snd] in *. split; [by rewrite !append_cons, <-H1|done].
  - destruct (decide (c = "*"%char ∧ inrange = false)) as [[-> ->]|Hs].
    + cbn [scan]. rewrite bool_decide_false, bool_decide_true by done. cbn [andb negb fst snd]. split; [done|right]. by rewrite HasPrefix_one, bool_decide_true.
    + rewrite scan_plain; [|done|by destruct inrange; [|naive_solver]]. set (i := if bool_decide _ then _ else _). destruct (IH i p) as [H1 H2]; [lia|]. unfold glue. cbn [fst snd].
      split; [by rewrite append_cons, append_nil_l, append_cons, <-H1|done].
Qed.
Lemma read_fuel fuel fuel' stars p : (String.length p < fuel)%nat → (String.length p < fuel')%nat → read fuel stars p = read fuel' stars p.
Proof.
  revert fuel' p. induction fuel as [|fuel IH]; intros [|fuel'] p H1 H2; [lia..|]. destruct p as [|c p]; [done|]. cbn [read]. cbn in H1, H2. pose proof (TrimPrefix_shorter p "^") as Hl.
  rewrite (read_class_fuel fuel fuel') by lia. case_bool_decide.
  - destruct (read_class fuel' _ _) as [[l q]|] eqn:Hc; [|done]. apply class_read_shorter in Hc; [|done]. cbn. by rewrite (IH fuel') by lia.
  - destruct p as [|d p]; [by rewrite (IH fuel') by lia|]. rewrite (IH fuel' (String d p)), (IH fuel' p) by (cbn in *; lia). done.
Qed.
(** The caret at the start of a class. *)
Lemma TrimPrefix_not p c : HasPrefix p c = false → TrimPrefix p c = p.
Proof. unfold HasPrefix, TrimPrefix. intros H%bool_decide_eq_false. by destruct (StripPrefix c p); [destruct H|]. Qed.
Lemma glue_nil ab : glue "" ab = ab.
Proof. destruct ab. unfold glue. by rewrite append_nil_l. Qed.
Lemma caret p : ∃ y, p = y +++ TrimPrefix p "^" ∧ (∀ z, scan true (y +++ z) = glue y (scan true z))
  ∧ ∀ z, (z = "" ∨ HasPrefix z "^" = HasPrefix (TrimPrefix p "^") "^") → TrimPrefix (y +++ z) "^" = z ∧ HasPrefix (y +++ z) "^" = HasPrefix p "^".
Proof.
  destruct (HasPrefix p "^") eqn:Hp.
  - destruct p as [|c p]; [done|]. rewrite HasPrefix_one in Hp. apply bool_decide_eq_true in Hp as ->. exists "^". rewrite TrimPrefix_one.
    split_and!; [by rewrite append_cons, append_nil_l|intros z; by rewrite append_cons, append_nil_l, scan_plain|]. intros z _.
    rewrite append_cons, append_nil_l, TrimPrefix_one, HasPrefix_one. by rewrite bool_decide_true.
  - rewrite (TrimPrefix_not p) by done. exists "". split_and!; [by rewrite append_nil_l|intros z; by rewrite glue_nil, append_nil_l|]. rewrite Hp. intros z Hz. rewrite append_nil_l.
    assert (HasPrefix z "^" = false) as Hf by (by destruct Hz as [->|]). split; [by apply TrimPrefix_not|done].
Qed.
Lemma read_scan fuel p : (String.length p < fuel)%nat →
  read fuel true p = (a ← read fuel false (scan false p).1; b ← read fuel true (scan false p).2; Some (a ++ b)).
Proof.
  revert p. induction fuel as [|fuel IH]; intros p Hf; [lia|]. destruct p as [|c p]; [done|]. cbn in Hf.
  assert (∀ q e x, String c p = x +++ q → (String.length q < fuel)%nat → scan false (String c p) = glue x (scan false q) → read (S fuel) true (String c p) = (rest ← read fuel true q; Some (e :: rest)) →
    (∀ z, (String.length z ≤ String.length q)%nat → read (S fuel) false (x +++ z) = (rest ← read fuel false z; Some (e :: rest))) →
    read (S fuel) true (String c p) = (a ← read (S fuel) false (scan false (String c p)).1; b ← read (S fuel) true (scan false (String c p)).2; Some (a ++ b))) as Hgo.
  { intros q e x Hq Hlen Hs -> Hr. rewrite Hs. unfold glue. cbn [fst snd]. destruct (scan_splits false q) as [Hsp _].
    assert (String.length (scan false q).1 + String.length (scan false q).2 = String.length q)%nat by (rewrite <-append_length; by f_equal).
    rewrite Hr, IH, (read_fuel (S fuel) fuel true) by lia. destruct (read fuel false (scan false q).1); [|done]. cbn. by destruct (read fuel true _). }
  destruct (decide (c = "["%char)) as [->|Hbr].
  - destruct (caret p) as (y & Hy & Hsy & Hcy). set (p0 := TrimPrefix p "^") in *. pose proof (TrimPrefix_shorter p "^") as Hl. fold p0 in Hl.
    destruct (read_class fuel p0 true) as [[l q]|] eqn:Hc.
    + pose proof Hc as (x & Hx & Hne & Hread & Hs)%read_class_whole. apply (Hgo q (Class (HasPrefix p "^") l) (String "[" (y +++ x))).
      * by rewrite append_cons, append_assoc, <-Hx, <-Hy.
      * apply class_read_shorter in Hc; [lia|done].
      * rewrite scan_plain by done. rewrite bool_decide_true by done. rewrite Hy, Hsy, Hx, Hs, !glue_glue. by rewrite append_cons, append_nil_l.
      * cbn [read]. rewrite bool_decide_true by done. fold p0. by rewrite Hc.
      * intros z Hz. rewrite append_cons, append_assoc. cbn [read]. rewrite bool_decide_true by done.
        destruct (Hcy (x +++ z)) as [-> ->]; [right; rewrite Hx; destruct x; [done|]; by rewrite !HasPrefix_one_append|].
        rewrite Hread; [done|]. rewrite append_length. rewrite Hx, append_length in Hl. lia.
    + assert (scan false (String "[" p) = glue (String "[" y) (scan true p0)) as ->.
      { rewrite scan_plain by done. rewrite bool_decide_true by done. rewrite Hy at 1. rewrite Hsy, glue_glue. by rewrite append_cons, append_nil_l. }
      destruct (scan_splits true p0) as [Hsp _]. destruct (scan true p0) as [c0 rest]. unfold glue. cbn [fst snd] in *. rewrite append_cons. cbn [read]. rewrite bool_decide_true by done. fold p0. rewrite Hc.
      destruct (Hcy c0) as [-> _]; [destruct c0; [by left|right; rewrite Hsp; by rewrite HasPrefix_one_append, HasPrefix_one]|].
      destruct (read_class fuel c0 true) as [[l z]|] eqn:Hc0; [|done]. apply read_class_whole in Hc0 as (x & -> & _ & Hread & _). rewrite append_assoc in Hsp. rewrite Hsp, Hread in Hc; [done|].
      rewrite <-Hsp. lia.
  - destruct (decide (c = "*"%char)) as [->|Hst].
    { cbn [scan]. rewrite (bool_decide_false (_ = backslash)), bool_decide_true by done. cbn [andb negb fst snd]. change (read (S fuel) false "") with (Some (@nil item)).
      cbn [mbind option_bind]. by destruct (read (S fuel) true _). }
    destruct (decide (c = "?"%char)) as [->|Hq].
    { apply (Hgo p Any "?"); [by rewrite append_cons, append_nil_l|lia|by rewrite scan_plain|done|]. intros z _. by rewrite append_cons, append_nil_l. }
    destruct (decide (c = backslash)) as [->|Hb].
    + destruct p as [|d p]; [done|]. apply (Hgo p (Lit d) (String backslash (String d ""))); [by rewrite !append_cons, append_nil_l|cbn in Hf; lia| |done|].
      * cbn [scan]. rewrite bool_decide_true by done. by destruct (scan false p).
      * intros z _. by rewrite !append_cons, append_nil_l.
    + apply (Hgo p (Lit c) (String c "")); [by rewrite append_cons, append_nil_l|lia| | |].
      * rewrite scan_plain by done. rewrite (bool_decide_false (c = "["%char)) by done. by destruct (bool_decide _).
      * cbn [read]. by rewrite !bool_decide_false.
      * intros z _. rewrite append_cons, append_nil_l. cbn [read]. by rewrite !bool_decide_false.
Qed.

(** A pattern as the loop sees it: stars, a chunk, and the rest. *)
Definition chunk_items (chunk : string) : option (list item) := read (S (String.length chunk)) false chunk.
Lemma matchChunk_items chunk s : matchChunk chunk s = match chunk_items chunk with None => Err ErrBadPattern | Some l => Ok (take_items l (Some s)) end.
Proof. apply matchChunk_read. lia. Qed.
Lemma read_stars fuel p : (String.length p < fuel)%nat → ∃ k, (String.length (TrimLeftByte "*" p) + k = String.length p)%nat ∧ HasPrefix p "*" = bool_decide (k ≠ 0%nat)
  ∧ HasPrefix (TrimLeftByte "*" p) "*" = false ∧ read fuel true p = (l ← read fuel true (TrimLeftByte "*" p); Some (replicate k Star ++ l)).
Proof.
  revert p. induction fuel as [|fuel IH]; intros p Hf; [lia|]. destruct p as [|c p]; [by exists 0%nat|]. cbn in Hf. cbn [TrimLeftByte]. case_decide as Hc.
  - subst c. destruct (IH p) as (k & Hk & _ & Hn & Hr); [lia|]. exists (S k). split_and!; [cbn; lia|by rewrite HasPrefix_one, !bool_decide_true|done|].
    rewrite (read_fuel (S fuel) fuel true (TrimLeftByte "*" p)) by lia. cbn [read]. rewrite !(bool_decide_false) by done. rewrite bool_decide_true by done. cbn [andb]. rewrite Hr.
    by destruct (read fuel true (TrimLeftByte "*" p)).
  - exists 0%nat. rewrite HasPrefix_one, bool_decide_false by done. split_and!; [lia|by rewrite bool_decide_false by lia|done|]. by destruct (read _ _ _).
Qed.
Lemma pattern_parts p star chunk rest : p ≠ "" → scanChunk p = (star, chunk, rest) → (String.length chunk ≤ String.length p)%nat ∧ (String.length rest < String.length p)%nat
  ∧ (rest = "" ∨ HasPrefix rest "*" = true) ∧ (star = false → chunk ≠ "") ∧ (chunk = "" → rest = "") ∧
  ∃ k, star = bool_decide (k ≠ 0%nat) ∧ items p = (a ← chunk_items chunk; b ← items rest; Some (replicate k Star ++ a ++ b)).
Proof.
  intros Hp. unfold scanChunk. destruct (read_stars (S (String.length p)) p) as (k & Hk & Hs & Hn & Hr); [lia|]. set (q := TrimLeftByte "*" p) in *.
  destruct (scan_splits false q) as [Hq Hrest]. pose proof (read_scan (S (String.length p)) q ltac:(lia)) as Hread. destruct (scan false q) as [c r] eqn:Hsc. cbn [fst snd] in *. intros [= <- <- <-].
  assert (String.length c + String.length r = String.length q)%nat as Hlen by (rewrite <-append_length; by f_equal).
  assert (c = "" → r = "") as Hempty. { intros ->. destruct Hrest as [|Hrest]; [done|]. rewrite append_nil_l in Hq. rewrite <-Hq in Hrest. congruence. }
  assert (HasPrefix p "*" = false → c ≠ "") as Hne. { intros Hf ->. rewrite Hempty in Hlen by done. cbn in Hlen. rewrite Hs in Hf. apply bool_decide_eq_false in Hf. clearbody q. destruct p; [done|]. cbn in Hk. destruct k; [lia|by destruct Hf]. }
  split_and!; [lia| |done|done|done|].
  - destruct (HasPrefix p "*") eqn:Hpre; [apply eq_sym, bool_decide_eq_true in Hs; lia|]. destruct c; [by destruct Hne|]. cbn in Hlen. lia.
  - exists k. split; [done|]. unfold items at 1. rewrite Hr, Hread. unfold chunk_items, items. rewrite (read_fuel (S (String.length p)) (S (String.length c)) false) by lia.
    rewrite (read_fuel (S (String.length p)) (S (String.length r)) true) by lia. destruct (read (S (String.length c)) false c); [|done]. cbn [mbind option_bind]. by destruct (read (S (String.length r)) true r).
Qed.
Lemma read_no_star fuel p l : read fuel false p = Some l → Star ∉ l.
Proof.
  revert p l. induction fuel as [|fuel IH]; intros p l; [done|]. destruct p as [|c p]; [intros [= <-]; apply not_elem_of_nil|]. cbn [read]. rewrite andb_false_r.
  assert (∀ (e : item) q, e ≠ Star → (rest ← read fuel false q; Some (e :: rest)) = Some l → Star ∉ l) as Hgo.
  { intros e q He. destruct (read fuel false q) as [m|] eqn:Hq; [|done]. intros [= <-]. apply not_elem_of_cons. split; [done|by eapply IH]. }
  repeat case_bool_decide; [|by apply Hgo|destruct p; [done|by apply Hgo]|by apply Hgo].
  destruct (read_class _ _ _) as [[rs q]|]; [|done]. by apply Hgo.
Qed.

(** ** The loop *)

(** Where a chunk is found: here, or after a star at a later byte. *)
Definition fits_end (last : bool) (t : string) : bool := negb (last && (t ≠s "")).
Fixpoint later (a : list item) (last : bool) (name : string) : option string :=
  match name with
  | "" => None
  | String c name =>
    if bool_decide (c = slash) then None else
    match take_items a (Some name) with Some t => if fits_end last t then Some t else later a last name | None => later a last name end
  end.
Definition found (star : bool) (a : list item) (last : bool) (name : string) : option string :=
  match take_items a (Some name) with
  | Some t => if fits_end last t then Some t else if star then later a last name else None
  | None => if star then later a last name else None
  end.
Lemma skip_match_later chunk rest a name : chunk_items chunk = Some a → skip_match chunk rest name = Ok (later a (rest =s "") name).
Proof.
  intros Ha. induction name as [|c name IH]; [done|]. cbn [skip_match later]. destruct (bool_decide (c = slash)); [done|]. rewrite matchChunk_items, Ha. cbn [mbind result_bind]. rewrite IH. unfold fits_end.
  destruct (take_items a (Some name)); [|done]. by destruct (_ && _).
Qed.
Lemma check_rest_items fuel p : (String.length p < fuel)%nat → check_rest fuel p = match items p with None => Err ErrBadPattern | Some _ => Ok () end.
Proof.
  revert p. induction fuel as [|fuel IH]; intros p Hf; [lia|]. cbn [check_rest]. case_bool_decide as Hp; [by subst|]. destruct (scanChunk p) as [[star chunk] rest] eqn:Hs.
  destruct (pattern_parts _ _ _ _ Hp Hs) as (_ & Hl & _ & _ & _ & k & _ & Hi). rewrite matchChunk_items, Hi. destruct (chunk_items chunk); [|done]. cbn [mbind result_bind option_bind].
  rewrite IH by lia. by destruct (items rest).
Qed.
Lemma Match_step fuel p name star chunk rest a : (String.length p < S fuel)%nat → p ≠ "" → scanChunk p = (star, chunk, rest) → chunk_items chunk = Some a →
  Match_loop (S fuel) p name = if star && (chunk =s "") then Ok (negb (bool_decide (slash ∈ bytes name))) else
    match found star a (rest =s "") name with
    | Some t => Match_loop fuel rest t
    | None => match items rest with None => Err ErrBadPattern | Some _ => Ok false end
    end.
Proof.
  intros Hf Hp Hs Ha. cbn [Match_loop]. rewrite bool_decide_false, Hs by done. destruct (star && _); [done|]. destruct (pattern_parts _ _ _ _ Hp Hs) as (_ & Hl & _).
  rewrite matchChunk_items, Ha. cbn [mbind result_bind]. rewrite (skip_match_later _ _ _ _ Ha), check_rest_items by lia. unfold found, fits_end.
  destruct (take_items a (Some name)) as [t|].
  - replace ((t =s "") || (rest ≠s "")) with (negb ((rest =s "") && (t ≠s ""))) by (by destruct (t =s ""), (rest =s "")). destruct (negb _); [done|].
    destruct star; cbn [mbind result_bind]; [|by destruct (items rest)]. destruct (later _ _ _); [done|]. by destruct (items rest).
  - destruct star; cbn [mbind result_bind]; [|by destruct (items rest)]. destruct (later _ _ _); [done|]. by destruct (items rest).
Qed.
(** The loop fails exactly on a pattern that is malformed, whatever the name. *)
Lemma Match_decides fuel p name : (String.length p < fuel)%nat → match items p with None => Match_loop fuel p name = Err ErrBadPattern | Some _ => ∃ b, Match_loop fuel p name = Ok b end.
Proof.
  revert p name. induction fuel as [|fuel IH]; intros p name Hf; [lia|]. destruct (decide (p = "")) as [->|Hp]; [by eexists|].
  destruct (scanChunk p) as [[star chunk] rest] eqn:Hs. destruct (pattern_parts _ _ _ _ Hp Hs) as (_ & Hl & _ & Hne & Hrest & k & _ & Hi). rewrite Hi.
  destruct (chunk_items chunk) as [a|] eqn:Ha; cbn [mbind option_bind].
  - rewrite (Match_step fuel p name star chunk rest a) by done. destruct (star && (chunk =s "")) eqn:Hend.
    + apply andb_true_iff in Hend as [_ Hc%bool_decide_eq_true]. rewrite Hrest by done. cbn. by eexists.
    + specialize (IH rest). destruct (found _ _ _ _) as [t|]; [specialize (IH t ltac:(lia)); by destruct (items rest)|]. destruct (items rest); [by eexists|done].
  - cbn [Match_loop]. rewrite bool_decide_false, Hs by done. rewrite matchChunk_items, Ha. destruct (star && (chunk =s "")) eqn:Hend; [|done].
    apply andb_true_iff in Hend as [_ Hc%bool_decide_eq_true]. by subst.
Qed.

(** ** A name that a pattern covers is matched *)

Definition ends (t s : string) : Prop := ∃ u, s = u +++ t.
Lemma ends_refl s : ends s s.
Proof. exists "". by rewrite append_nil_l. Qed.
Lemma ends_trans a b c : ends a b → ends b c → ends a c.
Proof. intros [u ->] [v ->]. exists (v +++ u). by rewrite append_assoc. Qed.
Lemma drop_ends n s : ends (drop_bytes n s) s.
Proof. revert s. induction n as [|n IH]; intros s; [apply ends_refl|]. destruct s as [|c s]; [apply ends_refl|]. destruct (IH s) as [u Hu]. exists (String c u). cbn. by rewrite append_cons, <-Hu. Qed.
Lemma ends_tail c d t s : ends (String c t) (String d s) → ends t s.
Proof. intros [[|e u] H]; [rewrite append_nil_l in H; injection H as <- <-; apply ends_refl|]. rewrite append_cons in H. injection H as _ ->. exists (u +++ String c ""). by rewrite append_assoc, append_cons, append_nil_l. Qed.

Lemma next_char_drop t r t' : next_char t = Some (r, t') → t ≠ "" ∧ (decode_rune t).1 = r ∧ t' = drop_bytes (decode_rune t).2 t.
Proof. unfold next_char. destruct t as [|c t]; [done|]. destruct (in_range 128 191 c); [done|]. destruct (decode_rune (String c t)). intros [= <- <-]. done. Qed.
(** Taking a character at an earlier byte does not lead past where a later character
    ends. *)
Lemma char_ends s t r t' : ends t s → next_char t = Some (r, t') → ends t' (drop_bytes (decode_rune s).2 s).
Proof.
  intros [u ->] Hn. pose proof (next_char_drop _ _ _ Hn) as (_ & _ & ->). destruct u as [|d u]; [rewrite append_nil_l; apply ends_refl|]. rewrite append_cons.
  apply (ends_trans _ t); [apply drop_ends|]. destruct (decode_rune (String d (u +++ t))) as [r' n] eqn:Hd. cbn [snd]. destruct ((r' =? RuneError) && (n =? 1)%nat) eqn:Hbad.
  { apply andb_true_iff in Hbad as [_ ->%Nat.eqb_eq]. cbn. by exists u. }
  destruct (decode_whole _ _ _ _ Hd Hbad) as (x & z & Hu & -> & Hx & _). cbn [drop_bytes]. rewrite Hu, drop_append. clear -Hu Hx Hn. revert x Hu Hx.
  induction u as [|e u IH]; intros [|f x] Hu Hx.
  - rewrite !append_nil_l in Hu. subst. apply ends_refl.
  - rewrite append_nil_l in Hu. subst t. rewrite append_cons in Hn. unfold next_char in Hn. apply Forall_cons in Hx as [Hx _]. by rewrite Hx in Hn.
  - rewrite append_nil_l in Hu. subst z. by exists (String e u).
  - rewrite !append_cons in Hu. injection Hu as -> Hu. apply Forall_cons in Hx as [_ Hx]. by eapply IH.
Qed.
Lemma slash_char t : HasPrefix t "/" = true → (decode_rune t).1 = 47.
Proof. destruct t as [|c t]; [done|]. rewrite HasPrefix_one. by intros ->%bool_decide_eq_true. Qed.
Lemma glob_takes a l t : Star ∉ a → glob (a ++ l) t → ∃ t', take_items a (Some t) = Some t' ∧ glob l t' ∧ ∀ s s', ends t s → take_items a (Some s) = Some s' → ends t' s'.
Proof.
  revert t. induction a as [|e a IH]; intros t Hs Hg; [exists t; split_and!; [done|done|by intros s s' ? [= <-]]|]. apply not_elem_of_cons in Hs as [He Hs].
  assert (∀ t1, glob (a ++ l) t1 → take_item e t = Some t1 → (∀ s s1, ends t s → take_item e s = Some s1 → ends t1 s1) →
    ∃ t', take_items (e :: a) (Some t) = Some t' ∧ glob l t' ∧ ∀ s s', ends t s → take_items (e :: a) (Some s) = Some s' → ends t' s') as Hgo.
  { intros t1 Hg1 Ht1 Hm. destruct (IH t1 Hs Hg1) as (t' & Ht & Hl & Hm'). exists t'. change (take_items (e :: a) (Some t)) with (take_items a (take_item e t)). rewrite Ht1. split_and!; [done..|].
    intros s s' Hts. change (take_items (e :: a) (Some s)) with (take_items a (take_item e s)). destruct (take_item e s) as [s1|] eqn:Hs1; [|intros Hn; by rewrite take_none in Hn]. intros Hn. by eapply Hm'; [eapply Hm|]. }
  inversion Hg as [|c l0 s0 Hg1|l0 s0 r s1 Hn Hr Hg1|neg rs l0 s0 r s1 Hn Hr Hg1| |]; subst; try done.
  - apply (Hgo s0); [done|cbn; by rewrite bool_decide_true|]. intros s s1 Ht. destruct s as [|d s]; [done|]. cbn. case_bool_decide; [|done]. intros [= <-]. by eapply ends_tail.
  - pose proof (next_char_drop _ _ _ Hn) as (Hne & Hr' & Hs1). apply (Hgo s1); [done| |].
    + cbn. rewrite bool_decide_false by done. destruct (HasPrefix t "/") eqn:Hp; [by apply slash_char in Hp; congruence|]. cbn. by rewrite Hs1.
    + intros s s2 Ht. cbn. destruct (_ || _); [done|]. intros [= <-]. by eapply char_ends.
  - pose proof (next_char_drop _ _ _ Hn) as (Hne & Hr' & Hs1). apply (Hgo s1); [done| |].
    + cbn. rewrite bool_decide_false by done. destruct (decode_rune t) as [r0 n]. cbn in *. subst. rewrite Hr. by destruct neg.
    + intros s s2 Ht. cbn. case_bool_decide; [done|]. pose proof (char_ends s t r s1 Ht Hn) as Hend. destruct (decode_rune s) as [r0 n]. destruct (Bool.eqb _ _); [done|]. by intros [= <-].
Qed.
(** What follows stars is matched further on. *)
Lemma glob_stars k l t : glob (replicate k Star ++ l) t → ∃ t', ends t' t ∧ glob l t' ∧ (k = 0%nat → t' = t).
Proof.
  revert t. induction k as [|k IH]; intros t; [intros Hg; exists t; split_and!; [apply ends_refl|done|done]|]. cbn. remember (Star :: replicate k Star ++ l) as m eqn:Hm. intros Hg.
  induction Hg as [| | | |m s Hg _|m s r s' Hn Hr _ IHg]; simplify_eq.
  - destruct (IH _ Hg) as (t' & He & Hl & _). by exists t'.
  - destruct (IHg eq_refl) as (t' & He & Hl & _). exists t'. split_and!; [|done|done]. eapply ends_trans; [exact He|]. apply next_char_drop in Hn as (_ & _ & ->). apply drop_ends.
Qed.
Lemma later_found a last t t' s : ends t s → slash ∉ bytes s → t ≠ s → take_items a (Some t) = Some t' → fits_end last t' = true →
  ∃ s1 s2, ends t s1 ∧ take_items a (Some s1) = Some s2 ∧ fits_end last s2 = true ∧ later a last s = Some s2.
Proof.
  intros [u ->] Hns Hne Ht Hl. destruct u as [|c u]; [by rewrite append_nil_l in Hne|]. clear Hne. revert c Hns. induction u as [|d u IH]; intros c Hns; rewrite append_cons in *.
  all: cbn in Hns; apply not_elem_of_cons in Hns as [Hc Hns]; cbn [later]; rewrite bool_decide_false by congruence.
  - rewrite append_nil_l in *. rewrite Ht, Hl. exists t, t'. split_and!; [apply ends_refl|done..].
  - destruct (IH d Hns) as (s1 & s2 & He & Hs & Hf & Hlat). rewrite Hlat. destruct (take_items a (Some (String d u +++ t))) as [s3|] eqn:H3; [|by exists s1, s2].
    destruct (fits_end last s3) eqn:Hf3; [|by exists s1, s2]. exists (String d u +++ t), s3. split_and!; [by exists (String d u)|done..].
Qed.

Lemma take_ends a s s' : take_items a (Some s) = Some s' → ends s' s.
Proof.
  revert s. induction a as [|e a IH]; intros s; [intros [= <-]; apply ends_refl|]. change (take_items (e :: a) (Some s)) with (take_items a (take_item e s)).
  destruct (take_item e s) as [s1|] eqn:H1; [|by rewrite take_none]. intros Hs. eapply ends_trans; [by apply IH|]. clear Hs. destruct e as [| |c|neg rs]; cbn in H1.
  - done.
  - destruct (_ || _); [done|]. injection H1 as <-. apply drop_ends.
  - destruct s as [|d s]; [done|]. case_bool_decide; [|done]. injection H1 as ->. exists (String d ""). by rewrite append_cons, append_nil_l.
  - case_bool_decide; [done|]. destruct (decode_rune s). destruct (Bool.eqb _ _); [done|]. injection H1 as <-. apply drop_ends.
Qed.
Lemma found_ends star a last s s' : found star a last s = Some s' → fits_end last s' = true ∧ ∃ u s1, s = u +++ s1 ∧ (star = false → u = "") ∧ slash ∉ bytes u ∧ take_items a (Some s1) = Some s'.
Proof.
  assert (later a last s = Some s' → fits_end last s' = true ∧ ∃ u s1, s = u +++ s1 ∧ slash ∉ bytes u ∧ take_items a (Some s1) = Some s') as Hl.
  { induction s as [|c s IH]; [done|]. cbn [later]. case_bool_decide as Hc; [done|].
    assert (later a last s = Some s' → fits_end last s' = true ∧ ∃ u s1, String c s = u +++ s1 ∧ slash ∉ bytes u ∧ take_items a (Some s1) = Some s') as Hstep.
    { intros (Hf & u & s1 & -> & Hu & Ht)%IH. split; [done|]. exists (String c u), s1. split_and!; [by rewrite append_cons| |done]. cbn. apply not_elem_of_cons. split; [congruence|done]. }
    destruct (take_items a (Some s)) as [t|] eqn:Ht; [|done]. destruct (fits_end last t) eqn:Hf; [|done]. intros [= <-]. split; [done|]. exists (String c ""), s.
    split_and!; [by rewrite append_cons, append_nil_l| |done]. cbn. apply not_elem_of_cons. split; [congruence|apply not_elem_of_nil]. }
  unfold found. assert (slash ∉ bytes "") as Hnil by apply not_elem_of_nil. destruct (take_items a (Some s)) as [t|] eqn:Ht.
  - destruct (fits_end last t) eqn:Hf; [intros [= <-]; split; [done|]; exists "", s; split_and!; [by rewrite append_nil_l|done..]|].
    destruct star; [|done]. intros (Hf' & u & s1 & H)%Hl. split; [done|]. exists u, s1. naive_solver.
  - destruct star; [|done]. intros (Hf' & u & s1 & H)%Hl. split; [done|]. exists u, s1. naive_solver.
Qed.
Lemma slash_ends t s : ends t s → slash ∉ bytes s → slash ∉ bytes t.
Proof. intros [u ->]. rewrite bytes_append. set_solver. Qed.
Lemma Match_complete fuel p s t l : (String.length p < fuel)%nat → slash ∉ bytes s → items p = Some l → glob l t → ends t s → (t = s ∨ HasPrefix p "*" = true) → Match_loop fuel p s = Ok true.
Proof.
  revert p s t l. induction fuel as [|fuel IH]; intros p s t l Hf Hns Hl Hg He Ht; [lia|]. destruct (decide (p = "")) as [->|Hp].
  { injection Hl as <-. inversion Hg; subst. destruct Ht as [<-|]; [|done]. done. }
  destruct (scanChunk p) as [[star chunk] rest] eqn:Hs. assert (star = HasPrefix p "*") as Hstar by (unfold scanChunk in Hs; destruct (scan _ _); by simplify_eq).
  destruct (pattern_parts _ _ _ _ Hp Hs) as (_ & Hlen & Hrest & _ & _ & k & Hk & Hi). rewrite Hi in Hl. destruct (chunk_items chunk) as [a|] eqn:Ha; [|done].
  destruct (items rest) as [b|] eqn:Hb; [|done]. injection Hl as <-. rewrite (Match_step fuel p s star chunk rest a) by done. destruct (star && _); [by rewrite bool_decide_false|].
  apply glob_stars in Hg as (t1 & He1 & Hg & Hk1). apply glob_takes in Hg as (t2 & Ht2 & Hg & Hm); [|by eapply read_no_star].
  assert (fits_end (rest =s "") t2 = true) as Hfit. { unfold fits_end. destruct (decide (rest = "")) as [->|Hr]; [injection Hb as <-; by inversion Hg|]. by rewrite (bool_decide_false (rest = "")). }
  assert (∃ s2, found star a (rest =s "") s = Some s2 ∧ ends t2 s2) as (s2 & Hfound & He2).
  { pose proof (ends_trans _ _ _ He1 He) as Hts. unfold found. destruct (decide (t1 = s)) as [->|Hne]; [rewrite Ht2, Hfit; exists t2; split; [done|apply ends_refl]|].
    assert (star = true) as ->. { destruct star; [done|]. rewrite <-Hstar in Ht. destruct Ht as [->|]; [|done]. apply eq_sym, bool_decide_eq_false in Hk. destruct Hne. apply Hk1. destruct k; [done|by destruct Hk]. }
    destruct (later_found a (rest =s "") t1 t2 s) as (s1 & s2 & Hs1 & Htake & Hf2 & ->); [done..|].
    destruct (take_items a (Some s)) as [t'|] eqn:Ht'; [destruct (fits_end _ t'); [exists t'; split; [done|by apply (Hm s t')]|]|]; exists s2; (split; [done|by apply (Hm s1 s2)]). }
  rewrite Hfound. apply found_ends in Hfound as (Hf2 & u & s1 & -> & _ & _ & Hs1). apply (IH rest s2 t2 b); [lia| |done|done|done|].
  - eapply slash_ends; [|exact Hns]. eapply ends_trans; [by eapply take_ends|]. by exists u.
  - destruct Hrest as [->|]; [left|by right]. unfold fits_end in *. rewrite bool_decide_true in * by done. cbn in *. rewrite !negb_involutive in *. apply bool_decide_eq_true in Hf2, Hfit. congruence.
Qed.

(** ** What is matched in an ASCII name is covered *)

Definition plain (s : string) : Prop := Forall (λ c, byte_val c < 128) (bytes s).
Lemma plain_next c s : plain (String c s) → plain s ∧ decode_rune (String c s) = (byte_val c, 1%nat) ∧ next_char (String c s) = Some (byte_val c, s).
Proof.
  intros [Hc Hs]%Forall_cons. assert (decode_rune (String c s) = (byte_val c, 1%nat)) as Hd by (cbn; by rewrite (proj2 (Z.ltb_lt _ _) Hc)). split_and!; [done|done|].
  unfold next_char. assert (in_range 128 191 c = false) as -> by (unfold in_range; by rewrite (proj2 (Z.leb_gt 128 _)) by lia). by rewrite Hd.
Qed.
Lemma slash_byte c : byte_val c = 47 → c = slash.
Proof. destruct c as [[] [] [] [] [] [] [] []]; vm_compute; congruence. Qed.
Lemma plain_ends t s : ends t s → plain s → plain t.
Proof. intros [u ->]. unfold plain. rewrite bytes_append. by intros [_ ?]%Forall_app. Qed.
Lemma take_glob a l s s' : plain s → take_items a (Some s) = Some s' → glob l s' → glob (a ++ l) s.
Proof.
  revert s. induction a as [|e a IH]; intros s Hs; [by intros [= ->]|]. change (take_items (e :: a) (Some s)) with (take_items a (take_item e s)).
  destruct s as [|c s]; [destruct e; cbn; by rewrite ?take_none|]. apply plain_next in Hs as (Hs & Hd & Hn). intros Ht Hg. destruct e as [| |d|neg rs]; cbn [app].
  - by rewrite take_none in Ht.
  - cbn [take_item] in Ht. rewrite Hd in Ht. destruct (_ || _) eqn:Hp; [by rewrite take_none in Ht|]. eapply glob_any; [done| |by eapply IH].
    intros ->%slash_byte. rewrite HasPrefix_one, bool_decide_true in Hp by done. by rewrite orb_true_r in Hp.
  - cbn [take_item literal] in Ht. case_bool_decide; [|by rewrite take_none in Ht]. subst. constructor. by eapply IH.
  - cbn [take_item] in Ht. rewrite bool_decide_false, Hd in Ht by done. destruct (Bool.eqb _ _) eqn:Hb; [by rewrite take_none in Ht|]. eapply glob_class; [done| |by eapply IH].
    apply eqb_false_iff in Hb. destruct (in_ranges _ _), neg; done.
Qed.
Lemma stars_glob k l u s : plain (u +++ s) → slash ∉ bytes u → (k = 0%nat → u = "") → glob l s → glob (replicate k Star ++ l) (u +++ s).
Proof.
  intros Hp Hu Hk Hg. assert (glob (replicate k Star ++ l) s) as Hs by (clear Hk; induction k; [done|by apply glob_star]). destruct k as [|k]; [by rewrite Hk, append_nil_l|].
  clear Hk. cbn in *. induction u as [|c u IH]; [by rewrite append_nil_l|]. rewrite append_cons in *. apply plain_next in Hp as (Hp & _ & Hn). cbn in Hu. apply not_elem_of_cons in Hu as [Hc Hu].
  eapply glob_skip; [done| |by apply IH]. intros ->%slash_byte. done.
Qed.
Lemma Match_sound fuel p s : (String.length p < fuel)%nat → plain s → Match_loop fuel p s = Ok true → ∃ l, items p = Some l ∧ glob l s.
Proof.
  revert p s. induction fuel as [|fuel IH]; intros p s Hf Hs Hm; [lia|]. destruct (decide (p = "")) as [->|Hp].
  { exists []. split; [done|]. cbn in Hm. injection Hm as Hm%bool_decide_eq_true. subst. constructor. }
  pose proof (Match_decides (S fuel) p s Hf) as Hi. destruct (scanChunk p) as [[star chunk] rest] eqn:Hsc. destruct (pattern_parts _ _ _ _ Hp Hsc) as (_ & Hlen & _ & _ & Hend & k & Hk & Hit).
  rewrite Hit in *. destruct (chunk_items chunk) as [a|] eqn:Ha; cbn [mbind option_bind] in Hi |- *; [|congruence]. destruct (items rest) as [b|] eqn:Hb; cbn [mbind option_bind] in Hi |- *; [|congruence].
  eexists; split; [done|]. clear Hi. rewrite (Match_step fuel p s star chunk rest a) in Hm by done. destruct (star && (chunk =s "")) eqn:Hstar.
  - apply andb_true_iff in Hstar as [-> Hc%bool_decide_eq_true]. subst chunk. injection Ha as <-. rewrite Hend in Hb by done. injection Hb as <-. injection Hm as Hm%negb_true_iff%bool_decide_eq_false.
    rewrite <-(append_nil_r s) in *. apply stars_glob; [done|by rewrite append_nil_r in Hm| |constructor]. intros ->. done.
  - destruct (found star a (rest =s "") s) as [t|] eqn:Hfd; [|by rewrite Hb in Hm]. apply found_ends in Hfd as (_ & u & s1 & -> & Hu & Hns & Ht).
    assert (plain s1) as Hs1 by (eapply plain_ends; [|exact Hs]; by exists u). destruct (IH rest t) as (b' & Hb' & Hg); [lia|by eapply plain_ends; [eapply take_ends|]|done|]. simplify_eq.
    apply stars_glob; [done|done| |by eapply take_glob]. intros ->. by apply Hu.
Qed.
End Meaning.

(** * Hidden names *)

Section Hidden.
Context {U : Unicode}.
Import filepolicy.

Definition covered (patterns : list string) (name : string) : Prop :=
  ∃ pattern l, pattern ∈ patterns ∧ items (ToLower pattern) = Some l ∧ glob l (ToLower name).
Lemma validated patterns pattern : ValidatePatterns patterns = Ok () → pattern ∈ patterns → is_Some (items (ToLower pattern)).
Proof.
  unfold ValidatePatterns. case_bool_decide; [done|]. intros Hv Hin. clear -Hv Hin. induction Hin as [pattern l|pattern p l _ IH]; cbn [foldM] in Hv.
  - destruct (_ || _); [done|]. pose proof (Match_decides (S (String.length (ToLower pattern))) (ToLower pattern) "test" ltac:(lia)) as Hm. unfold path.Match in Hv.
    destruct (items (ToLower pattern)); [done|]. by rewrite Hm in Hv.
  - apply IH. destruct (_ || _); [done|]. by destruct (path.Match _ _).
Qed.
(** C24. What ValidatePatterns accepts, with a name of a file, hides every name that one of
    the patterns covers, whatever its case, and among the names in ASCII only those:
    Hidden agrees with what the patterns mean, and never fails on a pattern. *)
Theorem hidden_exact patterns name : ValidatePatterns patterns = Ok () → slash ∉ bytes (ToLower name) →
  (covered patterns name → Hidden patterns name = true)
  ∧ (is_ascii (ToLower name) = true → Hidden patterns name = true → covered patterns name)
  ∧ Forall (λ pattern, ∃ b, path.Match (ToLower pattern) (ToLower name) = Ok b) patterns.
Proof.
  intros Hv Hn. unfold Hidden. split_and!.
  - intros (pattern & l & Hin & Hl & Hg). apply existsb_exists. exists pattern. split; [by apply list_elem_of_In|]. unfold path.Match.
    by erewrite Match_complete; [|lia|done|done|done|apply ends_refl|by left].
  - intros Ha (pattern & Hin%list_elem_of_In & Hm)%existsb_exists. destruct (validated _ _ Hv Hin) as [l Hl]. unfold path.Match in Hm.
    pose proof (Match_decides (S (String.length (ToLower pattern))) (ToLower pattern) (ToLower name) ltac:(lia)) as Hd. rewrite Hl in Hd. destruct Hd as [b Hb]. rewrite Hb in Hm. subst b.
    apply Match_sound in Hb as (l' & Hl' & Hg); [|lia|]; [by exists pattern, l'|]. apply Forall_forall. intros c Hc. unfold is_ascii in Ha. rewrite forallb_forall in Ha. by apply Z.ltb_lt, Ha, list_elem_of_In.
  - apply Forall_forall. intros pattern Hin. destruct (validated _ _ Hv Hin) as [l Hl]. unfold path.Match.
    pose proof (Match_decides (S (String.length (ToLower pattern))) (ToLower pattern) (ToLower name) ltac:(lia)) as Hd. by rewrite Hl in Hd.
Qed.
End Hidden.

Section Example.
#[local] Existing Instance latin1_unicode.
Lemma hidden_exact_witness : covered ["?ECRET*"; "*.[jk]ey"] "A.Key" ∧ filepolicy.Hidden ["?ECRET*"; "*.[jk]ey"] "A.Key" = true.
Proof.
  assert (covered ["?ECRET*"; "*.[jk]ey"] "A.Key") as Hc.
  { exists "*.[jk]ey". eexists. split; [set_solver|]. split; [vm_compute; reflexivity|]. change (ToLower "A.Key") with "a.key".
    eapply glob_skip; [vm_compute; reflexivity|done|]. apply glob_star, glob_lit. eapply glob_class; [vm_compute; reflexivity..|]. repeat constructor. }
  split; [exact Hc|]. apply (hidden_exact ["?ECRET*"; "*.[jk]ey"] "A.Key"); [vm_compute; reflexivity| |exact Hc]. apply (bool_decide_eq_false_1 (slash ∈ bytes (ToLower "A.Key"))). vm_compute. reflexivity.
Defined.
End Example.
