(* ===== verification/Transfers.v ===== *)
(** What a peer may reach (node/backend/internal/services): the paths of the file
    service (filesystem/service.go, up to the system calls), the grants of paths to
    peers (grants/service.go), and what a grant lets a peer read, move away and write
    (transfers/service.go). *)
From S2P Require Import Prelude GoLib Base64 Json Entities FileTypes SignedAuth SignedAuthExamples GoTime StateProg StateRecords StatePeers StateCodec StateExamples FilePolicy.
From stdpp Require Import options.
Local Open Scope Z_scope.
Local Open Scope go_scope.

(** * The file system

    What the code asks of the directories of the node; [ErrNotExist] is fs.ErrNotExist. *)
Definition ErrNotExist : error := errors_New "file does not exist".
Record FileInfo := mkFileInfo { Info_Name : string; IsDir : bool; IsRegular : bool; Info_Size : Z; ModTime : time }.
Class Files := {
  safeStat : string → result FileInfo;
  safeLstat : string → result FileInfo;
  safeOpen : string → result FileInfo;
  rejectProtectedTree : Mount → string → result ();
  mount_state : Mount → string * bool * bool * string;
  grant_path : Mount → TransferPathGrant → option string;
}.

(** * filesystem/service.go *)

Module filesystem.
Definition ErrNotFound : error := errors_New "resource not found".
Definition ErrTraversal : error := errors_New "path escapes mount".
Definition ErrConflict : error := errors_New "destination already exists".
Definition ErrDisabled : error := errors_New "mount is disabled".
Definition ErrInvalid : error := errors_New "invalid request".
Definition ErrSourceChanged : error := errors_New "source changed during copy".
Definition ErrHiddenName : error := errors_New "destination name is hidden".

(** [filepath.Rel]: the elements of the base that are left over lead up, those of the
    target down. *)
Definition elements (s : string) : list string := if s =s "" then [] else if s =s "/" then [""] else Split slash s.
Fixpoint strip_common (a b : list string) : list string * list string :=
  match a, b with x :: a', y :: b' => if x =s y then strip_common a' b' else (a, b) | _, _ => (a, b) end.
Definition filepath_Rel (base target : string) : option string :=
  let base := path_Clean base in let target := path_Clean target in
  if base =s target then Some "." else
  let base := if base =s "." then "" else base in
  if negb (Bool.eqb (HasPrefix base "/") (HasPrefix target "/")) then None else
  let '(up, down) := strip_common (elements base) (elements target) in
  if bool_decide (head up = Some "..") then None else Some (Join slash (replicate (length up) ".." ++ down)).
Definition within (root candidate : string) : bool :=
  match filepath_Rel root candidate with Some relative => negb ((relative =s "..") || HasPrefix relative "../") | None => false end.
Definition cleanRelative (path : string) : string := let path := TrimSpace path in if path =s "" then "." else path_Clean path.
Definition escapes (clean : string) : bool := (clean =s "..") || HasPrefix clean "../".

Section Service.
Context {U : Unicode} {F : Files} {YMount : Yaml Mount}.

Definition hiddenName (mount : Mount) (name : string) : bool := filepolicy.Internal name || filepolicy.Hidden (Mount_HiddenPatterns mount) name.
Definition hidden_part (mount : Mount) (part : string) : bool := (part ≠s ".") && hiddenName mount part.
Definition diagnose (m : Mount) : Mount :=
  let '(state, readable, writable, bits) := mount_state m in
  m <| Mount_State := state |> <| Mount_Readable := readable |> <| Mount_Writable := writable |> <| Mount_ModeBits := bits |>.

(** The store is read in the state [d], with what its caller's context and its files
    do. *)
Definition stored_mount (o : oracle) (ctx : StateProg.Context) (d : db) (id : string) : result Mount :=
  match (db_call o ctx (StatePeers.GetMount id) d).2 with
  | Err e => if bool_decide (e = StateProg.ErrNotFound) then Err ErrNotFound else Err e
  | Ok m => Ok m
  end.
Definition GetMount (o : oracle) (ctx : StateProg.Context) (d : db) (id : string) : result Mount := m ← stored_mount o ctx d id; Ok (diagnose m).
Definition IsHiddenPath (o : oracle) (ctx : StateProg.Context) (d : db) (mountID relative : string) : result bool :=
  mount ← stored_mount o ctx d mountID;
  let clean := cleanRelative relative in
  if HasPrefix relative "/" || escapes clean then Err ErrTraversal else Ok (existsb (hidden_part mount) (Split slash clean)).
Definition IsCanary (o : oracle) (ctx : StateProg.Context) (d : db) (mountID relative : string) : bool :=
  match stored_mount o ctx d mountID with
  | Err _ => false
  | Ok mount => let clean := cleanRelative relative in negb (HasPrefix relative "/") && negb (escapes clean) && filepolicy.IsCanary (Mount_CanaryPaths mount) clean
  end.

Definition as_not_found {A} (r : result A) : result () :=
  match r with Ok _ => Ok () | Err e => Err (if bool_decide (e = ErrNotExist) then ErrNotFound else e) end.
(** The part of resolvePath that looks at names alone. *)
Definition candidate (mount : Mount) (relative : string) (allowMissing : bool) : result string :=
  if negb (Mount_Enabled mount) then Err ErrDisabled else
  let clean := cleanRelative relative in
  if HasPrefix relative "/" || escapes clean then Err ErrTraversal else
  if existsb (hidden_part mount) (Split slash clean) then Err (if allowMissing then ErrHiddenName else ErrNotFound) else
  let candidate := path_Join (Mount_LocalPath mount) clean in
  if negb (within (Mount_LocalPath mount) candidate) then Err ErrTraversal else Ok candidate.
Definition resolvePath (o : oracle) (ctx : StateProg.Context) (d : db) (mountID relative : string) (allowMissing allowFinalLink : bool) : result (Mount * string) :=
  mount ← GetMount o ctx d mountID;
  candidate ← candidate mount relative allowMissing;
  (if allowMissing then rejectProtectedTree mount candidate else Ok ()) ≫= λ _,
  as_not_found (safeStat (if allowMissing || allowFinalLink then path_Dir candidate else candidate)) ≫= λ _,
  (if allowFinalLink then as_not_found (safeLstat candidate) else Ok ()) ≫= λ _,
  Ok (mount, candidate).
Definition resolve o ctx d (mountID relative : string) (allowMissing : bool) : result (Mount * string) := resolvePath o ctx d mountID relative allowMissing false.

(** An entry without its checksum, which needs the content. *)
Record FileEntry := mkFileEntry { Entry_Name : string; Entry_Path : string; Entry_Type : string; Entry_Size : Z; Entry_ModifiedAt : time }.
Definition Metadata o ctx d (mountID relative : string) : result FileEntry :=
  '(_, resolved) ← resolve o ctx d mountID relative false;
  match safeStat resolved with
  | Err e => Err (if bool_decide (e = ErrNotExist) then ErrNotFound else e)
  | Ok info => Ok (mkFileEntry (Info_Name info) (cleanRelative relative) (if IsDir info then "directory" else "file") (Info_Size info) (ModTime info))
  end.
(** The file that is opened, and what is known of it. *)
Definition Open o ctx d (mountID relative : string) : result (string * FileInfo) :=
  '(_, resolved) ← resolve o ctx d mountID relative false;
  info ← safeOpen resolved;
  if negb (IsRegular info) then Err ErrInvalid else Ok (resolved, info).
Definition ValidateMoveSourceWithExclusions o ctx d (mountID relative : string) (exclude : list string) : result () :=
  '(mount, resolved) ← resolvePath o ctx d mountID relative false true;
  rejectProtectedTree (mount <| Mount_HiddenPatterns := Mount_HiddenPatterns mount ++ exclude |>) resolved.
End Service.
End filesystem.

(** * transfers/service.go *)

Module transfers.
Import filesystem.
Definition ErrInvalid : error := errors_New "invalid transfer".
Definition ErrForbidden : error := errors_New "transfer is not permitted by the grant".
Definition ErrPeer : error := errors_New "peer is unavailable".
Definition ErrWaitingPeer : error := errors_New "job is waiting for its peer".
Definition ErrPeerUpgradeRequired : error := errors_New "peer must be upgraded to support protected move validation".

Definition cleanRelative (value : string) : string :=
  let value := TrimLeftByte slash (TrimSpace (ReplaceByte value backslash slash)) in
  let cleaned := path_Clean value in if (cleaned =s "") || (cleaned =s "/") then "." else cleaned.
Definition joinRelative (base relative : string) : string :=
  if (relative =s "") || (relative =s ".") then cleanRelative base
  else if (base =s "") || (base =s ".") then cleanRelative relative
  else cleanRelative (path_Join base relative).
(** A path is the base or below it. *)
Definition below (base path : string) : bool := (base =s ".") || (path =s base) || HasPrefix path (base +++ "/").
Definition withinGrant (base relative : string) : result string :=
  let relative := cleanRelative relative in
  if escapes relative then Err ErrTraversal else
  let base := cleanRelative base in
  let joined := path_Join base relative in
  if negb (below base joined) then Err ErrTraversal else Ok (cleanRelative joined).

Section Service.
Context {U : Unicode} {F : Files} {YMount : Yaml Mount} {YGrant : Yaml TransferPathGrant} {YPeer : Yaml Peer}.

Definition validateGrantDestination (grant : TransferPathGrant) (destination : string) : result () :=
  if HasPrefix destination "/" || Contains destination (String backslash "") then Err ErrTraversal else
  let resolved := cleanRelative destination in
  let base := cleanRelative (TransferPathGrant_Path grant) in
  if escapes resolved || negb (below base resolved) then Err ErrTraversal else
  if existsb (λ component, (component ≠s ".") && filepolicy.Hidden (TransferPathGrant_Exclude grant) component) (Split slash resolved) then Err ErrForbidden else Ok ().
Definition withinGrantWithExclusions (grant : TransferPathGrant) (relative : string) : result string :=
  resolved ← withinGrant (TransferPathGrant_Path grant) relative;
  validateGrantDestination grant resolved ≫= λ _, Ok resolved.
Definition normalizePolicy (value : string) : string := let value := ToLower (TrimSpace value) in if value =s "" then "fail" else value.
Definition contains (values : list string) (target : string) : bool := existsb (λ value, value =s target) values.

(** grantCheck.effective of infra/state/configuration.go: what becomes of a grant when
    its path is looked at; [grant_path] gives the reason it cannot be used. *)
Definition effective (check : grantCheck) : TransferPathGrant :=
  let g := check_grant check in
  let inactive reason := g <| TransferPathGrant_Enabled := false |> <| TransferPathGrant_InactiveReason := reason |> in
  if negb (checkPath check) then g else
  if existsb (λ part, (part ≠s ".") && (filepolicy.Internal part || filepolicy.Hidden (Mount_HiddenPatterns (check_mount check)) part)) (Split slash (TransferPathGrant_Path g))
  then inactive "path_unavailable" else
  match grant_path (check_mount check) g with Some reason => inactive reason | None => g end.
Definition stored_grant (o : oracle) (ctx : StateProg.Context) (d : db) (grantID : string) : result TransferPathGrant :=
  match (db_call o ctx (GetTransferGrant effective (TrimSpace grantID)) d).2 with
  | Err e => Err (if bool_decide (e = StateProg.ErrNotFound) then ErrForbidden else e)
  | Ok grant => Ok grant
  end.
Definition patterns_ok (grant : TransferPathGrant) : bool := match filepolicy.ValidatePatterns (TransferPathGrant_Exclude grant) with Ok _ => true | Err _ => false end.
Definition sendGrant o ctx d (peerNodeID grantID : string) : result TransferPathGrant :=
  grant ← stored_grant o ctx d grantID;
  let direction := TransferPathGrant_Direction grant in
  if negb (TransferPathGrant_Enabled grant) || (TransferPathGrant_PeerNodeID grant ≠s peerNodeID) || ((direction ≠s "send") && (direction ≠s "send_receive"))
     || negb (GrantPermissions_Read (TransferPathGrant_Permissions grant)) then Err ErrForbidden else
  if negb (patterns_ok grant) then Err ErrForbidden else Ok grant.
Definition receiveGrant o ctx d (peerNodeID grantID policy : string) : result TransferPathGrant :=
  grant ← stored_grant o ctx d grantID;
  let direction := TransferPathGrant_Direction grant in
  if negb (TransferPathGrant_Enabled grant) || (TransferPathGrant_PeerNodeID grant ≠s peerNodeID) || ((direction ≠s "receive") && (direction ≠s "send_receive"))
     || negb (GrantPermissions_Write (TransferPathGrant_Permissions grant)) then Err ErrForbidden else
  if negb (patterns_ok grant) then Err ErrForbidden else
  if negb (contains (TransferPathGrant_ConflictPolicies grant) (normalizePolicy policy)) then Err ErrForbidden else Ok grant.
Definition receiveDestination o ctx d (peerNodeID grantID relative policy : string) : result (TransferPathGrant * string) :=
  grant ← receiveGrant o ctx d peerNodeID grantID policy;
  destination ← withinGrantWithExclusions grant relative; Ok (grant, destination).

(** What a peer reads. Checksums, which read the content, are left out. *)
Definition OpenSource o ctx d (peerNodeID grantID relative : string) : result (string * FileInfo) :=
  grant ← sendGrant o ctx d peerNodeID grantID;
  sourcePath ← withinGrantWithExclusions grant relative;
  Open o ctx d (TransferPathGrant_MountID grant) sourcePath.
Definition ValidateMoveSource o ctx d (peerNodeID grantID relative : string) : result () :=
  grant ← sendGrant o ctx d peerNodeID grantID;
  if negb (GrantPermissions_Delete (TransferPathGrant_Permissions grant)) then Err ErrForbidden else
  sourcePath ← withinGrantWithExclusions grant relative;
  ValidateMoveSourceWithExclusions o ctx d (TransferPathGrant_MountID grant) sourcePath (TransferPathGrant_Exclude grant).
(** [%x] of an int64. *)
Definition hex_int (z : Z) : string :=
  (if z <? 0 then "-" else "") +++ (if z =? 0 then "0" else TrimLeftByte "0" (hex_EncodeToString (String.string_of_list_ascii ((λ i, byte_of (Z.shiftr (Z.abs z) (8 * Z.of_nat i) mod 256)) <$> rev (seq 0 8))))).
Definition sourceEntryETag (size : Z) (modified : time) : string := quote +++ hex_int size +++ "-" +++ hex_int modified +++ quote.
(** The mount and the path that are then given to the file service to delete. *)
Definition DeleteSource o ctx d (peerNodeID grantID relative : string) (sourceRoot : option string) (expectedETag : string) (recursive : bool) : result (string * string) :=
  if recursive then Err ErrForbidden else
  grant ← sendGrant o ctx d peerNodeID grantID;
  if negb (GrantPermissions_Delete (TransferPathGrant_Permissions grant)) then Err ErrForbidden else
  sourcePath ← withinGrantWithExclusions grant relative;
  match sourceRoot with
  | None => Err ErrPeerUpgradeRequired
  | Some root =>
    rootPath ← withinGrantWithExclusions grant root;
    if negb (below rootPath sourcePath) then Err ErrForbidden else
    ValidateMoveSourceWithExclusions o ctx d (TransferPathGrant_MountID grant) rootPath (TransferPathGrant_Exclude grant) ≫= λ _,
    entry ← Metadata o ctx d (TransferPathGrant_MountID grant) sourcePath;
    if (expectedETag ≠s "") && (sourceEntryETag (Entry_Size entry) (Entry_ModifiedAt entry) ≠s expectedETag) then Err ErrSourceChanged
    else Ok (TransferPathGrant_MountID grant, sourcePath)
  end.

(** A name that may be taken, unless the next one has to be tried. *)
Definition try_name o ctx d (grant : TransferPathGrant) (candidate : string) : result (option string) :=
  match validateGrantDestination grant candidate with
  | Err e => if bool_decide (e = ErrForbidden) then Ok None else Err e
  | Ok _ =>
    hidden ← IsHiddenPath o ctx d (TransferPathGrant_MountID grant) candidate;
    if (hidden : bool) then Ok None else
    match Metadata o ctx d (TransferPathGrant_MountID grant) candidate with
    | Ok _ => Ok None
    | Err e => if bool_decide (e = ErrNotFound) then Ok (Some candidate) else Err e
    end
  end.
Fixpoint unique_from o ctx d (grant : TransferPathGrant) (base extension : string) (count : nat) (index : N) : result string :=
  match count with
  | O => Err ErrInvalid
  | S count =>
    found ← try_name o ctx d grant (base +++ " (" +++ GoLib.dec index +++ ")" +++ extension);
    match found with Some name => Ok name | None => unique_from o ctx d grant base extension count (index + 1) end
  end.
Definition max_names : nat := N.to_nat 10000.
Definition uniqueDestination o ctx d (grant : TransferPathGrant) (destination : string) : result string :=
  let extension := path_Ext destination in
  unique_from o ctx d grant (TrimSuffix destination extension) extension max_names 1.

(** A peer that may transfer. A peer that cannot be read has no state, and is refused
    like one that is not trusted. *)
Definition pulling_peer o ctx d (nodeID : string) : result Peer :=
  match (db_call o ctx (GetPeer (TrimSpace nodeID)) d).2 with
  | Err _ => Err ErrForbidden
  | Ok peer => if negb (TrustedPeerState (Peer_State peer)) then Err ErrForbidden else if Peer_MTLSEndpoint peer =s "" then Err ErrPeer else Ok peer
  end.
Definition trustedPeer o ctx d (nodeID : string) : result Peer :=
  match (db_call o ctx (GetPeer (TrimSpace nodeID)) d).2 with
  | Err e => Err (if bool_decide (e = StateProg.ErrNotFound) then ErrForbidden else e)
  | Ok peer => if negb (TrustedPeerState (Peer_State peer)) then Err ErrForbidden else if Peer_MTLSEndpoint peer =s "" then Err ErrPeer else Ok peer
  end.

Record PullRequest := mkPullRequest {
  Pull_PeerNodeID : string; Pull_SourceGrantID : string; Pull_SourcePath : string; Pull_DestinationGrantID : string; Pull_DestinationPath : string;
  Pull_ConflictPolicy : string; Pull_VerifyChecksum : bool; Pull_BandwidthLimit : Z; Pull_MaxParallelFiles : Z; Pull_MaxParallelChunks : Z; Pull_CorrelationID : string;
}.
(** What CreatePull sets of jobs.CreateRequest. *)
Record CreateRequest := mkCreateRequest {
  Create_Type : string; Create_MountID : string; Create_PeerNodeID : string; Create_SourceGrantID : string; Create_DestinationGrantID : string;
  Create_SourcePath : string; Create_Destination : string; Create_ConflictPolicy : string; Create_Overwrite : bool; Create_VerifyChecksum : bool;
  Create_BandwidthLimit : Z; Create_MaxParallelFiles : Z; Create_MaxParallelChunks : Z; Create_CorrelationID : string;
}.
(** The destination when there is a file already. *)
Definition settle o ctx d (grant : TransferPathGrant) (destination policy : string) : result string :=
  match Metadata o ctx d (TransferPathGrant_MountID grant) destination with
  | Ok existing =>
    if Entry_Type existing ≠s "file" then Err ErrInvalid else
    if policy =s "fail" then Err ErrConflict else
    if policy =s "rename" then uniqueDestination o ctx d grant destination else Ok destination
  | Err e => if bool_decide (e = ErrNotFound) then Ok destination else Err e
  end.
(** The request that is made to the job service. *)
Definition CreatePull o ctx d (request : PullRequest) : result CreateRequest :=
  peer ← pulling_peer o ctx d (Pull_PeerNodeID request);
  let policy := normalizePolicy (Pull_ConflictPolicy request) in
  if policy =s "ask" then Err ErrInvalid else
  '(grant, destination) ← receiveDestination o ctx d (Peer_NodeID peer) (Pull_DestinationGrantID request) (Pull_DestinationPath request) (Pull_ConflictPolicy request);
  destination ← settle o ctx d grant destination policy;
  Ok (mkCreateRequest "transfer_pull" (TransferPathGrant_MountID grant) (Peer_NodeID peer) (TrimSpace (Pull_SourceGrantID request)) (TransferPathGrant_ID grant)
    (cleanRelative (Pull_SourcePath request)) destination policy ((policy =s "overwrite") || (policy =s "checksum")) (Pull_VerifyChecksum request || (policy =s "checksum"))
    (Pull_BandwidthLimit request) (Pull_MaxParallelFiles request) (Pull_MaxParallelChunks request) (Pull_CorrelationID request)).

(** The start of a pull of one file, [ExecutePull] and the first checks of
    executePullFile: nothing has been written yet. *)
Definition start_pull o ctx d (job : Job) : result (Peer * TransferPathGrant) :=
  peer ← trustedPeer o ctx d (Job_PeerNodeID job);
  if (Peer_State peer =s "offline") || (Peer_State peer =s "degraded") then Err ErrWaitingPeer else
  grant ← receiveGrant o ctx d (Peer_NodeID peer) (Job_DestinationGrantID job) (Job_ConflictPolicy job);
  if TransferPathGrant_MountID grant ≠s Job_MountID job then Err ErrForbidden else
  validateGrantDestination grant (Job_Destination job) ≫= λ _, Ok (peer, grant).
(** [validatePublication] of executePullFile, called right before the file that
    was received appears. [inspected] is what InspectCopyDestinationFiltered answers
    for the current mount, when the context has the filters of a signed copy. *)
Definition validatePublication o ctx d (inspected : option (string → result ())) (job : Job) : result () :=
  currentPeer ← trustedPeer o ctx d (Job_PeerNodeID job);
  currentGrant ← receiveGrant o ctx d (Peer_NodeID currentPeer) (Job_DestinationGrantID job) (Job_ConflictPolicy job);
  if TransferPathGrant_MountID currentGrant ≠s Job_MountID job then Err ErrForbidden else
  validateGrantDestination currentGrant (Job_Destination job) ≫= λ _,
  match inspected with
  | Some inspect => inspect (TransferPathGrant_MountID currentGrant)
  | None => Ok ()
  end.
End Service.
End transfers.

(** * grants/service.go *)

Module grants.
Import filesystem.
Definition ErrInvalid : error := errors_New "invalid transfer path grant".
Definition ErrNotFound : error := errors_New "transfer path grant not found".
Definition ErrConflict : error := errors_New "transfer path grant conflicts with an existing grant".

Record Input := mkInput {
  Input_PeerNodeID : string; Input_MountID : string; Input_Path : string; Input_Direction : string; Input_Permissions : GrantPermissions;
  Input_ConflictPolicies : list string; Input_Exclude : list string; Input_VisibleToPeer : bool; Input_Enabled : bool; Input_CorrelationID : string;
}.
Definition normalizePath : string → string := transfers.cleanRelative.

Section Service.
Context {U : Unicode} {F : Files} {YMount : Yaml Mount} {YGrant : Yaml TransferPathGrant} {YPeer : Yaml Peer} {YAudit : Yaml auditRecord}.

Definition allowed_policies : list string := ["skip"; "overwrite"; "rename"; "fail"; "ask"; "checksum"].
Definition normalizePolicies (values : list string) (direction : string) : result (list string) :=
  if (direction =s "send") && negb (bool_decide (values = [])) then Err ErrInvalid else
  if direction =s "send" then Ok [] else
  if bool_decide (values = []) then Ok ["fail"] else
  unique ← foldM (λ (unique : gset string) value,
    let value := ToLower (TrimSpace value) in if value ∈b allowed_policies then Ok ({[value]} ∪ unique) else Err ErrInvalid) ∅ values;
  Ok (merge_sort String.le (base.elements unique)).
Definition direction_ok (p : GrantPermissions) (direction : string) : bool :=
  if direction =s "send" then GrantPermissions_Read p && negb (GrantPermissions_Write p) && negb (GrantPermissions_Rename p)
  else if direction =s "receive" then GrantPermissions_Write p
  else if direction =s "send_receive" then GrantPermissions_Read p && GrantPermissions_Write p
  else false.
Definition role_ok (peer : Peer) (direction : string) : bool :=
  negb ((Peer_TransferMode peer =s "one_sided")
        && ((Peer_LocalRole peer =s "sender") && (direction ≠s "send") || (Peer_LocalRole peer =s "receiver") && (direction ≠s "receive"))).
Definition validateDirection (peer : Peer) (grant : TransferPathGrant) : result () :=
  if direction_ok (TransferPathGrant_Permissions grant) (TransferPathGrant_Direction grant) && role_ok peer (TransferPathGrant_Direction grant) then Ok () else Err ErrInvalid.
Definition writes (grant : TransferPathGrant) : bool :=
  let p := TransferPathGrant_Permissions grant in
  GrantPermissions_Write p || GrantPermissions_Delete p || GrantPermissions_Rename p
  || (TransferPathGrant_Direction grant =s "receive") || (TransferPathGrant_Direction grant =s "send_receive").
(** The grant that is asked for, before its identifier, dates and policies are set. *)
Definition grant_of (input : Input) : TransferPathGrant :=
  mkTransferPathGrant false "" "" (TrimSpace (Input_PeerNodeID input)) (TrimSpace (Input_MountID input)) (normalizePath (Input_Path input))
    (ToLower (TrimSpace (Input_Direction input))) (Input_Permissions input) [] (Input_Exclude input) (Input_VisibleToPeer input) (Input_Enabled input)
    (Input_CorrelationID input) zero_time zero_time.
(** A peer that cannot be read has no state, and is refused like one that is not
    trusted. *)
Definition validate o ctx d (input : Input) : result TransferPathGrant :=
  let grant := grant_of input in
  match filepolicy.ValidatePatterns (Input_Exclude input) with Err _ => Err ErrInvalid | Ok _ =>
  if (TransferPathGrant_PeerNodeID grant =s "") || (TransferPathGrant_MountID grant =s "") then Err ErrInvalid else
  match (db_call o ctx (GetPeer (TransferPathGrant_PeerNodeID grant)) d).2 with Err _ => Err ErrInvalid | Ok peer =>
  if negb (TrustedPeerState (Peer_State peer)) then Err ErrInvalid else
  match GetMount o ctx d (TransferPathGrant_MountID grant) with Err _ => Err ErrInvalid | Ok mount =>
  if negb (Mount_Enabled mount) then Err ErrInvalid else
  if TransferPathGrant_VisibleToPeer grant && negb (Mount_Published mount) then Err ErrInvalid else
  match Metadata o ctx d (TransferPathGrant_MountID grant) (TransferPathGrant_Path grant) with Err _ => Err ErrInvalid | Ok _ =>
  validateDirection peer grant ≫= λ _,
  if (Mount_Mode mount ≠s "read_write") && writes grant then Err ErrInvalid else
  policies ← normalizePolicies (Input_ConflictPolicies input) (TransferPathGrant_Direction grant);
  Ok (grant <| TransferPathGrant_ConflictPolicies := policies |>)
  end end end end.

Definition same_scope (a b : TransferPathGrant) : bool :=
  (TransferPathGrant_PeerNodeID a =s TransferPathGrant_PeerNodeID b) && (TransferPathGrant_MountID a =s TransferPathGrant_MountID b)
  && (TransferPathGrant_Path a =s TransferPathGrant_Path b) && (TransferPathGrant_Direction a =s TransferPathGrant_Direction b).
Definition list_grants o ctx d : result (list TransferPathGrant) := (db_call o ctx (ListTransferGrants transfers.effective) d).2.
(** A grant of a mount that is gone is listed. *)
Definition List o ctx d : result (list TransferPathGrant) :=
  items ← list_grants o ctx d;
  foldM (λ visible item,
    match IsHiddenPath o ctx d (TransferPathGrant_MountID item) (TransferPathGrant_Path item) with
    | Err e => if bool_decide (e = filesystem.ErrNotFound) then Ok (visible ++ [item]) else Err e
    | Ok hidden => Ok (if (hidden : bool) then visible else visible ++ [item])
    end) [] items.
(** [id] is the new identifier, [now] the present of the service and [clock] that of
    the store. *)
Definition Create o ctx (id : string) (now clock : time) (input : Input) (d : db) : db * result TransferPathGrant :=
  match validate o ctx d input with Err e => (d, Err e) | Ok grant =>
  match list_grants o ctx d with Err e => (d, Err e) | Ok existing =>
  if existsb (same_scope grant) existing then (d, Err ErrConflict) else
  let grant := grant <| TransferPathGrant_ID := id |> <| TransferPathGrant_CreatedAt := now |> <| TransferPathGrant_UpdatedAt := now |> in
  match db_call o ctx (CreateTransferGrant grant clock) d with (d', Err e) => (d', Err e) | (d', Ok _) => (d', Ok grant) end
  end end.
Definition or_not_found {A} (r : result A) : result A := match r with Ok a => Ok a | Err e => Err (if bool_decide (e = StateProg.ErrNotFound) then ErrNotFound else e) end.
Definition Update o ctx (id : string) (now clock : time) (input : Input) (d : db) : db * result TransferPathGrant :=
  match or_not_found (db_call o ctx (GetTransferGrant transfers.effective id) d).2 with Err e => (d, Err e) | Ok existing =>
  match validate o ctx d input with Err e => (d, Err e) | Ok grant =>
  let grant := grant <| TransferPathGrant_ID := TransferPathGrant_ID existing |> <| TransferPathGrant_CreatedAt := TransferPathGrant_CreatedAt existing |>
                     <| TransferPathGrant_UpdatedAt := now |> in
  match list_grants o ctx d with Err e => (d, Err e) | Ok items =>
  if existsb (λ item, (TransferPathGrant_ID item ≠s TransferPathGrant_ID grant) && same_scope grant item) items then (d, Err ErrConflict) else
  let '(d', r) := db_call o ctx (UpdateTransferGrant grant clock) d in (d', or_not_found r ≫= λ _, Ok grant)
  end end end.
Definition Delete o ctx (id correlationID : string) (now clock : time) (d : db) : db * result () :=
  let '(d', r) := db_call o ctx (DeleteTransferGrant id correlationID now clock) d in (d', or_not_found r).
End Service.
End grants.

(** * Paths *)

Section Paths.
Import filesystem.

(** The names along a path; a path of such names leads down. *)
Definition names (path : string) : list string := filter (λ p, p ≠ "" ∧ p ≠ ".") (Split slash path).
Definition normal (p : string) : Prop := p ≠ "" ∧ p ≠ "." ∧ p ≠ ".." ∧ slash ∉ bytes p.
Definition under (root : string) (l : list string) : string := match l with [] => root | _ => root +++ "/" +++ Join slash l end.

Lemma clean_skip rooted stack seg : seg = "" ∨ seg = "." → clean_step rooted stack seg = stack.
Proof. unfold clean_step. by intros [-> | ->]. Qed.
Lemma clean_push rooted stack seg : normal seg → clean_step rooted stack seg = seg :: stack.
Proof. intros (H1 & H2 & H3 & _). unfold clean_step. by rewrite !bool_decide_false. Qed.
Lemma clean_pushes rooted stack l : Forall (λ p, p = "" ∨ p = "." ∨ normal p) l → foldl (clean_step rooted) stack l = rev (filter (λ p, p ≠ "" ∧ p ≠ ".") l) ++ stack.
Proof.
  intros Hl. revert stack. induction Hl as [|p l Hp Hl IH]; intros stack; [done|]. cbn [foldl]. rewrite IH. destruct Hp as [->|[->|Hp]].
  - rewrite clean_skip, filter_cons_False by naive_solver. done.
  - rewrite clean_skip, filter_cons_False by naive_solver. done.
  - rewrite clean_push, filter_cons_True by (done || by destruct Hp as (? & ? & _)). cbn [rev]. by rewrite <-app_assoc.
Qed.
(** The stack of path.Clean: names, above steps up when the path is not rooted. *)
Lemma clean_stack rooted l : Forall (λ p, slash ∉ bytes p) l → ∃ k m, foldl (clean_step rooted) [] l = m ++ replicate k ".." ∧ Forall normal m ∧ (rooted = true → k = 0%nat).
Proof.
  induction l as [|p l IH] using rev_ind; [by exists 0%nat, []|]. intros [Hl Hp]%Forall_app. rewrite Forall_singleton in Hp. destruct (IH Hl) as (k & m & Hst & Hm & Hk). rewrite foldl_app, Hst. cbn [foldl].
  destruct (decide (p = "" ∨ p = ".")) as [Hskip|Hns]; [rewrite clean_skip by done; by exists k, m|]. destruct (decide (p = "..")) as [->|Hup].
  - unfold clean_step. cbn. destruct m as [|x m]; [destruct k as [|k]; cbn|].
    + destruct rooted; [by exists 0%nat, []|by exists 1%nat, []].
    + exists (S (S k)), []. split_and!; [done|done|]. intros Hr. by apply Hk in Hr.
    + apply Forall_cons in Hm as [(_ & _ & Hx & _) Hm]. cbn. rewrite (bool_decide_false (x = "..")) by done. by exists k, m.
  - rewrite clean_push by (split_and!; naive_solver). exists k, (p :: m). split_and!; [done| |done]. constructor; [|done]. split_and!; naive_solver.
Qed.
Lemma Split_slashless s : Forall (λ p, slash ∉ bytes p) (Split slash s).
Proof. apply Forall_forall. intros p. apply Split_no_sep. Qed.
Lemma Join_app a b : a ≠ [] → b ≠ [] → Join slash (a ++ b) = Join slash a +++ "/" +++ Join slash b.
Proof.
  intros Ha Hb. induction a as [|x a IH]; [done|]. destruct a as [|y a]; [destruct b; [done|]; reflexivity|]. change (Join slash ((x :: y :: a) ++ b)) with (x +++ String slash (Join slash ((y :: a) ++ b))).
  rewrite IH by done. change (Join slash (x :: y :: a)) with (x +++ String slash (Join slash (y :: a))). by rewrite append_assoc.
Qed.
Definition clean_text (l : list string) : string := match l with [] => "." | _ => Join slash l end.
Lemma normal_join l : l ≠ [] → Forall normal l → Split slash (Join slash l) = l.
Proof. intros Hne Hl. apply Split_Join; [done|]. intros x Hx. rewrite Forall_forall in Hl. by destruct (Hl x Hx) as (_ & _ & _ & ?). Qed.
Lemma filter_normal l : Forall normal l → filter (λ p, p ≠ "" ∧ p ≠ ".") l = l.
Proof. induction 1 as [|p l (H1 & H2 & _) _ IH]; [done|]. rewrite filter_cons_True by done. by rewrite IH. Qed.
Lemma names_clean_text l : Forall normal l → names (clean_text l) = l ∧ Split slash (clean_text l) = match l with [] => ["."] | _ => l end.
Proof. intros Hl. unfold names, clean_text. destruct l as [|p l]; [done|]. rewrite normal_join by done. by rewrite filter_normal. Qed.
Lemma Join_ne p l : p ≠ "" → Join slash (p :: l) ≠ "".
Proof. destruct p; [done|]. by destruct l. Qed.
Lemma rev_replicate {A} n (x : A) : rev (replicate n x) = replicate n x.
Proof. induction n as [|n IH]; [done|]. cbn [replicate rev]. by rewrite IH, <-replicate_S_end. Qed.
(** A relative path that is clean leads down, unless it begins with a step up. *)
Lemma clean_relative s : HasPrefix s "/" = false → escapes (path_Clean s) = false →
  ∃ l, Forall normal l ∧ path_Clean s = clean_text l ∧ foldl (clean_step false) [] (Split slash s) = rev l.
Proof.
  intros Hr He. destruct (clean_stack false (Split slash s) (Split_slashless s)) as (k & m & Hst & Hm & _). unfold path_Clean in *. rewrite Hr, Hst in *. rewrite append_nil_l in *.
  destruct k as [|k].
  - rewrite app_nil_r in *. exists (rev m). rewrite rev_involutive. split_and!; [by apply Forall_rev| |done]. destruct m as [|x m] using rev_ind; [done|]. clear IHm. rewrite rev_app_distr in *. cbn [rev app] in *.
    apply Forall_app in Hm as [_ Hx]. rewrite Forall_singleton in Hx. destruct Hx as (Hx & _). rewrite bool_decide_false by by apply Join_ne. done.
  - exfalso. rewrite rev_app_distr in He. rewrite rev_replicate in He. cbn [replicate app] in He. rewrite bool_decide_false in He by by apply Join_ne. unfold escapes in He. destruct (replicate k ".." ++ rev m) as [|y l]; [done|].
    change (Join slash (".." :: y :: l)) with ("../" +++ Join slash (y :: l)) in He. unfold HasPrefix in He. rewrite (proj2 (StripPrefix_Some _ _ _) eq_refl), orb_true_r in He. done.
Qed.
Lemma up_stays stack seg : ".." ∈ stack → ".." ∈ clean_step false stack seg.
Proof.
  intros Hin. unfold clean_step. destruct (_ || _); [done|]. case_bool_decide as Hs; [|by right]. destruct stack as [|top rest]; [by apply elem_of_nil in Hin|]. case_bool_decide as Ht; [by left|].
  apply elem_of_cons in Hin as [<-|Hin]; [by destruct Ht|done].
Qed.
(** Where no step leads up, a rooted path is cleaned like a relative one. *)
Lemma clean_rooted l : ".." ∉ foldl (clean_step false) [] l → foldl (clean_step true) [] l = foldl (clean_step false) [] l.
Proof.
  induction l as [|p l IH] using rev_ind; [done|]. rewrite !foldl_app. cbn [foldl]. intros Hn. rewrite IH by (intros Hin; by apply Hn, up_stays).
  unfold clean_step in *. destruct (_ || _); [done|]. case_bool_decide; [|done]. destruct (foldl _ [] l); [|done]. by destruct Hn; left.
Qed.
Lemma slashes_split v : ∃ j, Split slash v = replicate j "" ++ Split slash (TrimLeftByte slash v) ∧ HasPrefix v "/" = bool_decide (j ≠ 0%nat) ∧ (j = 0%nat → TrimLeftByte slash v = v)
  ∧ HasPrefix (TrimLeftByte slash v) "/" = false.
Proof.
  induction v as [|c v IH]; [by exists 0%nat|]. cbn [TrimLeftByte]. destruct (decide (c = slash)) as [->|Hc].
  - destruct IH as (j & Hj & _ & _ & Hn). exists (S j). rewrite HasPrefix_one, !bool_decide_true by done. split_and!; [|done|done|done]. cbn [Split]. rewrite decide_True by done. by rewrite Hj.
  - exists 0%nat. rewrite HasPrefix_one, !bool_decide_false by (done || naive_solver). done.
Qed.
Lemma foldl_empty rooted stack j l : foldl (clean_step rooted) stack (replicate j "" ++ l) = foldl (clean_step rooted) stack l.
Proof. induction j as [|j IH]; [done|]. cbn [replicate app foldl]. by rewrite clean_skip by by left. Qed.
Lemma names_cons l : Forall normal l → names ("/" +++ Join slash l) = l ∧ Forall (λ p, p = "" ∨ p = "." ∨ normal p) (Split slash ("/" +++ Join slash l)).
Proof.
  intros Hl. unfold names. change ("/" +++ Join slash l) with ("" +++ String slash (Join slash l)). rewrite Split_app. change (Split slash "") with [""]. cbn [app].
  rewrite filter_cons_False by naive_solver. destruct l as [|p l]; [by split; [|repeat constructor]|]. rewrite normal_join by done. split; [by apply filter_normal|].
  constructor; [by left|]. eapply Forall_impl; [exact Hl|]. by right; right.
Qed.
(** The file service reads the names of a path that was found to lead down the same
    way. *)
Lemma cleaned_names v : escapes (path_Clean (TrimLeftByte slash v)) = false →
  names (path_Clean v) = names (path_Clean (TrimLeftByte slash v)) ∧ Forall normal (names (path_Clean v)) ∧ Forall (λ p, p = "" ∨ p = "." ∨ normal p) (Split slash (path_Clean v)).
Proof.
  intros He. destruct (slashes_split v) as (j & Hj & Hp & H0 & Hn). destruct (clean_relative _ Hn He) as (l & Hl & Hc & Hst). destruct (names_clean_text l Hl) as [Hnames Hsplit]. rewrite Hc, Hnames.
  assert (Forall (λ p, p = "" ∨ p = "." ∨ normal p) (Split slash (clean_text l))) as Hok.
  { rewrite Hsplit. destruct l; [repeat constructor; by right; left|]. eapply Forall_impl; [exact Hl|]. by right; right. }
  destruct j as [|j]; [rewrite (H0 eq_refl) in Hc; rewrite Hc, Hnames; done|]. rewrite bool_decide_true in Hp by done. 
  assert (".." ∉ rev l) as Hup. { intros Hin%list_elem_of_In%in_rev%list_elem_of_In. rewrite Forall_forall in Hl. by destruct (Hl _ Hin) as (_ & _ & ? & _). }
  assert (path_Clean v = "/" +++ Join slash l) as ->.
  { unfold path_Clean. rewrite Hp, Hj, foldl_empty, clean_rooted, Hst, rev_involutive by (by rewrite Hst). by rewrite bool_decide_false. }
  destruct (names_cons l Hl) as [-> Hf]. done.
Qed.
Lemma Clean_under root clean : path_Clean root = root → HasPrefix root "/" = true → root ≠ "/" → Forall (λ p, p = "" ∨ p = "." ∨ normal p) (Split slash clean) →
  path_Join root clean = under root (names clean).
Proof.
  intros Hr Hp Hne Hc. destruct root as [|c root]; [done|]. unfold path_Join. rewrite bool_decide_false by done. set (r := String c root) in *.
  change (r +++ "/" +++ clean) with (r +++ String slash clean). unfold path_Clean. assert (HasPrefix (r +++ String slash clean) "/" = true) as ->.
  { subst r. rewrite append_cons. by rewrite !HasPrefix_one in *. }
  rewrite Split_app, foldl_app, clean_pushes by done. fold (names clean). rewrite rev_app_distr, rev_involutive. unfold path_Clean in Hr. rewrite Hp in Hr.
  set (st := foldl (clean_step true) [] (Split slash r)) in *. clearbody st. rewrite bool_decide_false in Hr by done. destruct (names clean) as [|p l].
  - rewrite app_nil_r. rewrite bool_decide_false by done. done.
  - rewrite bool_decide_false by done. cbn [under]. assert (rev st ≠ []) as Hst. { intros Hst. rewrite Hst in Hr. cbn in Hr. by destruct Hne. }
    rewrite Join_app by done. rewrite <-Hr. by rewrite append_assoc.
Qed.
End Paths.

(** * What a grant covers *)

Section Confined.
Context {U : Unicode} {F : Files} {YMount : Yaml Mount} {YGrant : Yaml TransferPathGrant} {YPeer : Yaml Peer}.

(** The names lead down from the path of the grant, and none is excluded. *)
Definition covers (grant : TransferPathGrant) (l : list string) : Prop :=
  names (transfers.cleanRelative (TransferPathGrant_Path grant)) `prefix_of` l ∧ Forall normal l ∧ Forall (λ p, filepolicy.Hidden (TransferPathGrant_Exclude grant) p = false) l.

Lemma Contains_byte c s : Contains s (String c "") = false → c ∉ bytes s.
Proof.
  induction s as [|d s IH]; [intros _; apply not_elem_of_nil|]. cbn [Contains]. rewrite HasPrefix_one. intros [H1 H2]%orb_false_iff. apply bool_decide_eq_false in H1. cbn. apply not_elem_of_cons. split; [congruence|by apply IH].
Qed.
Lemma ReplaceByte_none s a b : a ∉ bytes s → ReplaceByte s a b = s.
Proof.
  intros Hn. unfold ReplaceByte. assert ((λ c, if decide (c = a) then b else c) <$> bytes s = bytes s) as ->; [|apply String.string_of_list_ascii_of_string].
  induction (bytes s) as [|c l IH]; [done|]. apply not_elem_of_cons in Hn as [Hc Hn]. rewrite fmap_cons, decide_False by congruence. f_equal. by apply IH.
Qed.
Lemma clean_not_root w : HasPrefix w "/" = false → path_Clean w ≠ "" ∧ path_Clean w ≠ "/".
Proof.
  intros Hw. destruct (clean_stack false (Split slash w) (Split_slashless w)) as (k & m & Hst & Hm & _). unfold path_Clean. rewrite Hw, Hst, append_nil_l. case_bool_decide as He; [done|]. split; [done|].
  intros Hj. set (l := rev (m ++ replicate k "..")) in *. assert (Forall (λ p, p ≠ "" ∧ slash ∉ bytes p) l) as Hl.
  { subst l. apply Forall_rev, Forall_app. split; [eapply Forall_impl; [exact Hm|]; by intros p (? & _ & _ & ?)|]. apply Forall_replicate. split; [done|]. by vm_compute; set_solver. }
  clearbody l. assert (Split slash (Join slash l) = l) as Hs. { apply Split_Join; [by intros ->|]. intros x Hx. rewrite Forall_forall in Hl. by apply Hl. }
  rewrite Hj in Hs. change (Split slash "/") with [""; ""] in Hs. subst l. by apply Forall_cons in Hl as [[] _].
Qed.
Lemma below_names base path : transfers.below base path = true → names base `prefix_of` names path.
Proof.
  unfold transfers.below. rewrite !orb_true_iff. intros [[->%bool_decide_eq_true| ->%bool_decide_eq_true]|Hp]; [apply prefix_nil|done|].
  unfold HasPrefix in Hp. apply bool_decide_eq_true in Hp as [z Hz]. apply StripPrefix_Some in Hz as ->. rewrite append_assoc. change ("/" +++ z) with (String slash z). unfold names. rewrite Split_app, filter_app. by eexists.
Qed.
(** What is checked of a path are the names the file service then reads. *)
Lemma validated_path grant p : transfers.validateGrantDestination grant p = Ok () →
  covers grant (names (filesystem.cleanRelative p)) ∧ Forall (λ q, q = "" ∨ q = "." ∨ normal q) (Split slash (filesystem.cleanRelative p)).
Proof.
  unfold transfers.validateGrantDestination. destruct (_ || _) eqn:H1; [done|]. apply orb_false_iff in H1 as [_ Hb%Contains_byte].
  assert (transfers.cleanRelative p = path_Clean (TrimLeftByte slash (TrimSpace p))) as Hc.
  { unfold transfers.cleanRelative. rewrite ReplaceByte_none by done. destruct (slashes_split (TrimSpace p)) as (_ & _ & _ & _ & Hn). destruct (clean_not_root _ Hn) as [Hn1 Hn2]. by rewrite !bool_decide_false. }
  assert (filesystem.cleanRelative p = path_Clean (TrimSpace p)) as Hf by (unfold filesystem.cleanRelative; case_bool_decide as Hv; [by rewrite Hv|done]).
  rewrite Hc, Hf. set (resolved := path_Clean (TrimLeftByte slash (TrimSpace p))) in *. destruct (_ || _) eqn:H2; [done|]. apply orb_false_iff in H2 as [He Hbelow%negb_false_iff].
  destruct (existsb _ _) eqn:Hh; [done|]. intros _. destruct (cleaned_names _ He) as (Hn & Hnormal & Hok). split; [|done]. rewrite Hn in *. split_and!; [by apply below_names|done|].
  apply Forall_forall. intros q Hq. rewrite <-not_true_iff_false. intros Hhid. rewrite <-not_true_iff_false in Hh. apply Hh, existsb_exists. exists q. apply list_elem_of_filter in Hq as [[_ Hdot] Hq].
  split; [by apply list_elem_of_In|]. rewrite bool_decide_false by done. done.
Qed.
Lemma within_path grant relative p : transfers.withinGrantWithExclusions grant relative = Ok p → transfers.validateGrantDestination grant p = Ok ().
Proof. unfold transfers.withinGrantWithExclusions. destruct (transfers.withinGrant _ _) as [q|]; [|done]. cbn. destruct (transfers.validateGrantDestination grant q) as [[]|] eqn:Hv; [|done]. by intros [= <-]. Qed.

(** The mount is one of the node's, in use, at a place that is absolute and clean, as
    it is saved. *)
Definition clean_root (root : string) : Prop := path_Clean root = root ∧ HasPrefix root "/" = true ∧ root ≠ "/".
Lemma opened_path o ctx d mountID p path info : filesystem.Open o ctx d mountID p = Ok (path, info) → ∃ mount, filesystem.stored_mount o ctx d mountID = Ok mount ∧ Mount_Enabled mount = true
  ∧ path = path_Join (Mount_LocalPath mount) (filesystem.cleanRelative p) ∧ Forall (λ q, filesystem.hiddenName mount q = false) (names (filesystem.cleanRelative p)).
Proof.
  unfold filesystem.Open, filesystem.resolve, filesystem.resolvePath, filesystem.GetMount. destruct (filesystem.stored_mount o ctx d mountID) as [mount|] eqn:Hm; cbn [mbind result_bind]; [|done].
  destruct (filesystem.candidate (filesystem.diagnose mount) p false) as [c|] eqn:Hc; cbn [mbind result_bind orb]; [|done]. destruct (filesystem.as_not_found _); cbn [mbind result_bind]; [|done].
  destruct (safeOpen c) as [i|]; cbn [mbind result_bind]; [|done]. destruct (negb (IsRegular i)); [done|]. intros [= <- <-]. exists mount. split; [done|].
  unfold filesystem.candidate in Hc. assert (Mount_Enabled (filesystem.diagnose mount) = Mount_Enabled mount ∧ Mount_LocalPath (filesystem.diagnose mount) = Mount_LocalPath mount
    ∧ Mount_HiddenPatterns (filesystem.diagnose mount) = Mount_HiddenPatterns mount) as (He & Hl & Hh) by (unfold filesystem.diagnose; by destruct (mount_state mount) as [[[? ?] ?] ?]).
  rewrite He, Hl in Hc. destruct (Mount_Enabled mount); [|done]. cbn [negb] in Hc. destruct (_ || _); [done|]. destruct (existsb _ _) eqn:Hx; [done|]. destruct (negb _); [done|]. injection Hc as <-.
  split_and!; [done..|]. apply Forall_forall. intros q Hq. apply list_elem_of_filter in Hq as [[_ Hdot] Hq]. rewrite <-not_true_iff_false in Hx |- *. intros Hhid. apply Hx, existsb_exists. exists q.
  split; [by apply list_elem_of_In|]. unfold filesystem.hidden_part. rewrite bool_decide_false by done. unfold filesystem.hiddenName in *. by rewrite Hh.
Qed.
Lemma send_grant_inv o ctx d peer id grant : transfers.sendGrant o ctx d peer id = Ok grant → transfers.stored_grant o ctx d id = Ok grant ∧ TransferPathGrant_Enabled grant = true
  ∧ TransferPathGrant_PeerNodeID grant = peer ∧ TransferPathGrant_Direction grant ∈ ["send"; "send_receive"] ∧ GrantPermissions_Read (TransferPathGrant_Permissions grant) = true.
Proof.
  unfold transfers.sendGrant. destruct (transfers.stored_grant o ctx d id) as [g|]; cbn [mbind result_bind]; [|done]. destruct (_ || _ || _ || _) eqn:H; [done|]. destruct (negb (transfers.patterns_ok g)); [done|]. intros [= <-].
  apply orb_false_iff in H as [[[H1 H2]%orb_false_iff H3]%orb_false_iff H4]. apply negb_false_iff in H1, H2, H4. apply bool_decide_eq_true in H2. split_and!; [done..| |done].
  apply andb_false_iff in H3 as [H3|H3]; rewrite negb_false_iff in H3; apply bool_decide_eq_true in H3 as ->; set_solver.
Qed.

(** C22. What a peer reads lies in what it was granted: whatever path it asks for, the file
    that is opened is in the mount of a grant to that peer that is in use and lets it
    read, at or below the path of the grant; no step on the way leads up, and no name
    on it is excluded by the grant or hidden by the mount. *)
Theorem peer_reads_confined o ctx d peer id relative path info : transfers.OpenSource o ctx d peer id relative = Ok (path, info) → ∃ grant mount l,
  transfers.stored_grant o ctx d id = Ok grant ∧ TransferPathGrant_Enabled grant = true ∧ TransferPathGrant_PeerNodeID grant = peer
  ∧ TransferPathGrant_Direction grant ∈ ["send"; "send_receive"] ∧ GrantPermissions_Read (TransferPathGrant_Permissions grant) = true
  ∧ filesystem.stored_mount o ctx d (TransferPathGrant_MountID grant) = Ok mount ∧ Mount_Enabled mount = true
  ∧ (clean_root (Mount_LocalPath mount) → path = under (Mount_LocalPath mount) l)
  ∧ covers grant l ∧ Forall (λ q, filesystem.hiddenName mount q = false) l.
Proof.
  unfold transfers.OpenSource. destruct (transfers.sendGrant o ctx d peer id) as [grant|] eqn:Hg; cbn [mbind result_bind]; [|done]. apply send_grant_inv in Hg as (Hg & He & Hp & Hd & Hr).
  destruct (transfers.withinGrantWithExclusions grant relative) as [p|] eqn:Hw; cbn [mbind result_bind]; [|done]. apply within_path, validated_path in Hw as [Hc Hok].
  intros (mount & Hm & Hen & -> & Hh)%opened_path. exists grant, mount, (names (filesystem.cleanRelative p)). split_and!; [done..| |done|done]. intros (H1 & H2 & H3). by apply Clean_under.
Qed.
Lemma receive_grant_inv o ctx d peer id policy grant : transfers.receiveGrant o ctx d peer id policy = Ok grant → transfers.stored_grant o ctx d id = Ok grant ∧ TransferPathGrant_Enabled grant = true
  ∧ TransferPathGrant_PeerNodeID grant = peer ∧ TransferPathGrant_Direction grant ∈ ["receive"; "send_receive"] ∧ GrantPermissions_Write (TransferPathGrant_Permissions grant) = true
  ∧ transfers.normalizePolicy policy ∈ TransferPathGrant_ConflictPolicies grant.
Proof.
  unfold transfers.receiveGrant. destruct (transfers.stored_grant o ctx d id) as [g|]; cbn [mbind result_bind]; [|done]. destruct (_ || _ || _ || _) eqn:H; [done|].
  destruct (negb (transfers.patterns_ok g)); [done|]. destruct (negb (transfers.contains _ _)) eqn:Hc; [done|]. intros [= <-].
  apply orb_false_iff in H as [[[H1 H2]%orb_false_iff H3]%orb_false_iff H4]. apply negb_false_iff in H1, H2, H4, Hc. apply bool_decide_eq_true in H2. split_and!; [done..| |done|].
  - apply andb_false_iff in H3 as [H3|H3]; rewrite negb_false_iff in H3; apply bool_decide_eq_true in H3 as ->; set_solver.
  - apply existsb_exists in Hc as (x & Hx & ->%bool_decide_eq_true). by apply list_elem_of_In.
Qed.
Lemma unique_validated o ctx d grant base extension count index c : transfers.unique_from o ctx d grant base extension count index = Ok c → transfers.validateGrantDestination grant c = Ok ().
Proof.
  revert index. induction count as [|count IH]; intros index; [done|]. cbn [transfers.unique_from]. set (x := base +++ " (" +++ GoLib.dec index +++ ")" +++ extension).
  destruct (transfers.try_name o ctx d grant x) as [[name|]|] eqn:Ht; cbn [mbind result_bind]; [|by apply IH|done]. intros [= <-]. unfold transfers.try_name in Ht.
  destruct (transfers.validateGrantDestination grant x) as [[]|e] eqn:Hv; [|by case_bool_decide]. destruct (filesystem.IsHiddenPath _ _ _ _ _) as [[]|]; cbn [mbind result_bind] in Ht; [done| |done].
  destruct (filesystem.Metadata _ _ _ _ _); [done|]. case_bool_decide; [|done]. by injection Ht as <-.
Qed.
Lemma renamed_validated o ctx d grant destination c : transfers.uniqueDestination o ctx d grant destination = Ok c → transfers.validateGrantDestination grant c = Ok ().
Proof. unfold transfers.uniqueDestination. generalize transfers.max_names. intros n. apply unique_validated. Qed.
(** C23. A pull of a file is created only where a grant to the peer allows it to
    be written. The request CreatePull makes to the job service names a trusted
    peer and the mount of a grant that is in use, lets that peer write and has the
    conflict policy, and its destination, renamed or not, lies at or below the path
    of the grant, on names that it does not exclude. *)
Theorem pull_confined o ctx d request created : transfers.CreatePull o ctx d request = Ok created → ∃ peer grant,
  (db_call o ctx (GetPeer (TrimSpace (transfers.Pull_PeerNodeID request))) d).2 = Ok peer ∧ TrustedPeerState (Peer_State peer) = true
  ∧ transfers.stored_grant o ctx d (transfers.Pull_DestinationGrantID request) = Ok grant ∧ TransferPathGrant_Enabled grant = true
  ∧ TransferPathGrant_PeerNodeID grant = Peer_NodeID peer ∧ TransferPathGrant_Direction grant ∈ ["receive"; "send_receive"]
  ∧ GrantPermissions_Write (TransferPathGrant_Permissions grant) = true ∧ transfers.Create_ConflictPolicy created ∈ TransferPathGrant_ConflictPolicies grant
  ∧ transfers.Create_MountID created = TransferPathGrant_MountID grant ∧ covers grant (names (filesystem.cleanRelative (transfers.Create_Destination created))).
Proof.
  unfold transfers.CreatePull, transfers.pulling_peer. destruct (db_call o ctx (GetPeer _) d).2 as [peer|]; [|done]. destruct (TrustedPeerState (Peer_State peer)) eqn:Ht; [|done]. cbn [negb].
  destruct (Peer_MTLSEndpoint peer =s ""); [done|]. cbn [mbind result_bind]. destruct (_ =s "ask"); [done|]. unfold transfers.receiveDestination.
  destruct (transfers.receiveGrant _ _ _ _ _ _) as [grant|] eqn:Hg; cbn [mbind result_bind]; [|done]. apply receive_grant_inv in Hg as (Hg & He & Hp & Hd & Hw & Hpol).
  destruct (transfers.withinGrantWithExclusions _ _) as [dest|] eqn:Hwithin; cbn [mbind result_bind]; [|done]. apply within_path in Hwithin.
  destruct (transfers.settle _ _ _ _ _ _) as [dest'|] eqn:Hs; cbn [mbind result_bind]; [|done]. intros [= <-]. exists peer, grant. split_and!; try done. cbn [transfers.Create_Destination].
  assert (transfers.validateGrantDestination grant dest' = Ok ()) as Hv; [|by apply validated_path in Hv as [? _]]. unfold transfers.settle in Hs.
  destruct (filesystem.Metadata _ _ _ _ _) as [entry|e]; [|case_bool_decide; [by simplify_eq|done]]. destruct (negb _); [done|]. destruct (_ =s "fail"); [done|]. destruct (_ =s "rename"); [|by simplify_eq].
  by apply renamed_validated in Hs.
Qed.
Lemma trusted_peer_inv o ctx d nodeID peer : transfers.trustedPeer o ctx d nodeID = Ok peer →
  (db_call o ctx (GetPeer (TrimSpace nodeID)) d).2 = Ok peer ∧ TrustedPeerState (Peer_State peer) = true.
Proof.
  unfold transfers.trustedPeer. destruct (db_call o ctx (GetPeer _) d).2 as [p|]; [|done]. destruct (TrustedPeerState (Peer_State p)) eqn:Ht; [|done].
  cbn [negb]. destruct (_ =s ""); [done|]. by intros [= <-].
Qed.
(** What a job may receive now: its peer is trusted, its grant is in use, lets that
    peer write, has its conflict policy and is for its mount, and covers its
    destination. *)
Definition may_receive o ctx d (job : Job) : Prop := ∃ peer grant,
  (db_call o ctx (GetPeer (TrimSpace (Job_PeerNodeID job))) d).2 = Ok peer ∧ TrustedPeerState (Peer_State peer) = true
  ∧ transfers.stored_grant o ctx d (Job_DestinationGrantID job) = Ok grant ∧ TransferPathGrant_Enabled grant = true
  ∧ TransferPathGrant_PeerNodeID grant = Peer_NodeID peer ∧ TransferPathGrant_Direction grant ∈ ["receive"; "send_receive"]
  ∧ GrantPermissions_Write (TransferPathGrant_Permissions grant) = true ∧ transfers.normalizePolicy (Job_ConflictPolicy job) ∈ TransferPathGrant_ConflictPolicies grant
  ∧ TransferPathGrant_MountID grant = Job_MountID job ∧ covers grant (names (filesystem.cleanRelative (Job_Destination job))).
(** What a peer has deleted after a move lies in what it was granted, by a grant that
    lets it delete. *)
Lemma peer_deletes_confined o ctx d peer id relative root etag recursive mountID path : transfers.DeleteSource o ctx d peer id relative root etag recursive = Ok (mountID, path) → recursive = false ∧ ∃ grant,
  transfers.stored_grant o ctx d id = Ok grant ∧ TransferPathGrant_Enabled grant = true ∧ TransferPathGrant_PeerNodeID grant = peer ∧ mountID = TransferPathGrant_MountID grant
  ∧ GrantPermissions_Delete (TransferPathGrant_Permissions grant) = true ∧ covers grant (names (filesystem.cleanRelative path)).
Proof.
  unfold transfers.DeleteSource. destruct recursive; [done|]. destruct (transfers.sendGrant _ _ _ _ _) as [grant|] eqn:Hg; cbn [mbind result_bind]; [|done]. apply send_grant_inv in Hg as (Hg & He & Hp & _).
  destruct (GrantPermissions_Delete _) eqn:Hdel; [|done]. cbn [negb]. destruct (transfers.withinGrantWithExclusions grant relative) as [p|] eqn:Hw; cbn [mbind result_bind]; [|done]. apply within_path, validated_path in Hw as [Hc _].
  destruct root as [root|]; [|done]. destruct (transfers.withinGrantWithExclusions grant root) as [r|]; cbn [mbind result_bind]; [|done]. destruct (negb _); [done|].
  destruct (filesystem.ValidateMoveSourceWithExclusions _ _ _ _ _ _); cbn [mbind result_bind]; [|done]. destruct (filesystem.Metadata _ _ _ _ _); cbn [mbind result_bind]; [|done]. destruct (_ && _); [done|].
  intros [= <- <-]. split; [done|]. by exists grant.
Qed.
End Confined.

(** * The grants service and the store *)

Section Active.
Context {U : Unicode} {F : Files} {YMount : Yaml Mount} {YGrant : Yaml TransferPathGrant} {YPeer : Yaml Peer}.

Lemma view_get {A} `{Yaml A} o ctx d bucket key v : (db_call o ctx (View (get A bucket key) Ok) d).2 = Ok v →
  db_available ctx d = Ok () ∧ ∃ s, bucket_of d bucket !! key = Some s ∧ Unmarshal (stored_Data s) = Ok v.
Proof.
  cbn [db_call]. unfold db_view. destruct (db_available ctx d) as [[]|]; [|done]. unfold get, try_get. cbn [mbind prog_bind run]. destruct (bucket_of d bucket !! key) as [s|]; [|done].
  destruct (Unmarshal (stored_Data s)) as [w|] eqn:Hw; [|done]. cbn. intros [= <-]. split; [done|]. by exists s.
Qed.
Lemma stored_mount_inv o ctx d id m : filesystem.stored_mount o ctx d id = Ok m → ∃ s, bucket_of d "mounts" !! id = Some s ∧ Unmarshal (stored_Data s) = Ok m.
Proof.
  unfold filesystem.stored_mount. destruct (db_call o ctx (StatePeers.GetMount id) d).2 as [m'|] eqn:Hm; [|by case_bool_decide]. intros [= <-]. by apply view_get in Hm as [_ ?].
Qed.
(** What validate accepts. *)
Lemma validate_inv o ctx d input grant : grants.validate o ctx d input = Ok grant → ∃ peer mount,
  TransferPathGrant_PeerNodeID grant = TransferPathGrant_PeerNodeID (grants.grant_of input) ∧ TransferPathGrant_InactiveReason grant = ""
  ∧ (db_call o ctx (GetPeer (TransferPathGrant_PeerNodeID grant)) d).2 = Ok peer ∧ TrustedPeerState (Peer_State peer) = true
  ∧ filesystem.stored_mount o ctx d (TransferPathGrant_MountID grant) = Ok mount ∧ Mount_Enabled mount = true
  ∧ grants.direction_ok (TransferPathGrant_Permissions grant) (TransferPathGrant_Direction grant) = true ∧ grants.role_ok peer (TransferPathGrant_Direction grant) = true
  ∧ (Mount_Mode mount ≠ "read_write" → grants.writes grant = false).
Proof.
  unfold grants.validate. set (g := grants.grant_of input). destruct (filepolicy.ValidatePatterns _); [|done]. destruct (_ || _); [done|]. destruct (db_call o ctx (GetPeer _) d).2 as [peer|] eqn:Hp; [|done].
  destruct (TrustedPeerState _) eqn:Ht; [|done]. cbn [negb]. unfold filesystem.GetMount. destruct (filesystem.stored_mount _ _ _ _) as [mount|] eqn:Hm; [|done]. cbn [mbind result_bind].
  assert (Mount_Enabled (filesystem.diagnose mount) = Mount_Enabled mount ∧ Mount_Mode (filesystem.diagnose mount) = Mount_Mode mount) as [-> ->] by (unfold filesystem.diagnose; by destruct (mount_state mount) as [[[? ?] ?] ?]).
  destruct (Mount_Enabled mount) eqn:He; [|done]. cbn [negb]. destruct (_ && _); [done|]. destruct (filesystem.Metadata _ _ _ _ _); [|done]. unfold grants.validateDirection.
  destruct (grants.direction_ok _ _ && grants.role_ok _ _) eqn:Hd; cbn [mbind result_bind]; [|done]. destruct ((_ ≠s _) && _) eqn:Hw; [done|]. destruct (grants.normalizePolicies _ _); cbn [mbind result_bind]; [|done].
  intros [= <-]. apply andb_true_iff in Hd as [Hd Hr]. exists peer, mount. split_and!; try done. intros Hmode. change (grants.writes _) with (grants.writes g). rewrite bool_decide_false in Hw by done. done.
Qed.
(** The checks of the service are those of the store: a grant that is in use when the
    service accepts it is one that the store finds in use, on a node that is managed
    or not, unless it was revoked under the same identifier. *)
Theorem validated_grants_are_active o ctx d input grant id : grants.validate o ctx d input = Ok grant → TransferPathGrant_Enabled grant = true → bucket_of d "revoked_grants" !! id = None →
  ∃ check, (db_view o ctx (prepareGrant (grant <| TransferPathGrant_ID := id |>)) d).2 = Ok check ∧ TransferPathGrant_Enabled (check_grant check) = true ∧ TransferPathGrant_InactiveReason (check_grant check) = "".
Proof.
  intros (peer & mount & _ & Hreason & Hp & Ht & Hm & He & Hd & Hr & Hw)%validate_inv Hen Hrev. apply view_get in Hp as (Hav & sp & Hsp & Hup). apply stored_mount_inv in Hm as (sm & Hsm & Hum).
  unfold db_view. rewrite Hav. unfold prepareGrant, try_get, exists_, managed, index. destruct grant as [configured reason gid peerID mountID path direction permissions policies exclude visible enabled correlation created updated]. cbn in *. subst.
  cbn [negb run]. rewrite lookup_fmap, Hrev. cbn [fmap option_fmap option_map]. rewrite bool_decide_false by by intros []. cbn [run negb]. destruct (db_managed d); cbn [negb run]; [|by eexists].
  rewrite Hsp. cbn. rewrite Hup. cbn. rewrite Ht. cbn. rewrite Hsm. cbn. rewrite Hum. cbn. rewrite He. cbn.
  unfold grants.role_ok in Hr. apply negb_true_iff in Hr. rewrite Hr.
  assert ((GrantPermissions_Write permissions || GrantPermissions_Delete permissions || GrantPermissions_Rename permissions || (direction ≠s "send")) && (Mount_Mode mount ≠s "read_write") = false) as ->.
  { destruct (Mount_Mode mount ≠s "read_write") eqn:Hmode; [|by rewrite andb_false_r]. rewrite andb_true_r. apply negb_true_iff, bool_decide_eq_false in Hmode. specialize (Hw Hmode). unfold grants.writes in Hw. cbn in Hw.
    rewrite !orb_false_iff in Hw. destruct Hw as ((((-> & ->) & ->) & H1) & H2). unfold grants.direction_ok in Hd. rewrite H1, H2 in Hd. by destruct (direction =s "send"). }
  cbn. by eexists.
Qed.
End Active.

(** * A node to compute with *)

Section Example.
#[local] Existing Instance latin1_unicode.
#[local] Instance demo_files : Files := {|
  safeStat path := if path ∈b ["/srv/a"; "/srv/a/docs"] then Ok (mkFileInfo "docs" true false 0 0)
                   else if path ∈b ["/srv/a/docs/a.txt"; "/srv/a/docs/b.key"] then Ok (mkFileInfo "a.txt" false true 5 0) else Err ErrNotExist;
  safeLstat _ := Err ErrNotExist;
  safeOpen _ := Ok (mkFileInfo "a.txt" false true 5 0);
  rejectProtectedTree _ _ := Ok ();
  mount_state _ := ("available", true, true, "");
  grant_path _ _ := None;
|}.
Definition shared (direction : string) : TransferPathGrant :=
  the_grant <| TransferPathGrant_Direction := direction |> <| TransferPathGrant_Permissions := mkGrantPermissions true true true false |>
            <| TransferPathGrant_Exclude := ["*.KEY"] |> <| TransferPathGrant_ConflictPolicies := ["rename"] |>.
Definition sharing (direction : string) : db :=
  ask (ApprovePairingInvite "inv-1" "secret" (the_peer <| Peer_MTLSEndpoint := "node-2:7443" |>) at_110)
    (ask (CreatePairingInvite the_invite "secret") (ask (ApplyConfiguration "r1" [the_mount] [shared direction] [] at_110 at_110) empty_db)).
Definition reads (relative : string) : result (string * FileInfo) := transfers.OpenSource no_faults None (sharing "send") "node-2" "g1" relative.

Example reads_a_file : reads "/sub/../a.txt " = Ok ("/srv/a/docs/a.txt", mkFileInfo "a.txt" false true 5 0).
Proof. vm_compute. reflexivity. Qed.
Example reads_are_refused : reads "../docs/a.txt" = Err filesystem.ErrTraversal ∧ reads "b.key" = Err transfers.ErrForbidden ∧ reads "c.txt" = Err filesystem.ErrNotFound.
Proof. by vm_compute. Qed.
(** The first of the two checks is not enough on its own: a step up is hidden by a
    space that is trimmed after it. *)
Example hidden_step_up : transfers.withinGrant "docs" ".. /." = Ok "." ∧ reads ".. /." = Err filesystem.ErrTraversal.
Proof. by vm_compute. Qed.

(** A state that cannot be read is reported as such by trustedPeer, but as a peer that
    is not trusted by CreatePull and by the grants service. *)
Example unreadable_peer : let d := (sharing "receive") <| unavailable := true |> in
  transfers.trustedPeer no_faults None d "node-2" = Err ErrStateUnavailable ∧ transfers.pulling_peer no_faults None d "node-2" = Err transfers.ErrForbidden.
Proof. by vm_compute. Qed.

Lemma peer_reads_confined_witness : ∃ grant mount l, transfers.stored_grant no_faults None (sharing "send") "g1" = Ok grant
  ∧ filesystem.stored_mount no_faults None (sharing "send") (TransferPathGrant_MountID grant) = Ok mount ∧ (clean_root (Mount_LocalPath mount) → "/srv/a/docs/a.txt" = under (Mount_LocalPath mount) l) ∧ covers grant l.
Proof.
  destruct (peer_reads_confined no_faults None (sharing "send") "node-2" "g1" "/sub/../a.txt " "/srv/a/docs/a.txt" (mkFileInfo "a.txt" false true 5 0))
    as (grant & mount & l & Hg & _ & _ & _ & _ & Hm & _ & Hpath & Hc & _); [vm_compute; reflexivity|]. exists grant, mount, l. exact (conj Hg (conj Hm (conj Hpath Hc))).
Defined.
Example root_is_clean : clean_root (Mount_LocalPath the_mount).
Proof. by vm_compute. Qed.

Definition the_pull : transfers.PullRequest := transfers.mkPullRequest "node-2" "g7" "x" "g1" "a.txt" "Rename" false 0 0 0 "".
Definition the_created : transfers.CreateRequest :=
  transfers.mkCreateRequest "transfer_pull" "m1" "node-2" "g7" "g1" "x" "docs/a (1).txt" "rename" false false 0 0 0 "".
Lemma pull_confined_witness : ∃ grant, transfers.stored_grant no_faults None (sharing "receive") "g1" = Ok grant ∧ covers grant (names (filesystem.cleanRelative "docs/a (1).txt")).
Proof.
  destruct (pull_confined no_faults None (sharing "receive") the_pull the_created) as (peer & grant & _ & _ & Hg & _ & _ & _ & _ & _ & _ & Hc); [vm_compute; reflexivity|]. exists grant. exact (conj Hg Hc).
Defined.

Definition the_job : Job := Job_zero <| Job_PeerNodeID := "node-2" |> <| Job_DestinationGrantID := "g1" |> <| Job_ConflictPolicy := "rename" |>
  <| Job_MountID := "m1" |> <| Job_Destination := "docs/a (1).txt" |>.
(** A grant that only sends, and a path it does not cover, stop a job that was made. *)
Example pulls_are_stopped :
  transfers.validatePublication no_faults None (sharing "send") None the_job = Err transfers.ErrForbidden ∧
  transfers.validatePublication no_faults None (sharing "receive") None (the_job <| Job_Destination := "other/a.txt" |>) = Err filesystem.ErrTraversal.
Proof. by vm_compute. Qed.

Definition the_input : grants.Input := grants.mkInput " node-2" "m1" "/docs/" "Send" (mkGrantPermissions true false false false) [] ["*.key"] false true "".
Definition validated_grant : TransferPathGrant := match grants.validate no_faults None (sharing "send") the_input with Ok g => g | Err _ => TransferPathGrant_zero end.
Lemma validated_grants_are_active_witness : ∃ check, (db_view no_faults None (prepareGrant (validated_grant <| TransferPathGrant_ID := "g2" |>)) (sharing "send")).2 = Ok check
  ∧ TransferPathGrant_Enabled (check_grant check) = true ∧ TransferPathGrant_InactiveReason (check_grant check) = "".
Proof. apply (validated_grants_are_active no_faults None (sharing "send") the_input validated_grant "g2"); vm_compute; reflexivity. Defined.
End Example.
